(* ===== verification/_CoqProject ===== *)
-Q . S2P
Prelude.v
JsString.v
JsMap.v
ContentBlocks.v
ServerToolPairing.v
HistoryRepair.v
InboundClaims.v
DedupCache.v
CanonicalJson.v
ApprovalGrants.v
VerificationSessions.v
VerificationFlow.v
CallStore.v
SenderTrust.v
ContactStore.v
ContactWrites.v
ContactSafety.v
GuardianBinding.v
ContactHistories.v
InviteRedemption.v
SessionService.v
GuardianRequests.v
GuardianDecisions.v
Admission.v
RiskTypes.v
RegistrySyntax.v
RegistryA.v
RegistryB.v
ArgParser.v
TrustRules.v
TrustRuleStore.v
ToolRisk.v
BashArgs.v
MessageQueue.v
InterruptRepair.v
QueueDrain.v
ScopeOptions.v
AssistantSpec.v
NodePath.v
PathPolicy.v
WorkspacePolicy.v
BashRisk.v
ShellIdentity.v
DirectoryScope.v
SandboxApprove.v
FileRisk.v
PowerShell.v
Registry.v
BashClassifier.v
ClassifyHandler.v
ApprovalPolicy.v
PermissionRequest.v
BashLadder.v
EdgeTokens.v
DeviceTokens.v
GuardianBootstrap.v
AuthRateLimit.v
AuthFallback.v
EdgeAuth.v
LoopbackGuard.v
RemotePairing.v
PairingSafety.v
LocalRoutes.v
RouteSafety.v
GuardianInit.v
CredentialRequests.v
