(* ===== verification/Prelude.v ===== *)
(** * Vellum assistant: verification library

    The program is a personal assistant in two processes: the daemon
    ([src/assistant]), which holds conversations and runs tools, and the gateway
    ([src/gateway]), which receives messages from the outside and rates the risk
    of what the daemon is about to do. The development models the parts that
    decide what may run, who may speak, who may call the gateway, and what happens
    to messages on the way.

    * The parts and their files

    - Foundations. [Prelude]: lists, tactics, the hint database [vellum].
      [JsString], [JsMap]: JavaScript strings, [Map] and [Set] (insertion order,
      distinct keys) with their refinement of stdpp's maps. [NodePath]: the POSIX
      half of [node:path].
    - Risk of shell commands (gateway, [src/risk]). [RiskTypes] is
      [risk-types.ts]; [ArgParser] is [arg-parser.ts], with the token grammar it
      implements; [TrustRules] is [trust-rule-cache.ts] and [TrustRuleStore] the
      table behind it ([db/trust-rule-store.ts], [db/seed-trust-rules.ts]);
      [BashArgs], [BashRisk], [BashClassifier], [ScopeOptions] and [BashLadder] are
      [bash-risk-classifier.ts] from the argument to the whole command and its
      prompt; [ShellIdentity], [DirectoryScope] and [SandboxApprove] are
      [shell-identity.ts], [directory-scope.ts] with [project-boundary.ts], and
      the sandbox auto-approval of [ipc/risk-classification-handlers.ts].
      [RegistrySyntax], [RegistryA], [RegistryB], [AssistantSpec] and [Registry]
      are the shipped registry, one definition per file of
      [risk/command-registry/commands].
    - Risk of the other tools. [ToolRisk] (web, schedule, skill), [FileRisk],
      [PowerShell]: one classifier each; [ClassifyHandler] is the IPC handler that
      routes a request to them.
    - The permission check (daemon). [PathPolicy] is
      [tools/shared/filesystem/path-policy.ts] with [util/fs-symlinks.ts];
      [WorkspacePolicy] is [permissions/workspace-policy.ts]; [ApprovalPolicy] and
      [PermissionRequest] are [permissions/approval-policy.ts] and
      [permissions/checker.ts]. A tool call goes [buildClassifyRiskParams] ->
      gateway handler -> [applyBashSymlinkEscapeCheck] -> [evaluate], and
      [check_call] is that composition.
    - Message history (daemon). [ContentBlocks], [ServerToolPairing] and
      [HistoryRepair] are [agent/history-repair] and the pairing it relies on;
      [InterruptRepair] is [daemon/conversation-interrupt-repair.ts].
    - Messages waiting for a turn (daemon). [MessageQueue] is
      [daemon/conversation-queue-manager.ts]; [QueueDrain] is the enqueueing,
      deletion, draining and requeueing around it with the events clients see.
    - Messages from outside (gateway). [InboundClaims] is
      [db/inbound-dedup-store.ts], [DedupCache] is [dedup-cache.ts];
      [VerificationSessions] is [db/session-store.ts] with the identity rules of
      [packages/gateway-client]; [VerificationFlow] is the redemption of a code by
      text ([verification/text-verification.ts]) and voice
      ([voice/verification.ts]) under the rate limit they share. [SenderTrust] is
      the contact tables with the verdict the gateway resolves for a sender
      ([risk/trust-verdict-resolver.ts]) and the daemon's use of it;
      [Admission] is the floors ([db/admission-policy-store.ts], its cache, routes
      and seed) and the gate a message passes before it becomes a turn
      ([inbound-stages/acl-enforcement.ts] and [admission-policy.ts]) or, for a
      reaction, the intercept before them ([reaction-intercept.ts]), composed by
      [admitInbound] and [handleChannelInbound].
    - Contacts and what writes them (gateway). [ContactStore] is
      [db/contact-store.ts] over the contact, channel and invite tables with the
      constraints of [db/schema.ts]; [ContactWrites] is
      [verification/contact-helpers.ts]; [ContactSafety] is what a write that is not the
      guardian's decision cannot do. [GuardianBinding] is the binding of a guardian to a
      channel ([auth/guardian-bootstrap.ts], [verification/binding-helpers.ts]) and
      [ContactHistories] what any sequence of all these writes keeps.
      [InviteRedemption] is [verification/invite-redemption.ts]; [SessionService] is
      [verification/session-service.ts].
    - Approvals. [CanonicalJson] is [security/tool-approval-digest.ts] and
      [ApprovalGrants] the grants bound to that digest
      ([approvals/scoped-approval-grants.ts], [approvals/approval-primitive.ts]), in
      the daemon; [GuardianRequests] is [db/guardian-request-store.ts] and
      [GuardianDecisions] the decision of
      [approvals/guardian-request-service.ts] with its writes to the contacts, in
      the gateway.
    - The gateway's edge. [EdgeTokens] is [auth/token-service.ts] with profiles and
      exchange; [DeviceTokens] the token tables with pairing, rotation and admission
      ([auth/guardian-refresh.ts], [auth/actor-token-revocation.ts]);
      [GuardianBootstrap] the desktop guardian and the token endpoint
      ([auth/guardian-bootstrap.ts], [http/routes/auth-token.ts]); [AuthRateLimit] is
      [auth-rate-limiter.ts] with [util/is-loopback-address.ts]; [AuthFallback] is
      [auth-fallback-count-tracker.ts], its reporter and log throttle; [EdgeAuth] is
      [http/middleware/auth.ts] behind [http/router.ts]. A request goes [serve] ->
      [checkAuthRateLimit] -> [createRouter] -> [require] -> the route's handler,
      over one state [EdgeState] that holds contacts, tokens and failures.
    - Becoming a caller (gateway). [LoopbackGuard] is [http/loopback-guard.ts] and
      [http/route-helpers.ts], which the rest shares. [RemotePairing] is the device-code
      exchange ([remote-web], [http/routes/remote-web-pairing-*.ts]) and [PairingSafety]
      what its traces satisfy; [LocalRoutes] is pairing on the machine, the list and
      revocation of devices, the refresh route and its cookies ([http/routes/pair.ts],
      [devices.ts], [guardian-refresh.ts], [http/browser-auth-cookies.ts]) and
      [RouteSafety] its theorems; [GuardianInit] is guardian init and its reset
      ([http/routes/channel-verification-session-proxy.ts]). A handler that awaits is
      split there and waits in the state ([ps_awaiting], [is_awaiting]), so
      [pairing_step] and [init_step] interleave requests; all of them write the contacts
      and tokens of one [BootState] that the edge reads.
    - Credentials from others (gateway). [CredentialRequests] is the one-time links that
      collect a credential ([db/credential-request-store.ts],
      [ipc/credential-request-handlers.ts], [http/routes/credential-requests.ts]); a
      submission waits for the daemon in [ls_awaiting], and [link_step] interleaves.
    - Phone calls (daemon). [CallStore] is [calls/call-state-machine.ts],
      [calls/call-store.ts], [calls/active-call-lease.ts] and the status callback
      of [calls/twilio-routes.ts].

    State is a record of the code's fields and is threaded through one function
    per method or handler; a table is the list of its rows; clocks, fresh
    identifiers and the results of calls outside [src/] are arguments. A
    throwing function returns an [option], a sum or a flag beside its state.
    [undefined] read off an object without the property is [None].

    * What the theorems show

    - What runs without asking: [ApprovalPolicy.bash_allow_sound] and
      [PermissionRequest.approved_write_confined] take a tool call through the
      whole chain; [evaluate_spec], [sandbox_approve_spec],
      [classify_covers_segments], [deescalation_needs_coverage], [spelled_sink_high] and
      [powershell_risk_exact] are the links; [parseArgs_spec] shows the argument
      parser equivalent to a grammar.
    - What a grant covers: [digest_binds_invocation] (the tool and its input, own
      [__proto__] properties apart), [consume_linearizes] (a grant is consumed once
      whatever other connections write in between).
    - Rules: [findBaseRisk_spec], [saved_rule_applies], [offered_rules_apply],
      [created_rule_found] (table to cache to lookup), [store_reachable_wf] and
      the facts on the shipped registry.
    - Files: [secrets_unreachable], [isOutOfBounds_spec], [scope_ladder_covers],
      [findProjectBoundary_nearest].
    - Histories: [repair_meets_contract], [repair_leaves_valid],
      [repair_keeps_content], [interrupt_repair_spec] (of the very last assistant message).
    - Senders: [turn_admitted] (messages and reactions) and [guardian_gets_in] are what the
      gate lets in,
      [denials_quiet] what a refused message may cause, [floors_coherent] keeps
      the cache of floors equal to the table over every sequence of routes.
      [contact_writes_safe], [redemption_grants], [invite_uses_bounded],
      [phone_verification_binds] and [throw_keeps_code] are the ways to become
      known; [decision_atomic], [decision_decides_trust], [first_decision_stands]
      and [sweep_drains] the guardian's word on a stranger.
    - Becoming a caller: [pairing_needs_approval] (one exchange, after approval on the
      machine, over every interleaving), [code_guesses_bounded], [paired_device_gets_in],
      [failed_exchange_retryable]; [pairing_contained] and [pairings_limited] for pairing
      on the machine; [listed_device_revocable] ties the list to the revocation and the
      revocation to the edge; [browser_session_renews] and [refresh_route_refuses] for the
      refresh; [guardian_init_single_use] and [guardian_init_signs_in] for the bootstrap.
    - Credential links: [link_forwarded_once] (one value, under the terms of the link),
      [link_collects] (a link works), [links_bounded] (how many there can be).
    - Callers of the gateway: [edge_admission] is what a guard lets in,
      [failures_bounded] what the limiter leaves an attacker,
      [unpaired_device_refused_at_edge] what revocation means there,
      [bootstrapped_guardian_admitted] that a bootstrap's tokens work.
      [minted_token_accepted], [respelled_token_same_record],
      [one_session_per_device], [replay_ends_family] and
      [principal_minted_on_traceless_entry] are the parts below; [limiter_counts_failures] refines the limiter to the log
      of failures, [fallback_counts_conserved] accounts for every fallback.
    - Queue: [queue_refines_list] refines an abstract list, [clients_see_queue]
      gives the clients' view over every interleaving of steps (the queue, and what was
      dropped without a word),
      [batch_shares_actor], [failed_drain_keeps_queue].
    - Deliveries, codes and calls: [claim_exclusive], [abandoned_retryable],
      [reservation_exclusive], [cache_always_bounded], [code_redeemed_once],
      [text_verified_sound], [guesses_bounded], [terminal_is_final],
      [status_callback_idempotent].

    Theorems with hypotheses are followed by a [_witness] that applies them to a
    concrete input. Where the code does not do what it means to, a theorem or
    lemma states what it does instead: [relative_text_accepted],
    [tar_command_auto_approved], [proto_subcommand_low], [path_wildcard_ignored],
    [flag_value_rung_ignored], [target_scope_not_honoured], [late_result_lost],
    [deferral_misjudged], [late_settlement_reaches_replacement],
    [wildcard_rung_ignored], [dynamic_rung_ignored], [parenthesised_command_low],
    [dangling_root_link], [same_error_loses_message], [prototype_interface],
    [failed_update_lost], [ended_recorded_twice], [reset_loosens_plugin],
    [blocked_sender_unauthenticated], [proto_not_in_digest],
    [drifted_owner_not_rebound], [guardian_revoked_by_update],
    [guardian_lost_when_lookup_fails], [binding_overwrites_blocked_row],
    [restored_code_beside_newer], [zero_deadline_offered],
    [bound_expiry_spares_overdue], [concurrent_bootstraps_diverge],
    [paired_fallback_recovered], [forwarded_loopback_exempt],
    [stale_replay_hits_new_pairing], [reset_during_bootstrap], [edge_request_resets],
    [fallback_pairing_unlisted], [denied_contact_reaction_wakes], [register_not_limited],
    [dropped_tail_keeps_row], [nice_value_hides_command], [text_tail_not_repaired].

    * Fuel and bounds

    Recursion that is not structural carries fuel, and the bound given is
    enough: [classify] recurses through wrappers on a shorter argument list (fuel
    one more than its length; the code's own [MAX_WRAPPER_DEPTH] of 10 cuts it
    first); the path walks ([real_path_loop], [canonicalize_loop],
    [boundary_loop]) shorten their path at every step (fuel: its length);
    [follow_links] has the code's limit of 64 links; [batch_end] stops at the end
    of the queue (fuel: its length); [strip_assignments] removes a non-empty
    prefix each time; a pairing code is drawn from the draws it is given, and
    [pr_drawing] says that none of them was free. Risks, positions and lengths are small; sizes in bytes and
    times are unbounded integers, as doubles are exact well beyond them.

    * Arguments of the model

    The shell parser (tree-sitter), the regular-expression engine ([re_test],
    [re_match]), the file system ([existsSync], [isDirectory], [FileSystem]),
    Windows paths ([win32]), the URL parser, hashes ([hash], [sha256]) and the MAC of
    tokens ([hmac]), [JSON.parse] of a token's claims, the skill catalog and tool
    registry, the text classification of a queued message, the turn a drain starts,
    feature flags, the platform's answer on its user, the handlers behind a route.
    What another process answers in the middle of an operation, and what other
    requests write meanwhile, are fields of an environment ([BootEnv], [MirrorEnv] and
    their like); the encoding of URI components is an argument of the cookies. Strings
    are bytes below 256 with ASCII case mapping.

    * Not modelled

    Channel adapters, sockets, providers, tools, memory, the CLI, the clients and the
    packages other than the contracts named above: input and output, third-party
    services and user interfaces. The parts are large (the daemon alone has most of
    the repository's lines) and mostly call libraries and models; what they decide
    about safety is in the parts above.

    Of the modelled files: the inside of a turn and the steer entry points, which
    are callbacks of the agent loop; the delivery of verification replies and the
    activation of a guardian by a message, which post to channels; the TwiML of the
    voice webhook; the recognition of provider error texts, which is regular
    expressions over strings of third parties; the file of the signing key; the
    failing reads of the contact database at the edge's routes; requests in
    flight at once at the edge (a request is one step there, so [failures_bounded]
    is about requests served one after the other); of a reaction, the row it is
    recorded as and the text of its turn; logging and telemetry
    transports.

    What a later extension would take up, in this order: the compaction circuit, the
    router of incoming calls. *)
From stdpp Require Export base list strings gmap.
From Stdlib Require Export Ascii ZArith Lia Bool.

#[global] Open Scope string_scope.
#[global] Open Scope list_scope.
#[global] Open Scope nat_scope.

Create HintDb vellum.

(** ** Tactics *)

(** Split on every [match]/[if] of the goal, closing contradictory cases. *)
Ltac cases_goal :=
  repeat (case_match; simplify_eq/=; try done).

(** Turn boolean tests in the context into the propositions they decide. *)
Ltac bool_to_prop :=
  repeat match goal with
  | H : _ && _ = true |- _ => apply andb_prop in H as [? ?]
  | H : _ || _ = false |- _ => apply orb_false_elim in H as [? ?]
  | H : negb _ = true |- _ => apply negb_true_iff in H
  | H : negb _ = false |- _ => apply negb_false_iff in H
  | H : bool_decide _ = true |- _ => apply bool_decide_eq_true in H
  | H : bool_decide _ = false |- _ => apply bool_decide_eq_false in H
  | H : (_ <=? _)%Z = true |- _ => apply Z.leb_le in H
  | H : (_ <=? _)%Z = false |- _ => apply Z.leb_gt in H
  | H : (_ <? _)%Z = true |- _ => apply Z.ltb_lt in H
  | H : (_ <? _)%Z = false |- _ => apply Z.ltb_ge in H
  | H : (_ <=? _)%nat = true |- _ => apply Nat.leb_le in H
  | H : (_ <=? _)%nat = false |- _ => apply Nat.leb_gt in H
  | H : (_ <? _)%nat = true |- _ => apply Nat.ltb_lt in H
  | H : (_ <? _)%nat = false |- _ => apply Nat.ltb_ge in H
  | H : String.eqb _ _ = true |- _ => apply String.eqb_eq in H
  | H : String.eqb _ _ = false |- _ => apply String.eqb_neq in H
  end.

(** ** Options *)

(** [a ?? b] *)
Definition or_else {A} (a b : option A) : option A :=
  match a with Some _ => a | None => b end.

(** ** Lists *)

(** [mem x xs]: the [Set.has] / [Array.includes] test of the source. *)
Definition mem {A} `{EqDecision A} (x : A) (xs : list A) : bool :=
  bool_decide (x ∈ xs).

Lemma mem_true {A} `{EqDecision A} (x : A) xs : mem x xs = true ↔ x ∈ xs.
Proof. unfold mem. by rewrite bool_decide_eq_true. Qed.

Lemma mem_false {A} `{EqDecision A} (x : A) xs : mem x xs = false ↔ x ∉ xs.
Proof. unfold mem. by rewrite bool_decide_eq_false. Qed.

Lemma mem_cons {A} `{EqDecision A} (x y : A) xs :
  mem x (y :: xs) = bool_decide (x = y) || mem x xs.
Proof.
  apply eq_bool_prop_intro. rewrite !Is_true_true, orb_true_iff, !mem_true, bool_decide_eq_true.
  by rewrite elem_of_cons.
Qed.

Lemma mem_app {A} `{EqDecision A} (x : A) xs ys : mem x (xs ++ ys) = mem x xs || mem x ys.
Proof.
  apply eq_bool_prop_intro. rewrite !Is_true_true, orb_true_iff, !mem_true.
  by rewrite elem_of_app.
Qed.

(** [existsb] and [forallb] are [Array.some] and [Array.every]. *)
Lemma existsb_true {A} (f : A → bool) xs :
  existsb f xs = true ↔ ∃ x, x ∈ xs ∧ f x = true.
Proof.
  rewrite existsb_exists. split; intros (x & ? & ?); exists x;
    by rewrite list_elem_of_In in *.
Qed.

Lemma existsb_false {A} (f : A → bool) xs :
  existsb f xs = false ↔ ∀ x, x ∈ xs → f x = false.
Proof.
  split.
  - intros H x Hx. destruct (f x) eqn:E; [|done].
    assert (existsb f xs = true) by (apply existsb_true; eauto). congruence.
  - intros H. destruct (existsb f xs) eqn:E; [|done].
    apply existsb_true in E as (x & Hx & Hf). rewrite H in Hf; done.
Qed.

Lemma forallb_true {A} (f : A → bool) xs :
  forallb f xs = true ↔ ∀ x, x ∈ xs → f x = true.
Proof.
  rewrite forallb_forall. by setoid_rewrite list_elem_of_In.
Qed.

Lemma elem_of_lfilter {A} (f : A → bool) x xs :
  x ∈ List.filter f xs ↔ x ∈ xs ∧ f x = true.
Proof. by rewrite !list_elem_of_In, filter_In. Qed.

Lemma lfilter_nil {A} (p : A → bool) xs :
  List.filter p xs = [] ↔ ∀ x, x ∈ xs → p x = false.
Proof.
  split.
  - intros E x Hx. destruct (p x) eqn:Hp; [|done].
    assert (x ∈ List.filter p xs) as H by by apply elem_of_lfilter.
    rewrite E in H. by apply elem_of_nil in H.
  - intros H. destruct (List.filter p xs) as [|x l] eqn:E; [done|].
    assert (x ∈ List.filter p xs) as [Hx Hp]%elem_of_lfilter by (rewrite E; by left).
    by rewrite H in Hp.
Qed.

Lemma filter_all {A} (f : A → bool) xs : (∀ x, x ∈ xs → f x = true) → List.filter f xs = xs.
Proof.
  induction xs as [|x xs IH]; intros H; [done|]. simpl. rewrite H by by left.
  f_equal. apply IH. intros y Hy. apply H. by right.
Qed.

Lemma lfilter_none {A} (f : A → bool) xs : (∀ x, x ∈ xs → f x = false) → List.filter f xs = [].
Proof. apply lfilter_nil. Qed.

Lemma lfilter_perm {A} (f : A → bool) (xs ys : list A) :
  xs ≡ₚ ys → List.filter f xs ≡ₚ List.filter f ys.
Proof.
  induction 1 as [|x xs ys _ IH|x y xs|xs ys zs _ IH1 _ IH2]; simpl; [done|..].
  - destruct (f x); [by constructor|done].
  - destruct (f x), (f y); try done. apply Permutation_swap.
  - by etrans.
Qed.

(** How many satisfy a test. *)
Definition tally {A} (P : A → bool) (xs : list A) : nat := length (List.filter P xs).

Lemma tally_app {A} (P : A → bool) xs ys : tally P (xs ++ ys) = tally P xs + tally P ys.
Proof. unfold tally. by rewrite List.filter_app, length_app. Qed.

Lemma tally_one {A} (P : A → bool) x : tally P [x] = if P x then 1 else 0.
Proof. unfold tally. simpl. by destruct (P x). Qed.

Lemma tally_delete {A} (P : A → bool) xs i x :
  xs !! i = Some x → tally P xs = tally P [x] + tally P (delete i xs).
Proof.
  intros H. rewrite <- (take_drop_middle xs i x H) at 1. rewrite delete_take_drop, !tally_app.
  rewrite <- (take_drop_middle xs i x H). unfold tally. simpl. destruct (P x); simpl; lia.
Qed.

Lemma tally_zero {A} (P : A → bool) xs : tally P xs = 0 ↔ ∀ x, x ∈ xs → P x = false.
Proof.
  unfold tally. induction xs as [|y xs IH]; simpl; [split; [set_solver|done]|].
  destruct (P y) eqn:E; simpl.
  - split; [done|]. intros H. rewrite (H y) in E by left. done.
  - rewrite IH. set_solver.
Qed.

Lemma NoDup_fmap_snoc {A B} (f : A → B) xs x :
  NoDup (f <$> xs) → (∀ y, y ∈ xs → f y ≠ f x) → NoDup (f <$> xs ++ [x]).
Proof.
  intros Hnd Hx. rewrite fmap_app. apply NoDup_app. split_and!; [done| |apply NoDup_singleton].
  intros z (y & -> & Hy)%list_elem_of_fmap Hz%list_elem_of_singleton. by apply (Hx y).
Qed.

Lemma NoDup_fmap_inv {A B} (f : A → B) xs x y :
  NoDup (f <$> xs) → x ∈ xs → y ∈ xs → f x = f y → x = y.
Proof.
  induction xs as [|z xs IH]; [intros ? H; by apply elem_of_nil in H|]. csimpl.
  intros [Hz Hxs]%NoDup_cons Hx Hy E.
  assert (∀ w, w ∈ xs → f w = f z → False) as Hno.
  { intros w Hw Ew. apply Hz. rewrite <- Ew. by apply list_elem_of_fmap_2. }
  apply elem_of_cons in Hx as [->|Hx], Hy as [->|Hy]; [done| | |auto].
  - exfalso. by apply (Hno y).
  - exfalso. by apply (Hno x).
Qed.

(** First element with a property ([Array.find]). *)
Fixpoint find_first {A} (f : A → bool) (xs : list A) : option A :=
  match xs with
  | [] => None
  | x :: xs => if f x then Some x else find_first f xs
  end.

Lemma find_first_Some {A} (f : A → bool) xs x :
  find_first f xs = Some x → x ∈ xs ∧ f x = true.
Proof.
  induction xs as [|y ys IH]; [done|]. simpl. case_match eqn:E.
  - intros [= ->]. split; [by left | done].
  - intros H. destruct (IH H). split; [by right | done].
Qed.

Lemma find_first_None {A} (f : A → bool) xs :
  find_first f xs = None ↔ ∀ x, x ∈ xs → f x = false.
Proof.
  induction xs as [|y ys IH]; simpl; [set_solver|].
  case_match eqn:E; [|rewrite IH; set_solver].
  split; [done|]. intros H. rewrite H in E; [done | by left].
Qed.

Lemma find_first_app {A} (f : A → bool) xs ys :
  find_first f (xs ++ ys)
  = match find_first f xs with Some x => Some x | None => find_first f ys end.
Proof. induction xs as [|x xs IH]; simpl; [done|]. by destruct (f x). Qed.

Lemma find_first_fmap {A} (f : A → bool) (g : A → A) xs :
  (∀ x, f (g x) = f x) → find_first f (g <$> xs) = g <$> find_first f xs.
Proof. intros H. induction xs as [|x xs IH]; [done|]. csimpl. rewrite H. by destruct (f x). Qed.

Lemma find_first_existsb {A} (f : A → bool) xs :
  existsb f xs = match find_first f xs with Some _ => true | None => false end.
Proof. induction xs as [|x xs IH]; simpl; [done|]. by destruct (f x). Qed.

(** Index of the first element with a property ([Array.findIndex]). *)
Fixpoint first_index {A} (f : A → bool) (xs : list A) : option nat :=
  match xs with
  | [] => None
  | x :: xs => if f x then Some 0 else S <$> first_index f xs
  end.

Lemma first_index_Some {A} (f : A → bool) xs i :
  first_index f xs = Some i ↔
  ∃ x, xs !! i = Some x ∧ f x = true ∧ ∀ j y, j < i → xs !! j = Some y → f y = false.
Proof.
  revert i. induction xs as [|x xs IH]; intros i; simpl; [naive_solver|].
  destruct (f x) eqn:E.
  - split; [intros [= <-]; exists x; naive_solver lia|].
    destruct i as [|i]; [done|]. intros (y & _ & _ & H).
    specialize (H 0 x). rewrite H in E; [done|lia|done].
  - rewrite fmap_Some. split.
    + intros (j & (y & ? & ? & H)%IH & ->). exists y. split_and!; [done|done|].
      intros [|k] z ? Hz; simpl in *; [by simplify_eq|].
      apply (H k); [lia|done].
    + intros (y & Hy & Hf & H). destruct i as [|i]; simpl in *; [congruence|].
      exists i. split; [|done]. apply IH. exists y. split_and!; [done|done|].
      intros j z ? Hz. apply (H (S j)); [lia|done].
Qed.

Lemma first_index_None {A} (f : A → bool) xs :
  first_index f xs = None ↔ existsb f xs = false.
Proof.
  induction xs as [|x xs IH]; simpl; [done|]. destruct (f x); [done|].
  rewrite fmap_None. apply IH.
Qed.

(** First success of a partial function over a list of candidates. *)
Fixpoint first_some {A B} (f : A → option B) (xs : list A) : option B :=
  match xs with
  | [] => None
  | x :: xs => match f x with Some y => Some y | None => first_some f xs end
  end.

Lemma first_some_Some {A B} (f : A → option B) xs y :
  first_some f xs = Some y ↔
  ∃ pre x post, xs = pre ++ x :: post ∧ f x = Some y ∧ Forall (λ z, f z = None) pre.
Proof.
  split.
  - induction xs as [|x xs IH]; [done|]. simpl. destruct (f x) eqn:E.
    + intros [= ->]. by exists [], x, xs.
    + intros (pre & x' & post & -> & ? & ?)%IH. exists (x :: pre), x', post. eauto.
  - intros (pre & x & post & -> & Hx & Hpre).
    induction Hpre as [|z pre Hz _ IH]; simpl; [by rewrite Hx | by rewrite Hz].
Qed.

Lemma first_some_None {A B} (f : A → option B) xs :
  first_some f xs = None ↔ Forall (λ z, f z = None) xs.
Proof.
  induction xs as [|x xs IH]; simpl; [done|].
  rewrite Forall_cons. destruct (f x) eqn:E; [|by rewrite <- IH; naive_solver].
  naive_solver.
Qed.

Lemma first_some_app {A B} (f : A → option B) xs ys :
  first_some f (xs ++ ys) =
  match first_some f xs with Some y => Some y | None => first_some f ys end.
Proof. induction xs as [|x xs IH]; simpl; [done|]. by destruct (f x). Qed.

(** A duplicate test over strings that the kernel evaluates in linear time: what
    has been seen is kept in a trie. *)
Inductive Trie :=
  | trie (here : bool) (children : list (ascii * Trie)).

Definition trie_child (c : ascii) (children : list (ascii * Trie)) : Trie :=
  match List.find (λ e, Ascii.eqb c e.1) children with
  | Some e => e.2
  | None => trie false []
  end.

Fixpoint trie_has (x : string) (t : Trie) : bool :=
  let '(trie here children) := t in
  match x with
  | EmptyString => here
  | String c x' => trie_has x' (trie_child c children)
  end.

(** [None] when the string is already there. *)
Fixpoint trie_add (x : string) (t : Trie) : option Trie :=
  let '(trie here children) := t in
  match x with
  | EmptyString => if here then None else Some (trie true children)
  | String c x' =>
      match trie_add x' (trie_child c children) with
      | Some sub =>
          Some (trie here ((c, sub) :: List.filter (λ e, negb (Ascii.eqb c e.1)) children))
      | None => None
      end
  end.

Fixpoint distinctb (seen : Trie) (xs : list string) : bool :=
  match xs with
  | [] => true
  | x :: rest => match trie_add x seen with Some t => distinctb t rest | None => false end
  end.

Lemma trie_child_add c d sub children :
  trie_child d ((c, sub) :: List.filter (λ e, negb (Ascii.eqb c e.1)) children)
  = if Ascii.eqb d c then sub else trie_child d children.
Proof.
  unfold trie_child. simpl. destruct (Ascii.eqb_spec d c) as [->|Hdc]; [done|].
  f_equal. induction children as [|[e u] l IH]; [done|]. simpl.
  destruct (Ascii.eqb_spec c e) as [<-|]; simpl.
  - destruct (Ascii.eqb_spec d c); [done|]. apply IH.
  - destruct (Ascii.eqb d e); [done|]. apply IH.
Qed.

Lemma trie_add_spec x t t' :
  trie_add x t = Some t' →
  trie_has x t = false ∧ ∀ y, trie_has y t' = String.eqb y x || trie_has y t.
Proof.
  revert t t'. induction x as [|c x IH]; intros [here children] t'; simpl.
  - destruct here; [done|]. intros [= <-]. split; [done|]. by intros [|].
  - destruct (trie_add x _) as [sub|] eqn:E; [|done]. intros [= <-].
    apply IH in E as [Hno Hy]. split; [done|]. intros [|d y]; [done|]. simpl.
    rewrite trie_child_add. destruct (Ascii.eqb_spec d c) as [->|]; [|done].
    apply Hy.
Qed.

Lemma distinctb_sound seen xs :
  distinctb seen xs = true → NoDup xs ∧ ∀ x, x ∈ xs → trie_has x seen = false.
Proof.
  revert seen. induction xs as [|x xs IH]; intros seen; simpl.
  - intros _. split; [constructor|]. intros x H. by apply not_elem_of_nil in H.
  - destruct (trie_add x seen) as [t|] eqn:E; [|done]. intros [Hd Hs]%IH.
    apply trie_add_spec in E as [Hno Hhas]. split.
    + constructor; [|done]. intros Hx. specialize (Hs x Hx).
      by rewrite Hhas, String.eqb_refl in Hs.
    + intros y [->|Hy]%elem_of_cons; [done|]. specialize (Hs y Hy).
      rewrite Hhas in Hs. by apply orb_false_elim in Hs as [_ ?].
Qed.
