(* ===== verification/JsString.v ===== *)
(** JavaScript string operations the modelled code uses, on code units below
    256: [startsWith], [endsWith], [includes], [indexOf], [lastIndexOf],
    [slice], [split], [join], [trim]. *)
From S2P Require Import Prelude.

#[global] Arguments String.append !_ _ / : simpl nomatch.

(** [s.startsWith(p)] *)
Definition starts_with (s p : string) : bool := String.prefix p s.

(** [s.indexOf(c)] for a one-character needle; [None] stands for -1. *)
Fixpoint index_of_char (c : ascii) (s : string) : option nat :=
  match s with
  | EmptyString => None
  | String d s' =>
      if Ascii.eqb c d then Some 0
      else match index_of_char c s' with Some n => Some (S n) | None => None end
  end.

(** [s.lastIndexOf(c)] for a one-character needle. *)
Fixpoint last_index_of_char (c : ascii) (s : string) : option nat :=
  match s with
  | EmptyString => None
  | String d s' =>
      match last_index_of_char c s' with
      | Some n => Some (S n)
      | None => if Ascii.eqb c d then Some 0 else None
      end
  end.

(** [s.includes(c)] for a one-character needle. *)
Definition includes_char (s : string) (c : ascii) : bool :=
  match index_of_char c s with Some _ => true | None => false end.

(** [s.slice(n)] and [s.slice(0, n)] for [0 <= n]. *)
Fixpoint slice_from (n : nat) (s : string) : string :=
  match n, s with
  | O, _ => s
  | S _, EmptyString => EmptyString
  | S n, String _ s' => slice_from n s'
  end.

Fixpoint slice_to (n : nat) (s : string) : string :=
  match n, s with
  | O, _ => EmptyString
  | S _, EmptyString => EmptyString
  | S n, String c s' => String c (slice_to n s')
  end.

(** [s.endsWith(p)] *)
Definition ends_with (s p : string) : bool :=
  (String.length p <=? String.length s)%nat &&
  String.eqb (slice_from (String.length s - String.length p) s) p.

(** [s.slice(0, -n)] *)
Definition slice_drop_last (n : nat) (s : string) : string :=
  slice_to (String.length s - n) s.

(** [s.split(c)] for a one-character separator. *)
Fixpoint split_char (c : ascii) (s : string) : list string :=
  match s with
  | EmptyString => [""]
  | String d s' =>
      if Ascii.eqb c d then "" :: split_char c s'
      else match split_char c s' with
           | w :: ws => String d w :: ws
           | [] => [String d ""]
           end
  end.

(** [xs.join(sep)] *)
Fixpoint join (sep : string) (xs : list string) : string :=
  match xs with
  | [] => ""
  | [x] => x
  | x :: xs => x +:+ sep +:+ join sep xs
  end.

(** The [\s] class restricted to code units below 256. *)
Definition is_space (c : ascii) : bool :=
  let n := nat_of_ascii c in
  ((9 <=? n) && (n <=? 13) || (n =? 32) || (n =? 160))%nat.

(** [s.split(/\s+/)]: the flag says that the previous unit was a separator. *)
Fixpoint split_ws_from (in_sep : bool) (s : string) : list string :=
  match s with
  | EmptyString => [""]
  | String c s' =>
      if is_space c then
        if in_sep then split_ws_from true s' else "" :: split_ws_from true s'
      else match split_ws_from false s' with
           | w :: ws => String c w :: ws
           | [] => [String c ""]
           end
  end.

Definition split_ws (s : string) : list string := split_ws_from false s.

(** [s.trim()] *)
Fixpoint trim_start (s : string) : string :=
  match s with
  | EmptyString => EmptyString
  | String c s' => if is_space c then trim_start s' else s
  end.

Fixpoint trim_end (s : string) : string :=
  match s with
  | EmptyString => EmptyString
  | String c s' =>
      match trim_end s' with
      | EmptyString => if is_space c then EmptyString else String c EmptyString
      | t => String c t
      end
  end.

Definition trim (s : string) : string := trim_end (trim_start s).

(** [toLowerCase()] of ASCII letters. *)
Definition to_lower_char (c : ascii) : ascii :=
  let n := nat_of_ascii c in
  if ((65 <=? n) && (n <=? 90))%nat then ascii_of_nat (n + 32) else c.

Fixpoint to_lower (s : string) : string :=
  match s with EmptyString => "" | String c s => String (to_lower_char c) (to_lower s) end.

(** The truthiness of a JavaScript string. *)
Definition truthy (s : string) : bool :=
  match s with EmptyString => false | _ => true end.

(** ** Facts *)

Lemma append_nil_r (s : string) : s +:+ "" = s.
Proof. induction s as [|c s IH]; simpl; [done|]. by rewrite IH. Qed.

Lemma append_assoc (a b c : string) : (a +:+ b) +:+ c = a +:+ b +:+ c.
Proof. induction a as [|x a IH]; simpl; [done|]. by rewrite IH. Qed.

Lemma append_length (a b : string) :
  String.length (a +:+ b) = String.length a + String.length b.
Proof. induction a as [|c a IH]; simpl; [done|]. by rewrite IH. Qed.

Lemma append_inj_l (p a b : string) : p +:+ a = p +:+ b → a = b.
Proof. induction p as [|c p IH]; simpl; [done|]. intros [= ?]. auto. Qed.

Lemma append_inj_r (a b p : string) : a +:+ p = b +:+ p → a = b.
Proof.
  intros H. assert (String.length a = String.length b) as Hl.
  { apply (f_equal String.length) in H. rewrite !append_length in H. lia. }
  revert b H Hl. induction a as [|c a IH]; intros [|d b]; simpl; try done.
  intros [= -> ?] [= ?]. f_equal. auto.
Qed.

Lemma starts_with_spec s p : starts_with s p = true ↔ ∃ r, s = p +:+ r.
Proof.
  unfold starts_with. revert s. induction p as [|c p IH]; intros s; simpl.
  { split; [intros _; by exists s | by destruct s]. }
  destruct s as [|d s]; simpl; [split; [done|by intros []]|].
  destruct (ascii_dec c d) as [->|Hne].
  - rewrite IH. split; intros [r Hr]; exists r; by simplify_eq.
  - split; [done|]. intros [r [= ??]]. congruence.
Qed.

Lemma starts_with_false s p : starts_with s p = false ↔ ∀ r, s ≠ p +:+ r.
Proof.
  rewrite <- not_true_iff_false, starts_with_spec. naive_solver.
Qed.

Lemma starts_with_app p r : starts_with (p +:+ r) p = true.
Proof. apply starts_with_spec. eauto. Qed.

Lemma slice_to_app a b : slice_to (String.length a) (a +:+ b) = a.
Proof. induction a as [|c a IH]; simpl; [done|]. by rewrite IH. Qed.

Lemma slice_from_app a b : slice_from (String.length a) (a +:+ b) = b.
Proof. induction a as [|c a IH]; simpl; [by destruct b|]. by rewrite IH. Qed.

Lemma slice_to_from n s : slice_to n s +:+ slice_from n s = s.
Proof.
  revert n. induction s as [|c s IH]; intros [|n]; simpl; try done. by rewrite IH.
Qed.

Lemma slice_drop_last_app a b : slice_drop_last (String.length b) (a +:+ b) = a.
Proof.
  unfold slice_drop_last. rewrite append_length.
  replace (_ + _ - _) with (String.length a) by lia. apply slice_to_app.
Qed.

Lemma ends_with_spec s p : ends_with s p = true ↔ ∃ r, s = r +:+ p.
Proof.
  unfold ends_with. rewrite andb_true_iff, Nat.leb_le, String.eqb_eq. split.
  - intros [_ H]. exists (slice_to (String.length s - String.length p) s).
    rewrite <- (slice_to_from (String.length s - String.length p) s) at 1.
    by rewrite H.
  - intros [r ->]. rewrite append_length. split; [lia|].
    replace (_ + _ - _) with (String.length r) by lia. apply slice_from_app.
Qed.

Lemma ends_with_false s p : ends_with s p = false ↔ ∀ r, s ≠ r +:+ p.
Proof. rewrite <- not_true_iff_false, ends_with_spec. naive_solver. Qed.

Lemma ends_with_app r p : ends_with (r +:+ p) p = true.
Proof. apply ends_with_spec. eauto. Qed.

Lemma append_last_char (a r q : string) :
  r ≠ "" → a +:+ r = q +:+ "/" → ∃ r', r = r' +:+ "/".
Proof.
  intros Hr Heq. exists (slice_to (String.length r - 1) r).
  assert (String.length r > 0) as Hpos by (destruct r; simpl; [done|lia]).
  assert (q = a +:+ slice_to (String.length r - 1) r) as ->; cycle 1.
  { rewrite append_assoc in Heq. by apply append_inj_l in Heq. }
  pose proof (f_equal String.length Heq) as Hlen. rewrite !append_length in Hlen.
  simpl in Hlen. revert q Heq Hlen. induction a as [|c a IH]; intros q Heq Hlen; simpl in *.
  - subst r. rewrite append_length. simpl.
    replace (String.length q + 1 - 1) with (String.length q) by lia.
    by rewrite slice_to_app.
  - destruct q as [|d q]; simpl in *; [lia|]. injection Heq as -> Heq. f_equal.
    apply IH; [done|lia].
Qed.

(** Characters of a string, used to say that one does not occur. *)
Definition no_char (c : ascii) (s : string) : Prop := index_of_char c s = None.

Lemma no_char_cons c d s : no_char c (String d s) ↔ c ≠ d ∧ no_char c s.
Proof.
  unfold no_char. simpl. destruct (Ascii.eqb_spec c d); [naive_solver|].
  destruct (index_of_char c s); naive_solver.
Qed.

Lemma index_of_char_app c a b :
  no_char c a → index_of_char c (a +:+ String c b) = Some (String.length a).
Proof.
  induction a as [|d a IH]; simpl; [by rewrite Ascii.eqb_refl|].
  intros [Hne Ha]%no_char_cons. apply Ascii.eqb_neq in Hne. rewrite Hne.
  by rewrite (IH Ha).
Qed.

Lemma index_of_char_Some c s n :
  index_of_char c s = Some n →
  s = slice_to n s +:+ String c (slice_from (S n) s) ∧ no_char c (slice_to n s).
Proof.
  revert n. induction s as [|d s IH]; intros n; simpl; [done|].
  destruct (Ascii.eqb_spec c d) as [->|Hne].
  - intros [= <-]. simpl. split; [by destruct s|done].
  - destruct (index_of_char c s) as [k|]; [|done]. intros [= <-].
    destruct (IH k eq_refl) as [Heq Hno]. split.
    + change (String d s = String d (slice_to k s +:+ String c (slice_from (S k) s))).
      by f_equal.
    + apply no_char_cons. done.
Qed.

Lemma last_index_of_char_None c s : last_index_of_char c s = None ↔ no_char c s.
Proof.
  induction s as [|d s IH]; [done|]. rewrite no_char_cons, <- IH. simpl.
  destruct (last_index_of_char c s), (Ascii.eqb_spec c d); naive_solver.
Qed.

(** ** Words

    A word is a non-empty string without white space; splitting words joined
    by single spaces gives the words back. *)
Fixpoint no_space (s : string) : bool :=
  match s with
  | EmptyString => true
  | String c s => negb (is_space c) && no_space s
  end.

Definition is_word (w : string) : bool := truthy w && no_space w.

Lemma split_ws_from_word b w :
  is_word w = true → split_ws_from b w = [w].
Proof.
  unfold is_word. rewrite andb_true_iff. intros [Ht Hs].
  assert (∀ v, no_space v = true → split_ws_from false v = [v]) as Hgen.
  { induction v as [|c v IH]; simpl; [done|]. rewrite andb_true_iff, negb_true_iff.
    intros [-> Hv]. by rewrite IH. }
  destruct w as [|c w]; [done|]. simpl in *. apply andb_true_iff in Hs as [Hc Hw].
  apply negb_true_iff in Hc. rewrite Hc. by rewrite Hgen.
Qed.

Lemma split_ws_from_word_app b w s :
  is_word w = true →
  split_ws_from b (w +:+ String " " s) = w :: split_ws_from true s.
Proof.
  unfold is_word. rewrite andb_true_iff. intros [Ht Hs].
  assert (∀ v, no_space v = true →
    split_ws_from false (v +:+ String " " s) = v :: split_ws_from true s) as Hgen.
  { induction v as [|c v IH]; simpl; [done|]. rewrite andb_true_iff, negb_true_iff.
    intros [-> Hv]. by rewrite IH. }
  destruct w as [|c w]; [done|]. simpl in *. apply andb_true_iff in Hs as [Hc Hw].
  apply negb_true_iff in Hc. rewrite Hc. by rewrite Hgen.
Qed.

Lemma join_cons sep x y xs : join sep (x :: y :: xs) = x +:+ sep +:+ join sep (y :: xs).
Proof. done. Qed.

Lemma split_ws_from_join b ws :
  ws ≠ [] → Forall (λ w, is_word w = true) ws → split_ws_from b (join " " ws) = ws.
Proof.
  intros Hne Hws. revert b Hne. induction Hws as [|w ws Hw Hws IH]; intros b Hne; [done|].
  destruct ws as [|w' ws]; [by apply split_ws_from_word|].
  rewrite join_cons. change (" " +:+ ?s) with (String " " s).
  rewrite split_ws_from_word_app, IH; done.
Qed.

Lemma split_ws_join ws :
  ws ≠ [] → Forall (λ w, is_word w = true) ws → split_ws (join " " ws) = ws.
Proof. apply split_ws_from_join. Qed.

(** Whitespace splitting never returns the empty list. *)
Lemma split_ws_from_false_nonempty s : split_ws_from false s ≠ [].
Proof.
  destruct s as [|c s]; simpl; [done|]. destruct (is_space c); [done|].
  by destruct (split_ws_from false s).
Qed.

Lemma no_space_no_char w : no_space w = true → no_char " " w.
Proof.
  induction w as [|c w IH]; simpl; [done|]. rewrite andb_true_iff, negb_true_iff.
  intros [Hc Hw]. apply no_char_cons. split; [by intros <-|auto].
Qed.

Lemma no_char_app c a b : no_char c (a +:+ b) ↔ no_char c a ∧ no_char c b.
Proof.
  induction a as [|d a IH]; simpl; [unfold no_char; naive_solver|].
  rewrite !no_char_cons, IH. tauto.
Qed.

Lemma last_index_of_char_app c a b :
  no_char c b → last_index_of_char c (a +:+ String c b) = Some (String.length a).
Proof.
  intros Hb. apply last_index_of_char_None in Hb.
  induction a as [|d a IH]; simpl; [by rewrite Hb, Ascii.eqb_refl|]. by rewrite IH.
Qed.
