(* ===== verification/JsMap.v ===== *)
(** JavaScript's [Map] and [Set]. A [Map] is an association list in insertion order with distinct
    keys. [set] on an existing key keeps its position, [keys().next()] is the
    oldest key. The lookup behaviour refines stdpp's finite maps. *)
From S2P Require Import Prelude.

Section JsMap.
Context {K V : Type} `{EqDecision K}.

(** [m.get(k)] *)
Fixpoint map_get (k : K) (m : list (K * V)) : option V :=
  match m with
  | [] => None
  | (k', v) :: m => if decide (k = k') then Some v else map_get k m
  end.

(** [m.has(k)] *)
Definition map_has (k : K) (m : list (K * V)) : bool :=
  match map_get k m with Some _ => true | None => false end.

(** [m.set(k, v)] *)
Fixpoint map_set (k : K) (v : V) (m : list (K * V)) : list (K * V) :=
  match m with
  | [] => [(k, v)]
  | (k', v') :: m =>
      if decide (k = k') then (k', v) :: m else (k', v') :: map_set k v m
  end.

(** [m.delete(k)] *)
Fixpoint map_delete (k : K) (m : list (K * V)) : list (K * V) :=
  match m with
  | [] => []
  | (k', v') :: m =>
      if decide (k = k') then map_delete k m else (k', v') :: map_delete k m
  end.

(** [m.keys().next().value] *)
Definition map_first_key (m : list (K * V)) : option K :=
  match m with [] => None | (k, _) :: _ => Some k end.

Definition map_size (m : list (K * V)) : nat := length m.
Definition map_wf (m : list (K * V)) : Prop := NoDup m.*1.

Lemma map_get_set m k k' v :
  map_get k' (map_set k v m) = if decide (k' = k) then Some v else map_get k' m.
Proof.
  induction m as [|[k1 v1] m IH]; simpl; [done|].
  repeat (case_decide; simpl); subst; try done; congruence.
Qed.

Lemma map_get_delete m k k' :
  map_get k' (map_delete k m) = if decide (k' = k) then None else map_get k' m.
Proof.
  induction m as [|[k1 v1] m IH]; simpl; [by case_decide|].
  repeat (case_decide; simpl); subst; try done; congruence.
Qed.

Lemma map_get_elem m k v : map_get k m = Some v → (k, v) ∈ m.
Proof.
  induction m as [|[k1 v1] m IH]; simpl; [done|]. case_decide; subst.
  - intros [= ->]. by left.
  - intros. right. auto.
Qed.

Lemma map_get_None m k : map_get k m = None ↔ k ∉ m.*1.
Proof.
  induction m as [|[k1 v1] m IH]; csimpl; [set_solver|]. case_decide.
  - subst. split; [done|]. intros []. by left.
  - rewrite IH. set_solver.
Qed.

Lemma elem_map_get m k v : map_wf m → (k, v) ∈ m → map_get k m = Some v.
Proof.
  induction m as [|[k1 v1] m IH]; csimpl; [set_solver|].
  intros [Hk Hnd]%NoDup_cons [[= -> ->]|Hin]%elem_of_cons.
  - by rewrite decide_True.
  - rewrite decide_False; [by apply IH|]. intros ->. apply Hk.
    by apply (list_elem_of_fmap_2 fst) in Hin.
Qed.

Lemma keys_set m k v :
  (map_set k v m).*1 = if decide (k ∈ m.*1) then m.*1 else m.*1 ++ [k].
Proof.
  induction m as [|[k1 v1] m IH]; csimpl; [done|].
  destruct (decide (k = k1)) as [->|Hne]; csimpl.
  { by rewrite decide_True by left. }
  rewrite IH. destruct (decide (k ∈ m.*1)) as [Hk|Hk].
  - by rewrite decide_True by by right.
  - rewrite decide_False; [done|]. by rewrite not_elem_of_cons.
Qed.

Lemma elem_delete m k k' v : (k', v) ∈ map_delete k m ↔ (k', v) ∈ m ∧ k' ≠ k.
Proof.
  induction m as [|[k1 v1] m IH]; csimpl.
  { rewrite elem_of_nil. tauto. }
  case_decide; rewrite ?elem_of_cons, IH; naive_solver congruence.
Qed.

Lemma keys_delete m k : (map_delete k m).*1 = filter (λ k', k' ≠ k) m.*1.
Proof.
  induction m as [|[k1 v1] m IH]; csimpl; [done|].
  rewrite filter_cons. destruct (decide (k = k1)) as [->|].
  - by rewrite decide_False by (intros []; done).
  - rewrite decide_True by congruence. csimpl. by rewrite IH.
Qed.

Lemma map_wf_set m k v : map_wf m → map_wf (map_set k v m).
Proof.
  unfold map_wf. rewrite keys_set. case_decide; [done|]. intros.
  apply NoDup_app. split_and!; [done|set_solver|apply NoDup_singleton].
Qed.

Lemma map_wf_delete m k : map_wf m → map_wf (map_delete k m).
Proof. unfold map_wf. rewrite keys_delete. apply NoDup_filter. Qed.

Lemma size_set m k v :
  map_size (map_set k v m) =
  if decide (k ∈ m.*1) then map_size m else S (map_size m).
Proof.
  unfold map_size. rewrite <- (length_fmap fst (map_set k v m)), keys_set.
  case_decide; rewrite ?length_app, length_fmap; csimpl; lia.
Qed.

Lemma size_delete_le m k : map_size (map_delete k m) ≤ map_size m.
Proof.
  unfold map_size. rewrite <- (length_fmap fst), keys_delete, <- (length_fmap fst m).
  apply length_filter.
Qed.

Lemma map_delete_notin m k : k ∉ m.*1 → map_delete k m = m.
Proof.
  induction m as [|[k1 v1] m IH]; csimpl; [done|].
  intros [? ?]%not_elem_of_cons. rewrite decide_False, IH; done.
Qed.

Lemma size_delete_first m k :
  map_wf m → map_first_key m = Some k → S (map_size (map_delete k m)) = map_size m.
Proof.
  destruct m as [|[k1 v1] m]; [done|]. intros [Hk _]%NoDup_cons [= <-]. csimpl.
  by rewrite decide_True, map_delete_notin.
Qed.

(** The finite map an ordered map represents: lookups agree with stdpp's. *)
Lemma map_get_gmap `{Countable K} m k :
  map_get k m = (list_to_map m : gmap K V) !! k.
Proof.
  induction m as [|[k1 v1] m IH]; csimpl; [done|].
  case_decide; simplify_map_eq; done.
Qed.
End JsMap.

(** ** [Set]: distinct elements in insertion order *)

(** [s.add(x)] *)
Definition set_add {A} `{EqDecision A} (x : A) (xs : list A) : list A :=
  if mem x xs then xs else xs ++ [x].

(** [new Set(xs)] *)
Definition set_of {A} `{EqDecision A} (xs : list A) : list A :=
  foldl (λ s x, set_add x s) [] xs.

Section JsSet.
Context {A : Type} `{EqDecision A}.
Implicit Types (x : A) (xs : list A).

Lemma set_add_Forall (P : A → Prop) x xs : P x → Forall P xs → Forall P (set_add x xs).
Proof.
  intros. unfold set_add. destruct (mem x xs); [done|].
  apply Forall_app. split; [done|by constructor].
Qed.

Lemma elem_of_set_add x y xs : y ∈ set_add x xs ↔ y = x ∨ y ∈ xs.
Proof.
  unfold set_add. destruct (mem x xs) eqn:Hm.
  - apply mem_true in Hm. naive_solver.
  - rewrite elem_of_app, list_elem_of_singleton. tauto.
Qed.

Lemma set_add_NoDup x xs : NoDup xs → NoDup (set_add x xs).
Proof.
  intros. unfold set_add. destruct (mem x xs) eqn:Hm; [done|].
  apply mem_false in Hm. apply NoDup_app. split_and!; [done|set_solver|apply NoDup_singleton].
Qed.

Lemma elem_of_set_of x xs : x ∈ set_of xs ↔ x ∈ xs.
Proof.
  unfold set_of. assert (∀ acc, x ∈ foldl (λ s x, set_add x s) acc xs ↔ x ∈ acc ∨ x ∈ xs)
    as ->; [|set_solver].
  induction xs as [|y xs IH]; intros acc; simpl; [set_solver|].
  rewrite IH, elem_of_set_add, elem_of_cons. tauto.
Qed.

Lemma set_of_nil xs : set_of xs = [] ↔ xs = [].
Proof.
  split; [|by intros ->]. intros H. destruct xs as [|x xs]; [done|].
  assert (x ∈ set_of (x :: xs)) as Hx by (apply elem_of_set_of; by left).
  rewrite H in Hx. by apply elem_of_nil in Hx.
Qed.

Lemma set_of_NoDup xs : NoDup (set_of xs).
Proof.
  unfold set_of. assert (∀ acc, NoDup acc → NoDup (foldl (λ s x, set_add x s) acc xs)) as H.
  { induction xs as [|y xs IH]; intros acc Hacc; [done|]. by apply IH, set_add_NoDup. }
  apply H. constructor.
Qed.
End JsSet.

#[export] Hint Resolve map_wf_set map_wf_delete : vellum.

(** A value of type [unknown], as far as the modelled code looks at one:
    [JsOther] is a number, an object or a function. *)
Inductive JsValue :=
  | JsNull
  | JsStr (s : string)
  | JsBool (b : bool)
  | JsArr (xs : list JsValue)
  | JsOther.
