(* ===== verification/ContentBlocks.v ===== *)
(** The messages of a conversation
    ([assistant/src/providers/types.ts], [content-blocks.ts]): what the daemon
    keeps, repairs and sends to a model provider. *)
From S2P Require Import Prelude JsString JsMap.

(** A value whose shape the code does not fix ([unknown],
    [Record<string, unknown>]). *)
Inductive Json :=
  | JNull
  | JBool (b : bool)
  | JNumber (literal : string)
  | JString (s : string)
  | JArray (items : list Json)
  | JObject (fields : list (string * Json)).

Inductive ContentBlock :=
  | Text (text : string)
  | Thinking (thinking signature : string)
  | RedactedThinking (data : string)
  | Image (source : Json) (attachmentId : option string)
  | FileBlock (source : Json) (extracted_text attachmentId : option string)
  | ToolUse (id name : string) (input : Json) (providerMetadata : option Json)
  | ToolResult (tool_use_id content : string) (is_error : option bool)
      (contentBlocks : option (list ContentBlock))
  | ServerToolUse (id name : string) (input : Json)
  | WebSearchToolResult (tool_use_id : string) (content : Json)
  | UiSurface (surface : Json).

Inductive Role := role_user | role_assistant.

#[export] Instance Role_eq_dec : EqDecision Role.
Proof. solve_decision. Defined.

Record Message := { role : Role; content : list ContentBlock }.

(** Whether the content carries nothing a provider can serialize. *)
Definition isEffectivelyEmptyContent (content : list ContentBlock) : bool :=
  forallb (λ block, match block with
                    | Text text => String.eqb (trim text) ""
                    | _ => false end) content.

(** ** The identifiers a message mentions *)

Definition tool_use_id_of (b : ContentBlock) : option string :=
  match b with ToolUse id _ _ _ => Some id | _ => None end.
Definition tool_result_id_of (b : ContentBlock) : option string :=
  match b with ToolResult id _ _ _ => Some id | _ => None end.
Definition server_use_id_of (b : ContentBlock) : option string :=
  match b with ServerToolUse id _ _ => Some id | _ => None end.
Definition web_result_id_of (b : ContentBlock) : option string :=
  match b with WebSearchToolResult id _ => Some id | _ => None end.

(** The identifiers in the blocks, by kind. *)
Definition ids_of (f : ContentBlock → option string) (bs : list ContentBlock) : list string :=
  omap f bs.

Notation tool_use_ids := (ids_of tool_use_id_of).
Notation tool_result_ids := (ids_of tool_result_id_of).
Notation server_use_ids := (ids_of server_use_id_of).
Notation web_result_ids := (ids_of web_result_id_of).

Lemma ids_of_app f a b : ids_of f (a ++ b) = ids_of f a ++ ids_of f b.
Proof. apply omap_app. Qed.

Lemma elem_of_ids f id bs : id ∈ ids_of f bs ↔ ∃ b, b ∈ bs ∧ f b = Some id.
Proof. apply list_elem_of_omap. Qed.

#[export] Hint Rewrite ids_of_app : vellum.
