(* ===== verification/ServerToolPairing.v ===== *)
(** Pairing of provider-executed tool calls across a message list
    ([assistant/src/providers/server-tool-pairing.ts]). *)
From S2P Require Import Prelude JsString JsMap ContentBlocks.

Record ServerToolPairing := {
  resolvedPairIds : list string;
  deferredUseIds : list string;
  crossMessageIds : list string }.

(** The two index maps and [lastAssistantIndex] ([None] for -1). *)
Record PairIndex := {
  useIndexById : list (string * nat);
  resultIndexById : list (string * nat);
  lastAssistantIndex : option nat }.

(** [if (!map.has(id)) map.set(id, index)] *)
Definition set_first (id : string) (index : nat) (m : list (string * nat)) :
    list (string * nat) :=
  if map_has id m then m else map_set id index m.

Definition index_block (index : nat) (st : PairIndex) (block : ContentBlock) : PairIndex :=
  match block with
  | ServerToolUse id _ _ =>
      {| useIndexById := set_first id index st.(useIndexById);
         resultIndexById := st.(resultIndexById);
         lastAssistantIndex := st.(lastAssistantIndex) |}
  | WebSearchToolResult id _ =>
      {| useIndexById := st.(useIndexById);
         resultIndexById := set_first id index st.(resultIndexById);
         lastAssistantIndex := st.(lastAssistantIndex) |}
  | _ => st
  end.

Definition index_message (index : nat) (msg : Message) (st : PairIndex) : PairIndex :=
  match msg.(role) with
  | role_assistant =>
      foldl (index_block index)
        {| useIndexById := st.(useIndexById); resultIndexById := st.(resultIndexById);
           lastAssistantIndex := Some index |} msg.(content)
  | role_user => st
  end.

(** [messages.forEach], from index [index] on. *)
Fixpoint index_messages (index : nat) (messages : list Message) (st : PairIndex) : PairIndex :=
  match messages with
  | [] => st
  | msg :: rest => index_messages (S index) rest (index_message index msg st)
  end.

Definition isToolResultShapedBlock (block : ContentBlock) : bool :=
  match block with ToolResult _ _ _ _ => true | _ => false end.

(** The result is in the message of the use or a later one. *)
Definition pair_resolved (st : PairIndex) (e : string * nat) : bool :=
  match map_get e.1 st.(resultIndexById) with
  | Some resultIndex => (e.2 <=? resultIndex)%nat
  | None => false
  end.

Definition pair_crosses (st : PairIndex) (e : string * nat) : bool :=
  match map_get e.1 st.(resultIndexById) with
  | Some resultIndex => (e.2 <? resultIndex)%nat
  | None => false
  end.

Definition deferred_ids (messages : list Message) (st : PairIndex) (resolved : list string)
    : list string :=
  match st.(lastAssistantIndex) with
  | None => []
  | Some last =>
      let trailing := drop (S last) messages in
      let trailingAllUser := forallb (λ m, bool_decide (m.(role) = role_user)) trailing in
      let trailingBlocks := concat (content <$> trailing) in
      let trailingIsToolResultsOnly :=
        (0 <? length trailingBlocks)%nat && forallb isToolResultShapedBlock trailingBlocks in
      if trailingAllUser && ((length trailing =? 0)%nat || trailingIsToolResultsOnly) then
        match messages !! last with
        | Some m =>
            set_of (List.filter (λ id, negb (mem id resolved)) (server_use_ids m.(content)))
        | None => []
        end
      else []
  end.

Definition analyzeServerToolPairing (messages : list Message) : ServerToolPairing :=
  let st := index_messages 0 messages
              {| useIndexById := []; resultIndexById := []; lastAssistantIndex := None |} in
  let resolved := (List.filter (pair_resolved st) st.(useIndexById)).*1 in
  {| resolvedPairIds := resolved;
     deferredUseIds := deferred_ids messages st resolved;
     crossMessageIds := (List.filter (pair_crosses st) st.(useIndexById)).*1 |}.

(** ** What the analysis means *)

(** The identifiers of the provider-executed calls, and of their results, in an
    assistant message; user messages count for nothing. *)
Definition uses_in (m : Message) : list string :=
  match m.(role) with role_assistant => server_use_ids m.(content) | role_user => [] end.
Definition results_in (m : Message) : list string :=
  match m.(role) with role_assistant => web_result_ids m.(content) | role_user => [] end.

(** Reading the messages in order, the first that has the call or its result has
    the call, and a result follows in it or later. *)
Fixpoint resolves (id : string) (messages : list Message) : bool :=
  match messages with
  | [] => false
  | m :: rest =>
      if mem id (results_in m) then mem id (uses_in m)
      else if mem id (uses_in m) then existsb (λ m, mem id (results_in m)) rest
      else resolves id rest
  end.

Lemma map_get_set_first id id' i m :
  map_get id (set_first id' i m) =
  match map_get id m with
  | Some j => Some j
  | None => if bool_decide (id = id') then Some i else None
  end.
Proof.
  rewrite <- decide_bool_decide. unfold set_first, map_has. destruct (map_get id' m) eqn:E.
  - destruct (decide (id = id')) as [->|]; [by rewrite E|]. by destruct (map_get id m).
  - rewrite map_get_set. destruct (decide (id = id')) as [->|]; [by rewrite E|].
    by destruct (map_get id m).
Qed.

Lemma map_wf_set_first id i m : map_wf m → map_wf (set_first id i m).
Proof. intros. unfold set_first. destruct (map_has id m); eauto with vellum. Qed.

(** What indexing a message adds to each map: an entry for every identifier of the
    message that has none. *)
Lemma index_message_get i m st id :
  map_get id (index_message i m st).(useIndexById) =
    match map_get id st.(useIndexById) with
    | Some j => Some j
    | None => if mem id (uses_in m) then Some i else None
    end ∧
  map_get id (index_message i m st).(resultIndexById) =
    match map_get id st.(resultIndexById) with
    | Some j => Some j
    | None => if mem id (results_in m) then Some i else None
    end.
Proof.
  unfold index_message, uses_in, results_in. destruct (role m).
  { split; by destruct (map_get id _). }
  set (st0 := {| useIndexById := _ |}).
  change (useIndexById st) with (useIndexById st0).
  change (resultIndexById st) with (resultIndexById st0).
  generalize st0. clear st0. induction (content m) as [|b bs IH]; intros st0; simpl.
  { split; by destruct (map_get id _). }
  destruct (IH (index_block i st0 b)) as [-> ->].
  destruct b; try done; simpl; (split; try done);
    rewrite map_get_set_first, mem_cons;
    destruct (map_get id _); try done; by destruct (bool_decide (id = _)).
Qed.

(** The index maps hold the first message of each identifier. *)
Lemma index_messages_get messages i st id :
  map_get id (index_messages i messages st).(useIndexById) =
    match map_get id st.(useIndexById) with
    | Some j => Some j
    | None => Nat.add i <$> first_index (λ m, mem id (uses_in m)) messages
    end ∧
  map_get id (index_messages i messages st).(resultIndexById) =
    match map_get id st.(resultIndexById) with
    | Some j => Some j
    | None => Nat.add i <$> first_index (λ m, mem id (results_in m)) messages
    end.
Proof.
  revert i st. induction messages as [|m rest IH]; intros i st; simpl.
  { split; by destruct (map_get id _). }
  destruct (IH (S i) (index_message i m st)) as [-> ->].
  destruct (index_message_get i m st id) as [-> ->]. clear IH.
  split; (destruct (map_get id _); [done|]); destruct (mem id _); simpl;
    (f_equal; lia) || (destruct (first_index _ rest); simpl; [f_equal; lia|done]).
Qed.

Lemma index_messages_wf messages i st :
  map_wf st.(useIndexById) → map_wf (index_messages i messages st).(useIndexById).
Proof.
  revert i st. induction messages as [|m rest IH]; intros i st Hst; simpl; [done|].
  apply IH. unfold index_message. destruct (role m); [done|].
  assert (∀ bs st0, map_wf st0.(useIndexById) →
            map_wf (foldl (index_block i) st0 bs).(useIndexById)) as H; [|by apply H].
  induction bs as [|b bs IHb]; intros st0 H0; [done|]. simpl. apply IHb.
  destruct b; try done. by apply map_wf_set_first.
Qed.

Lemma first_index_resolves id messages :
  resolves id messages =
  match first_index (λ m, mem id (uses_in m)) messages,
        first_index (λ m, mem id (results_in m)) messages with
  | Some i, Some j => (i <=? j)%nat
  | _, _ => false
  end.
Proof.
  induction messages as [|m rest IH]; [done|]. cbn [resolves first_index].
  destruct (mem id (results_in m)) eqn:Hr, (mem id (uses_in m)) eqn:Hu; try done.
  - by destruct (first_index _ rest).
  - destruct (existsb _ rest) eqn:He.
    + destruct (first_index (λ m, mem id (results_in m)) rest) eqn:Hf; [done|].
      apply first_index_None in Hf. congruence.
    + apply first_index_None in He. by rewrite He.
  - rewrite IH. by destruct (first_index _ rest), (first_index _ rest).
Qed.

Lemma resolvedPairIds_spec id messages :
  id ∈ (analyzeServerToolPairing messages).(resolvedPairIds) ↔ resolves id messages = true.
Proof.
  unfold analyzeServerToolPairing. cbn [resolvedPairIds]. set (st0 := {| useIndexById := [] |}).
  destruct (index_messages_get messages 0 st0 id) as [Hu Hr]. cbn in Hu, Hr.
  pose proof (index_messages_wf messages 0 st0 NoDup_nil_2) as Hwf.
  set (st := index_messages 0 messages st0) in *. rewrite first_index_resolves.
  rewrite list_elem_of_fmap. split.
  - intros ([id' i] & -> & Hin). apply list_elem_of_In, filter_In in Hin as [Hin Hp].
    apply list_elem_of_In, (elem_map_get _ _ _ Hwf) in Hin.
    unfold pair_resolved in Hp. cbn in *. rewrite Hin in Hu. rewrite Hr in Hp.
    destruct (first_index (λ m, mem id' (uses_in m)) messages); [|done].
    injection Hu as ->. by destruct (first_index (λ m, mem id' (results_in m)) messages).
  - destruct (first_index (λ m, mem id (uses_in m)) messages) as [i|]; [|done].
    intros Hle. exists (id, i). split; [done|].
    apply list_elem_of_In, filter_In. split; [by apply list_elem_of_In, map_get_elem|].
    unfold pair_resolved. cbn. rewrite Hr.
    by destruct (first_index (λ m, mem id (results_in m)) messages).
Qed.

(** A pair that is resolved has its call and its result among the messages. *)
Lemma resolves_has id messages :
  resolves id messages = true →
  existsb (λ m, mem id (uses_in m)) messages = true ∧
  existsb (λ m, mem id (results_in m)) messages = true.
Proof.
  induction messages as [|m rest IH]; [done|]. simpl.
  destruct (mem id (results_in m)), (mem id (uses_in m)); simpl; try done; auto.
Qed.

(** Resolution only depends on which messages mention the identifier. *)
Lemma resolves_ext id ms ms' :
  Forall2 (λ m m', mem id (uses_in m) = mem id (uses_in m') ∧
                   mem id (results_in m) = mem id (results_in m')) ms ms' →
  resolves id ms = resolves id ms'.
Proof.
  induction 1 as [|m m' ms ms' [Hu Hr] H IH]; [done|]. simpl. rewrite Hu, Hr, IH.
  destruct (mem id (results_in m')), (mem id (uses_in m')); try done.
  clear -H. induction H as [|m m' ms ms' [_ Hr] _ IH]; [done|]. simpl. by rewrite Hr, IH.
Qed.
