(* ===== verification/HistoryRepair.v ===== *)
(** Repair of the message history before a provider call
    ([assistant/src/agent/history-repair/history-repair.ts]). *)
From stdpp Require Import pretty.
From S2P Require Import Prelude JsString JsMap ContentBlocks ServerToolPairing.

Record RepairStats := {
  assistantToolResultsMigrated : nat;
  missingToolResultsInserted : nat;
  orphanToolResultsDowngraded : nat;
  consecutiveSameRoleMerged : nat }.

Definition no_stats : RepairStats :=
  {| assistantToolResultsMigrated := 0; missingToolResultsInserted := 0;
     orphanToolResultsDowngraded := 0; consecutiveSameRoleMerged := 0 |}.

(** The counters are only ever incremented. *)
Definition add_stats (s : RepairStats) (migrated inserted downgraded merges : nat)
    : RepairStats :=
  {| assistantToolResultsMigrated := s.(assistantToolResultsMigrated) + migrated;
     missingToolResultsInserted := s.(missingToolResultsInserted) + inserted;
     orphanToolResultsDowngraded := s.(orphanToolResultsDowngraded) + downgraded;
     consecutiveSameRoleMerged := s.(consecutiveSameRoleMerged) + merges |}.

Record RepairResult := {
  messages : list Message;
  stats : RepairStats;
  inputToOutputIndex : option (list (option nat)) }.

Definition SYNTHETIC_RESULT : string :=
  "<synthesized_result>tool result missing from history</synthesized_result>".

Definition SYNTHETIC_WEB_SEARCH_ERROR : Json :=
  JObject [("type", JString "web_search_tool_result_error");
           ("error_code", JString "unavailable")].

(** ** Blocks *)

Definition newline : string := String (ascii_of_nat 10) "".

Definition string_field (key : string) (fields : list (string * Json)) : option string :=
  match map_get key fields with Some (JString s) => Some s | _ => None end.

(** One entry of [formatWebSearchContent], [idx] being its number. *)
Definition search_entry (idx : nat) (r : Json) : option string :=
  match r with
  | JObject fields =>
      if bool_decide (string_field "type" fields = Some "web_search_result") then
        let title := default "(untitled)" (string_field "title" fields) in
        let url := default "" (string_field "url" fields) in
        Some (pretty idx +:+ ". " +:+ title +:+
              (if truthy url then newline +:+ "   " +:+ url else ""))
      else None
  | _ => None
  end.

Definition search_entries (content : list Json) : list string :=
  foldl (λ entries r,
    match search_entry (length entries + 1) r with
    | Some e => entries ++ [e]
    | None => entries
    end) [] content.

Definition formatWebSearchContent (content : Json) : string :=
  match content with
  | JArray items =>
      match search_entries items with
      | [] => "results unavailable"
      | entries => join newline entries
      end
  | _ => "results unavailable"
  end.

(** [downgradeResult], on the two kinds of block it is given. *)
Definition downgradeResult (block : ContentBlock) : ContentBlock :=
  match block with
  | ToolResult id content _ _ =>
      Text ("[orphaned tool_result for " +:+ id +:+ "]: " +:+ content)
  | WebSearchToolResult id content =>
      Text ("[orphaned web_search_tool_result for " +:+ id +:+ "]: "
            +:+ formatWebSearchContent content)
  | _ => block
  end.

(** ** Assistant messages *)

Definition cleanedContent (bs : list ContentBlock) : list ContentBlock :=
  List.filter (λ b, negb (isToolResultShapedBlock b)) bs.

(** The stripped results by identifier; a later one replaces an earlier one. *)
Definition newRecovered (bs : list ContentBlock) : list (string * ContentBlock) :=
  foldl (λ acc b, match b with
                  | ToolResult id _ _ _ => map_set id b acc
                  | _ => acc end) [] bs.

Definition strippedCount (bs : list ContentBlock) : nat :=
  length (List.filter isToolResultShapedBlock bs).

Definition orphanedServerIds (pairing : ServerToolPairing) (bs : list ContentBlock)
    : list string :=
  set_of (List.filter (λ id, negb (mem id pairing.(resolvedPairIds))
                             && negb (mem id pairing.(deferredUseIds)))
            (server_use_ids bs)).

Definition orphanedWebSearchResultIds (pairing : ServerToolPairing)
    (bs : list ContentBlock) : list string :=
  set_of (List.filter (λ id, negb (mem id pairing.(resolvedPairIds))) (web_result_ids bs)).

(** One turn of the loop over [cleanedContent]: the blocks pushed for a block. *)
Definition repair_block (serverIds webIds : list string) (block : ContentBlock)
    : list ContentBlock :=
  match block with
  | WebSearchToolResult id _ =>
      if mem id webIds then [downgradeResult block] else [block]
  | ServerToolUse id _ _ =>
      block :: (if mem id serverIds then [WebSearchToolResult id SYNTHETIC_WEB_SEARCH_ERROR]
                else [])
  | _ => [block]
  end.

Definition repairedContent (pairing : ServerToolPairing) (cleaned : list ContentBlock)
    : list ContentBlock :=
  let serverIds := orphanedServerIds pairing cleaned in
  let webIds := orphanedWebSearchResultIds pairing cleaned in
  match serverIds, webIds with
  | [], [] => cleaned
  | _, _ => cleaned ≫= repair_block serverIds webIds
  end.

(** The counters of that loop: results inserted and downgraded. *)
Definition insertedCount (pairing : ServerToolPairing) (cleaned : list ContentBlock) : nat :=
  length (List.filter (λ id, mem id (orphanedServerIds pairing cleaned))
            (server_use_ids cleaned)).

Definition webDowngradedCount (pairing : ServerToolPairing) (cleaned : list ContentBlock)
    : nat :=
  length (List.filter (λ id, mem id (orphanedWebSearchResultIds pairing cleaned))
            (web_result_ids cleaned)).

(** ** Results for the pending calls *)

Definition result_for (recovered : list (string * ContentBlock)) (id : string)
    : ContentBlock :=
  default (ToolResult id SYNTHETIC_RESULT (Some true) None) (map_get id recovered).

Definition synthesizedCount (recovered : list (string * ContentBlock)) (ids : list string)
    : nat :=
  length (List.filter (λ id, negb (map_has id recovered)) ids).

Definition buildResultMessage (ids : list string) (recovered : list (string * ContentBlock))
    : Message :=
  {| role := role_user; content := result_for recovered <$> ids |}.

(** ** User messages *)

(** A block of a user message while [pending] calls are unanswered. *)
Definition answer_block (pending : list string) (block : ContentBlock) : ContentBlock :=
  match block with
  | ToolResult id _ _ _ => if mem id pending then block else downgradeResult block
  | WebSearchToolResult _ _ => downgradeResult block
  | _ => block
  end.

(** A block of a user message when no call is pending. *)
Definition orphan_block (block : ContentBlock) : ContentBlock :=
  match block with
  | ToolResult _ _ _ _ | WebSearchToolResult _ _ => downgradeResult block
  | _ => block
  end.

Definition is_downgraded (pending : list string) (block : ContentBlock) : bool :=
  match block with
  | ToolResult id _ _ _ => negb (mem id pending)
  | WebSearchToolResult _ _ => true
  | _ => false
  end.

Definition downgradedCount (pending : list string) (bs : list ContentBlock) : nat :=
  length (List.filter (is_downgraded pending) bs).

Definition matchedIds (pending : list string) (bs : list ContentBlock) : list string :=
  set_of (List.filter (λ id, mem id pending) (tool_result_ids bs)).

Definition unmatchedIds (pending : list string) (bs : list ContentBlock) : list string :=
  List.filter (λ id, negb (mem id (matchedIds pending bs))) pending.

(** ** The loop *)

Record RepairState := {
  result : list (Message * option nat); (* with [resultSourceIndex]; [None] is -1 *)
  pendingToolUseIds : list string;
  recoveredResults : list (string * ContentBlock);
  loopStats : RepairStats }.

(** Answer what is pending before the next assistant message, or at the end. *)
Definition flush_pending (st : RepairState) : RepairState :=
  match st.(pendingToolUseIds) with
  | [] => st
  | ids =>
      {| result := st.(result) ++ [(buildResultMessage ids st.(recoveredResults), None)];
         pendingToolUseIds := []; recoveredResults := [];
         loopStats :=
           add_stats st.(loopStats) 0 (synthesizedCount st.(recoveredResults) ids) 0 0 |}
  end.

Definition assistant_step (pairing : ServerToolPairing) (index : nat)
    (bs : list ContentBlock) (st0 : RepairState) : RepairState :=
  let st := flush_pending st0 in
  let cleaned := cleanedContent bs in
  {| result := st.(result) ++
       [({| role := role_assistant; content := repairedContent pairing cleaned |}, Some index)];
     pendingToolUseIds := set_of (tool_use_ids cleaned);
     recoveredResults := newRecovered bs;
     loopStats := add_stats st.(loopStats) (strippedCount bs) (insertedCount pairing cleaned)
                    (webDowngradedCount pairing cleaned) 0 |}.

Definition user_step (index : nat) (bs : list ContentBlock) (st : RepairState)
    : RepairState :=
  match st.(pendingToolUseIds) with
  | [] =>
      {| result := st.(result) ++
           [({| role := role_user; content := orphan_block <$> bs |}, Some index)];
         pendingToolUseIds := []; recoveredResults := st.(recoveredResults);
         loopStats := add_stats st.(loopStats) 0 0 (downgradedCount [] bs) 0 |}
  | pending =>
      let missing := unmatchedIds pending bs in
      {| result := st.(result) ++
           [({| role := role_user;
                content := (answer_block pending <$> bs)
                           ++ (result_for st.(recoveredResults) <$> missing) |}, Some index)];
         pendingToolUseIds := []; recoveredResults := [];
         loopStats := add_stats st.(loopStats) 0
                        (synthesizedCount st.(recoveredResults) missing)
                        (downgradedCount pending bs) 0 |}
  end.

Definition message_step (pairing : ServerToolPairing) (index : nat) (msg : Message)
    (st : RepairState) : RepairState :=
  match msg.(role) with
  | role_assistant => assistant_step pairing index msg.(content) st
  | role_user => user_step index msg.(content) st
  end.

Fixpoint repair_loop (pairing : ServerToolPairing) (index : nat) (msgs : list Message)
    (st : RepairState) : RepairState :=
  match msgs with
  | [] => st
  | msg :: rest => repair_loop pairing (S index) rest (message_step pairing index msg st)
  end.

Definition initial_state : RepairState :=
  {| result := []; pendingToolUseIds := []; recoveredResults := []; loopStats := no_stats |}.

(** ** Merging consecutive messages of one role *)

Definition append_content (prev msg : Message) : Message :=
  {| role := prev.(role); content := prev.(content) ++ msg.(content) |}.

Definition merges (merged : list Message) (msg : Message) : bool :=
  match last merged with
  | Some prev => bool_decide (prev.(role) = msg.(role))
  | None => false
  end.

Definition merge_push (merged : list Message) (msg : Message) : list Message :=
  if merges merged msg
  then alter (λ prev, append_content prev msg) (length merged - 1) merged
  else merged ++ [msg].

Record MergeState := {
  ms_merged : list Message; ms_index : list (option nat); ms_count : nat }.

Definition merge_step (st : MergeState) (e : Message * option nat) : MergeState :=
  let merged := merge_push st.(ms_merged) e.1 in
  {| ms_merged := merged;
     ms_index :=
       match e.2 with
       | Some sourceIndex => <[sourceIndex := Some (length merged - 1)]> st.(ms_index)
       | None => st.(ms_index)
       end;
     ms_count := st.(ms_count) + (if merges st.(ms_merged) e.1 then 1 else 0) |}.

Definition repairHistory (msgs : list Message) : RepairResult :=
  let pairing := analyzeServerToolPairing msgs in
  let st := flush_pending (repair_loop pairing 0 msgs initial_state) in
  let m := foldl merge_step
             {| ms_merged := []; ms_index := replicate (length msgs) None; ms_count := 0 |}
             st.(result) in
  {| messages := m.(ms_merged); stats := add_stats st.(loopStats) 0 0 0 m.(ms_count);
     inputToOutputIndex := Some m.(ms_index) |}.

(** ** The aggressive fallback *)

Fixpoint drop_leading_assistant (msgs : list Message) : list Message :=
  match msgs with
  | [] => []
  | m :: rest =>
      if bool_decide (m.(role) = role_assistant) then drop_leading_assistant rest else msgs
  end.

(** [while (last is assistant) merged.pop()] *)
Definition drop_trailing_assistant (msgs : list Message) : list Message :=
  reverse (drop_leading_assistant (reverse msgs)).

Definition deepRepairHistory (msgs : list Message) (requireUserTerminal : bool)
    : RepairResult :=
  let cleaned := drop_leading_assistant
    (List.filter (λ m, negb (isEffectivelyEmptyContent m.(content))) msgs) in
  let merged := foldl merge_push [] cleaned in
  let ready := if requireUserTerminal then drop_trailing_assistant merged else merged in
  let r := repairHistory ready in
  {| messages := r.(messages); stats := r.(stats); inputToOutputIndex := None |}.

(** ** The provider's contract

    What a provider accepts: roles alternate; an assistant message holds no
    results of client tools, and its calls are answered in the message right
    after it; a user message holds results only for the calls of the message
    right before it, and no provider-side result. [paired pending ms] reads the
    messages with [pending] the calls still to be answered. *)
Fixpoint alternating (ms : list Message) : Prop :=
  match ms with
  | m :: (m' :: _) as rest => m.(role) ≠ m'.(role) ∧ alternating rest
  | _ => True
  end.

Fixpoint paired (pending : list string) (ms : list Message) : Prop :=
  match ms with
  | [] => pending = []
  | m :: rest =>
      match m.(role) with
      | role_assistant =>
          pending = [] ∧ tool_result_ids m.(content) = [] ∧
          paired (tool_use_ids m.(content)) rest
      | role_user =>
          (∀ id, id ∈ pending ↔ id ∈ tool_result_ids m.(content)) ∧
          web_result_ids m.(content) = [] ∧ paired [] rest
      end
  end.

(** ** Facts about blocks *)

Lemma downgrade_no_ids f block :
  f ∈ [tool_use_id_of; tool_result_id_of; server_use_id_of; web_result_id_of] →
  isToolResultShapedBlock block = true ∨ web_result_id_of block ≠ None →
  f (downgradeResult block) = None.
Proof.
  intros Hf Hb. repeat (apply elem_of_cons in Hf as [->|Hf]); [..|by apply elem_of_nil in Hf];
    destruct block; simpl in *; naive_solver.
Qed.

Lemma ids_cleaned f bs :
  (∀ b, isToolResultShapedBlock b = true → f b = None) →
  ids_of f (cleanedContent bs) = ids_of f bs.
Proof.
  intros Hf. unfold cleanedContent, ids_of. induction bs as [|b bs IH]; [done|]. csimpl.
  destruct (isToolResultShapedBlock b) eqn:Hb; csimpl; [by rewrite (Hf b Hb)|].
  case_match; by rewrite IH.
Qed.

Lemma cleaned_no_results bs : tool_result_ids (cleanedContent bs) = [].
Proof.
  unfold cleanedContent, ids_of. induction bs as [|b bs IH]; [done|]. by destruct b.
Qed.

(** Repairing the provider-side pairs adds and removes provider-side results only. *)
Lemma ids_repaired f pairing bs :
  f ∈ [tool_use_id_of; tool_result_id_of; server_use_id_of] →
  ids_of f (repairedContent pairing bs) = ids_of f bs.
Proof.
  intros Hf. unfold repairedContent. set (s := orphanedServerIds _ _).
  set (w := orphanedWebSearchResultIds _ _).
  assert (ids_of f (bs ≫= repair_block s w) = ids_of f bs) as H; [|by destruct s, w].
  clearbody s w. unfold ids_of. induction bs as [|b bs IH]; [done|]. csimpl.
  rewrite omap_app, IH. repeat (apply elem_of_cons in Hf as [->|Hf]);
    [..|by apply elem_of_nil in Hf]; destruct b; simpl; try done; by case_match.
Qed.

Lemma newRecovered_id bs id b :
  map_get id (newRecovered bs) = Some b → tool_result_id_of b = Some id.
Proof.
  unfold newRecovered.
  assert (∀ acc, (∀ id b, map_get id acc = Some b → tool_result_id_of b = Some id) →
    map_get id (foldl (λ acc b, match b with ToolResult id _ _ _ => map_set id b acc
                                | _ => acc end) acc bs) = Some b →
    tool_result_id_of b = Some id) as H; [|by apply H].
  induction bs as [|c bs IH]; intros acc Hacc; [apply Hacc|]. simpl. apply IH.
  destruct c; try done. intros id' b'. rewrite map_get_set. case_decide; [|apply Hacc].
  by intros [= <-]; subst.
Qed.

Definition recovered_ok (recovered : list (string * ContentBlock)) : Prop :=
  ∀ id b, map_get id recovered = Some b → tool_result_id_of b = Some id.

Lemma result_for_id recovered id :
  recovered_ok recovered → tool_result_id_of (result_for recovered id) = Some id.
Proof.
  intros H. unfold result_for. destruct (map_get id recovered) eqn:E; [by apply H|done].
Qed.

Lemma results_for_ids recovered ids :
  recovered_ok recovered → tool_result_ids (result_for recovered <$> ids) = ids.
Proof.
  intros H. unfold ids_of. induction ids as [|id ids IH]; [done|]. csimpl.
  by rewrite (result_for_id _ _ H), IH.
Qed.

Lemma results_for_no_web recovered ids :
  recovered_ok recovered → web_result_ids (result_for recovered <$> ids) = [].
Proof.
  intros H. unfold ids_of. induction ids as [|id ids IH]; [done|]. csimpl.
  pose proof (result_for_id _ id H) as Hid. by destruct (result_for recovered id).
Qed.

Lemma answer_block_ids pending bs :
  tool_result_ids (answer_block pending <$> bs)
    = List.filter (λ id, mem id pending) (tool_result_ids bs) ∧
  web_result_ids (answer_block pending <$> bs) = [].
Proof.
  unfold ids_of. induction bs as [|b bs [IH IHw]]; [done|]. csimpl.
  destruct b; simpl; try done. destruct (mem tool_use_id pending); csimpl; by rewrite IH.
Qed.

Lemma orphan_block_answer (bs : list ContentBlock) : orphan_block <$> bs = answer_block [] <$> bs.
Proof. apply list_fmap_ext. by intros i [] _. Qed.

(** ** The loop establishes the pairing *)

Lemma paired_ext p p' ms : (∀ id, id ∈ p ↔ id ∈ p') → paired p ms → paired p' ms.
Proof.
  intros Hp. destruct ms as [|m ms]; simpl.
  - intros ->. destruct p' as [|x p']; [done|].
    assert (x ∈ @nil string) as Hx by (apply Hp; by left). by apply elem_of_nil in Hx.
  - destruct (role m).
    + intros (H & ? & ?). split; [|done]. intros id. by rewrite <- Hp.
    + intros (-> & ? & ?). split; [|done]. destruct p' as [|x p']; [done|].
      assert (x ∈ @nil string) as Hx by (apply Hp; by left). by apply elem_of_nil in Hx.
Qed.

Lemma paired_results recovered ids ms :
  recovered_ok recovered → paired [] ms → paired ids (buildResultMessage ids recovered :: ms).
Proof.
  intros Hr Hms. simpl. split_and!; [|by apply results_for_no_web|done].
  intros id. by rewrite results_for_ids.
Qed.

(** What flushing adds to the output. *)
Lemma flush_result st :
  recovered_ok st.(recoveredResults) →
  ∃ out, (flush_pending st).(result) = st.(result) ++ out ∧
    (flush_pending st).(pendingToolUseIds) = [] ∧
    ∀ ms, paired [] ms → paired st.(pendingToolUseIds) (out.*1 ++ ms).
Proof.
  intros Hr. unfold flush_pending. destruct (pendingToolUseIds st) as [|id ids] eqn:Hp.
  - exists []. rewrite app_nil_r. split_and!; [done|done|]. by intros ms.
  - eexists. split; [done|]. split; [done|]. intros ms Hms. by apply paired_results.
Qed.

Lemma user_content_paired pending recovered bs ms :
  recovered_ok recovered → paired [] ms →
  paired pending ({| role := role_user;
    content := (answer_block pending <$> bs)
               ++ (result_for recovered <$> unmatchedIds pending bs) |} :: ms).
Proof.
  intros Hr Hms. simpl. rewrite !ids_of_app, results_for_ids, results_for_no_web by done.
  destruct (answer_block_ids pending bs) as [-> ->]. split_and!; [|done|done].
  intros id. unfold unmatchedIds, matchedIds.
  rewrite elem_of_app, !elem_of_lfilter, negb_true_iff, mem_false, elem_of_set_of,
    elem_of_lfilter, !mem_true.
  destruct (decide (id ∈ tool_result_ids bs)); tauto.
Qed.

Lemma message_step_recovered pairing i m st :
  recovered_ok st.(recoveredResults) →
  recovered_ok (message_step pairing i m st).(recoveredResults).
Proof.
  intros Hr. unfold message_step, user_step. destruct (role m).
  - by destruct (pendingToolUseIds st).
  - exact (newRecovered_id (content m)).
Qed.

(** One message: what it adds answers what was pending, and leaves what the loop
    then reports as pending. *)
Lemma message_step_paired pairing i m st :
  recovered_ok st.(recoveredResults) →
  ∃ out, (message_step pairing i m st).(result) = st.(result) ++ out ∧
    ∀ ms, paired (message_step pairing i m st).(pendingToolUseIds) ms →
      paired st.(pendingToolUseIds) (out.*1 ++ ms).
Proof.
  intros Hr. unfold message_step. destruct (role m).
  - unfold user_step. destruct (pendingToolUseIds st) as [|id ids];
      (eexists; split; [done|]; cbn [pendingToolUseIds]; intros ms Hms).
    + pose proof (user_content_paired [] [] (content m) ms (λ _ _ H, ltac:(done)) Hms) as H.
      unfold unmatchedIds in H. cbn [List.filter fmap list_fmap] in H.
      rewrite app_nil_r in H. csimpl. by rewrite orphan_block_answer.
    + by apply user_content_paired.
  - unfold assistant_step. destruct (flush_result st Hr) as (out1 & -> & _ & Hflush).
    eexists. rewrite <- app_assoc. split; [done|]. cbn [pendingToolUseIds].
    intros ms Hms. rewrite fmap_app, <- app_assoc. apply Hflush.
    csimpl. split; [done|].
    rewrite !ids_repaired by set_solver. rewrite cleaned_no_results. split; [done|].
    eapply paired_ext; [|exact Hms]. intros id. apply elem_of_set_of.
Qed.

Lemma loop_paired pairing msgs i st :
  recovered_ok st.(recoveredResults) →
  ∃ out, (flush_pending (repair_loop pairing i msgs st)).(result) = st.(result) ++ out ∧
    paired st.(pendingToolUseIds) out.*1.
Proof.
  revert i st. induction msgs as [|m msgs IH]; intros i st Hr; simpl.
  { destruct (flush_result st Hr) as (out & -> & _ & Hp). exists out. split; [done|].
    rewrite <- (app_nil_r out.*1). by apply Hp. }
  destruct (IH (S i) (message_step pairing i m st)) as (out & -> & Hp).
  { by apply message_step_recovered. }
  destruct (message_step_paired pairing i m st Hr) as (out1 & -> & Hp1).
  exists (out1 ++ out). rewrite <- app_assoc, fmap_app. auto.
Qed.

(** ** Merging *)

(** The merge pass, read from the right. *)
Fixpoint merge_list (ms : list Message) : list Message :=
  match ms with
  | [] => []
  | m :: rest =>
      match merge_list rest with
      | m' :: rest' =>
          if bool_decide (m.(role) = m'.(role)) then append_content m m' :: rest'
          else m :: m' :: rest'
      | [] => [m]
      end
  end.

Lemma merge_list_head m ms :
  ∃ m' rest, merge_list (m :: ms) = m' :: rest ∧ m'.(role) = m.(role).
Proof.
  simpl. destruct (merge_list ms) as [|m' rest]; [by exists m, []|].
  case_bool_decide; [by exists (append_content m m'), rest|by exists m, (m' :: rest)].
Qed.

Lemma merge_list_alternating ms : alternating (merge_list ms).
Proof.
  induction ms as [|m ms IH]; [done|]. simpl.
  destruct (merge_list ms) as [|m' rest]; [done|]. case_bool_decide as Hr; [|done].
  destruct rest as [|m'' rest]; [done|]. destruct IH as [IH ?]. split; [|done].
  simpl. by rewrite Hr.
Qed.

Lemma merge_list_paired ms p : paired p ms → paired p (merge_list ms).
Proof.
  revert p. induction ms as [|m ms IH]; intros p; [done|]. cbn [paired merge_list].
  destruct (merge_list ms) as [|m' rest] eqn:Hm.
  { cbn [paired]. destruct (role m).
    all: intros (? & ? & H); (split_and!; [done|done|exact (IH _ H)]). }
  case_bool_decide as Hr; cbn [paired append_content role content];
    rewrite ?ids_of_app; destruct (role m) eqn:Hrm.
  - intros (Hp & -> & H%IH). cbn [paired] in H. rewrite <- Hr in H.
    destruct H as (Hp' & -> & H). split_and!; [|done|done].
    intros id. rewrite elem_of_app, Hp, <- Hp'. split; [by left|].
    by intros [|[]%elem_of_nil].
  - intros (-> & -> & H%IH). cbn [paired] in H. rewrite <- Hr in H.
    destruct H as (-> & -> & H). done.
  - intros (? & ? & H). split_and!; [done|done|exact (IH _ H)].
  - intros (? & ? & H). split_and!; [done|done|exact (IH _ H)].
Qed.

Lemma append_content_assoc a b c :
  append_content (append_content a b) c = append_content a (append_content b c).
Proof. unfold append_content. simpl. by rewrite <- app_assoc. Qed.

Lemma merge_list_cons_same p x l :
  p.(role) = x.(role) → merge_list (p :: x :: l) = merge_list (append_content p x :: l).
Proof.
  intros Hr. cbn [merge_list]. destruct (merge_list l) as [|y rest].
  { by rewrite bool_decide_true. }
  cbn [role append_content]. rewrite Hr. case_bool_decide as Hy.
  - cbn [append_content role]. rewrite bool_decide_true by done.
    by rewrite append_content_assoc.
  - by rewrite bool_decide_true.
Qed.

Lemma merge_list_cons_other p x l :
  p.(role) ≠ x.(role) → merge_list (p :: x :: l) = p :: merge_list (x :: l).
Proof.
  intros Hr. destruct (merge_list_head x l) as (y & rest & Hy & Hrole).
  change (merge_list (p :: x :: l)) with
    (match merge_list (x :: l) with
     | m' :: rest' => if bool_decide (p.(role) = m'.(role)) then append_content p m' :: rest'
                      else p :: m' :: rest'
     | [] => [p] end).
  by rewrite Hy, bool_decide_false by congruence.
Qed.

Lemma merge_push_last acc p x :
  merge_push (acc ++ [p]) x =
  if bool_decide (p.(role) = x.(role)) then acc ++ [append_content p x]
  else (acc ++ [p]) ++ [x].
Proof.
  unfold merge_push, merges. rewrite last_snoc. case_bool_decide; [|done].
  rewrite length_app. simpl. replace (length acc + 1 - 1) with (length acc + 0) by lia.
  by rewrite alter_app_r.
Qed.

Lemma foldl_merge_push acc p l :
  foldl merge_push (acc ++ [p]) l = acc ++ merge_list (p :: l).
Proof.
  revert acc p. induction l as [|x l IH]; intros acc p; [done|].
  cbn [foldl]. rewrite merge_push_last. case_bool_decide.
  - by rewrite IH, merge_list_cons_same.
  - by rewrite IH, merge_list_cons_other, <- app_assoc.
Qed.

Lemma foldl_merge_list l : foldl merge_push [] l = merge_list l.
Proof. destruct l as [|x l]; [done|]. apply (foldl_merge_push [] x). Qed.

Lemma merge_step_merged st l :
  (foldl merge_step st l).(ms_merged) = foldl merge_push st.(ms_merged) l.*1.
Proof. revert st. induction l as [|e l IH]; intros st; [done|]. apply IH. Qed.

(** The repaired messages: what the loop emits, merged. *)
Lemma repairHistory_messages msgs :
  ∃ out, (repairHistory msgs).(messages) = merge_list out.*1 ∧ paired [] out.*1 ∧
    out = (flush_pending (repair_loop (analyzeServerToolPairing msgs) 0 msgs
                            initial_state)).(result).
Proof.
  destruct (loop_paired (analyzeServerToolPairing msgs) msgs 0 initial_state)
    as (out & Hout & Hp); [done|].
  exists out. split_and!; [|done|by rewrite Hout].
  unfold repairHistory. cbn [messages]. by rewrite merge_step_merged, Hout, foldl_merge_list.
Qed.

(** ** The contract, by position *)

Record provider_contract (ms : list Message) : Prop := {
  pc_alternates i m m' : ms !! i = Some m → ms !! S i = Some m' → m.(role) ≠ m'.(role);
  pc_assistant i m : ms !! i = Some m → m.(role) = role_assistant →
    tool_result_ids m.(content) = [] ∧
    ∀ id, id ∈ tool_use_ids m.(content) →
      ∃ m', ms !! S i = Some m' ∧ m'.(role) = role_user ∧
        id ∈ tool_result_ids m'.(content);
  pc_user i m : ms !! i = Some m → m.(role) = role_user →
    web_result_ids m.(content) = [] ∧
    ∀ id, id ∈ tool_result_ids m.(content) →
      ∃ j m', i = S j ∧ ms !! j = Some m' ∧ m'.(role) = role_assistant ∧
        id ∈ tool_use_ids m'.(content) }.

Lemma alternating_lookup ms i m m' :
  alternating ms → ms !! i = Some m → ms !! S i = Some m' → m.(role) ≠ m'.(role).
Proof.
  revert i. induction ms as [|x [|y ms] IH]; intros i; [done| |].
  - destruct i; [|done]. done.
  - intros [Hxy Ha]. destruct i as [|i]; [by intros [= <-] [= <-]|]. by apply IH.
Qed.

Lemma paired_lookup ms p i m :
  paired p ms → ms !! i = Some m →
  match m.(role) with
  | role_assistant =>
      tool_result_ids m.(content) = [] ∧
      ∀ id, id ∈ tool_use_ids m.(content) →
        ∃ m', ms !! S i = Some m' ∧ m'.(role) = role_user ∧ id ∈ tool_result_ids m'.(content)
  | role_user =>
      web_result_ids m.(content) = [] ∧
      ∀ id, id ∈ tool_result_ids m.(content) →
        (i = 0 ∧ id ∈ p) ∨ ∃ j m', i = S j ∧ ms !! j = Some m' ∧ m'.(role) = role_assistant ∧
          id ∈ tool_use_ids m'.(content)
  end.
Proof.
  revert p i. induction ms as [|x ms IH]; intros p i; [done|]. destruct i as [|i].
  - intros Hp [= ->]. cbn [paired] in Hp. destruct (role m) eqn:Hr.
    + destruct Hp as (Hp & Hw & _). split; [done|]. intros id Hid. left. by rewrite Hp.
    + destruct Hp as (_ & Hres & Hp). split; [done|]. intros id Hid.
      destruct ms as [|m' ms]; cbn [paired] in Hp.
      { rewrite Hp in Hid. by apply elem_of_nil in Hid. }
      exists m'. split; [done|]. destruct (role m').
      * split; [done|]. by apply Hp.
      * destruct Hp as (Hp & _). rewrite Hp in Hid. by apply elem_of_nil in Hid.
  - intros Hp Hi. cbn [paired] in Hp.
    assert (∃ p', paired p' ms ∧ ∀ id, id ∈ p' → x.(role) = role_assistant ∧
              id ∈ tool_use_ids x.(content)) as (p' & Hp' & Hin).
    { destruct (role x).
      - exists []. split; [apply Hp|]. by intros id []%elem_of_nil.
      - eexists. split; [apply Hp|]. done. }
    specialize (IH p' i Hp' Hi). destruct (role m); [|done].
    destruct IH as [Hw IH]. split; [done|]. intros id Hid. right.
    destruct (IH id Hid) as [[-> Hid']|(j & m' & -> & ? & ? & ?)].
    + exists 0, x. apply Hin in Hid' as [? ?]. done.
    + by exists (S j), m'.
Qed.

Lemma provider_contract_intro ms : alternating ms → paired [] ms → provider_contract ms.
Proof.
  intros Ha Hp. split.
  - intros i m m'. by apply alternating_lookup.
  - intros i m Hi Hr. pose proof (paired_lookup _ _ _ _ Hp Hi) as H. by rewrite Hr in H.
  - intros i m Hi Hr. pose proof (paired_lookup _ _ _ _ Hp Hi) as H. rewrite Hr in H.
    destruct H as [Hw H]. split; [done|]. intros id Hid.
    destruct (H id Hid) as [[_ []%elem_of_nil]|?]; done.
Qed.

(** C28: Whatever the history, the repaired one satisfies the provider's contract:
    roles alternate, every client tool call is answered in the very next message,
    and no result answers anything else or sits in the wrong place. *)
Theorem repair_meets_contract (msgs : list Message) :
  provider_contract (repairHistory msgs).(messages).
Proof.
  destruct (repairHistory_messages msgs) as (out & -> & Hp & _).
  apply provider_contract_intro; [apply merge_list_alternating|by apply merge_list_paired].
Qed.

(** ** A valid history is left alone *)

(** Every provider-side call is answered or deferred, every provider-side result
    answers a call. *)
Definition server_ok (pairing : ServerToolPairing) (m : Message) : Prop :=
  m.(role) = role_assistant →
  (∀ id, id ∈ server_use_ids m.(content) →
     id ∈ pairing.(resolvedPairIds) ∨ id ∈ pairing.(deferredUseIds)) ∧
  (∀ id, id ∈ web_result_ids m.(content) → id ∈ pairing.(resolvedPairIds)).

Record valid_history (ms : list Message) : Prop := {
  vh_alternating : alternating ms;
  vh_paired : paired [] ms;
  vh_server : Forall (server_ok (analyzeServerToolPairing ms)) ms }.

Lemma lfilter_all {A} (f : A → bool) xs :
  (∀ x, x ∈ xs → f x = true) → List.filter f xs = xs.
Proof.
  induction xs as [|x xs IH]; intros H; [done|]. simpl. rewrite (H x) by left.
  f_equal. apply IH. intros y Hy. apply H. by right.
Qed.

Lemma no_results_shape bs b :
  tool_result_ids bs = [] → b ∈ bs → isToolResultShapedBlock b = false.
Proof.
  intros Hnil Hb. destruct (tool_result_id_of b) as [id|] eqn:Hid; [|by destruct b].
  assert (id ∈ tool_result_ids bs) as H by (apply elem_of_ids; eauto).
  rewrite Hnil in H. by apply elem_of_nil in H.
Qed.

Lemma newRecovered_nil bs : tool_result_ids bs = [] → newRecovered bs = [].
Proof.
  intros H. unfold newRecovered. pose proof (λ b, no_results_shape bs b H) as Hb. clear H.
  assert (∀ acc, foldl (λ acc b, match b with ToolResult id _ _ _ => map_set id b acc
                                 | _ => acc end) acc bs = acc) as ->; [|done].
  induction bs as [|b bs IH]; intros acc; [done|]. simpl.
  rewrite IH by (intros; apply Hb; by right). specialize (Hb b). destruct b; try done.
  exfalso. discriminate Hb. left.
Qed.

Lemma add_stats_zero s : add_stats s 0 0 0 0 = s.
Proof. destruct s. unfold add_stats. simpl. by rewrite !Nat.add_0_r. Qed.

Lemma assistant_step_noop pairing i m st :
  m.(role) = role_assistant → st.(pendingToolUseIds) = [] →
  tool_result_ids m.(content) = [] → server_ok pairing m →
  let st' := assistant_step pairing i m.(content) st in
  st'.(result) = st.(result) ++ [(m, Some i)] ∧
  st'.(pendingToolUseIds) = set_of (tool_use_ids m.(content)) ∧
  st'.(loopStats) = st.(loopStats).
Proof.
  intros Hr Hp Hno [Huse Hres]; [done|]. unfold assistant_step, flush_pending.
  rewrite Hp. cbn [result pendingToolUseIds loopStats].
  pose proof (λ b, no_results_shape _ b Hno) as Hshape.
  assert (cleanedContent (content m) = content m) as ->.
  { apply lfilter_all. intros b Hb. by rewrite (Hshape b Hb). }
  assert (orphanedServerIds pairing (content m) = []) as Hs.
  { unfold orphanedServerIds. rewrite lfilter_none; [done|]. intros id [Hid|Hid]%Huse.
    - apply mem_true in Hid. by rewrite Hid.
    - apply mem_true in Hid. by rewrite Hid, andb_false_r. }
  assert (orphanedWebSearchResultIds pairing (content m) = []) as Hw.
  { unfold orphanedWebSearchResultIds. rewrite lfilter_none; [done|].
    intros id Hid%Hres%mem_true. by rewrite Hid. }
  unfold repairedContent, insertedCount, webDowngradedCount, strippedCount. rewrite Hs, Hw.
  rewrite (lfilter_none isToolResultShapedBlock) by done.
  rewrite !lfilter_none by done. rewrite add_stats_zero. split_and!; [|done|done].
  by destruct m as [r bs]; simpl in *; subst.
Qed.

Lemma answer_block_noop pending bs :
  web_result_ids bs = [] → (∀ id, id ∈ tool_result_ids bs → id ∈ pending) →
  answer_block pending <$> bs = bs ∧ downgradedCount pending bs = 0.
Proof.
  unfold downgradedCount, ids_of. induction bs as [|b bs IH]; [done|]. csimpl.
  destruct b; csimpl; intros Hw Hin; try done;
    (destruct IH as [-> IH]; [done|set_solver|]); simpl; rewrite ?IH; try done.
  assert (mem tool_use_id pending = true) as -> by (apply mem_true, Hin; by left).
  simpl. by rewrite IH.
Qed.

Lemma user_step_noop i m st :
  m.(role) = role_user →
  (∀ id, id ∈ st.(pendingToolUseIds) ↔ id ∈ tool_result_ids m.(content)) →
  web_result_ids m.(content) = [] →
  let st' := user_step i m.(content) st in
  st'.(result) = st.(result) ++ [(m, Some i)] ∧ st'.(pendingToolUseIds) = [] ∧
  st'.(loopStats) = st.(loopStats).
Proof.
  intros Hr Hp Hw. unfold user_step.
  destruct (answer_block_noop (pendingToolUseIds st) (content m) Hw) as [Ha Hd].
  { intros id. apply Hp. }
  destruct (pendingToolUseIds st) as [|x xs] eqn:Hpend; cbn [result pendingToolUseIds loopStats].
  - rewrite orphan_block_answer, Ha, Hd, add_stats_zero. split_and!; [|done|done].
    by destruct m as [r bs]; simpl in *; subst.
  - assert (unmatchedIds (x :: xs) (content m) = []) as ->.
    { apply lfilter_none. intros id Hid. apply negb_false_iff, mem_true.
      unfold matchedIds. rewrite elem_of_set_of, elem_of_lfilter, <- Hp, mem_true. done. }
    unfold synthesizedCount. cbn [List.filter length fmap list_fmap].
    rewrite Ha, Hd, app_nil_r, add_stats_zero. split_and!; [|done|done].
    by destruct m as [r bs]; simpl in *; subst.
Qed.

Fixpoint with_sources (i : nat) (ms : list Message) : list (Message * option nat) :=
  match ms with [] => [] | m :: ms => (m, Some i) :: with_sources (S i) ms end.

Lemma loop_noop pairing ms i st :
  paired st.(pendingToolUseIds) ms → Forall (server_ok pairing) ms →
  let st' := flush_pending (repair_loop pairing i ms st) in
  st'.(result) = st.(result) ++ with_sources i ms ∧ st'.(loopStats) = st.(loopStats).
Proof.
  revert i st. induction ms as [|m ms IH]; intros i st Hp Hs; cbn [repair_loop with_sources].
  - simpl in Hp. unfold flush_pending. by rewrite Hp, app_nil_r.
  - apply Forall_cons in Hs as [Hm Hs]. cbn [paired] in Hp. unfold message_step.
    destruct (role m) eqn:Hr.
    + destruct Hp as (Hp & Hw & Hrest).
      destruct (user_step_noop i m st Hr Hp Hw) as (Hres & Hpend & Hstats).
      destruct (IH (S i) (user_step i (content m) st)) as [-> ->]; [by rewrite Hpend|done|].
      by rewrite Hres, Hstats, <- app_assoc.
    + destruct Hp as (Hp & Hno & Hrest).
      destruct (assistant_step_noop pairing i m st Hr Hp Hno Hm) as (Hres & Hpend & Hstats).
      destruct (IH (S i) (assistant_step pairing i (content m) st)) as [-> ->]; [|done|].
      { rewrite Hpend. eapply paired_ext; [|done]. intros id. by rewrite elem_of_set_of. }
      by rewrite Hres, Hstats, <- app_assoc.
Qed.

Lemma merge_push_other merged m :
  alternating (merged ++ [m]) → merges merged m = false.
Proof.
  intros Ha. unfold merges. destruct (last merged) as [p|] eqn:Hp; [|done].
  apply bool_decide_false. rewrite last_lookup in Hp.
  destruct (length merged) as [|k] eqn:Hk; [by destruct merged|].
  apply (alternating_lookup _ k p m Ha).
  - simpl in Hp. rewrite lookup_app_l; [done|lia].
  - rewrite lookup_app_r by lia. by rewrite Hk, Nat.sub_diag.
Qed.

Lemma alternating_app_l xs ys : alternating (xs ++ ys) → alternating xs.
Proof.
  induction xs as [|x [|x' xs] IH]; [done|done|]. simpl. intros [? ?]. split; [done|].
  by apply IH.
Qed.

Lemma merge_noop ms merged n c :
  alternating (merged ++ ms) →
  foldl merge_step {| ms_merged := merged;
      ms_index := (Some <$> seq 0 (length merged)) ++ replicate (length ms + n) None;
      ms_count := c |} (with_sources (length merged) ms)
  = {| ms_merged := merged ++ ms;
       ms_index := (Some <$> seq 0 (length merged + length ms)) ++ replicate n None;
       ms_count := c |}.
Proof.
  revert merged. induction ms as [|m ms IH]; intros merged Ha.
  { simpl. by rewrite app_nil_r, Nat.add_0_r. }
  assert (merges merged m = false) as Hm.
  { apply merge_push_other. apply (alternating_app_l _ ms). by rewrite <- app_assoc. }
  cbn [foldl with_sources]. unfold merge_step at 2. cbn [ms_merged ms_index ms_count fst snd].
  unfold merge_push. rewrite Hm, Nat.add_0_r, length_app. cbn [length].
  replace (length merged + 1 - 1) with (length merged + 0) by lia.
  rewrite (insert_app_r_alt _ _ (length merged)) by (rewrite length_fmap, length_seq; lia).
  rewrite length_fmap, length_seq, Nat.sub_diag. cbn [replicate Nat.add].
  rewrite (Nat.add_0_r (length merged)).
  specialize (IH (merged ++ [m])). rewrite length_app in IH. cbn [length] in IH.
  rewrite seq_app, fmap_app, <- !app_assoc in IH. cbn in IH.
  rewrite Nat.add_1_r in IH. etrans; [apply IH; exact Ha|].
  by rewrite Nat.add_succ_r.
Qed.

Lemma repair_valid_noop (msgs : list Message) :
  valid_history msgs →
  repairHistory msgs = {| messages := msgs; stats := no_stats;
    inputToOutputIndex := Some (Some <$> seq 0 (length msgs)) |}.
Proof.
  intros [Ha Hp Hs]. unfold repairHistory.
  destruct (loop_noop (analyzeServerToolPairing msgs) msgs 0 initial_state Hp Hs)
    as [-> ->].
  pose proof (merge_noop msgs [] 0 0 Ha) as Hm. simpl in Hm.
  rewrite Nat.add_0_r, app_nil_r in Hm.
  change (result initial_state ++ with_sources 0 msgs) with (with_sources 0 msgs).
  rewrite Hm. cbn [ms_merged ms_index ms_count].
  by rewrite add_stats_zero.
Qed.

(** A history that already satisfies the contract goes through untouched: same
    messages, identity index map, no counter moved. *)
Theorem repair_leaves_valid (msgs : list Message) :
  valid_history msgs →
  repairHistory msgs = {| messages := msgs; stats := no_stats;
    inputToOutputIndex := Some (Some <$> seq 0 (length msgs)) |}.
Proof. apply repair_valid_noop. Qed.

(** ** Nothing but tool results is changed *)

(** The blocks the repair never touches: everything but results. *)
Definition kept_block (b : ContentBlock) : bool :=
  match b with ToolResult _ _ _ _ | WebSearchToolResult _ _ => false | _ => true end.
Definition kept (bs : list ContentBlock) : list ContentBlock := List.filter kept_block bs.

(** [o] carries the content of [m]. *)
Definition carries (o m : Message) : Prop :=
  o.(role) = m.(role) ∧ kept m.(content) `sublist_of` o.(content).

Lemma carries_append_l o m x : carries o m → carries (append_content o x) m.
Proof.
  intros [Hr Hs]. split; [done|]. simpl. etrans; [exact Hs|]. apply sublist_inserts_r. done.
Qed.

Lemma carries_append_r o m x : o.(role) = x.(role) → carries x m → carries (append_content o x) m.
Proof.
  intros Hr [Hr' Hs]. split; [by simpl; congruence|]. simpl. by apply sublist_inserts_l.
Qed.

Lemma kept_cleaned bs : kept (cleanedContent bs) = kept bs.
Proof.
  unfold kept, cleanedContent. induction bs as [|b bs IH]; [done|].
  destruct b; simpl; by rewrite ?IH.
Qed.

Lemma kept_repaired pairing bs : kept bs `sublist_of` repairedContent pairing bs.
Proof.
  unfold repairedContent. set (s := orphanedServerIds _ _).
  set (w := orphanedWebSearchResultIds _ _).
  assert (kept bs `sublist_of` bs ≫= repair_block s w) as H.
  { clearbody s w. unfold kept. induction bs as [|b bs IH]; [done|]. csimpl.
    destruct b; simpl; try by constructor.
    - constructor. case_match; simpl; [by constructor|done].
    - case_match; simpl; by constructor. }
  assert (kept bs `sublist_of` bs).
  { unfold kept. clear. induction bs as [|b bs IH]; [done|]. simpl.
    destruct (kept_block b); by constructor. }
  by destruct s, w.
Qed.

Lemma kept_answered pending bs : kept bs `sublist_of` (answer_block pending <$> bs).
Proof.
  unfold kept. induction bs as [|b bs IH]; [done|]. csimpl. destruct b; by constructor.
Qed.

(** Every message so far has its place in the output. *)
Definition placed (out : list (Message * option nat)) (i : nat) (m : Message) : Prop :=
  ∃ o, (o, Some i) ∈ out ∧ carries o m.

Lemma message_step_result pairing i m st :
  ∃ out o, (message_step pairing i m st).(result) = st.(result) ++ out ++ [(o, Some i)] ∧
    carries o m ∧ omap snd out = [].
Proof.
  unfold message_step. destruct (role m) eqn:Hr.
  - unfold user_step. exists []. destruct (pendingToolUseIds st) as [|x xs]; eexists;
      (split; [done|]); (split; [|done]); (split; [done|]); cbn [content].
    + rewrite orphan_block_answer. apply kept_answered.
    + apply sublist_inserts_r, kept_answered.
  - unfold assistant_step, flush_pending. destruct (pendingToolUseIds st) as [|x xs].
    + exists []. eexists. split; [done|]. split; [|done]. split; [done|]. cbn [content].
      rewrite <- kept_cleaned. apply kept_repaired.
    + eexists [_], _. cbn [result]. rewrite <- app_assoc. split; [done|]. split; [|done].
      split; [done|]. cbn [content]. rewrite <- kept_cleaned. apply kept_repaired.
Qed.

Lemma flush_sources st : omap snd (flush_pending st).(result) = omap snd st.(result) ∧
  ∀ i m, placed st.(result) i m → placed (flush_pending st).(result) i m.
Proof.
  unfold flush_pending. destruct (pendingToolUseIds st); [done|]. cbn [result].
  rewrite omap_app. csimpl. rewrite app_nil_r. split; [done|].
  intros i m (o & Ho & Hc). exists o. split; [set_solver|done].
Qed.

Lemma loop_sources pairing ms i st :
  let st' := repair_loop pairing i ms st in
  omap snd st'.(result) = omap snd st.(result) ++ seq i (length ms) ∧
  (∀ j m, placed st.(result) j m → placed st'.(result) j m) ∧
  ∀ k m, ms !! k = Some m → placed st'.(result) (i + k) m.
Proof.
  revert i st. induction ms as [|m ms IH]; intros i st; cbn [repair_loop length seq].
  { simpl. rewrite app_nil_r. done. }
  destruct (IH (S i) (message_step pairing i m st)) as (Hs & Hold & Hnew).
  destruct (message_step_result pairing i m st) as (out & o & Hres & Hc & Hout).
  assert (∀ j m', placed (result st) j m' → placed (result (message_step pairing i m st)) j m')
    as Hstep.
  { intros j m' (o' & Ho & Hc'). exists o'. rewrite Hres. split; [set_solver|done]. }
  split_and!.
  - rewrite Hs, Hres, !omap_app, Hout. csimpl. by rewrite <- app_assoc.
  - intros j m' Hm'. by apply Hold, Hstep.
  - intros [|k] m'; simpl.
    + intros [= <-]. rewrite Nat.add_0_r. apply Hold. exists o. rewrite Hres.
      split; [set_solver|done].
    + rewrite Nat.add_succ_r. apply (Hnew k).
Qed.

Lemma snoc_cases {A} (xs : list A) : xs = [] ∨ ∃ ys x, xs = ys ++ [x].
Proof. destruct xs as [|x xs] using rev_ind; eauto. Qed.

Lemma merge_push_keeps merged x j o m :
  merged !! j = Some o → carries o m →
  ∃ o', merge_push merged x !! j = Some o' ∧ carries o' m.
Proof.
  intros Hj Hc. destruct (snoc_cases merged) as [->|(acc & p & ->)]; [done|].
  rewrite merge_push_last. case_bool_decide.
  2: { exists o. split; [|done]. by apply lookup_app_l_Some. }
  destruct (decide (j < length acc)) as [Hlt|Hge].
  - exists o. rewrite lookup_app_l in Hj by done. by rewrite lookup_app_l.
  - rewrite lookup_app_r in Hj by lia. exists (append_content o x).
    split; [|by apply carries_append_l]. rewrite lookup_app_r by lia.
    destruct (j - length acc) as [|[|]]; simpl in *; congruence.
Qed.

Lemma merge_push_new merged x m :
  carries x m →
  ∃ o, merge_push merged x !! (length (merge_push merged x) - 1) = Some o ∧ carries o m.
Proof.
  intros Hc. destruct (snoc_cases merged) as [->|(acc & p & ->)]; [by exists x|].
  rewrite merge_push_last. case_bool_decide as Hr;
    rewrite length_app; simpl; rewrite Nat.add_sub, lookup_app_r, Nat.sub_diag by lia; simpl.
  - eexists. split; [done|]. by apply carries_append_r.
  - eauto.
Qed.

(** The index map sends every placed message to the message carrying it. *)
Definition indexed (st : MergeState) (i : nat) (m : Message) : Prop :=
  ∃ j o, st.(ms_index) !! i = Some (Some j) ∧ st.(ms_merged) !! j = Some o ∧ carries o m.

Lemma merge_step_indexed st e i m :
  e.2 ≠ Some i → indexed st i m → indexed (merge_step st e) i m.
Proof.
  intros He (j & o & Hj & Ho & Hc).
  destruct (merge_push_keeps _ e.1 _ _ _ Ho Hc) as (o' & Ho' & Hc').
  exists j, o'. split; [|done]. cbn. destruct (e.2) as [s|]; [|done].
  by rewrite list_lookup_insert_ne by congruence.
Qed.

Lemma merge_indexed out st i m :
  i < length st.(ms_index) → NoDup (omap snd out) → placed out i m →
  indexed (foldl merge_step st out) i m.
Proof.
  assert (∀ out st, indexed st i m → i ∉ omap snd out →
            indexed (foldl merge_step st out) i m) as Hkeep.
  { clear. induction out as [|e out IH]; intros st Hst Hi; [done|]. simpl.
    apply IH; [apply merge_step_indexed; [|done]|]; csimpl in Hi;
      destruct e as [x [s|]]; simpl in *; set_solver. }
  revert st. induction out as [|e out IH]; intros st Hi Hnd (o & Ho & Hc).
  { by apply elem_of_nil in Ho. }
  csimpl in Hnd. cbn [foldl]. apply elem_of_cons in Ho as [<-|Ho].
  - cbn in Hnd. apply NoDup_cons in Hnd as [Hnot _]. apply Hkeep; [|done].
    destruct (merge_push_new (ms_merged st) o m Hc) as (o' & Ho' & Hc').
    eexists _, o'. cbn. by rewrite list_lookup_insert_eq.
  - apply IH.
    + cbn. destruct (e.2); [by rewrite length_insert|done].
    + destruct (e.2); [by apply NoDup_cons in Hnd as [_ ?]|done].
    + by exists o.
Qed.

(** Repair loses nothing but misplaced results: the index map sends every
    message to a message of the same role whose content has all its blocks other
    than tool results, in their order. *)
Theorem repair_keeps_content (msgs : list Message) (i : nat) (m : Message) :
  msgs !! i = Some m →
  let r := repairHistory msgs in
  ∃ index j o, r.(inputToOutputIndex) = Some index ∧ index !! i = Some (Some j) ∧
    r.(messages) !! j = Some o ∧ carries o m.
Proof.
  intros Hi. set (pairing := analyzeServerToolPairing msgs).
  destruct (loop_sources pairing msgs 0 initial_state) as (Hs & _ & Hp).
  destruct (flush_sources (repair_loop pairing 0 msgs initial_state)) as [Hs' Hp'].
  specialize (Hp' _ _ (Hp i m Hi)). simpl in Hs, Hp'.
  set (out := result (flush_pending (repair_loop pairing 0 msgs initial_state))) in *.
  destruct (merge_indexed out {| ms_merged := []; ms_index := replicate (length msgs) None;
              ms_count := 0 |} i m) as (j & o & Hj & Ho & Hc).
  - simpl. rewrite length_replicate. by eapply lookup_lt_Some.
  - rewrite Hs', Hs. apply NoDup_seq.
  - done.
  - exists (foldl merge_step {| ms_merged := []; ms_index := replicate (length msgs) None;
              ms_count := 0 |} out).(ms_index), j, o. done.
Qed.

(** ** Provider-side pairs in the output *)

Definition is_assistant (m : Message) : bool := bool_decide (m.(role) = role_assistant).

(** What the loop makes of a message, as far as provider-side pairs go. *)
Definition repaired_message (pairing : ServerToolPairing) (m : Message) : Message :=
  {| role := m.(role); content := repairedContent pairing (cleanedContent m.(content)) |}.

Lemma loop_assistants pairing ms i st :
  List.filter is_assistant (flush_pending (repair_loop pairing i ms st)).(result).*1 =
  List.filter is_assistant st.(result).*1 ++
    List.filter is_assistant (repaired_message pairing <$> ms).
Proof.
  assert (∀ st, List.filter is_assistant (flush_pending st).(result).*1
                = List.filter is_assistant st.(result).*1) as Hflush.
  { intros st0. unfold flush_pending. destruct (pendingToolUseIds st0); [done|].
    cbn [result]. rewrite fmap_app, List.filter_app. apply app_nil_r. }
  assert (∀ i m st, List.filter is_assistant (message_step pairing i m st).(result).*1
            = List.filter is_assistant st.(result).*1
              ++ List.filter is_assistant [repaired_message pairing m]) as Hstep.
  { clear -Hflush. intros i m st. unfold message_step, is_assistant, repaired_message.
    destruct (role m) eqn:Hr.
    - unfold user_step. destruct (pendingToolUseIds st); cbn [result];
        by rewrite fmap_app, List.filter_app.
    - unfold assistant_step. cbn [result]. by rewrite fmap_app, List.filter_app, Hflush. }
  revert i st. induction ms as [|m ms IH]; intros i st; cbn [repair_loop].
  { by rewrite Hflush, app_nil_r. }
  rewrite IH, Hstep, <- app_assoc, <- List.filter_app. done.
Qed.

Lemma user_no_server m : is_assistant m = false → uses_in m = [] ∧ results_in m = [].
Proof.
  unfold is_assistant, uses_in, results_in. intros H%bool_decide_eq_false.
  by destruct (role m).
Qed.

Lemma existsb_assistants (f : Message → list string) id ms :
  (∀ m, is_assistant m = false → f m = []) →
  existsb (λ m, mem id (f m)) (List.filter is_assistant ms)
  = existsb (λ m, mem id (f m)) ms.
Proof.
  intros Hf. induction ms as [|m ms IH]; [done|]. simpl.
  destruct (is_assistant m) eqn:Hm; simpl; rewrite IH; [done|]. by rewrite (Hf m Hm).
Qed.

Lemma resolves_assistants id ms :
  resolves id (List.filter is_assistant ms) = resolves id ms.
Proof.
  induction ms as [|m ms IH]; [done|]. simpl. destruct (is_assistant m) eqn:Hm; simpl.
  - rewrite IH, existsb_assistants; [done|]. intros. by apply user_no_server.
  - by destruct (user_no_server m Hm) as [-> ->].
Qed.

Lemma web_ids_repaired pairing bs id :
  id ∈ web_result_ids (repairedContent pairing bs) ↔
  (id ∈ web_result_ids bs ∧ id ∈ pairing.(resolvedPairIds)) ∨
  (id ∈ server_use_ids bs ∧ id ∉ pairing.(resolvedPairIds) ∧
   id ∉ pairing.(deferredUseIds)).
Proof.
  unfold repairedContent. set (s := orphanedServerIds _ _).
  set (w := orphanedWebSearchResultIds _ _).
  assert (∀ id, id ∈ s ↔ id ∈ server_use_ids bs ∧ id ∉ pairing.(resolvedPairIds) ∧
                  id ∉ pairing.(deferredUseIds)) as Hs.
  { intros x. subst s. unfold orphanedServerIds.
    by rewrite elem_of_set_of, elem_of_lfilter, andb_true_iff, !negb_true_iff, !mem_false. }
  assert (∀ id, id ∈ w ↔ id ∈ web_result_ids bs ∧ id ∉ pairing.(resolvedPairIds)) as Hw.
  { intros x. subst w. unfold orphanedWebSearchResultIds.
    by rewrite elem_of_set_of, elem_of_lfilter, !negb_true_iff, !mem_false. }
  clearbody s w.
  assert (id ∈ web_result_ids (bs ≫= repair_block s w) ↔
          (id ∈ web_result_ids bs ∧ id ∉ w) ∨ (id ∈ server_use_ids bs ∧ id ∈ s)) as Hgen.
  { clear Hs Hw. unfold ids_of. induction bs as [|b bs IH]; [csimpl; set_solver|].
    csimpl. rewrite omap_app, elem_of_app, IH. clear IH.
    destruct b; csimpl; try set_solver.
    - destruct (mem id0 s) eqn:Hm; [apply mem_true in Hm|apply mem_false in Hm];
        csimpl; set_solver.
    - destruct (mem tool_use_id w) eqn:Hm; [apply mem_true in Hm|apply mem_false in Hm];
        csimpl; set_solver. }
  assert (id ∈ web_result_ids bs → id ∉ w → id ∈ pairing.(resolvedPairIds)) as Hr.
  { intros Hin Hn. destruct (decide (id ∈ pairing.(resolvedPairIds))); [done|].
    exfalso. apply Hn, Hw. done. }
  destruct s as [|x s]; [destruct w as [|y w]|].
  2, 3: rewrite Hgen, Hs, Hw; naive_solver.
  split.
  - intros Hin. left. split; [done|]. apply Hr; [done|]. apply not_elem_of_nil.
  - intros [[? _]|H]; [done|]. apply Hs in H. by apply elem_of_nil in H.
Qed.

Lemma repaired_uses pairing m : uses_in (repaired_message pairing m) = uses_in m.
Proof.
  unfold uses_in. cbn [role content repaired_message]. destruct (role m); [done|].
  rewrite ids_repaired by set_solver. apply ids_cleaned. by intros [].
Qed.

Lemma repaired_results pairing m id :
  id ∈ results_in (repaired_message pairing m) ↔
  (id ∈ results_in m ∧ id ∈ pairing.(resolvedPairIds)) ∨
  (id ∈ uses_in m ∧ id ∉ pairing.(resolvedPairIds) ∧ id ∉ pairing.(deferredUseIds)).
Proof.
  unfold uses_in, results_in. cbn [role content repaired_message].
  destruct (role m); [set_solver|]. rewrite web_ids_repaired, !ids_cleaned; [done|by intros []..].
Qed.

(** Without deferral, every identifier the repaired messages mention is resolved. *)
Lemma repaired_resolves pairing ms id :
  (∀ id, id ∈ pairing.(resolvedPairIds) ↔ resolves id ms = true) →
  pairing.(deferredUseIds) = [] →
  existsb (λ m, mem id (uses_in m)) (repaired_message pairing <$> ms) = true ∨
  existsb (λ m, mem id (results_in m)) (repaired_message pairing <$> ms) = true →
  resolves id (repaired_message pairing <$> ms) = true.
Proof.
  intros Hres Hdef Hin.
  assert (∀ m, mem id (uses_in (repaired_message pairing m)) = mem id (uses_in m)) as Hu.
  { intros m. by rewrite repaired_uses. }
  destruct (resolves id ms) eqn:Hr.
  - rewrite <- Hr. symmetry. apply resolves_ext. apply Forall2_fmap_r, Forall_Forall2_diag.
    apply Forall_true. intros m. split; [by rewrite Hu|].
    apply eq_bool_prop_intro. rewrite !Is_true_true, !mem_true, repaired_results, Hres.
    naive_solver congruence.
  - assert (∀ m, mem id (results_in (repaired_message pairing m))
                 = mem id (uses_in (repaired_message pairing m))) as Heq.
    { intros m. apply eq_bool_prop_intro.
      rewrite !Is_true_true, !mem_true, repaired_results, repaired_uses, Hres, Hdef.
      split; [naive_solver congruence|]. intros. right. split_and!; [done|congruence|].
      apply not_elem_of_nil. }
    clear Hr. revert Hin. induction ms as [|m ms IH]; csimpl; [by intros []|].
    rewrite Heq. destruct (mem id (uses_in (repaired_message pairing m))); simpl; [done|].
    intros Hin. clear IH Hres. induction ms as [|m' ms IH]; csimpl in *; [by destruct Hin|].
    rewrite Heq in *. destruct (mem id (uses_in (repaired_message pairing m'))); [done|].
    by apply IH.
Qed.

Lemma append_mem (f : Message → list string) id m m' :
  f = uses_in ∨ f = results_in → m.(role) = m'.(role) →
  mem id (f (append_content m m')) = mem id (f m) || mem id (f m').
Proof.
  intros Hf Hr. rewrite <- mem_app. f_equal.
  destruct Hf as [-> | ->]; unfold uses_in, results_in; simpl; rewrite <- Hr;
    destruct (role m); try done; apply ids_of_app.
Qed.

Lemma existsb_merge (f : Message → list string) id ms :
  f = uses_in ∨ f = results_in →
  existsb (λ m, mem id (f m)) (merge_list ms) = existsb (λ m, mem id (f m)) ms.
Proof.
  intros Hf. induction ms as [|m ms IH]; [done|]. simpl.
  destruct (merge_list ms) as [|m' rest]; simpl in *; [by rewrite <- IH|].
  case_bool_decide as Hr; simpl; rewrite <- IH; [|done].
  rewrite (append_mem f id m m' Hf Hr). by rewrite orb_assoc.
Qed.

Lemma resolves_merge id ms : resolves id ms = true → resolves id (merge_list ms) = true.
Proof.
  induction ms as [|m ms IH]; [done|]. pose proof (existsb_merge results_in id ms
    (or_intror eq_refl)) as He. cbn [resolves merge_list].
  destruct (merge_list ms) as [|m' rest]; cbn [resolves existsb] in *.
  - destruct (mem id (results_in m)); [done|]. rewrite <- He.
    destruct (mem id (uses_in m)); [done|]. exact IH.
  - case_bool_decide as Hr; cbn [resolves existsb].
    + rewrite (append_mem uses_in), (append_mem results_in) by auto.
      destruct (mem id (results_in m)); simpl; [by intros ->|].
      destruct (mem id (uses_in m)); simpl; [|exact IH].
      rewrite <- He. by destruct (mem id (results_in m')).
    + destruct (mem id (results_in m)); [done|].
      destruct (mem id (uses_in m)); [by rewrite He|exact IH].
Qed.

Lemma elem_existsb (f : Message → list string) id m ms :
  m ∈ ms → id ∈ f m → existsb (λ m, mem id (f m)) ms = true.
Proof. intros Hm Hid. apply existsb_true. exists m. split; [done|]. by apply mem_true. Qed.

(** When no provider-side call is deferred, the repaired history is valid in
    full, provider-side pairs included, so a second repair changes nothing. *)
Theorem repair_idempotent (msgs : list Message) :
  (analyzeServerToolPairing msgs).(deferredUseIds) = [] →
  let out := (repairHistory msgs).(messages) in
  valid_history out ∧ (repairHistory out).(messages) = out ∧
  (repairHistory out).(stats) = no_stats.
Proof.
  intros Hdef out. assert (valid_history out) as Hv.
  2: { split; [done|]. by rewrite (repair_valid_noop out Hv). }
  subst out. destruct (repairHistory_messages msgs) as (out & -> & Hp & Hout).
  set (pairing := analyzeServerToolPairing msgs) in *.
  pose proof (loop_assistants pairing msgs 0 initial_state) as Ha.
  rewrite <- Hout in Ha. simpl in Ha.
  assert (∀ f id, f = uses_in ∨ f = results_in →
    existsb (λ m, mem id (f m)) (merge_list out.*1)
    = existsb (λ m, mem id (f m)) (repaired_message pairing <$> msgs)) as Hex.
  { intros f id Hf. rewrite existsb_merge by done.
    rewrite <- (existsb_assistants f id out.*1), Ha, existsb_assistants; [done|..];
      intros m Hm; destruct (user_no_server m Hm); by destruct Hf as [-> | ->]. }
  assert (∀ id, existsb (λ m, mem id (uses_in m)) (merge_list out.*1) = true ∨
                existsb (λ m, mem id (results_in m)) (merge_list out.*1) = true →
    id ∈ (analyzeServerToolPairing (merge_list out.*1)).(resolvedPairIds)) as Hres.
  { intros id Hid. rewrite !Hex in Hid by auto. apply resolvedPairIds_spec, resolves_merge.
    rewrite <- resolves_assistants, Ha, resolves_assistants.
    apply repaired_resolves; [|done|done]. intros id'. apply resolvedPairIds_spec. }
  split; [apply merge_list_alternating|by apply merge_list_paired|].
  apply Forall_forall. intros m Hm Hr. split.
  - intros id Hid. left. apply Hres. left. apply (elem_existsb uses_in id m); [done|].
    unfold uses_in. by rewrite Hr.
  - intros id Hid. apply Hres. right. apply (elem_existsb results_in id m); [done|].
    unfold results_in. by rewrite Hr.
Qed.

(** ** The fallback repair *)

Lemma drop_leading_head ms m :
  head (drop_leading_assistant ms) = Some m → m.(role) = role_user.
Proof.
  induction ms as [|x ms IH]; [done|]. simpl. case_bool_decide as Hx; [done|].
  intros [= <-]. by destruct (role x).
Qed.

Lemma drop_trailing_last ms m :
  last (drop_trailing_assistant ms) = Some m → m.(role) = role_user.
Proof. unfold drop_trailing_assistant. rewrite last_reverse. apply drop_leading_head. Qed.

Lemma drop_leading_suffix ms : ∃ pre, ms = pre ++ drop_leading_assistant ms.
Proof.
  induction ms as [|m ms [pre IH]]; [by exists []|]. simpl. case_bool_decide; [|by exists []].
  exists (m :: pre). simpl. by rewrite <- IH.
Qed.

Lemma drop_trailing_head ms :
  drop_trailing_assistant ms = [] ∨ head (drop_trailing_assistant ms) = head ms.
Proof.
  unfold drop_trailing_assistant. destruct (drop_leading_suffix (reverse ms)) as [pre Hpre].
  assert (ms = reverse (drop_leading_assistant (reverse ms)) ++ reverse pre) as Hms.
  { rewrite <- reverse_app, <- Hpre. by rewrite reverse_involutive. }
  destruct (reverse (drop_leading_assistant (reverse ms))) as [|x l]; [by left|right].
  by rewrite Hms.
Qed.

Lemma last_append_role ms m : ∃ o, last (merge_list (ms ++ [m])) = Some o ∧ o.(role) = m.(role).
Proof.
  induction ms as [|x ms [o [Ho Hr]]]; [by exists m|]. simpl.
  destruct (merge_list (ms ++ [m])) as [|y rest]; [done|].
  case_bool_decide as Hxy; [|by exists o]. destruct rest as [|z rest]; [|by exists o].
  simpl in *. injection Ho as <-. eexists. split; [done|]. simpl. congruence.
Qed.

Lemma repair_loop_snoc pairing i ms m st :
  repair_loop pairing i (ms ++ [m]) st =
  message_step pairing (i + length ms) m (repair_loop pairing i ms st).
Proof.
  revert i st. induction ms as [|x ms IH]; intros i st; simpl; [by rewrite Nat.add_0_r|].
  rewrite IH. by rewrite Nat.add_succ_r.
Qed.

Lemma user_step_settles pairing i m st :
  m.(role) = role_user → (message_step pairing i m st).(pendingToolUseIds) = [].
Proof.
  intros Hr. unfold message_step, user_step. rewrite Hr.
  by destruct (pendingToolUseIds st).
Qed.

Lemma repair_last_user msgs m :
  last msgs = Some m → m.(role) = role_user →
  ∃ o, last (repairHistory msgs).(messages) = Some o ∧ o.(role) = role_user.
Proof.
  intros (ms & ->)%last_Some Hr.
  destruct (repairHistory_messages (ms ++ [m])) as (out & -> & _ & ->).
  set (pairing := analyzeServerToolPairing _). rewrite repair_loop_snoc.
  set (st := repair_loop pairing 0 ms initial_state).
  unfold flush_pending. rewrite user_step_settles by done.
  destruct (message_step_result pairing (0 + length ms) m st) as (o' & o & -> & [Ho _] & _).
  rewrite !fmap_app, app_assoc.
  destruct (last_append_role ((result st).*1 ++ o'.*1) o) as (x & Hx & Hxr).
  exists x. split; [done|congruence].
Qed.

Lemma repair_head_user m msgs :
  m.(role) = role_user →
  ∃ o, head (repairHistory (m :: msgs)).(messages) = Some o ∧ o.(role) = role_user.
Proof.
  intros Hr. destruct (repairHistory_messages (m :: msgs)) as (out & -> & _ & ->).
  set (pairing := analyzeServerToolPairing _). cbn [repair_loop].
  destruct (loop_paired pairing msgs 1 (message_step pairing 0 m initial_state))
    as (out & -> & _).
  { by apply message_step_recovered. }
  unfold message_step. rewrite Hr. unfold user_step. cbn [initial_state pendingToolUseIds result].
  rewrite fmap_app. cbn [fmap list_fmap app fst].
  edestruct merge_list_head as (o & rest & -> & Ho). by exists o.
Qed.

Lemma repair_nil : (repairHistory []).(messages) = [].
Proof. done. Qed.

(** The fallback repair also meets the contract, its output begins with a user
    message, and with [requireUserTerminal] it ends with one. *)
Theorem deep_repair_meets_contract (msgs : list Message) (requireUserTerminal : bool) :
  let out := (deepRepairHistory msgs requireUserTerminal).(messages) in
  provider_contract out ∧
  (∀ m, head out = Some m → m.(role) = role_user) ∧
  (requireUserTerminal = true → ∀ m, last out = Some m → m.(role) = role_user).
Proof.
  unfold deepRepairHistory. cbn [messages]. rewrite foldl_merge_list.
  set (cleaned := drop_leading_assistant _).
  set (ready := if requireUserTerminal then _ else _).
  assert (∀ m, head (merge_list cleaned) = Some m → m.(role) = role_user) as Hmerged.
  { destruct cleaned as [|c cs] eqn:Hc; [done|].
    destruct (merge_list_head c cs) as (o & rest & -> & Ho). intros m [= <-].
    rewrite Ho. by apply (drop_leading_head
      (List.filter (λ m, negb (isEffectivelyEmptyContent m.(content))) msgs)); fold cleaned; rewrite Hc. }
  assert (∀ m, head ready = Some m → m.(role) = role_user) as Hready.
  { subst ready. destruct requireUserTerminal; [|done].
    destruct (drop_trailing_head (merge_list cleaned)) as [-> | ->]; [done|exact Hmerged]. }
  split_and!.
  - destruct (repairHistory_messages ready) as (out & -> & Hp & _).
    apply provider_contract_intro; [apply merge_list_alternating|by apply merge_list_paired].
  - intros m Hm. destruct ready as [|r rs]; [done|].
    destruct (repair_head_user r rs (Hready r eq_refl)) as (o & Ho & Hr). congruence.
  - intros -> m Hm. destruct (last ready) as [r|] eqn:Hlast.
    + destruct (repair_last_user ready r Hlast) as (o & Ho & Hr); [|congruence].
      by apply (drop_trailing_last (merge_list cleaned)).
    + apply last_None in Hlast. by rewrite Hlast in Hm.
Qed.

(** ** Two limits of the repair *)

Definition assistant_message (bs : list ContentBlock) : Message :=
  {| role := role_assistant; content := bs |}.
Definition user_message (bs : list ContentBlock) : Message :=
  {| role := role_user; content := bs |}.

Lemma mem_single (id : string) : mem id [id] = true.
Proof. apply mem_true. by left. Qed.

(** A result that sits in the assistant message after the one with its call is
    dropped, a synthetic error takes its place, and it is still counted as
    migrated. *)
Theorem late_result_lost (id name data : string) (input : Json) :
  let r := repairHistory [assistant_message [ToolUse id name input None];
                          assistant_message [ToolResult id data None None]] in
  r.(messages) =
    [assistant_message [ToolUse id name input None];
     user_message [ToolResult id SYNTHETIC_RESULT (Some true) None];
     assistant_message []] ∧
  r.(stats).(assistantToolResultsMigrated) = 1 ∧
  r.(stats).(missingToolResultsInserted) = 1.
Proof. done. Qed.

(** A call left in the output that the analysis of the output finds neither answered
    nor deferred. *)
Definition unpaired_call (ms : list Message) (id : string) : Prop :=
  let p := analyzeServerToolPairing ms in
  existsb (λ m, mem id (uses_in m)) ms = true ∧
  mem id p.(resolvedPairIds) = false ∧ mem id p.(deferredUseIds) = false.

(** Deferral is judged before the results after the call are downgraded: an
    unanswered provider-side call followed by an orphan result only is left
    alone, and the output has a call that is neither answered nor deferred. *)
Theorem deferral_misjudged (id orphan name data : string) (input : Json) :
  unpaired_call
    (repairHistory [assistant_message [ServerToolUse id name input];
                    user_message [ToolResult orphan data None None]]).(messages) id.
Proof.
  set (call := assistant_message [ServerToolUse id name input]).
  set (ms := [call; user_message [ToolResult orphan data None None]]).
  assert (analyzeServerToolPairing ms =
          {| resolvedPairIds := []; deferredUseIds := [id]; crossMessageIds := [] |})
    as Hp by done.
  assert (repairedContent (analyzeServerToolPairing ms) [ServerToolUse id name input]
          = [ServerToolUse id name input]) as Hc.
  { rewrite Hp. unfold repairedContent, orphanedServerIds. cbn -[mem].
    by rewrite mem_single, andb_false_r. }
  assert ((repairHistory ms).(messages) =
    [call; user_message [downgradeResult (ToolResult orphan data None None)]]) as ->.
  { unfold repairHistory. cbn -[repairedContent analyzeServerToolPairing downgradeResult].
    rewrite Hc. done. }
  split_and!; [|done|done]. cbn -[mem]. by rewrite mem_single.
Qed.

(** ** Concrete instances *)

(** An interrupted search and a stale result. *)
Definition sample_history : list Message :=
  [user_message [Text "Go"];
   assistant_message [ServerToolUse "s1" "web_search" JNull; ToolUse "t1" "bash" JNull None];
   user_message [ToolResult "t0" "stale" None None];
   assistant_message [Text "Done"]].

Lemma repair_leaves_valid_witness :
  repairHistory [user_message [Text "Go"]; assistant_message [ToolUse "t1" "bash" JNull None];
                 user_message [ToolResult "t1" "ok" None None]]
  = {| messages := [user_message [Text "Go"];
                    assistant_message [ToolUse "t1" "bash" JNull None];
                    user_message [ToolResult "t1" "ok" None None]];
       stats := no_stats; inputToOutputIndex := Some [Some 0; Some 1; Some 2] |}.
Proof.
  apply (repair_leaves_valid [user_message [Text "Go"];
    assistant_message [ToolUse "t1" "bash" JNull None];
    user_message [ToolResult "t1" "ok" None None]]).
  split.
  - split; [discriminate|]. split; [discriminate|exact I].
  - cbn. split; [intros id; split; intros H; by apply elem_of_nil in H|].
    split; [reflexivity|]. split; [reflexivity|]. split; [reflexivity|].
    split; [intros id; split; intros H; exact H|]. split; reflexivity.
  - apply Forall_cons_2; [intros Hr; discriminate Hr|].
    apply Forall_cons_2;
      [intros _; split; intros id H; cbn in H; by apply elem_of_nil in H|].
    apply Forall_cons_2; [intros Hr; discriminate Hr|apply Forall_nil_2].
Defined.

Lemma repair_keeps_content_witness :
  ∃ index j o, (repairHistory sample_history).(inputToOutputIndex) = Some index ∧
    index !! 3 = Some (Some j) ∧ (repairHistory sample_history).(messages) !! j = Some o ∧
    carries o (assistant_message [Text "Done"]).
Proof.
  apply (repair_keeps_content sample_history 3 (assistant_message [Text "Done"])).
  reflexivity.
Defined.

Lemma repair_idempotent_witness :
  valid_history (repairHistory sample_history).(messages).
Proof. apply (repair_idempotent sample_history). vm_compute. reflexivity. Defined.
