(* ===== verification/InboundClaims.v ===== *)
(** Claims on inbound deliveries ([gateway/src/db/inbound-dedup-store.ts]): a
    delivery is reserved on a short lease, then committed for the full window or
    released. Each operation is one SQL statement, so operations interleave
    atomically; the clock it reads is its argument [now]. *)
From S2P Require Import Prelude.

Record InboundEventKey := {
  sourceChannel : string; externalChatId : string; externalMessageId : string }.

#[export] Instance InboundEventKey_eq_dec : EqDecision InboundEventKey.
Proof. solve_decision. Defined.

#[export] Program Instance InboundEventKey_countable : Countable InboundEventKey :=
  inj_countable' (λ k, (k.(sourceChannel), k.(externalChatId), k.(externalMessageId)))
    (λ '(a, b, c), {| sourceChannel := a; externalChatId := b; externalMessageId := c |}) _.
Next Obligation. by intros []. Qed.

Inductive ClaimState := pending | committed.

#[export] Instance ClaimState_eq_dec : EqDecision ClaimState.
Proof. solve_decision. Defined.

Record Claim := { state : ClaimState; seenAt : Z; expiresAt : Z }.

(** The table, by its composite key. *)
Notation ClaimTable := (gmap InboundEventKey Claim).

Definition INBOUND_DEDUP_TTL_MS : Z := 24 * 60 * 60 * 1000.
Definition INBOUND_CLAIM_LEASE_MS : Z := 5 * 60 * 1000.

Section Operations.
Open Scope Z_scope.

(** The upsert: the row is taken when there is none or the one there has expired. *)
Definition reserveInboundEvent (now : Z) (key : InboundEventKey) (leaseMs : Z)
    (t : ClaimTable) : ClaimTable * bool :=
  let claim := {| state := pending; seenAt := now; expiresAt := now + leaseMs |} in
  match t !! key with
  | None => (<[key := claim]> t, true)
  | Some row =>
      if (row.(expiresAt) <=? now)%Z then (<[key := claim]> t, true) else (t, false)
  end.

Definition is_pending (row : Claim) : bool := bool_decide (row.(state) = pending).

Definition commitInboundEvent (now : Z) (key : InboundEventKey) (ttlMs : Z) (t : ClaimTable)
    : ClaimTable :=
  match t !! key with
  | Some row =>
      if is_pending row
      then <[key := {| state := committed; seenAt := row.(seenAt);
                       expiresAt := now + ttlMs |}]> t
      else t
  | None => t
  end.

Definition releaseInboundEvent (key : InboundEventKey) (t : ClaimTable) : ClaimTable :=
  match t !! key with
  | Some row => if is_pending row then delete key t else t
  | None => t
  end.

Definition readInboundEventClaim (now : Z) (key : InboundEventKey) (t : ClaimTable)
    : option Claim :=
  row ← t !! key; if (now <? row.(expiresAt))%Z then Some row else None.

Definition cleanupExpiredInboundEvents (now : Z) (t : ClaimTable) : ClaimTable * nat :=
  let t' := filter (λ e, ¬ (e.2.(expiresAt) ≤ now)) t in
  (t', (size t - size t')%nat).

(** ** Interleavings *)

Inductive ClaimOp :=
  | Reserve (key : InboundEventKey) (leaseMs : Z)
  | Commit (key : InboundEventKey) (ttlMs : Z)
  | Release (key : InboundEventKey)
  | Cleanup.

Definition claim_step (t : ClaimTable) (e : Z * ClaimOp) : ClaimTable :=
  match e.2 with
  | Reserve key lease => (reserveInboundEvent e.1 key lease t).1
  | Commit key ttl => commitInboundEvent e.1 key ttl t
  | Release key => releaseInboundEvent key t
  | Cleanup => (cleanupExpiredInboundEvents e.1 t).1
  end.

Definition run_claims (trace : list (Z * ClaimOp)) (t : ClaimTable) : ClaimTable :=
  foldl claim_step t trace.

(** ** Functional behaviour *)

(** A reservation succeeds exactly when no claim on the key is live. *)
Lemma reserve_free now key lease t :
  (reserveInboundEvent now key lease t).2 = true ↔ readInboundEventClaim now key t = None.
Proof.
  unfold reserveInboundEvent, readInboundEventClaim. destruct (t !! key) as [row|]; [|done].
  simpl. destruct (Z.leb_spec (expiresAt row) now), (Z.ltb_spec now (expiresAt row));
    simpl; try done; lia.
Qed.

(** [held until key t]: the key has a claim that lives at least until then. *)
Definition held (until : Z) (key : InboundEventKey) (t : ClaimTable) : Prop :=
  ∃ row, t !! key = Some row ∧ until ≤ row.(expiresAt).
Definition committed_until (until : Z) (key : InboundEventKey) (t : ClaimTable) : Prop :=
  ∃ row, t !! key = Some row ∧ row.(state) = committed ∧ until ≤ row.(expiresAt).

Lemma held_reserve_fails until now key lease t :
  held until key t → now < until → (reserveInboundEvent now key lease t).2 = false.
Proof.
  intros (row & Hrow & Hexp) Hlt. unfold reserveInboundEvent. rewrite Hrow.
  destruct (Z.leb_spec (expiresAt row) now); [lia|done].
Qed.

Lemma reserved_held now key lease t t' :
  reserveInboundEvent now key lease t = (t', true) →
  t' !! key = Some {| state := pending; seenAt := now; expiresAt := now + lease |}.
Proof.
  unfold reserveInboundEvent. destruct (t !! key) as [row|]; [case_match; [|done]|];
    intros [= <-]; apply lookup_insert_eq.
Qed.

(** What an operation does to a live claim: at most commit or release it. *)
Lemma step_live_claim t e key row :
  t !! key = Some row → e.1 < row.(expiresAt) →
  claim_step t e !! key =
  match e.2 with
  | Commit key' ttl =>
      if bool_decide (key' = key) && is_pending row
      then Some {| state := committed; seenAt := row.(seenAt); expiresAt := e.1 + ttl |}
      else Some row
  | Release key' =>
      if bool_decide (key' = key) && is_pending row then None else Some row
  | _ => Some row
  end.
Proof.
  intros Hrow Hlt. destruct e as [now [key' lease|key' ttl|key'|]]; cbn in *.
  - unfold reserveInboundEvent. destruct (decide (key' = key)) as [->|Hne].
    + rewrite Hrow. destruct (Z.leb_spec (expiresAt row) now); [lia|done].
    + destruct (t !! key') as [row'|]; [case_match|]; simpl;
        rewrite ?lookup_insert_ne by done; done.
  - unfold commitInboundEvent. case_bool_decide as Hk; simpl.
    + subst. rewrite Hrow. destruct (is_pending row); [|done]. apply lookup_insert_eq.
    + destruct (t !! key') as [row'|]; [|done]. destruct (is_pending row'); [|done].
      by rewrite lookup_insert_ne.
  - unfold releaseInboundEvent. case_bool_decide as Hk; simpl.
    + subst. rewrite Hrow. destruct (is_pending row); [|done]. apply lookup_delete_eq.
    + destruct (t !! key') as [row'|]; [|done]. destruct (is_pending row'); [|done].
      by rewrite lookup_delete_ne.
  - apply map_lookup_filter_Some. split; [done|]. simpl. lia.
Qed.

(** The operations that keep a claim on [key] blocking until [until]: they run before
    then, a commit of the key extends it at least that far, and the key is not
    released. *)
Definition harmless (until : Z) (key : InboundEventKey) (e : Z * ClaimOp) : Prop :=
  e.1 < until ∧
  match e.2 with
  | Commit key' ttl => key' = key → until ≤ e.1 + ttl
  | Release key' => key' ≠ key
  | _ => True
  end.

Lemma held_run until key trace t :
  Forall (harmless until key) trace → held until key t → held until key (run_claims trace t).
Proof.
  intros Htr. revert t. induction Htr as [|e trace [Hlt He] _ IH]; intros t Hheld; [done|].
  apply IH. destruct Hheld as (row & Hrow & Hexp).
  pose proof (step_live_claim t e key row Hrow ltac:(lia)) as Hstep.
  unfold held. destruct (e.2) as [| key' ttl| key'|]; rewrite Hstep; try by exists row.
  - case_bool_decide as Hk; simpl; [|by exists row].
    destruct (is_pending row); [|by exists row]. eexists. split; [done|]. simpl. auto.
  - rewrite bool_decide_false by done. by exists row.
Qed.

Lemma committed_run until key trace t :
  Forall (λ e, e.1 < until) trace → committed_until until key t →
  committed_until until key (run_claims trace t).
Proof.
  intros Htr. revert t. induction Htr as [|e trace Hlt _ IH]; intros t Hheld; [done|].
  apply IH. destruct Hheld as (row & Hrow & Hst & Hexp). exists row.
  rewrite (step_live_claim t e key row Hrow) by lia.
  assert (is_pending row = false) as -> by (by apply bool_decide_false; rewrite Hst).
  destruct (e.2); by rewrite ?andb_false_r.
Qed.

(** While a claim's lease runs, whatever the other handlers do (short of
    releasing this very key, or committing it for less than the lease), every
    further reservation of the same delivery is refused. *)
Theorem claim_exclusive (now lease : Z) (key : InboundEventKey) (t t' : ClaimTable)
    (trace : list (Z * ClaimOp)) (now' lease' : Z) :
  reserveInboundEvent now key lease t = (t', true) →
  Forall (harmless (now + lease) key) trace → now' < now + lease →
  (reserveInboundEvent now' key lease' (run_claims trace t')).2 = false.
Proof.
  intros Hres%reserved_held Htr Hlt. eapply held_reserve_fails; [|exact Hlt].
  apply held_run; [done|]. eexists. split; [exact Hres|]. simpl. lia.
Qed.

(** Once committed, a delivery is refused for the whole window whatever happens:
    late releases and late commits of the same key included. *)
Theorem commit_final (now ttl : Z) (key : InboundEventKey) (row : Claim) (t : ClaimTable)
    (trace : list (Z * ClaimOp)) (now' lease' : Z) :
  t !! key = Some row → row.(state) = pending →
  Forall (λ e, e.1 < now + ttl) trace → now' < now + ttl →
  (reserveInboundEvent now' key lease'
     (run_claims trace (commitInboundEvent now key ttl t))).2 = false.
Proof.
  intros Hrow Hst Htr Hlt.
  destruct (committed_run (now + ttl) key trace (commitInboundEvent now key ttl t) Htr)
    as (row' & Hrow' & _ & Hexp).
  - unfold commitInboundEvent. rewrite Hrow. unfold is_pending.
    rewrite bool_decide_true by done.
    eexists. split; [apply lookup_insert_eq|]. split; [reflexivity|]. simpl. reflexivity.
  - eapply held_reserve_fails; [|exact Hlt]. by exists row'.
Qed.

(** ** No delivery is blocked for good *)

(** The operations that do not settle the key. *)
Definition elsewhere (key : InboundEventKey) (e : Z * ClaimOp) : Prop :=
  match e.2 with
  | Reserve key' _ | Commit key' _ | Release key' => key' ≠ key
  | Cleanup => True
  end.

Lemma step_elsewhere t e key :
  elsewhere key e → claim_step t e !! key = t !! key ∨ claim_step t e !! key = None.
Proof.
  destruct e as [now [key' lease|key' ttl|key'|]]; cbn; intros Hne.
  - left. unfold reserveInboundEvent. destruct (t !! key') as [row'|]; [case_match|]; simpl;
      by rewrite ?lookup_insert_ne.
  - left. unfold commitInboundEvent. destruct (t !! key') as [row'|]; [|done].
    destruct (is_pending row'); [|done]. by rewrite lookup_insert_ne.
  - left. unfold releaseInboundEvent. destruct (t !! key') as [row'|]; [|done].
    destruct (is_pending row'); [|done]. by rewrite lookup_delete_ne.
  - rewrite map_lookup_filter. destruct (t !! key) as [row|]; [|by left].
    simpl. case_guard; [by left|by right].
Qed.

Lemma run_elsewhere trace t key :
  Forall (elsewhere key) trace →
  run_claims trace t !! key = t !! key ∨ run_claims trace t !! key = None.
Proof.
  intros Htr. revert t. induction Htr as [|e trace He _ IH]; intros t; [by left|].
  change (run_claims (e :: trace) t) with (run_claims trace (claim_step t e)).
  destruct (IH (claim_step t e)) as [-> | ->]; [|by right]. by apply step_elsewhere.
Qed.

Lemma reserve_free_row now key lease t :
  t !! key = None ∨ (∃ row, t !! key = Some row ∧ row.(expiresAt) <= now) →
  (reserveInboundEvent now key lease t).2 = true.
Proof.
  unfold reserveInboundEvent. intros [-> | (row & -> & Hle)]; [done|].
  by apply Z.leb_le in Hle as ->.
Qed.

(** A handler that dies leaves the delivery retryable as soon as its lease is over,
    and one that gives up leaves it retryable at once. *)
Theorem abandoned_retryable (now lease : Z) (key : InboundEventKey) (t t' : ClaimTable)
    (trace : list (Z * ClaimOp)) (now' lease' : Z) :
  reserveInboundEvent now key lease t = (t', true) → Forall (elsewhere key) trace →
  (now + lease ≤ now' →
   (reserveInboundEvent now' key lease' (run_claims trace t')).2 = true) ∧
  (reserveInboundEvent now' key lease'
     (run_claims trace (releaseInboundEvent key t'))).2 = true.
Proof.
  intros Hres%reserved_held Htr. split.
  - intros Hle. apply reserve_free_row.
    destruct (run_elsewhere trace t' key Htr) as [-> | ->]; [right|by left].
    eexists. split; [exact Hres|exact Hle].
  - apply reserve_free_row. left.
    assert (releaseInboundEvent key t' !! key = None) as Hnone.
    { unfold releaseInboundEvent. rewrite Hres. apply lookup_delete_eq. }
    destruct (run_elsewhere trace (releaseInboundEvent key t') key Htr) as [-> | ->];
      [exact Hnone|reflexivity].
Qed.

(** ** Late settlements *)

(** A commit or release names its key only, not the claim it settles: arriving after
    its own lease expired and the key was reserved anew, a release frees the new
    claim's key at once, and a commit turns the new claim into a committed one
    that its holder can no longer release. *)
Theorem late_settlement_reaches_replacement (now1 lease1 now2 lease2 ttl : Z)
    (key : InboundEventKey) (t t1 t2 : ClaimTable) :
  reserveInboundEvent now1 key lease1 t = (t1, true) →
  reserveInboundEvent now2 key lease2 t1 = (t2, true) →
  (∀ now3 lease3, (reserveInboundEvent now3 key lease3 (releaseInboundEvent key t2)).2 = true) ∧
  (∀ now3 now4 lease4, now4 < now3 + ttl →
     (reserveInboundEvent now4 key lease4
        (releaseInboundEvent key (commitInboundEvent now3 key ttl t2))).2 = false).
Proof.
  intros _ Hres%reserved_held. split.
  - intros now3 lease3. apply reserve_free_row. left. unfold releaseInboundEvent.
    rewrite Hres. apply lookup_delete_eq.
  - intros now3 now4 lease4 Hlt. eapply held_reserve_fails; [|exact Hlt].
    assert (commitInboundEvent now3 key ttl t2 !! key =
      Some {| state := committed; seenAt := now2; expiresAt := now3 + ttl |}) as Hc.
    { unfold commitInboundEvent. rewrite Hres. apply lookup_insert_eq. }
    eexists. split; [unfold releaseInboundEvent; rewrite Hc; exact Hc|].
    simpl. reflexivity.
Qed.
End Operations.

(** ** Concrete instances *)

Definition sample_key : InboundEventKey :=
  {| sourceChannel := "telegram"; externalChatId := "chat"; externalMessageId := "m1" |}.

Definition sample_claimed : ClaimTable :=
  (reserveInboundEvent 0 sample_key INBOUND_CLAIM_LEASE_MS ∅).1.

Lemma sample_reserved :
  reserveInboundEvent 0 sample_key INBOUND_CLAIM_LEASE_MS ∅ = (sample_claimed, true).
Proof. unfold sample_claimed, reserveInboundEvent. by rewrite lookup_empty. Qed.

Lemma sample_row :
  sample_claimed !! sample_key =
  Some {| state := pending; seenAt := 0; expiresAt := INBOUND_CLAIM_LEASE_MS |}.
Proof.
  unfold sample_claimed, reserveInboundEvent. rewrite lookup_empty. apply lookup_insert_eq.
Qed.

Lemma claim_exclusive_witness :
  let trace := [(1000%Z, Cleanup); (2000%Z, Commit sample_key INBOUND_DEDUP_TTL_MS)] in
  (reserveInboundEvent 200000 sample_key INBOUND_CLAIM_LEASE_MS
     (run_claims trace sample_claimed)).2 = false.
Proof.
  intros trace.
  apply (claim_exclusive 0 INBOUND_CLAIM_LEASE_MS sample_key ∅ sample_claimed trace 200000
    INBOUND_CLAIM_LEASE_MS).
  - exact sample_reserved.
  - apply Forall_cons_2; [split; [reflexivity|exact I]|].
    apply Forall_cons_2; [split; [reflexivity|intros _; discriminate]|apply Forall_nil_2].
  - reflexivity.
Defined.

Lemma commit_final_witness :
  let trace := [(2000%Z, Release sample_key)] in
  (reserveInboundEvent 3000 sample_key INBOUND_CLAIM_LEASE_MS
     (run_claims trace
        (commitInboundEvent 1000 sample_key INBOUND_DEDUP_TTL_MS sample_claimed))).2 = false.
Proof.
  intros trace.
  apply (commit_final 1000 INBOUND_DEDUP_TTL_MS sample_key
    {| state := pending; seenAt := 0; expiresAt := INBOUND_CLAIM_LEASE_MS |} sample_claimed
    trace 3000 INBOUND_CLAIM_LEASE_MS).
  - exact sample_row.
  - reflexivity.
  - apply Forall_cons_2; [reflexivity|apply Forall_nil_2].
  - reflexivity.
Defined.

Lemma abandoned_retryable_witness :
  let trace := [(2000%Z, Cleanup)] in
  (reserveInboundEvent 300000 sample_key INBOUND_CLAIM_LEASE_MS
     (run_claims trace sample_claimed)).2 = true.
Proof.
  intros trace.
  refine (proj1 (abandoned_retryable 0 INBOUND_CLAIM_LEASE_MS sample_key ∅ sample_claimed
    trace 300000 INBOUND_CLAIM_LEASE_MS _ _) _).
  - exact sample_reserved.
  - apply Forall_cons_2; [exact I|apply Forall_nil_2].
  - discriminate.
Defined.

Lemma late_settlement_reaches_replacement_witness :
  let t2 := (reserveInboundEvent 300000 sample_key INBOUND_CLAIM_LEASE_MS sample_claimed).1 in
  (reserveInboundEvent 300001 sample_key INBOUND_CLAIM_LEASE_MS
     (releaseInboundEvent sample_key t2)).2 = true.
Proof.
  intros t2.
  refine (proj1 (late_settlement_reaches_replacement 0 INBOUND_CLAIM_LEASE_MS 300000
    INBOUND_CLAIM_LEASE_MS INBOUND_DEDUP_TTL_MS sample_key ∅ sample_claimed t2 _ _)
    300001%Z INBOUND_CLAIM_LEASE_MS);
    [exact sample_reserved|].
  subst t2. unfold reserveInboundEvent at 1. rewrite sample_row. simpl.
  unfold reserveInboundEvent at 1. rewrite sample_row. reflexivity.
Defined.
