(* ===== verification/DedupCache.v ===== *)
(** Deduplication of webhook deliveries
    ([gateway/src/dedup-cache.ts]): a cache of responses by Telegram's numeric
    [update_id], with a high-water mark, and a set of message ids for the other
    channels. Every operation takes the time it reads. *)
From S2P Require Import Prelude JsString JsMap.

Local Open Scope Z_scope.

(** ** Room for one more

    Both classes evict what has expired when they are full, then the oldest entry
    if that was not enough. *)
Section Room.
Context {K V : Type} `{EqDecision K} (expiry : V → Z).

Definition evict (now : Z) (m : list (K * V)) : list (K * V) :=
  List.filter (λ e, negb (expiry e.2 <? now)) m.

Definition drop_oldest (m : list (K * V)) : list (K * V) :=
  match map_first_key m with Some oldest => map_delete oldest m | None => m end.

Definition make_room (maxSize now : Z) (m : list (K * V)) : list (K * V) :=
  let m := if maxSize <=? Z.of_nat (map_size m) then evict now m else m in
  if maxSize <=? Z.of_nat (map_size m) then drop_oldest m else m.

Lemma evict_get now m k v :
  map_get k m = Some v → now <= expiry v → map_get k (evict now m) = Some v.
Proof.
  induction m as [|[k' v'] m IH]; [done|]. simpl. case_decide as Hk.
  - intros [= ->] Hv. rewrite (proj2 (Z.ltb_ge _ _)) by done. simpl. by rewrite decide_True.
  - intros Hget Hv. destruct (expiry v' <? now); simpl; [|rewrite decide_False by done]; by apply IH.
Qed.

Lemma evict_wf now m : map_wf m → map_wf (evict now m).
Proof.
  unfold map_wf, evict. induction m as [|[k v] m IH]; [done|]. simpl.
  rewrite NoDup_cons. intros [Hk Hm]. destruct (negb _); [|by apply IH]. simpl.
  apply NoDup_cons. split; [|by apply IH]. intros Hin. apply Hk.
  apply list_elem_of_fmap in Hin as (e & -> & [He _]%elem_of_lfilter).
  by apply list_elem_of_fmap_2.
Qed.

Lemma evict_size now m : (map_size (evict now m) <= map_size m)%nat.
Proof.
  unfold evict, map_size. induction m as [|e m IH]; simpl; [lia|].
  destruct (negb _); simpl; lia.
Qed.

Lemma evict_elem now m e : e ∈ evict now m → e ∈ m.
Proof. unfold evict. rewrite elem_of_lfilter. tauto. Qed.

Lemma drop_oldest_wf m : map_wf m → map_wf (drop_oldest m).
Proof. intros H. unfold drop_oldest. case_match; [by apply map_wf_delete|done]. Qed.

Lemma drop_oldest_size m : map_wf m → m ≠ [] → S (map_size (drop_oldest m)) = map_size m.
Proof.
  intros Hwf Hne. unfold drop_oldest. destruct (map_first_key m) as [k|] eqn:Hk.
  - by apply size_delete_first.
  - by destruct m as [|[? ?] ?].
Qed.

Lemma drop_oldest_elem m e : e ∈ drop_oldest m → e ∈ m.
Proof.
  unfold drop_oldest. case_match; [|done]. destruct e as [k' v]. rewrite elem_delete. tauto.
Qed.

Lemma make_room_elem maxSize now m e : e ∈ make_room maxSize now m → e ∈ m.
Proof.
  unfold make_room. intros H. case_match; [apply drop_oldest_elem in H|];
    (case_match; [by apply evict_elem in H|done]).
Qed.

Lemma make_room_wf maxSize now m : map_wf m → map_wf (make_room maxSize now m).
Proof.
  intros H. unfold make_room. assert (map_wf (evict now m)) by by apply evict_wf.
  repeat case_match; try apply drop_oldest_wf; done.
Qed.

(** Afterwards there is room. *)
Lemma make_room_size maxSize now m :
  map_wf m → 0 < maxSize → Z.of_nat (map_size m) <= maxSize →
  Z.of_nat (map_size (make_room maxSize now m)) < maxSize.
Proof.
  intros Hwf Hpos Hle. unfold make_room.
  set (m1 := if maxSize <=? Z.of_nat (map_size m) then evict now m else m).
  assert (Hwf1 : map_wf m1) by (unfold m1; case_match; [by apply evict_wf|done]).
  assert (Hle1 : Z.of_nat (map_size m1) <= maxSize).
  { unfold m1. case_match; [|done]. pose proof (evict_size now m). lia. }
  destruct (Z.leb_spec maxSize (Z.of_nat (map_size m1))) as [H|H]; [|done].
  assert (m1 ≠ []) by (intros ->; unfold map_size in H; simpl in H; lia).
  pose proof (drop_oldest_size m1 Hwf1 ltac:(done)). lia.
Qed.

(** Nothing goes while there is room. *)
Lemma make_room_free maxSize now m :
  Z.of_nat (map_size m) < maxSize → make_room maxSize now m = m.
Proof.
  intros H. unfold make_room. rewrite !(proj2 (Z.leb_gt _ _)); [done|done|].
  by rewrite (proj2 (Z.leb_gt _ _)).
Qed.
End Room.

(** ** [DedupCache] *)

Record CacheEntry := {
  body : string;
  status : Z;
  expiresAt : Z;
  in_process : bool;
  entry_generation : nat
}.

(** [highWaterMark] is [None] for [-Infinity]. *)
Record DedupCache := {
  cache : list (Z * CacheEntry);
  ttlMs : Z;
  maxSize : Z;
  highWaterMark : option Z;
  generation : nat
}.

Definition DEFAULT_TTL_MS : Z := 5 * 60000.
Definition DEFAULT_MAX_SIZE : Z := 10000.

Definition new_cache (ttl max : Z) : DedupCache :=
  {| cache := []; ttlMs := ttl; maxSize := max; highWaterMark := None; generation := 0 |}.

Definition set_cache (m : list (Z * CacheEntry)) (d : DedupCache) : DedupCache :=
  {| cache := m; ttlMs := d.(ttlMs); maxSize := d.(maxSize);
     highWaterMark := d.(highWaterMark); generation := d.(generation) |}.

Definition get (updateId now : Z) (d : DedupCache) : DedupCache * option (string * Z) :=
  match map_get updateId d.(cache) with
  | None => (d, None)
  | Some entry =>
      if entry.(expiresAt) <? now then (set_cache (map_delete updateId d.(cache)) d, None)
      else if entry.(in_process) then (d, None)
      else (d, Some (entry.(body), entry.(status)))
  end.

Inductive ReserveResult := reserved | duplicate | already_processed.

(** [updateId <= this.highWaterMark] *)
Definition below_mark (updateId : Z) (mark : option Z) : bool :=
  match mark with Some m => updateId <=? m | None => false end.

Definition live_entry (updateId now : Z) (d : DedupCache) : bool :=
  match map_get updateId d.(cache) with
  | Some entry => now <=? entry.(expiresAt)
  | None => false
  end.

Definition reserve (updateId now : Z) (d : DedupCache) : DedupCache * ReserveResult :=
  if live_entry updateId now d then (d, duplicate)
  else
    let d := set_cache (map_delete updateId d.(cache)) d in
    if below_mark updateId d.(highWaterMark) then (d, already_processed)
    else
      let entry := {| body := ""; status := 0; expiresAt := now + d.(ttlMs);
                      in_process := true; entry_generation := d.(generation) |} in
      (set_cache (map_set updateId entry (make_room expiresAt d.(maxSize) now d.(cache))) d,
       reserved).

Definition unreserve (updateId : Z) (reservedIn : nat) (d : DedupCache) : DedupCache :=
  if negb (reservedIn =? d.(generation))%nat then d
  else match map_get updateId d.(cache) with
       | Some entry => if entry.(in_process) then set_cache (map_delete updateId d.(cache)) d else d
       | None => d
       end.

Definition advance (updateId : Z) (mark : option Z) : option Z :=
  match mark with Some m => if m <? updateId then Some updateId else Some m | None => Some updateId end.

Definition set_response (updateId : Z) (response : string) (code : Z) (reservedIn : nat) (now : Z)
    (d : DedupCache) : DedupCache :=
  if negb (reservedIn =? d.(generation))%nat then d
  else
    let entry := {| body := response; status := code; expiresAt := now + d.(ttlMs);
                    in_process := false; entry_generation := d.(generation) |} in
    {| cache := map_set updateId entry (make_room expiresAt d.(maxSize) now d.(cache));
       ttlMs := d.(ttlMs); maxSize := d.(maxSize);
       highWaterMark := advance updateId d.(highWaterMark); generation := d.(generation) |}.

Definition size (d : DedupCache) : nat := map_size d.(cache).

Definition reset_cache (d : DedupCache) : DedupCache :=
  {| cache := []; ttlMs := d.(ttlMs); maxSize := d.(maxSize); highWaterMark := None;
     generation := S d.(generation) |}.

Definition evictExpired (now : Z) (d : DedupCache) : DedupCache :=
  set_cache (evict expiresAt now d.(cache)) d.

(** One call; the background sweep is one too. *)
Inductive CacheCall :=
  | Get (updateId now : Z)
  | Reserve (updateId now : Z)
  | Unreserve (updateId : Z) (reservedIn : nat)
  | SetResponse (updateId : Z) (response : string) (code : Z) (reservedIn : nat) (now : Z)
  | Reset
  | Sweep (now : Z).

Definition cache_step (d : DedupCache) (call : CacheCall) : DedupCache :=
  match call with
  | Get id now => (get id now d).1
  | Reserve id now => (reserve id now d).1
  | Unreserve id g => unreserve id g d
  | SetResponse id r code g now => set_response id r code g now d
  | Reset => reset_cache d
  | Sweep now => evictExpired now d
  end.

Definition cache_run (calls : list CacheCall) (d : DedupCache) : DedupCache :=
  foldl cache_step d calls.

(** ** What has been processed stays processed *)

Lemma set_cache_mark m d : (set_cache m d).(highWaterMark) = d.(highWaterMark).
Proof. done. Qed.

Lemma advance_below id id' mark :
  below_mark id mark = true → below_mark id (advance id' mark) = true.
Proof.
  unfold below_mark, advance. destruct mark as [m|]; [|done]. intros H%Z.leb_le.
  destruct (Z.ltb_spec m id'); apply Z.leb_le; lia.
Qed.

Lemma step_below id call d :
  call ≠ Reset → below_mark id d.(highWaterMark) = true →
  below_mark id (cache_step d call).(highWaterMark) = true.
Proof.
  intros Hcall H. destruct call; try done; simpl.
  - unfold get. by repeat case_match.
  - unfold reserve. by repeat case_match.
  - unfold unreserve. by repeat case_match.
  - unfold set_response. case_match; [done|]. by apply advance_below.
Qed.

Lemma run_below id calls d :
  Reset ∉ calls → below_mark id d.(highWaterMark) = true →
  below_mark id (cache_run calls d).(highWaterMark) = true.
Proof.
  revert d. induction calls as [|call calls IH]; intros d Hno H; [done|].
  apply not_elem_of_cons in Hno as [? ?]. apply IH; [done|]. by apply step_below.
Qed.

(** Replays are closed off for good: once an update has been finalized in the
    current generation, neither it nor any earlier update is handed out again,
    whatever happens, however much time passes and whatever is evicted, until the
    bot changes. *)
Theorem finalized_never_reserved d id response code t calls id' now :
  Reset ∉ calls → id' <= id →
  (reserve id' now (cache_run calls
     (set_response id response code d.(generation) t d))).2 ≠ reserved.
Proof.
  intros Hno Hle.
  assert (H : below_mark id' (cache_run calls
      (set_response id response code d.(generation) t d)).(highWaterMark) = true).
  { apply run_below; [done|]. unfold set_response. rewrite Nat.eqb_refl. simpl.
    unfold below_mark, advance. destruct (highWaterMark d) as [m|]; [|by apply Z.leb_le].
    destruct (Z.ltb_spec m id); apply Z.leb_le; lia. }
  unfold reserve. destruct (live_entry _ _ _); [done|]. simpl. by rewrite H.
Qed.

(** ** The state a cache can be in *)

Record cache_wf (d : DedupCache) : Prop := {
  wf_keys : map_wf d.(cache);
  wf_size : Z.of_nat (size d) <= d.(maxSize);
  wf_generation : Forall (λ e, e.2.(entry_generation) = d.(generation)) d.(cache);
  wf_mark : Forall (λ e, e.2.(in_process) = false → below_mark e.1 d.(highWaterMark) = true) d.(cache)
}.

Lemma elem_map_set {K V} `{EqDecision K} (k k' : K) (v v' : V) m :
  (k', v') ∈ map_set k v m → (k', v') = (k, v) ∨ (k', v') ∈ m.
Proof.
  induction m as [|[k1 v1] m IH]; simpl; [set_solver|]. case_decide as Hk; [subst|]; set_solver.
Qed.

Lemma wf_sub d m :
  cache_wf d → map_wf m → (∀ e, e ∈ m → e ∈ d.(cache)) → (map_size m <= map_size d.(cache))%nat →
  cache_wf (set_cache m d).
Proof.
  intros [Hk Hs Hg Hm] Hwf Hsub Hsize. unfold size in *.
  split; simpl; [done|unfold size; simpl; lia| |]; apply Forall_forall; intros e He;
    [by apply (proj1 (Forall_forall _ _) Hg), Hsub|by apply (proj1 (Forall_forall _ _) Hm), Hsub].
Qed.

Lemma wf_delete d id : cache_wf d → cache_wf (set_cache (map_delete id d.(cache)) d).
Proof.
  intros H. apply wf_sub; [done|apply map_wf_delete, H| |apply size_delete_le].
  intros [k v]. rewrite elem_delete. tauto.
Qed.

(** Storing an entry of the current generation after making room. *)
Lemma wf_store d id entry now mark :
  cache_wf d → 0 < d.(maxSize) → entry.(entry_generation) = d.(generation) →
  (entry.(in_process) = false → below_mark id mark = true) →
  (∀ k, below_mark k d.(highWaterMark) = true → below_mark k mark = true) →
  cache_wf {| cache := map_set id entry (make_room expiresAt d.(maxSize) now d.(cache));
              ttlMs := d.(ttlMs); maxSize := d.(maxSize); highWaterMark := mark;
              generation := d.(generation) |}.
Proof.
  intros [Hk Hs Hg Hm] Hpos Hgen Hdone Hmark. split; simpl.
  - by apply map_wf_set, make_room_wf.
  - unfold size in *. simpl. rewrite size_set.
    pose proof (make_room_size expiresAt d.(maxSize) now d.(cache) Hk Hpos Hs).
    case_decide; lia.
  - apply Forall_forall. intros [k v] He. apply elem_map_set in He as [[= -> ->]|He]; [done|].
    apply make_room_elem in He. by apply (proj1 (Forall_forall _ _) Hg (k, v)).
  - apply Forall_forall. intros [k v] He. apply elem_map_set in He as [[= -> ->]|He]; [done|].
    apply make_room_elem in He. intros Hp. by apply Hmark, (proj1 (Forall_forall _ _) Hm (k, v)).
Qed.

Lemma step_wf d call : 0 < d.(maxSize) → cache_wf d → cache_wf (cache_step d call).
Proof.
  intros Hpos H. destruct call as [id now|id now|id g|id r code g now| |now]; simpl.
  - unfold get. destruct (map_get _ _); [|done]. destruct (_ <? _); [by apply wf_delete|].
    by destruct (in_process _).
  - unfold reserve. destruct (live_entry _ _ _); [done|]. cbn zeta.
    pose proof (wf_delete d id H) as Hd. destruct (below_mark _ _); [done|].
    apply (wf_store (set_cache (map_delete id d.(cache)) d)); [done|done|done|done|done].
  - unfold unreserve. destruct (negb _); [done|]. destruct (map_get _ _) as [e|]; [|done].
    destruct (in_process e); [by apply wf_delete|done].
  - unfold set_response. destruct (negb _); [done|]. apply wf_store; [done|done|done| |].
    + intros _. unfold below_mark, advance. destruct (highWaterMark d) as [m|]; [|by apply Z.leb_le].
      destruct (Z.ltb_spec m id); apply Z.leb_le; lia.
    + intros k. apply advance_below.
  - split; simpl; [constructor|unfold size; simpl; lia|constructor|constructor].
  - apply wf_sub; [done|apply evict_wf, H|apply evict_elem|apply evict_size].
Qed.

Lemma step_maxSize d call : (cache_step d call).(maxSize) = d.(maxSize).
Proof.
  destruct call; simpl; unfold get, reserve, unreserve, set_response; repeat case_match; done.
Qed.

(** The memory bound and the generations: whatever is called, the cache never
    holds more than its limit, keys are distinct, every entry belongs to the
    current bot and every finalized one lies at or below the high-water mark. *)
Theorem cache_always_bounded ttl max calls :
  0 < max →
  let d := cache_run calls (new_cache ttl max) in
  Z.of_nat (size d) <= max ∧ map_wf d.(cache)
  ∧ Forall (λ e, e.2.(entry_generation) = d.(generation)
                 ∧ (e.2.(in_process) = false → below_mark e.1 d.(highWaterMark) = true)) d.(cache).
Proof.
  intros Hpos. simpl.
  assert (H : cache_wf (cache_run calls (new_cache ttl max))
              ∧ (cache_run calls (new_cache ttl max)).(maxSize) = max).
  { unfold cache_run. induction calls as [|call calls IH] using rev_ind; simpl.
    - split; [|done]. split; simpl; [constructor|unfold size; simpl; lia|constructor|constructor].
    - rewrite foldl_app. simpl. destruct IH as [IH Hmax].
      split; [apply step_wf; [by rewrite Hmax|done]|by rewrite step_maxSize]. }
  destruct H as [[Hk Hs Hg Hm] Hmax]. rewrite Hmax in Hs. split_and!; [done|done|].
  apply Forall_and. done.
Qed.

(** ** A reservation is exclusive *)

(** The time a call reads, if it does. *)
Definition call_time (call : CacheCall) : option Z :=
  match call with
  | Get _ now | Reserve _ now | SetResponse _ _ _ _ now | Sweep now => Some now
  | Unreserve _ _ | Reset => None
  end.

Definition holds (id t : Z) (d : DedupCache) : Prop :=
  ∃ e, map_get id d.(cache) = Some e ∧ t <= e.(expiresAt).

(** The calls a reservation of [id] in generation [g] survives. *)
Definition harmless (id : Z) (g : nat) (t ttl : Z) (call : CacheCall) : Prop :=
  call ≠ Reset ∧ call ≠ Unreserve id g
  ∧ (∀ now, call_time call = Some now → t <= now <= t + ttl).

Lemma holds_set id t id' e m ttl mx mark g :
  (id' = id → t <= e.(expiresAt)) →
  holds id t {| cache := m; ttlMs := ttl; maxSize := mx; highWaterMark := mark; generation := g |} →
  holds id t {| cache := map_set id' e m; ttlMs := ttl; maxSize := mx;
                highWaterMark := mark; generation := g |}.
Proof.
  intros He (e0 & Hget & Hexp). unfold holds. simpl in *. setoid_rewrite map_get_set.
  case_decide; [exists e; split; [done|apply He; congruence]|by exists e0].
Qed.

Lemma holds_mark id t m ttl mx mark mark' g :
  holds id t {| cache := m; ttlMs := ttl; maxSize := mx; highWaterMark := mark; generation := g |} →
  holds id t {| cache := m; ttlMs := ttl; maxSize := mx; highWaterMark := mark'; generation := g |}.
Proof. done. Qed.

Lemma step_size d call :
  Z.of_nat (size d) < d.(maxSize) → (size (cache_step d call) <= S (size d))%nat.
Proof.
  intros H. unfold size in *. destruct call; simpl.
  - unfold get. repeat case_match; simpl; try lia. pose proof (size_delete_le d.(cache) updateId). lia.
  - unfold reserve. pose proof (size_delete_le d.(cache) updateId).
    repeat case_match; simpl; [lia|lia|]. rewrite make_room_free by (simpl; lia).
    rewrite size_set. simpl. case_decide; lia.
  - unfold unreserve. pose proof (size_delete_le d.(cache) updateId). repeat case_match; simpl; lia.
  - unfold set_response. case_match; simpl; [lia|]. rewrite make_room_free by lia.
    rewrite size_set. case_decide; lia.
  - lia.
  - pose proof (evict_size expiresAt now d.(cache)). lia.
Qed.

Lemma step_holds id t d call :
  harmless id d.(generation) t d.(ttlMs) call → 0 <= d.(ttlMs) →
  Z.of_nat (size d) < d.(maxSize) → holds id (t + d.(ttlMs)) d →
  holds id (t + d.(ttlMs)) (cache_step d call)
  ∧ (cache_step d call).(generation) = d.(generation) ∧ (cache_step d call).(ttlMs) = d.(ttlMs).
Proof.
  intros (Hreset & Hun & Htime) Httl Hsize (e & Hget & Hexp). unfold size in Hsize.
  destruct call as [id' now|id' now|id' g|id' r code g now| |now]; simpl in *.
  - specialize (Htime now eq_refl). unfold get.
    destruct (map_get id' (cache d)) as [e'|] eqn:He'; [|split_and!; [by exists e|done|done]].
    destruct (Z.ltb_spec (expiresAt e') now) as [Hlt|]; [|destruct (in_process e')];
      (split_and!; [|done|done]); try by exists e.
    exists e. split; [|done]. simpl. rewrite map_get_delete.
    rewrite decide_False; [done|]. intros ->. rewrite Hget in He'. injection He' as ->. lia.
  - specialize (Htime now eq_refl). unfold reserve.
    destruct (live_entry id' now d) eqn:Hlive; [split_and!; [by exists e|done|done]|].
    assert (Hne : id' ≠ id).
    { intros ->. unfold live_entry in Hlive. rewrite Hget in Hlive. apply Z.leb_gt in Hlive. lia. }
    assert (Hdel : map_get id (map_delete id' (cache d)) = Some e)
      by (rewrite map_get_delete, decide_False; done).
    cbn zeta. destruct (below_mark _ _); simpl; (split_and!; [|done|done]); [by exists e|].
    apply (holds_set id _ id'); [done|]. exists e. simpl. split; [|done].
    rewrite make_room_free; [done|]. pose proof (size_delete_le d.(cache) id'). lia.
  - unfold unreserve. destruct (Nat.eqb_spec g (generation d)) as [->|]; simpl;
      [|split_and!; [by exists e|done|done]].
    assert (Hne : id' ≠ id) by (intros ->; done).
    destruct (map_get id' (cache d)) as [e'|]; [destruct (in_process e')|];
      (split_and!; [|done|done]); try by exists e.
    exists e. simpl. by rewrite map_get_delete, decide_False.
  - specialize (Htime now eq_refl). unfold set_response.
    destruct (negb _); [split_and!; [by exists e|done|done]|]. simpl. split_and!; [|done|done].
    apply (holds_set id _ id'); [simpl; lia|]. exists e. simpl. by rewrite make_room_free.
  - done.
  - specialize (Htime now eq_refl). split_and!; [|done|done]. exists e. simpl.
    split; [|done]. apply evict_get; [done|lia].
Qed.

(** Until it is given back or its time is over, a reservation keeps every other
    delivery of the same update out: as long as the cache does not fill up, each
    further attempt within the time to live is answered [duplicate], whatever
    else is called in between. *)
Theorem reservation_exclusive d d0 id t calls now :
  reserve id t d = (d0, reserved) → 0 <= d.(ttlMs) →
  Forall (harmless id d.(generation) t d.(ttlMs)) calls → t <= now <= t + d.(ttlMs) →
  Z.of_nat (size d0 + length calls) <= d.(maxSize) →
  (reserve id now (cache_run calls d0)).2 = duplicate.
Proof.
  intros Hres Httl Hcalls Hnow Hroom.
  assert (H0 : holds id (t + d.(ttlMs)) d0 ∧ d0.(generation) = d.(generation)
               ∧ d0.(ttlMs) = d.(ttlMs) ∧ d0.(maxSize) = d.(maxSize)).
  { revert Hres. unfold reserve. destruct (live_entry _ _ _); [done|]. cbn zeta.
    destruct (below_mark _ _); [done|]. intros [= <-]. split_and!; [|done..].
    eexists. simpl. rewrite map_get_set, decide_True by done. split; [done|]. simpl. lia. }
  destruct H0 as (Hh & Hg & Ht & Hm). rewrite <- Hg, <- Ht in Hcalls. rewrite <- Ht in Hh, Hnow, Httl.
  rewrite <- Hm in Hroom. clear Hres Hg Ht Hm d.
  assert (Hend : holds id (t + ttlMs d0) (cache_run calls d0)).
  { clear Hnow. revert d0 Hh Hcalls Httl Hroom.
    induction calls as [|call calls IH]; intros d0 Hh Hcalls Httl Hroom; [done|].
    apply Forall_cons in Hcalls as [Hcall Hcalls]. simpl in Hroom.
    assert (Hsize : Z.of_nat (size d0) < maxSize d0) by lia.
    pose proof (step_holds id t d0 call Hcall Httl Hsize Hh) as (Hh' & Hg' & Ht').
    pose proof (step_size d0 call Hsize) as Hs'.
    change (cache_run (call :: calls) d0) with (cache_run calls (cache_step d0 call)).
    rewrite <- Ht' in Hh' |- *. apply IH; [done|by rewrite Hg', Ht'|by rewrite Ht'|].
    rewrite step_maxSize. lia. }
  destruct Hend as (e & Hget & Hexp). unfold reserve, live_entry. rewrite Hget.
  by rewrite (proj2 (Z.leb_le _ _)) by lia.
Qed.

(** An update that failed is lost when a later one has been finalized meanwhile:
    the reservation is removed "so Telegram can retry", and the retry is answered
    [already_processed]. *)
Lemma failed_update_lost :
  let d := cache_run
    [Reserve 5 0; Reserve 6 1; SetResponse 6 "ok" 200 0 2; Unreserve 5 0]
    (new_cache DEFAULT_TTL_MS DEFAULT_MAX_SIZE) in
  map_get 5 d.(cache) = None ∧ (reserve 5 1000 d).2 = already_processed.
Proof. split; reflexivity. Qed.

(** ** [StringDedupCache]: keys of the other channels

    A key is reserved in [processing] while its handler runs, without a time
    limit, and remembered in [seen_until] once it is done. *)
Record StringDedupCache := {
  seen_until : list (string * Z);
  processing : list string;
  s_ttlMs : Z;
  s_maxSize : Z
}.

Definition set_seen (m : list (string * Z)) (ps : list string) (d : StringDedupCache)
    : StringDedupCache :=
  {| seen_until := m; processing := ps; s_ttlMs := d.(s_ttlMs); s_maxSize := d.(s_maxSize) |}.

Definition has (key : string) (now : Z) (d : StringDedupCache) : StringDedupCache * bool :=
  if mem key d.(processing) then (d, true)
  else match map_get key d.(seen_until) with
       | Some expiry =>
           if now <=? expiry then (d, true)
           else (set_seen (map_delete key d.(seen_until)) d.(processing) d, false)
       | None => (d, false)
       end.

Definition reserve_key (key : string) (now : Z) (d : StringDedupCache) : StringDedupCache * bool :=
  let '(d, present) := has key now d in
  if present then (d, false)
  else (set_seen d.(seen_until) (set_add key d.(processing)) d, true).

Definition without (key : string) (ps : list string) : list string :=
  List.filter (λ k, negb (String.eqb k key)) ps.

Definition unreserve_key (key : string) (d : StringDedupCache) : StringDedupCache :=
  set_seen d.(seen_until) (without key d.(processing)) d.

Definition mark (key : string) (now : Z) (d : StringDedupCache) : StringDedupCache :=
  set_seen (map_set key (now + d.(s_ttlMs)) (make_room id d.(s_maxSize) now d.(seen_until)))
    (without key d.(processing)) d.

Definition seen (key : string) (now : Z) (d : StringDedupCache) : StringDedupCache * bool :=
  let '(d, present) := has key now d in
  if present then (d, true) else (mark key now d, false).

Definition sweep_keys (now : Z) (d : StringDedupCache) : StringDedupCache :=
  set_seen (evict id now d.(seen_until)) d.(processing) d.

Inductive KeyCall :=
  | Seen (key : string) (now : Z)
  | Has (key : string) (now : Z)
  | ReserveKey (key : string) (now : Z)
  | UnreserveKey (key : string)
  | Mark (key : string) (now : Z)
  | SweepKeys (now : Z).

Definition key_step (d : StringDedupCache) (call : KeyCall) : StringDedupCache :=
  match call with
  | Seen key now => (seen key now d).1
  | Has key now => (has key now d).1
  | ReserveKey key now => (reserve_key key now d).1
  | UnreserveKey key => unreserve_key key d
  | Mark key now => mark key now d
  | SweepKeys now => sweep_keys now d
  end.

(** The calls that end a reservation of [key]; [seen] finalizes only what it finds
    unreserved. *)
Definition ends_reservation (key : string) (call : KeyCall) : bool :=
  match call with
  | UnreserveKey k | Mark k _ => String.eqb k key
  | _ => false
  end.

Lemma elem_without k key ps : k ∈ without key ps ↔ k ∈ ps ∧ k ≠ key.
Proof. unfold without. by rewrite elem_of_lfilter, negb_true_iff, String.eqb_neq. Qed.

Lemma has_processing key now d : (has key now d).1.(processing) = d.(processing).
Proof. unfold has. by repeat case_match. Qed.

Lemma key_step_processing key call d :
  ends_reservation key call = false → key ∈ d.(processing) → key ∈ (key_step d call).(processing).
Proof.
  intros Hend Hin. destruct call as [k now|k now|k now|k|k now|now]; simpl in *.
  - unfold seen. pose proof (has_processing k now d) as Hp.
    destruct (has k now d) as [d' [|]] eqn:E; simpl in *; [by rewrite Hp|].
    apply elem_without. rewrite Hp. split; [done|]. intros <-. unfold has in E.
    by rewrite (proj2 (mem_true _ _)) in E.
  - by rewrite has_processing.
  - unfold reserve_key. pose proof (has_processing k now d) as Hp.
    destruct (has k now d) as [d' [|]]; simpl in *; rewrite ?elem_of_set_add, Hp; [done|by right].
  - apply String.eqb_neq in Hend. apply elem_without. split; [done|]. by intros ->.
  - apply String.eqb_neq in Hend. apply elem_without. split; [done|]. by intros ->.
  - done.
Qed.

(** A reserved message id is held until its handler finalizes it or gives it back,
    however long that takes: no call in between and no passing of time lets a
    second delivery in. *)
Theorem key_reservation_held d d0 key t calls now :
  reserve_key key t d = (d0, true) →
  Forall (λ call, ends_reservation key call = false) calls →
  (reserve_key key now (foldl key_step d0 calls)).2 = false.
Proof.
  intros Hres Hcalls.
  assert (Hin : key ∈ d0.(processing)).
  { revert Hres. unfold reserve_key. destruct (has key t d) as [d1 [|]]; [done|].
    intros [= <-]. simpl. apply elem_of_set_add. by left. }
  clear Hres. revert d0 Hin. induction Hcalls as [|call calls Hcall _ IH]; intros d0 Hin; simpl.
  - unfold reserve_key, has. by rewrite (proj2 (mem_true _ _)).
  - apply IH. by apply key_step_processing.
Qed.

(** ** Witnesses *)

Lemma finalized_never_reserved_witness :
  let d := new_cache DEFAULT_TTL_MS 1 in
  Reset ∉ [Reserve 8 1; Reserve 9 2; Sweep 10000000]
  ∧ (reserve 7 20000000 (cache_run [Reserve 8 1; Reserve 9 2; Sweep 10000000]
       (set_response 7 "ok" 200 d.(generation) 0 d))).2 ≠ reserved.
Proof.
  assert (H : Reset ∉ [Reserve 8 1; Reserve 9 2; Sweep 10000000]).
  { intros Hin. repeat (apply elem_of_cons in Hin as [?|Hin]; [done|]).
    by apply not_elem_of_nil in Hin. }
  split; [exact H|]. apply finalized_never_reserved; [exact H|lia].
Defined.

Lemma cache_always_bounded_witness :
  0 < 2 ∧ Z.of_nat (size (cache_run [Reserve 1 0; Reserve 2 0; Reserve 3 0] (new_cache 100 2))) <= 2.
Proof.
  split; [lia|]. apply (cache_always_bounded 100 2 [Reserve 1 0; Reserve 2 0; Reserve 3 0]). lia.
Defined.

Lemma reservation_exclusive_witness :
  let d := new_cache DEFAULT_TTL_MS DEFAULT_MAX_SIZE in
  (reserve 5 299000 (cache_run [Reserve 6 1; SetResponse 6 "ok" 200 0 2] (reserve 5 0 d).1)).2
  = duplicate.
Proof.
  apply (reservation_exclusive (new_cache DEFAULT_TTL_MS DEFAULT_MAX_SIZE)
    (reserve 5 0 (new_cache DEFAULT_TTL_MS DEFAULT_MAX_SIZE)).1 5 0
    [Reserve 6 1; SetResponse 6 "ok" 200 0 2] 299000).
  - reflexivity.
  - discriminate.
  - apply Forall_cons. split; [|apply Forall_cons; split; [|apply Forall_nil; exact I]];
      (split; [discriminate|split; [discriminate|]]); intros now [= <-];
      split; vm_compute; discriminate.
  - split; vm_compute; discriminate.
  - vm_compute. discriminate.
Defined.

Lemma key_reservation_held_witness :
  let d := {| seen_until := []; processing := []; s_ttlMs := 1000; s_maxSize := 10 |} in
  (reserve_key "wamid" 9000000 (foldl key_step (reserve_key "wamid" 0 d).1
     [Seen "other" 5; UnreserveKey "third"; SweepKeys 8000000])).2 = false.
Proof.
  apply (key_reservation_held {| seen_until := []; processing := []; s_ttlMs := 1000; s_maxSize := 10 |}
    _ "wamid" 0); [reflexivity|repeat constructor].
Defined.
