(* ===== verification/CanonicalJson.v ===== *)
(** The identity of a tool invocation ([assistant/src/security/tool-approval-digest.ts]):
    canonical JSON and the digest taken over it, which approval grants are bound
    to. [JSON.stringify] and the enumeration order of object keys are modelled as
    the language defines them; a number is the numeral [JSON.stringify] prints for
    it, and the hash function is an argument. *)
From stdpp Require Import sorting.
From S2P Require Import Prelude JsString JsMap.

(** ** Values *)

(** What [JSON.parse] answers. An object is the list of its own properties in the
    order [Object.keys] gives them. *)
Inductive Json :=
  | JNull
  | JBool (b : bool)
  | JNum (numeral : string)
  | JStr (s : string)
  | JArr (xs : list Json)
  | JObj (kvs : list (string * Json)).

Section JsonInd.
Context (P : Json → Prop).
Context (Hnull : P JNull) (Hbool : ∀ b, P (JBool b)) (Hnum : ∀ n, P (JNum n)) (Hstr : ∀ s, P (JStr s)).
Context (Harr : ∀ xs, Forall P xs → P (JArr xs)) (Hobj : ∀ kvs, Forall (λ kv, P kv.2) kvs → P (JObj kvs)).

Fixpoint Json_rect' (v : Json) : P v :=
  match v with
  | JNull => Hnull | JBool b => Hbool b | JNum n => Hnum n | JStr s => Hstr s
  | JArr xs =>
      Harr xs ((fix go xs := match xs return Forall P xs with
                             | [] => @List.Forall_nil _ P
                             | x :: xs => @List.Forall_cons _ P x xs (Json_rect' x) (go xs)
                             end) xs)
  | JObj kvs =>
      Hobj kvs ((fix go kvs := match kvs return Forall (λ kv, P kv.2) kvs with
                               | [] => @List.Forall_nil _ (λ kv, P kv.2)
                               | (k, x) :: kvs =>
                                   @List.Forall_cons _ (λ kv, P kv.2) (k, x) kvs (Json_rect' x) (go kvs)
                               end) kvs)
  end.
End JsonInd.

(** ** [JSON.stringify] *)

Definition hex_digit (n : nat) : ascii :=
  ascii_of_nat (if n <? 10 then 48 + n else 87 + n).

Definition QUOTE : ascii := ascii_of_nat 34.
Definition BACKSLASH : ascii := ascii_of_nat 92.

(** Quotes, backslashes and control characters are escaped. *)
Definition escape_char (c : ascii) : string :=
  let n := nat_of_ascii c in
  if n =? 34 then String BACKSLASH (String QUOTE "")
  else if n =? 92 then String BACKSLASH (String BACKSLASH "")
  else if n =? 8 then String BACKSLASH "b"
  else if n =? 9 then String BACKSLASH "t"
  else if n =? 10 then String BACKSLASH "n"
  else if n =? 12 then String BACKSLASH "f"
  else if n =? 13 then String BACKSLASH "r"
  else if n <? 32 then
    String BACKSLASH ("u00" +:+ String (hex_digit (n / 16)) (String (hex_digit (n mod 16)) ""))
  else String c "".

Fixpoint escape (s : string) : string :=
  match s with EmptyString => "" | String c s => escape_char c +:+ escape s end.

Definition quote (s : string) : string := String QUOTE (escape s +:+ String QUOTE "").

Fixpoint stringify (v : Json) : string :=
  match v with
  | JNull => "null"
  | JBool true => "true"
  | JBool false => "false"
  | JNum n => n
  | JStr s => quote s
  | JArr xs => "[" +:+ join "," (stringify <$> xs) +:+ "]"
  | JObj kvs => "{" +:+ join "," ((λ kv, quote kv.1 +:+ ":" +:+ stringify kv.2) <$> kvs) +:+ "}"
  end.

(** ** Objects built by assignment *)

Fixpoint digits_value (acc : Z) (s : string) : option Z :=
  match s with
  | EmptyString => Some acc
  | String c s =>
      let n := nat_of_ascii c in
      if ((48 <=? n) && (n <=? 57))%nat then digits_value (acc * 10 + (Z.of_nat n - 48))%Z s
      else None
  end.

(** An array index: a canonical decimal numeral below [2^32 - 1]. Such keys are
    enumerated first, in ascending order. *)
Definition index_key (k : string) : option Z :=
  match k with
  | EmptyString => None
  | String "0" rest => if truthy rest then None else Some 0%Z
  | _ => match digits_value 0 k with
         | Some n => if (n <? 4294967295)%Z then Some n else None
         | None => None
         end
  end.

Fixpoint insert_index (n : Z) (k : string) (v : Json) (o : list (string * Json))
    : list (string * Json) :=
  match o with
  | [] => [(k, v)]
  | (k', v') :: o' =>
      match index_key k' with
      | Some n' => if (n' <? n)%Z then (k', v') :: insert_index n k v o' else (k, v) :: o
      | None => (k, v) :: o
      end
  end.

(** [o[k] = v] on an ordinary object without [k]: [__proto__] sets the prototype,
    which is no property of its own. *)
Definition assign (o : list (string * Json)) (k : string) (v : Json) : list (string * Json) :=
  if String.eqb k "__proto__" then o
  else match index_key k with
       | Some n => insert_index n k v o
       | None => o ++ [(k, v)]
       end.

(** ** Canonical serialization *)

(** [keys.sort()]: by code units *)
Definition key_le (kv kv' : string * Json) : Prop := String.le kv.1 kv'.1.

#[export] Instance key_le_dec : RelDecision key_le.
Proof. intros kv kv'. unfold key_le. apply _. Defined.

Definition sort_keys (kvs : list (string * Json)) : list (string * Json) :=
  merge_sort key_le kvs.

Definition sorted_object (kvs : list (string * Json)) : list (string * Json) :=
  foldl (λ o kv, assign o kv.1 kv.2) [] (sort_keys kvs).

Definition map_values (f : Json → Json) (kvs : list (string * Json)) : list (string * Json) :=
  (λ kv, (kv.1, f kv.2)) <$> kvs.

Fixpoint sortKeysDeep (value : Json) : Json :=
  match value with
  | JArr xs => JArr (sortKeysDeep <$> xs)
  | JObj kvs => JObj (sorted_object (map_values sortKeysDeep kvs))
  | _ => value
  end.

Definition canonicalJsonSerialize (value : Json) : string := stringify (sortKeysDeep value).

(** ** The digest *)

Definition computeToolApprovalDigest (hash : string → string) (toolName : string)
    (input : list (string * Json)) : string :=
  hash (canonicalJsonSerialize (JObj [("input", JObj input); ("toolName", JStr toolName)])).

Example canonical_example :
  canonicalJsonSerialize (JObj [("b", JArr [JNum "1"; JNull]); ("a", JStr "x"); ("10", JBool true); ("9", JNum "2")])
  = "{" +:+ quote "9" +:+ ":2," +:+ quote "10" +:+ ":true," +:+ quote "a" +:+ ":" +:+ quote "x" +:+ ","
    +:+ quote "b" +:+ ":[1,null]}".
Proof. reflexivity. Qed.

(** ** The order of keys *)

#[export] Instance key_le_trans : Transitive key_le.
Proof. intros a b c. unfold key_le. by apply transitivity. Qed.

#[export] Instance key_le_total : Total key_le.
Proof. intros a b. unfold key_le. apply total. apply _. Qed.

Lemma sort_keys_perm kvs : sort_keys kvs ≡ₚ kvs.
Proof. apply merge_sort_Permutation. Qed.

Lemma wf_perm (kvs kvs' : list (string * Json)) : kvs ≡ₚ kvs' → map_wf kvs → map_wf kvs'.
Proof. unfold map_wf. by intros ->. Qed.

(** Objects with the same properties are the same up to the order. *)
Lemma lookup_perm (kvs kvs' : list (string * Json)) :
  map_wf kvs → map_wf kvs' → (∀ k, map_get k kvs = map_get k kvs') → kvs ≡ₚ kvs'.
Proof.
  intros H H' Hget. apply NoDup_Permutation; [by apply (NoDup_fmap_1 fst)..|].
  intros [k v]. split; intros Hin.
  - apply map_get_elem. rewrite <- Hget. by apply elem_map_get.
  - apply map_get_elem. rewrite Hget. by apply elem_map_get.
Qed.

Lemma perm_lookup (kvs kvs' : list (string * Json)) k :
  map_wf kvs → kvs ≡ₚ kvs' → map_get k kvs = map_get k kvs'.
Proof.
  intros H Hp. pose proof (wf_perm _ _ Hp H) as H'.
  destruct (map_get k kvs') as [v|] eqn:Hg.
  - apply elem_map_get; [done|]. rewrite Hp. by apply map_get_elem.
  - apply map_get_None. rewrite Hp. by apply map_get_None.
Qed.

(** Sorting forgets the order the properties came in. *)
Lemma sort_keys_unique kvs kvs' :
  map_wf kvs → kvs ≡ₚ kvs' → sort_keys kvs = sort_keys kvs'.
Proof.
  intros H Hp. unfold sort_keys.
  eapply (Sorted_unique_strong key_le); [|apply Sorted_merge_sort; apply _|apply Sorted_merge_sort; apply _|].
  - intros [k v] [k' v']. rewrite !merge_sort_Permutation. unfold key_le. simpl.
    intros Hin Hin' Hle Hle'. assert (k = k') as -> by by apply (anti_symm String.le).
    rewrite <- Hp in Hin'. apply elem_map_get in Hin, Hin'; [|done..]. congruence.
  - by rewrite !merge_sort_Permutation.
Qed.

Lemma assign_perm o k v : k ≠ "__proto__" → assign o k v ≡ₚ (k, v) :: o.
Proof.
  intros Hk. unfold assign. apply String.eqb_neq in Hk. rewrite Hk.
  destruct (index_key k) as [n|]; [|by rewrite Permutation_app_comm].
  induction o as [|[k' v'] o IH]; [done|]. simpl.
  destruct (index_key k') as [n'|]; [|done]. destruct (n' <? n)%Z; [|done].
  rewrite IH. constructor.
Qed.

Lemma assign_all_perm kvs o :
  "__proto__" ∉ kvs.*1 → foldl (λ o kv, assign o kv.1 kv.2) o kvs ≡ₚ kvs ++ o.
Proof.
  revert o. induction kvs as [|[k v] kvs IH]; intros o; csimpl; [done|].
  intros [Hk Hkvs]%not_elem_of_cons. rewrite IH, assign_perm by done.
  by rewrite Permutation_middle.
Qed.

Lemma sorted_object_perm kvs : "__proto__" ∉ kvs.*1 → sorted_object kvs ≡ₚ kvs.
Proof.
  intros H. unfold sorted_object. rewrite assign_all_perm, app_nil_r; [apply sort_keys_perm|].
  by rewrite sort_keys_perm.
Qed.

Lemma sorted_object_unique kvs kvs' :
  map_wf kvs → kvs ≡ₚ kvs' → sorted_object kvs = sorted_object kvs'.
Proof. intros H Hp. unfold sorted_object. by rewrite (sort_keys_unique kvs kvs'). Qed.

(** ** Printing is unambiguous *)

(** What may follow a value: nothing, or a delimiter. *)
Definition delimited (r : string) : Prop :=
  match r with
  | EmptyString => True
  | String c _ => c = ","%char ∨ c = "]"%char ∨ c = "}"%char
  end.

Definition numeral_char (c : ascii) : bool :=
  let n := nat_of_ascii c in
  ((48 <=? n) && (n <=? 57) || (n =? 43) || (n =? 45) || (n =? 46) || (n =? 69) || (n =? 101))%nat.

Fixpoint all_numeral (s : string) : bool :=
  match s with EmptyString => true | String c s => numeral_char c && all_numeral s end.

(** A numeral as [JSON.stringify] prints one: digits, sign, point, exponent. *)
Definition is_numeral (n : string) : bool := truthy n && all_numeral n.

(** Values [JSON.parse] can answer, no object having an own [__proto__]. *)
Inductive plain : Json → Prop :=
  | plain_null : plain JNull
  | plain_bool b : plain (JBool b)
  | plain_num n : is_numeral n = true → plain (JNum n)
  | plain_str s : plain (JStr s)
  | plain_arr xs : Forall plain xs → plain (JArr xs)
  | plain_obj kvs :
      map_wf kvs → "__proto__" ∉ kvs.*1 → Forall (λ kv, plain kv.2) kvs → plain (JObj kvs).

(** Reading one escaped character back. *)
Definition unescape_char (s : string) : option (ascii * string) :=
  match s with
  | String c r =>
      if Ascii.eqb c BACKSLASH then
        match r with
        | String d r' =>
            if Ascii.eqb d QUOTE || Ascii.eqb d BACKSLASH then Some (d, r')
            else if Ascii.eqb d "b" then Some (ascii_of_nat 8, r')
            else if Ascii.eqb d "t" then Some (ascii_of_nat 9, r')
            else if Ascii.eqb d "n" then Some (ascii_of_nat 10, r')
            else if Ascii.eqb d "f" then Some (ascii_of_nat 12, r')
            else if Ascii.eqb d "r" then Some (ascii_of_nat 13, r')
            else match r' with
                 | String _ (String _ (String h (String l r'))) =>
                     let value c := let n := nat_of_ascii c in
                                    if (n <? 58)%nat then (n - 48)%nat else (n - 87)%nat in
                     Some (ascii_of_nat (16 * value h + value l), r')
                 | _ => None
                 end
        | EmptyString => None
        end
      else if Ascii.eqb c QUOTE then None else Some (c, r)
  | EmptyString => None
  end.

Lemma unescape_escape c r : unescape_char (escape_char c +:+ r) = Some (c, r).
Proof. by destruct c as [[] [] [] [] [] [] [] []]. Qed.

Lemma escape_inj s t r1 r2 :
  escape s +:+ String QUOTE r1 = escape t +:+ String QUOTE r2 → s = t ∧ r1 = r2.
Proof.
  revert t. induction s as [|c s IH]; intros [|d t]; simpl; rewrite ?append_assoc.
  - by intros [= ->].
  - intros H. pose proof (unescape_escape d (escape t +:+ String QUOTE r2)) as Hu.
    by rewrite <- H in Hu.
  - intros H. pose proof (unescape_escape c (escape s +:+ String QUOTE r1)) as Hu.
    by rewrite H in Hu.
  - intros H. pose proof (unescape_escape c (escape s +:+ String QUOTE r1)) as Hu.
    rewrite H, unescape_escape in Hu. injection Hu as -> Hu.
    by apply eq_sym, IH in Hu as [-> ->].
Qed.

Lemma quote_inj s t r1 r2 : quote s +:+ r1 = quote t +:+ r2 → s = t ∧ r1 = r2.
Proof.
  unfold quote. simpl. rewrite !append_assoc. simpl. intros [= H]. by apply escape_inj in H.
Qed.

Lemma numeral_inj n m r1 r2 :
  all_numeral n = true → all_numeral m = true → delimited r1 → delimited r2 →
  n +:+ r1 = m +:+ r2 → n = m ∧ r1 = r2.
Proof.
  assert (∀ c s r, numeral_char c = true → delimited r → r ≠ String c s) as Hd.
  { intros c s [|d r] Hc Hr; [done|]. intros [= -> ->].
    by destruct Hr as [->|[->| ->]]. }
  revert m. induction n as [|c n IH]; intros [|d m]; simpl; intros Hn Hm Hr1 Hr2 H; bool_to_prop.
  - done.
  - by eapply Hd in H.
  - symmetry in H. by eapply Hd in H.
  - injection H as -> H. apply IH in H as [-> ->]; done.
Qed.

(** The first character tells the kind of value. *)
Inductive kind := k_null | k_true | k_false | k_num | k_str | k_arr | k_obj.

Definition kind_of (v : Json) : kind :=
  match v with
  | JNull => k_null | JBool true => k_true | JBool false => k_false | JNum _ => k_num
  | JStr _ => k_str | JArr _ => k_arr | JObj _ => k_obj
  end.

Definition first_kind (s : string) : option kind :=
  match s with
  | String "n" _ => Some k_null
  | String "t" _ => Some k_true
  | String "f" _ => Some k_false
  | String "[" _ => Some k_arr
  | String "{" _ => Some k_obj
  | String c _ =>
      if Ascii.eqb c QUOTE then Some k_str else if numeral_char c then Some k_num else None
  | EmptyString => None
  end.

Lemma first_kind_stringify v r :
  plain v → first_kind (stringify v +:+ r) = Some (kind_of v).
Proof.
  destruct 1 as [|[]|n Hn|s|xs Hxs|kvs Hwf Hp Hkvs]; try done.
  destruct n as [|c n]; [done|]. unfold is_numeral in Hn. simpl in *. bool_to_prop.
  assert (numeral_char c = true) as Hc by done. clear - Hc.
  destruct c as [[] [] [] [] [] [] [] []]; by vm_compute in Hc |- *.
Qed.

Lemma kinds_agree v w r1 r2 :
  plain v → plain w → stringify v +:+ r1 = stringify w +:+ r2 → kind_of v = kind_of w.
Proof.
  intros Hv Hw H. apply (first_kind_stringify _ r1) in Hv. apply (first_kind_stringify _ r2) in Hw.
  rewrite H in Hv. congruence.
Qed.

(** Lists of items between commas, closed by a bracket. *)
Section Items.
Context {A : Type} (p : A → string) (ok : A → Prop) (close : ascii).
Context (Hclose : delimited (String close "")) (Hcomma : close ≠ ","%char).
Context (Hstart : ∀ x r s, ok x → p x +:+ r ≠ String close s).

Definition tail_of (xs : list A) : string := foldr (λ x s, "," +:+ p x +:+ s) "" xs.

Definition reads (x : A) : Prop :=
  ∀ y r1 r2, ok y → delimited r1 → delimited r2 → p x +:+ r1 = p y +:+ r2 → x = y ∧ r1 = r2.

Lemma join_tail x xs : join "," (p <$> x :: xs) = p x +:+ tail_of xs.
Proof.
  revert x. induction xs as [|y xs IH]; intros x; [by rewrite append_nil_r|].
  specialize (IH y). csimpl in *. by rewrite IH.
Qed.

Lemma tail_delimited xs r : delimited (tail_of xs +:+ String close r).
Proof. destruct xs as [|x xs]; simpl; [done|]. by left. Qed.

Lemma tail_inj xs ys r1 r2 :
  Forall reads xs → Forall ok ys →
  tail_of xs +:+ String close r1 = tail_of ys +:+ String close r2 → xs = ys ∧ r1 = r2.
Proof.
  intros Hxs. revert ys. induction Hxs as [|x xs Hx Hxs IH]; intros [|y ys] Hys; simpl.
  - by intros [= ->].
  - by intros [= -> ?].
  - intros [= He ?]. by rewrite <- He in Hcomma.
  - apply Forall_cons in Hys as [Hy Hys]. rewrite !append_assoc. intros [= H].
    apply Hx in H as [-> H]; [|done|apply tail_delimited..]. by apply IH in H as [-> ->].
Qed.

Lemma items_inj xs ys r1 r2 :
  Forall reads xs → Forall ok xs → Forall ok ys →
  join "," (p <$> xs) +:+ String close r1 = join "," (p <$> ys) +:+ String close r2 →
  xs = ys ∧ r1 = r2.
Proof.
  intros Hxs Hok Hys. destruct xs as [|x xs], ys as [|y ys]; rewrite ?join_tail, ?append_assoc.
  - by intros [= ->].
  - intros H. apply Forall_cons in Hys as [Hy _]. symmetry in H. by apply Hstart in H.
  - intros H. apply Forall_cons in Hok as [Hx _]. by apply Hstart in H.
  - apply Forall_cons in Hxs as [Hx Hxs], Hys as [Hy Hys]. intros H.
    apply Hx in H as [-> H]; [|done|apply tail_delimited..].
    by apply tail_inj in H as [-> ->].
Qed.
End Items.

Lemma stringify_reads v : plain v → reads stringify plain v.
Proof.
  induction v as [|b|n|s|xs IH|kvs IH] using Json_rect';
    intros Hv w r1 r2 Hw Hr1 Hr2 H; pose proof (kinds_agree _ _ _ _ Hv Hw H) as Hk.
  - destruct w as [|[]| | | |]; try done. by injection H as ->.
  - destruct w as [|b'| | | |]; try by destruct b.
    destruct b, b'; try done; by injection H as ->.
  - destruct w as [|[]|m| | |]; try done. inversion Hv; inversion Hw; subst.
    unfold is_numeral in *. simpl in H. bool_to_prop. by apply numeral_inj in H as [-> ->].
  - destruct w as [|[]| |t| |]; try done. by apply quote_inj in H as [-> ->].
  - destruct w as [|[]| | |ys|]; try done. inversion Hv as [| | | |? Hxs|]; subst.
    inversion Hw as [| | | |? Hys|]; subst. simpl in H. rewrite !append_assoc in H. simpl in H.
    injection H as H. apply (items_inj stringify plain) in H as [-> ->]; [done| | | |..]; try done.
    + simpl. tauto.
    + intros x r s Hx Heq. apply (first_kind_stringify _ r) in Hx. by rewrite Heq in Hx.
    + rewrite Forall_forall in *. auto.
  - destruct w as [|[]| | | |kvs']; try done. inversion Hv as [| | | | |? _ _ Hkvs]; subst.
    inversion Hw as [| | | | |? _ _ Hkvs']; subst.
    simpl in H. rewrite !append_assoc in H. simpl in H. injection H as H.
    apply (items_inj (λ kv, quote kv.1 +:+ ":" +:+ stringify kv.2) (λ kv, plain kv.2)) in H
      as [-> ->]; [done| | | |..]; try done.
    + simpl. tauto.
    + rewrite Forall_forall in *. intros [k x] Hin [k' x'] s1 s2 Hx' Hs1 Hs2. cbn [fst snd].
      rewrite !append_assoc. intros [-> Heq]%quote_inj. injection Heq as Heq.
      apply (IH _ Hin (Hkvs _ Hin)) in Heq as [Heq ->]; [|done..]. simpl in Heq. by subst.
Qed.

Lemma stringify_inj v w : plain v → plain w → stringify v = stringify w → v = w.
Proof.
  intros Hv Hw H. apply (stringify_reads v Hv w "" ""); [done..|]. by rewrite !append_nil_r.
Qed.

(** ** Deep equality *)

(** Same properties with equal values, whatever their order. *)
Inductive deep_equal : Json → Json → Prop :=
  | equal_null : deep_equal JNull JNull
  | equal_bool b : deep_equal (JBool b) (JBool b)
  | equal_num n : deep_equal (JNum n) (JNum n)
  | equal_str s : deep_equal (JStr s) (JStr s)
  | equal_arr xs ys : Forall2 deep_equal xs ys → deep_equal (JArr xs) (JArr ys)
  | equal_obj kvs kvs' :
      (∀ k, option_Forall2 deep_equal (map_get k kvs) (map_get k kvs')) →
      deep_equal (JObj kvs) (JObj kvs').

Lemma keys_map_values f kvs : (map_values f kvs).*1 = kvs.*1.
Proof. unfold map_values. rewrite <- list_fmap_compose. done. Qed.

Lemma wf_map_values f kvs : map_wf (map_values f kvs) ↔ map_wf kvs.
Proof. unfold map_wf. by rewrite keys_map_values. Qed.

Lemma get_map_values f k kvs : map_get k (map_values f kvs) = f <$> map_get k kvs.
Proof.
  induction kvs as [|[k' v] kvs IH]; [done|]. simpl. by case_decide.
Qed.

Lemma get_sorted f k kvs :
  map_wf kvs → "__proto__" ∉ kvs.*1 →
  map_get k (sorted_object (map_values f kvs)) = f <$> map_get k kvs.
Proof.
  intros Hwf Hp. rewrite <- get_map_values. symmetry.
  apply perm_lookup; [by apply wf_map_values|].
  symmetry. apply sorted_object_perm. by rewrite keys_map_values.
Qed.

(** A sorted value is a plain one. *)
Lemma sort_plain v : plain v → plain (sortKeysDeep v).
Proof.
  induction v as [|b|n|s|xs IH|kvs IH] using Json_rect'; intros Hv; try done.
  - inversion Hv as [| | | |? Hxs|]; subst. constructor. apply Forall_fmap.
    rewrite Forall_forall in *. intros x Hin. apply IH; auto.
  - inversion Hv as [| | | | |? Hwf Hp Hkvs]; subst. simpl.
    assert (sorted_object (map_values sortKeysDeep kvs) ≡ₚ map_values sortKeysDeep kvs) as Hperm
      by (apply sorted_object_perm; by rewrite keys_map_values).
    constructor.
    + apply (wf_perm (map_values sortKeysDeep kvs)); [by rewrite Hperm|]. by apply wf_map_values.
    + by rewrite Hperm, keys_map_values.
    + rewrite Hperm. unfold map_values. apply Forall_fmap.
      rewrite Forall_forall in *. intros kv Hin. apply IH; auto.
Qed.

(** Values sorted to the same one are equal. *)
Lemma sort_equal v w : plain v → plain w → sortKeysDeep v = sortKeysDeep w → deep_equal v w.
Proof.
  revert w. induction v as [|b|n|s|xs IH|kvs IH] using Json_rect'; intros w Hv Hw H;
    destruct w as [|b'|n'|s'|ys|kvs']; try done; simpl in H.
  - constructor.
  - injection H as ->. constructor.
  - injection H as ->. constructor.
  - injection H as ->. constructor.
  - injection H as H. constructor. inversion Hv as [| | | |? Hxs|]; subst.
    inversion Hw as [| | | |? Hys|]; subst. clear Hv Hw.
    revert ys H Hys. induction xs as [|x xs IH']; intros [|y ys]; try done. csimpl.
    rewrite !Forall_cons in *. intros [= Hxy Hxys] [Hy Hys]. destruct IH, Hxs.
    constructor; auto.
  - injection H as H. constructor. intros k.
    inversion Hv as [| | | | |? Hwf Hp Hkvs]; subst.
    inversion Hw as [| | | | |? Hwf' Hp' Hkvs']; subst.
    pose proof (get_sorted sortKeysDeep k _ Hwf Hp) as Hk.
    rewrite H, (get_sorted sortKeysDeep) in Hk by done.
    destruct (map_get k kvs) as [x|] eqn:Hx, (map_get k kvs') as [y|] eqn:Hy; try done;
      constructor.
    injection Hk as Hk. apply map_get_elem in Hx, Hy. rewrite Forall_forall in *.
    by apply (IH (k, x)); [|apply (Hkvs (k, x))|apply (Hkvs' (k, y))|].
Qed.

(** Equal values are sorted to the same one. *)
Lemma equal_sort v w : plain v → plain w → deep_equal v w → sortKeysDeep v = sortKeysDeep w.
Proof.
  revert w. induction v as [|b|n|s|xs IH|kvs IH] using Json_rect'; intros w Hv Hw H;
    inversion H as [| | | |? ys Hxys|? kvs' Hget]; subst; try done.
  - simpl. f_equal. inversion Hv as [| | | |? Hxs|]; inversion Hw as [| | | |? Hys|]; subst.
    clear Hv Hw H. induction Hxys as [|x y xs ys Hxy Hxys IH']; [done|]. csimpl.
    apply Forall_cons in IH as [??], Hxs as [??], Hys as [??]. f_equal; auto.
  - inversion Hv as [| | | | |? Hwf Hp Hkvs]; inversion Hw as [| | | | |? Hwf' Hp' Hkvs']; subst.
    simpl. f_equal. apply (sorted_object_unique (map_values _ _) (map_values _ _));
      [by apply wf_map_values|].
    apply lookup_perm; [by apply wf_map_values..|]. intros k. rewrite !get_map_values.
    specialize (Hget k). inversion Hget as [x y Hxy Hx Hy|Hx Hy]; [|done]. simpl. f_equal.
    symmetry in Hx, Hy. apply map_get_elem in Hx, Hy. rewrite Forall_forall in *.
    by apply (IH (k, x)), Hxy; [|apply (Hkvs (k, x))|apply (Hkvs' (k, y))].
Qed.

(** Two values have the same canonical text exactly when they are deeply equal. *)
Lemma canonical_exact v w :
  plain v → plain w → (canonicalJsonSerialize v = canonicalJsonSerialize w ↔ deep_equal v w).
Proof.
  intros Hv Hw. unfold canonicalJsonSerialize. split.
  - intros H%stringify_inj; [|by apply sort_plain..]. by apply sort_equal.
  - intros H. f_equal. by apply equal_sort.
Qed.

(** ** Own [__proto__] properties *)

(** A value [JSON.parse] can answer: numerals, and no key twice in an object. *)
Inductive parsed : Json → Prop :=
  | parsed_null : parsed JNull
  | parsed_bool b : parsed (JBool b)
  | parsed_num n : is_numeral n = true → parsed (JNum n)
  | parsed_str s : parsed (JStr s)
  | parsed_arr xs : Forall parsed xs → parsed (JArr xs)
  | parsed_obj kvs : map_wf kvs → Forall (λ kv, parsed kv.2) kvs → parsed (JObj kvs).

Definition not_proto (kv : string * Json) : bool := negb (String.eqb kv.1 "__proto__").

(** The value without the own properties called [__proto__], at any depth. *)
Fixpoint strip (v : Json) : Json :=
  match v with
  | JArr xs => JArr (strip <$> xs)
  | JObj kvs => JObj (List.filter not_proto (map_values strip kvs))
  | _ => v
  end.

Lemma not_proto_keys kvs k : k ∈ (List.filter not_proto kvs).*1 ↔ k ∈ kvs.*1 ∧ k ≠ "__proto__".
Proof.
  induction kvs as [|[k' v] kvs IH]; csimpl; [set_solver|]. unfold not_proto. simpl.
  destruct (String.eqb_spec k' "__proto__"); csimpl; rewrite ?elem_of_cons, IH; set_solver.
Qed.

Lemma not_proto_wf kvs : map_wf kvs → map_wf (List.filter not_proto kvs).
Proof.
  unfold map_wf. induction kvs as [|[k' v] kvs IH]; csimpl; [done|].
  intros [Hk Hkvs]%NoDup_cons. destruct (not_proto _); csimpl; [|by apply IH].
  apply NoDup_cons. split; [|by apply IH]. rewrite not_proto_keys. tauto.
Qed.

(** Filtering commutes with sorting. *)
Lemma filter_sorted kvs : StronglySorted key_le kvs → StronglySorted key_le (List.filter not_proto kvs).
Proof.
  induction 1 as [|kv kvs Hs IH Hle]; simpl; [constructor|]. destruct (not_proto kv); [|done].
  constructor; [done|]. rewrite Forall_forall in *. intros x [Hx _]%elem_of_lfilter. by apply Hle.
Qed.

Lemma sort_filter kvs :
  map_wf kvs → sort_keys (List.filter not_proto kvs) = List.filter not_proto (sort_keys kvs).
Proof.
  intros Hwf. eapply (Sorted_unique_strong key_le).
  - intros [k v] [k' v']. rewrite elem_of_lfilter, !sort_keys_perm, elem_of_lfilter. unfold key_le. simpl.
    intros [Hin _] [Hin' _] Hle Hle'. assert (k = k') as -> by by apply (anti_symm String.le).
    apply elem_map_get in Hin, Hin'; [|done..]. congruence.
  - apply Sorted_merge_sort. apply _.
  - apply StronglySorted_Sorted, filter_sorted, Sorted_StronglySorted, Sorted_merge_sort; apply _.
  - rewrite sort_keys_perm. symmetry. apply lfilter_perm, sort_keys_perm.
Qed.

Lemma assign_filter kvs o :
  foldl (λ o kv, assign o kv.1 kv.2) o (List.filter not_proto kvs)
  = foldl (λ o kv, assign o kv.1 kv.2) o kvs.
Proof.
  revert o. induction kvs as [|[k v] kvs IH]; intros o; [done|]. unfold not_proto at 1. simpl.
  destruct (String.eqb k "__proto__") eqn:E; simpl; rewrite IH; [|done]. f_equal. unfold assign.
  by rewrite E.
Qed.

Lemma sorted_object_filter kvs :
  map_wf kvs → sorted_object (List.filter not_proto kvs) = sorted_object kvs.
Proof. intros Hwf. unfold sorted_object. by rewrite sort_filter, assign_filter. Qed.

Lemma map_values_filter f kvs :
  map_values f (List.filter not_proto kvs) = List.filter not_proto (map_values f kvs).
Proof.
  induction kvs as [|[k v] kvs IH]; [done|]. unfold map_values, not_proto in *. csimpl.
  destruct (String.eqb k "__proto__"); csimpl; by rewrite IH.
Qed.

(** Stripping makes a value plain and leaves its canonical form. *)
Lemma strip_plain v : parsed v → plain (strip v).
Proof.
  induction v as [|b|n|s|xs IH|kvs IH] using Json_rect'; intros Hv; inversion Hv; subst;
    try by constructor.
  - constructor. apply Forall_fmap. rewrite Forall_forall in *. intros x Hx. apply IH; auto.
  - constructor.
    + apply not_proto_wf. by apply wf_map_values.
    + rewrite not_proto_keys. tauto.
    + rewrite Forall_forall in *. intros kv [Hkv _]%elem_of_lfilter.
      apply list_elem_of_fmap in Hkv as (kv' & -> & Hkv'). apply IH; auto.
Qed.

Lemma strip_sort v : parsed v → sortKeysDeep (strip v) = sortKeysDeep v.
Proof.
  induction v as [|b|n|s|xs IH|kvs IH] using Json_rect'; intros Hv; inversion Hv; subst; try done;
    simpl; f_equal.
  - rewrite <- list_fmap_compose. apply list_fmap_ext. intros i x Hx%list_elem_of_lookup_2.
    rewrite Forall_forall in *. apply IH; auto.
  - rewrite map_values_filter, sorted_object_filter by by rewrite !wf_map_values.
    f_equal. unfold map_values. rewrite <- list_fmap_compose. apply list_fmap_ext.
    intros i x Hx%list_elem_of_lookup_2. rewrite Forall_forall in *. simpl. f_equal. apply IH; auto.
Qed.

(** Two parsed values have the same canonical text exactly when they are deeply
    equal but for own [__proto__] properties. *)
Lemma canonical_modulo_proto v w :
  parsed v → parsed w →
  (canonicalJsonSerialize v = canonicalJsonSerialize w ↔ deep_equal (strip v) (strip w)).
Proof.
  intros Hv Hw. rewrite <- canonical_exact by by apply strip_plain.
  unfold canonicalJsonSerialize. by rewrite !strip_sort.
Qed.

(** ** Theorems *)

(** C29: Under a hash without collisions the digest binds a grant to the tool and its
    input, but for what an own property [__proto__] holds: two invocations with
    parsed inputs share a digest exactly when they name the same tool and their
    inputs, own [__proto__] properties left out at every depth, are deeply equal,
    whatever the order of keys. *)
Theorem digest_binds_invocation (hash : string → string) tool tool' input input' :
  (∀ s t, hash s = hash t → s = t) →
  parsed (JObj input) → parsed (JObj input') →
  computeToolApprovalDigest hash tool input = computeToolApprovalDigest hash tool' input'
  ↔ tool = tool' ∧ deep_equal (strip (JObj input)) (strip (JObj input')).
Proof.
  intros Hhash Hi Hi'. unfold computeToolApprovalDigest.
  assert (∀ t i, parsed (JObj i) → parsed (JObj [("input", JObj i); ("toolName", JStr t)])) as Hp.
  { intros t i ?. constructor; [|by repeat (apply Forall_cons; split); [|apply parsed_str|]].
    unfold map_wf. csimpl. apply NoDup_cons. split; [set_solver|apply NoDup_singleton]. }
  transitivity (deep_equal (strip (JObj [("input", JObj input); ("toolName", JStr tool)]))
                           (strip (JObj [("input", JObj input'); ("toolName", JStr tool')]))).
  { rewrite <- canonical_modulo_proto by auto. split; [apply Hhash|congruence]. }
  split.
  - inversion 1 as [| | | | |? ? Hget]; subst.
    pose proof (Hget "input") as H1. pose proof (Hget "toolName") as H2. simpl in H1, H2.
    inversion H1; inversion H2 as [? ? Hs|]; subst. by inversion Hs; subst.
  - intros [-> Heq]. constructor. intros k. simpl.
    repeat case_decide; constructor; [done|constructor].
Qed.

(** A grant for one input serves for it with its keys in another order and with
    another [__proto__]. *)
Lemma digest_binds_invocation_witness :
  computeToolApprovalDigest (λ s, s) "bash" [("b", JNum "2"); ("a", JStr "ls")]
  = computeToolApprovalDigest (λ s, s) "bash"
      [("a", JStr "ls"); ("__proto__", JObj [("c", JNull)]); ("b", JNum "2")].
Proof.
  apply digest_binds_invocation; [done|..].
  1,2: constructor; [apply (bool_decide_unpack _); vm_compute; exact I|].
  1,2: repeat constructor; apply (bool_decide_unpack _); vm_compute; exact I.
  split; [done|]. constructor. intros k. simpl. repeat case_decide; subst; try done; repeat constructor.
Defined.

(** An own property [__proto__] is lost, so that two inputs which differ in it
    share a digest. *)
Lemma proto_not_in_digest hash tool command v w :
  computeToolApprovalDigest hash tool [("__proto__", v); ("command", JStr command)]
  = computeToolApprovalDigest hash tool [("__proto__", w); ("command", JStr command)].
Proof. done. Qed.
