(* ===== verification/ApprovalGrants.v ===== *)
(** Scoped approval grants ([assistant/src/approvals/scoped-approval-grants.ts])
    and the primitive every producer and consumer goes through
    ([assistant/src/approvals/approval-primitive.ts]). A grant authorises one tool
    execution. The table is a list of rows in insertion order; SQL writes are
    values of [Stmt], so that what other connections do between a read and a write
    of the same call is a list of them. Clocks and fresh identifiers are
    arguments. *)
From S2P Require Import Prelude JsString.

Local Open Scope Z_scope.

Module Grants.

(** ** The table *)

Inductive ScopeMode := scope_request_id | scope_tool_signature.

#[export] Instance ScopeMode_eq_dec : EqDecision ScopeMode.
Proof. solve_decision. Defined.

Inductive GrantStatus := grant_active | grant_consumed | grant_expired | grant_revoked.

#[export] Instance GrantStatus_eq_dec : EqDecision GrantStatus.
Proof. solve_decision. Defined.

(** [ScopedApprovalGrant]; [None] for NULL. *)
Record Grant := {
  id : string;
  scopeMode : ScopeMode;
  requestId : option string;
  toolName : option string;
  inputDigest : option string;
  requestChannel : string;
  decisionChannel : string;
  executionChannel : option string;
  conversationId : option string;
  callSessionId : option string;
  requesterExternalUserId : option string;
  guardianExternalUserId : option string;
  status : GrantStatus;
  expiresAt : Z;
  consumedAt : option Z;
  consumedByRequestId : option string;
  createdAt : Z;
  updatedAt : Z
}.

Definition GrantTable := list Grant.

Definition has_id (i : string) (g : Grant) : bool := String.eqb g.(id) i.
Definition is_active (g : Grant) : bool := bool_decide (g.(status) = grant_active).

Definition with_status (s : GrantStatus) (now : Z) (g : Grant) : Grant :=
  {| id := g.(id); scopeMode := g.(scopeMode); requestId := g.(requestId);
     toolName := g.(toolName); inputDigest := g.(inputDigest);
     requestChannel := g.(requestChannel); decisionChannel := g.(decisionChannel);
     executionChannel := g.(executionChannel); conversationId := g.(conversationId);
     callSessionId := g.(callSessionId);
     requesterExternalUserId := g.(requesterExternalUserId);
     guardianExternalUserId := g.(guardianExternalUserId);
     status := s; expiresAt := g.(expiresAt); consumedAt := g.(consumedAt);
     consumedByRequestId := g.(consumedByRequestId);
     createdAt := g.(createdAt); updatedAt := now |}.

Definition with_consumer (now : Z) (by_ : string) (g : Grant) : Grant :=
  {| id := g.(id); scopeMode := g.(scopeMode); requestId := g.(requestId);
     toolName := g.(toolName); inputDigest := g.(inputDigest);
     requestChannel := g.(requestChannel); decisionChannel := g.(decisionChannel);
     executionChannel := g.(executionChannel); conversationId := g.(conversationId);
     callSessionId := g.(callSessionId);
     requesterExternalUserId := g.(requesterExternalUserId);
     guardianExternalUserId := g.(guardianExternalUserId);
     status := g.(status); expiresAt := g.(expiresAt); consumedAt := Some now;
     consumedByRequestId := Some by_;
     createdAt := g.(createdAt); updatedAt := g.(updatedAt) |}.

(** [UPDATE ... SET f WHERE p], with the number of rows changed *)
Definition update_grants (p : Grant → bool) (f : Grant → Grant) (t : GrantTable)
    : GrantTable * nat :=
  ((λ g, if p g then f g else g) <$> t, length (List.filter p t)).

(** *** The writes *)

Record RevokeContext := {
  rc_conversationId : option string;
  rc_callSessionId : option string;
  rc_requestChannel : option string
}.

(** [SET status = 'consumed' ... WHERE id = ? AND status = 'active'] *)
Definition consume_update (i by_ : string) (now : Z) (t : GrantTable) : GrantTable * nat :=
  update_grants (λ g, has_id i g && is_active g)
    (λ g, with_consumer now by_ (with_status grant_consumed now g)) t.

Definition expire_update (now : Z) (t : GrantTable) : GrantTable * nat :=
  update_grants (λ g, is_active g && (g.(expiresAt) <=? now)) (with_status grant_expired now) t.

(** [eq(column, value)] where a value is given *)
Definition matches_filter (value : option string) (column : option string) : bool :=
  match value with Some v => bool_decide (column = Some v) | None => true end.

Definition in_context (c : RevokeContext) (g : Grant) : bool :=
  matches_filter c.(rc_conversationId) g.(conversationId)
  && matches_filter c.(rc_callSessionId) g.(callSessionId)
  && matches_filter c.(rc_requestChannel) (Some g.(requestChannel)).

Definition revoke_update (c : RevokeContext) (now : Z) (t : GrantTable) : GrantTable * nat :=
  update_grants (λ g, is_active g && in_context c g) (with_status grant_revoked now) t.

(** [INSERT]: refused when the primary key is taken. *)
Definition insert_grant (g : Grant) (t : GrantTable) : option GrantTable :=
  if existsb (has_id g.(id)) t then None else Some (t ++ [g]).

Inductive Stmt :=
  | SInsert (g : Grant)
  | SConsume (i by_ : string) (now : Z)
  | SExpire (now : Z)
  | SRevoke (c : RevokeContext) (now : Z).

Definition exec (t : GrantTable) (s : Stmt) : GrantTable :=
  match s with
  | SInsert g => default t (insert_grant g t)
  | SConsume i by_ now => (consume_update i by_ now t).1
  | SExpire now => (expire_update now t).1
  | SRevoke c now => (revoke_update c now t).1
  end.

(** What other connections write meanwhile. *)
Definition others (ss : list Stmt) (t : GrantTable) : GrantTable := foldl exec t ss.

(** ** The store *)

Record CreateParams := {
  p_scopeMode : ScopeMode;
  p_requestId : option string;
  p_toolName : option string;
  p_inputDigest : option string;
  p_requestChannel : string;
  p_decisionChannel : string;
  p_executionChannel : option string;
  p_conversationId : option string;
  p_callSessionId : option string;
  p_requesterExternalUserId : option string;
  p_guardianExternalUserId : option string;
  p_expiresAt : Z
}.

Definition grant_row (uuid : string) (now : Z) (p : CreateParams) : Grant :=
  {| id := uuid; scopeMode := p.(p_scopeMode); requestId := p.(p_requestId);
     toolName := p.(p_toolName); inputDigest := p.(p_inputDigest);
     requestChannel := p.(p_requestChannel); decisionChannel := p.(p_decisionChannel);
     executionChannel := p.(p_executionChannel); conversationId := p.(p_conversationId);
     callSessionId := p.(p_callSessionId);
     requesterExternalUserId := p.(p_requesterExternalUserId);
     guardianExternalUserId := p.(p_guardianExternalUserId);
     status := grant_active; expiresAt := p.(p_expiresAt); consumedAt := None;
     consumedByRequestId := None; createdAt := now; updatedAt := now |}.

(** [None]: the insert throws. *)
Definition createScopedApprovalGrant (uuid : string) (now : Z) (p : CreateParams)
    (t : GrantTable) : option (Grant * GrantTable) :=
  let row := grant_row uuid now p in (row,.) <$> insert_grant row t.

Definition MAX_CAS_RETRIES : nat := 3.

(** The select, then the guarded write, again while the write finds the candidate
    gone. [between n] is what others write between the two in attempt [n]. *)
Fixpoint cas_loop (select : GrantTable → option Grant) (by_ : string) (now : Z)
    (between : nat → list Stmt) (attempt tries : nat) (t : GrantTable)
    : option Grant * GrantTable :=
  match tries with
  | O => (None, t)
  | S tries =>
      match select t with
      | None => (None, t)
      | Some candidate =>
          let t := others (between attempt) t in
          let '(t', changes) := consume_update candidate.(id) by_ now t in
          match changes with
          | O => cas_loop select by_ now between (S attempt) tries t'
          | S _ => (find_first (has_id candidate.(id)) t', t')
          end
      end
  end.

Definition request_candidate (request : string) (now : Z) (g : Grant) : bool :=
  bool_decide (g.(requestId) = Some request)
  && bool_decide (g.(scopeMode) = scope_request_id)
  && is_active g && (now <? g.(expiresAt)).

Definition consumeScopedApprovalGrantByRequestId (request consumingRequestId : string)
    (now : Z) (between : nat → list Stmt) (t : GrantTable) : option Grant * GrantTable :=
  cas_loop (find_first (request_candidate request now)) consumingRequestId now between
    0 (S MAX_CAS_RETRIES) t.

Record ConsumeParams := {
  c_requestId : option string;
  c_toolName : string;
  c_inputDigest : string;
  c_consumingRequestId : string;
  c_executionChannel : option string;
  c_conversationId : option string;
  c_callSessionId : option string;
  c_requesterExternalUserId : option string
}.

(** [column IS NULL OR column = value]; only NULL when no value is given *)
Definition context_matches (column value : option string) : bool :=
  match column with None => true | Some _ => bool_decide (column = value) end.

Definition signature_candidate (p : ConsumeParams) (now : Z) (g : Grant) : bool :=
  bool_decide (g.(toolName) = Some p.(c_toolName))
  && bool_decide (g.(inputDigest) = Some p.(c_inputDigest))
  && bool_decide (g.(scopeMode) = scope_tool_signature)
  && is_active g && (now <? g.(expiresAt))
  && context_matches g.(executionChannel) p.(c_executionChannel)
  && context_matches g.(conversationId) p.(c_conversationId)
  && context_matches g.(callSessionId) p.(c_callSessionId)
  && context_matches g.(requesterExternalUserId) p.(c_requesterExternalUserId).

Definition given (column : option string) : Z :=
  match column with Some _ => 1 | None => 0 end.

(** How many context columns are set. *)
Definition specificity (g : Grant) : Z :=
  given g.(executionChannel) + given g.(conversationId) + given g.(callSessionId)
  + given g.(requesterExternalUserId).

(** [ORDER BY specificity DESC LIMIT 1]: the first row of the highest. *)
Fixpoint most_specific (xs : list Grant) : option Grant :=
  match xs with
  | [] => None
  | g :: xs =>
      match most_specific xs with
      | Some h => if specificity g <? specificity h then Some h else Some g
      | None => Some g
      end
  end.

Definition consumeScopedApprovalGrantByToolSignature (p : ConsumeParams) (now : Z)
    (between : nat → list Stmt) (t : GrantTable) : option Grant * GrantTable :=
  cas_loop (λ t, most_specific (List.filter (signature_candidate p now) t))
    p.(c_consumingRequestId) now between 0 (S MAX_CAS_RETRIES) t.

Definition expireScopedApprovalGrants (now : Z) (t : GrantTable) : nat * GrantTable :=
  let '(t', count) := expire_update now t in (count, t').

(** [None]: no filter was given, the call throws. *)
Definition revokeScopedApprovalGrantsForContext (c : RevokeContext) (now : Z)
    (t : GrantTable) : option (nat * GrantTable) :=
  match c.(rc_conversationId), c.(rc_callSessionId), c.(rc_requestChannel) with
  | None, None, None => None
  | _, _, _ => let '(t', count) := revoke_update c now t in Some (count, t')
  end.

(** ** The primitive *)

Inductive MintGrantResult :=
  | minted (g : Grant)
  | mint_refused (reason : string).

(** The field is absent or empty. *)
Definition blank (s : option string) : bool := negb (truthy (default "" s)).

Definition mintGrantFromDecision (uuid : string) (now : Z) (p : CreateParams)
    (t : GrantTable) : MintGrantResult * GrantTable :=
  if bool_decide (p.(p_scopeMode) = scope_request_id) && blank p.(p_requestId) then
    (mint_refused "missing_request_id", t)
  else if bool_decide (p.(p_scopeMode) = scope_tool_signature)
          && (blank p.(p_toolName) || blank p.(p_inputDigest)) then
    (mint_refused "missing_tool_fields", t)
  else match createScopedApprovalGrant uuid now p t with
       | Some (g, t') => (minted g, t')
       | None => (mint_refused "storage_error", t)
       end.

(** A request-bound grant first, then one for the invocation. *)
Definition consumeGrantSync (p : ConsumeParams) (now : Z)
    (between between' : nat → list Stmt) (t : GrantTable) : option Grant * GrantTable :=
  let by_signature t := consumeScopedApprovalGrantByToolSignature p now between' t in
  if blank p.(c_requestId) then by_signature t
  else match consumeScopedApprovalGrantByRequestId (default "" p.(c_requestId))
               p.(c_consumingRequestId) now between t with
       | (Some g, t') => (Some g, t')
       | (None, t') => by_signature t'
       end.

Inductive ConsumeResult :=
  | consumed_grant (g : Grant)
  | no_match
  | aborted.

Definition GRANT_RETRY_INTERVAL_MS : Z := 250.
Definition GRANT_RETRY_MAX_WAIT_MS : Z := 10000.

(** One turn of a polling loop as the environment plays it: the clock at its head,
    whether the call is aborted before and after the sleep, what others write
    during the sleep, the clock of the attempt and the writes that interleave
    with it. *)
Record Tick := {
  tick_head : Z;
  abort_before : bool;
  during : list Stmt;
  abort_after : bool;
  tick_now : Z;
  tick_between : nat → list Stmt;
  tick_between' : nat → list Stmt
}.

(** [None]: the ticks given ran out while the loop still waits. *)
Fixpoint poll_loop (p : ConsumeParams) (deadline : Z) (ticks : list Tick) (t : GrantTable)
    : option ConsumeResult * GrantTable :=
  match ticks with
  | [] => (None, t)
  | k :: ticks =>
      if deadline <=? k.(tick_head) then (Some no_match, t)
      else if k.(abort_before) then (Some aborted, t)
      else
        let t := others k.(during) t in
        if k.(abort_after) then (Some aborted, t)
        else match consumeGrantSync p k.(tick_now) k.(tick_between) k.(tick_between') t with
             | (Some g, t') => (Some (consumed_grant g), t')
             | (None, t') => poll_loop p deadline ticks t'
             end
  end.

(** [now] is the clock of the first attempt, [start] the one the deadline is
    computed from. *)
Definition consumeGrantForInvocation (p : ConsumeParams) (maxWaitMs : option Z)
    (now start : Z) (between between' : nat → list Stmt) (ticks : list Tick) (t : GrantTable)
    : option ConsumeResult * GrantTable :=
  match consumeGrantSync p now between between' t with
  | (Some g, t') => (Some (consumed_grant g), t')
  | (None, t') =>
      let maxWait := default GRANT_RETRY_MAX_WAIT_MS maxWaitMs in
      if maxWait <=? 0 then (Some no_match, t') else poll_loop p (start + maxWait) ticks t'
  end.
(** ** Rows *)

(** The columns no write changes. *)
Definition scope_of (g : Grant) :=
  (g.(scopeMode), g.(requestId), g.(toolName), g.(inputDigest), g.(executionChannel),
   g.(conversationId), g.(callSessionId), g.(requesterExternalUserId), g.(expiresAt)).

Definition lookup_grant (i : string) (t : GrantTable) : option Grant := find_first (has_id i) t.

Definition grants_wf (t : GrantTable) : Prop := NoDup (id <$> t).

Lemma has_id_true i g : has_id i g = true ↔ g.(id) = i.
Proof. unfold has_id. apply String.eqb_eq. Qed.

Lemma lookup_id i t g : lookup_grant i t = Some g → g ∈ t ∧ g.(id) = i.
Proof. intros [? H]%find_first_Some. split; [done|]. by apply has_id_true. Qed.

Lemma elem_lookup t g : grants_wf t → g ∈ t → lookup_grant g.(id) t = Some g.
Proof.
  unfold grants_wf, lookup_grant. induction t as [|h t IH]; [set_solver|]. csimpl.
  intros [Hh Hnd]%NoDup_cons [->|Hin]%elem_of_cons.
  - unfold has_id. by rewrite String.eqb_refl.
  - destruct (has_id g.(id) h) eqn:E; [|by apply IH].
    apply has_id_true in E. destruct Hh. rewrite E. by apply list_elem_of_fmap_2.
Qed.

(** *** What a statement does to a row *)

Definition row_effect (s : Stmt) (g : Grant) : Grant :=
  match s with
  | SInsert _ => g
  | SConsume i by_ now =>
      if has_id i g && is_active g then with_consumer now by_ (with_status grant_consumed now g) else g
  | SExpire now =>
      if is_active g && (g.(expiresAt) <=? now) then with_status grant_expired now g else g
  | SRevoke c now => if is_active g && in_context c g then with_status grant_revoked now g else g
  end.

Lemma row_effect_scope s g : scope_of (row_effect s g) = scope_of g ∧ (row_effect s g).(id) = g.(id).
Proof. by destruct s; simpl; repeat case_match. Qed.

Lemma row_effect_settled s g : is_active g = false → row_effect s g = g.
Proof. intros H. destruct s; simpl; rewrite ?H, ?andb_false_r; done. Qed.

Lemma has_id_effect s i g : has_id i (row_effect s g) = has_id i g.
Proof. unfold has_id. by rewrite (proj2 (row_effect_scope s g)). Qed.

(** Every statement but the insert acts on each row by itself. *)
Lemma exec_rows t s :
  exec t s = match s with SInsert g => default t (insert_grant g t) | _ => row_effect s <$> t end.
Proof. by destruct s. Qed.

Lemma lookup_exec s i t g :
  lookup_grant i t = Some g → lookup_grant i (exec t s) = Some (row_effect s g).
Proof.
  intros H. rewrite exec_rows. unfold lookup_grant in *.
  destruct s; try (rewrite find_first_fmap by (intros; apply has_id_effect); by rewrite H).
  unfold insert_grant. destruct (existsb _ _); [done|]. simpl. by rewrite find_first_app, H.
Qed.

Lemma exec_wf s t : grants_wf t → grants_wf (exec t s).
Proof.
  unfold grants_wf. rewrite exec_rows. destruct s as [g|i b n|n|c n];
    try (rewrite <- list_fmap_compose; intros H; erewrite list_fmap_ext; [exact H|];
         intros; apply row_effect_scope).
  unfold insert_grant. destruct (existsb _ _) eqn:E; [done|]. simpl. intros H.
  rewrite fmap_app. apply NoDup_app. split_and!; [done| |apply NoDup_singleton].
  intros i [h [-> Hh]]%list_elem_of_fmap Hi. apply list_elem_of_singleton in Hi.
  rewrite existsb_false in E. specialize (E _ Hh). unfold has_id in E.
  rewrite Hi, String.eqb_refl in E. done.
Qed.

Lemma others_wf ss t : grants_wf t → grants_wf (others ss t).
Proof. revert t. induction ss as [|s ss IH]; intros t H; [done|]. by apply IH, exec_wf. Qed.

Lemma lookup_others ss i t g :
  lookup_grant i t = Some g →
  ∃ h, lookup_grant i (others ss t) = Some h ∧ scope_of h = scope_of g
       ∧ (is_active g = false → h = g).
Proof.
  revert t g. induction ss as [|s ss IH]; intros t g H; [by exists g|]. simpl.
  apply (lookup_exec s) in H. apply IH in H as (h & Hh & Hs & Ha). exists h.
  destruct (row_effect_scope s g) as [Hsc _]. split_and!; [done|congruence|].
  intros Hg. pose proof (row_effect_settled s g Hg) as He. rewrite He in Ha. auto.
Qed.

Lemma others_app ss ss' t : others (ss ++ ss') t = others ss' (others ss t).
Proof. apply foldl_app. Qed.

(** The guarded write changes the active row it names, or nothing. *)
Lemma consume_update_spec i by_ now t :
  grants_wf t →
  match lookup_grant i t with
  | Some g => if is_active g then (consume_update i by_ now t).2 = 1%nat
              else consume_update i by_ now t = (t, 0%nat)
  | None => consume_update i by_ now t = (t, 0%nat)
  end.
Proof.
  intros Hwf. unfold consume_update, update_grants.
  assert (∀ t, (∀ g, g ∈ t → has_id i g && is_active g = false) →
               (∀ f : Grant → Grant, (λ g, if has_id i g && is_active g then f g else g) <$> t = t)
               ∧ List.filter (λ g, has_id i g && is_active g) t = []) as Hnone.
  { clear. intros t. induction t as [|g t IH]; intros H; [done|]. csimpl.
    rewrite (H g) by by left. destruct IH as [IH ->]; [intros h Hh; apply H; by right|].
    split; [|done]. intros f. by rewrite IH. }
  destruct (lookup_grant i t) as [g|] eqn:Hg.
  - pose proof Hg as [Hin Hid]%lookup_id. destruct (is_active g) eqn:Ha.
    + apply list_elem_of_split in Hin as (l & r & ->). simpl.
      unfold grants_wf in Hwf. rewrite fmap_app, fmap_cons in Hwf.
      apply NoDup_app in Hwf as (_ & Hl & [Hr _]%NoDup_cons).
      assert (has_id i g = true) as Hb by by apply has_id_true.
      rewrite List.filter_app. simpl. rewrite Hb, Ha. simpl.
      destruct (Hnone l) as [_ ->]; [|destruct (Hnone r) as [_ ->]; [|done]].
      * intros h Hh. apply andb_false_intro1. unfold has_id. apply String.eqb_neq. intros He.
        apply (Hl h.(id)); [by apply list_elem_of_fmap_2|]. rewrite Hid, He. by left.
      * intros h Hh. apply andb_false_intro1. unfold has_id. apply String.eqb_neq. intros He.
        apply Hr. rewrite Hid, <- He. by apply list_elem_of_fmap_2.
    + destruct (Hnone t) as [H1 H2]; [|by rewrite H1, H2].
      intros h Hh. destruct (has_id i h) eqn:E; [|done]. apply has_id_true in E. simpl.
      pose proof (elem_lookup _ _ Hwf Hh) as He. rewrite E, Hg in He. by injection He as <-.
  - destruct (Hnone t) as [H1 H2]; [|by rewrite H1, H2].
    intros h Hh. apply andb_false_intro1. by apply (find_first_None (has_id i) t).
Qed.

(** ** A consume call among other writers *)

(** The statements others execute before the write of attempt [attempt + n - 1]. *)
Definition meanwhile (between : nat → list Stmt) (attempt n : nat) : list Stmt :=
  concat (between <$> seq attempt n).

Lemma cas_loop_S select by_ now between attempt tries t :
  cas_loop select by_ now between attempt (S tries) t
  = match select t with
    | None => (None, t)
    | Some candidate =>
        match consume_update candidate.(id) by_ now (others (between attempt) t) with
        | (t', O) => cas_loop select by_ now between (S attempt) tries t'
        | (t', S _) => (lookup_grant candidate.(id) t', t')
        end
    end.
Proof. done. Qed.

Lemma cas_loop_spec select (ok : Grant → Prop) by_ now between attempt tries t :
  (∀ g h, scope_of g = scope_of h → ok g → ok h) →
  (∀ t g, select t = Some g → g ∈ t ∧ ok g) →
  grants_wf t →
  ∃ n, (n ≤ tries)%nat ∧
    let before := others (meanwhile between attempt n) t in
    match cas_loop select by_ now between attempt tries t with
    | (Some g, t') =>
        ∃ g0, lookup_grant g.(id) before = Some g0 ∧ is_active g0 = true ∧ ok g0
              ∧ t' = exec before (SConsume g.(id) by_ now)
              ∧ g = row_effect (SConsume g.(id) by_ now) g0
    | (None, t') => t' = before ∧ (select before = None ∨ n = tries)
    end.
Proof.
  intros Hok Hselect. revert attempt t. induction tries as [|tries IH]; intros attempt t Hwf.
  { exists 0%nat. split; [done|]. simpl. auto. }
  rewrite cas_loop_S. destruct (select t) as [c|] eqn:Hc.
  2: { exists 0%nat. split; [lia|]. simpl. auto. }
  pose proof (Hselect _ _ Hc) as [Hin Hcok].
  pose proof (elem_lookup _ _ Hwf Hin) as Hl.
  pose proof (lookup_others (between attempt) _ _ _ Hl) as (h & Hh & Hscope & _).
  pose proof (others_wf (between attempt) _ Hwf) as Hwf'.
  pose proof (consume_update_spec c.(id) by_ now _ Hwf') as Hu. rewrite Hh in Hu.
  destruct (is_active h) eqn:Ha.
  - exists 1%nat. split; [lia|].
    replace (meanwhile between attempt 1) with (between attempt) by by rewrite <- app_nil_r at 1.
    pose proof (lookup_exec (SConsume c.(id) by_ now) _ _ _ Hh) as Hx.
    change (exec ?u (SConsume ?i ?b ?n)) with (consume_update i b n u).1 in Hx |- *.
    set (g := row_effect _ h) in *.
    assert (g.(id) = c.(id)) as Hid.
    { apply lookup_id in Hh as [_ <-]. apply (row_effect_scope (SConsume c.(id) by_ now)). }
    destruct (consume_update _ _ _ _) as [t' k] eqn:He. simpl in Hu, Hx. subst k.
    rewrite Hx. cbn zeta. rewrite Hid. exists h. rewrite He.
    split_and!; try done. by apply (Hok c).
  - rewrite Hu. destruct (IH (S attempt) _ Hwf') as (n & Hn & Hr).
    exists (S n). split; [lia|]. unfold meanwhile in *. simpl. rewrite others_app.
    destruct (cas_loop _ _ _ _ _ _ _) as [[g|] t']; [done|].
    destruct Hr as [-> [?| ->]]; auto.
Qed.

(** What a grant must be to let an invocation through. *)
Record authorises (p : ConsumeParams) (now : Z) (g : Grant) : Prop := {
  auth_mode : g.(scopeMode) = scope_tool_signature;
  auth_tool : g.(toolName) = Some p.(c_toolName);
  auth_input : g.(inputDigest) = Some p.(c_inputDigest);
  auth_time : now < g.(expiresAt);
  auth_channel : context_matches g.(executionChannel) p.(c_executionChannel) = true;
  auth_conversation : context_matches g.(conversationId) p.(c_conversationId) = true;
  auth_call : context_matches g.(callSessionId) p.(c_callSessionId) = true;
  auth_requester :
    context_matches g.(requesterExternalUserId) p.(c_requesterExternalUserId) = true
}.

Lemma signature_candidate_spec p now g :
  signature_candidate p now g = true ↔ is_active g = true ∧ authorises p now g.
Proof.
  unfold signature_candidate. split.
  - intros H. bool_to_prop. split; [done|]. by constructor.
  - intros [Ha [Hm Ht Hi Hn -> -> -> ->]]. apply Z.ltb_lt in Hn. rewrite Hm, Ht, Hi, Hn, Ha.
    by rewrite !bool_decide_true.
Qed.

Lemma most_specific_spec xs g :
  most_specific xs = Some g → g ∈ xs ∧ ∀ h, h ∈ xs → specificity h <= specificity g.
Proof.
  revert g. induction xs as [|x xs IH]; intros g; [done|]. simpl.
  destruct (most_specific xs) as [h|] eqn:Hm.
  - destruct (IH h eq_refl) as [Hin Hmax]. destruct (Z.ltb_spec (specificity x) (specificity h));
      intros [= <-].
    + split; [by right|]. intros y [->|Hy]%elem_of_cons; [lia|auto].
    + split; [by left|]. intros y [->|Hy]%elem_of_cons; [lia|]. specialize (Hmax _ Hy). lia.
  - intros [= <-]. split; [by left|]. intros y [->|Hy]%elem_of_cons; [lia|].
    destruct xs as [|z xs]; [by apply elem_of_nil in Hy|]. simpl in Hm. by repeat case_match.
Qed.

Lemma most_specific_None xs : most_specific xs = None ↔ xs = [].
Proof. destruct xs; simpl; [done|]. split; [|done]. by repeat case_match. Qed.

(** C27: Whatever other connections write in between, a consume call acts like one
    atomic step taken at some moment of the call: either the one active, unexpired
    grant it answers matches the invocation and becomes consumed and nothing else
    changes, or the table is what the others left, and at that moment no grant
    matched, or four candidates in a row were taken by others. *)
Theorem consume_linearizes p now between t :
  grants_wf t →
  ∃ n, (n ≤ 4)%nat ∧
    let before := others (meanwhile between 0 n) t in
    match consumeScopedApprovalGrantByToolSignature p now between t with
    | (Some g, t') =>
        ∃ g0, lookup_grant g.(id) before = Some g0 ∧ is_active g0 = true ∧ authorises p now g0
              ∧ t' = exec before (SConsume g.(id) p.(c_consumingRequestId) now)
              ∧ g = row_effect (SConsume g.(id) p.(c_consumingRequestId) now) g0
    | (None, t') =>
        t' = before
        ∧ (n = 4%nat ∨ ∀ g, g ∈ before → is_active g = true → ¬ authorises p now g)
    end.
Proof.
  intros Hwf. unfold consumeScopedApprovalGrantByToolSignature.
  destruct (cas_loop_spec (λ t, most_specific (List.filter (signature_candidate p now) t))
              (authorises p now) p.(c_consumingRequestId) now between 0 4 t) as (n & Hn & H);
    [..|done|].
  - intros g h Hs [????????]. injection Hs as H1 H2 H3 H4 H5 H6 H7 H8 H9. constructor; congruence.
  - intros t' g [Hin _]%most_specific_spec. apply elem_of_lfilter in Hin as [Hin Hc].
    by apply signature_candidate_spec in Hc as [_ ?].
  - exists n. split; [done|]. unfold MAX_CAS_RETRIES.
    destruct (cas_loop _ _ _ _ _ _ _) as [[g|] t']; [done|].
    destruct H as [-> [Hnone| ->]]; [|by auto]. split; [done|]. right.
    apply most_specific_None in Hnone. intros g Hg Ha Hau.
    assert (g ∈ List.filter (signature_candidate p now) (others (meanwhile between 0 n) t)) as Hin.
    { apply elem_of_lfilter. split; [done|]. by apply signature_candidate_spec. }
    rewrite Hnone in Hin. by apply elem_of_nil in Hin.
Qed.

(** *** Alone *)

Definition alone : nat → list Stmt := λ _, [].

Lemma cas_loop_alone select by_ now t :
  (∀ g, select t = Some g → g ∈ t ∧ is_active g = true) → grants_wf t →
  cas_loop select by_ now alone 0 4 t
  = match select t with
    | Some g => (Some (row_effect (SConsume g.(id) by_ now) g), exec t (SConsume g.(id) by_ now))
    | None => (None, t)
    end.
Proof.
  intros Hsel Hwf. rewrite cas_loop_S. destruct (select t) as [g|] eqn:Hg; [|done].
  destruct (Hsel _ eq_refl) as [Hin Ha]. pose proof (elem_lookup _ _ Hwf Hin) as Hl.
  pose proof (consume_update_spec g.(id) by_ now t Hwf) as Hu. rewrite Hl, Ha in Hu.
  pose proof (lookup_exec (SConsume g.(id) by_ now) _ _ _ Hl) as Hx.
  change (exec ?u (SConsume ?i ?b ?n)) with (consume_update i b n u).1 in *.
  change (others (alone 0) t) with t. destruct (consume_update _ _ _ _) as [t' k].
  simpl in Hu, Hx. subst k. by rewrite Hx.
Qed.

(** What a request-bound grant must be. *)
Definition authorises_request (request : string) (now : Z) (g : Grant) : Prop :=
  g.(requestId) = Some request ∧ g.(scopeMode) = scope_request_id ∧ now < g.(expiresAt).

Lemma request_candidate_spec request now g :
  request_candidate request now g = true ↔ is_active g = true ∧ authorises_request request now g.
Proof.
  unfold request_candidate, authorises_request. split.
  - intros H. by bool_to_prop.
  - intros (Ha & Hr & Hm & Hn%Z.ltb_lt). rewrite Hr, Hm, Hn, Ha. by rewrite !bool_decide_true.
Qed.

(** One synchronous attempt: the grant it answers was active and fits the call. *)
Lemma consume_sync_spec p now t :
  grants_wf t →
  match consumeGrantSync p now alone alone t with
  | (Some g, t') =>
      ∃ g0, g0 ∈ t ∧ is_active g0 = true
            ∧ (authorises p now g0 ∨ authorises_request (default "" p.(c_requestId)) now g0)
            ∧ t' = exec t (SConsume g0.(id) p.(c_consumingRequestId) now)
            ∧ g = row_effect (SConsume g0.(id) p.(c_consumingRequestId) now) g0
  | (None, t') => t' = t ∧ ∀ g, g ∈ t → is_active g = true → ¬ authorises p now g
  end.
Proof.
  intros Hwf. unfold consumeGrantSync, consumeScopedApprovalGrantByToolSignature,
    consumeScopedApprovalGrantByRequestId, MAX_CAS_RETRIES.
  assert (∀ g, most_specific (List.filter (signature_candidate p now) t) = Some g →
               g ∈ t ∧ is_active g = true ∧ authorises p now g) as Hsig.
  { intros g [Hin _]%most_specific_spec. apply elem_of_lfilter in Hin as [Hin Hc].
    by apply signature_candidate_spec in Hc as [??]. }
  assert (∀ g, find_first (request_candidate (default "" p.(c_requestId)) now) t = Some g →
               g ∈ t ∧ is_active g = true
               ∧ authorises_request (default "" p.(c_requestId)) now g) as Hreq.
  { intros g [Hin Hc]%find_first_Some. by apply request_candidate_spec in Hc as [??]. }
  pose proof (cas_loop_alone (λ t, most_specific (List.filter (signature_candidate p now) t))
    p.(c_consumingRequestId) now t (λ g Hg, conj (proj1 (Hsig g Hg)) (proj1 (proj2 (Hsig g Hg))))
    Hwf) as Esig.
  pose proof (cas_loop_alone (find_first (request_candidate (default "" p.(c_requestId)) now))
    p.(c_consumingRequestId) now t (λ g Hg, conj (proj1 (Hreq g Hg)) (proj1 (proj2 (Hreq g Hg))))
    Hwf) as Ereq.
  assert (∀ r, r = match most_specific (List.filter (signature_candidate p now) t) with
    | Some g => (Some (row_effect (SConsume g.(id) p.(c_consumingRequestId) now) g),
                 exec t (SConsume g.(id) p.(c_consumingRequestId) now))
    | None => (None, t) end →
    match r with
    | (Some g, t') => ∃ g0, g0 ∈ t ∧ is_active g0 = true
            ∧ (authorises p now g0 ∨ authorises_request (default "" p.(c_requestId)) now g0)
            ∧ t' = exec t (SConsume g0.(id) p.(c_consumingRequestId) now)
            ∧ g = row_effect (SConsume g0.(id) p.(c_consumingRequestId) now) g0
    | (None, t') => t' = t ∧ ∀ g, g ∈ t → is_active g = true → ¬ authorises p now g
    end) as Hfinal.
  { intros r ->. destruct (most_specific _) as [g|] eqn:Hg.
    - destruct (Hsig _ eq_refl) as (? & ? & ?). exists g. auto.
    - split; [done|]. apply most_specific_None in Hg. intros g Hin Ha Hau.
      assert (g ∈ List.filter (signature_candidate p now) t) as He
        by (apply elem_of_lfilter; split; [done|]; by apply signature_candidate_spec).
      rewrite Hg in He. by apply elem_of_nil in He. }
  destruct (blank p.(c_requestId)); [exact (Hfinal _ Esig)|]. rewrite Ereq.
  destruct (find_first (request_candidate _ now) t) as [g|] eqn:Hg; [|exact (Hfinal _ Esig)].
  destruct (Hreq _ eq_refl) as (? & ? & ?). exists g. auto.
Qed.

(** ** Single use *)

(** The identifiers the guarded writes of a sequence of statements took. *)
Fixpoint taken (t : GrantTable) (ss : list Stmt) : list string :=
  match ss with
  | [] => []
  | s :: ss =>
      let rest := taken (exec t s) ss in
      match s with
      | SConsume i by_ now => match (consume_update i by_ now t).2 with O => rest | S _ => i :: rest end
      | _ => rest
      end
  end.

Lemma taken_active t ss i :
  grants_wf t → i ∈ taken t ss →
  match lookup_grant i t with Some g => is_active g = true | None => ∃ g, SInsert g ∈ ss ∧ g.(id) = i end.
Proof.
  revert t. induction ss as [|s ss IH]; intros t Hwf Hi; [by apply elem_of_nil in Hi|].
  assert (i ∈ taken (exec t s) ss →
    match lookup_grant i t with
    | Some g => is_active g = true | None => ∃ g, SInsert g ∈ s :: ss ∧ g.(id) = i end) as Hrest.
  { intros H. apply IH in H; [|by apply exec_wf].
    destruct (lookup_grant i t) as [g|] eqn:Hg.
    - rewrite (lookup_exec s _ _ _ Hg) in H. destruct (is_active g) eqn:Ha; [done|].
      by rewrite row_effect_settled, Ha in H.
    - destruct (lookup_grant i (exec t s)) as [h|] eqn:Hh.
      + rewrite exec_rows in Hh. destruct s as [g'|j b n|n|c n];
          try (unfold lookup_grant in Hh, Hg; rewrite find_first_fmap, Hg in Hh
                 by (intros; apply has_id_effect); done).
        exists g'. split; [by left|]. unfold insert_grant in Hh. destruct (existsb _ _); [simpl in Hh; congruence|].
        simpl in Hh. unfold lookup_grant in *. rewrite find_first_app, Hg in Hh. simpl in Hh.
        destruct (has_id i g') eqn:E; [|done]. by apply has_id_true.
      + destruct H as (h & Hin & Hid). exists h. split; [by right|done]. }
  destruct s as [g|j b n|n|c n]; cbn [taken] in Hi; try exact (Hrest Hi).
  destruct (consume_update j b n t).2 eqn:Hk; [exact (Hrest Hi)|].
  apply elem_of_cons in Hi as [->|Hi]; [|exact (Hrest Hi)].
  pose proof (consume_update_spec j b n t Hwf) as Hu.
  destruct (lookup_grant j t) as [g|]; [destruct (is_active g); [done|]|]; by rewrite Hu in Hk.
Qed.

(** However reads and writes of any number of callers interleave, no grant is
    consumed twice. *)
Lemma taken_once t ss : grants_wf t → NoDup (taken t ss).
Proof.
  revert t. induction ss as [|s ss IH]; intros t Hwf; [constructor|].
  pose proof (IH _ (exec_wf s t Hwf)) as Hrest. destruct s as [g|i b n|n|c n]; cbn [taken]; try done.
  destruct (consume_update i b n t).2 eqn:Hk; [done|]. constructor; [|done].
  intros Hin%taken_active; [|by apply (exec_wf (SConsume i b n))].
  pose proof (consume_update_spec i b n t Hwf) as Hu.
  destruct (lookup_grant i t) as [g|] eqn:Hg; [|by rewrite Hu in Hk].
  destruct (is_active g) eqn:Ha; [|by rewrite Hu in Hk].
  change (consume_update i b n t).1 with (exec t (SConsume i b n)) in Hin.
  rewrite (lookup_exec _ _ _ _ Hg) in Hin. apply lookup_id in Hg as [_ Hid].
  simpl in Hin. apply has_id_true in Hid. by rewrite Hid, Ha in Hin.
Qed.

(** ** Waiting *)

(** A polling consume on the defaults is over after 41 turns, as every turn
    sleeps its interval. *)
Theorem grant_wait_bounded p now start between between' ticks t :
  (∀ n k, ticks !! n = Some k → start + Z.of_nat n * GRANT_RETRY_INTERVAL_MS <= k.(tick_head)) →
  (41 ≤ length ticks)%nat →
  ∃ r, (consumeGrantForInvocation p None now start between between' ticks t).1 = Some r.
Proof.
  intros Hheads Hlen. unfold consumeGrantForInvocation.
  destruct (consumeGrantSync p now between between' t) as [[g|] t']; [by eexists|]. simpl.
  assert (∃ k, k ∈ ticks ∧ start + GRANT_RETRY_MAX_WAIT_MS <= k.(tick_head)) as (k & Hk & Hd).
  { destruct (ticks !! 40%nat) as [k|] eqn:Hk; [|apply lookup_ge_None in Hk; lia].
    exists k. split; [by eapply list_elem_of_lookup_2|]. apply Hheads in Hk.
    unfold GRANT_RETRY_INTERVAL_MS, GRANT_RETRY_MAX_WAIT_MS in *. lia. }
  clear Hheads Hlen. revert t'. induction ticks as [|h ticks IH]; intros t'; [by apply elem_of_nil in Hk|].
  simpl. destruct (Z.leb_spec (start + GRANT_RETRY_MAX_WAIT_MS) h.(tick_head)); [by eexists|].
  destruct h.(abort_before); [by eexists|]. destruct h.(abort_after); [by eexists|].
  destruct (consumeGrantSync _ _ _ _ _) as [[g|] t'']; [by eexists|].
  apply IH. apply elem_of_cons in Hk as [->|?]; [lia|done].
Qed.

(** *** Witnesses *)

Definition sample_mint : CreateParams :=
  {| p_scopeMode := scope_tool_signature; p_requestId := None; p_toolName := Some "bash";
     p_inputDigest := Some "d"; p_requestChannel := "slack"; p_decisionChannel := "vellum";
     p_executionChannel := None; p_conversationId := Some "c"; p_callSessionId := None;
     p_requesterExternalUserId := Some "U1"; p_guardianExternalUserId := None;
     p_expiresAt := 300000 |}.

Definition sample_call : ConsumeParams :=
  {| c_requestId := None; c_toolName := "bash"; c_inputDigest := "d";
     c_consumingRequestId := "r"; c_executionChannel := Some "slack";
     c_conversationId := Some "c"; c_callSessionId := None;
     c_requesterExternalUserId := Some "U1" |}.

Definition sample_table : GrantTable := [grant_row "g1" 0 sample_mint; grant_row "g2" 0 sample_mint].

(** The first candidate is stolen between the read and the write; the second one
    is taken. *)
Example stolen_candidate :
  (id <$> (consumeScopedApprovalGrantByToolSignature sample_call 10
     (λ n, if (n =? 0)%nat then [SConsume "g1" "other" 9] else []) sample_table).1) = Some "g2".
Proof. reflexivity. Qed.

Lemma consume_linearizes_witness :
  ∃ n, (n ≤ 4)%nat ∧
    match consumeScopedApprovalGrantByToolSignature sample_call 10 alone sample_table with
    | (Some g, _) => lookup_grant g.(id) (others (meanwhile alone 0 n) sample_table) ≠ None
    | (None, _) => False
    end.
Proof.
  destruct (consume_linearizes sample_call 10 alone sample_table) as (n & Hn & H).
  { unfold grants_wf. simpl. repeat constructor; set_solver. }
  exists n. split; [done|]. simpl in H |- *. destruct H as (g0 & Hl & _). by rewrite Hl.
Defined.

Lemma grant_wait_bounded_witness :
  ∃ r, (consumeGrantForInvocation sample_call None 0 0 alone alone
          ((λ n, {| tick_head := Z.of_nat n * 250; abort_before := false; during := [];
                    abort_after := false; tick_now := Z.of_nat n * 250 + 250;
                    tick_between := alone; tick_between' := alone |}) <$> seq 0 41) []).1 = Some r.
Proof.
  apply grant_wait_bounded; [|by rewrite length_fmap, length_seq].
  intros n k Hk. apply list_lookup_fmap_Some in Hk as (m & -> & Hm).
  apply lookup_seq in Hm as [-> _]. simpl. unfold GRANT_RETRY_INTERVAL_MS. lia.
Defined.

End Grants.
