(* ===== verification/VerificationSessions.v ===== *)
(** The gateway's store of channel verification sessions
    ([gateway/src/db/session-store.ts]) with the identity a session is bound to
    ([packages/gateway-client/src/verification-session-contract.ts],
    [gateway/src/verification/identity-match.ts]). The table is a list of rows in
    insertion order; every statement takes the time it reads. *)
From S2P Require Import Prelude JsString.

Local Open Scope Z_scope.

(** ** Rows *)

Inductive SessionStatus :=
  | pending | consumed | pending_bootstrap | awaiting_response
  | verified | expired | revoked | locked.

#[export] Instance SessionStatus_eq_dec : EqDecision SessionStatus.
Proof. solve_decision. Defined.

Inductive VerificationPurpose := purpose_guardian | purpose_trusted_contact.

#[export] Instance VerificationPurpose_eq_dec : EqDecision VerificationPurpose.
Proof. solve_decision. Defined.

Inductive IdentityBindingStatus := binding_pending_bootstrap | bound.

#[export] Instance IdentityBindingStatus_eq_dec : EqDecision IdentityBindingStatus.
Proof. solve_decision. Defined.

(** A row; [option] for the columns that may be NULL. *)
Record VerificationSession := {
  id : string;
  channel : string;
  challengeHash : string;
  expiresAt : Z;
  status : SessionStatus;
  sourceConversationId : option string;
  consumedByExternalUserId : option string;
  consumedByChatId : option string;
  expectedExternalUserId : option string;
  expectedChatId : option string;
  expectedPhoneE164 : option string;
  identityBindingStatus : option IdentityBindingStatus;
  destinationAddress : option string;
  lastSentAt : option Z;
  sendCount : option Z;
  nextResendAt : option Z;
  codeDigits : option Z;
  maxAttempts : option Z;
  verificationPurpose : option VerificationPurpose;
  bootstrapTokenHash : option string;
  createdAt : Z;
  updatedAt : Z
}.

Definition Sessions := list VerificationSession.

(** [rowToSession]: the defaults of the columns that have one. *)
Definition rowToSession (r : VerificationSession) : VerificationSession :=
  {| id := r.(id); channel := r.(channel); challengeHash := r.(challengeHash);
     expiresAt := r.(expiresAt); status := r.(status);
     sourceConversationId := r.(sourceConversationId);
     consumedByExternalUserId := r.(consumedByExternalUserId);
     consumedByChatId := r.(consumedByChatId);
     expectedExternalUserId := r.(expectedExternalUserId);
     expectedChatId := r.(expectedChatId); expectedPhoneE164 := r.(expectedPhoneE164);
     identityBindingStatus := r.(identityBindingStatus);
     destinationAddress := r.(destinationAddress); lastSentAt := r.(lastSentAt);
     sendCount := Some (default 0 r.(sendCount)); nextResendAt := r.(nextResendAt);
     codeDigits := Some (default 6 r.(codeDigits));
     maxAttempts := Some (default 3 r.(maxAttempts));
     verificationPurpose := Some (default purpose_guardian r.(verificationPurpose));
     bootstrapTokenHash := r.(bootstrapTokenHash);
     createdAt := r.(createdAt); updatedAt := r.(updatedAt) |}.

Definition INTERCEPTABLE_STATUSES : list SessionStatus :=
  [pending; pending_bootstrap; awaiting_response].
Definition OUTBOUND_LIVE_STATUSES : list SessionStatus :=
  [pending_bootstrap; awaiting_response].

Definition interceptable (r : VerificationSession) : bool :=
  mem r.(status) INTERCEPTABLE_STATUSES.
Definition outbound_live (r : VerificationSession) : bool :=
  mem r.(status) OUTBOUND_LIVE_STATUSES.

(** [SET status = s, updated_at = now] *)
Definition set_status (s : SessionStatus) (now : Z) (r : VerificationSession)
    : VerificationSession :=
  {| id := r.(id); channel := r.(channel); challengeHash := r.(challengeHash);
     expiresAt := r.(expiresAt); status := s;
     sourceConversationId := r.(sourceConversationId);
     consumedByExternalUserId := r.(consumedByExternalUserId);
     consumedByChatId := r.(consumedByChatId);
     expectedExternalUserId := r.(expectedExternalUserId);
     expectedChatId := r.(expectedChatId); expectedPhoneE164 := r.(expectedPhoneE164);
     identityBindingStatus := r.(identityBindingStatus);
     destinationAddress := r.(destinationAddress); lastSentAt := r.(lastSentAt);
     sendCount := r.(sendCount); nextResendAt := r.(nextResendAt);
     codeDigits := r.(codeDigits); maxAttempts := r.(maxAttempts);
     verificationPurpose := r.(verificationPurpose);
     bootstrapTokenHash := r.(bootstrapTokenHash);
     createdAt := r.(createdAt); updatedAt := now |}.

(** [SET consumed_by_* = ...] where given *)
Definition set_consumer (user chat : option string) (r : VerificationSession)
    : VerificationSession :=
  {| id := r.(id); channel := r.(channel); challengeHash := r.(challengeHash);
     expiresAt := r.(expiresAt); status := r.(status);
     sourceConversationId := r.(sourceConversationId);
     consumedByExternalUserId :=
       match user with Some _ => user | None => r.(consumedByExternalUserId) end;
     consumedByChatId := match chat with Some _ => chat | None => r.(consumedByChatId) end;
     expectedExternalUserId := r.(expectedExternalUserId);
     expectedChatId := r.(expectedChatId); expectedPhoneE164 := r.(expectedPhoneE164);
     identityBindingStatus := r.(identityBindingStatus);
     destinationAddress := r.(destinationAddress); lastSentAt := r.(lastSentAt);
     sendCount := r.(sendCount); nextResendAt := r.(nextResendAt);
     codeDigits := r.(codeDigits); maxAttempts := r.(maxAttempts);
     verificationPurpose := r.(verificationPurpose);
     bootstrapTokenHash := r.(bootstrapTokenHash);
     createdAt := r.(createdAt); updatedAt := r.(updatedAt) |}.

(** [UPDATE ... SET f WHERE p] *)
Definition update_rows (p : VerificationSession → bool)
    (f : VerificationSession → VerificationSession) (t : Sessions) : Sessions :=
  (λ r, if p r then f r else r) <$> t.

Definition has_id (sessionId : string) (r : VerificationSession) : bool :=
  String.eqb r.(id) sessionId.

(** [INSERT]: refused when the primary key is taken. *)
Definition insert_row (r : VerificationSession) (t : Sessions) : option Sessions :=
  if existsb (has_id r.(id)) t then None else Some (t ++ [r]).

(** ** The identity of a session *)

Inductive IdentityField := field_phoneE164 | field_externalUserId | field_chatId.

#[export] Instance IdentityField_eq_dec : EqDecision IdentityField.
Proof. solve_decision. Defined.

Definition BoundIdentity : Type := IdentityField * string.

Definition bound_identity_of (phone user chat : option string) : option BoundIdentity :=
  match phone, user, chat with
  | Some v, _, _ => Some (field_phoneE164, v)
  | None, Some v, _ => Some (field_externalUserId, v)
  | None, None, Some v => Some (field_chatId, v)
  | None, None, None => None
  end.

Definition boundIdentity (session : VerificationSession) : option BoundIdentity :=
  bound_identity_of session.(expectedPhoneE164) session.(expectedExternalUserId)
    session.(expectedChatId).

Definition bindsSameIdentity (a b : option BoundIdentity) : bool :=
  match a, b with Some a, Some b => bool_decide (a = b) | _, _ => false end.

Definition checkIdentityMatch (session : VerificationSession)
    (actorExternalUserId actorChatId : string) : bool :=
  match boundIdentity session with
  | None => true
  | Some (field, value) =>
      if negb (bool_decide (session.(identityBindingStatus) = Some bound)) then true
      else match field with
           | field_chatId => String.eqb actorChatId value
           | _ => String.eqb actorExternalUserId value
           end
  end.

(** ** Statements *)

Definition pending_on (ch : string) (r : VerificationSession) : bool :=
  String.eqb r.(channel) ch && bool_decide (r.(status) = pending).

Definition revokePendingSessions (ch : string) (now : Z) (t : Sessions) : Sessions :=
  update_rows (pending_on ch) (set_status revoked now) t.

Record InboundParams := {
  in_id : string; in_channel : string; in_challengeHash : string; in_expiresAt : Z;
  in_sourceConversationId : option string
}.

Definition inbound_row (p : InboundParams) (now : Z) : VerificationSession :=
  {| id := p.(in_id); channel := p.(in_channel); challengeHash := p.(in_challengeHash);
     expiresAt := p.(in_expiresAt); status := pending;
     sourceConversationId := p.(in_sourceConversationId);
     consumedByExternalUserId := None; consumedByChatId := None;
     expectedExternalUserId := None; expectedChatId := None; expectedPhoneE164 := None;
     identityBindingStatus := None; destinationAddress := None; lastSentAt := None;
     sendCount := Some 0; nextResendAt := None; codeDigits := Some 6; maxAttempts := Some 3;
     verificationPurpose := Some purpose_guardian; bootstrapTokenHash := None;
     createdAt := now; updatedAt := now |}.

(** Two statements without a transaction: when the insert throws ([None]), the
    revocations stay. *)
Definition createInboundSession (p : InboundParams) (now : Z) (t : Sessions)
    : Sessions * option VerificationSession :=
  let t := update_rows (pending_on p.(in_channel)) (set_status revoked now) t in
  match insert_row (inbound_row p now) t with
  | Some t => (t, Some (rowToSession (inbound_row p now)))
  | None => (t, None)
  end.

(** [.get()] on a query without an order: SQLite answers some row that matches;
    here the first one inserted. *)
Definition findPendingSessionByHash (ch hash : string) (now : Z) (t : Sessions)
    : option VerificationSession :=
  rowToSession <$>
  find_first (λ r, String.eqb r.(channel) ch && String.eqb r.(challengeHash) hash
                   && interceptable r && (now <? r.(expiresAt))) t.

Definition findPendingSessionForChannel (ch : string) (now : Z) (t : Sessions)
    : option VerificationSession :=
  rowToSession <$> find_first (λ r, pending_on ch r && (now <? r.(expiresAt))) t.

Record SessionFilter := {
  filter_expectedExternalUserId : option string;
  filter_verificationPurpose : option VerificationPurpose
}.

Definition no_filter : SessionFilter :=
  {| filter_expectedExternalUserId := None; filter_verificationPurpose := None |}.

(** An empty user id is falsy and does not filter. *)
Definition passes_filter (f : SessionFilter) (r : VerificationSession) : bool :=
  match f.(filter_expectedExternalUserId) with
  | Some u => if truthy u then bool_decide (r.(expectedExternalUserId) = Some u) else true
  | None => true
  end
  && match f.(filter_verificationPurpose) with
     | Some p => bool_decide (r.(verificationPurpose) = Some p)
     | None => true
     end.

(** [ORDER BY created_at DESC, rowid DESC]: a later row wins a tie. *)
Definition later_of (best : option VerificationSession) (r : VerificationSession)
    : option VerificationSession :=
  match best with
  | Some b => if r.(createdAt) <? b.(createdAt) then best else Some r
  | None => Some r
  end.

Definition findLatestSessionByStatuses (ch : string) (statuses : list SessionStatus)
    (f : SessionFilter) (now : Z) (t : Sessions) : option VerificationSession :=
  rowToSession <$>
  foldl later_of None
    (List.filter (λ r, String.eqb r.(channel) ch && mem r.(status) statuses
                       && (now <? r.(expiresAt)) && passes_filter f r) t).

Definition findActiveSession (ch : string) (f : SessionFilter) (now : Z) (t : Sessions)
    : option VerificationSession :=
  findLatestSessionByStatuses ch OUTBOUND_LIVE_STATUSES f now t.

Definition hasInterceptableSession (ch : string) (now : Z) (t : Sessions) : bool :=
  existsb (λ r, String.eqb r.(channel) ch && interceptable r && (now <? r.(expiresAt))) t.

(** The number of rows the guarded UPDATE changes is what decides. *)
Definition consumeSession (sessionId actorExternalUserId actorChatId : string) (consumedAt : Z)
    (t : Sessions) : Sessions * bool :=
  let matches r := has_id sessionId r && interceptable r in
  (update_rows matches
     (λ r, set_consumer (Some actorExternalUserId) (Some actorChatId)
             (set_status consumed consumedAt r)) t,
   existsb matches t).

Definition claimBootstrapSession (sessionId ch : string) (now : Z) (t : Sessions)
    : Sessions * option VerificationSession :=
  let matches r := has_id sessionId r && String.eqb r.(channel) ch
                   && bool_decide (r.(status) = pending_bootstrap) in
  (update_rows matches (set_status revoked now) t,
   (λ r, rowToSession (set_status revoked now r)) <$> find_first matches t).

Definition revokeSameIdentityOutbound (ch : string) (identity : option BoundIdentity) (now : Z)
    (t : Sessions) : Sessions :=
  match identity with
  | None => t
  | Some _ =>
      let live := List.filter (λ r, String.eqb r.(channel) ch && outbound_live r) t in
      let superseded :=
        id <$> List.filter (λ r, bindsSameIdentity (boundIdentity r) identity) live in
      update_rows (λ r, mem r.(id) superseded) (set_status revoked now) t
  end.

Record OutboundParams := {
  out_id : string; out_channel : string; out_challengeHash : string; out_expiresAt : Z;
  out_status : SessionStatus; out_sourceConversationId : option string;
  out_expectedExternalUserId : option string; out_expectedChatId : option string;
  out_expectedPhoneE164 : option string;
  out_identityBindingStatus : option IdentityBindingStatus;
  out_destinationAddress : option string; out_codeDigits : option Z;
  out_maxAttempts : option Z; out_verificationPurpose : option VerificationPurpose;
  out_bootstrapTokenHash : option string
}.

Definition outbound_row (p : OutboundParams) (now : Z) : VerificationSession :=
  {| id := p.(out_id); channel := p.(out_channel); challengeHash := p.(out_challengeHash);
     expiresAt := p.(out_expiresAt); status := p.(out_status);
     sourceConversationId := p.(out_sourceConversationId);
     consumedByExternalUserId := None; consumedByChatId := None;
     expectedExternalUserId := p.(out_expectedExternalUserId);
     expectedChatId := p.(out_expectedChatId); expectedPhoneE164 := p.(out_expectedPhoneE164);
     identityBindingStatus := Some (default bound p.(out_identityBindingStatus));
     destinationAddress := p.(out_destinationAddress); lastSentAt := None;
     sendCount := Some 0; nextResendAt := None;
     codeDigits := Some (default 6 p.(out_codeDigits));
     maxAttempts := Some (default 3 p.(out_maxAttempts));
     verificationPurpose := Some (default purpose_guardian p.(out_verificationPurpose));
     bootstrapTokenHash := p.(out_bootstrapTokenHash);
     createdAt := now; updatedAt := now |}.

Definition createOutboundSession (p : OutboundParams) (now : Z) (t : Sessions)
    : Sessions * option VerificationSession :=
  let identity := bound_identity_of p.(out_expectedPhoneE164) p.(out_expectedExternalUserId)
                    p.(out_expectedChatId) in
  let t := revokeSameIdentityOutbound p.(out_channel) identity now t in
  match insert_row (outbound_row p now) t with
  | Some t => (t, Some (rowToSession (outbound_row p now)))
  | None => (t, None)
  end.

Definition getSessionById (sessionId : string) (t : Sessions) : option VerificationSession :=
  rowToSession <$> find_first (has_id sessionId) t.

Definition findSessionByBootstrapTokenHash (ch tokenHash : string) (now : Z) (t : Sessions)
    : option VerificationSession :=
  rowToSession <$>
  find_first (λ r, String.eqb r.(channel) ch
                   && bool_decide (r.(bootstrapTokenHash) = Some tokenHash)
                   && bool_decide (r.(status) = pending_bootstrap) && (now <? r.(expiresAt))) t.

Definition updateSessionStatus (sessionId : string) (s : SessionStatus)
    (user chat : option string) (now : Z) (t : Sessions) : Sessions :=
  update_rows (has_id sessionId) (λ r, set_consumer user chat (set_status s now r)) t.

Definition set_delivery (sentAt count : Z) (next : option Z) (now : Z) (r : VerificationSession)
    : VerificationSession :=
  {| id := r.(id); channel := r.(channel); challengeHash := r.(challengeHash);
     expiresAt := r.(expiresAt); status := r.(status);
     sourceConversationId := r.(sourceConversationId);
     consumedByExternalUserId := r.(consumedByExternalUserId);
     consumedByChatId := r.(consumedByChatId);
     expectedExternalUserId := r.(expectedExternalUserId);
     expectedChatId := r.(expectedChatId); expectedPhoneE164 := r.(expectedPhoneE164);
     identityBindingStatus := r.(identityBindingStatus);
     destinationAddress := r.(destinationAddress); lastSentAt := Some sentAt;
     sendCount := Some count; nextResendAt := next;
     codeDigits := r.(codeDigits); maxAttempts := r.(maxAttempts);
     verificationPurpose := r.(verificationPurpose);
     bootstrapTokenHash := r.(bootstrapTokenHash);
     createdAt := r.(createdAt); updatedAt := now |}.

Definition updateSessionDelivery (sessionId : string) (sentAt count : Z) (next : option Z)
    (now : Z) (t : Sessions) : Sessions :=
  update_rows (has_id sessionId) (set_delivery sentAt count next now) t.

Definition countRecentSendsToDestination (ch destination : string) (windowMs now : Z)
    (t : Sessions) : nat :=
  length (List.filter (λ r, String.eqb r.(channel) ch
    && bool_decide (r.(destinationAddress) = Some destination)
    && match r.(lastSentAt) with Some s => now - windowMs <=? s | None => false end) t).

Definition set_identity (user chat : string) (now : Z) (r : VerificationSession)
    : VerificationSession :=
  {| id := r.(id); channel := r.(channel); challengeHash := r.(challengeHash);
     expiresAt := r.(expiresAt); status := r.(status);
     sourceConversationId := r.(sourceConversationId);
     consumedByExternalUserId := r.(consumedByExternalUserId);
     consumedByChatId := r.(consumedByChatId);
     expectedExternalUserId := Some user; expectedChatId := Some chat;
     expectedPhoneE164 := r.(expectedPhoneE164); identityBindingStatus := Some bound;
     destinationAddress := r.(destinationAddress); lastSentAt := r.(lastSentAt);
     sendCount := r.(sendCount); nextResendAt := r.(nextResendAt);
     codeDigits := r.(codeDigits); maxAttempts := r.(maxAttempts);
     verificationPurpose := r.(verificationPurpose);
     bootstrapTokenHash := r.(bootstrapTokenHash);
     createdAt := r.(createdAt); updatedAt := now |}.

Definition bindSessionIdentity (sessionId user chat : string) (now : Z) (t : Sessions) : Sessions :=
  update_rows (has_id sessionId) (set_identity user chat now) t.

(** One statement or group of statements of the store. *)
Inductive SessionCall :=
  | CreateInbound (p : InboundParams) (now : Z)
  | CreateOutbound (p : OutboundParams) (now : Z)
  | RevokePending (ch : string) (now : Z)
  | Consume (sessionId user chat : string) (now : Z)
  | ClaimBootstrap (sessionId ch : string) (now : Z)
  | UpdateStatus (sessionId : string) (s : SessionStatus) (user chat : option string) (now : Z)
  | UpdateDelivery (sessionId : string) (sentAt count : Z) (next : option Z) (now : Z)
  | BindIdentity (sessionId user chat : string) (now : Z).

Definition session_step (t : Sessions) (call : SessionCall) : Sessions :=
  match call with
  | CreateInbound p now => (createInboundSession p now t).1
  | CreateOutbound p now => (createOutboundSession p now t).1
  | RevokePending ch now => revokePendingSessions ch now t
  | Consume sessionId user chat now => (consumeSession sessionId user chat now t).1
  | ClaimBootstrap sessionId ch now => (claimBootstrapSession sessionId ch now t).1
  | UpdateStatus sessionId s user chat now => updateSessionStatus sessionId s user chat now t
  | UpdateDelivery sessionId sentAt count next now =>
      updateSessionDelivery sessionId sentAt count next now t
  | BindIdentity sessionId user chat now => bindSessionIdentity sessionId user chat now t
  end.

(** The call that can make a spent session redeemable again. *)
Definition reopens (sessionId : string) (call : SessionCall) : bool :=
  match call with
  | UpdateStatus i s _ _ _ => String.eqb i sessionId && mem s INTERCEPTABLE_STATUSES
  | _ => false
  end.

(** ** A code is redeemed once *)

Definition spent (sessionId : string) (t : Sessions) : Prop :=
  (∃ r, r ∈ t ∧ r.(id) = sessionId) ∧
  ∀ r, r ∈ t → r.(id) = sessionId → interceptable r = false.

Lemma elem_update_where p f t r :
  r ∈ update_rows p f t ↔ ∃ r0, r0 ∈ t ∧ r = if p r0 then f r0 else r0.
Proof. unfold update_rows. rewrite list_elem_of_fmap. naive_solver. Qed.

Lemma update_spent sessionId p f t :
  (∀ r, (f r).(id) = r.(id)) →
  (∀ r, r.(id) = sessionId → interceptable r = false → p r = true → interceptable (f r) = false) →
  spent sessionId t → spent sessionId (update_rows p f t).
Proof.
  intros Hid Hf [(r & Hr & Hrid) Hall]. split.
  - exists (if p r then f r else r). split; [apply elem_update_where; eauto|].
    destruct (p r); [by rewrite Hid|done].
  - intros r' (r0 & Hr0 & ->)%elem_update_where Hrid'. destruct (p r0) eqn:Hp.
    + rewrite Hid in Hrid'. apply Hf; [done| |done]. by apply Hall.
    + by apply Hall.
Qed.

Lemma insert_spent sessionId r t t' :
  insert_row r t = Some t' → spent sessionId t → spent sessionId t'.
Proof.
  unfold insert_row. destruct (existsb _ t) eqn:E; [done|]. intros [= <-].
  rewrite existsb_false in E. intros [(r0 & Hr0 & Hid) Hall]. split.
  - exists r0. split; [apply elem_of_app; by left|done].
  - intros x [Hx | ->%list_elem_of_singleton]%elem_of_app Hxid; [by apply Hall|].
    specialize (E r0 Hr0). unfold has_id in E. apply String.eqb_neq in E. congruence.
Qed.

Lemma step_spent sessionId t call :
  reopens sessionId call = false → spent sessionId t → spent sessionId (session_step t call).
Proof.
  intros Hcall Ht. destruct call; simpl in *.
  - unfold createInboundSession.
    assert (H : spent sessionId (update_rows (pending_on (in_channel p)) (set_status revoked now) t))
      by (apply update_spent; done).
    destruct (insert_row _ _) eqn:E; [|done]. by apply (insert_spent sessionId _ _ _ E).
  - unfold createOutboundSession, revokeSameIdentityOutbound.
    match goal with |- context [insert_row _ ?t'] => assert (H : spent sessionId t') end.
    { destruct (bound_identity_of _ _ _); [|done]. by apply update_spent. }
    destruct (insert_row _ _) eqn:E; [|done]. by apply (insert_spent sessionId _ _ _ E).
  - by apply update_spent.
  - by apply update_spent.
  - by apply update_spent.
  - unfold updateSessionStatus. apply update_spent; [done| |done].
    intros r Hr _ Hp. unfold has_id in Hp. apply String.eqb_eq in Hp. unfold interceptable. simpl.
    assert (sessionId0 = sessionId) as -> by congruence.
    by rewrite String.eqb_refl in Hcall.
  - by apply update_spent.
  - by apply update_spent.
Qed.


(** A consumed session is spent. *)
Lemma consume_spent sessionId user chat now t t' :
  consumeSession sessionId user chat now t = (t', true) → spent sessionId t'.
Proof.
  unfold consumeSession. intros [= <- Hex].
  apply existsb_true in Hex as (r & Hr & [Hid Hint]%andb_prop).
  apply String.eqb_eq in Hid. split.
  - eexists. split; [apply elem_update_where; eauto|]. by destruct (_ && _).
  - intros x (r0 & Hr0 & ->)%elem_update_where Hx.
    destruct (has_id sessionId r0 && interceptable r0) eqn:E; [done|].
    apply andb_false_iff in E as [E|E]; [|done]. by apply String.eqb_neq in E.
Qed.

(** What is spent stays so, whatever else happens to the store. *)
Lemma steps_spent sessionId calls t :
  Forall (λ call, reopens sessionId call = false) calls →
  spent sessionId t → spent sessionId (foldl session_step t calls).
Proof.
  intros Hcalls. revert t. induction Hcalls as [|call calls Hcall _ IH]; intros t Ht; [done|].
  simpl. apply IH. by apply step_spent.
Qed.

(** A code is spent by whoever redeems it first: after a successful consume of a
    session, whatever other actors do to the store, no later consume of it
    succeeds and no lookup by code offers it again, unless the session is
    explicitly put back to a redeemable status. *)
Theorem code_redeemed_once sessionId user chat now0 t t' calls user' chat' now ch hash s :
  consumeSession sessionId user chat now0 t = (t', true) →
  Forall (λ call, reopens sessionId call = false) calls →
  (consumeSession sessionId user' chat' now (foldl session_step t' calls)).2 = false
  ∧ (findPendingSessionByHash ch hash now (foldl session_step t' calls) = Some s →
     s.(id) ≠ sessionId).
Proof.
  intros Hcons Hcalls.
  pose proof (steps_spent _ _ _ Hcalls (consume_spent _ _ _ _ _ _ Hcons)) as Hend.
  destruct Hend as [_ Hall]. split.
  - simpl. apply existsb_false. intros r Hr. destruct (has_id sessionId r) eqn:E; [|done].
    apply String.eqb_eq in E. by rewrite (Hall r Hr E).
  - unfold findPendingSessionByHash. destruct (find_first _ _) as [r|] eqn:E; [|done].
    intros [= <-] Hid. apply find_first_Some in E as [Hr Hp]. simpl in Hid.
    rewrite (Hall r Hr Hid) in Hp. by rewrite andb_false_r in Hp.
Qed.

(** ** Only the latest code of an identity is live *)

Lemma bindsSameIdentity_spec a b :
  bindsSameIdentity a b = true ↔ a = b ∧ is_Some a.
Proof.
  destruct a, b; simpl; rewrite ?bool_decide_eq_true; [|split; [done|by intros [? [? ?]]]..].
  split; [intros ->; eauto|by intros [[= ->] _]].
Qed.

(** Minting a code for an identity kills every earlier outbound code of that
    identity on the channel, bound by the same rule that decides who may redeem:
    what is live for it afterwards is the new session alone. *)
Theorem outbound_supersedes p now t t' s identity r :
  createOutboundSession p now t = (t', Some s) →
  bound_identity_of p.(out_expectedPhoneE164) p.(out_expectedExternalUserId)
    p.(out_expectedChatId) = Some identity →
  r ∈ t' → r.(channel) = p.(out_channel) → outbound_live r = true →
  boundIdentity r = Some identity → r = outbound_row p now.
Proof.
  intros Hcreate Heq Hr Hch Hlive Hid. revert Hcreate. unfold createOutboundSession.
  rewrite Heq. unfold insert_row. destruct (existsb _ _); [done|]. intros [= <- _].
  apply elem_of_app in Hr as [Hr | ->%list_elem_of_singleton]; [exfalso|done].
  simpl in Hr. apply elem_update_where in Hr as (r0 & Hr0 & ->).
  destruct (mem (id r0) _) eqn:E; [done|]. apply mem_false in E. apply E.
  apply list_elem_of_fmap_2, elem_of_lfilter. split.
  - apply elem_of_lfilter. rewrite Hch, String.eqb_refl, Hlive. done.
  - apply bindsSameIdentity_spec. rewrite Hid. eauto.
Qed.

(** ** Witnesses *)

Definition sample_mint (sessionId hash : string) : OutboundParams :=
  {| out_id := sessionId; out_channel := "slack"; out_challengeHash := hash;
     out_expiresAt := 600000; out_status := awaiting_response;
     out_sourceConversationId := None; out_expectedExternalUserId := Some "U1";
     out_expectedChatId := Some "D1"; out_expectedPhoneE164 := None;
     out_identityBindingStatus := None; out_destinationAddress := None;
     out_codeDigits := None; out_maxAttempts := None;
     out_verificationPurpose := Some purpose_trusted_contact; out_bootstrapTokenHash := None |}.

Definition two_mints : Sessions :=
  foldl session_step [] [CreateOutbound (sample_mint "s1" "h1") 0; CreateOutbound (sample_mint "s2" "h2") 5].

Lemma code_redeemed_once_witness :
  let t' := (consumeSession "s2" "U1" "D1" 10 two_mints).1 in
  (consumeSession "s2" "U2" "D2" 20
     (foldl session_step t' [UpdateDelivery "s2" 11 1 None 11; RevokePending "slack" 12])).2 = false
  ∧ (findPendingSessionByHash "slack" "h2" 20
       (foldl session_step t' [UpdateDelivery "s2" 11 1 None 11; RevokePending "slack" 12])
     = Some (outbound_row (sample_mint "s2" "h2") 5) →
     (outbound_row (sample_mint "s2" "h2") 5).(id) ≠ "s2").
Proof.
  apply (code_redeemed_once "s2" "U1" "D1" 10 two_mints _
    [UpdateDelivery "s2" 11 1 None 11; RevokePending "slack" 12]); [reflexivity|].
  repeat constructor.
Defined.

Lemma outbound_supersedes_witness :
  outbound_live <$> two_mints = [false; true]
  ∧ outbound_row (sample_mint "s2" "h2") 5 = outbound_row (sample_mint "s2" "h2") 5.
Proof.
  split; [reflexivity|].
  apply (outbound_supersedes (sample_mint "s2" "h2") 5
    (session_step [] (CreateOutbound (sample_mint "s1" "h1") 0)) two_mints
    (rowToSession (outbound_row (sample_mint "s2" "h2") 5)) (field_externalUserId, "U1"));
    [reflexivity|reflexivity| |reflexivity|reflexivity|reflexivity].
  apply list_elem_of_In. right. left. reflexivity.
Defined.
