(* ===== verification/VerificationFlow.v ===== *)
(** Redeeming a verification code over text and voice
    ([gateway/src/verification/text-verification.ts],
    [gateway/src/voice/verification.ts]), with the parsing of codes
    ([verification/code-parsing.ts]), the canonical form of a sender
    ([verification/identity.ts]) and the rate limit
    ([verification/rate-limit-helpers.ts]). Arguments: the hash of a secret (SHA-256
    of node's crypto module) and whether the contact store accepts a verified
    actor. A handler reads the clock once. *)
From stdpp Require Import pretty.
From S2P Require Import Prelude JsString VerificationSessions.

Local Open Scope Z_scope.

(** ** The canonical form of a sender *)

Definition is_digit (c : ascii) : bool :=
  let n := nat_of_ascii c in ((48 <=? n) && (n <=? 57))%nat.

Fixpoint all_chars (p : ascii → bool) (s : string) : bool :=
  match s with EmptyString => true | String c s => p c && all_chars p s end.

Fixpoint filter_chars (p : ascii → bool) (s : string) : string :=
  match s with
  | EmptyString => EmptyString
  | String c s => if p c then String c (filter_chars p s) else filter_chars p s
  end.

(** [replace(/\(0\)/g, "")] *)
Fixpoint drop_trunk_zero (s : string) : string :=
  match s with
  | String "(" (String "0" (String ")" rest)) => drop_trunk_zero rest
  | String c rest => String c (drop_trunk_zero rest)
  | EmptyString => EmptyString
  end.

Definition phone_separator (c : ascii) : bool :=
  is_space c || mem c ["-"; "("; ")"; "."]%char.

Definition plus (s : string) : string := String "+" s.

Definition normalizePhoneNumber (input : string) : option string :=
  let stripped := filter_chars (λ c, negb (phone_separator c)) (drop_trunk_zero input) in
  match stripped with
  | EmptyString => None
  | String "+" digits =>
      if all_chars is_digit digits && (10 <=? String.length digits)%nat
         && (String.length digits <=? 15)%nat
      then Some stripped else None
  | String c _ =>
      if negb (all_chars is_digit stripped) then None
      else if (String.length stripped =? 10)%nat then Some (plus (String "1" stripped))
      else if (String.length stripped =? 11)%nat && Ascii.eqb c "1" then Some (plus stripped)
      else None
  end.

Inductive IdentityKind := kind_phone | kind_email | kind_opaque.

Definition identityKindFor (ch : string) : IdentityKind :=
  if mem ch ["phone"; "whatsapp"] then kind_phone
  else if mem ch ["email"] then kind_email else kind_opaque.

Definition canonicalizeIdentityAs (kind : IdentityKind) (rawId : string) : option string :=
  let trimmed := trim rawId in
  if negb (truthy trimmed) then None
  else match kind with
       | kind_phone => Some (default trimmed (normalizePhoneNumber trimmed))
       | kind_email => Some (to_lower trimmed)
       | kind_opaque => Some trimmed
       end.

Definition canonicalizeInboundIdentity (ch rawId : string) : option string :=
  canonicalizeIdentityAs (identityKindFor ch) rawId.

(** ** Codes *)

Definition is_hex (c : ascii) : bool :=
  is_digit c || (let n := nat_of_ascii (to_lower_char c) in ((97 <=? n) && (n <=? 102))%nat).

Definition mrkdwn (c : ascii) : bool := mem c ["*"; "_"; "~"; "`"]%char.

Fixpoint strip_leading (p : ascii → bool) (s : string) : string :=
  match s with
  | String c rest => if p c then strip_leading p rest else s
  | EmptyString => EmptyString
  end.

Fixpoint strip_ending (p : ascii → bool) (s : string) : string :=
  match s with
  | String c rest =>
      match strip_ending p rest with
      | EmptyString => if p c then EmptyString else String c EmptyString
      | r => String c r
      end
  | EmptyString => EmptyString
  end.

Definition stripMrkdwnFormatting (text : string) : string :=
  strip_ending mrkdwn (strip_leading mrkdwn text).

Definition parseVerificationCode (content : string) : option string :=
  let stripped := stripMrkdwnFormatting (trim content) in
  if all_chars is_hex stripped && (String.length stripped =? 64)%nat
     || all_chars is_digit stripped && (String.length stripped =? 6)%nat
  then Some stripped else None.

(** ** The quoted part of an email *)

Definition newline : ascii := ascii_of_nat 10.
Definition carriage_return : ascii := ascii_of_nat 13.

(** [body.split(/\r?\n/)]: a line break takes the carriage return before it. *)
Definition drop_cr (line : string) : string :=
  if ends_with line (String carriage_return EmptyString) then slice_drop_last 1 line else line.

Fixpoint break_lines (lines : list string) : list string :=
  match lines with
  | [] => []
  | [last] => [last]
  | line :: rest => drop_cr line :: break_lines rest
  end.

Definition email_lines (body : string) : list string := break_lines (split_char newline body).

(** [/^On .+ wrote:\s*$/] *)
Definition wrote_line (line : string) : bool :=
  let l := trim_end line in
  starts_with l "On " && ends_with l " wrote:"
  && (11 <=? String.length l)%nat
  && negb (includes_char (slice_to (String.length l - 7) l) carriage_return).

(** [/^-{2,}\s*(Original Message|Forwarded message)/i] *)
Definition forwarded_line (line : string) : bool :=
  starts_with line "--"
  && (let l := to_lower (strip_leading is_space (strip_leading (λ c, Ascii.eqb c "-") line)) in
      starts_with l "original message" || starts_with l "forwarded message").

(** [/^(From|Sent|To|Subject):\s/i] *)
Definition header_line (line : string) : bool :=
  existsb (λ h, starts_with (to_lower line) h
                && match slice_from (String.length h) line with
                   | String c _ => is_space c
                   | EmptyString => false
                   end) ["from:"; "sent:"; "to:"; "subject:"].

(** The loop; [fresh] tells whether a line has been kept. *)
Fixpoint fresh_lines (fresh : bool) (lines : list string) : list string :=
  match lines with
  | [] => []
  | line :: rest =>
      if starts_with line ">" || wrote_line line || forwarded_line line
         || String.eqb line "-- " || String.eqb line "--" || (header_line line && fresh)
      then [] else line :: fresh_lines true rest
  end.

Definition extractEmailReplyBody (body : string) : string :=
  trim (join (String newline EmptyString) (fresh_lines false (email_lines body))).

(** ** The rate limit *)

Definition RATE_LIMIT_MAX_ATTEMPTS : nat := 5.
Definition RATE_LIMIT_WINDOW_MS : Z := 15 * 60 * 1000.
Definition RATE_LIMIT_LOCKOUT_MS : Z := 30 * 60 * 1000.

(** Channel, actor and chat: the table's unique index. *)
Definition ActorKey : Type := string * string * string.

Record RateLimit := {
  attemptTimestamps : list Z;
  lockedUntil : option Z
}.

Notation RateLimits := (gmap ActorKey RateLimit).

Definition isRateLimited (key : ActorKey) (now : Z) (t : RateLimits) : bool :=
  match t !! key with
  | Some r => match r.(lockedUntil) with Some l => now <? l | None => false end
  | None => false
  end.

(** [INSERT ... ON CONFLICT DO UPDATE]: both subqueries read the old row. *)
Definition recordInvalidAttempt (key : ActorKey) (now : Z) (t : RateLimits) : RateLimits :=
  let cutoff := now - RATE_LIMIT_WINDOW_MS in
  match t !! key with
  | None => <[key := {| attemptTimestamps := [now]; lockedUntil := None |}]> t
  | Some r =>
      let attempts := List.filter (λ v, cutoff <? v) r.(attemptTimestamps) ++ [now] in
      <[key := {| attemptTimestamps := attempts;
                  lockedUntil := if (RATE_LIMIT_MAX_ATTEMPTS <=? length attempts)%nat
                                 then Some (now + RATE_LIMIT_LOCKOUT_MS)
                                 else r.(lockedUntil) |}]> t
  end.

(** [UPDATE]: nothing when the actor has no row. *)
Definition resetRateLimit (key : ActorKey) (t : RateLimits) : RateLimits :=
  match t !! key with
  | Some _ => <[key := {| attemptTimestamps := []; lockedUntil := None |}]> t
  | None => t
  end.

(** ** Redemption *)

Record VerificationState := { sessions : Sessions; limits : RateLimits }.

Section Redemption.
Context (hash : string → string)
        (contactAccepts : VerificationPurpose → string → string → string → bool).

Record TextParams := {
  sourceChannel : string;
  messageContent : string;
  actorExternalUserId : string;
  actorChatId : string;
  isDirectMessage : option bool;
  replyCallbackUrl : option string
}.

Inductive Outcome := outcome_verified | outcome_failed | outcome_wrong_conversation.

(** The reply goes out over the callback or back to the caller. *)
Record Intercepted := {
  outcome : Outcome;
  trustClass : VerificationPurpose;
  reply : string;
  pendingReplyText : option string
}.

Definition respond (p : TextParams) (o : Outcome) (trust : VerificationPurpose) (text : string)
    : Intercepted :=
  {| outcome := o; trustClass := trust; reply := text;
     pendingReplyText :=
       match p.(replyCallbackUrl) with
       | Some url => if truthy url then None else Some text
       | None => Some text
       end |}.

Definition INVALID_CODE : string := "The verification code is invalid or has expired.".
Definition WRONG_CONVERSATION : string :=
  "For security, verification codes only work in a direct message. Send it to me there.".

Definition composeVerificationSuccessReply (trust : VerificationPurpose) : string :=
  match trust with
  | purpose_trusted_contact => "Verification successful! You can now message the assistant."
  | purpose_guardian =>
      "Verification successful. You are now set as the guardian for this channel."
  end.

Definition purpose_of (session : VerificationSession) : VerificationPurpose :=
  default purpose_guardian session.(verificationPurpose).

Definition text_code (p : TextParams) : option string :=
  parseVerificationCode
    (if String.eqb p.(sourceChannel) "email" then extractEmailReplyBody p.(messageContent)
     else p.(messageContent)).

Definition canonical_user (p : TextParams) : string :=
  default p.(actorExternalUserId)
    (canonicalizeInboundIdentity p.(sourceChannel) p.(actorExternalUserId)).

Definition text_key (p : TextParams) : ActorKey :=
  (p.(sourceChannel), canonical_user p, p.(actorChatId)).

Definition with_limits (t : RateLimits) (st : VerificationState) : VerificationState :=
  {| sessions := st.(sessions); limits := t |}.
Definition with_sessions (t : Sessions) (st : VerificationState) : VerificationState :=
  {| sessions := t; limits := st.(limits) |}.

Definition tryTextVerificationIntercept (p : TextParams) (now : Z) (st : VerificationState)
    : VerificationState * option Intercepted :=
  match text_code p with
  | None => (st, None)
  | Some code =>
      if negb (hasInterceptableSession p.(sourceChannel) now st.(sessions)) then (st, None)
      else if bool_decide (p.(isDirectMessage) = Some false) then
        (st, Some (respond p outcome_wrong_conversation purpose_guardian WRONG_CONVERSATION))
      else
        let user := canonical_user p in
        if isRateLimited (text_key p) now st.(limits) then
          (st, Some (respond p outcome_failed purpose_guardian INVALID_CODE))
        else
          match findPendingSessionByHash p.(sourceChannel) (hash code) now st.(sessions) with
          | None =>
              (with_limits (recordInvalidAttempt (text_key p) now st.(limits)) st,
               Some (respond p outcome_failed purpose_guardian INVALID_CODE))
          | Some session =>
              if negb (checkIdentityMatch session user p.(actorChatId)) then
                (with_limits (recordInvalidAttempt (text_key p) now st.(limits)) st,
                 Some (respond p outcome_failed (purpose_of session) INVALID_CODE))
              else
                let '(ss, ok) := consumeSession session.(id) user p.(actorChatId) now st.(sessions) in
                let st := with_sessions ss st in
                if negb ok then (st, Some (respond p outcome_failed (purpose_of session) INVALID_CODE))
                else
                  let st := with_limits (resetRateLimit (text_key p) st.(limits)) st in
                  if negb (contactAccepts (purpose_of session) p.(sourceChannel) user p.(actorChatId))
                  then (st, Some (respond p outcome_failed (purpose_of session) INVALID_CODE))
                  else (st, Some (respond p outcome_verified (purpose_of session)
                                    (composeVerificationSuccessReply (purpose_of session))))
          end
  end.

(** *** Voice *)

Definition MAX_ATTEMPTS : Z := 3.

Inductive CodeValidation :=
  | code_valid (verificationType : VerificationPurpose)
  | code_invalid (failureMessage : string) (exhausted : bool).

(** A decimal numeral, for the prompt. *)
Definition attempts_left (attempt : Z) : CodeValidation :=
  if MAX_ATTEMPTS <=? attempt + 1 then code_invalid "Verification failed. Goodbye." true
  else
    let remaining := MAX_ATTEMPTS - attempt - 1 in
    code_invalid
      ("Incorrect code. You have " +:+ pretty remaining +:+ " "
       +:+ (if remaining =? 1 then "attempt" else "attempts")
       +:+ " remaining. Please try again.") false.

Definition voice_key (fromNumber : string) : ActorKey := ("phone", fromNumber, fromNumber).

Definition validateVerificationCode (session : VerificationSession)
    (enteredCode fromNumber : string) (attempt now : Z) (st : VerificationState)
    : VerificationState * CodeValidation :=
  if isRateLimited (voice_key fromNumber) now st.(limits) then
    (st, code_invalid "Too many invalid attempts. Please try again later. Goodbye." true)
  else if session.(expiresAt) <? now then
    (st, code_invalid
           "The verification code has expired. Please request a new code. Goodbye." true)
  else if negb (String.eqb (hash enteredCode) session.(challengeHash)) then
    (with_limits (recordInvalidAttempt (voice_key fromNumber) now st.(limits)) st,
     attempts_left attempt)
  else if negb (checkIdentityMatch session fromNumber fromNumber) then
    (with_limits (recordInvalidAttempt (voice_key fromNumber) now st.(limits)) st,
     attempts_left attempt)
  else
    let '(ss, ok) := consumeSession session.(id) fromNumber fromNumber now st.(sessions) in
    let st := with_sessions ss st in
    if negb ok then (st, code_invalid "Verification failed. Goodbye." true)
    else (with_limits (resetRateLimit (voice_key fromNumber) st.(limits)) st,
          code_valid (purpose_of session)).

Definition findPendingPhoneSession (now : Z) (st : VerificationState)
    : option VerificationSession :=
  findLatestSessionByStatuses "phone" [pending; pending_bootstrap] no_filter now st.(sessions).
End Redemption.

(** ** Who gets verified *)

Lemma findPendingSessionByHash_Some ch h now t s :
  findPendingSessionByHash ch h now t = Some s →
  ∃ r, r ∈ t ∧ s = rowToSession r ∧ r.(channel) = ch ∧ r.(challengeHash) = h
       ∧ interceptable r = true ∧ now < r.(expiresAt).
Proof.
  unfold findPendingSessionByHash. destruct (find_first _ t) as [r|] eqn:E; [|done].
  intros [= <-]. apply find_first_Some in E as [Hr Hp]. exists r. bool_to_prop. done.
Qed.

(** A text message verifies its sender only when it is a code of a session of its
    channel that is still open and unexpired, sent by an actor the session is
    bound to (if it is bound), outside a room, by somebody who is not locked
    out, and the contact store accepts the actor; the session is consumed by it. *)
Theorem text_verified_sound hash contactAccepts p now st st' result :
  tryTextVerificationIntercept hash contactAccepts p now st = (st', Some result) →
  result.(outcome) = outcome_verified →
  ∃ code r, text_code p = Some code ∧ r ∈ st.(sessions) ∧ r.(channel) = p.(sourceChannel)
    ∧ r.(challengeHash) = hash code ∧ interceptable r = true ∧ now < r.(expiresAt)
    ∧ checkIdentityMatch r (canonical_user p) p.(actorChatId) = true
    ∧ p.(isDirectMessage) ≠ Some false
    ∧ isRateLimited (text_key p) now st.(limits) = false
    ∧ contactAccepts (default purpose_guardian r.(verificationPurpose)) p.(sourceChannel)
        (canonical_user p) p.(actorChatId) = true
    ∧ st'.(sessions) = (consumeSession r.(id) (canonical_user p) p.(actorChatId) now st.(sessions)).1
    ∧ (consumeSession r.(id) (canonical_user p) p.(actorChatId) now st.(sessions)).2 = true.
Proof.
  unfold tryTextVerificationIntercept. destruct (text_code p) as [code|] eqn:Hcode; [|done].
  destruct (negb (hasInterceptableSession _ _ _)); [done|].
  case_bool_decide as Hdm; [by intros [= <- <-]|].
  destruct (isRateLimited _ _ _) eqn:Hlim; [by intros [= <- <-]|].
  destruct (findPendingSessionByHash _ _ _ _) as [s|] eqn:Hfind; [|by intros [= <- <-]].
  apply findPendingSessionByHash_Some in Hfind as (r & Hr & -> & Hch & Hhash & Hint & Hexp).
  destruct (checkIdentityMatch _ _ _) eqn:Hid; [|by intros [= <- <-]]. cbn [negb].
  destruct (consumeSession _ _ _ _ _) as [ss ok] eqn:Hcons.
  destruct ok; [|by intros [= <- <-]]. cbn [negb].
  destruct (contactAccepts _ _ _ _) eqn:Hacc; [|by intros [= <- <-]].
  intros [= <- <-] _. simpl in Hcons. exists code, r. rewrite Hcons. simpl. done.
Qed.

(** ** How often a code can be guessed *)

(** What a handler does to the rate limits. *)
Inductive LimitEffect :=
  | no_effect
  | wrong_guess (key : ActorKey)
  | right_guess (key : ActorKey).

Definition apply_effect (e : LimitEffect) (now : Z) (t : RateLimits) : RateLimits :=
  match e with
  | no_effect => t
  | wrong_guess key => recordInvalidAttempt key now t
  | right_guess key => resetRateLimit key t
  end.

(** Handlers and store statements interleave; each event has its time. *)
Inductive Event :=
  | TextMessage (p : TextParams)
  | VoiceCode (session : VerificationSession) (enteredCode fromNumber : string) (attempt : Z)
  | SessionChange (call : SessionCall).

Section Guesses.
Context (hash : string → string)
        (contactAccepts : VerificationPurpose → string → string → string → bool).

Definition event_step (st : VerificationState) (now : Z) (e : Event) : VerificationState :=
  match e with
  | TextMessage p => (tryTextVerificationIntercept hash contactAccepts p now st).1
  | VoiceCode session code from attempt =>
      (validateVerificationCode hash session code from attempt now st).1
  | SessionChange call => with_sessions (session_step st.(sessions) call) st
  end.

(** Whether the event is a guess that was looked at, and whether it was right. *)
Definition event_effect (st : VerificationState) (now : Z) (e : Event) : LimitEffect :=
  match e with
  | TextMessage p =>
      match text_code p with
      | None => no_effect
      | Some code =>
          if negb (hasInterceptableSession p.(sourceChannel) now st.(sessions))
             || bool_decide (p.(isDirectMessage) = Some false)
             || isRateLimited (text_key p) now st.(limits) then no_effect
          else match findPendingSessionByHash p.(sourceChannel) (hash code) now st.(sessions) with
               | None => wrong_guess (text_key p)
               | Some s =>
                   if negb (checkIdentityMatch s (canonical_user p) p.(actorChatId))
                   then wrong_guess (text_key p)
                   else if (consumeSession s.(id) (canonical_user p) p.(actorChatId) now
                              st.(sessions)).2
                   then right_guess (text_key p) else no_effect
               end
      end
  | VoiceCode session code from attempt =>
      if isRateLimited (voice_key from) now st.(limits) || (session.(expiresAt) <? now)
      then no_effect
      else if negb (String.eqb (hash code) session.(challengeHash))
              || negb (checkIdentityMatch session from from) then wrong_guess (voice_key from)
      else if (consumeSession session.(id) from from now st.(sessions)).2
      then right_guess (voice_key from) else no_effect
  | SessionChange _ => no_effect
  end.

Lemma event_limits st now e :
  (event_step st now e).(limits) = apply_effect (event_effect st now e) now st.(limits).
Proof.
  destruct e as [p|session code from attempt|call]; cbn [event_step event_effect]; [| |done].
  - unfold tryTextVerificationIntercept. destruct (text_code p) as [code|]; [|done].
    destruct (negb (hasInterceptableSession _ _ _)); [done|].
    destruct (bool_decide _); [done|]. destruct (isRateLimited _ _ _); [done|]. cbn [orb].
    destruct (findPendingSessionByHash _ _ _ _) as [s|]; [|done].
    destruct (negb (checkIdentityMatch _ _ _)); [done|].
    destruct (consumeSession _ _ _ _ _) as [ss [|]]; cbn [negb snd]; [|done].
    by destruct (contactAccepts _ _ _ _).
  - unfold validateVerificationCode. destruct (isRateLimited _ _ _); [done|]. cbn [orb].
    destruct (expiresAt session <? now); [done|].
    destruct (negb (String.eqb _ _)); [done|]. cbn [orb].
    destruct (negb (checkIdentityMatch _ _ _)); [done|].
    by destruct (consumeSession _ _ _ _ _) as [ss [|]].
Qed.

(** A guess is looked at only when its actor is not locked out. *)
Lemma wrong_not_limited st now e key :
  event_effect st now e = wrong_guess key → isRateLimited key now st.(limits) = false.
Proof.
  destruct e as [p|session code from attempt|call]; simpl; [| |done].
  - destruct (text_code p) as [code|]; [|done].
    destruct (_ || _ || isRateLimited _ _ _) eqn:E; [done|].
    apply orb_false_elim in E as [_ E]. repeat case_match; try done; by intros [= <-].
  - destruct (isRateLimited _ _ _ || _) eqn:E; [done|].
    apply orb_false_elim in E as [E _]. repeat case_match; try done; by intros [= <-].
Qed.

(** The guesses of a run, with their times. *)
Fixpoint guess_log (st : VerificationState) (evs : list (Z * Event)) : list (Z * LimitEffect) :=
  match evs with
  | [] => []
  | (now, e) :: evs => (now, event_effect st now e) :: guess_log (event_step st now e) evs
  end.

End Guesses.

(** Times do not go back. *)
Fixpoint clock_ok {A} (t0 : Z) (evs : list (Z * A)) : Prop :=
  match evs with [] => True | (t, _) :: evs => t0 <= t ∧ clock_ok t evs end.

(** A log the rate limit admits, from a table on. *)
Fixpoint admitted (t : RateLimits) (log : list (Z * LimitEffect)) : Prop :=
  match log with
  | [] => True
  | (now, e) :: log =>
      (∀ key, e = wrong_guess key → isRateLimited key now t = false)
      ∧ admitted (apply_effect e now t) log
  end.

(** The times of an actor's wrong guesses. *)
Definition wrong_times (key : ActorKey) (log : list (Z * LimitEffect)) : list Z :=
  omap (λ e, match e.2 with
             | wrong_guess k => if decide (k = key) then Some e.1 else None
             | _ => None
             end) log.

Definition after (s : Z) (ts : list Z) : list Z := List.filter (λ a, s <? a) ts.

(** Those in the window [(s, s + w]]. *)
Definition in_window (s w : Z) (ts : list Z) : nat :=
  length (List.filter (λ a, (s <? a) && (a <=? s + w)) ts).

Lemma filter_app {A} (f : A → bool) xs ys :
  List.filter f (xs ++ ys) = List.filter f xs ++ List.filter f ys.
Proof. apply List.filter_app. Qed.

Lemma after_after s s' ts : s <= s' → after s' (after s ts) = after s' ts.
Proof.
  intros H. unfold after. induction ts as [|a ts IH]; [done|]. simpl.
  destruct (Z.ltb_spec s a); simpl; rewrite IH; [done|].
  by rewrite (proj2 (Z.ltb_ge s' a)) by lia.
Qed.

Lemma in_window_after s w ts :
  (in_window s w ts ≤ length (after s ts))%nat.
Proof.
  unfold in_window, after. induction ts as [|a ts IH]; [done|]. simpl.
  destruct (s <? a); simpl; [|lia]. destruct (a <=? s + w); simpl; lia.
Qed.

Lemma after_nonempty s ts : length (after s ts) ≠ 0%nat → ∃ a, a ∈ ts ∧ s < a.
Proof.
  unfold after. destruct (List.filter _ ts) as [|a l] eqn:E; [done|]. intros _.
  assert (Ha : a ∈ List.filter (λ a, s <? a) ts) by (rewrite E; by left).
  apply elem_of_lfilter in Ha as [? ?%Z.ltb_lt]. eauto.
Qed.

Lemma after_le_length s s' ts : s' <= s → (length (after s ts) ≤ length (after s' ts))%nat.
Proof.
  intros H. unfold after. induction ts as [|a ts IH]; [done|]. simpl.
  destruct (Z.ltb_spec s a), (Z.ltb_spec s' a); simpl; lia.
Qed.

Notation W := RATE_LIMIT_WINDOW_MS.
Notation L := RATE_LIMIT_LOCKOUT_MS.

(** What the actor's row says about the guesses made so far, the last at [last]. *)
Record RowInv (last : Z) (ts : list Z) (row : option RateLimit) : Prop := {
  row_past : ∀ a, a ∈ ts → a <= last;
  row_kept : ∀ c, last - W <= c →
    after c ts = match row with Some r => after c r.(attemptTimestamps) | None => [] end;
  row_locked : (RATE_LIMIT_MAX_ATTEMPTS <= length (after (last - W) ts))%nat →
    ∃ r l, row = Some r ∧ r.(lockedUntil) = Some l ∧ last + L <= l;
  row_bound : ∀ s, (in_window s W ts ≤ RATE_LIMIT_MAX_ATTEMPTS)%nat
}.

Lemma recorded_after c now key t :
  now - W <= c →
  after c (attemptTimestamps (default {| attemptTimestamps := []; lockedUntil := None |}
             (recordInvalidAttempt key now t !! key)))
  = match t !! key with Some r => after c r.(attemptTimestamps) | None => [] end
    ++ after c [now].
Proof.
  intros Hc. unfold recordInvalidAttempt. destruct (t !! key) as [r|];
    rewrite lookup_insert_eq; simpl; [|done].
  unfold after at 1. rewrite filter_app. fold (after c [now]). f_equal.
  apply (after_after (now - W) c); lia.
Qed.

(** A guess that is looked at keeps the bound. *)
Lemma guess_inv last ts key now t :
  last <= now → isRateLimited key now t = false → RowInv last ts (t !! key) →
  RowInv now (ts ++ [now]) (recordInvalidAttempt key now t !! key).
Proof.
  intros Hle Hlim [Hpast Hkept Hlocked Hbound].
  assert (Hkept' : ∀ c, now - W <= c → after c (ts ++ [now])
    = match recordInvalidAttempt key now t !! key with
      | Some r => after c r.(attemptTimestamps) | None => [] end).
  { intros c Hc. unfold after at 1. rewrite filter_app. fold (after c ts) (after c [now]).
    rewrite (Hkept c) by lia. rewrite <- (recorded_after c now key t Hc).
    unfold recordInvalidAttempt. by destruct (t !! key); rewrite lookup_insert_eq. }
  split; [|done| |].
  - intros a [Ha | ->%list_elem_of_singleton]%elem_of_app; [|lia]. specialize (Hpast a Ha). lia.
  - intros Hmany. rewrite Hkept' in Hmany by lia. revert Hmany.
    unfold recordInvalidAttempt. destruct (t !! key) as [r|]; rewrite lookup_insert_eq.
    + cbn [attemptTimestamps lockedUntil]. intros Hmany. eexists _, (now + L).
      split; [done|]. split; [|lia]. cbn [lockedUntil]. rewrite (proj2 (Nat.leb_le _ _)); [done|].
      etransitivity; [exact Hmany|]. unfold after.
      clear. induction (_ ++ _) as [|a l IH]; simpl; [lia|]. destruct (_ <? a); simpl; lia.
    + unfold RATE_LIMIT_MAX_ATTEMPTS, after. simpl. destruct (now - W <? now); simpl; lia.
  - intros s. unfold in_window. rewrite filter_app, length_app.
    fold (in_window s W ts). specialize (Hbound s). simpl.
    destruct (Z.ltb_spec s now) as [Hs|Hs]; simpl; [|lia].
    destruct (Z.leb_spec now (s + W)) as [Hn|Hn]; simpl; [|lia].
    destruct (decide (length (after s ts) < RATE_LIMIT_MAX_ATTEMPTS)%nat) as [Hfew|Hmany].
    { pose proof (in_window_after s W ts). lia. }
    exfalso. destruct (after_nonempty s ts) as (a & Ha & Hsa).
    { unfold RATE_LIMIT_MAX_ATTEMPTS in Hmany. lia. }
    specialize (Hpast a Ha). destruct Hlocked as (r & l & Hr & Hl & Hlast).
    { pose proof (after_le_length s (last - W) ts ltac:(lia)). lia. }
    unfold isRateLimited in Hlim. rewrite Hr, Hl in Hlim. apply Z.ltb_ge in Hlim.
    unfold RATE_LIMIT_WINDOW_MS, RATE_LIMIT_LOCKOUT_MS in *. lia.
Qed.

(** Effects on other actors leave the row alone. *)
Lemma apply_other key e now t :
  e ≠ wrong_guess key → e ≠ right_guess key → apply_effect e now t !! key = t !! key.
Proof.
  intros Hw Hr. destruct e as [|k|k]; simpl; [done| |].
  - assert (k ≠ key) by congruence. unfold recordInvalidAttempt.
    destruct (t !! k); by rewrite lookup_insert_ne.
  - assert (k ≠ key) by congruence. unfold resetRateLimit.
    destruct (t !! k); [by rewrite lookup_insert_ne|done].
Qed.

Lemma admitted_bound key log last now0 ts t :
  last <= now0 → clock_ok now0 log → admitted t log →
  Forall (λ e, e.2 ≠ right_guess key) log → RowInv last ts (t !! key) →
  ∀ s, (in_window s W (ts ++ wrong_times key log) ≤ RATE_LIMIT_MAX_ATTEMPTS)%nat.
Proof.
  intros Hle Hclock Hadm Hright. revert last now0 ts t Hle Hclock Hadm.
  induction Hright as [|[now e] log Hr _ IH]; intros last now0 ts t Hle Hclock Hadm Hinv s.
  { simpl. rewrite app_nil_r. apply Hinv. }
  destruct Hclock as [Hnow Hclock], Hadm as [Hok Hadm]. simpl in Hr.
  assert (Hdec : e = wrong_guess key ∨ e ≠ wrong_guess key).
  { destruct e as [|k|k]; [by right| |by right]. destruct (decide (k = key)); [left|right]; congruence. }
  destruct Hdec as [-> |He].
  - replace (ts ++ wrong_times key ((now, wrong_guess key) :: log))
      with ((ts ++ [now]) ++ wrong_times key log).
    2: { rewrite <- app_assoc. f_equal. unfold wrong_times. simpl. by rewrite decide_True. }
    apply (IH now now (ts ++ [now]) (apply_effect (wrong_guess key) now t)); [lia|done|done|].
    simpl. apply (guess_inv last); [lia|by apply Hok|done].
  - replace (wrong_times key ((now, e) :: log)) with (wrong_times key log).
    2: { unfold wrong_times. simpl. destruct e as [|k|k]; try done. rewrite decide_False; [done|].
         intros ->. done. }
    apply (IH last now ts (apply_effect e now t)); [lia|done|done|].
    by rewrite apply_other.
Qed.

Section Guesses2.
Context (hash : string → string)
        (contactAccepts : VerificationPurpose → string → string → string → bool).

Lemma guess_log_admitted st evs :
  admitted st.(limits) (guess_log hash contactAccepts st evs).
Proof.
  revert st. induction evs as [|[now e] evs IH]; intros st; [done|]. simpl. split.
  - intros key. apply wrong_not_limited.
  - rewrite <- (event_limits hash contactAccepts). apply IH.
Qed.

Lemma guess_log_clock t0 st evs :
  clock_ok t0 evs → clock_ok t0 (guess_log hash contactAccepts st evs).
Proof.
  revert t0 st. induction evs as [|[now e] evs IH]; intros t0 st; [done|]. simpl.
  intros [? ?]. split; [done|]. by apply IH.
Qed.

(** C24: The brute-force bound: over text and voice together, with sessions minted,
    revoked and redeemed by anybody in between, an actor who never sends a right
    code has at most five wrong ones looked at in any quarter of an hour. *)
Theorem guesses_bounded t0 st evs key s :
  st.(limits) !! key = None → clock_ok t0 evs →
  Forall (λ e, e.2 ≠ right_guess key) (guess_log hash contactAccepts st evs) →
  (in_window s RATE_LIMIT_WINDOW_MS (wrong_times key (guess_log hash contactAccepts st evs))
   ≤ RATE_LIMIT_MAX_ATTEMPTS)%nat.
Proof.
  intros Hnone Hclock Hright.
  apply (admitted_bound key _ t0 t0 [] st.(limits)); [lia|by apply guess_log_clock
    |apply guess_log_admitted|done|].
  rewrite Hnone. split; [intros a Ha; by apply not_elem_of_nil in Ha|done| |];
    unfold RATE_LIMIT_MAX_ATTEMPTS, in_window; simpl; lia.
Qed.
End Guesses2.

(** ** Witnesses *)

Definition sample_hash (s : string) : string := "#" +:+ s.

Definition text_to (code : string) : TextParams :=
  {| sourceChannel := "slack"; messageContent := code; actorExternalUserId := " U1 ";
     actorChatId := "D1"; isDirectMessage := Some true; replyCallbackUrl := None |}.

Definition one_session : VerificationState :=
  {| sessions := session_step [] (CreateOutbound (sample_mint "s1" "#123456") 0); limits := ∅ |}.

Lemma text_verified_sound_witness :
  ∃ code r, text_code (text_to "*123456*") = Some code ∧ r ∈ one_session.(sessions)
    ∧ r.(channel) = "slack" ∧ r.(challengeHash) = sample_hash code.
Proof.
  destruct (text_verified_sound sample_hash (λ _ _ _ _, true) (text_to "*123456*") 10 one_session
    (tryTextVerificationIntercept sample_hash (λ _ _ _ _, true) (text_to "*123456*") 10 one_session).1
    (respond (text_to "*123456*") outcome_verified purpose_trusted_contact
       (composeVerificationSuccessReply purpose_trusted_contact)))
    as (code & r & H1 & H2 & H3 & H4 & _); [reflexivity|reflexivity|].
  exists code, r. exact (conj H1 (conj H2 (conj H3 H4))).
Defined.

(** Seven wrong codes in a row: five are looked at. *)
Definition wrong_burst : list (Z * Event) :=
  (λ t, (t, TextMessage (text_to "000000"))) <$> [1; 2; 3; 4; 5; 6; 7].

Lemma guesses_bounded_witness :
  wrong_times ("slack", "U1", "D1") (guess_log sample_hash (λ _ _ _ _, true) one_session wrong_burst)
  = [1; 2; 3; 4; 5]
  ∧ (in_window 0 RATE_LIMIT_WINDOW_MS (wrong_times ("slack", "U1", "D1")
       (guess_log sample_hash (λ _ _ _ _, true) one_session wrong_burst))
     ≤ RATE_LIMIT_MAX_ATTEMPTS)%nat.
Proof.
  split; [vm_compute; reflexivity|].
  apply (guesses_bounded sample_hash (λ _ _ _ _, true) 0); [reflexivity|cbn; lia|].
  vm_compute. repeat constructor; discriminate.
Defined.
