(* ===== verification/CallStore.v ===== *)
(** Phone calls of the daemon ([assistant/src/calls/call-state-machine.ts],
    [call-store.ts], [active-call-lease.ts], the screens of
    [telemetry/phone-call-funnel.ts]): the status of a call, its updates with
    the funnel events and the lease file they keep in step, pending questions
    and the claims that make provider callbacks idempotent. Every operation
    takes the time it reads and the identifiers it draws. *)
From S2P Require Import Prelude JsString.

Local Open Scope Z_scope.

(** ** The state machine *)

Inductive CallStatus :=
  | initiated | ringing | in_progress | waiting_on_user | completed | failed | cancelled.

#[export] Instance CallStatus_eq_dec : EqDecision CallStatus.
Proof. solve_decision. Defined.

Definition ALLOWED_TRANSITIONS (s : CallStatus) : list CallStatus :=
  match s with
  | initiated => [ringing; in_progress; waiting_on_user; completed; failed; cancelled]
  | ringing => [in_progress; waiting_on_user; completed; failed; cancelled]
  | in_progress => [waiting_on_user; completed; failed; cancelled]
  | waiting_on_user => [in_progress; completed; failed; cancelled]
  | completed | failed | cancelled => []
  end.

Definition TERMINAL_STATES : list CallStatus := [completed; failed; cancelled].

Definition isTerminalState (s : CallStatus) : bool := mem s TERMINAL_STATES.

(** The reason of a refusal is only logged. *)
Definition validateTransition (current next : CallStatus) : bool :=
  if bool_decide (current = next) then true
  else if isTerminalState current then false
  else mem next (ALLOWED_TRANSITIONS current).

Definition status_name (s : CallStatus) : string :=
  match s with
  | initiated => "initiated" | ringing => "ringing" | in_progress => "in_progress"
  | waiting_on_user => "waiting_on_user" | completed => "completed" | failed => "failed"
  | cancelled => "cancelled"
  end.

(** ** Tables *)

Record CallSession := {
  id : string;
  conversationId : string;
  provider : string;
  providerCallSid : option string;
  fromNumber : string;
  toNumber : string;
  task : option string;
  status : CallStatus;
  callMode : option string;
  verificationSessionId : option string;
  inviteFriendName : option string;
  inviteGuardianName : option string;
  callerIdentityMode : option string;
  callerIdentitySource : option string;
  skipDisclosure : bool;
  initiatedFromConversationId : option string;
  startedAt : option Z;
  endedAt : option Z;
  lastError : option string;
  createdAt : Z;
  updatedAt : Z
}.

(** [payload] is the JSON text stored with the event. *)
Record CallEvent := {
  event_id : string;
  event_callSessionId : string;
  eventType : string;
  payloadJson : string;
  event_createdAt : Z
}.

Record ActiveCallLease := { lease_providerCallSid : option string; lease_updatedAt : Z }.

(** A row of the onboarding funnel. *)
Inductive FunnelEvent :=
  | call_started_event (callSessionId screen : string)
  | call_ended_event (callSessionId screen outcome : string).

(** The lease file is read as a map by session; its order, by time, is not used. *)
Record CallState := {
  calls : list CallSession;
  callEvents : list CallEvent;
  leases : gmap string ActiveCallLease;
  funnel : list FunnelEvent
}.

Definition has_call (callId : string) (c : CallSession) : bool := String.eqb c.(id) callId.

Definition getCallSession (callId : string) (st : CallState) : option CallSession :=
  find_first (has_call callId) st.(calls).

Definition getCallSessionByCallSid (sid : string) (st : CallState) : option CallSession :=
  find_first (λ c, bool_decide (c.(providerCallSid) = Some sid)) st.(calls).

(** [ORDER BY created_at DESC]; among equal times SQLite may answer any, here the
    first. *)
Definition newer_of (best : option CallSession) (c : CallSession) : option CallSession :=
  match best with
  | Some b => if b.(createdAt) <? c.(createdAt) then Some c else best
  | None => Some c
  end.

Definition getActiveCallSessionForConversation (conv : string) (st : CallState)
    : option CallSession :=
  foldl newer_of None
    (List.filter (λ c, (String.eqb c.(conversationId) conv
                        || bool_decide (c.(initiatedFromConversationId) = Some conv))
                       && negb (isTerminalState c.(status))) st.(calls)).

Definition listRecoverableCalls (st : CallState) : list CallSession :=
  List.filter (λ c, negb (isTerminalState c.(status))) st.(calls).

Definition with_funnel (e : FunnelEvent) (st : CallState) : CallState :=
  {| calls := st.(calls); callEvents := st.(callEvents); leases := st.(leases);
     funnel := st.(funnel) ++ [e] |}.

(** *** Creating *)

Record CreateCall := {
  new_conversationId : string; new_provider : string; new_fromNumber : string;
  new_toNumber : string; new_direction : string; new_task : option string;
  new_callMode : option string; new_verificationSessionId : option string;
  new_inviteFriendName : option string; new_inviteGuardianName : option string;
  new_callerIdentityMode : option string; new_callerIdentitySource : option string;
  new_skipDisclosure : option bool; new_initiatedFrom : option string
}.

Definition phoneCallStartScreen (direction : string) (mode : option string) : string :=
  "started_" +:+ direction +:+ ":" +:+ default "normal" mode.

Definition new_call (callId : string) (now : Z) (o : CreateCall) : CallSession :=
  {| id := callId; conversationId := o.(new_conversationId); provider := o.(new_provider);
     providerCallSid := None; fromNumber := o.(new_fromNumber); toNumber := o.(new_toNumber);
     task := o.(new_task); status := initiated; callMode := o.(new_callMode);
     verificationSessionId := o.(new_verificationSessionId);
     inviteFriendName := o.(new_inviteFriendName);
     inviteGuardianName := o.(new_inviteGuardianName);
     callerIdentityMode := o.(new_callerIdentityMode);
     callerIdentitySource := o.(new_callerIdentitySource);
     skipDisclosure := default false o.(new_skipDisclosure);
     initiatedFromConversationId := o.(new_initiatedFrom);
     startedAt := None; endedAt := None; lastError := None; createdAt := now; updatedAt := now |}.

Definition createCallSession (callId : string) (now : Z) (o : CreateCall) (st : CallState)
    : CallState * CallSession :=
  let row := new_call callId now o in
  (with_funnel (call_started_event callId (phoneCallStartScreen o.(new_direction) row.(callMode)))
     {| calls := st.(calls) ++ [row]; callEvents := st.(callEvents); leases := st.(leases);
        funnel := st.(funnel) |}, row).

Definition recordCallEvent (eventId : string) (now : Z) (callId type payload : string)
    (st : CallState) : CallState :=
  {| calls := st.(calls);
     callEvents := st.(callEvents) ++
       [{| event_id := eventId; event_callSessionId := callId; eventType := type;
           payloadJson := payload; event_createdAt := now |}];
     leases := st.(leases); funnel := st.(funnel) |}.

(** *** Leases *)

Definition set_leases (l : gmap string ActiveCallLease) (st : CallState) : CallState :=
  {| calls := st.(calls); callEvents := st.(callEvents); leases := l; funnel := st.(funnel) |}.

Definition upsertActiveCallLease (callId : string) (sid : option string) (now : Z)
    (l : gmap string ActiveCallLease) : gmap string ActiveCallLease :=
  <[callId := {| lease_providerCallSid := or_else sid (l !! callId ≫= lease_providerCallSid);
                 lease_updatedAt := now |}]> l.

Definition syncActiveCallLeaseFromSession (session : option CallSession) (now : Z)
    (l : gmap string ActiveCallLease) : gmap string ActiveCallLease :=
  match session with
  | None => l
  | Some s =>
      if isTerminalState s.(status) then delete s.(id) l
      else match l !! s.(id), s.(providerCallSid) with
           | None, None => l
           | _, _ => upsertActiveCallLease s.(id) s.(providerCallSid) now l
           end
  end.

Definition reconcileActiveCallLeases (sessions : list CallSession) (now : Z)
    : gmap string ActiveCallLease :=
  list_to_map ((λ s, (s.(id), {| lease_providerCallSid := s.(providerCallSid);
                                 lease_updatedAt := now |}))
               <$> rev (List.filter (λ s, negb (isTerminalState s.(status))) sessions)).

(** *** Updating *)

(** [Partial<...>]: [None] for a property that is not given. *)
Record CallUpdates := {
  u_status : option CallStatus;
  u_providerCallSid : option (option string);
  u_startedAt : option (option Z);
  u_endedAt : option (option Z);
  u_lastError : option (option string);
  u_conversationId : option string;
  u_initiatedFrom : option (option string)
}.

Definition apply_updates (u : CallUpdates) (now : Z) (c : CallSession) : CallSession :=
  {| id := c.(id); conversationId := default c.(conversationId) u.(u_conversationId);
     provider := c.(provider);
     providerCallSid := default c.(providerCallSid) u.(u_providerCallSid);
     fromNumber := c.(fromNumber); toNumber := c.(toNumber); task := c.(task);
     status := default c.(status) u.(u_status); callMode := c.(callMode);
     verificationSessionId := c.(verificationSessionId);
     inviteFriendName := c.(inviteFriendName); inviteGuardianName := c.(inviteGuardianName);
     callerIdentityMode := c.(callerIdentityMode);
     callerIdentitySource := c.(callerIdentitySource); skipDisclosure := c.(skipDisclosure);
     initiatedFromConversationId := default c.(initiatedFromConversationId) u.(u_initiatedFrom);
     startedAt := default c.(startedAt) u.(u_startedAt);
     endedAt := default c.(endedAt) u.(u_endedAt);
     lastError := default c.(lastError) u.(u_lastError);
     createdAt := c.(createdAt); updatedAt := now |}.

(** [s.includes(needle)], for [LIKE '%needle%'] on a needle without wildcards;
    SQLite's [LIKE] ignores the case of ASCII letters. *)
Fixpoint includes (needle s : string) : bool :=
  starts_with s needle || match s with EmptyString => false | String _ s => includes needle s end.

Definition hasCallEvent (callId type : string) (payloadContains : option string) (st : CallState)
    : bool :=
  existsb (λ e, String.eqb e.(event_callSessionId) callId && String.eqb e.(eventType) type
    && match payloadContains with
       | Some n => includes (to_lower n) (to_lower e.(payloadJson))
       | None => true
       end) st.(callEvents).

Definition phoneCallSilenceReason (connected : bool) : string :=
  if connected then "no_turn" else "no_connect".

Definition phoneCallEndScreen (s : CallStatus) (silenceReason : option string) : string :=
  match silenceReason with
  | Some r => "ended_" +:+ status_name s +:+ ":silent_" +:+ r
  | None => "ended_" +:+ status_name s
  end.

Definition quoted_transcript : string :=
  let quote := String (ascii_of_nat 34) EmptyString in quote +:+ "transcript" +:+ quote.

Definition recordCallEndedEvent (callId : string) (s : CallStatus) (st : CallState) : CallState :=
  let spoke := hasCallEvent callId "caller_spoke" (Some quoted_transcript) st in
  let silence :=
    if spoke then None
    else Some (phoneCallSilenceReason (hasCallEvent callId "call_connected" None st)) in
  with_funnel (call_ended_event callId (phoneCallEndScreen s silence)
                 (if bool_decide (s = failed) then "failed" else "completed")) st.

(** [beforeLeaseSync]: what the caller runs between the write and the lease; the flag
    tells whether it throws, and then whether the update does. *)
Definition updateCallSession (callId : string) (u : CallUpdates)
    (beforeLeaseSync : CallState → CallState * bool) (now : Z) (st : CallState)
    : CallState * bool :=
  let refused :=
    match u.(u_status), getCallSession callId st with
    | Some next, Some current => negb (validateTransition current.(status) next)
    | _, _ => false
    end in
  if refused then (st, false)
  else
    let st :=
      {| calls := (λ c, if has_call callId c then apply_updates u now c else c) <$> st.(calls);
         callEvents := st.(callEvents); leases := st.(leases); funnel := st.(funnel) |} in
    let st :=
      match u.(u_status) with
      | Some s => if isTerminalState s then recordCallEndedEvent callId s st else st
      | None => st
      end in
    let '(st, threw) := beforeLeaseSync st in
    if (threw : bool) then (st, true)
    else
      match u.(u_providerCallSid), u.(u_status) with
      | None, None => (st, false)
      | _, _ =>
          (set_leases (syncActiveCallLeaseFromSession (getCallSession callId st) now st.(leases)) st,
           false)
      end.

(** No [beforeLeaseSync] *)
Definition no_hook (st : CallState) : CallState * bool := (st, false).

(** ** Pending questions *)

Inductive PendingQuestionStatus := q_pending | q_answered | q_expired | q_cancelled.

#[export] Instance PendingQuestionStatus_eq_dec : EqDecision PendingQuestionStatus.
Proof. solve_decision. Defined.

Record CallPendingQuestion := {
  q_id : string;
  q_callSessionId : string;
  questionText : string;
  q_status : PendingQuestionStatus;
  askedAt : Z;
  answeredAt : option Z;
  answerText : option string
}.

Definition createPendingQuestion (questionId callId text : string) (now : Z)
    (qs : list CallPendingQuestion) : list CallPendingQuestion :=
  qs ++ [{| q_id := questionId; q_callSessionId := callId; questionText := text;
            q_status := q_pending; askedAt := now; answeredAt := None; answerText := None |}].

Definition latest_question (best : option CallPendingQuestion) (q : CallPendingQuestion)
    : option CallPendingQuestion :=
  match best with
  | Some b => if b.(askedAt) <? q.(askedAt) then Some q else best
  | None => Some q
  end.

Definition getPendingQuestion (callId : string) (qs : list CallPendingQuestion)
    : option CallPendingQuestion :=
  foldl latest_question None
    (List.filter (λ q, String.eqb q.(q_callSessionId) callId
                       && bool_decide (q.(q_status) = q_pending)) qs).

Definition answer_question (text : string) (now : Z) (q : CallPendingQuestion) : CallPendingQuestion :=
  {| q_id := q.(q_id); q_callSessionId := q.(q_callSessionId); questionText := q.(questionText);
     q_status := q_answered; askedAt := q.(askedAt); answeredAt := Some now;
     answerText := Some text |}.

Definition answerPendingQuestion (questionId text : string) (now : Z)
    (qs : list CallPendingQuestion) : list CallPendingQuestion :=
  (λ q, if String.eqb q.(q_id) questionId && bool_decide (q.(q_status) = q_pending)
        then answer_question text now q else q) <$> qs.

Definition expire_question (q : CallPendingQuestion) : CallPendingQuestion :=
  {| q_id := q.(q_id); q_callSessionId := q.(q_callSessionId); questionText := q.(questionText);
     q_status := q_expired; askedAt := q.(askedAt); answeredAt := q.(answeredAt);
     answerText := q.(answerText) |}.

Definition expirePendingQuestions (callId : string) (qs : list CallPendingQuestion)
    : list CallPendingQuestion :=
  (λ q, if String.eqb q.(q_callSessionId) callId && bool_decide (q.(q_status) = q_pending)
        then expire_question q else q) <$> qs.

(** ** Callback claims *)

Record CallbackClaim := { claim_callSessionId : string; claimId : string; claimed_at : Z }.

(** [processed_callbacks] by its unique [dedupe_key] *)
Notation Callbacks := (gmap string CallbackClaim).

Definition CLAIM_EXPIRY_MS : Z := 60000.
Definition NEVER_EXPIRE_MS : Z := 100 * 365 * 24 * 60 * 60 * 1000.

Definition buildCallbackDedupeKey (callSid callStatus : string)
    (timestamp sequenceNumber : option string) : string :=
  callSid +:+ ":" +:+ callStatus +:+ ":" +:+ default "" (or_else sequenceNumber timestamp).

(** [DELETE] what has expired, then [INSERT OR IGNORE]. *)
Definition clear_expired (key : string) (now : Z) (t : Callbacks) : Callbacks :=
  match t !! key with
  | Some c => if c.(claimed_at) <? now - CLAIM_EXPIRY_MS then delete key t else t
  | None => t
  end.

Definition claimCallback (key callId newClaimId : string) (now : Z) (t : Callbacks)
    : Callbacks * option string :=
  let t := clear_expired key now t in
  match t !! key with
  | Some _ => (t, None)
  | None =>
      (<[key := {| claim_callSessionId := callId; claimId := newClaimId; claimed_at := now |}]> t,
       Some newClaimId)
  end.

Definition releaseCallbackClaim (key claim : string) (t : Callbacks) : Callbacks :=
  match t !! key with
  | Some c => if String.eqb c.(claimId) claim then delete key t else t
  | None => t
  end.

Definition finalizeCallbackClaim (key claim : string) (now : Z) (t : Callbacks)
    : Callbacks * bool :=
  match t !! key with
  | Some c =>
      if String.eqb c.(claimId) claim then
        (<[key := {| claim_callSessionId := c.(claim_callSessionId); claimId := c.(claimId);
                     claimed_at := now + NEVER_EXPIRE_MS |}]> t, true)
      else (t, false)
  | None => (t, false)
  end.

(** ** The provider's status callback *)

Definition mapTwilioStatus (twilioStatus : string) : option CallStatus :=
  if mem twilioStatus ["initiated"; "queued"] then Some initiated
  else if mem twilioStatus ["ringing"] then Some ringing
  else if mem twilioStatus ["answered"; "in-progress"] then Some in_progress
  else if mem twilioStatus ["completed"] then Some completed
  else if mem twilioStatus ["failed"; "busy"; "no-answer"; "canceled"] then Some failed
  else None.

Record CallbackParams := {
  p_CallSid : option string;
  p_CallStatus : option string;
  p_Timestamp : option string;
  p_SequenceNumber : option string
}.

(** The stores a callback touches; [completed_calls] are the sessions whose completion
    has been told to their conversation. *)
Record CallWorld := {
  callState : CallState;
  callbacks : Callbacks;
  questions : list CallPendingQuestion;
  completed_calls : list string
}.

Definition callback_event (s : CallStatus) : string :=
  match s with
  | completed => "call_ended"
  | failed => "call_failed"
  | in_progress => "call_connected"
  | _ => "call_started"
  end.

Definition callback_updates (s : CallStatus) (session : CallSession) (now : Z) : CallUpdates :=
  {| u_status := Some s; u_providerCallSid := None;
     u_startedAt := if bool_decide (s = in_progress)
                       && match session.(startedAt) with Some t => t =? 0 | None => true end
                    then Some (Some now) else None;
     u_endedAt := if bool_decide (s = completed) || bool_decide (s = failed)
                  then Some (Some now) else None;
     u_lastError := None; u_conversationId := None; u_initiatedFrom := None |}.

(** [newClaim], [eventId] and [payload]: the identifiers drawn and the JSON of the
    event; [eventFails]: the insertion of the event throws. The flag of the answer
    tells whether the handler rethrows. *)
Definition processStatusCallback (newClaim eventId payload : string) (eventFails : bool)
    (p : CallbackParams) (now : Z) (w : CallWorld) : CallWorld * bool :=
  match p.(p_CallSid), p.(p_CallStatus) with
  | Some callSid, Some callStatus =>
      if negb (truthy callSid) || negb (truthy callStatus) then (w, false)
      else
        match getCallSessionByCallSid callSid w.(callState), mapTwilioStatus callStatus with
        | Some session, Some mapped =>
            let key := buildCallbackDedupeKey callSid callStatus p.(p_Timestamp) p.(p_SequenceNumber) in
            match claimCallback key session.(id) newClaim now w.(callbacks) with
            | (cb, None) =>
                ({| callState := w.(callState); callbacks := cb; questions := w.(questions);
                    completed_calls := w.(completed_calls) |}, false)
            | (cb, Some claim) =>
                let ends := bool_decide (mapped = completed) || bool_decide (mapped = failed) in
                let hook st :=
                  if eventFails then (st, true)
                  else (recordCallEvent eventId now session.(id) (callback_event mapped) payload st,
                        false) in
                let '(st, threw) :=
                  updateCallSession session.(id) (callback_updates mapped session now) hook now
                    w.(callState) in
                if (threw : bool) then
                  ({| callState := st; callbacks := releaseCallbackClaim key claim cb;
                      questions := w.(questions); completed_calls := w.(completed_calls) |}, true)
                else
                  ({| callState := st; callbacks := (finalizeCallbackClaim key claim now cb).1;
                      questions := if ends then expirePendingQuestions session.(id) w.(questions)
                                   else w.(questions);
                      completed_calls :=
                        if ends && negb (isTerminalState session.(status))
                        then w.(completed_calls) ++ [session.(id)] else w.(completed_calls) |}, false)
            end
        | _, _ => (w, false)
        end
  | _, _ => (w, false)
  end.

(** ** A call that has ended stays ended *)

Inductive CallOp :=
  | OpCreate (callId : string) (now : Z) (o : CreateCall)
  | OpUpdate (callId : string) (u : CallUpdates) (events : list (string * string * string)) (now : Z)
  | OpEvent (eventId : string) (now : Z) (callId type payload : string)
  | OpReconcile (now : Z).

(** The hooks of the code record events. *)
Definition record_hook (callId : string) (now : Z) (events : list (string * string * string))
    (st : CallState) : CallState * bool :=
  (foldl (λ st e, recordCallEvent e.1.1 now callId e.1.2 e.2 st) st events, false).

Definition call_step (st : CallState) (op : CallOp) : CallState :=
  match op with
  | OpCreate callId now o => (createCallSession callId now o st).1
  | OpUpdate callId u events now =>
      (updateCallSession callId u (record_hook callId now events) now st).1
  | OpEvent eventId now callId type payload => recordCallEvent eventId now callId type payload st
  | OpReconcile now => set_leases (reconcileActiveCallLeases st.(calls) now) st
  end.

Lemma record_events_calls callId now events st :
  (foldl (λ st e, recordCallEvent e.1.1 now callId e.1.2 e.2 st) st events).(calls) = st.(calls).
Proof. revert st. induction events as [|e events IH]; intros st; [done|]. simpl. by rewrite IH. Qed.

(** What an update does to the table of calls. *)
Lemma update_calls callId u hook now st :
  (∀ st, (hook st).1.(calls) = st.(calls)) →
  (updateCallSession callId u hook now st).1.(calls)
  = match u.(u_status), getCallSession callId st with
    | Some next, Some current =>
        if validateTransition current.(status) next
        then (λ c, if has_call callId c then apply_updates u now c else c) <$> st.(calls)
        else st.(calls)
    | _, _ => (λ c, if has_call callId c then apply_updates u now c else c) <$> st.(calls)
    end.
Proof.
  intros Hhook. unfold updateCallSession.
  set (st1 := {| calls := _ <$> calls st; callEvents := _; leases := _; funnel := _ |}).
  assert (Hrest : ∀ st2, calls st2 = calls st1 →
    calls (let '(st3, threw) := hook st2 in
           if (threw : bool) then (st3, true)
           else match u_providerCallSid u, u_status u with
                | None, None => (st3, false)
                | _, _ => (set_leases (syncActiveCallLeaseFromSession (getCallSession callId st3) now
                             (leases st3)) st3, false)
                end).1 = calls st1).
  { intros st2 H2. specialize (Hhook st2). destruct (hook st2) as [st3 [|]]; simpl in *; [congruence|].
    destruct (u_providerCallSid u), (u_status u); simpl; congruence. }
  assert (Hended : ∀ s, calls (if isTerminalState s then recordCallEndedEvent callId s st1 else st1)
                        = calls st1) by (intros s; by destruct (isTerminalState s)).
  destruct (u_status u) as [next|] eqn:Hu; [|by apply Hrest].
  destruct (getCallSession callId st) as [current|]; [|by apply Hrest].
  destruct (validateTransition _ next); cbn [negb]; [by apply Hrest|done].
Qed.

Lemma terminal_transition s next :
  isTerminalState s = true → validateTransition s next = true → next = s.
Proof.
  unfold validateTransition. case_bool_decide as H; [done|]. by intros ->.
Qed.

Definition ended (callId : string) (s : CallStatus) (st : CallState) : Prop :=
  isTerminalState s = true ∧ status <$> getCallSession callId st = Some s.

Lemma step_ended callId s st op : ended callId s st → ended callId s (call_step st op).
Proof.
  intros [Hs Hget]. split; [done|]. unfold getCallSession in *.
  destruct op as [newId now o|updId u evs now|eventId now evId type payload|now]; simpl; try done.
  - rewrite find_first_app. by destruct (find_first _ _).
  - rewrite (update_calls updId u) by (intros; apply record_events_calls).
    assert (Hkeep : u.(u_status) = None ∨ u.(u_status) = Some s ∨ updId ≠ callId →
      status <$> find_first (has_call callId)
        ((λ c, if has_call updId c then apply_updates u now c else c) <$> calls st) = Some s).
    { intros H. rewrite find_first_fmap by (intros c; by destruct (has_call updId c)).
      destruct (find_first (has_call callId) (calls st)) as [c|] eqn:Hc; [|done].
      simpl in *. apply find_first_Some in Hc as [_ Hid]. unfold has_call in *.
      destruct (String.eqb_spec (id c) updId) as [Heq|]; [|done].
      apply String.eqb_eq in Hid. simpl. injection Hget as Hget.
      destruct H as [-> |[-> |H]]; [by rewrite Hget|done|congruence]. }
    destruct (u_status u) as [next|] eqn:Hu; [|by apply Hkeep; left].
    unfold getCallSession. destruct (decide (updId = callId)) as [->|Hne].
    + destruct (find_first (has_call callId) (calls st)) as [c|] eqn:Hc; [|done].
      destruct (validateTransition (status c) next) eqn:Hv; [|by rewrite Hc].
      injection Hget as Hget. rewrite Hget in Hv. apply terminal_transition in Hv as ->; [|done].
      apply Hkeep. by right; left.
    + destruct (find_first (has_call updId) (calls st)) as [c|]; [|by apply Hkeep; right; right].
      destruct (validateTransition (status c) next); [by apply Hkeep; right; right|done].
Qed.

(** C35: Terminal states are immutable: once a call is completed, failed or cancelled,
    no sequence of updates, late callbacks, new calls or reconciliations gives it
    another status. *)
Theorem terminal_is_final callId c st ops :
  getCallSession callId st = Some c → isTerminalState c.(status) = true →
  status <$> getCallSession callId (foldl call_step st ops) = Some c.(status).
Proof.
  intros Hget Hterm. assert (H : ended callId c.(status) st) by (split; [done|by rewrite Hget]).
  clear Hget Hterm. revert st H. induction ops as [|op ops IH]; intros st H; [apply H|].
  simpl. apply IH. by apply step_ended.
Qed.

(** ** Callbacks are processed once *)

Inductive CallbackOp :=
  | Claim (key callId newClaim : string) (now : Z)
  | Release (key claim : string)
  | Finalize (key claim : string) (now : Z).

Definition callback_step (t : Callbacks) (op : CallbackOp) : Callbacks :=
  match op with
  | Claim key callId newClaim now => (claimCallback key callId newClaim now t).1
  | Release key claim => releaseCallbackClaim key claim t
  | Finalize key claim now => (finalizeCallbackClaim key claim now t).1
  end.

(** The claim [cid] of a key stands until [limit] at least. *)
Definition claim_held (key cid : string) (limit : Z) (t : Callbacks) : Prop :=
  ∃ c, t !! key = Some c ∧ c.(claimId) = cid ∧ limit <= c.(claimed_at) + CLAIM_EXPIRY_MS.

(** What others do meanwhile: anything but using the owner's claim id, up to the
    limit. *)
Definition others_until (cid : string) (limit : Z) (op : CallbackOp) : Prop :=
  match op with
  | Claim _ _ _ now => now <= limit
  | Release _ claim | Finalize _ claim _ => claim ≠ cid
  end.

Lemma held_refuses key cid limit t callId new now :
  claim_held key cid limit t → now <= limit → claimCallback key callId new now t = (t, None).
Proof.
  intros (c & Hc & Hid & Hlim) Hnow. unfold claimCallback, clear_expired. rewrite Hc.
  rewrite (proj2 (Z.ltb_ge _ _)) by (unfold CLAIM_EXPIRY_MS in *; lia). by rewrite Hc.
Qed.

Lemma claim_other key key' callId new now t :
  key ≠ key' → (claimCallback key callId new now t).1 !! key' = t !! key'.
Proof.
  intros Hne. unfold claimCallback, clear_expired.
  destruct (t !! key) as [c|] eqn:Hc; [destruct (_ <? _)|];
    repeat case_match; simpl; rewrite ?lookup_insert_ne, ?lookup_delete_ne by done; done.
Qed.

Lemma step_held key cid limit t op :
  others_until cid limit op → claim_held key cid limit t → claim_held key cid limit (callback_step t op).
Proof.
  intros Hop Hheld. destruct op as [k callId new now|k claim|k claim now]; simpl in *.
  - destruct (decide (k = key)) as [->|Hne].
    + by rewrite (held_refuses key cid limit).
    + destruct Hheld as (c & Hc & ?). exists c. by rewrite claim_other.
  - destruct Hheld as (c & Hc & Hid & ?). exists c. split; [|done]. unfold releaseCallbackClaim.
    destruct (decide (k = key)) as [->|Hne].
    + rewrite Hc. destruct (String.eqb_spec (claimId c) claim); [congruence|done].
    + destruct (t !! k) as [c'|]; [|done]. destruct (String.eqb _ _); [|done].
      by rewrite lookup_delete_ne.
  - destruct Hheld as (c & Hc & Hid & ?). exists c. split; [|done]. unfold finalizeCallbackClaim.
    destruct (decide (k = key)) as [->|Hne].
    + rewrite Hc. destruct (String.eqb_spec (claimId c) claim); [congruence|done].
    + destruct (t !! k) as [c'|]; [|done]. destruct (String.eqb _ _); [|done]. simpl.
      by rewrite lookup_insert_ne.
Qed.

Lemma run_held key cid limit t ops :
  Forall (others_until cid limit) ops → claim_held key cid limit t →
  claim_held key cid limit (foldl callback_step t ops).
Proof.
  intros Hops. revert t. induction Hops as [|op ops Hop _ IH]; intros t H; [done|].
  simpl. apply IH. by apply step_held.
Qed.

(** A callback is handled by one handler: while the minute of its claim runs, no
    other handler gets it, whatever they claim, release or finalize under their
    own claim ids; finalizing within it succeeds, and from then on the callback is
    refused for a hundred years. *)
Theorem callback_processed_once key callId cid t0 t t1 ops1 tf ops2 callId' new now :
  claimCallback key callId cid t0 t = (t1, Some cid) →
  Forall (others_until cid (t0 + CLAIM_EXPIRY_MS)) ops1 →
  Forall (others_until cid (tf + NEVER_EXPIRE_MS)) ops2 →
  let t2 := foldl callback_step t1 ops1 in
  let '(t3, finalized) := finalizeCallbackClaim key cid tf t2 in
  (now <= t0 + CLAIM_EXPIRY_MS → (claimCallback key callId' new now t2).2 = None)
  ∧ finalized = true
  ∧ (now <= tf + NEVER_EXPIRE_MS →
     (claimCallback key callId' new now (foldl callback_step t3 ops2)).2 = None).
Proof.
  intros Hclaim Hops1 Hops2. simpl.
  assert (H1 : claim_held key cid (t0 + CLAIM_EXPIRY_MS) t1).
  { unfold claimCallback in Hclaim. destruct (clear_expired key t0 t !! key); [done|].
    injection Hclaim as <-. eexists. rewrite lookup_insert_eq. split; [done|]. simpl.
    split; [done|lia]. }
  pose proof (run_held key cid _ t1 ops1 Hops1 H1) as H2.
  set (t2 := foldl callback_step t1 ops1) in *.
  assert (Hfin : ∃ t3, finalizeCallbackClaim key cid tf t2 = (t3, true)
                       ∧ claim_held key cid (tf + NEVER_EXPIRE_MS) t3).
  { destruct H2 as (c & Hc & Hid & _). unfold finalizeCallbackClaim. rewrite Hc, Hid, String.eqb_refl.
    eexists. split; [done|]. eexists. rewrite lookup_insert_eq. split; [done|]. simpl.
    unfold CLAIM_EXPIRY_MS. split; [done|lia]. }
  destruct Hfin as (t3 & -> & H3). split_and!; [|done|]; intros Hnow.
  - by rewrite (held_refuses key cid (t0 + CLAIM_EXPIRY_MS)).
  - rewrite (held_refuses key cid (tf + NEVER_EXPIRE_MS)); [done| |done]. by apply run_held.
Qed.

(** ** Two end events *)

Definition ended_events (callId : string) (st : CallState) : nat :=
  length (List.filter (λ e, match e with
                            | call_ended_event i _ _ => String.eqb i callId
                            | _ => false
                            end) st.(funnel)).

Definition sample_call : CreateCall :=
  {| new_conversationId := "conv"; new_provider := "twilio"; new_fromNumber := "+15550001111";
     new_toNumber := "+15550002222"; new_direction := "outbound"; new_task := None;
     new_callMode := None; new_verificationSessionId := None; new_inviteFriendName := None;
     new_inviteGuardianName := None; new_callerIdentityMode := None;
     new_callerIdentitySource := None; new_skipDisclosure := None; new_initiatedFrom := None |}.

Definition empty_calls : CallState := {| calls := []; callEvents := []; leases := ∅; funnel := [] |}.

Definition only_status (s : CallStatus) : CallUpdates :=
  {| u_status := Some s; u_providerCallSid := None; u_startedAt := None; u_endedAt := None;
     u_lastError := None; u_conversationId := None; u_initiatedFrom := None |}.

(** The daemon marks a call completed when it hangs up, and the provider's status
    callback says so again: a transition from a status to itself is valid, so the
    end of the call is counted twice. *)
Lemma ended_recorded_twice :
  let st := foldl call_step empty_calls
    [OpCreate "c1" 0 sample_call; OpUpdate "c1" (only_status in_progress) [] 1;
     OpUpdate "c1" (only_status completed) [] 2; OpUpdate "c1" (only_status completed) [] 3] in
  ended_events "c1" st = 2%nat.
Proof. reflexivity. Qed.

(** ** Witnesses *)

Lemma terminal_is_final_witness :
  status <$> getCallSession "c1"
    (foldl call_step (foldl call_step empty_calls
       [OpCreate "c1" 0 sample_call; OpUpdate "c1" (only_status cancelled) [] 1])
     [OpUpdate "c1" (only_status completed) [] 2; OpUpdate "c1" (only_status in_progress) [] 3])
  = Some cancelled.
Proof.
  apply (terminal_is_final "c1" (apply_updates (only_status cancelled) 1 (new_call "c1" 0 sample_call)));
    reflexivity.
Defined.

Lemma callback_processed_once_witness :
  let t1 := (claimCallback "CA1:completed:7" "c1" "h1" 0 ∅).1 in
  let t2 := foldl callback_step t1 [Claim "CA1:completed:7" "c1" "h2" 10; Release "CA1:completed:7" "h2"] in
  let '(t3, finalized) := finalizeCallbackClaim "CA1:completed:7" "h1" 20 t2 in
  (60000 <= 0 + CLAIM_EXPIRY_MS → (claimCallback "CA1:completed:7" "c1" "h3" 60000 t2).2 = None)
  ∧ finalized = true
  ∧ (60000 <= 20 + NEVER_EXPIRE_MS →
     (claimCallback "CA1:completed:7" "c1" "h3" 60000
        (foldl callback_step t3 [Claim "CA1:completed:7" "c1" "h4" 50000])).2 = None).
Proof.
  apply (callback_processed_once "CA1:completed:7" "c1" "h1" 0 ∅ _
    [Claim "CA1:completed:7" "c1" "h2" 10; Release "CA1:completed:7" "h2"] 20
    [Claim "CA1:completed:7" "c1" "h4" 50000] "c1" "h3" 60000); [reflexivity| |].
  - repeat constructor; discriminate.
  - repeat constructor; discriminate.
Defined.

(** ** Replayed status callbacks *)

(** A status callback delivered again, whatever the second delivery draws and
    whenever it comes in the next hundred years, changes nothing: not the call,
    not its events or funnel, not the questions, and nobody is told twice. *)
Theorem status_callback_idempotent claim1 event1 payload1 claim2 event2 payload2 eventFails2
    p callSid callStatus now1 now2 w w1 :
  p.(p_CallSid) = Some callSid → p.(p_CallStatus) = Some callStatus →
  w.(callbacks) !! buildCallbackDedupeKey callSid callStatus p.(p_Timestamp) p.(p_SequenceNumber)
    = None →
  processStatusCallback claim1 event1 payload1 false p now1 w = (w1, false) →
  now2 <= now1 + NEVER_EXPIRE_MS →
  processStatusCallback claim2 event2 payload2 eventFails2 p now2 w1 = (w1, false).
Proof.
  unfold processStatusCallback. intros -> -> Hfree Hrun Hnow.
  destruct (negb (truthy callSid) || negb (truthy callStatus)); [by injection Hrun as <-|].
  destruct (mapTwilioStatus callStatus) as [mapped|];
    [|by destruct (getCallSessionByCallSid callSid w.(callState)), (getCallSessionByCallSid callSid w1.(callState))].
  destruct (getCallSessionByCallSid callSid w.(callState)) as [session|] eqn:Hs.
  2: { injection Hrun as <-. by rewrite Hs. }
  set (key := buildCallbackDedupeKey _ _ _ _) in *.
  unfold claimCallback, clear_expired in Hrun. rewrite Hfree, Hfree in Hrun.
  destruct (updateCallSession _ _ _ _ _) as [st [|]]; [done|]. injection Hrun as <-.
  cbn [callState callbacks questions completed_calls].
  destruct (getCallSessionByCallSid callSid st) as [session2|]; [|done].
  rewrite (held_refuses key claim1 (now1 + NEVER_EXPIRE_MS)); [done| |done].
  unfold finalizeCallbackClaim. rewrite lookup_insert_eq. cbn [claimId].
  rewrite String.eqb_refl. cbn [fst]. eexists. rewrite lookup_insert_eq. split; [done|].
  split; [done|]. unfold CLAIM_EXPIRY_MS. simpl. lia.
Qed.

Definition sample_world : CallWorld :=
  {| callState := foldl call_step empty_calls
       [OpCreate "c1" 0 sample_call;
        OpUpdate "c1" {| u_status := None; u_providerCallSid := Some (Some "CA1");
                         u_startedAt := None; u_endedAt := None; u_lastError := None;
                         u_conversationId := None; u_initiatedFrom := None |} [] 1];
     callbacks := ∅; questions := createPendingQuestion "q1" "c1" "Which day?" 1 [];
     completed_calls := [] |}.

Definition completed_callback : CallbackParams :=
  {| p_CallSid := Some "CA1"; p_CallStatus := Some "completed"; p_Timestamp := None;
     p_SequenceNumber := Some "4" |}.

Lemma status_callback_idempotent_witness :
  let w1 := (processStatusCallback "k1" "e1" "{}" false completed_callback 100 sample_world).1 in
  w1.(completed_calls) = ["c1"] ∧ getPendingQuestion "c1" w1.(questions) = None
  ∧ processStatusCallback "k2" "e2" "{}" false completed_callback 99999 w1 = (w1, false).
Proof.
  split; [reflexivity|]. split; [reflexivity|].
  apply (status_callback_idempotent "k1" "e1" "{}" "k2" "e2" "{}" false completed_callback
    "CA1" "completed" 100 99999 sample_world); [reflexivity|reflexivity|reflexivity|reflexivity|].
  vm_compute. discriminate.
Defined.
