(* ===== verification/SenderTrust.v ===== *)
(** Who is speaking ([gateway/src/risk/trust-verdict-resolver.ts],
    [auth/guardian-integrity.ts], [channels/plugin-inbound.ts],
    [packages/gateway-client/src/trust-verdict-contract.ts],
    [assistant/src/runtime/trust-verdict-consumer.ts]): the gateway classifies an
    inbound actor from its contact tables, the daemon decides whether it can rely
    on the verdict. Each call reads the clock once; that a database read throws is
    not modelled (the code then serves a verdict without the optional stamp). *)
From S2P Require Import Prelude JsString VerificationSessions VerificationFlow.

(** ** The contact tables *)

Record Contact := {
  contact_id : string;
  displayName : string;
  contact_role : string;
  principalId : option string;
  autoApproveThreshold : option string;
  contact_createdAt : Z;
  contact_updatedAt : Z
}.

Record ContactChannel := {
  channel_id : string;
  channel_contactId : string;
  channel_type : string;
  channel_address : string;
  channel_isPrimary : bool;
  channel_externalChatId : option string;
  channel_status : string;
  channel_policy : string;
  channel_verifiedAt : option Z;
  channel_verifiedVia : option string;
  channel_inviteId : option string;
  channel_revokedReason : option string;
  channel_blockedReason : option string;
  channel_lastSeenAt : option Z;
  channel_interactionCount : Z;
  channel_lastInteraction : option Z;
  channel_createdAt : Z;
  channel_updatedAt : option Z
}.

Record AclTables := { acl_contacts : list Contact; acl_channels : list ContactChannel }.

(** [innerJoin(contacts, contact_channels)] on the primary key of the contact. *)
Definition joined (t : AclTables) : list (Contact * ContactChannel) :=
  omap (λ ch, (λ c, (c, ch)) <$>
              find_first (λ c, String.eqb c.(contact_id) ch.(channel_contactId)) t.(acl_contacts))
    t.(acl_channels).

(** [COLLATE NOCASE], and [toLowerCase] on both sides *)
Definition nocase_eq (a b : string) : bool := String.eqb (to_lower a) (to_lower b).

(** ** The actor *)

Definition pluginMemberIdentity (sourceChannel actorExternalId : string) : string * string :=
  let same := (sourceChannel, actorExternalId) in
  if negb (String.eqb sourceChannel "plugin") then same
  else match index_of_char ":" actorExternalId with
       | None | Some O => same
       | Some sep =>
           let type := slice_to sep actorExternalId in
           let address := slice_from (S sep) actorExternalId in
           if negb (truthy type) || negb (truthy address) then same else (type, address)
       end.

Definition canonicalSenderIdFor (ch : string) (actorExternalId : option string) : option string :=
  let trimmed := trim (default "" actorExternalId) in
  if truthy trimmed then canonicalizeInboundIdentity ch trimmed else None.

(** [actorExternalId ? pluginMemberIdentity(...) : ...] *)
Definition memberIdentity (channelType : string) (actorExternalId : option string)
    : string * option string :=
  match actorExternalId with
  | Some a =>
      if truthy a
      then let '(type, address) := pluginMemberIdentity channelType a in (type, Some address)
      else (channelType, Some a)
  | None => (channelType, None)
  end.

(** ** The verdict *)

(** [trustClass], [status] and [policy] are strings on the wire; [None] for the
    fields that are absent. [resolutionFailed] is present only as [true]. *)
Record TrustVerdict := {
  tv_trustClass : string;
  tv_canonicalSenderId : option string;
  tv_resolutionFailed : bool;
  tv_guardianExternalUserId : option string;
  tv_guardianDeliveryChatId : option string;
  tv_guardianPrincipalId : option string;
  tv_guardianDisplayName : option string;
  tv_contactId : option string;
  tv_channelId : option string;
  tv_type : option string;
  tv_address : option string;
  tv_externalChatId : option string;
  tv_status : option string;
  tv_policy : option string;
  tv_verifiedAt : option Z;
  tv_memberDisplayName : option string;
  tv_autoApproveThreshold : option string;
  tv_interactionCount : option Z;
  tv_hasInterceptableVerificationSession : option bool
}.

(** [{ trustClass: "unknown", canonicalSenderId, resolutionFailed }] *)
Definition memberless_verdict (canonicalSenderId : option string) (failed : bool) : TrustVerdict :=
  {| tv_trustClass := "unknown"; tv_canonicalSenderId := canonicalSenderId;
     tv_resolutionFailed := failed; tv_guardianExternalUserId := None;
     tv_guardianDeliveryChatId := None; tv_guardianPrincipalId := None;
     tv_guardianDisplayName := None; tv_contactId := None; tv_channelId := None;
     tv_type := None; tv_address := None; tv_externalChatId := None; tv_status := None;
     tv_policy := None; tv_verifiedAt := None; tv_memberDisplayName := None;
     tv_autoApproveThreshold := None; tv_interactionCount := None;
     tv_hasInterceptableVerificationSession := None |}.

Definition makeResolutionFailedVerdict (canonicalSenderId : option string) : TrustVerdict :=
  memberless_verdict canonicalSenderId true.
Definition makeUnauthenticatedSenderVerdict (canonicalSenderId : option string) : TrustVerdict :=
  memberless_verdict canonicalSenderId false.

(** ** Guardian integrity *)

Inductive GuardianIntegrityState := integrity_ok | missing_guardian.

#[export] Instance GuardianIntegrityState_eq_dec : EqDecision GuardianIntegrityState.
Proof. solve_decision. Defined.

Definition STATE_TTL_MS : Z := 30000.

(** [cached]: the state and when it was computed *)
Definition IntegrityCache := option (GuardianIntegrityState * Z).

Definition hasGuardianContactRow (t : AclTables) : bool :=
  existsb (λ c, String.eqb c.(contact_role) "guardian") t.(acl_contacts).

(** [hasActorTokens]: one of the two token tables has a row. *)
Definition computeState (hasActorTokens : bool) (t : AclTables) : GuardianIntegrityState :=
  if hasGuardianContactRow t then integrity_ok
  else if (length t.(acl_contacts) =? 0)%nat && negb hasActorTokens then integrity_ok
  else missing_guardian.

Definition guardianIntegrityState (hasActorTokens : bool) (now : Z) (t : AclTables)
    (cached : IntegrityCache) : IntegrityCache * GuardianIntegrityState :=
  let fresh := (Some (computeState hasActorTokens t, now), computeState hasActorTokens t) in
  match cached with
  | Some (state, at_) => if (now - at_ <? STATE_TTL_MS)%Z then (cached, state) else fresh
  | None => fresh
  end.

(** ** The resolver *)

(** [ORDER BY verified_at DESC LIMIT 1]: NULL sorts last; the earlier row wins a tie. *)
Definition later_verified (best : option (Contact * ContactChannel))
    (row : Contact * ContactChannel) : option (Contact * ContactChannel) :=
  match best with
  | None => Some row
  | Some b =>
      match b.2.(channel_verifiedAt), row.2.(channel_verifiedAt) with
      | Some v, Some v' => if (v <? v')%Z then Some row else best
      | None, Some _ => Some row
      | _, None => best
      end
  end.

Definition active_guardian_on (type : string) (row : Contact * ContactChannel) : bool :=
  String.eqb row.1.(contact_role) "guardian" && String.eqb row.2.(channel_type) type
  && String.eqb row.2.(channel_status) "active".

Definition guardianRow (type : string) (t : AclTables) : option (Contact * ContactChannel) :=
  foldl later_verified None (List.filter (active_guardian_on type) (joined t)).

Definition member_match (type sender : string) (row : Contact * ContactChannel) : bool :=
  String.eqb row.2.(channel_type) type && nocase_eq row.2.(channel_address) sender.

(** [LIMIT 1] without an order: SQLite answers some row that matches; here the
    first one inserted. *)
Definition memberRow (type : string) (sender : option string) (t : AclTables)
    : option (Contact * ContactChannel) :=
  match sender with
  | Some s => if truthy s then find_first (member_match type s) (joined t) else None
  | None => None
  end.

Definition isGuardian (guardian : option (Contact * ContactChannel)) (sender : option string)
    : bool :=
  match guardian, sender with
  | Some g, Some s => truthy s && nocase_eq g.2.(channel_address) s
  | _, _ => false
  end.

Definition live_status (status : string) : bool :=
  mem status ["active"; "pending"; "unverified"].

Definition memberDeniedByStatus (member : option (Contact * ContactChannel)) : bool :=
  match member with Some m => negb (live_status m.2.(channel_status)) | None => false end.

(** The member's contact, when it is a guardian that still has an active channel. *)
Definition guardianIdentityMatch (is_guardian : bool)
    (member : option (Contact * ContactChannel)) (t : AclTables) : option Contact :=
  match member with
  | Some m =>
      if negb is_guardian && negb (memberDeniedByStatus member)
         && String.eqb m.1.(contact_role) "guardian"
      then fst <$> find_first (λ row, String.eqb row.1.(contact_role) "guardian"
                                      && String.eqb row.2.(channel_status) "active"
                                      && String.eqb row.1.(contact_id) m.2.(channel_contactId))
                     (joined t)
      else None
  | None => None
  end.

Definition classify_sender (is_guardian : bool) (by_principal : option Contact)
    (member : option (Contact * ContactChannel)) : string :=
  if is_guardian || (match by_principal with Some _ => true | None => false end) then "guardian"
  else match member with
       | Some m =>
           let status := m.2.(channel_status) in
           if String.eqb status "active" then "trusted_contact"
           else if String.eqb status "unverified" || String.eqb status "pending"
           then "unverified_contact" else "unknown"
       | None => "unknown"
       end.

Definition RISK_THRESHOLD_VALUES : list string := ["none"; "low"; "medium"; "high"].

Definition parseContactAutoApproveThreshold (value : option string) : option string :=
  v ← value; if mem v RISK_THRESHOLD_VALUES then Some v else None.

Definition nonempty (s : option string) : option string :=
  v ← s; if truthy v then Some v else None.

(** The verdict with its guardian and member fields. *)
Definition build_verdict (trustClass : string) (sender : option string) (failed : bool)
    (guardian : option (Contact * ContactChannel)) (by_principal : option Contact)
    (member : option (Contact * ContactChannel)) (interceptable : bool) : TrustVerdict :=
  {| tv_trustClass := trustClass;
     tv_canonicalSenderId := sender;
     tv_resolutionFailed := failed;
     tv_guardianExternalUserId := (λ g, g.2.(channel_address)) <$> guardian;
     tv_guardianDeliveryChatId := guardian ≫= λ g, g.2.(channel_externalChatId);
     tv_guardianPrincipalId :=
       match guardian with
       | Some g => nonempty g.1.(principalId)
       | None => by_principal ≫= λ c, nonempty c.(principalId)
       end;
     tv_guardianDisplayName :=
       match guardian with
       | Some g => Some g.1.(displayName)
       | None => by_principal ≫= λ c, nonempty (Some c.(displayName))
       end;
     tv_contactId := (λ m, m.2.(channel_contactId)) <$> member;
     tv_channelId := (λ m, m.2.(channel_id)) <$> member;
     tv_type := (λ m, m.2.(channel_type)) <$> member;
     tv_address := (λ m, m.2.(channel_address)) <$> member;
     tv_externalChatId := member ≫= λ m, m.2.(channel_externalChatId);
     tv_status := (λ m, m.2.(channel_status)) <$> member;
     tv_policy := (λ m, m.2.(channel_policy)) <$> member;
     tv_verifiedAt := member ≫= λ m, m.2.(channel_verifiedAt);
     tv_memberDisplayName := (λ m, m.1.(displayName)) <$> member;
     tv_autoApproveThreshold :=
       member ≫= λ m, parseContactAutoApproveThreshold m.1.(autoApproveThreshold);
     tv_interactionCount := (λ m, m.2.(channel_interactionCount)) <$> member;
     tv_hasInterceptableVerificationSession := Some interceptable |}.

Definition resolveTrustVerdict (hasActorTokens : bool) (now : Z) (verifications : Sessions)
    (t : AclTables) (channelType : string) (actorExternalId : option string)
    (cached : IntegrityCache) : IntegrityCache * TrustVerdict :=
  let '(type, address) := memberIdentity channelType actorExternalId in
  let sender := canonicalSenderIdFor type address in
  let guardian := guardianRow type t in
  let member := memberRow type sender t in
  let is_guardian := isGuardian guardian sender in
  let by_principal := guardianIdentityMatch is_guardian member t in
  match by_principal with
  | Some c =>
      if negb (truthy (default "" c.(principalId)))
      then (cached, makeResolutionFailedVerdict sender)
      else
        let '(cached, _) := guardianIntegrityState hasActorTokens now t cached in
        (cached, build_verdict "guardian" sender false guardian by_principal member
                   (hasInterceptableSession channelType now verifications))
  | None =>
      let class := classify_sender is_guardian None member in
      let '(cached, integrity) := guardianIntegrityState hasActorTokens now t cached in
      let failed := bool_decide (integrity = missing_guardian) && String.eqb class "unknown" in
      (cached, build_verdict class sender failed guardian None member
                 (hasInterceptableSession channelType now verifications))
  end.

(** ** The consumer *)

Inductive SenderClass := class_guardian | class_trusted_contact | class_unverified_contact
                      | class_unknown.

#[export] Instance SenderClass_eq_dec : EqDecision SenderClass.
Proof. solve_decision. Defined.

(** [isTrustClass] *)
Definition sender_class_of (s : string) : option SenderClass :=
  if String.eqb s "guardian" then Some class_guardian
  else if String.eqb s "trusted_contact" then Some class_trusted_contact
  else if String.eqb s "unverified_contact" then Some class_unverified_contact
  else if String.eqb s "unknown" then Some class_unknown
  else None.

Inductive ChannelStatus := st_active | st_pending | st_revoked | st_blocked | st_unverified.

#[export] Instance ChannelStatus_eq_dec : EqDecision ChannelStatus.
Proof. solve_decision. Defined.

(** [isChannelStatus] and [isChannelPolicy] (whether the policy allows) *)
Definition channel_status_of (s : string) : option ChannelStatus :=
  if String.eqb s "active" then Some st_active
  else if String.eqb s "pending" then Some st_pending
  else if String.eqb s "revoked" then Some st_revoked
  else if String.eqb s "blocked" then Some st_blocked
  else if String.eqb s "unverified" then Some st_unverified
  else None.

Inductive ChannelPolicy := policy_allow | policy_deny.

#[export] Instance ChannelPolicy_eq_dec : EqDecision ChannelPolicy.
Proof. solve_decision. Defined.

Definition channel_policy_of (s : string) : option ChannelPolicy :=
  if String.eqb s "allow" then Some policy_allow
  else if String.eqb s "deny" then Some policy_deny
  else None.

Record VerdictMember := {
  vm_contactId : string;
  vm_channelId : string;
  vm_status : ChannelStatus;
  vm_policy : ChannelPolicy;
  vm_verifiedAt : option Z;
  vm_displayName : option string
}.

Definition verdictMemberFromVerdict (v : TrustVerdict) : option VerdictMember :=
  contact ← nonempty v.(tv_contactId);
  chan ← nonempty v.(tv_channelId);
  status ← v.(tv_status) ≫= channel_status_of;
  policy ← v.(tv_policy) ≫= channel_policy_of;
  Some {| vm_contactId := contact; vm_channelId := chan; vm_status := status;
          vm_policy := policy; vm_verifiedAt := v.(tv_verifiedAt);
          vm_displayName := v.(tv_memberDisplayName) |}.

Definition verdictHasMemberIdentity (v : TrustVerdict) : bool :=
  match nonempty v.(tv_contactId), nonempty v.(tv_channelId) with
  | None, None => false
  | _, _ => true
  end.

Definition verdictMemberUnresolvable (v : TrustVerdict) : bool :=
  verdictHasMemberIdentity v
  && match verdictMemberFromVerdict v with Some _ => false | None => true end.

Inductive VerdictUnusableReason :=
  | verdict_missing | resolution_failed | member_unresolvable
  | unrecognized_trust_class | guardian_without_member.

(** The class of a usable verdict comes with it. *)
Definition verdictUsability (verdict : option TrustVerdict)
    : (TrustVerdict * SenderClass) + VerdictUnusableReason :=
  match verdict with
  | None => inr verdict_missing
  | Some v =>
      if v.(tv_resolutionFailed) then inr resolution_failed
      else if verdictMemberUnresolvable v then inr member_unresolvable
      else match sender_class_of v.(tv_trustClass) with
           | None => inr unrecognized_trust_class
           | Some class =>
               match class, verdictMemberFromVerdict v with
               | class_guardian, None => inr guardian_without_member
               | _, _ => inl (v, class)
               end
           end
  end.

Definition isKeptOutStatus (status : option ChannelStatus) : bool :=
  bool_decide (status = Some st_revoked) || bool_decide (status = Some st_blocked).

(** [channelStatusToMemberStatus] *)
Definition member_status_name (status : ChannelStatus) : string :=
  match status with
  | st_active => "active" | st_pending => "pending" | st_revoked => "revoked"
  | st_blocked => "blocked" | st_unverified => "pending"
  end.

(** ** What a verdict says about the tables *)

Lemma elem_of_joined t c ch :
  (c, ch) ∈ joined t → ch ∈ t.(acl_channels) ∧ c ∈ t.(acl_contacts)
  ∧ c.(contact_id) = ch.(channel_contactId)
  ∧ find_first (λ c, String.eqb c.(contact_id) ch.(channel_contactId)) t.(acl_contacts) = Some c.
Proof.
  unfold joined. rewrite list_elem_of_omap. intros (ch' & Hin & Hf).
  apply fmap_Some in Hf as (c' & Hc & [= <- <-]).
  pose proof (find_first_Some _ _ _ Hc) as [? ?]. bool_to_prop. done.
Qed.

Lemma later_verified_elem rows best g :
  foldl later_verified best rows = Some g → best = Some g ∨ g ∈ rows.
Proof.
  revert best. induction rows as [|row rows IH]; intros best; simpl; [auto|].
  intros [H | H]%IH; [|set_solver].
  destruct best as [b|]; simpl in *; [|simplify_eq; set_solver].
  repeat case_match; simplify_eq; set_solver.
Qed.

Lemma guardianRow_Some type t g :
  guardianRow type t = Some g → g ∈ joined t ∧ active_guardian_on type g = true.
Proof.
  unfold guardianRow. intros [?|H]%later_verified_elem; [done|].
  by apply elem_of_lfilter in H.
Qed.

Lemma memberRow_Some type sender t m :
  memberRow type sender t = Some m →
  m ∈ joined t ∧ ∃ s, sender = Some s ∧ truthy s = true ∧ member_match type s m = true.
Proof.
  unfold memberRow. destruct sender as [s|]; [|done]. destruct (truthy s) eqn:Hs; [|done].
  intros [? ?]%find_first_Some. eauto.
Qed.

(** The evidence behind the class of a guardian: the sender's address is that of
    an active guardian channel of this type, or of another channel of a guardian
    who has a principal and is active somewhere. *)
Definition guardian_evidence (t : AclTables) (type : string) (sender : option string) : Prop :=
  ∃ c ch s, (c, ch) ∈ joined t ∧ c.(contact_role) = "guardian" ∧ ch.(channel_type) = type
    ∧ sender = Some s ∧ nocase_eq ch.(channel_address) s = true
    ∧ (ch.(channel_status) = "active"
       ∨ live_status ch.(channel_status) = true
         ∧ truthy (default "" c.(principalId)) = true
         ∧ ∃ ch', (c, ch') ∈ joined t ∧ ch'.(channel_status) = "active").

Lemma isGuardian_evidence t type sender :
  isGuardian (guardianRow type t) sender = true → guardian_evidence t type sender.
Proof.
  unfold isGuardian. destruct (guardianRow type t) as [[c ch]|] eqn:Hg; [|done].
  destruct sender as [s|]; [|done]. intros [_ Haddr]%andb_prop.
  apply guardianRow_Some in Hg as [Hin Hact]. unfold active_guardian_on in Hact. simpl in *.
  bool_to_prop. exists c, ch, s. auto 10.
Qed.

Lemma guardianIdentityMatch_evidence t type sender g c :
  guardianIdentityMatch g (memberRow type sender t) t = Some c →
  truthy (default "" c.(principalId)) = true → guardian_evidence t type sender.
Proof.
  unfold guardianIdentityMatch. destruct (memberRow type sender t) as [[c0 ch]|] eqn:Hm; [|done].
  simpl. case_match eqn:Hc; [|done]. intros Hf Hp.
  apply fmap_Some in Hf as ([c' ch'] & Hf & ->).
  apply find_first_Some in Hf as [Hin' Hf]. simpl in *. bool_to_prop.
  apply memberRow_Some in Hm as (Hin & s & -> & _ & Hmatch).
  unfold member_match in Hmatch. simpl in *. bool_to_prop.
  assert (c' = c0) as ->.
  { apply elem_of_joined in Hin as (_ & _ & _ & Hf1).
    apply elem_of_joined in Hin' as (_ & _ & Hid & Hf2).
    assert (channel_contactId ch' = channel_contactId ch) as Heq by congruence.
    rewrite Heq in Hf2. congruence. }
  exists c0, ch, s. split_and!; try done. right. split_and!; eauto.
Qed.

Lemma guardian_no_principal t type sender g c :
  guardianIdentityMatch g (memberRow type sender t) t = Some c → g = false.
Proof.
  unfold guardianIdentityMatch. destruct (memberRow type sender t); [|done].
  destruct g; [done|]. done.
Qed.

(** The class the resolver answers, by the row it found. *)
Definition class_evidence (t : AclTables) (type : string) (sender : option string)
    (class : SenderClass) : Prop :=
  let row := memberRow type sender t in
  match class with
  | class_guardian => guardian_evidence t type sender
  | class_trusted_contact => ∃ m, row = Some m ∧ m.2.(channel_status) = "active"
  | class_unverified_contact =>
      ∃ m, row = Some m ∧ (m.2.(channel_status) = "pending" ∨ m.2.(channel_status) = "unverified")
  | class_unknown => ∀ m, row = Some m → live_status m.2.(channel_status) = false
  end.

Lemma classify_evidence t type sender class :
  let g := isGuardian (guardianRow type t) sender in
  sender_class_of (classify_sender g None (memberRow type sender t)) = Some class →
  class_evidence t type sender class.
Proof.
  intros g. unfold classify_sender. destruct g eqn:Hg; simpl.
  { intros [= <-]. by apply isGuardian_evidence. }
  unfold class_evidence. destruct (memberRow type sender t) as [m|]; [|by intros [= <-]].
  case_match eqn:H1; [intros [= <-]; bool_to_prop; eauto|].
  case_match eqn:H2; intros [= <-].
  - exists m. split; [done|]. apply orb_prop in H2 as [?|?]; bool_to_prop; auto.
  - intros m' [= <-]. apply mem_false. bool_to_prop. set_solver.
Qed.

(** A verdict that could be resolved is about the sender's member row, and its
    class is borne out by the tables. *)
Lemma resolve_spec tokens now ss t channelType actor cached cached' v :
  resolveTrustVerdict tokens now ss t channelType actor cached = (cached', v) →
  v.(tv_resolutionFailed) = false →
  let '(type, address) := memberIdentity channelType actor in
  let sender := canonicalSenderIdFor type address in
  let row := memberRow type sender t in
  v.(tv_canonicalSenderId) = sender
  ∧ v.(tv_contactId) = (λ m, m.2.(channel_contactId)) <$> row
  ∧ v.(tv_channelId) = (λ m, m.2.(channel_id)) <$> row
  ∧ v.(tv_status) = (λ m, m.2.(channel_status)) <$> row
  ∧ v.(tv_policy) = (λ m, m.2.(channel_policy)) <$> row
  ∧ (∀ class, sender_class_of v.(tv_trustClass) = Some class →
              class_evidence t type sender class).
Proof.
  unfold resolveTrustVerdict. destruct (memberIdentity channelType actor) as [type address].
  set (sender := canonicalSenderIdFor type address).
  destruct (guardianIdentityMatch _ _ _) as [c|] eqn:Hby.
  - case_match eqn:Hp; [by intros [= <- <-]|]. apply negb_false_iff in Hp.
    destruct (guardianIntegrityState _ _ _ _) as [cc ii]. intros [= <- <-] _. simpl.
    split_and!; try done. intros class [= <-]. by eapply guardianIdentityMatch_evidence.
  - destruct (guardianIntegrityState _ _ _ _) as [cc ii]. intros [= <- <-] _. simpl.
    split_and!; try done. intros class. apply classify_evidence.
Qed.

(** ** What the consumer relies on *)

Lemma usable_spec v v' class :
  verdictUsability (Some v) = inl (v', class) →
  v' = v ∧ v.(tv_resolutionFailed) = false ∧ sender_class_of v.(tv_trustClass) = Some class
  ∧ (verdictMemberFromVerdict v = None →
     class ≠ class_guardian ∧ nonempty v.(tv_contactId) = None ∧ nonempty v.(tv_channelId) = None).
Proof.
  unfold verdictUsability. destruct (tv_resolutionFailed v); [done|].
  unfold verdictMemberUnresolvable, verdictHasMemberIdentity.
  destruct (verdictMemberFromVerdict v) eqn:Hm.
  - rewrite andb_false_r. destruct (sender_class_of _) as [c|]; [|done].
    destruct c; intros [= <- <-]; done.
  - destruct (nonempty (tv_contactId v)), (nonempty (tv_channelId v)); simpl; try done.
    destruct (sender_class_of _) as [c|]; [|done].
    destruct c; intros H; simplify_eq; done.
Qed.

Lemma verdict_member_spec v m :
  verdictMemberFromVerdict v = Some m →
  (v.(tv_status) ≫= channel_status_of) = Some m.(vm_status)
  ∧ (v.(tv_policy) ≫= channel_policy_of) = Some m.(vm_policy).
Proof.
  unfold verdictMemberFromVerdict. intros H.
  destruct (nonempty (tv_contactId v)); [|done]. destruct (nonempty (tv_channelId v)); [|done].
  simpl in H. destruct (tv_status v ≫= channel_status_of); [|done].
  destruct (tv_policy v ≫= channel_policy_of); [|done]. simpl in H. by simplify_eq.
Qed.

Lemma channel_status_of_inv s st :
  channel_status_of s = Some st →
  s = match st with
      | st_active => "active" | st_pending => "pending" | st_revoked => "revoked"
      | st_blocked => "blocked" | st_unverified => "unverified"
      end.
Proof.
  unfold channel_status_of. repeat (case_match; [bool_to_prop; by intros [= <-]|]). done.
Qed.

Lemma channel_policy_of_inv s p :
  channel_policy_of s = Some p →
  s = match p with policy_allow => "allow" | policy_deny => "deny" end.
Proof.
  unfold channel_policy_of. repeat (case_match; [bool_to_prop; by intros [= <-]|]). done.
Qed.

(** ** The guardian is recognised *)

Lemma canonical_truthy type actor s : canonicalSenderIdFor type actor = Some s → truthy s = true.
Proof.
  assert (∀ p, truthy (plus p) = true) as Hplus by done.
  assert (∀ x, truthy (to_lower x) = truthy x) as Hlow by (by intros []).
  assert (∀ x y, normalizePhoneNumber x = Some y → truthy y = true) as Hphone.
  { intros x y. unfold normalizePhoneNumber. intros H.
    repeat (case_match; simplify_eq; try done). }
  unfold canonicalSenderIdFor, canonicalizeInboundIdentity, canonicalizeIdentityAs.
  destruct (truthy (trim (default "" actor))) eqn:Ht; [|done].
  case_match eqn:Ht'; [done|]. apply negb_false_iff in Ht'.
  case_match; intros [= <-]; [|by rewrite Hlow|done].
  destruct (normalizePhoneNumber _) eqn:Hn; [by eapply Hphone|done].
Qed.

(** A row of an active guardian channel that has what a verdict needs. *)
Record guardian_row (t : AclTables) (type s : string) (g : Contact * ContactChannel) : Prop := {
  gr_joined : g ∈ joined t;
  gr_role : g.1.(contact_role) = "guardian";
  gr_type : g.2.(channel_type) = type;
  gr_address : nocase_eq g.2.(channel_address) s = true;
  gr_active : g.2.(channel_status) = "active";
  gr_allow : g.2.(channel_policy) = "allow";
  gr_principal : truthy (default "" g.1.(principalId)) = true;
  gr_ids : truthy g.2.(channel_id) = true ∧ truthy g.2.(channel_contactId) = true;
  gr_only : ∀ row, row ∈ joined t → member_match type s row = true → row = g
}.

Lemma guardian_memberRow t type s g :
  guardian_row t type s g → truthy s = true → memberRow type (Some s) t = Some g.
Proof.
  intros [] Hs. unfold memberRow. rewrite Hs.
  destruct (find_first _ _) as [row|] eqn:Hf.
  - apply find_first_Some in Hf as [? ?]. f_equal. auto.
  - pose proof (proj1 (find_first_None _ _) Hf g gr_joined0) as Hn.
    unfold member_match in Hn. by rewrite gr_address0, gr_type0, String.eqb_refl in Hn.
Qed.

Lemma guardian_identity t type s g :
  guardian_row t type s g → guardianIdentityMatch false (Some g) t = Some g.1.
Proof.
  intros []. unfold guardianIdentityMatch. simpl.
  rewrite gr_role0, gr_active0. simpl.
  destruct (find_first _ _) as [row|] eqn:Hf.
  - apply find_first_Some in Hf as [Hin Hrow]. bool_to_prop. simpl. f_equal.
    destruct row as [c ch], g as [c' ch']. simpl in *.
    apply elem_of_joined in Hin as (_ & _ & Hid & Hf1).
    apply elem_of_joined in gr_joined0 as (_ & _ & _ & Hf2).
    rewrite <- Hid in Hf1.
    assert (contact_id c = channel_contactId ch') as Heq by done.
    rewrite Heq in Hf1. congruence.
  - pose proof (proj1 (find_first_None _ _) Hf g gr_joined0) as Hn.
    destruct g as [c' ch']. simpl in *. rewrite gr_role0, gr_active0 in Hn.
    apply elem_of_joined in gr_joined0 as (_ & _ & Hid & _).
    rewrite Hid, !String.eqb_refl in Hn. discriminate Hn.
Qed.

(** The verdict on such a sender is usable and says so. *)
Lemma guardian_recognised tokens now ss t channelType actor cached type address s g :
  memberIdentity channelType actor = (type, address) →
  canonicalSenderIdFor type address = Some s → guardian_row t type s g →
  ∃ cached' v vm, resolveTrustVerdict tokens now ss t channelType actor cached = (cached', v)
    ∧ verdictUsability (Some v) = inl (v, class_guardian) ∧ v.(tv_trustClass) = "guardian"
    ∧ verdictMemberFromVerdict v = Some vm ∧ vm.(vm_contactId) = g.2.(channel_contactId)
    ∧ vm.(vm_status) = st_active ∧ vm.(vm_policy) = policy_allow.
Proof.
  intros Hid Hs Hg. pose proof (canonical_truthy _ _ _ Hs) as Ht.
  pose proof (guardian_memberRow _ _ _ _ Hg Ht) as Hrow.
  pose proof (guardian_identity _ _ _ _ Hg) as Hby. destruct Hg.
  assert (∀ failed by_p i, failed = false → ∃ vm,
    let v := build_verdict "guardian" (Some s) failed (guardianRow type t) by_p (Some g) i in
    verdictUsability (Some v) = inl (v, class_guardian) ∧ verdictMemberFromVerdict v = Some vm
    ∧ vm.(vm_contactId) = g.2.(channel_contactId)
    ∧ vm.(vm_status) = st_active ∧ vm.(vm_policy) = policy_allow) as Hbuild.
  { intros failed by_p i ->. eexists. simpl. unfold verdictUsability, verdictMemberUnresolvable,
      verdictHasMemberIdentity, verdictMemberFromVerdict. simpl.
    destruct gr_ids0 as [H1 H2]. rewrite H1, H2. simpl. rewrite gr_active0, gr_allow0. simpl.
    split_and!; reflexivity. }
  unfold resolveTrustVerdict. rewrite Hid, Hs, Hrow.
  destruct (isGuardian (guardianRow type t) (Some s)) eqn:His.
  - simpl. destruct (guardianIntegrityState _ _ _ _) as [cc ii].
    destruct (Hbuild (bool_decide (ii = missing_guardian) && false) None
                (hasInterceptableSession channelType now ss)) as (vm & ? & ? & ? & ? & ?);
      [by rewrite andb_false_r|].
    eexists _, _, vm. split; [reflexivity|]. by split_and!.
  - rewrite Hby, gr_principal0. simpl.
    destruct (guardianIntegrityState _ _ _ _) as [cc ii].
    destruct (Hbuild false (Some g.1) (hasInterceptableSession channelType now ss) eq_refl)
      as (vm & ? & ? & ? & ? & ?).
    eexists _, _, vm. split; [reflexivity|]. by split_and!.
Qed.
