(* ===== verification/ContactStore.v ===== *)
(** The contact tables of the gateway and the statements on them
    ([gateway/src/db/contact-store.ts], [gateway/src/db/schema.ts],
    [packages/gateway-client/src/binding-strength-contract.ts]).

    A store operation is a computation over the database that answers or throws;
    what it wrote before it throws stays, unless it runs in a [transaction]. The
    engine's constraints (primary keys, the unique index on [(type, address)], the
    foreign keys) are checked by every statement. Clocks and fresh identifiers are
    arguments; [meanwhile] is what other requests write while an operation waits for
    the assistant. The assistant's copy of a contact is not modelled: it carries no
    access control. *)
From S2P Require Import Prelude JsString VerificationSessions VerificationFlow SenderTrust.

(** ** The database *)

Record Invite := {
  inv_id : string;
  inv_sourceChannel : string;
  inv_inviteCodeHash : string;
  inv_tokenHash : option string;
  inv_voiceCodeHash : option string;
  inv_voiceCodeDigits : option Z;
  inv_expectedExternalUserId : option string;
  inv_friendName : option string;
  inv_guardianName : option string;
  inv_sourceConversationId : option string;
  inv_note : option string;
  inv_maxUses : Z;
  inv_useCount : Z;
  inv_expiresAt : Z;
  inv_status : string;
  inv_redeemedByExternalUserId : option string;
  inv_redeemedByExternalChatId : option string;
  inv_redeemedAt : option Z;
  inv_contactId : string;
  inv_createdAt : Z;
  inv_updatedAt : Z
}.

Record GatewayDb := { acl : AclTables; invites : list Invite }.

Definition contacts (db : GatewayDb) : list Contact := db.(acl).(acl_contacts).
Definition channels (db : GatewayDb) : list ContactChannel := db.(acl).(acl_channels).

Definition with_contacts (cs : list Contact) (db : GatewayDb) : GatewayDb :=
  {| acl := {| acl_contacts := cs; acl_channels := channels db |}; invites := db.(invites) |}.
Definition with_channels (chs : list ContactChannel) (db : GatewayDb) : GatewayDb :=
  {| acl := {| acl_contacts := contacts db; acl_channels := chs |}; invites := db.(invites) |}.
Definition with_invites (rows : list Invite) (db : GatewayDb) : GatewayDb :=
  {| acl := db.(acl); invites := rows |}.

Definition has_contact (db : GatewayDb) (i : string) : bool :=
  existsb (λ c, String.eqb c.(contact_id) i) (contacts db).

Definition exact_key (ch : ContactChannel) : string * string :=
  (ch.(channel_type), ch.(channel_address)).

(** Primary keys, [idx_contact_channels_type_address_unique] and the foreign keys. *)
Definition constraints (db : GatewayDb) : bool :=
  bool_decide (NoDup (contact_id <$> contacts db))
  && bool_decide (NoDup (channel_id <$> channels db))
  && bool_decide (NoDup (exact_key <$> channels db))
  && bool_decide (NoDup (inv_id <$> db.(invites)))
  && forallb (λ ch, has_contact db ch.(channel_contactId)) (channels db)
  && forallb (λ i, has_contact db i.(inv_contactId)) db.(invites).

(** ** Computations that read, write and throw *)

Inductive StoreError :=
  | constraint_failed
  | cannot_revoke_blocked (channelId : string)
  | cannot_downgrade_guardian (channelId : string)
  | merge_error (message : string).

Definition Store (A : Type) : Type := GatewayDb → (StoreError + A) * GatewayDb.

#[export] Instance Store_ret : MRet Store := λ A a db, (inr a, db).
#[export] Instance Store_bind : MBind Store := λ A B k m db,
  match m db with
  | (inl e, db') => (inl e, db')
  | (inr a, db') => k a db'
  end.

Definition throw {A} (e : StoreError) : Store A := λ db, (inl e, db).
Definition gets {A} (f : GatewayDb → A) : Store A := λ db, (inr (f db), db).
Definition interfere (f : GatewayDb → GatewayDb) : Store () := λ db, (inr (), f db).
Definition unless_none {A B} (a : option A) (b : B) (k : A → Store B) : Store B :=
  match a with Some a => k a | None => mret b end.

Definition transaction {A} (m : Store A) : Store A := λ db,
  match m db with
  | (inl e, _) => (inl e, db)
  | r => r
  end.

(** [try { ... } catch { ... }] *)
Definition catching {A} (m : Store A) (k : StoreError → Store A) : Store A := λ db,
  match m db with
  | (inl e, db') => k e db'
  | r => r
  end.

(** ** Statements *)

Definition commit {A} (a : A) (db' : GatewayDb) : Store A := λ db,
  if constraints db' then (inr a, db') else (inl constraint_failed, db).

(** One column of a [.set({...})]. *)
Inductive ChannelSet :=
  | set_contactId (v : string)
  | set_address (v : string)
  | set_isPrimary (v : bool)
  | set_externalChatId (v : option string)
  | set_status (v : string)
  | set_policy (v : string)
  | set_verifiedAt (v : option Z)
  | set_verifiedVia (v : option string)
  | set_inviteId (v : option string)
  | set_revokedReason (v : option string)
  | set_blockedReason (v : option string)
  | set_lastSeenAt (v : Z)
  | set_lastInteraction (v : Z)
  | bump_interactionCount
  | set_updatedAt (v : Z).

Definition apply_set (ch : ContactChannel) (s : ChannelSet) : ContactChannel :=
  {| channel_id := ch.(channel_id);
     channel_contactId := match s with set_contactId v => v | _ => ch.(channel_contactId) end;
     channel_type := ch.(channel_type);
     channel_address := match s with set_address v => v | _ => ch.(channel_address) end;
     channel_isPrimary := match s with set_isPrimary v => v | _ => ch.(channel_isPrimary) end;
     channel_externalChatId :=
       match s with set_externalChatId v => v | _ => ch.(channel_externalChatId) end;
     channel_status := match s with set_status v => v | _ => ch.(channel_status) end;
     channel_policy := match s with set_policy v => v | _ => ch.(channel_policy) end;
     channel_verifiedAt := match s with set_verifiedAt v => v | _ => ch.(channel_verifiedAt) end;
     channel_verifiedVia :=
       match s with set_verifiedVia v => v | _ => ch.(channel_verifiedVia) end;
     channel_inviteId := match s with set_inviteId v => v | _ => ch.(channel_inviteId) end;
     channel_revokedReason :=
       match s with set_revokedReason v => v | _ => ch.(channel_revokedReason) end;
     channel_blockedReason :=
       match s with set_blockedReason v => v | _ => ch.(channel_blockedReason) end;
     channel_lastSeenAt :=
       match s with set_lastSeenAt v => Some v | _ => ch.(channel_lastSeenAt) end;
     channel_interactionCount :=
       match s with bump_interactionCount => ch.(channel_interactionCount) + 1
       | _ => ch.(channel_interactionCount) end;
     channel_lastInteraction :=
       match s with set_lastInteraction v => Some v | _ => ch.(channel_lastInteraction) end;
     channel_createdAt := ch.(channel_createdAt);
     channel_updatedAt :=
       match s with set_updatedAt v => Some v | _ => ch.(channel_updatedAt) end |}%Z.

Definition apply_sets (sets : list ChannelSet) (ch : ContactChannel) : ContactChannel :=
  foldl apply_set ch sets.

(** [update(...).set(sets).where(p).returning({ id })] *)
Definition update_channels (p : ContactChannel → bool) (sets : list ChannelSet)
    : Store (list string) := λ db,
  commit (channel_id <$> List.filter p (channels db))
    (with_channels ((λ ch, if p ch then apply_sets sets ch else ch) <$> channels db) db) db.

Definition insert_channel (ch : ContactChannel) : Store () := λ db,
  commit () (with_channels (channels db ++ [ch]) db) db.

(** The ids inserted: none on a conflict of the primary key or the unique index. *)
Definition insert_channel_or_ignore (ch : ContactChannel) : Store (list string) := λ db,
  if existsb (λ c, String.eqb c.(channel_id) ch.(channel_id)
                   || bool_decide (exact_key c = exact_key ch)) (channels db)
  then (inr [], db)
  else commit [ch.(channel_id)] (with_channels (channels db ++ [ch]) db) db.

Definition insert_contact (c : Contact) : Store () := λ db,
  commit () (with_contacts (contacts db ++ [c]) db) db.

Definition insert_contact_or_ignore (c : Contact) : Store () := λ db,
  if has_contact db c.(contact_id) then (inr (), db) else insert_contact c db.

Definition update_contacts (p : Contact → bool) (f : Contact → Contact) : Store () := λ db,
  commit () (with_contacts ((λ c, if p c then f c else c) <$> contacts db) db) db.

(** A deleted contact takes its channels and invites along. *)
Definition delete_contacts (p : Contact → bool) : Store (list string) := λ db,
  let gone := contact_id <$> List.filter p (contacts db) in
  let stays i := negb (mem i gone) in
  (inr gone,
   {| acl := {| acl_contacts := List.filter (λ c, negb (p c)) (contacts db);
                acl_channels := List.filter (λ ch, stays ch.(channel_contactId)) (channels db) |};
      invites := List.filter (λ i, stays i.(inv_contactId)) db.(invites) |}).

Definition select_channel (p : ContactChannel → bool) : Store (option ContactChannel) :=
  gets (λ db, find_first p (channels db)).

(** ** Binding strength *)

Definition PROVEN_VERIFIED_VIA : list string :=
  ["challenge"; "invite"; "voice"; "bootstrap"; "platform_auto_register";
   "webhook_registration"].

Definition knownStrengthRank (verifiedVia : option string) : option nat :=
  match verifiedVia with
  | None => Some 0
  | Some v =>
      if String.eqb v "" then Some 0
      else if mem v PROVEN_VERIFIED_VIA then Some 3
      else if String.eqb v "manual" then Some 2
      else if String.eqb v "manual_channel_claim" then Some 1
      else None
  end.

Definition isBindingDemotion (existingVia incomingVia : option string) : bool :=
  match knownStrengthRank existingVia, knownStrengthRank incomingVia with
  | Some existing, Some incoming => (incoming <? existing)%nat
  | _, _ => false
  end.

(** ** Channels *)

Section Operations.
Context (now : Z).

(** [type = ... AND address = ... COLLATE NOCASE] *)
Definition by_key (type address : string) (ch : ContactChannel) : bool :=
  String.eqb ch.(channel_type) type && nocase_eq ch.(channel_address) address.
Definition by_id (i : string) (ch : ContactChannel) : bool := String.eqb ch.(channel_id) i.
Definition owned_by (c : string) (ch : ContactChannel) : bool :=
  String.eqb ch.(channel_contactId) c.

Definition getContact (contactId : string) (db : GatewayDb) : option Contact :=
  find_first (λ c, String.eqb c.(contact_id) contactId) (contacts db).

Definition getContactByChannel (type address : string) (db : GatewayDb) : option Contact :=
  fst <$> find_first (λ row, by_key type address row.2) (joined db.(acl)).

Definition getContactByPhoneNumber (phone : string) (db : GatewayDb)
    : option (Contact * ContactChannel) :=
  find_first (λ row, by_key "phone" phone row.2
                     && negb (String.eqb row.2.(channel_status) "revoked")) (joined db.(acl)).

Definition findChannelIdByAddress (type address : string) (externalChatId : option string)
    (db : GatewayDb) : option string :=
  match find_first (by_key type address) (channels db) with
  | Some ch => Some ch.(channel_id)
  | None =>
      match externalChatId with
      | None => None
      | Some chat =>
          channel_id <$> find_first (λ ch, String.eqb ch.(channel_type) type
                                           && bool_decide (ch.(channel_externalChatId) = Some chat))
                           (channels db)
      end
  end.

Definition touchChannelLastSeen (channelId : string) : Store (list string) :=
  update_channels (by_id channelId) [set_lastSeenAt now; set_updatedAt now].

Definition touchContactInteraction (channelId : string) : Store (list string) :=
  update_channels (by_id channelId)
    [set_lastInteraction now; bump_interactionCount; set_updatedAt now].

(** By id, else by the key that the assistant knows the id under ([lookup] answers
    its type and address, while others write [asking]). *)
Definition resolveGatewayChannel (lookup : string → option (string * string))
    (asking : GatewayDb → GatewayDb) (channelId : string) : Store (option ContactChannel) :=
  byId ← select_channel (by_id channelId);
  match byId with
  | Some ch => mret (Some ch)
  | None =>
      _ ← interfere asking;
      match lookup channelId with
      | Some (type, address) => select_channel (by_key type address)
      | None => mret None
      end
  end.

Definition status_sets (status : string) (reason : option string) : list ChannelSet :=
  if String.eqb status "revoked" then
    [set_status status; set_revokedReason reason; set_blockedReason None]
  else if String.eqb status "blocked" then
    [set_status status; set_blockedReason reason; set_revokedReason None]
  else [set_status status; set_revokedReason None; set_blockedReason None].

Definition updateChannelStatus (lookup : string → option (string * string))
    (asking meanwhile : GatewayDb → GatewayDb) (channelId : string)
    (status policy reason : option string) : Store (option ContactChannel) :=
  found ← resolveGatewayChannel lookup asking channelId;
  _ ← interfere meanwhile;
  unless_none found None (λ ch,
    if bool_decide (status = Some "revoked") && String.eqb ch.(channel_status) "blocked"
    then throw (cannot_revoke_blocked channelId)
    else
      _ ← update_channels (by_id ch.(channel_id))
            (set_updatedAt now
             :: match status with Some s => status_sets s reason | None => [] end
             ++ match policy with Some p => [set_policy p] | None => [] end);
      select_channel (by_id ch.(channel_id))).

(** The row after the call and whether it wrote. *)
Definition markChannelVerified (lookup : string → option (string * string))
    (asking meanwhile : GatewayDb → GatewayDb) (channelId verifiedVia : string)
    : Store (option (ContactChannel * bool)) :=
  found ← resolveGatewayChannel lookup asking channelId;
  _ ← interfere meanwhile;
  unless_none found None (λ ch,
    if String.eqb ch.(channel_status) "active"
       && isBindingDemotion ch.(channel_verifiedVia) (Some verifiedVia)
    then mret (Some (ch, false))
    else
      written ← update_channels
        (λ c, by_id ch.(channel_id) c
              && (negb (String.eqb c.(channel_status) "active")
                  || negb (bool_decide (c.(channel_verifiedVia) = Some verifiedVia))))
        [set_status "active"; set_verifiedAt (Some now); set_verifiedVia (Some verifiedVia);
         set_updatedAt now];
      after ← select_channel (by_id ch.(channel_id));
      mret ((λ c, (c, (0 <? length written)%nat)) <$> after)).

Definition GUARDIAN_BINDING_REVOKE_REASON : string := "guardian_binding_revoked".

Definition markChannelRevokedById (gwChannelId : string) (reason : option string)
    : Store (option (ContactChannel * bool)) :=
  found ← select_channel (by_id gwChannelId);
  unless_none found None (λ ch,
    contact ← gets (getContact ch.(channel_contactId));
    if bool_decide (contact_role <$> contact = Some "guardian")
       && negb (bool_decide (reason = Some GUARDIAN_BINDING_REVOKE_REASON))
    then throw (cannot_downgrade_guardian gwChannelId)
    else if String.eqb ch.(channel_status) "blocked" then mret (Some (ch, false))
    else if String.eqb ch.(channel_status) "revoked"
            && bool_decide (ch.(channel_revokedReason) = reason) then mret (Some (ch, false))
    else
      _ ← update_channels (by_id gwChannelId)
            [set_status "revoked"; set_revokedReason reason; set_blockedReason None;
             set_updatedAt now];
      after ← select_channel (by_id gwChannelId);
      mret ((λ c, (c, true)) <$> after)).

Definition markChannelRevoked (lookup : string → option (string * string))
    (asking meanwhile : GatewayDb → GatewayDb) (channelId : string) (reason : option string)
    : Store (option (ContactChannel * bool)) :=
  found ← resolveGatewayChannel lookup asking channelId;
  _ ← interfere meanwhile;
  unless_none found None (λ ch, markChannelRevokedById ch.(channel_id) reason).

(** ** Contacts *)

Definition contact_row (i name : string) (threshold : option string) : Contact :=
  {| contact_id := i; displayName := name; contact_role := "contact"; principalId := None;
     autoApproveThreshold := threshold; contact_createdAt := now; contact_updatedAt := now |}.

Definition ensureContactRow (contactId name : string) : Store () :=
  insert_contact_or_ignore (contact_row contactId name None).

(** The contact that lost the channel, when it moved. *)
Definition reassignChannelOwner (type address toContactId name : string)
    : Store (option string) :=
  _ ← ensureContactRow toContactId name;
  current ← select_channel (by_key type address);
  unless_none current None (λ ch,
    if String.eqb ch.(channel_contactId) toContactId then mret None
    else
      _ ← update_channels (by_key type address)
            [set_contactId toContactId; set_updatedAt now];
      mret (Some ch.(channel_contactId))).

Inductive SeedResult :=
  | seed_existing (contactId channelId : string)
  | seed_created (contactId channelId : string)
  | seed_blocked.

(** [if (params.externalChatId)] *)
Definition refreshIdentity (address : string) (externalChatId : option string) (i : string)
    : Store (list string) :=
  update_channels (by_id i)
    (set_address address
     :: (if truthy (default "" externalChatId) then [set_externalChatId externalChatId] else [])
     ++ [set_updatedAt now]).

(** A channel a statement inserts; the columns the callers do not name are the
    schema's defaults. *)
Definition channel_row (i contactId type address : string) (isPrimary : bool)
    (externalChatId : option string) (status policy : string) : ContactChannel :=
  {| channel_id := i; channel_contactId := contactId; channel_type := type;
     channel_address := address; channel_isPrimary := isPrimary;
     channel_externalChatId := externalChatId; channel_status := status;
     channel_policy := policy; channel_verifiedAt := None; channel_verifiedVia := None;
     channel_inviteId := None; channel_revokedReason := None; channel_blockedReason := None;
     channel_lastSeenAt := None; channel_interactionCount := 0; channel_lastInteraction := None;
     channel_createdAt := now; channel_updatedAt := Some now |}.

Definition seedInboundChannel (newContact newChannel type address : string)
    (externalChatId : option string) (name : string) : Store SeedResult :=
  transaction (
    existing ← select_channel (by_key type address);
    match existing with
    | Some ch =>
        if String.eqb ch.(channel_status) "blocked" then mret seed_blocked
        else _ ← refreshIdentity address externalChatId ch.(channel_id);
             mret (seed_existing ch.(channel_contactId) ch.(channel_id))
    | None =>
        _ ← insert_contact (contact_row newContact name None);
        inserted ← insert_channel_or_ignore
          (channel_row newChannel newContact type address false externalChatId
             "unverified" "allow");
        match inserted with
        | _ :: _ => mret (seed_created newContact newChannel)
        | [] =>
            _ ← delete_contacts (λ c, String.eqb c.(contact_id) newContact);
            raced ← select_channel (by_key type address);
            match raced with
            | Some ch =>
                if String.eqb ch.(channel_status) "blocked" then mret seed_blocked
                else _ ← refreshIdentity address externalChatId ch.(channel_id);
                     mret (seed_existing ch.(channel_contactId) ch.(channel_id))
            | None => mret seed_blocked
            end
        end
    end).

(** A channel of an upsert; [None] for a field that was omitted. *)
Record ChannelInput := {
  ci_id : option string;
  ci_type : string;
  ci_address : string;
  ci_isPrimary : option bool;
  ci_externalChatId : option string;
  ci_status : option string;
  ci_policy : option string;
  ci_verifiedAt : option (option Z);
  ci_verifiedVia : option (option string);
  ci_inviteId : option (option string);
  ci_revokedReason : option (option string);
  ci_blockedReason : option (option string)
}.

Definition if_given {A} (v : option A) (set : A → ChannelSet) : list ChannelSet :=
  match v with Some v => [set v] | None => [] end.

Definition provenance_sets (existing : ContactChannel) (ch : ChannelInput) : list ChannelSet :=
  let refused :=
    String.eqb existing.(channel_status) "active"
    && match ch.(ci_verifiedVia) with
       | Some via => isBindingDemotion existing.(channel_verifiedVia) via
       | None => false
       end in
  if refused then []
  else if_given ch.(ci_verifiedAt) set_verifiedAt
       ++ if_given ch.(ci_verifiedVia) set_verifiedVia.

Definition sync_sets (existing : ContactChannel) (ch : ChannelInput) : list ChannelSet :=
  set_updatedAt now
  :: if_given ch.(ci_isPrimary) set_isPrimary
  ++ if_given ch.(ci_externalChatId) (λ v, set_externalChatId (Some v))
  ++ (if String.eqb existing.(channel_status) "blocked" then []
      else if_given ch.(ci_status) set_status ++ if_given ch.(ci_policy) set_policy
           ++ if_given ch.(ci_revokedReason) set_revokedReason
           ++ if_given ch.(ci_blockedReason) set_blockedReason)
  ++ provenance_sets existing ch
  ++ if_given ch.(ci_inviteId) set_inviteId.

Definition new_channel (freshId contactId : string) (ch : ChannelInput) : ContactChannel :=
  apply_sets
    [set_verifiedAt (default None ch.(ci_verifiedAt));
     set_verifiedVia (default None ch.(ci_verifiedVia));
     set_inviteId (default None ch.(ci_inviteId));
     set_revokedReason (default None ch.(ci_revokedReason));
     set_blockedReason (default None ch.(ci_blockedReason))]
    (channel_row (default freshId ch.(ci_id)) contactId ch.(ci_type) ch.(ci_address)
       (default false ch.(ci_isPrimary)) ch.(ci_externalChatId)
       (default "unverified" ch.(ci_status)) (default "allow" ch.(ci_policy))).

Definition sync_channel (freshId contactId : string) (ch : ChannelInput) : Store () :=
  existing ← select_channel (λ c, owned_by contactId c && by_key ch.(ci_type) ch.(ci_address) c);
  match existing with
  | Some c => _ ← update_channels (by_id c.(channel_id)) (sync_sets c ch); mret ()
  | None =>
      conflict ← select_channel (by_key ch.(ci_type) ch.(ci_address));
      match conflict with
      | Some _ => mret ()
      | None => insert_channel (new_channel freshId contactId ch)
      end
  end.

(** [fresh n]: the identifier minted for the [n]-th channel. *)
Fixpoint syncChannels (fresh : nat → string) (n : nat) (contactId : string)
    (chs : list ChannelInput) : Store () :=
  match chs with
  | [] => mret ()
  | ch :: chs => _ ← sync_channel (fresh n) contactId ch; syncChannels fresh (S n) contactId chs
  end.

Record UpsertParams := {
  up_id : option string;
  up_displayName : option string;
  up_autoApproveThreshold : option (option string);
  up_channels : option (list ChannelInput)
}.

Definition canonical_input (ch : ChannelInput) : ChannelInput :=
  {| ci_id := ch.(ci_id); ci_type := ch.(ci_type);
     ci_address :=
       default ch.(ci_address) (canonicalizeInboundIdentity ch.(ci_type) ch.(ci_address));
     ci_isPrimary := ch.(ci_isPrimary); ci_externalChatId := ch.(ci_externalChatId);
     ci_status := ch.(ci_status); ci_policy := ch.(ci_policy);
     ci_verifiedAt := ch.(ci_verifiedAt); ci_verifiedVia := ch.(ci_verifiedVia);
     ci_inviteId := ch.(ci_inviteId); ci_revokedReason := ch.(ci_revokedReason);
     ci_blockedReason := ch.(ci_blockedReason) |}.

Definition updateContactName (p : UpsertParams) (i : string) : Store () :=
  update_contacts (λ c, String.eqb c.(contact_id) i)
    (λ c, {| contact_id := c.(contact_id);
             displayName := default c.(displayName) p.(up_displayName);
             contact_role := c.(contact_role); principalId := c.(principalId);
             autoApproveThreshold := default c.(autoApproveThreshold) p.(up_autoApproveThreshold);
             contact_createdAt := c.(contact_createdAt); contact_updatedAt := now |}).

(** The owner of the first channel that is known by its key. *)
Fixpoint match_channels (chs : list ChannelInput) (db : GatewayDb) : option string :=
  match chs with
  | [] => None
  | ch :: chs =>
      match find_first (by_key ch.(ci_type) ch.(ci_address)) (channels db) with
      | Some c => Some c.(channel_contactId)
      | None => match_channels chs db
      end
  end.

(** The contact and whether it was created. *)
Definition upsertContactGatewayWrites (newContact : string) (fresh : nat → string)
    (p : UpsertParams) : Store (string * bool) :=
  let canonical := (fmap (M:=list) canonical_input) <$> p.(up_channels) in
  let chs := default [] canonical in
  let name := or_else p.(up_displayName) (ci_address <$> head chs) in
  let create i := insert_contact (contact_row i (default "Unknown" name)
                                    (default None p.(up_autoApproveThreshold))) in
  let given := default "" p.(up_id) in
  resolved ←
    (if truthy given then
       known ← gets (λ db, has_contact db given);
       if known : bool then _ ← updateContactName p given; mret (given, false)
       else _ ← create given; mret (given, true)
     else
       matched ← gets (match_channels chs);
       match matched with
       | Some i => if truthy i then _ ← updateContactName p i; mret (i, false)
                   else _ ← updateContactName p i; _ ← create newContact; mret (newContact, true)
       | None => _ ← create newContact; mret (newContact, true)
       end);
  _ ← syncChannels fresh 0 resolved.1 chs;
  mret resolved.

Fixpoint move_channels (keepId : string) (donor : list ContactChannel) : Store () :=
  match donor with
  | [] => mret ()
  | ch :: donor =>
      exists_ ← select_channel (λ c, owned_by keepId c
                                     && by_key ch.(channel_type) ch.(channel_address) c);
      match exists_ with
      | Some _ => move_channels keepId donor
      | None =>
          _ ← update_channels (by_id ch.(channel_id)) [set_contactId keepId; set_updatedAt now];
          move_channels keepId donor
      end
  end.

Definition touch_contact (c : Contact) : Contact :=
  {| contact_id := c.(contact_id); displayName := c.(displayName);
     contact_role := c.(contact_role); principalId := c.(principalId);
     autoApproveThreshold := c.(autoApproveThreshold);
     contact_createdAt := c.(contact_createdAt); contact_updatedAt := now |}.

(** The gateway's half of the merge. *)
Definition mergeContacts (keepId mergeId : string) : Store () :=
  if String.eqb keepId mergeId then throw (merge_error "Cannot merge a contact with itself")
  else
    keep ← gets (getContact keepId);
    merge ← gets (getContact mergeId);
    match keep, merge with
    | None, _ | _, None => throw (merge_error "not found")
    | Some _, Some m =>
        if String.eqb m.(contact_role) "guardian"
        then throw (merge_error "Cannot merge away a guardian contact")
        else
          transaction (
            _ ← update_contacts (λ c, String.eqb c.(contact_id) keepId) touch_contact;
            donor ← gets (λ db, List.filter (owned_by mergeId) (channels db));
            _ ← move_channels keepId donor;
            _ ← delete_contacts (λ c, String.eqb c.(contact_id) mergeId);
            mret ())
    end.

(** ** Invites *)

Definition NO_INVITE_CODE_HASH : string := "".

Definition is_invite (i : string) (inv : Invite) : bool := String.eqb inv.(inv_id) i.
Definition invite_active (inv : Invite) : bool := String.eqb inv.(inv_status) "active".

Record InviteParams := {
  ip_id : string;
  ip_sourceChannel : string;
  ip_inviteCodeHash : option string;
  ip_contactId : string;
  ip_note : option string;
  ip_maxUses : option Z;
  ip_expiresAt : Z;
  ip_tokenHash : option string;
  ip_voiceCodeHash : option string;
  ip_voiceCodeDigits : option Z;
  ip_expectedExternalUserId : option string;
  ip_friendName : option string;
  ip_guardianName : option string;
  ip_sourceConversationId : option string
}.

Definition invite_row (p : InviteParams) : Invite :=
  {| inv_id := p.(ip_id); inv_sourceChannel := p.(ip_sourceChannel);
     inv_inviteCodeHash := default NO_INVITE_CODE_HASH p.(ip_inviteCodeHash);
     inv_tokenHash := p.(ip_tokenHash); inv_voiceCodeHash := p.(ip_voiceCodeHash);
     inv_voiceCodeDigits := p.(ip_voiceCodeDigits);
     inv_expectedExternalUserId := p.(ip_expectedExternalUserId);
     inv_friendName := p.(ip_friendName); inv_guardianName := p.(ip_guardianName);
     inv_sourceConversationId := p.(ip_sourceConversationId); inv_note := p.(ip_note);
     inv_maxUses := default 1%Z p.(ip_maxUses); inv_useCount := 0;
     inv_expiresAt := p.(ip_expiresAt); inv_status := "active";
     inv_redeemedByExternalUserId := None; inv_redeemedByExternalChatId := None;
     inv_redeemedAt := None; inv_contactId := p.(ip_contactId); inv_createdAt := now;
     inv_updatedAt := now |}.

Definition createInvite (p : InviteParams) : Store Invite := λ db,
  commit (invite_row p) (with_invites (db.(invites) ++ [invite_row p]) db) db.

(** [update(ingressInvites)]: the number of rows it changed *)
Definition update_invites (p : Invite → bool) (f : Invite → Invite) : Store nat := λ db,
  (inr (length (List.filter p db.(invites))),
   with_invites ((λ i, if p i then f i else i) <$> db.(invites)) db).

Definition with_invite_status (status : string) (i : Invite) : Invite :=
  {| inv_id := i.(inv_id); inv_sourceChannel := i.(inv_sourceChannel);
     inv_inviteCodeHash := i.(inv_inviteCodeHash); inv_tokenHash := i.(inv_tokenHash);
     inv_voiceCodeHash := i.(inv_voiceCodeHash); inv_voiceCodeDigits := i.(inv_voiceCodeDigits);
     inv_expectedExternalUserId := i.(inv_expectedExternalUserId);
     inv_friendName := i.(inv_friendName); inv_guardianName := i.(inv_guardianName);
     inv_sourceConversationId := i.(inv_sourceConversationId); inv_note := i.(inv_note);
     inv_maxUses := i.(inv_maxUses); inv_useCount := i.(inv_useCount);
     inv_expiresAt := i.(inv_expiresAt); inv_status := status;
     inv_redeemedByExternalUserId := i.(inv_redeemedByExternalUserId);
     inv_redeemedByExternalChatId := i.(inv_redeemedByExternalChatId);
     inv_redeemedAt := i.(inv_redeemedAt); inv_contactId := i.(inv_contactId);
     inv_createdAt := i.(inv_createdAt); inv_updatedAt := now |}.

Definition redeemed_row (user chat : option string) (i : Invite) : Invite :=
  {| inv_id := i.(inv_id); inv_sourceChannel := i.(inv_sourceChannel);
     inv_inviteCodeHash := i.(inv_inviteCodeHash); inv_tokenHash := i.(inv_tokenHash);
     inv_voiceCodeHash := i.(inv_voiceCodeHash); inv_voiceCodeDigits := i.(inv_voiceCodeDigits);
     inv_expectedExternalUserId := i.(inv_expectedExternalUserId);
     inv_friendName := i.(inv_friendName); inv_guardianName := i.(inv_guardianName);
     inv_sourceConversationId := i.(inv_sourceConversationId); inv_note := i.(inv_note);
     inv_maxUses := i.(inv_maxUses); inv_useCount := i.(inv_useCount) + 1;
     inv_expiresAt := i.(inv_expiresAt);
     inv_status := if i.(inv_maxUses) <=? i.(inv_useCount) + 1 then "redeemed" else "active";
     inv_redeemedByExternalUserId := user; inv_redeemedByExternalChatId := chat;
     inv_redeemedAt := Some now; inv_contactId := i.(inv_contactId);
     inv_createdAt := i.(inv_createdAt); inv_updatedAt := now |}%Z.

Definition getInviteById (i : string) (db : GatewayDb) : option Invite :=
  find_first (is_invite i) db.(invites).

Definition revokeInvite (i : string) : Store (option Invite) :=
  _ ← update_invites (λ inv, is_invite i inv && invite_active inv) (with_invite_status "revoked");
  gets (getInviteById i).

Definition recordInviteRedemption (i : string) (user chat : option string) : Store bool :=
  n ← update_invites (λ inv, is_invite i inv && invite_active inv) (redeemed_row user chat);
  mret (0 <? n)%nat.

Definition markInviteExpired (i : string) : Store bool :=
  n ← update_invites (λ inv, is_invite i inv && invite_active inv) (with_invite_status "expired");
  mret (0 <? n)%nat.

Definition findInviteByTokenHash (h : string) (db : GatewayDb) : option Invite :=
  find_first (λ i, bool_decide (i.(inv_tokenHash) = Some h)) db.(invites).

Definition findInviteByCodeHash (h sourceChannel : string) (db : GatewayDb) : option Invite :=
  if String.eqb h NO_INVITE_CODE_HASH then None
  else find_first (λ i, String.eqb i.(inv_inviteCodeHash) h
                        && String.eqb i.(inv_sourceChannel) sourceChannel && invite_active i)
         db.(invites).

Definition findInviteByCodeHashAnyChannel (h : string) (db : GatewayDb) : option Invite :=
  if String.eqb h NO_INVITE_CODE_HASH then None
  else find_first (λ i, String.eqb i.(inv_inviteCodeHash) h && invite_active i
                        && (now <? i.(inv_expiresAt))%Z) db.(invites).

Definition findActiveVoiceInvites (caller : string) (db : GatewayDb) : list Invite :=
  List.filter (λ i, String.eqb i.(inv_sourceChannel) "phone" && invite_active i
                    && bool_decide (i.(inv_expectedExternalUserId) = Some caller)) db.(invites).
End Operations.

(** ** Laws of the statements *)

Lemma bind_inr {A B} (m : Store A) (k : A → Store B) db db' a :
  m db = (inr a, db') → (m ≫= k) db = k a db'.
Proof. unfold mbind, Store_bind. by intros ->. Qed.

Lemma bind_inl {A B} (m : Store A) (k : A → Store B) db db' e :
  m db = (inl e, db') → (m ≫= k) db = (inl e, db').
Proof. unfold mbind, Store_bind. by intros ->. Qed.

Lemma with_channels_id db : with_channels (channels db) db = db.
Proof. by destruct db as [[] ?]. Qed.

(** The logical key, in the case-insensitive reading of the lookups. *)
Definition logical_key (ch : ContactChannel) : string * string :=
  (ch.(channel_type), to_lower ch.(channel_address)).

Lemma by_key_true type address ch :
  by_key type address ch = true ↔ logical_key ch = (type, to_lower address).
Proof.
  unfold by_key, nocase_eq, logical_key. rewrite andb_true_iff, !String.eqb_eq.
  split; [by intros [-> ->]|by intros [= -> ->]].
Qed.

Lemma by_id_true i ch : by_id i ch = true ↔ ch.(channel_id) = i.
Proof. apply String.eqb_eq. Qed.

(** The state the operations keep: the engine's constraints, with the key unique
    even up to case, as every lookup reads it. *)
Record db_wf (db : GatewayDb) : Prop := {
  wf_contacts : NoDup (contact_id <$> contacts db);
  wf_channels : NoDup (channel_id <$> channels db);
  wf_keys : NoDup (logical_key <$> channels db);
  wf_invites : NoDup (inv_id <$> db.(invites));
  wf_owners : ∀ ch, ch ∈ channels db → has_contact db ch.(channel_contactId) = true;
  wf_targets : ∀ i, i ∈ db.(invites) → has_contact db i.(inv_contactId) = true
}.

Lemma has_contact_elem db i : has_contact db i = true ↔ i ∈ contact_id <$> contacts db.
Proof.
  unfold has_contact. rewrite existsb_true, list_elem_of_fmap. setoid_rewrite String.eqb_eq.
  naive_solver.
Qed.

Lemma NoDup_fmap_le {A B C} (f : A → B) (g : A → C) (xs : list A) :
  (∀ x y, f x = f y → g x = g y) → NoDup (g <$> xs) → NoDup (f <$> xs).
Proof.
  intros Hfg. induction xs as [|x xs IH]; [constructor|]. csimpl.
  intros [Hx Hxs]%NoDup_cons. constructor; [|auto].
  intros (y & Hy & Hin)%list_elem_of_fmap. apply Hx. rewrite (Hfg _ _ Hy).
  by apply list_elem_of_fmap_2.
Qed.

Lemma constraints_wf db : db_wf db → constraints db = true.
Proof.
  intros []. unfold constraints. rewrite !andb_true_iff, !bool_decide_eq_true, !forallb_true.
  split_and!; try done. apply (NoDup_fmap_le _ logical_key); [|done].
  unfold exact_key, logical_key. by intros x y [= -> ->].
Qed.

Lemma channel_by_id db x y :
  db_wf db → x ∈ channels db → y ∈ channels db → x.(channel_id) = y.(channel_id) → x = y.
Proof. intros H. apply NoDup_fmap_inv, H. Qed.

Lemma channel_by_key db x y :
  db_wf db → x ∈ channels db → y ∈ channels db → logical_key x = logical_key y → x = y.
Proof. intros H. apply NoDup_fmap_inv, H. Qed.

Lemma find_by_key db type address ch :
  db_wf db →
  find_first (by_key type address) (channels db) = Some ch
  ↔ ch ∈ channels db ∧ by_key type address ch = true.
Proof.
  intros Hwf. split; [apply find_first_Some|]. intros [Hin Hk].
  destruct (find_first _ _) as [c|] eqn:E.
  - apply find_first_Some in E as [Hc Hck]. f_equal. apply (channel_by_key db); [done..|].
    apply by_key_true in Hk, Hck. congruence.
  - rewrite find_first_None in E. by rewrite E in Hk.
Qed.

(** A write that keeps the keys and gives every row a contact that exists. *)
Lemma update_channels_ok p sets db :
  db_wf db →
  (∀ ch, ch ∈ channels db → p ch = true →
     logical_key (apply_sets sets ch) = logical_key ch
     ∧ (apply_sets sets ch).(channel_id) = ch.(channel_id)
     ∧ has_contact db (apply_sets sets ch).(channel_contactId) = true) →
  let db' := with_channels ((λ ch, if p ch then apply_sets sets ch else ch) <$> channels db) db in
  update_channels p sets db = (inr (channel_id <$> List.filter p (channels db)), db') ∧ db_wf db'.
Proof.
  intros Hwf Hp db'. assert (db_wf db') as Hwf'.
  { assert (∀ (B : Type) (f : ContactChannel → B),
      (∀ ch, ch ∈ channels db → p ch = true → f (apply_sets sets ch) = f ch) →
      f <$> channels db' = f <$> channels db) as Hsame.
    { intros B f Hf. unfold db'. cbn. rewrite <- list_fmap_compose.
      apply list_fmap_ext. intros i ch Hi%list_elem_of_lookup_2. simpl.
      destruct (p ch) eqn:E; [by apply Hf|done]. }
    destruct Hwf as [W1 W2 W3 W4 W5 W6]. constructor; try done.
    - rewrite Hsame; [done|]. intros ch Hc Hpc. by apply Hp.
    - rewrite Hsame; [done|]. intros ch Hc Hpc. by apply Hp.
    - intros ch (c & -> & Hc)%list_elem_of_fmap. destruct (p c) eqn:E; [by apply Hp|by apply W5]. }
  split; [|done]. apply constraints_wf in Hwf'. unfold db' in Hwf'. unfold update_channels, commit.
  by rewrite Hwf'.
Qed.

Lemma update_channels_none p sets db :
  db_wf db → (∀ ch, ch ∈ channels db → p ch = false) → update_channels p sets db = (inr [], db).
Proof.
  intros Hwf Hp. destruct (update_channels_ok p sets db Hwf) as [-> _].
  { intros ch Hc E. by rewrite Hp in E. }
  assert (List.filter p (channels db) = []) as ->.
  { destruct (List.filter p _) as [|x xs] eqn:E; [done|].
    assert (x ∈ List.filter p (channels db)) as [Hx Hpx]%elem_of_lfilter by (rewrite E; by left).
    by rewrite Hp in Hpx. }
  f_equal. rewrite <- (with_channels_id db) at 3. f_equal.
  rewrite <- (list_fmap_id (channels db)) at 2. apply list_fmap_ext.
  intros i ch Hi%list_elem_of_lookup_2. by rewrite Hp.
Qed.

Lemma insert_channel_wf ch db :
  db_wf db → ch.(channel_id) ∉ channel_id <$> channels db →
  logical_key ch ∉ logical_key <$> channels db → has_contact db ch.(channel_contactId) = true →
  db_wf (with_channels (channels db ++ [ch]) db).
Proof.
  intros [W1 W2 W3 W4 W5 W6] Hid Hkey Hc. constructor; try done; cbn; rewrite ?fmap_app.
  - apply NoDup_app. split_and!; [done| |apply NoDup_singleton].
    intros x Hx ->%list_elem_of_singleton. done.
  - apply NoDup_app. split_and!; [done| |apply NoDup_singleton].
    intros x Hx ->%list_elem_of_singleton. done.
  - intros c [Hin| ->%list_elem_of_singleton]%elem_of_app; [by apply W5|done].
Qed.

Lemma insert_channel_or_ignore_ok ch db :
  db_wf db → ch.(channel_id) ∉ channel_id <$> channels db →
  logical_key ch ∉ logical_key <$> channels db → has_contact db ch.(channel_contactId) = true →
  insert_channel_or_ignore ch db
  = (inr [ch.(channel_id)], with_channels (channels db ++ [ch]) db).
Proof.
  intros Hwf Hid Hkey Hc. unfold insert_channel_or_ignore.
  assert (existsb (λ c, String.eqb c.(channel_id) ch.(channel_id)
                        || bool_decide (exact_key c = exact_key ch)) (channels db) = false) as ->.
  { apply existsb_false. intros c Hin. apply orb_false_intro.
    - apply String.eqb_neq. intros E. apply Hid. rewrite <- E. by apply list_elem_of_fmap_2.
    - apply bool_decide_eq_false. intros E. apply Hkey. apply list_elem_of_fmap. exists c.
      split; [|done]. unfold exact_key, logical_key in *. injection E as -> ->. done. }
  unfold commit. by rewrite (constraints_wf _ (insert_channel_wf _ _ Hwf Hid Hkey Hc)).
Qed.

(** The database after [ensureContactRow]. *)
Definition ensured (now : Z) (i name : string) (db : GatewayDb) : GatewayDb :=
  if has_contact db i then db
  else with_contacts (contacts db ++ [contact_row now i name None]) db.

Lemma has_contact_ensured now i name db j :
  has_contact (ensured now i name db) j = has_contact db j || String.eqb i j.
Proof.
  unfold ensured. destruct (has_contact db i) eqn:E.
  - destruct (String.eqb_spec i j) as [<-|]; [by rewrite E|by rewrite orb_false_r].
  - unfold has_contact. cbn. rewrite existsb_app. simpl. by rewrite orb_false_r.
Qed.

Lemma insert_contact_wf c db :
  db_wf db → has_contact db c.(contact_id) = false →
  db_wf (with_contacts (contacts db ++ [c]) db).
Proof.
  intros [W1 W2 W3 W4 W5 W6] Hc.
  assert (∀ j, has_contact db j = true → has_contact (with_contacts (contacts db ++ [c]) db) j = true)
    as Hmono by (intros j; unfold has_contact; cbn; rewrite existsb_app; by intros ->).
  constructor; try done; try (by intros; apply Hmono; auto). cbn. rewrite fmap_app.
  apply NoDup_app. split_and!; [done| |apply NoDup_singleton].
  intros x Hx ->%list_elem_of_singleton. apply has_contact_elem in Hx. congruence.
Qed.

Lemma ensured_wf now i name db : db_wf db → db_wf (ensured now i name db).
Proof.
  intros Hwf. unfold ensured. destruct (has_contact db i) eqn:E; [done|].
  by apply insert_contact_wf.
Qed.

Lemma channels_ensured now i name db : channels (ensured now i name db) = channels db.
Proof. unfold ensured. by destruct (has_contact db i). Qed.

Lemma invites_ensured now i name db : (ensured now i name db).(invites) = db.(invites).
Proof. unfold ensured. by destruct (has_contact db i). Qed.

Lemma ensureContactRow_ok now i name db :
  db_wf db → ensureContactRow now i name db = (inr (), ensured now i name db).
Proof.
  intros Hwf. unfold ensureContactRow, insert_contact_or_ignore, ensured. cbn [contact_id].
  change (contact_row now i name None).(contact_id) with i.
  destruct (has_contact db i) eqn:E; [done|]. unfold insert_contact, commit.
  by rewrite (constraints_wf _ (insert_contact_wf (contact_row now i name None) _ Hwf E)).
Qed.
