(* ===== verification/ContactWrites.v ===== *)
(** Writes of the verification and seeding flows to the contact tables
    ([gateway/src/verification/contact-helpers.ts]).

    A verified sender becomes an active channel; a first-seen sender is seeded as an
    unverified one; a contact that a claim left without channels is collected. The
    assistant's mirror is asked for the identity it knows the channel under
    ([existing]) and for what it holds on a contact ([probe]); both are answers of
    another process and arguments here. *)
From S2P Require Import Prelude JsString VerificationSessions VerificationFlow SenderTrust.
From S2P Require Import ContactStore.

Section Writes.
Context (now : Z).

Definition gatewayChannelStatus (type address : string) (db : GatewayDb) : option string :=
  channel_status <$> find_first (by_key type address) (channels db).

Definition getGatewayChannelByKey (type address : string) (db : GatewayDb)
    : option ContactChannel :=
  find_first (by_key type address) (channels db).

Definition chat_score (preferred : option string) (ch : ContactChannel) : nat :=
  (if bool_decide (Some ch.(channel_contactId) = preferred) then 2 else 0)
  + (if String.eqb ch.(channel_status) "active" then 1 else 0).

Definition by_chat (type chat : string) (ch : ContactChannel) : bool :=
  String.eqb ch.(channel_type) type && bool_decide (ch.(channel_externalChatId) = Some chat).

Definition getGatewayChannelByExternalChatId (type chat : string) (preferred : option string)
    (db : GatewayDb) : option ContactChannel :=
  match List.filter (by_chat type chat) (channels db) with
  | [] => None
  | row :: rows =>
      Some (foldl (λ best row, if (chat_score preferred best <? chat_score preferred row)%nat
                               then row else best) row rows)
  end.

(** ** The verified outcome *)

Definition reactivatable (allowRevoked : bool) (ch : ContactChannel) : bool :=
  negb (String.eqb ch.(channel_status) "blocked")
  && (allowRevoked || negb (String.eqb ch.(channel_status) "revoked")).

Definition verified_sets (address externalChatId verifiedVia : string) (verifiedAt : option Z)
    : list ChannelSet :=
  [set_status "active"; set_policy "allow"; set_address address;
   set_externalChatId (Some externalChatId); set_verifiedAt (Some (default now verifiedAt));
   set_verifiedVia (Some verifiedVia); set_revokedReason None; set_blockedReason None;
   set_updatedAt now].

Definition writeVerifiedGatewayChannel (assistantChannelId contactId type address externalChatId
    verifiedVia : string) (verifiedAt : option Z) (allowRevoked : bool) : Store bool :=
  let sets := verified_sets address externalChatId verifiedVia verifiedAt in
  byId ← update_channels (λ ch, by_id assistantChannelId ch && reactivatable allowRevoked ch) sets;
  match byId with
  | _ :: _ => mret true
  | [] =>
      byKey ← update_channels (λ ch, by_key type address ch && reactivatable allowRevoked ch) sets;
      match byKey with
      | _ :: _ => mret true
      | [] =>
          _ ← ensureContactRow now contactId address;
          inserted ← insert_channel_or_ignore
            (apply_sets sets (channel_row now assistantChannelId contactId type address false None
                                "unverified" "allow"));
          mret (match inserted with [] => false | _ => true end)
      end
  end.

(** A failure is logged, and nothing counts as moved. *)
Definition reassignChannelContact (type address toContactId name : string)
    : Store (option string) :=
  catching (reassignChannelOwner now type address toContactId name) (λ _, mret None).

Record VerifyParams := {
  vp_sourceChannel : string;
  vp_externalUserId : string;
  vp_externalChatId : string;
  vp_displayName : option string;
  vp_username : option string;
  vp_verifiedVia : option string;
  vp_contactId : option string;
  vp_allowRevokedReactivation : bool
}.

Record MirrorPlan := {
  mp_contactId : string;
  mp_channelId : option string;
  mp_type : string;
  mp_address : string;
  mp_externalChatId : string;
  mp_displayName : string;
  mp_reassignConflictingChannels : bool;
  mp_orphanedDonorContactId : option string
}.

(** [...(orphanedDonorContactId ? { orphanedDonorContactId } : {})] *)
Definition nonblank (s : option string) : option string :=
  match s with Some v => if truthy v then Some v else None | None => None end.

Definition canonical_address (channel externalUserId : string) : string :=
  default externalUserId (canonicalizeInboundIdentity channel externalUserId).

Definition vp_address (p : VerifyParams) : string :=
  canonical_address p.(vp_sourceChannel) p.(vp_externalUserId).

Definition vp_name (p : VerifyParams) : string :=
  default (default (vp_address p) p.(vp_username)) p.(vp_displayName).

Definition vp_via (p : VerifyParams) : string := default "challenge" p.(vp_verifiedVia).

Definition refused_by_status (p : VerifyParams) (gwRow : option ContactChannel) : bool :=
  match gwRow with
  | Some ch => negb (reactivatable p.(vp_allowRevokedReactivation) ch)
  | None => false
  end.

(** The provenance written: a demotion keeps the stronger one and its time. *)
Definition effective_binding (p : VerifyParams) (gwRow : option ContactChannel)
    : string * option Z :=
  match gwRow with
  | Some ch =>
      if String.eqb ch.(channel_status) "active"
         && isBindingDemotion ch.(channel_verifiedVia) (Some (vp_via p))
      then (default (vp_via p) ch.(channel_verifiedVia), ch.(channel_verifiedAt))
      else (vp_via p, None)
  | None => (vp_via p, None)
  end.

Definition applyVerifiedChannelGatewayWrites (newContact newChannel : string) (p : VerifyParams)
    (existing : option (string * string)) : Store (option MirrorPlan) :=
  let type := p.(vp_sourceChannel) in
  let address := vp_address p in
  let chat := p.(vp_externalChatId) in
  let allow := p.(vp_allowRevokedReactivation) in
  gwRow ← gets (getGatewayChannelByKey type address);
  if refused_by_status p gwRow then mret None
  else
    let '(via, at_) := effective_binding p gwRow in
    let plan contactId channelId reparented donor :=
      {| mp_contactId := contactId; mp_channelId := channelId; mp_type := type;
         mp_address := address; mp_externalChatId := chat; mp_displayName := vp_name p;
         mp_reassignConflictingChannels := reparented;
         mp_orphanedDonorContactId := nonblank donor |} in
    match existing with
    | Some (channelId, ownerId) =>
        let bound := default ownerId (nonblank p.(vp_contactId)) in
        let reparented := negb (String.eqb bound ownerId) in
        donor ← (if reparented then
                   moved ← reassignChannelContact type address bound (vp_name p);
                   mret (Some (default ownerId moved))
                 else mret None);
        wrote ← writeVerifiedGatewayChannel channelId bound type address chat via at_ allow;
        if wrote : bool then mret (Some (plan bound None reparented donor)) else mret None
    | None =>
        let contactId := default newContact p.(vp_contactId) in
        let reparented := truthy (default "" p.(vp_contactId)) in
        donor ← (if reparented then reassignChannelContact type address contactId (vp_name p)
                 else _ ← ensureContactRow now contactId (vp_name p); mret None);
        wrote ← writeVerifiedGatewayChannel newChannel contactId type address chat via at_ allow;
        if wrote : bool then mret (Some (plan contactId (Some newChannel) reparented donor))
        else mret None
    end.

(** ** Orphaned contacts *)

(** What the assistant holds on a contact. *)
Record MirrorProbe := {
  probe_exists : bool;
  probe_hasChannels : bool;
  probe_notes : option string;
  probe_userFile : option string;
  probe_contactType : string;
  probe_hasMetadata : bool
}.

(** The socket is missing, the probe fails, or it answers. *)
Inductive MirrorAnswer := mirror_unreachable | mirror_error | mirror_probe (p : MirrorProbe).

Definition orphanPredicates (contactId : string) (db : GatewayDb) (c : Contact) : bool :=
  String.eqb c.(contact_id) contactId
  && String.eqb c.(contact_role) "contact"
  && bool_decide (c.(principalId) = None)
  && bool_decide (c.(autoApproveThreshold) = None)
  && negb (existsb (owned_by contactId) (channels db))
  && negb (existsb (λ i, String.eqb i.(inv_contactId) contactId) db.(invites)).

Definition hasGuardianAuthoredData (p : MirrorProbe) : bool :=
  truthy (trim (default "" p.(probe_notes))) || truthy (trim (default "" p.(probe_userFile)))
  || negb (String.eqb p.(probe_contactType) "human").

(** [true]: the probe lets the collection go on. *)
Definition probe_allows (p : MirrorProbe) : bool :=
  negb p.(probe_hasChannels)
  && negb (p.(probe_exists) && (hasGuardianAuthoredData p || p.(probe_hasMetadata))).

(** The contacts deleted, and whether the assistant is told to delete its copy. *)
Definition deleteContactIfOrphaned (answer : MirrorAnswer) (meanwhile : GatewayDb → GatewayDb)
    (contactId : string) : Store (list string * bool) :=
  eligible ← gets (λ db, existsb (orphanPredicates contactId db) (contacts db));
  if negb eligible then mret ([], false)
  else
    let guarded : Store (list string) :=
      λ db, delete_contacts (orphanPredicates contactId db) db in
    match answer with
    | mirror_unreachable => deleted ← guarded; mret (deleted, false)
    | mirror_error => _ ← interfere meanwhile; mret ([], false)
    | mirror_probe p =>
        _ ← interfere meanwhile;
        if probe_allows p
        then deleted ← guarded;
             mret (deleted, p.(probe_exists) && match deleted with [] => false | _ => true end)
        else mret ([], false)
    end.

(** ** The two entry points *)

(** [lookup]: [None] when the assistant cannot be asked; [mirrors]: the follow-up
    call to it succeeds. [None]: the call throws. *)
Definition upsertVerifiedContactChannel (newContact newChannel : string) (p : VerifyParams)
    (softMirrorFailures : bool) (lookup : option (option (string * string))) (mirrors : bool)
    (meanwhile meanwhile' : GatewayDb → GatewayDb) (answer : MirrorAnswer)
    (meanwhile'' : GatewayDb → GatewayDb) : Store (option bool) :=
  match lookup, softMirrorFailures with
  | None, false => mret None
  | _, _ =>
      _ ← interfere meanwhile;
      result ← catching
        (applyVerifiedChannelGatewayWrites newContact newChannel p (default None lookup))
        (λ _, mret None);
      match result with
      | None => mret (Some false)
      | Some plan =>
          _ ← interfere meanwhile';
          if mirrors then
            match plan.(mp_orphanedDonorContactId) with
            | Some donor => _ ← deleteContactIfOrphaned answer meanwhile'' donor; mret (Some true)
            | None => mret (Some true)
            end
          else mret (if softMirrorFailures then Some true else None)
      end
  end.

Definition upsertContactChannel (newContact newChannel sourceChannel externalUserId : string)
    (externalChatId displayName username : option string) : Store SeedResult :=
  let address := canonical_address sourceChannel externalUserId in
  seedInboundChannel now newContact newChannel sourceChannel address externalChatId
    (default (default address username) displayName).

(** ** The verified outcome, in full *)

(** What the mirror answers is consistent with the gateway: a channel it knows under
    this key has this key in the gateway too, when the gateway has it at all. *)
Definition mirror_agrees (db : GatewayDb) (type address : string)
    (existing : option (string * string)) : Prop :=
  ∀ channelId ownerId ch, existing = Some (channelId, ownerId) → ch ∈ channels db →
    ch.(channel_id) = channelId → by_key type address ch = true.

Lemma verified_sets_key type address chat via at_ ch :
  by_key type address ch = true →
  logical_key (apply_sets (verified_sets address chat via at_) ch) = logical_key ch.
Proof. intros H%by_key_true. by rewrite H; injection H as <- _. Qed.

Lemma find_by_key_row db type address ch i allow :
  db_wf db → ch ∈ channels db → by_key type address ch = true →
  (∀ c, c ∈ channels db → c.(channel_id) = i → by_key type address c = true) →
  reactivatable allow ch = true →
  (∀ c, c ∈ channels db → by_id i c && reactivatable allow c = true → c = ch)
  ∧ (∀ c, c ∈ channels db → by_key type address c && reactivatable allow c = true ↔ c = ch).
Proof.
  intros Hwf Hin Hk Hi Hr.
  assert (∀ c, c ∈ channels db → by_key type address c = true → c = ch) as Huniq.
  { intros c Hc Hck. apply (channel_by_key db); [done..|]. apply by_key_true in Hk, Hck. congruence. }
  split; [intros c Hc [H _]%andb_prop; apply by_id_true in H; auto|].
  intros c Hc. rewrite andb_true_iff. split; [intros []; auto|]. by intros ->.
Qed.

(** The one row a verified write changes. *)
Definition on_key (type address : string) (f : ContactChannel → ContactChannel)
    (db : GatewayDb) : GatewayDb :=
  with_channels ((λ ch, if by_key type address ch then f ch else ch) <$> channels db) db.

Lemma write_on_row p q sets db ch :
  db_wf db → ch ∈ channels db → (∀ c, c ∈ channels db → p c = true ↔ c = ch) →
  (∀ c, c ∈ channels db → q c = true ↔ c = ch) →
  logical_key (apply_sets sets ch) = logical_key ch →
  (apply_sets sets ch).(channel_id) = ch.(channel_id) →
  has_contact db (apply_sets sets ch).(channel_contactId) = true →
  let db' := with_channels ((λ c, if q c then apply_sets sets c else c) <$> channels db) db in
  (∃ i l, update_channels p sets db = (inr (i :: l), db')) ∧ db_wf db'.
Proof.
  intros Hwf Hin Hp Hq Hk Hid Ho db'.
  destruct (update_channels_ok p sets db Hwf) as [E Hwf'].
  { intros c Hc ->%Hp; done. }
  assert (db' = with_channels ((λ c, if p c then apply_sets sets c else c) <$> channels db) db)
    as ->.
  { unfold db'. f_equal. apply list_fmap_ext. intros i c Hc%list_elem_of_lookup_2.
    specialize (Hp _ Hc). specialize (Hq _ Hc).
    destruct (p c), (q c); try done; exfalso; naive_solver. }
  split; [|done]. rewrite E. destruct (List.filter p (channels db)) as [|x l] eqn:El; [|by eexists _, _].
  rewrite lfilter_nil in El. specialize (El _ Hin). by rewrite (proj2 (Hp _ Hin)) in El.
Qed.

Lemma write_existing cid contactId type address chat via at_ allow db ch :
  db_wf db → ch ∈ channels db → by_key type address ch = true → reactivatable allow ch = true →
  (∀ c, c ∈ channels db → c.(channel_id) = cid → by_key type address c = true) →
  let db' := on_key type address (apply_sets (verified_sets address chat via at_)) db in
  writeVerifiedGatewayChannel cid contactId type address chat via at_ allow db = (inr true, db')
  ∧ db_wf db'.
Proof.
  intros Hwf Hin Hk Hr Hcid db'. unfold writeVerifiedGatewayChannel.
  destruct (find_by_key_row db type address ch cid allow) as [Hid Hkey]; [done..|].
  assert (∀ c, c ∈ channels db → by_key type address c = true ↔ c = ch) as Hkey'.
  { intros c Hc. split; [|by intros ->]. intros E. apply (channel_by_key db); [done..|].
    apply by_key_true in Hk, E. congruence. }
  set (sets := verified_sets address chat via at_) in *.
  assert (logical_key (apply_sets sets ch) = logical_key ch) as Hsk by by eapply verified_sets_key.
  pose proof (wf_owners _ Hwf _ Hin) as Ho.
  destruct (decide (ch.(channel_id) = cid)) as [E|E].
  - destruct (write_on_row (λ c, by_id cid c && reactivatable allow c) (by_key type address)
                sets db ch) as [(i & l & Eu) Hwf']; try done.
    { intros c Hc. split; [by apply Hid|]. intros ->. apply andb_true_iff. by rewrite by_id_true. }
    split; [|done]. by erewrite bind_inr by exact Eu.
  - erewrite bind_inr; [|apply update_channels_none; [done|]]; cycle 1.
    { intros c Hc. destruct (by_id cid c && _) eqn:Ec; [|done]. pose proof (Hid _ Hc Ec) as ->.
         apply andb_prop in Ec as [Ec%by_id_true _]. done. }
    destruct (write_on_row (λ c, by_key type address c && reactivatable allow c)
                (by_key type address) sets db ch) as [(i & l & Eu) Hwf']; try done.
    split; [|done]. cbn match. by erewrite bind_inr by exact Eu.
Qed.

Lemma write_fresh cid contactId type address chat via at_ allow db :
  db_wf db → (∀ c, c ∈ channels db → by_key type address c = false) →
  (∀ c, c ∈ channels db → c.(channel_id) ≠ cid) →
  let db1 := ensured now contactId address db in
  let row := apply_sets (verified_sets address chat via at_)
               (channel_row now cid contactId type address false None "unverified" "allow") in
  let db' := with_channels (channels db ++ [row]) db1 in
  writeVerifiedGatewayChannel cid contactId type address chat via at_ allow db = (inr true, db')
  ∧ db_wf db'.
Proof.
  intros Hwf Hkey Hid db1 row db'. unfold writeVerifiedGatewayChannel.
  erewrite bind_inr; [|apply update_channels_none; [done|]]; cycle 1.
  { intros c Hc. apply andb_false_intro1. apply String.eqb_neq. auto. }
  cbn match. erewrite bind_inr; [|apply update_channels_none; [done|]]; cycle 1.
  { intros c Hc. by rewrite Hkey. }
  cbn match. erewrite bind_inr by by apply ensureContactRow_ok.
  pose proof (ensured_wf now contactId address db Hwf) as Hwf1.
  assert (row.(channel_id) ∉ channel_id <$> channels db1) as Hf1.
  { unfold db1. rewrite channels_ensured. intros (c & E & Hc)%list_elem_of_fmap.
    by apply (Hid c). }
  assert (logical_key row ∉ logical_key <$> channels db1) as Hf2.
  { unfold db1. rewrite channels_ensured. intros (c & E & Hc)%list_elem_of_fmap.
    specialize (Hkey _ Hc). rewrite (proj2 (by_key_true _ _ _)) in Hkey; [done|by rewrite <- E]. }
  assert (has_contact db1 row.(channel_contactId) = true) as Hf3.
  { unfold db1. rewrite has_contact_ensured. change row.(channel_contactId) with contactId.
    by rewrite String.eqb_refl, orb_true_r. }
  fold row db1. erewrite bind_inr by by apply insert_channel_or_ignore_ok.
  split; [unfold db', db1; by rewrite channels_ensured|].
  pose proof (insert_channel_wf _ _ Hwf1 Hf1 Hf2 Hf3) as H.
  by rewrite channels_ensured in H.
Qed.

(** What a write on a key leaves alone. *)
Record others_kept (type address : string) (db db' : GatewayDb) : Prop := {
  kept_wf : db_wf db';
  kept_invites : db'.(invites) = db.(invites);
  kept_contacts : ∃ new, contacts db' = contacts db ++ new ∧
    ∀ c, c ∈ new → c.(contact_role) = "contact" ∧ c.(principalId) = None;
  kept_channels : ∀ c, by_key type address c = false → c ∈ channels db' ↔ c ∈ channels db
}.

Lemma others_kept_refl type address db : db_wf db → others_kept type address db db.
Proof.
  constructor; try done. exists []. rewrite app_nil_r. split; [done|].
  by intros ? ?%elem_of_nil.
Qed.

Lemma others_kept_trans type address db1 db2 db3 :
  others_kept type address db1 db2 → others_kept type address db2 db3 →
  others_kept type address db1 db3.
Proof.
  intros [W1 I1 (n1 & E1 & N1) C1] [W2 I2 (n2 & E2 & N2) C2]. constructor.
  - done.
  - congruence.
  - exists (n1 ++ n2). rewrite E2, E1, app_assoc. split; [done|].
    intros c [?|?]%elem_of_app; auto.
  - intros c Hc. by rewrite C2, C1.
Qed.

Lemma others_kept_ensured type address i name db :
  db_wf db → others_kept type address db (ensured now i name db).
Proof.
  intros Hwf. constructor.
  - by apply ensured_wf.
  - apply invites_ensured.
  - unfold ensured. destruct (has_contact db i).
    + exists []. rewrite app_nil_r. split; [done|]. by intros ? ?%elem_of_nil.
    + eexists. split; [done|]. by intros c ->%list_elem_of_singleton.
  - intros c _. by rewrite channels_ensured.
Qed.

Lemma others_kept_on_key type address f db :
  db_wf (on_key type address f db) →
  (∀ ch, by_key type address ch = true → by_key type address (f ch) = true) →
  others_kept type address db (on_key type address f db).
Proof.
  intros Hwf Hf. constructor; try done.
  - exists []. rewrite app_nil_r. split; [done|]. by intros ? ?%elem_of_nil.
  - intros c Hc. unfold on_key. cbn. rewrite list_elem_of_fmap. split.
    + intros (y & -> & Hy). destruct (by_key type address y) eqn:E; [|done].
      by rewrite Hf in Hc.
    + intros Hin. exists c. by rewrite Hc.
Qed.

Lemma find_on_key type address f db :
  (∀ ch, by_key type address ch = true → by_key type address (f ch) = true) →
  find_first (by_key type address) (channels (on_key type address f db))
  = f <$> find_first (by_key type address) (channels db).
Proof.
  intros Hf. unfold on_key. cbn. induction (channels db) as [|c l IH]; [done|]. csimpl.
  destruct (by_key type address c) eqn:E; [by rewrite Hf|by rewrite E].
Qed.

(** Moving the channel to a contact. *)
Lemma reassign_ok type address to name db :
  db_wf db →
  ∃ moved db', reassignChannelContact type address to name db = (inr moved, db')
    ∧ others_kept type address db db' ∧ has_contact db' to = true
    ∧ match find_first (by_key type address) (channels db) with
      | Some ch =>
          moved = (if String.eqb ch.(channel_contactId) to then None
                   else Some ch.(channel_contactId))
          ∧ find_first (by_key type address) (channels db')
            = Some (if String.eqb ch.(channel_contactId) to then ch
                    else apply_sets [set_contactId to; set_updatedAt now] ch)
      | None => moved = None ∧ channels db' = channels db
      end.
Proof.
  intros Hwf. unfold reassignChannelContact, catching, reassignChannelOwner.
  erewrite bind_inr by by apply ensureContactRow_ok.
  pose proof (ensured_wf now to name db Hwf) as Hwf1.
  assert (has_contact (ensured now to name db) to = true) as Hto
    by by rewrite has_contact_ensured, String.eqb_refl, orb_true_r.
  pose proof (others_kept_ensured type address to name db Hwf) as Hk1.
  erewrite bind_inr by done. rewrite channels_ensured.
  destruct (find_first (by_key type address) (channels db)) as [ch|] eqn:Hf; cbn [unless_none].
  2: { eexists _, _. split; [done|]. split_and!; try done. apply channels_ensured. }
  destruct (String.eqb_spec ch.(channel_contactId) to) as [E|E].
  - eexists _, _. split; [done|]. split_and!; try done. by rewrite channels_ensured.
  - destruct (update_channels_ok (by_key type address)
                [set_contactId to; set_updatedAt now] (ensured now to name db) Hwf1) as [Eu Hwf2];
      [done|].
    erewrite bind_inr by exact Eu. eexists _, _. split; [done|].
    split_and!; [|done|done|].
    + eapply others_kept_trans; [done|]. by apply (others_kept_on_key _ _ (apply_sets _)).
    + change (with_channels _ _) with (on_key type address
        (apply_sets [set_contactId to; set_updatedAt now]) (ensured now to name db)).
      rewrite find_on_key by done. by rewrite channels_ensured, Hf.
Qed.

(** The contact the channel is claimed for: the target of the verification, unless
    the mirror already has the channel there. *)
Definition claimed_owner (p : VerifyParams) (existing : option (string * string))
    : option string :=
  match nonblank p.(vp_contactId), existing with
  | Some t, Some (_, o) => if String.eqb t o then None else Some t
  | claimed, _ => claimed
  end.

(** Who owns the channel afterwards. *)
Definition verified_owner (newContact : string) (p : VerifyParams)
    (existing : option (string * string)) (gwRow : option ContactChannel) : string :=
  match claimed_owner p existing, gwRow, existing with
  | Some t, _, _ => t
  | None, Some ch, _ => ch.(channel_contactId)
  | None, None, Some (_, o) => o
  | None, None, None => default newContact p.(vp_contactId)
  end.

Lemma isBindingDemotion_refl via : isBindingDemotion via via = false.
Proof.
  unfold isBindingDemotion. destruct (knownStrengthRank via); [|done].
  apply Nat.ltb_ge. lia.
Qed.

Lemma effective_binding_kept p ch :
  ch.(channel_status) = "active" →
  isBindingDemotion ch.(channel_verifiedVia) (Some (effective_binding p (Some ch)).1) = false.
Proof.
  intros Ha. simpl. rewrite Ha. simpl.
  destruct (isBindingDemotion _ (Some (vp_via p))) eqn:E; [|done].
  destruct ch.(channel_verifiedVia) as [v|]; [apply isBindingDemotion_refl|].
  unfold isBindingDemotion in E. by destruct (knownStrengthRank (Some (vp_via p))).
Qed.

(** The channel a verification leaves behind. *)
Record verified_channel (newContact : string) (p : VerifyParams)
    (existing : option (string * string)) (gwRow : option ContactChannel)
    (ch : ContactChannel) : Prop := {
  vc_status : ch.(channel_status) = "active";
  vc_policy : ch.(channel_policy) = "allow";
  vc_address : ch.(channel_address) = vp_address p;
  vc_chat : ch.(channel_externalChatId) = Some p.(vp_externalChatId);
  vc_reasons : ch.(channel_revokedReason) = None ∧ ch.(channel_blockedReason) = None;
  vc_via : ch.(channel_verifiedVia) = Some (effective_binding p gwRow).1;
  vc_owner : ch.(channel_contactId) = verified_owner newContact p existing gwRow;
  vc_same : ∀ old, gwRow = Some old → ch.(channel_id) = old.(channel_id)
}.

(** The write on its own, whatever the row's owner is by then. *)
Lemma write_ok cid contactId p via at_ db gwRow :
  let type := p.(vp_sourceChannel) in
  let address := vp_address p in
  let allow := p.(vp_allowRevokedReactivation) in
  let write := writeVerifiedGatewayChannel cid contactId type address p.(vp_externalChatId)
                 via at_ allow in
  db_wf db → find_first (by_key type address) (channels db) = gwRow →
  refused_by_status p gwRow = false →
  (∀ c, c ∈ channels db → c.(channel_id) = cid → by_key type address c = true) →
  ∃ db' ch, write db = (inr true, db') ∧ others_kept type address db db'
    ∧ find_first (by_key type address) (channels db') = Some ch
    ∧ ch = apply_sets (verified_sets address p.(vp_externalChatId) via at_)
             (default (channel_row now cid contactId type address false None "unverified" "allow")
                gwRow).
Proof.
  intros type address allow write Hwf Hrow Hst Hcid. subst write.
  destruct gwRow as [old|]; simpl in *.
  - apply negb_false_iff in Hst. pose proof Hrow as [Hin Hk]%find_first_Some.
    destruct (write_existing cid contactId type address p.(vp_externalChatId) via at_ allow db old)
      as [-> Hwf']; [done..|].
    assert (∀ ch, by_key type address ch = true →
      by_key type address
        (apply_sets (verified_sets address p.(vp_externalChatId) via at_) ch) = true) as Hkeep.
    { intros ch H. apply by_key_true. rewrite (verified_sets_key type) by done.
      by apply by_key_true. }
    eexists _, _. split; [done|].
    split_and!; [by apply others_kept_on_key|by rewrite find_on_key, Hrow|done].
  - rewrite find_first_None in Hrow.
    destruct (write_fresh cid contactId type address p.(vp_externalChatId) via at_ allow db)
      as [-> Hwf']; [done..| |].
    { intros c Hc E. specialize (Hcid _ Hc E). by rewrite Hrow in Hcid. }
    set (row := apply_sets _ _) in *.
    assert (by_key type address row = true) as Hk by by apply by_key_true.
    eexists _, _. split; [done|]. split_and!; [|..|done].
    + eapply others_kept_trans; [by apply (others_kept_ensured type address contactId address)|].
      constructor; [done|done|exists []; rewrite app_nil_r; split; [done|by intros ? ?%elem_of_nil]|].
      clearbody row. intros c Hc. rewrite channels_ensured. cbn. rewrite elem_of_app, list_elem_of_singleton.
      split; [|auto]. intros [?|E]; [done|]. by rewrite E, Hk in Hc.
    + change (channels _) with (channels db ++ [row]).
      rewrite find_first_app, (proj2 (find_first_None _ _)) by done. cbn [find_first].
      by rewrite Hk.
Qed.

Lemma find_none_row {A} (f : A → bool) xs x : find_first f xs = None → x ∈ xs → f x = true → False.
Proof. intros H Hx. rewrite find_first_None in H. by rewrite H. Qed.

(** The step that moves the channel, in either branch of the code. *)
Definition bound_contact (newContact : string) (p : VerifyParams)
    (existing : option (string * string)) : string :=
  match existing with
  | Some (_, o) => default o (nonblank p.(vp_contactId))
  | None => default newContact p.(vp_contactId)
  end.

Definition donor_step (newContact : string) (p : VerifyParams)
    (existing : option (string * string)) : Store (option string) :=
  let bound := bound_contact newContact p existing in
  let move := reassignChannelContact p.(vp_sourceChannel) (vp_address p) bound (vp_name p) in
  match existing with
  | Some (_, o) =>
      if negb (String.eqb bound o) then moved ← move; mret (Some (default o moved)) else mret None
  | None =>
      if truthy (default "" p.(vp_contactId)) then move
      else _ ← ensureContactRow now bound (vp_name p); mret None
  end.

Record donor_post (newContact : string) (p : VerifyParams) (existing : option (string * string))
    (db db1 : GatewayDb) : Prop := {
  dp_others : others_kept p.(vp_sourceChannel) (vp_address p) db db1;
  dp_row : match getGatewayChannelByKey p.(vp_sourceChannel) (vp_address p) db with
    | Some ch =>
        ∃ ch1, getGatewayChannelByKey p.(vp_sourceChannel) (vp_address p) db1 = Some ch1
          ∧ ch1.(channel_id) = ch.(channel_id) ∧ ch1.(channel_status) = ch.(channel_status)
          ∧ ch1.(channel_contactId) = default ch.(channel_contactId) (claimed_owner p existing)
    | None =>
        channels db1 = channels db
        ∧ bound_contact newContact p existing = verified_owner newContact p existing None
    end
}.

Lemma donor_ok newContact p existing db :
  db_wf db → ∃ d db1, donor_step newContact p existing db = (inr d, db1)
    ∧ donor_post newContact p existing db db1.
Proof.
  intros Hwf. set (bound := bound_contact newContact p existing).
  assert (claimed_owner p existing = Some bound → ∃ moved db1,
    reassignChannelContact p.(vp_sourceChannel) (vp_address p) bound (vp_name p) db
    = (inr moved, db1) ∧ donor_post newContact p existing db db1) as Hmove.
  { intros Ht. destruct (reassign_ok p.(vp_sourceChannel) (vp_address p) bound (vp_name p) db Hwf)
      as (moved & db1 & E & Hk & _ & Hrow). exists moved, db1. split; [done|]. split; [done|].
    unfold getGatewayChannelByKey. destruct (find_first _ (channels db)) as [ch|].
    - destruct Hrow as [_ Hrow]. rewrite Ht. simpl.
      destruct (String.eqb_spec ch.(channel_contactId) bound); eexists; by split_and!.
    - split; [apply Hrow|]. unfold verified_owner. by rewrite Ht. }
  assert (∀ db1, claimed_owner p existing = None →
    others_kept p.(vp_sourceChannel) (vp_address p) db db1 → channels db1 = channels db →
    bound = verified_owner newContact p existing None → donor_post newContact p existing db db1)
    as Hstay.
  { intros db1 Hn Hk Hc Hb. split; [done|]. unfold getGatewayChannelByKey. rewrite Hc, Hn.
    destruct (find_first _ _) as [ch|]; [by exists ch|done]. }
  unfold donor_step. fold bound. unfold bound_contact in bound.
  unfold verified_owner in Hstay. destruct existing as [[cid o]|].
  - destruct (String.eqb_spec bound o) as [E|E]; simpl.
    + eexists _, _. split; [done|].
      assert (claimed_owner p (Some (cid, o)) = None) as Hn.
      { unfold claimed_owner. subst bound. destruct (nonblank _) as [t|]; [|done]. simpl in E.
        by rewrite E, String.eqb_refl. }
      apply Hstay; [done|by apply others_kept_refl|done|by rewrite Hn].
    + destruct Hmove as (moved & db1 & Em & Hp); [|by erewrite bind_inr by exact Em; eauto].
      unfold claimed_owner. subst bound. destruct (nonblank _) as [t|]; [|done]. simpl in *.
      by destruct (String.eqb_spec t o).
  - unfold claimed_owner, nonblank in *. subst bound.
    destruct p.(vp_contactId) as [t|]; simpl in *; [destruct (truthy t); [by apply Hmove|]|].
    all: erewrite bind_inr by by apply ensureContactRow_ok.
    all: eexists _, _; split; [done|]; apply Hstay;
      [done|by apply others_kept_ensured|apply channels_ensured|done].
Qed.

(** Both branches of the code are: move the channel, then write it. *)
Lemma apply_steps newContact newChannel p existing db :
  let gwRow := getGatewayChannelByKey p.(vp_sourceChannel) (vp_address p) db in
  refused_by_status p gwRow = false →
  ∃ plan, applyVerifiedChannelGatewayWrites newContact newChannel p existing db
  = (donor ← donor_step newContact p existing;
     wrote ← writeVerifiedGatewayChannel (from_option fst newChannel existing)
               (bound_contact newContact p existing) p.(vp_sourceChannel) (vp_address p)
               p.(vp_externalChatId) (effective_binding p gwRow).1 (effective_binding p gwRow).2
               p.(vp_allowRevokedReactivation);
     if wrote : bool then mret (Some (plan donor)) else mret None) db.
Proof.
  intros gwRow Hst. unfold applyVerifiedChannelGatewayWrites, donor_step, bound_contact.
  erewrite bind_inr by done. fold gwRow. rewrite Hst.
  destruct (effective_binding p gwRow) as [via at_].
  destruct existing as [[cid o]|]; eexists (λ donor, _); reflexivity.
Qed.

(** A verification answers without a thrown constraint. Unless the channel is
    blocked, or revoked and the caller may not reactivate it, in which case nothing
    is written, the sender's channel is active and allowed afterwards, under the
    contact the verification claims it for, with no weaker provenance than it had
    when it was active; no other channel, no invite and no existing contact changes,
    and a contact that is added is a plain one. *)
Lemma verify_outcome newContact newChannel p existing db :
  db_wf db →
  mirror_agrees db p.(vp_sourceChannel) (vp_address p) existing →
  (existing = None → ∀ ch, ch ∈ channels db → ch.(channel_id) ≠ newChannel) →
  let gwRow := getGatewayChannelByKey p.(vp_sourceChannel) (vp_address p) db in
  match applyVerifiedChannelGatewayWrites newContact newChannel p existing db with
  | (inl _, _) => False
  | (inr None, db') => db' = db ∧ refused_by_status p gwRow = true
  | (inr (Some _), db') =>
      refused_by_status p gwRow = false
      ∧ others_kept p.(vp_sourceChannel) (vp_address p) db db'
      ∧ (∃ ch, getGatewayChannelByKey p.(vp_sourceChannel) (vp_address p) db' = Some ch
               ∧ verified_channel newContact p existing gwRow ch)
      ∧ ∀ old, gwRow = Some old → old.(channel_status) = "active" →
          isBindingDemotion old.(channel_verifiedVia) (Some (effective_binding p gwRow).1) = false
  end.
Proof.
  intros Hwf Hmirror Hfresh gwRow. destruct (refused_by_status p gwRow) eqn:Hst.
  { unfold applyVerifiedChannelGatewayWrites. erewrite bind_inr by done. fold gwRow. by rewrite Hst. }
  destruct (apply_steps newContact newChannel p existing db Hst) as [plan ->].
  destruct (donor_ok newContact p existing db Hwf) as (d & db1 & E & [Hk1 Hrow]).
  erewrite bind_inr by exact E. fold gwRow in Hrow |- *.
  assert (getGatewayChannelByKey p.(vp_sourceChannel) (vp_address p) db = gwRow) as Hg by done.
  clearbody gwRow.
  set (cid := from_option fst newChannel existing).
  assert (∀ c, c ∈ channels db → c.(channel_id) = cid →
               by_key p.(vp_sourceChannel) (vp_address p) c = true) as Hcid.
  { intros c Hc Ec. subst cid. destruct existing as [[k o]|]; simpl in Ec.
    - by eapply Hmirror.
    - exfalso. by eapply Hfresh. }
  destruct (write_ok cid (bound_contact newContact p existing) p (effective_binding p gwRow).1
              (effective_binding p gwRow).2 db1
              (getGatewayChannelByKey p.(vp_sourceChannel) (vp_address p) db1))
    as (db2 & ch & Ew & Hk2 & Hf & Hch).
  - apply Hk1.
  - done.
  - destruct gwRow as [old|].
    + destruct Hrow as (ch1 & -> & _ & Hs & _). simpl in *. unfold reactivatable in *.
      by rewrite Hs.
    + destruct Hrow as [Hc _]. unfold getGatewayChannelByKey in *. by rewrite Hc, Hg.
  - intros c Hc Ec. destruct (by_key _ _ c) eqn:Ek; [done|].
    rewrite <- Ek. apply Hcid; [|done]. by apply (kept_channels _ _ _ _ Hk1).
  - erewrite bind_inr by exact Ew. cbn match. split_and!; [done|by eapply others_kept_trans| |].
    + exists ch. split; [done|]. destruct gwRow as [old|].
      * destruct Hrow as (ch1 & E1 & Hi & _ & Ho). rewrite E1 in Hch. subst ch.
        constructor; try done. by intros ? [= <-].
      * destruct Hrow as [Hc Ho]. unfold getGatewayChannelByKey in *. rewrite Hc, Hg in Hch.
        subst ch. by constructor.
    + intros old -> Ha. by apply effective_binding_kept.
Qed.
End Writes.
