(* ===== verification/ContactSafety.v ===== *)
(** What a contact write other than a guardian's decision cannot do: reactivate a
    blocked channel, weaken an active binding, lose a channel in the collection of an
    orphaned contact or in a merge. The operations are those of [ContactStore] and
    [ContactWrites]; their histories, the guardian's decisions included, are in
    ContactHistories.v. *)
From S2P Require Import Prelude JsString VerificationSessions VerificationFlow SenderTrust.
From S2P Require Import ContactStore ContactWrites.

(** ** Rows from one state to the next *)

(** Every channel is still there, and related to what it was. *)
Definition rows_kept (R : ContactChannel → ContactChannel → Prop) (db db' : GatewayDb) : Prop :=
  ∀ ch, ch ∈ channels db →
    ∃ ch', ch' ∈ channels db' ∧ ch'.(channel_id) = ch.(channel_id) ∧ R ch ch'.

(** A computation keeps the invariant and relates the rows, also when it throws. *)
Definition keeps (R : ContactChannel → ContactChannel → Prop) {A} (m : Store A) : Prop :=
  ∀ db, db_wf db → db_wf (m db).2 ∧ rows_kept R db (m db).2.

Section Keeps.
Context (R : ContactChannel → ContactChannel → Prop) {HR : PreOrder R}.

#[export] Instance rows_kept_preorder : PreOrder (rows_kept R).
Proof.
  split.
  - intros db ch Hc. exists ch. by split_and!.
  - intros x y z H1 H2 ch Hc. destruct (H1 _ Hc) as (c & Hin & Hi & Hr).
    destruct (H2 _ Hin) as (c' & Hin' & Hi' & Hr'). exists c'.
    split_and!; [done|congruence|by etrans].
Qed.

Lemma rows_kept_same db db' : channels db' = channels db → rows_kept R db db'.
Proof. intros E ch Hin. exists ch. rewrite E. by split_and!. Qed.

Lemma keeps_same {A} (m : Store A) : (∀ db, channels (m db).2 = channels db ∧
  (db_wf db → db_wf (m db).2)) → keeps R m.
Proof.
  intros H db Hwf. destruct (H db) as [Hc Hw]. split; [auto|by apply rows_kept_same].
Qed.

Lemma keeps_ret {A} (a : A) : keeps R (mret a).
Proof. by apply keeps_same. Qed.
Lemma keeps_throw {A} e : keeps R (throw (A:=A) e).
Proof. by apply keeps_same. Qed.
Lemma keeps_gets {A} (f : GatewayDb → A) : keeps R (gets f).
Proof. by apply keeps_same. Qed.

Lemma keeps_bind {A B} (m : Store A) (k : A → Store B) :
  keeps R m → (∀ a, keeps R (k a)) → keeps R (m ≫= k).
Proof.
  intros Hm Hk db Hwf. destruct (Hm db Hwf) as [W1 R1]. unfold mbind, Store_bind.
  destruct (m db) as [[e|a] db1]; [done|]. destruct (Hk a db1 W1) as [W2 R2].
  split; [done|]. simpl in *. by etrans.
Qed.

Lemma keeps_transaction {A} (m : Store A) : keeps R m → keeps R (transaction m).
Proof.
  intros Hm db Hwf. unfold transaction. specialize (Hm db Hwf).
  destruct (m db) as [[e|a] db1]; [by split|done].
Qed.

Lemma keeps_unless_none {A B} (a : option A) (b : B) (k : A → Store B) :
  (∀ x, a = Some x → keeps R (k x)) → keeps R (unless_none a b k).
Proof. destruct a; simpl; [auto|]. intros _. apply keeps_ret. Qed.

(** A read and what is done with the row read. *)
Lemma keeps_select {B} p (k : option ContactChannel → Store B) :
  keeps R (k None) →
  (∀ db ch, db_wf db → find_first p (channels db) = Some ch →
     db_wf (k (Some ch) db).2 ∧ rows_kept R db (k (Some ch) db).2) →
  keeps R (select_channel p ≫= k).
Proof.
  intros Hn Hs db Hwf. unfold select_channel. erewrite bind_inr by done.
  destruct (find_first p (channels db)) as [ch|] eqn:E; [by apply Hs|by apply Hn].
Qed.

Lemma commit_snd {A} (a : A) db' db :
  (constraints db' = true → db_wf db' ∧ rows_kept R db db') → db_wf db →
  db_wf (commit a db' db).2 ∧ rows_kept R db (commit a db' db).2.
Proof.
  intros H Hwf. unfold commit. destruct (constraints db') eqn:E; [by apply H|by split].
Qed.

(** Contact writes leave the channels alone. *)
Lemma keeps_insert_contact c : keeps R (insert_contact c).
Proof.
  intros db Hwf. apply commit_snd; [|done]. intros Hc. split; [|by apply rows_kept_same].
  apply insert_contact_wf; [done|]. apply not_true_iff_false. intros Hh%has_contact_elem.
  unfold constraints in Hc. rewrite !andb_true_iff in Hc.
  destruct Hc as [[[[[Hc _] _] _] _] _]. apply bool_decide_eq_true in Hc. cbn in Hc.
  rewrite fmap_app in Hc. apply NoDup_app in Hc as (_ & Hc & _). apply (Hc _ Hh). by left.
Qed.

Lemma keeps_update_contacts p f :
  (∀ c, (f c).(contact_id) = c.(contact_id)) → keeps R (update_contacts p f).
Proof.
  intros Hf db Hwf. apply commit_snd; [|done]. intros _. split; [|by apply rows_kept_same].
  assert (contact_id <$> ((λ c, if p c then f c else c) <$> contacts db)
          = contact_id <$> contacts db) as E.
  { rewrite <- list_fmap_compose. apply list_fmap_ext. intros i c _. simpl.
    by destruct (p c). }
  assert (∀ i, has_contact db i = true →
    has_contact (with_contacts ((λ c, if p c then f c else c) <$> contacts db) db) i = true) as Hmono.
  { intros i Hi%has_contact_elem. apply has_contact_elem. cbn. by rewrite E. }
  destruct Hwf as [W1 W2 W3 W4 W5 W6]. constructor; try done; [cbn; by rewrite E|auto|auto].
Qed.

(** A write of columns outside the key and the owner. *)
Lemma update_kept p sets db :
  db_wf db →
  (∀ ch, ch ∈ channels db → p ch = true →
     logical_key (apply_sets sets ch) = logical_key ch
     ∧ (apply_sets sets ch).(channel_id) = ch.(channel_id)
     ∧ has_contact db (apply_sets sets ch).(channel_contactId) = true
     ∧ R ch (apply_sets sets ch)) →
  db_wf (update_channels p sets db).2 ∧ rows_kept R db (update_channels p sets db).2.
Proof.
  intros Hwf H. destruct (update_channels_ok p sets db Hwf) as [-> Hwf'].
  { intros ch Hc Hp. destruct (H ch Hc Hp) as (? & ? & ? & _). by split_and!. }
  split; [done|]. intros ch Hc. simpl.
  exists (if p ch then apply_sets sets ch else ch). split.
  - cbn. apply list_elem_of_fmap. by exists ch.
  - destruct (p ch) eqn:E; [|by split]. destruct (H ch Hc E) as (? & ? & ? & ?). by split.
Qed.

Lemma keeps_seen (i : string) (sets : list ChannelSet) :
  (∀ ch, logical_key (apply_sets sets ch) = logical_key ch
         ∧ (apply_sets sets ch).(channel_id) = ch.(channel_id)
         ∧ (apply_sets sets ch).(channel_contactId) = ch.(channel_contactId)
         ∧ R ch (apply_sets sets ch)) →
  keeps R (update_channels (by_id i) sets).
Proof.
  intros H db Hwf. apply update_kept; [done|]. intros ch Hc _.
  destruct (H ch) as (? & ? & Ho & ?). rewrite Ho. split_and!; try done. by apply wf_owners.
Qed.
End Keeps.

(** Steps that leave the channels alone. *)
Ltac keeps_leaf :=
  solve [first [apply keeps_ret|apply keeps_throw|apply keeps_gets|apply keeps_insert_contact
               |apply keeps_update_contacts]; first [apply _|done]].

(** ** What a channel keeps *)

(** A blocked channel stays blocked, for the reason and under the address it was. *)
Definition blocked_same (ch ch' : ContactChannel) : Prop :=
  ch.(channel_status) = "blocked" →
  ch'.(channel_status) = "blocked" ∧ ch'.(channel_policy) = ch.(channel_policy)
  ∧ ch'.(channel_blockedReason) = ch.(channel_blockedReason)
  ∧ exact_key ch' = exact_key ch.

(** An active channel stays active, with a provenance that ranks no lower. *)
Definition binding_kept (ch ch' : ContactChannel) : Prop :=
  ch.(channel_status) = "active" →
  ∀ r, knownStrengthRank ch.(channel_verifiedVia) = Some r →
    ch'.(channel_status) = "active"
    ∧ ∃ r', knownStrengthRank ch'.(channel_verifiedVia) = Some r' ∧ (r ≤ r')%nat.

(** [strict]: the binding counts as well. *)
Definition channel_le (strict : bool) (ch ch' : ContactChannel) : Prop :=
  blocked_same ch ch' ∧ (strict = true → binding_kept ch ch').

#[export] Instance channel_le_preorder strict : PreOrder (channel_le strict).
Proof.
  split.
  - intros ch. split; [by intros ?|]. intros _ ? r ?. eauto.
  - intros x y z [B1 V1] [B2 V2]. split.
    + intros Hx. destruct (B1 Hx) as (Hy & E1 & E2 & E3). destruct (B2 Hy) as (Hz & F1 & F2 & F3).
      split_and!; congruence.
    + intros Hs Hx r Hr. destruct (V1 Hs Hx r Hr) as (Hy & r1 & Hr1 & Hle).
      destruct (V2 Hs Hy r1 Hr1) as (Hz & r2 & Hr2 & Hle'). split; [done|]. exists r2.
      split; [done|lia].
Qed.

(** Writes outside status, policy, provenance and key. *)
Lemma channel_le_inert strict ch ch' :
  ch'.(channel_status) = ch.(channel_status) → ch'.(channel_policy) = ch.(channel_policy) →
  ch'.(channel_blockedReason) = ch.(channel_blockedReason) →
  ch'.(channel_verifiedVia) = ch.(channel_verifiedVia) →
  (ch.(channel_status) = "blocked" → exact_key ch' = exact_key ch) → channel_le strict ch ch'.
Proof.
  intros E1 E2 E3 E4 E5. split; [intros H; rewrite E1, E2, E3; auto|].
  intros _ Ha r Hr. rewrite E1, E4. eauto.
Qed.

Lemma keeps_touch_seen strict now i : keeps (channel_le strict) (touchChannelLastSeen now i).
Proof. apply keeps_seen; [apply _|]. intros ch. split_and!; try done. by apply channel_le_inert. Qed.

Lemma keeps_touch_interaction strict now i :
  keeps (channel_le strict) (touchContactInteraction now i).
Proof. apply keeps_seen; [apply _|]. intros ch. split_and!; try done. by apply channel_le_inert. Qed.

Lemma known_rank_le v w r r' :
  knownStrengthRank v = Some r → knownStrengthRank w = Some r' → isBindingDemotion v w = false →
  (r ≤ r')%nat.
Proof. unfold isBindingDemotion. intros -> ->. by intros H%Nat.ltb_ge. Qed.

Lemma keeps_verify strict now newContact newChannel p existing db :
  db_wf db → mirror_agrees db p.(vp_sourceChannel) (vp_address p) existing →
  (existing = None → ∀ ch, ch ∈ channels db → ch.(channel_id) ≠ newChannel) →
  (strict = true → is_Some (knownStrengthRank (Some (vp_via p)))) →
  let db' := (applyVerifiedChannelGatewayWrites now newContact newChannel p existing db).2 in
  db_wf db' ∧ rows_kept (channel_le strict) db db'.
Proof.
  intros Hwf Hm Hf Hvia db'. pose proof (verify_outcome now newContact newChannel p existing db Hwf Hm Hf)
    as H. subst db'. destruct (applyVerifiedChannelGatewayWrites _ _ _ _ _ _) as [[e|[plan|]] db'];
    [done| |by destruct H as [-> _]].
  destruct H as (Hst & Hk & (ch' & Hf' & Hv) & Hb). simpl. split; [apply Hk|].
  intros ch Hin. destruct (by_key p.(vp_sourceChannel) (vp_address p) ch) eqn:Hkey.
  2: { exists ch. split; [|split; [done|reflexivity]]. by apply (kept_channels _ _ _ _ Hk). }
  assert (getGatewayChannelByKey p.(vp_sourceChannel) (vp_address p) db = Some ch) as E
    by by apply find_by_key.
  rewrite E in *. exists ch'. apply find_first_Some in Hf' as [Hin' _]. split; [done|].
  split; [by apply (vc_same _ _ _ _ _ Hv)|]. split.
  - intros Hbl. exfalso. simpl in Hst. unfold reactivatable in Hst. by rewrite Hbl in Hst.
  - intros Hs Ha r Hr. split; [apply Hv|]. rewrite (vc_via _ _ _ _ _ Hv).
    specialize (Hb _ eq_refl Ha). destruct (Hvia Hs) as [rv Hrv].
    assert (is_Some (knownStrengthRank (Some (effective_binding p (Some ch)).1))) as [r' Hr'].
    { simpl in *. rewrite Ha in *. simpl in *.
      destruct (isBindingDemotion _ (Some (vp_via p))); [|by exists rv]. simpl.
      destruct ch.(channel_verifiedVia); [by exists r|by exists rv]. }
    exists r'. split; [done|]. by eapply known_rank_le.
Qed.

(** ** Deletion *)

Lemma NoDup_fmap_lfilter {A B} (g : A → B) (f : A → bool) xs :
  NoDup (g <$> xs) → NoDup (g <$> List.filter f xs).
Proof.
  induction xs as [|x xs IH]; [done|]. csimpl. intros [Hx Hxs]%NoDup_cons.
  destruct (f x); csimpl; [|auto]. constructor; [|auto].
  intros (y & E & [Hy _]%elem_of_lfilter)%list_elem_of_fmap. apply Hx. rewrite E.
  by apply list_elem_of_fmap_2.
Qed.

(** Deleting contacts that own no channel loses no channel. *)
Lemma delete_kept p db :
  db_wf db →
  (∀ c ch, c ∈ contacts db → p c = true → ch ∈ channels db →
     ch.(channel_contactId) ≠ c.(contact_id)) →
  channels (delete_contacts p db).2 = channels db ∧ db_wf (delete_contacts p db).2.
Proof.
  intros Hwf Hp. set (gone := contact_id <$> List.filter p (contacts db)).
  assert (∀ ch, ch ∈ channels db → negb (mem ch.(channel_contactId) gone) = true) as Hstay.
  { intros ch Hc. apply negb_true_iff, mem_false. unfold gone.
    intros (c & E & Hin)%list_elem_of_fmap. apply elem_of_lfilter in Hin as [Hin Hpc].
    by apply (Hp c ch). }
  assert (channels (delete_contacts p db).2 = channels db) as Hch
    by by apply filter_all.
  assert (∀ i, has_contact db i = true → negb (mem i gone) = true →
               has_contact (delete_contacts p db).2 i = true) as Hhas.
  { intros i (c & -> & Hin)%has_contact_elem%list_elem_of_fmap Hg.
    apply has_contact_elem, list_elem_of_fmap. exists c. split; [done|].
    cbn. apply elem_of_lfilter. split; [done|]. apply negb_true_iff.
    apply negb_true_iff, mem_false in Hg. destruct (p c) eqn:E; [|done]. exfalso. apply Hg.
    unfold gone. apply list_elem_of_fmap_2. by apply elem_of_lfilter. }
  split; [done|]. destruct Hwf as [W1 W2 W3 W4 W5 W6]. constructor; rewrite ?Hch; try done.
  - by apply NoDup_fmap_lfilter.
  - by apply NoDup_fmap_lfilter.
  - intros ch Hc. apply Hhas; auto.
  - intros i [Hi Hs]%elem_of_lfilter. apply Hhas; auto.
Qed.

(** ** Seeding *)

(** A row under a new key; a conflict leaves things as they are. *)
Lemma insert_row_kept R `{!PreOrder R} ch db :
  db_wf db → logical_key ch ∉ logical_key <$> channels db →
  (∀ i db', insert_channel_or_ignore ch db = (inr i, db') → i = [] → db' = db)
  ∧ db_wf (insert_channel_or_ignore ch db).2
  ∧ rows_kept R db (insert_channel_or_ignore ch db).2.
Proof.
  intros Hwf Hk. unfold insert_channel_or_ignore.
  destruct (existsb _ _) eqn:E; [split_and!; [by intros ? ? [= _ <-]|done|by apply rows_kept_same]|].
  unfold commit. destruct (constraints _) eqn:Hc; [|by split_and!; [|done|by apply rows_kept_same]].
  split_and!; [by intros ? ? [= <- _]| |].
  - apply insert_channel_wf; [done| |done|].
    + intros (c & Ec & Hin)%list_elem_of_fmap. rewrite existsb_false in E. specialize (E _ Hin).
      apply orb_false_elim in E as [E _]. apply String.eqb_neq in E. congruence.
    + unfold constraints in Hc. rewrite !andb_true_iff, !forallb_true in Hc.
      destruct Hc as [[_ Hc] _]. apply (Hc ch). cbn. apply elem_of_app. right. by left.
  - intros c Hin. exists c. split; [|by split]. cbn. apply elem_of_app. by left.
Qed.

Lemma contacts_fresh db c :
  constraints (with_contacts (contacts db ++ [c]) db) = true →
  c.(contact_id) ∉ contact_id <$> contacts db.
Proof.
  unfold constraints. rewrite !andb_true_iff. intros [[[[[Hc _] _] _] _] _].
  apply bool_decide_eq_true in Hc. cbn in Hc. rewrite fmap_app in Hc.
  apply NoDup_app in Hc as (_ & Hc & _). intros Hh. apply (Hc _ Hh). by left.
Qed.

Lemma insert_contact_result c db :
  insert_contact c db
  = if constraints (with_contacts (contacts db ++ [c]) db)
    then (inr (), with_contacts (contacts db ++ [c]) db) else (inl constraint_failed, db).
Proof. done. Qed.

Lemma refresh_kept strict now address chat ch db :
  db_wf db → ch ∈ channels db → by_key ch.(channel_type) address ch = true →
  ch.(channel_status) ≠ "blocked" →
  let db' := (refreshIdentity now address chat ch.(channel_id) db).2 in
  db_wf db' ∧ rows_kept (channel_le strict) db db'.
Proof.
  intros Hwf Hin Hk Hb. apply update_kept; [apply _|done|]. intros c Hc Hi%by_id_true.
  pose proof (channel_by_id db c ch Hwf Hc Hin Hi) as ->.
  apply by_key_true in Hk. injection Hk as Hk.
  destruct (truthy (default "" chat)); (split_and!;
    [by unfold logical_key; simpl; rewrite Hk|done|by apply (wf_owners _ Hwf ch)
    |by apply channel_le_inert]).
Qed.

Lemma seeded_by_key now type address i contact chat status policy :
  logical_key (channel_row now i contact type address false chat status policy)
  = (type, to_lower address).
Proof. done. Qed.

Lemma keeps_seed strict now newContact newChannel type address chat name :
  keeps (channel_le strict)
    (seedInboundChannel now newContact newChannel type address chat name).
Proof.
  apply keeps_transaction; [apply _|].
  assert (∀ db ch, db_wf db → find_first (by_key type address) (channels db) = Some ch →
    let k : Store SeedResult := if String.eqb ch.(channel_status) "blocked" then mret seed_blocked
             else _ ← refreshIdentity now address chat ch.(channel_id);
                  mret (seed_existing ch.(channel_contactId) ch.(channel_id)) in
    db_wf (k db).2 ∧ rows_kept (channel_le strict) db (k db).2) as Hexisting.
  { intros db ch Hwf [Hin Hk]%find_first_Some k. subst k.
    destruct (String.eqb_spec ch.(channel_status) "blocked") as [|Hb]; [by split|].
    assert (by_key ch.(channel_type) address ch = true) as Hk'.
    { apply by_key_true. apply by_key_true in Hk. by rewrite Hk; injection Hk as <- _. }
    pose proof (refresh_kept strict now address chat ch db Hwf Hin Hk' Hb) as [W H].
    unfold mbind, Store_bind. destruct (refreshIdentity _ _ _ _ db) as [[e|x] db']; by split. }
  intros db Hwf. unfold select_channel. erewrite bind_inr by done.
  destruct (find_first (by_key type address) (channels db)) as [ch|] eqn:Hf; [exact (Hexisting db ch Hwf Hf)|].
  unfold mbind, Store_bind. rewrite insert_contact_result.
  set (c := contact_row now newContact name None).
  pose proof (keeps_insert_contact (channel_le strict) c db Hwf) as [W1 R1].
  rewrite insert_contact_result in W1, R1.
  destruct (constraints (with_contacts (contacts db ++ [c]) db)) eqn:Hc; [|done]. simpl in W1, R1.
  set (db1 := with_contacts _ _) in *.
  destruct (insert_row_kept (channel_le strict)
    (channel_row now newChannel newContact type address false chat "unverified" "allow") db1)
    as (Hnil & W2 & R2); [done| |].
  { rewrite seeded_by_key. intros (x & E & Hx)%list_elem_of_fmap.
    eapply find_none_row; [exact Hf|exact Hx|]. by apply by_key_true. }
  destruct (insert_channel_or_ignore _ db1) as [[e|[|i l]] db2]; [by split; [|etrans]| |by split; [|etrans]].
  rewrite (Hnil _ _ eq_refl eq_refl). clear Hnil W2 R2.
  destruct (delete_kept (λ c, String.eqb c.(contact_id) newContact) db1) as [Hch W3]; [done| |].
  { intros d ch _ Hd%String.eqb_eq Hin E. change (channels db1) with (channels db) in Hin.
    apply (wf_owners _ Hwf) in Hin. apply (contacts_fresh db c Hc).
    apply has_contact_elem. change (has_contact db newContact = true). by rewrite <- Hd, <- E. }
  destruct (delete_contacts _ db1) as [[e|gone] db3] eqn:Ed; [done|]. simpl in Hch, W3.
  assert (rows_kept (channel_le strict) db db3) as R3
    by (apply rows_kept_same; [apply _|]; by rewrite Hch).
  cbn [gets].
  destruct (find_first (by_key type address) (channels db3)) as [ch|] eqn:Hf3; [|by split].
  destruct (Hexisting db3 ch W3 Hf3) as [W4 R4]. split; [exact W4|]. etrans; [exact R3|exact R4].
Qed.

(** ** Revocation and console writes *)

(** Columns that a blocked channel keeps, and columns of the key and the owner. *)
Definition set_key (s : ChannelSet) : bool :=
  match s with set_contactId _ | set_address _ => true | _ => false end.
Definition set_blocking (s : ChannelSet) : bool :=
  match s with set_status _ | set_policy _ | set_blockedReason _ => true | _ => false end.

Lemma apply_sets_key sets ch :
  forallb (λ s, negb (set_key s)) sets = true →
  (apply_sets sets ch).(channel_id) = ch.(channel_id)
  ∧ (apply_sets sets ch).(channel_contactId) = ch.(channel_contactId)
  ∧ exact_key (apply_sets sets ch) = exact_key ch.
Proof.
  revert ch. induction sets as [|s sets IH]; intros ch H; [done|]. simpl in H.
  apply andb_prop in H as [Hs H]. change (apply_sets (s :: sets) ch) with
    (apply_sets sets (apply_set ch s)). destruct (IH (apply_set ch s) H) as (-> & -> & ->).
  by destruct s.
Qed.

Lemma apply_sets_blocking sets ch :
  forallb (λ s, negb (set_blocking s)) sets = true →
  (apply_sets sets ch).(channel_status) = ch.(channel_status)
  ∧ (apply_sets sets ch).(channel_policy) = ch.(channel_policy)
  ∧ (apply_sets sets ch).(channel_blockedReason) = ch.(channel_blockedReason).
Proof.
  revert ch. induction sets as [|s sets IH]; intros ch H; [done|]. simpl in H.
  apply andb_prop in H as [Hs H]. change (apply_sets (s :: sets) ch) with
    (apply_sets sets (apply_set ch s)). destruct (IH (apply_set ch s) H) as (-> & -> & ->).
  by destruct s.
Qed.

Lemma exact_logical ch ch' : exact_key ch = exact_key ch' → logical_key ch = logical_key ch'.
Proof. unfold exact_key, logical_key. by intros [= -> ->]. Qed.

(** An update of one row, read just before, that leaves its key and owner alone, and
    what blocks it if it is blocked. *)
Lemma update_row_kept sets ch db :
  db_wf db → ch ∈ channels db → forallb (λ s, negb (set_key s)) sets = true →
  (ch.(channel_status) = "blocked" → forallb (λ s, negb (set_blocking s)) sets = true) →
  let m := update_channels (by_id ch.(channel_id)) sets in
  db_wf (m db).2 ∧ rows_kept (channel_le false) db (m db).2.
Proof.
  intros Hwf Hin Hk Hb. apply update_kept; [apply _|done|]. intros c Hc Hi%by_id_true.
  pose proof (channel_by_id db c ch Hwf Hc Hin Hi) as ->.
  destruct (apply_sets_key sets ch Hk) as (E1 & E2 & E3). split_and!.
  - by apply exact_logical.
  - done.
  - rewrite E2. by apply wf_owners.
  - split; [|done]. intros Hs. destruct (apply_sets_blocking sets ch (Hb Hs)) as (-> & -> & ->).
    by rewrite E3.
Qed.

Lemma keeps_after {A B} R `{!PreOrder R} (m : Store A) (k : A → Store B) db :
  db_wf (m db).2 ∧ rows_kept R db (m db).2 → (∀ a, keeps R (k a)) →
  db_wf ((m ≫= k) db).2 ∧ rows_kept R db ((m ≫= k) db).2.
Proof.
  intros [W1 R1] Hk. unfold mbind, Store_bind. destruct (m db) as [[e|a] db1]; [done|].
  destruct (Hk a db1 W1) as [W2 R2]. split; [done|]. simpl in *. by etrans.
Qed.

Lemma keeps_revoke now i reason : keeps (channel_le false) (markChannelRevokedById now i reason).
Proof.
  apply keeps_select; [keeps_leaf|]. intros db ch Hwf [Hin Hi]%find_first_Some.
  cbn [unless_none]. erewrite bind_inr by done.
  destruct (bool_decide _ && _); [by split|].
  destruct (String.eqb_spec ch.(channel_status) "blocked") as [|Hb]; [by split|].
  destruct (String.eqb ch.(channel_status) "revoked" && _); [by split|].
  apply keeps_after; [apply _| |].
  - apply by_id_true in Hi as <-. by apply update_row_kept.
  - intros _. apply keeps_bind; [apply _|keeps_leaf|]. intros c. keeps_leaf.
Qed.

Lemma if_given_all {A} (f : ChannelSet → bool) (v : option A) (set : A → ChannelSet) :
  (∀ a, f (set a) = true) → forallb f (if_given v set) = true.
Proof. intros H. destruct v; simpl; [by rewrite H|done]. Qed.

Lemma sync_sets_ok now c ch :
  forallb (λ s, negb (set_key s)) (sync_sets now c ch) = true
  ∧ (c.(channel_status) = "blocked" →
     forallb (λ s, negb (set_blocking s)) (sync_sets now c ch) = true).
Proof.
  unfold sync_sets, provenance_sets. split; [|intros ->]; simpl; rewrite !forallb_app, !andb_true_iff.
  all: split_and!; repeat first [apply if_given_all; done|case_match; simpl
                                |rewrite forallb_app, andb_true_iff; split]; done.
Qed.

Lemma keeps_sync_channel now i contactId ch :
  keeps (channel_le false) (sync_channel now i contactId ch).
Proof.
  apply keeps_select.
  - intros db Hwf. unfold select_channel. erewrite bind_inr by done.
    destruct (find_first _ _) as [c|] eqn:Hf; [by split|]. apply commit_snd; [apply _| |done].
    intros Hc. split.
    + unfold constraints in Hc. rewrite !andb_true_iff, !forallb_true in Hc.
      destruct Hc as [[[[[_ Hid] _] _] Ho] _]. apply insert_channel_wf; [done| | |].
      * apply bool_decide_eq_true in Hid. cbn in Hid. rewrite fmap_app in Hid.
        apply NoDup_app in Hid as (_ & Hid & _). intros H. apply (Hid _ H). by left.
      * intros (x & E & Hx)%list_elem_of_fmap. eapply find_none_row; [exact Hf|exact Hx|].
        by apply by_key_true.
      * apply Ho. cbn. apply elem_of_app. right. by left.
    + intros c Hin. exists c. split; [|by split]. cbn. apply elem_of_app. by left.
  - intros db c Hwf [Hin Hk]%find_first_Some. apply keeps_after; [apply _| |].
    + destruct (sync_sets_ok now c ch). by apply update_row_kept.
    + intros _. keeps_leaf.
Qed.

Lemma keeps_syncChannels now fresh n contactId chs :
  keeps (channel_le false) (syncChannels now fresh n contactId chs).
Proof.
  revert n. induction chs as [|ch chs IH]; intros n; simpl; [keeps_leaf|].
  apply keeps_bind; [apply _|apply keeps_sync_channel|auto].
Qed.

Lemma keeps_upsert now newContact fresh p :
  keeps (channel_le false) (upsertContactGatewayWrites now newContact fresh p).
Proof.
  unfold upsertContactGatewayWrites. apply keeps_bind; [apply _| |].
  - assert (∀ i, keeps (channel_le false) (updateContactName now p i)) as Hname
      by (intros i; keeps_leaf).
    assert (∀ c, keeps (channel_le false) (insert_contact c)) as Hcreate
      by (intros c; keeps_leaf).
    repeat first [apply keeps_bind; [apply _| |intros ?]|case_match|keeps_leaf
                 |keeps_leaf|apply Hname|apply Hcreate].
  - intros [i created]. apply keeps_bind; [apply _|apply keeps_syncChannels|].
    intros _. keeps_leaf.
Qed.

(** ** Merging *)

Lemma move_channels_ok now keepId mergeId donor db :
  db_wf db → keepId ≠ mergeId → has_contact db keepId = true →
  NoDup (channel_id <$> donor) →
  (∀ ch, ch ∈ donor → ch ∈ channels db ∧ ch.(channel_contactId) = mergeId) →
  ∃ db', move_channels now keepId donor db = (inr (), db') ∧ db_wf db'
    ∧ rows_kept (channel_le true) db db'
    ∧ contacts db' = contacts db ∧ db'.(invites) = db.(invites)
    ∧ ∀ ch, ch ∈ channels db' → ch.(channel_contactId) = mergeId →
        ch ∈ channels db ∧ ch.(channel_id) ∉ channel_id <$> donor.
Proof.
  intros Hwf Hne Hkeep. revert db Hwf Hkeep. induction donor as [|ch donor IH];
    intros db Hwf Hkeep Hnd Hd.
  { exists db. split_and!; try done. intros ch Hc _. split; [done|]. by apply not_elem_of_nil. }
  destruct (Hd ch) as [Hin Ho]; [by left|]. apply NoDup_cons in Hnd as [Hnot Hnd]. simpl.
  unfold select_channel. erewrite bind_inr by done.
  assert (find_first (λ c, owned_by keepId c
            && by_key ch.(channel_type) ch.(channel_address) c) (channels db) = None) as ->.
  { apply find_first_None. intros c Hc. apply not_true_iff_false. intros [Hk Hkey]%andb_prop.
    apply by_key_true in Hkey. pose proof (channel_by_key db c ch Hwf Hc Hin Hkey) as ->.
    apply String.eqb_eq in Hk. congruence. }
  set (sets := [set_contactId keepId; set_updatedAt now]).
  destruct (update_channels_ok (by_id ch.(channel_id)) sets db Hwf) as [Eu Hwf1]; [done|].
  erewrite bind_inr by exact Eu. set (db1 := with_channels _ db) in *.
  assert (∀ c, c ∈ channels db → c.(channel_id) ≠ ch.(channel_id) → c ∈ channels db1) as Hother.
  { intros c Hc Hne'. cbn. apply list_elem_of_fmap. exists c. split; [|done].
    unfold by_id. by destruct (String.eqb_spec c.(channel_id) ch.(channel_id)). }
  destruct (IH db1 Hwf1 Hkeep Hnd) as (db' & -> & Hwf' & Hrows & Hc & Hi & Hno).
  { intros c Hcd. destruct (Hd c) as [Hcin Hco]; [by right|]. split; [|done].
    apply Hother; [done|]. intros E. apply Hnot. rewrite <- E. by apply list_elem_of_fmap_2. }
  exists db'. split_and!; try done.
  - etrans; [|exact Hrows]. intros c Hcin. cbn.
    exists (if by_id ch.(channel_id) c then apply_sets sets c else c).
    split; [apply list_elem_of_fmap; by exists c|].
    destruct (by_id _ c); [split; [done|by apply channel_le_inert]|by split].
  - intros c Hc' Hco. destruct (Hno c Hc' Hco) as [Hc1 Hni].
    apply list_elem_of_fmap in Hc1 as (y & Ey & Hy).
    destruct (by_id ch.(channel_id) y) eqn:Eb.
    + rewrite Ey in Hco. simpl in Hco. congruence.
    + subst c. split; [done|]. apply not_elem_of_cons. split; [|done].
      by apply String.eqb_neq.
Qed.

(** A merge loses no channel: nothing is left under the donor when it is deleted. *)
Lemma keeps_merge now keepId mergeId : keeps (channel_le true) (mergeContacts now keepId mergeId).
Proof.
  intros db Hwf. unfold mergeContacts.
  destruct (String.eqb_spec keepId mergeId) as [|Hne]; [by split|].
  erewrite bind_inr by done. erewrite bind_inr by done.
  destruct (getContact keepId db) as [k|] eqn:Hk; [|by split].
  destruct (getContact mergeId db) as [m|] eqn:Hm; [|by split].
  destruct (String.eqb m.(contact_role) "guardian"); [by split|].
  revert db Hwf Hk Hm. change (∀ db, db_wf db → getContact keepId db = Some k →
    getContact mergeId db = Some m → db_wf (transaction (
      _ ← update_contacts (λ c, String.eqb c.(contact_id) keepId) (touch_contact now);
      donor ← gets (λ db, List.filter (owned_by mergeId) (channels db));
      _ ← move_channels now keepId donor;
      _ ← delete_contacts (λ c, String.eqb c.(contact_id) mergeId);
      mret ()) db).2 ∧ rows_kept (channel_le true) db (transaction (
      _ ← update_contacts (λ c, String.eqb c.(contact_id) keepId) (touch_contact now);
      donor ← gets (λ db, List.filter (owned_by mergeId) (channels db));
      _ ← move_channels now keepId donor;
      _ ← delete_contacts (λ c, String.eqb c.(contact_id) mergeId);
      mret ()) db).2).
  intros db Hwf Hk Hm. unfold transaction.
  pose proof (keeps_update_contacts (channel_le true) (λ c, String.eqb c.(contact_id) keepId)
    (touch_contact now) (λ _, eq_refl) db Hwf) as [W1 R1].
  destruct (update_contacts _ _ db) as [[e|[]] db1] eqn:Eu.
  { erewrite bind_inl by exact Eu. by split. }
  erewrite bind_inr by exact Eu. simpl in W1, R1.
  assert (channels db1 = channels db ∧ contact_id <$> contacts db1 = contact_id <$> contacts db)
    as [Hch Hids].
  { unfold update_contacts, commit in Eu. destruct (constraints _); [|done]. injection Eu as <-.
    split; [done|]. cbn. rewrite <- list_fmap_compose. apply list_fmap_ext. intros i c _. simpl.
    by destruct (String.eqb _ _). }
  erewrite bind_inr by done. rewrite Hch.
  destruct (move_channels_ok now keepId mergeId (List.filter (owned_by mergeId) (channels db)) db1)
    as (db2 & Em & W2 & R2 & Hc2 & _ & Hno); [done|done| | | |].
  { apply has_contact_elem. rewrite Hids. apply find_first_Some in Hk as [Hin Hkid].
    apply String.eqb_eq in Hkid as <-. by apply list_elem_of_fmap_2. }
  { apply NoDup_fmap_lfilter, Hwf. }
  { intros ch [Hin Ho]%elem_of_lfilter. rewrite Hch. split; [done|]. by apply String.eqb_eq. }
  erewrite bind_inr by exact Em.
  destruct (delete_kept (λ c, String.eqb c.(contact_id) mergeId) db2 W2) as [Hd W3].
  { intros c ch _ Hcid%String.eqb_eq Hin Ho. destruct (Hno ch Hin) as [Hin1 Hni]; [congruence|].
    apply Hni, list_elem_of_fmap_2, elem_of_lfilter. rewrite Hch in Hin1. split; [done|].
    apply String.eqb_eq. congruence. }
  unfold mbind, Store_bind. destruct (delete_contacts _ db2) as [[e|gone] db3]; [by split|].
  simpl in *. split; [done|]. etrans; [exact R1|]. etrans; [exact R2|].
  by apply rows_kept_same; [apply _|].
Qed.

(** ** Collecting orphans *)

Lemma orphan_owns_nothing i db c ch :
  c ∈ contacts db → orphanPredicates i db c = true → ch ∈ channels db →
  ch.(channel_contactId) ≠ c.(contact_id).
Proof.
  unfold orphanPredicates. rewrite !andb_true_iff. intros _ [[[[[Hi _] _] _] Ho] _] Hin E.
  apply negb_true_iff in Ho. rewrite existsb_false in Ho. specialize (Ho _ Hin).
  apply String.eqb_eq in Hi. apply String.eqb_neq in Ho. congruence.
Qed.

(** What the assistant said lets the collection go on. *)
Definition answer_allows (answer : MirrorAnswer) : bool :=
  match answer with
  | mirror_unreachable => true
  | mirror_error => false
  | mirror_probe p => probe_allows p
  end.

Definition collectable (i : string) (c : Contact) : Prop :=
  c.(contact_id) = i ∧ c.(contact_role) = "contact" ∧ c.(principalId) = None
  ∧ c.(autoApproveThreshold) = None.

Lemma guarded_delete_spec i db :
  db_wf db →
  let db' := (delete_contacts (orphanPredicates i db) db).2 in
  db_wf db' ∧ channels db' = channels db ∧ db'.(invites) = db.(invites)
  ∧ ∀ c, c ∈ contacts db → c ∉ contacts db' → collectable i c.
Proof.
  intros Hwf db'. destruct (delete_kept (orphanPredicates i db) db Hwf) as [Hc Hw].
  { intros c ch. apply orphan_owns_nothing. }
  split_and!; [done|done| |].
  - cbn. apply filter_all. intros v Hv. apply negb_true_iff, mem_false.
    intros (c & E & [_ Hp]%elem_of_lfilter)%list_elem_of_fmap.
    unfold orphanPredicates in Hp. rewrite !andb_true_iff in Hp.
    destruct Hp as [[[[[Hi _] _] _] _] Hp]. apply negb_true_iff in Hp. rewrite existsb_false in Hp.
    specialize (Hp _ Hv). apply String.eqb_eq in Hi. apply String.eqb_neq in Hp. congruence.
  - intros c Hin Hout. cbn in Hout. rewrite elem_of_lfilter in Hout.
    destruct (orphanPredicates i db c) eqn:Hp; [|by destruct Hout].
    unfold orphanPredicates in Hp. bool_to_prop. by split_and!.
Qed.

(** The deletion re-checks everything in its own statement: whatever was written
    while the assistant was asked, it removes at most the one contact, and only if
    that is a plain contact without principal, ceiling, channel and invite, and the
    assistant holds nothing of the guardian's on it. *)
Theorem orphan_collection_safe answer meanwhile i db :
  db_wf db → (∀ d, db_wf d → db_wf (meanwhile d)) →
  let db' := (deleteContactIfOrphaned answer meanwhile i db).2 in
  ∃ seen, (seen = db ∨ seen = meanwhile db) ∧ db_wf db'
    ∧ channels db' = channels seen ∧ db'.(invites) = seen.(invites)
    ∧ ∀ c, c ∈ contacts seen → c ∉ contacts db' →
        collectable i c ∧ answer_allows answer = true.
Proof.
  intros Hwf Hm db'. subst db'. unfold deleteContactIfOrphaned. erewrite bind_inr by done.
  destruct (negb _); [by exists db; split_and!; [left|..]|].
  assert (∀ d, db_wf d → let d' := (delete_contacts (orphanPredicates i d) d).2 in
    ∀ db', db' = d' → answer_allows answer = true → (d = db ∨ d = meanwhile db) →
    ∃ seen, (seen = db ∨ seen = meanwhile db) ∧ db_wf db'
    ∧ channels db' = channels seen ∧ db'.(invites) = seen.(invites)
    ∧ ∀ c, c ∈ contacts seen → c ∉ contacts db' → collectable i c ∧ answer_allows answer = true)
    as Hdel.
  { intros d Hd d' db' -> Ha Hseen. destruct (guarded_delete_spec i d Hd) as (W & E1 & E2 & Hgone).
    exists d. split_and!; try done. intros c Hin Hout. split; [|done]. by apply Hgone. }
  destruct answer as [| |p].
  - exact (Hdel db Hwf _ eq_refl eq_refl (or_introl eq_refl)).
  - exists (meanwhile db). split_and!; [by right|by apply Hm|done..].
  - erewrite bind_inr by done. simpl answer_allows in *. destruct (probe_allows p).
    + exact (Hdel (meanwhile db) (Hm _ Hwf) _ eq_refl eq_refl (or_intror eq_refl)).
    + exists (meanwhile db). split_and!; [by right|by apply Hm|done..].
Qed.

(** ** Concrete instances *)

Definition sample_contact (i role : string) : Contact :=
  {| contact_id := i; displayName := i; contact_role := role; principalId := None;
     autoApproveThreshold := None; contact_createdAt := 0; contact_updatedAt := 0 |}.

Definition sample_channel (i owner address status : string) (via : option string)
    : ContactChannel :=
  apply_sets [set_verifiedVia via]
    (channel_row 0 i owner "telegram" address false None status "allow").

(** A guardian, a trusted contact, a blocked one and a first-seen sender. *)
Definition sample_db : GatewayDb :=
  {| acl := {| acl_contacts := [sample_contact "g" "guardian"; sample_contact "a" "contact";
                                sample_contact "m" "contact"; sample_contact "s" "contact"];
               acl_channels := [sample_channel "c1" "g" "7" "active" (Some "bootstrap");
                                sample_channel "c2" "a" "42" "active" (Some "challenge");
                                sample_channel "c3" "m" "66" "blocked" None;
                                sample_channel "c4" "s" "99" "unverified" None] |};
     invites := [] |}.

Lemma constraints_all_wf db :
  constraints db = true → bool_decide (NoDup (logical_key <$> channels db)) = true → db_wf db.
Proof.
  unfold constraints. rewrite !andb_true_iff, !bool_decide_eq_true, !forallb_true.
  intros [[[[[? ?] _] ?] ?] ?] ?. by constructor.
Qed.

Lemma sample_db_wf : db_wf sample_db.
Proof. apply constraints_all_wf; vm_compute; reflexivity. Qed.

Lemma mirror_agrees_check db type address existing :
  forallb (λ ch, implb (bool_decide (Some ch.(channel_id) = (fst <$> existing)))
                   (by_key type address ch)) (channels db) = true →
  mirror_agrees db type address existing.
Proof.
  rewrite forallb_true. intros H cid o ch -> Hin Hi. specialize (H ch Hin). simpl in H.
  by rewrite bool_decide_true in H by congruence.
Qed.

Definition sample_verify (sender : string) (via target : option string) : VerifyParams :=
  {| vp_sourceChannel := "telegram"; vp_externalUserId := sender; vp_externalChatId := sender;
     vp_displayName := None; vp_username := None; vp_verifiedVia := via; vp_contactId := target;
     vp_allowRevokedReactivation := true |}.

Lemma verify_outcome_sample :
  ∃ db', (applyVerifiedChannelGatewayWrites 5 "n" "k" (sample_verify "99" None (Some "a"))
            (Some ("c4", "s")) sample_db).2 = db'
  ∧ others_kept "telegram" "99" sample_db db'
  ∧ ∃ ch, getGatewayChannelByKey "telegram" "99" db' = Some ch ∧ ch.(channel_contactId) = "a".
Proof.
  pose proof (verify_outcome 5 "n" "k" (sample_verify "99" None (Some "a")) (Some ("c4", "s"))
    sample_db sample_db_wf (mirror_agrees_check sample_db "telegram" "99" (Some ("c4", "s")) eq_refl)
    ltac:(done)) as H.
  eexists. split; [reflexivity|].
  destruct (applyVerifiedChannelGatewayWrites _ _ _ _ _ _) as [[e|[plan|]] db'] eqn:E.
  - done.
  - destruct H as (_ & Hk & (ch & Hch & Hv) & _). split; [exact Hk|]. exists ch.
    split; [exact Hch|]. apply Hv.
  - exfalso. vm_compute in E. done.
Defined.

Lemma orphan_collection_safe_witness :
  ∃ seen, (seen = sample_db ∨ seen = sample_db)
  ∧ channels (deleteContactIfOrphaned mirror_unreachable (λ d, d) "s" sample_db).2 = channels seen.
Proof.
  destruct (orphan_collection_safe mirror_unreachable (λ d, d) "s" sample_db sample_db_wf)
    as (seen & Hs & _ & Hc & _); [done|]. by exists seen.
Defined.

(** ** Findings *)

(** A verification that names a target contact leaves the channel where it is when
    the mirror already lists the channel under the target, though the gateway, whose
    row decides, has it under another contact: the plan says [a], the row [m]. *)
Definition drifted_db : GatewayDb :=
  with_channels [sample_channel "c2" "m" "42" "active" (Some "challenge")] sample_db.

Lemma drifted_owner_not_rebound :
  match applyVerifiedChannelGatewayWrites 5 "n" "k" (sample_verify "42" (Some "invite") (Some "a"))
          (Some ("c2", "a")) drifted_db with
  | (inr (Some plan), db') =>
      plan.(mp_contactId) = "a"
      ∧ channel_contactId <$> getGatewayChannelByKey "telegram" "42" db' = Some "m"
  | _ => False
  end.
Proof. vm_compute. split; reflexivity. Qed.

(** The guardian guard of [markChannelRevoked] has no counterpart in the status
    update: it revokes a guardian's channel for any reason. *)
Lemma guardian_revoked_by_update :
  (∃ db', markChannelRevokedById 5 "c1" (Some "spam") sample_db
          = (inl (cannot_downgrade_guardian "c1"), db'))
  ∧ match updateChannelStatus 5 (λ _, None) (λ d, d) (λ d, d) "c1" (Some "revoked") None
            (Some "spam") sample_db with
    | (inr (Some ch), _) => ch.(channel_contactId) = "g" ∧ ch.(channel_status) = "revoked"
    | _ => False
    end.
Proof. split; [eexists; vm_compute; reflexivity|vm_compute; split; reflexivity]. Qed.
