(* ===== verification/GuardianBinding.v ===== *)
(** The binding of a guardian to a channel
    ([gateway/src/auth/guardian-bootstrap.ts], [gateway/src/verification/binding-helpers.ts],
    the side effects of [text-verification.ts]).

    A guardian is a contact of role [guardian]; it is bound to a channel when it has
    an active row of that type. [LIMIT 1] without an order answers the first row in
    insertion order. The bootstrap is in [GuardianBootstrap]; the assistant's mirror is not
    modelled, except that asking the mirror can throw. *)
From S2P Require Import Prelude JsString VerificationSessions VerificationFlow SenderTrust.
From S2P Require Import ContactStore ContactWrites ContactSafety.

Section Binding.
Context (now : Z).

(** ** Lookups *)

Definition guardian_on (type : string) (statuses : list string) (row : Contact * ContactChannel)
    : bool :=
  String.eqb row.1.(contact_role) "guardian" && String.eqb row.2.(channel_type) type
  && mem row.2.(channel_status) statuses.

Definition getExistingGuardianBinding (type : string) (db : GatewayDb) : option string :=
  (λ row, row.2.(channel_address)) <$> find_first (guardian_on type ["active"]) (joined db.(acl)).

(** [MAX(COALESCE(updated_at, created_at))] *)
Definition getMostRecentChannelGuardianTimestamp (type : string) (db : GatewayDb) : option Z :=
  foldl (λ best row, let t := default row.2.(channel_createdAt) row.2.(channel_updatedAt) in
                     Some (match best with Some b => Z.max b t | None => t end))
    None (List.filter (guardian_on type ["active"; "revoked"]) (joined db.(acl))).

Definition resolveCanonicalPrincipal (fallback : string) (db : GatewayDb) : string :=
  default fallback
    (row ← find_first (guardian_on "vellum" ["active"]) (joined db.(acl)); row.1.(principalId)).

Fixpoint revoke_rows (ids : list string) : Store () :=
  match ids with
  | [] => mret ()
  | i :: ids =>
      _ ← update_channels (by_id i) [set_status "revoked"; set_policy "deny"; set_updatedAt now];
      revoke_rows ids
  end.

Definition revokeExistingChannelGuardian (type : string) : Store () :=
  rows ← gets (λ db, List.filter (guardian_on type ["active"]) (joined db.(acl)));
  revoke_rows ((λ row : Contact * ContactChannel, row.2.(channel_id)) <$> rows).

(** ** The binding *)

Record BindingParams := {
  bp_channel : string;
  bp_externalUserId : string;
  bp_deliveryChatId : string;
  bp_guardianPrincipalId : string;
  bp_displayName : option string;
  bp_verifiedVia : option string;
  bp_reactivateRevoked : bool
}.

Record BindingWrites := {
  bw_contactId : string;
  bw_channelId : string;
  bw_claimedFromContactId : option string
}.

Definition status_rank (status : string) : nat :=
  if String.eqb status "active" then 0 else if String.eqb status "unverified" then 1 else 2.

(** [ORDER BY owner, status, updated_at DESC]: [b] comes before [a]. *)
Definition claims_before (guardian : string) (a b : ContactChannel) : bool :=
  let own (ch : ContactChannel) := if String.eqb ch.(channel_contactId) guardian then 0 else 1 in
  let oa := own a in let ob := own b in
  let ra := status_rank a.(channel_status) in let rb := status_rank b.(channel_status) in
  let later := match a.(channel_updatedAt), b.(channel_updatedAt) with
               | Some x, Some y => (x <? y)%Z
               | None, Some _ => true
               | _, None => false
               end in
  (ob <? oa) || (ob =? oa) && ((rb <? ra) || (rb =? ra) && later).

Definition claimable (p : BindingParams) (ch : ContactChannel) : bool :=
  by_key p.(bp_channel) p.(bp_externalUserId) ch
  && negb (String.eqb ch.(channel_status) "blocked").

Definition claimableChannel (p : BindingParams) (guardian : option string) (db : GatewayDb)
    : option ContactChannel :=
  match List.filter (claimable p) (channels db) with
  | [] => None
  | c :: cs =>
      Some (foldl (λ best ch, if claims_before (default "" guardian) best ch then ch else best) c cs)
  end.

Definition existingGuardianContact (p : BindingParams) (db : GatewayDb) : option string :=
  contact_id <$> find_first (λ c, String.eqb c.(contact_role) "guardian"
                                  && bool_decide (c.(principalId) = Some p.(bp_guardianPrincipalId)))
                   (contacts db).

(** [insert(gwContacts).onConflictDoUpdate(...)] *)
Definition upsert_guardian (i name principal : string) : Store () :=
  known ← gets (λ db, has_contact db i);
  if known : bool then
    update_contacts (λ c, String.eqb c.(contact_id) i)
      (λ c, {| contact_id := c.(contact_id); displayName := name; contact_role := "guardian";
               principalId := Some principal; autoApproveThreshold := c.(autoApproveThreshold);
               contact_createdAt := c.(contact_createdAt); contact_updatedAt := now |})
  else
    insert_contact {| contact_id := i; displayName := name; contact_role := "guardian";
                      principalId := Some principal; autoApproveThreshold := None;
                      contact_createdAt := now; contact_updatedAt := now |}.

Definition binding_sets (p : BindingParams) (contactId : string) : list ChannelSet :=
  [set_contactId contactId; set_address p.(bp_externalUserId);
   set_externalChatId (Some p.(bp_deliveryChatId)); set_isPrimary true; set_status "active";
   set_policy "allow"; set_verifiedAt (Some now);
   set_verifiedVia (Some (default "challenge" p.(bp_verifiedVia))); set_revokedReason None;
   set_blockedReason None; set_updatedAt now].

(** [insert(gwContactChannels).onConflictDoUpdate({ target: id })] *)
Definition upsert_binding_channel (p : BindingParams) (channelId contactId : string) : Store () :=
  known ← gets (λ db, existsb (by_id channelId) (channels db));
  if known : bool then _ ← update_channels (by_id channelId) (binding_sets p contactId); mret ()
  else insert_channel
         (apply_sets (binding_sets p contactId)
            (channel_row now channelId contactId p.(bp_channel) p.(bp_externalUserId) true None
               "active" "allow")).

Definition protected_from_reactivation (p : BindingParams) (ch : ContactChannel) : bool :=
  String.eqb ch.(channel_status) "blocked"
  || String.eqb ch.(channel_status) "revoked" && negb p.(bp_reactivateRevoked).

Definition applyGuardianBindingGatewayWrites (newContact newChannel : string) (p : BindingParams)
    : Store BindingWrites :=
  guardian ← gets (existingGuardianContact p);
  claim ← gets (claimableChannel p guardian);
  let contactId :=
    match guardian, claim with
    | Some g, _ => g
    | None, Some ch => ch.(channel_contactId)
    | None, None => newContact
    end in
  existing ← gets (λ db,
    match claim, guardian with
    | None, Some _ => find_first (λ ch, owned_by contactId ch
                                       && String.eqb ch.(channel_type) p.(bp_channel)) (channels db)
    | _, _ => None
    end);
  let channelId :=
    match claim, existing with
    | Some ch, _ => ch.(channel_id)
    | None, Some ch => ch.(channel_id)
    | None, None => newChannel
    end in
  _ ← upsert_guardian contactId (default p.(bp_externalUserId) p.(bp_displayName))
        p.(bp_guardianPrincipalId);
  existingGw ← select_channel (by_key p.(bp_channel) p.(bp_externalUserId));
  _ ← match existingGw with
      | Some ch =>
          if protected_from_reactivation p ch then mret ()
          else _ ← update_channels (by_id ch.(channel_id)) (binding_sets p contactId); mret ()
      | None => upsert_binding_channel p channelId contactId
      end;
  mret {| bw_contactId := contactId; bw_channelId := channelId;
          bw_claimedFromContactId :=
            match claim with
            | Some ch => if String.eqb ch.(channel_contactId) contactId then None
                         else Some ch.(channel_contactId)
            | None => None
            end |}.

(** The mirror's failures are caught; the collection follows. *)
Definition mirrorGuardianBinding (answer : MirrorAnswer) (meanwhile : GatewayDb → GatewayDb)
    (w : BindingWrites) : Store () :=
  match w.(bw_claimedFromContactId) with
  | Some donor =>
      if truthy donor then _ ← deleteContactIfOrphaned answer meanwhile donor; mret () else mret ()
  | None => mret ()
  end.

Definition createGuardianBinding (newContact newChannel : string) (answer : MirrorAnswer)
    (mirroring probing : GatewayDb → GatewayDb) (p : BindingParams) : Store BindingWrites :=
  w ← transaction (applyGuardianBindingGatewayWrites newContact newChannel p);
  _ ← interfere mirroring;
  _ ← mirrorGuardianBinding answer probing w;
  mret w.

(** ** The side effects of a code sent in a text *)

(** What the assistant answers on the sender: [None] when it cannot be asked. *)
Definition MirrorName : Type := option (option string).

Record TextActor := {
  ta_sourceChannel : string;
  ta_canonicalUserId : string;
  ta_actorChatId : string;
  ta_actorDisplayName : option string;
  ta_actorUsername : option string
}.

(** Everything around the writes of one verification. *)
Record VerifyEnv := {
  ve_newContact : string;
  ve_newChannel : string;
  ve_name : MirrorName;
  ve_naming : GatewayDb → GatewayDb;
  ve_lookup : option (option (string * string));
  ve_mirrors : bool;
  ve_answer : MirrorAnswer;
  ve_asking : GatewayDb → GatewayDb;
  ve_mirroring : GatewayDb → GatewayDb;
  ve_probing : GatewayDb → GatewayDb
}.

Definition actor_verify (a : TextActor) (name : option string) : VerifyParams :=
  {| vp_sourceChannel := a.(ta_sourceChannel); vp_externalUserId := a.(ta_canonicalUserId);
     vp_externalChatId := a.(ta_actorChatId); vp_displayName := name;
     vp_username := a.(ta_actorUsername); vp_verifiedVia := None; vp_contactId := None;
     vp_allowRevokedReactivation := false |}.

Definition upsert_actor (env : VerifyEnv) (a : TextActor) (name : option string)
    : Store (option bool) :=
  upsertVerifiedContactChannel now env.(ve_newContact) env.(ve_newChannel) (actor_verify a name)
    false env.(ve_lookup) env.(ve_mirrors) env.(ve_asking) env.(ve_mirroring) env.(ve_answer)
    env.(ve_probing).

(** [existingContact?.displayName?.trim().length ? ... : ...] *)
Definition actor_name (a : TextActor) (known : option string) : string :=
  if truthy (trim (default "" known)) then default "" known
  else default (default a.(ta_canonicalUserId) a.(ta_actorUsername)) a.(ta_actorDisplayName).

(** [None]: the call throws. *)
Definition applyGuardianSideEffects (env : VerifyEnv) (a : TextActor) : Store (option bool) :=
  existing ← gets (getExistingGuardianBinding a.(ta_sourceChannel));
  if truthy (default "" existing)
     && negb (bool_decide (existing = Some a.(ta_canonicalUserId))) then
    upsert_actor env a a.(ta_actorDisplayName)
  else
    status ← gets (gatewayChannelStatus a.(ta_sourceChannel) a.(ta_canonicalUserId));
    if bool_decide (status = Some "blocked") || bool_decide (status = Some "revoked")
    then mret (Some false)
    else
      _ ← revokeExistingChannelGuardian a.(ta_sourceChannel);
      principal ← gets (resolveCanonicalPrincipal a.(ta_canonicalUserId));
      _ ← interfere env.(ve_naming);
      match env.(ve_name) with
      | None => mret None
      | Some known =>
          _ ← createGuardianBinding env.(ve_newContact) env.(ve_newChannel) env.(ve_answer)
                env.(ve_mirroring) env.(ve_probing)
                {| bp_channel := a.(ta_sourceChannel); bp_externalUserId := a.(ta_canonicalUserId);
                   bp_deliveryChatId := a.(ta_actorChatId); bp_guardianPrincipalId := principal;
                   bp_displayName := Some (actor_name a known);
                   bp_verifiedVia := Some "challenge"; bp_reactivateRevoked := true |};
          mret (Some true)
      end.

Definition applyTrustedContactSideEffects (env : VerifyEnv) (a : TextActor)
    : Store (option bool) :=
  _ ← interfere env.(ve_naming);
  match env.(ve_name) with
  | None => mret None
  | Some known => upsert_actor env a (Some (actor_name a known))
  end.

(** ** A phone that answered an outbound call *)

Definition phone_binding (phone chat principal : string) : BindingParams :=
  {| bp_channel := "phone"; bp_externalUserId := phone; bp_deliveryChatId := chat;
     bp_guardianPrincipalId := principal; bp_displayName := None;
     bp_verifiedVia := Some "challenge"; bp_reactivateRevoked := true |}.

Definition applyPhoneGuardianBindingGatewayWrites (newContact newChannel phone chat : string)
    (sessionUpdatedAt : Z) : Store (option BindingWrites) :=
  last ← gets (getMostRecentChannelGuardianTimestamp "phone");
  if match last with Some t => (sessionUpdatedAt <=? t)%Z | None => false end then mret None
  else
    principal ← gets (resolveCanonicalPrincipal phone);
    existing ← gets (getExistingGuardianBinding "phone");
    match existing with
    | Some address =>
        if String.eqb address phone then mret None
        else
          _ ← revokeExistingChannelGuardian "phone";
          w ← applyGuardianBindingGatewayWrites newContact newChannel
                (phone_binding phone chat principal);
          mret (Some w)
    | None =>
        w ← applyGuardianBindingGatewayWrites newContact newChannel
              (phone_binding phone chat principal);
        mret (Some w)
    end.
End Binding.

(** ** Who is bound *)

(** The active guardian rows of a channel type, as the code's joins read them. *)
Definition bound_row (type : string) (db : GatewayDb) (row : Contact * ContactChannel) : Prop :=
  row ∈ joined db.(acl) ∧ guardian_on type ["active"] row = true.

Lemma joined_elem db c ch :
  db_wf db →
  (c, ch) ∈ joined db.(acl)
  ↔ ch ∈ channels db ∧ c ∈ contacts db ∧ c.(contact_id) = ch.(channel_contactId).
Proof.
  intros Hwf. unfold joined. rewrite list_elem_of_omap. split.
  - intros (x & Hx & Hf). destruct (find_first _ _) as [d|] eqn:E; [|done].
    injection Hf as -> ->. apply find_first_Some in E as [Hin Hid%String.eqb_eq]. done.
  - intros (Hch & Hc & Hid). exists ch. split; [done|].
    destruct (find_first _ _) as [d|] eqn:E.
    + apply find_first_Some in E as [Hin Hid'%String.eqb_eq]. simpl. do 2 f_equal.
      apply (NoDup_fmap_inv contact_id (contacts db)); [apply Hwf|done|done|congruence].
    + rewrite find_first_None in E. specialize (E _ Hc). by apply String.eqb_neq in E.
Qed.

Lemma guardian_on_active type row :
  guardian_on type ["active"] row = true
  ↔ row.1.(contact_role) = "guardian" ∧ row.2.(channel_type) = type
    ∧ row.2.(channel_status) = "active".
Proof.
  unfold guardian_on. rewrite !andb_true_iff, !String.eqb_eq, mem_true, list_elem_of_singleton.
  naive_solver.
Qed.

Definition revoke_sets (now : Z) : list ChannelSet :=
  [set_status "revoked"; set_policy "deny"; set_updatedAt now].

Definition revoke_in (now : Z) (ids : list string) (ch : ContactChannel) : ContactChannel :=
  if mem ch.(channel_id) ids then apply_sets (revoke_sets now) ch else ch.

Lemma revoke_rows_ok now ids db :
  db_wf db →
  revoke_rows now ids db = (inr (), with_channels (revoke_in now ids <$> channels db) db)
  ∧ db_wf (with_channels (revoke_in now ids <$> channels db) db).
Proof.
  revert db. induction ids as [|i ids IH]; intros db Hwf; simpl.
  - assert (revoke_in now [] <$> channels db = channels db) as ->.
    { rewrite <- (list_fmap_id (channels db)) at 2. apply list_fmap_ext. intros j ch _.
      unfold revoke_in.
      assert (mem ch.(channel_id) [] = false) as -> by (apply mem_false, not_elem_of_nil). done. }
    by rewrite with_channels_id.
  - destruct (update_channels_ok (by_id i) (revoke_sets now) db Hwf) as [Eu Hwf1].
    { intros ch Hc _. split_and!; [done|done|]. exact (wf_owners _ Hwf ch Hc). }
    erewrite bind_inr by exact Eu.
    destruct (IH _ Hwf1) as [-> Hwf2]. cbn [channels with_channels acl acl_channels] in *.
    assert (revoke_in now ids <$> ((λ ch, if by_id i ch then apply_sets (revoke_sets now) ch else ch)
              <$> channels db) = revoke_in now (i :: ids) <$> channels db) as E.
    { rewrite <- list_fmap_compose. apply list_fmap_ext. intros j ch _. unfold revoke_in. simpl.
      rewrite mem_cons. unfold by_id. destruct (String.eqb_spec ch.(channel_id) i) as [Ei|Ei].
      - rewrite bool_decide_true by done. simpl.
        by destruct (mem (channel_id _) ids).
      - by rewrite bool_decide_false by done. }
    unfold channels in Hwf2, E |- *. cbn in Hwf2, E |- *. rewrite E in Hwf2 |- *. done.
Qed.

(** After the revocation no guardian is bound to the channel; nothing else changed. *)
Lemma revoke_guardian_ok now type db :
  db_wf db →
  ∃ db', revokeExistingChannelGuardian now type db = (inr (), db') ∧ db_wf db'
    ∧ contacts db' = contacts db ∧ db'.(invites) = db.(invites)
    ∧ (∀ row, ¬ bound_row type db' row)
    ∧ ∀ ch', ch' ∈ channels db' → ∃ ch, ch ∈ channels db
        ∧ logical_key ch' = logical_key ch ∧ ch'.(channel_id) = ch.(channel_id)
        ∧ ch'.(channel_contactId) = ch.(channel_contactId)
        ∧ (ch' = ch ∨ ch'.(channel_status) = "revoked" ∧ ch.(channel_status) = "active").
Proof.
  intros Hwf. unfold revokeExistingChannelGuardian. erewrite bind_inr by done.
  set (rows := List.filter _ _). set (ids := _ <$> rows).
  destruct (revoke_rows_ok now ids db Hwf) as [E Hwf']. rewrite E.
  eexists. split; [done|]. split_and!; [done..| |].
  - intros [c ch'] [[Hch [Hc Hid]]%(joined_elem _ _ _ Hwf') Hg].
    apply list_elem_of_fmap in Hch as (ch & -> & Hch). unfold revoke_in in *.
    destruct (mem ch.(channel_id) ids) eqn:Em.
    + by apply guardian_on_active in Hg as (_ & _ & ?).
    + apply mem_false in Em. apply Em. unfold ids. apply list_elem_of_fmap. exists (c, ch).
      split; [done|]. apply elem_of_lfilter. split; [|done]. by apply joined_elem.
  - intros ch' (ch & -> & Hch)%list_elem_of_fmap. exists ch. unfold revoke_in.
    destruct (mem ch.(channel_id) ids) eqn:Em; [|by split_and!; [..|left]].
    split_and!; try done. right. split; [done|].
    apply mem_true in Em. apply list_elem_of_fmap in Em as ([c ch2] & Ei & [Hj Hg]%elem_of_lfilter).
    apply joined_elem in Hj as (Hch2 & _); [|done]. simpl in Ei.
    pose proof (channel_by_id db ch ch2 Hwf Hch Hch2 Ei) as ->.
    by apply guardian_on_active in Hg as (_ & _ & ?).
Qed.

(** ** What a binding leaves *)

Lemma update_contacts_ok (p : Contact → bool) (f : Contact → Contact) (db : GatewayDb) :
  db_wf db → (∀ c, (f c).(contact_id) = c.(contact_id)) →
  let db' := with_contacts ((λ c, if p c then f c else c) <$> contacts db) db in
  update_contacts p f db = (inr (), db') ∧ db_wf db'.
Proof.
  intros Hwf Hf db'. assert (db_wf db') as Hwf'.
  { assert (contact_id <$> contacts db' = contact_id <$> contacts db) as E.
    { unfold db'. cbn. rewrite <- list_fmap_compose. apply list_fmap_ext. intros i c _. simpl.
      by destruct (p c). }
    assert (∀ i, has_contact db i = true → has_contact db' i = true) as Hmono.
    { intros i Hi%has_contact_elem. apply has_contact_elem. by rewrite E. }
    destruct Hwf as [W1 W2 W3 W4 W5 W6]. constructor; try done; [by rewrite E|auto|auto]. }
  split; [|done]. apply constraints_wf in Hwf'. unfold db' in Hwf'.
  unfold update_contacts, commit. by rewrite Hwf'.
Qed.

(** Giving one row a key that no row has. *)
Lemma rekey_ok (sets : list ChannelSet) (e : ContactChannel) (db : GatewayDb) :
  db_wf db → e ∈ channels db → (apply_sets sets e).(channel_id) = e.(channel_id) →
  has_contact db (apply_sets sets e).(channel_contactId) = true →
  logical_key (apply_sets sets e) ∉ logical_key <$> channels db →
  let db' := with_channels ((λ ch, if by_id e.(channel_id) ch then apply_sets sets ch else ch)
                            <$> channels db) db in
  update_channels (by_id e.(channel_id)) sets db
  = (inr (channel_id <$> List.filter (by_id e.(channel_id)) (channels db)), db') ∧ db_wf db'.
Proof.
  intros Hwf He Hid Ho Hkey db'.
  assert (∀ ch, ch ∈ channels db → by_id e.(channel_id) ch = true → ch = e) as Hone.
  { intros ch Hc Hi%by_id_true. by apply (channel_by_id db). }
  assert (db_wf db') as Hwf'.
  { pose proof Hwf as [W1 W2 W3 W4 W5 W6]. constructor; try done.
    - assert (channel_id <$> channels db' = channel_id <$> channels db) as ->; [|done].
      unfold db'. cbn. rewrite <- list_fmap_compose. apply list_fmap_ext.
      intros i ch Hc%list_elem_of_lookup_2. simpl. destruct (by_id _ ch) eqn:E; [|done].
      by rewrite (Hone _ Hc E).
    - unfold db'. cbn. clear Hwf He Ho W1 W4 W5 W6 db'.
      revert Hkey Hone W2 W3. induction (channels db) as [|c l IH]; [constructor|]. csimpl.
      intros [Hk1 Hk2]%not_elem_of_cons Hone [Hi1 Hi2]%NoDup_cons [Hl1 Hl2]%NoDup_cons.
      destruct (by_id e.(channel_id) c) eqn:E.
      + rewrite (Hone c) by (done || by left).
        assert ((λ ch, if by_id e.(channel_id) ch then apply_sets sets ch else ch) <$> l = l) as ->.
        { rewrite <- (list_fmap_id l) at 2. apply list_fmap_ext. intros i ch Hc%list_elem_of_lookup_2.
          destruct (by_id _ ch) eqn:E2; [|done]. exfalso. apply Hi1.
          apply by_id_true in E, E2. rewrite E, <- E2. by apply list_elem_of_fmap_2. }
        by constructor.
      + constructor.
        * intros (ch & Ek & (x & -> & Hx)%list_elem_of_fmap)%list_elem_of_fmap.
          destruct (by_id _ x) eqn:E2.
          -- rewrite (Hone x) in Ek by (done || by right). by rewrite Ek in Hk1.
          -- apply Hl1. rewrite Ek. by apply list_elem_of_fmap_2.
        * apply IH; try done. intros ch Hc. apply Hone. by right.
    - intros ch (x & -> & Hx)%list_elem_of_fmap. destruct (by_id _ x) eqn:E; [|by apply W5].
      by rewrite (Hone _ Hx E). }
  split; [|done]. apply constraints_wf in Hwf'. unfold db' in Hwf'.
  unfold update_channels, commit. by rewrite Hwf'.
Qed.

(** The row of the binding, whichever way it is written. *)
Definition bound_to (now : Z) (p : BindingParams) (g : string) (ch : ContactChannel) : Prop :=
  ch.(channel_type) = p.(bp_channel) ∧ ch.(channel_address) = p.(bp_externalUserId)
  ∧ ch.(channel_status) = "active" ∧ ch.(channel_policy) = "allow"
  ∧ ch.(channel_contactId) = g ∧ ch.(channel_updatedAt) = Some now.

Lemma binding_sets_bound now p g ch :
  ch.(channel_type) = p.(bp_channel) → bound_to now p g (apply_sets (binding_sets now p g) ch).
Proof. intros E. by split_and!. Qed.

Lemma binding_key now p g ch :
  ch.(channel_type) = p.(bp_channel) →
  logical_key (apply_sets (binding_sets now p g) ch)
  = (p.(bp_channel), to_lower p.(bp_externalUserId)).
Proof. intros E. unfold logical_key. simpl. by rewrite E. Qed.

(** The write of the channel: one row becomes the binding, the others stay. *)
Lemma binding_channel_ok now p channelId g db :
  db_wf db → has_contact db g = true →
  let existingGw := find_first (by_key p.(bp_channel) p.(bp_externalUserId)) (channels db) in
  (∀ ch, existingGw = Some ch → protected_from_reactivation p ch = false) →
  (∀ ch, ch ∈ channels db → ch.(channel_id) = channelId →
     ch.(channel_type) = p.(bp_channel)) →
  ∃ db', (match existingGw with
          | Some ch =>
              if protected_from_reactivation p ch then mret ()
              else _ ← update_channels (by_id ch.(channel_id)) (binding_sets now p g); mret ()
          | None => upsert_binding_channel now p channelId g
          end) db = (inr (), db') ∧ db_wf db' ∧ db'.(invites) = db.(invites)
    ∧ contacts db' = contacts db
    ∧ (∃ ch, ch ∈ channels db' ∧ bound_to now p g ch)
    ∧ ∀ ch, ch ∈ channels db' → bound_to now p g ch ∨ ch ∈ channels db.
Proof.
  intros Hwf Hg existingGw Hprot Hid. subst existingGw.
  destruct (find_first _ (channels db)) as [ch|] eqn:Hf.
  - rewrite (Hprot ch eq_refl). pose proof Hf as [Hin Hk]%find_first_Some.
    apply by_key_true in Hk. pose proof Hk as [= Ht _].
    destruct (update_channels_ok (by_id ch.(channel_id)) (binding_sets now p g) db Hwf)
      as [Eu Hwf'].
    { intros c Hc Hi%by_id_true. pose proof (channel_by_id db c ch Hwf Hc Hin Hi) as ->.
      by rewrite binding_key, Hk. }
    erewrite bind_inr by exact Eu. eexists. split; [done|]. split_and!; [done..| |].
    + eexists. split; [apply list_elem_of_fmap; by exists ch|].
      rewrite (proj2 (by_id_true _ _)) by done. by apply binding_sets_bound.
    + intros c (x & -> & Hx)%list_elem_of_fmap. destruct (by_id _ x) eqn:E; [|by right].
      apply by_id_true in E. pose proof (channel_by_id db x ch Hwf Hx Hin E) as ->. left.
      by apply binding_sets_bound.
  - assert ((p.(bp_channel), to_lower p.(bp_externalUserId)) ∉ logical_key <$> channels db) as Hnew.
    { intros (c & E & Hc)%list_elem_of_fmap. eapply find_none_row; [exact Hf|exact Hc|].
      by apply by_key_true. }
    unfold upsert_binding_channel. erewrite bind_inr by done.
    destruct (existsb (by_id channelId) (channels db)) eqn:Hex.
    + apply existsb_true in Hex as (x & Hx & Hxi%by_id_true).
      pose proof (Hid x Hx Hxi) as Ht. rewrite <- Hxi.
      destruct (rekey_ok (binding_sets now p g) x db Hwf Hx eq_refl Hg) as [Eu Hwf'];
        [by rewrite binding_key|].
      erewrite bind_inr by exact Eu. eexists. split; [done|]. split_and!; [done..| |].
      * eexists. split; [apply list_elem_of_fmap; by exists x|].
        rewrite (proj2 (by_id_true _ _)) by done. by apply binding_sets_bound.
      * intros c (y & -> & Hy)%list_elem_of_fmap. destruct (by_id _ y) eqn:E; [|by right].
        apply by_id_true in E. pose proof (channel_by_id db y x Hwf Hy Hx E) as ->. left.
        by apply binding_sets_bound.
    + rewrite existsb_false in Hex. set (row := apply_sets _ _).
      assert (row.(channel_id) ∉ channel_id <$> channels db) as Hni.
      { intros (c & E & Hc)%list_elem_of_fmap. specialize (Hex _ Hc).
        apply String.eqb_neq in Hex. by rewrite <- E in Hex. }
      assert (bound_to now p g row) as Hb by by apply binding_sets_bound.
      assert (logical_key row = (p.(bp_channel), to_lower p.(bp_externalUserId))) as Hrk
        by by apply binding_key.
      pose proof (insert_channel_wf row db Hwf Hni) as Hwf'. rewrite Hrk in Hwf'.
      specialize (Hwf' Hnew Hg). clearbody row.
      eexists. split; [unfold insert_channel, commit; by rewrite (constraints_wf _ Hwf')|].
      split_and!; [done..| |].
      * exists row. split; [|done]. cbn. apply elem_of_app. right. by left.
      * intros c. cbn. rewrite elem_of_app, list_elem_of_singleton. intros [?| ->]; auto.
Qed.


(** Writing the contact of a guardian that is one already. *)
Lemma upsert_guardian_ok now g name principal db :
  db_wf db → has_contact db g = true →
  ∃ db', upsert_guardian now g name principal db = (inr (), db') ∧ db_wf db'
    ∧ channels db' = channels db ∧ db'.(invites) = db.(invites) ∧ has_contact db' g = true
    ∧ (∀ c', c' ∈ contacts db' → ∃ c, c ∈ contacts db ∧ c'.(contact_id) = c.(contact_id)
        ∧ (c.(contact_id) = g ∨ c' = c))
    ∧ ∀ c', c' ∈ contacts db' → c'.(contact_id) = g → c'.(contact_role) = "guardian".
Proof.
  intros Hwf Hg. unfold upsert_guardian. erewrite bind_inr by done. rewrite Hg.
  set (f := λ c, {| contact_id := _ |}).
  destruct (update_contacts_ok (λ c, String.eqb c.(contact_id) g) f db Hwf) as [E Hwf'];
    [done|]. rewrite E. eexists. split; [done|]. split_and!; try done.
  - apply has_contact_elem. cbn. apply has_contact_elem in Hg.
    apply list_elem_of_fmap in Hg as (c & -> & Hc). apply list_elem_of_fmap.
    exists (f c). split; [done|]. apply list_elem_of_fmap. exists c.
    by rewrite String.eqb_refl.
  - intros c' (c & -> & Hc)%list_elem_of_fmap. exists c. split; [done|].
    destruct (String.eqb_spec c.(contact_id) g); auto.
  - intros c' (c & -> & Hc)%list_elem_of_fmap. by destruct (String.eqb_spec c.(contact_id) g).
Qed.

Lemma existing_guardian_contact p db g :
  existingGuardianContact p db = Some g →
  ∃ c, c ∈ contacts db ∧ c.(contact_id) = g ∧ c.(contact_role) = "guardian".
Proof.
  unfold existingGuardianContact. destruct (find_first _ _) as [c|] eqn:E; [|done].
  intros [= <-]. apply find_first_Some in E as [Hc [Hr%String.eqb_eq _]%andb_true_iff]. eauto.
Qed.

Lemma claimed_elem p g db ch : claimableChannel p g db = Some ch → ch ∈ channels db ∧ claimable p ch = true.
Proof.
  unfold claimableChannel. intros H. apply (elem_of_lfilter (claimable p)).
  destruct (List.filter _ _) as [|c cs]; [done|]. injection H as <-.
  revert c. induction cs as [|d cs IH]; intros c; [by left|]. simpl.
  destruct (claims_before _ c d).
  - right. apply IH.
  - specialize (IH c). apply elem_of_cons in IH as [->|]; [by left|right; by right].
Qed.

(** Binding a guardian that is known: its row is active, and every row that was not
    there before is the binding. *)
Lemma binding_writes_ok now newContact newChannel p g db :
  db_wf db → existingGuardianContact p db = Some g → p.(bp_reactivateRevoked) = true →
  newChannel ∉ channel_id <$> channels db →
  (∀ ch, ch ∈ channels db → by_key p.(bp_channel) p.(bp_externalUserId) ch = true →
     ch.(channel_status) ≠ "blocked") →
  ∃ w db', applyGuardianBindingGatewayWrites now newContact newChannel p db = (inr w, db')
    ∧ db_wf db' ∧ db'.(invites) = db.(invites) ∧ w.(bw_contactId) = g
    ∧ (∃ ch, ch ∈ channels db' ∧ bound_to now p g ch)
    ∧ (∀ ch, ch ∈ channels db' → bound_to now p g ch ∨ ch ∈ channels db)
    ∧ (∀ c', c' ∈ contacts db' → ∃ c, c ∈ contacts db ∧ c'.(contact_id) = c.(contact_id)
        ∧ (c.(contact_id) = g ∨ c' = c))
    ∧ ∀ c', c' ∈ contacts db' → c'.(contact_id) = g → c'.(contact_role) = "guardian".
Proof.
  intros Hwf Hguard Hre Hfresh Hnb. unfold applyGuardianBindingGatewayWrites.
  do 2 erewrite bind_inr by done. rewrite Hguard. erewrite bind_inr by done.
  set (claim := claimableChannel p (Some g) db).
  set (channelId := match claim with Some ch => ch.(channel_id) | None => _ end).
  destruct (existing_guardian_contact _ _ _ Hguard) as (gc & Hgc & Hgid & _).
  assert (has_contact db g = true) as Hhas.
  { apply has_contact_elem. rewrite <- Hgid. by apply list_elem_of_fmap_2. }
  destruct (upsert_guardian_ok now g (default p.(bp_externalUserId) p.(bp_displayName))
              p.(bp_guardianPrincipalId) db Hwf Hhas) as (db1 & E1 & Hwf1 & Ech & Einv & Hhas1 & Hc1 & Hr1).
  erewrite bind_inr by exact E1. unfold select_channel. erewrite bind_inr by done.
  destruct (binding_channel_ok now p channelId g db1 Hwf1 Hhas1) as
    (db2 & E2 & Hwf2 & Einv2 & Econt & Hbound & Hold).
  - rewrite Ech. intros ch [Hin Hk]%find_first_Some. unfold protected_from_reactivation.
    rewrite Hre, andb_false_r, orb_false_r. apply String.eqb_neq. by apply Hnb.
  - rewrite Ech. intros ch Hin Hi. subst channelId.
    destruct claim as [cl|] eqn:Ecl.
    + unfold claim in Ecl.
      apply claimed_elem in Ecl as [Hcin [Hk _]%andb_true_iff].
      pose proof (channel_by_id db ch cl Hwf Hin Hcin Hi) as ->.
      by apply by_key_true in Hk as [= -> _].
    + destruct (find_first _ (channels db)) as [x|] eqn:Ef.
      * apply find_first_Some in Ef as [Hx [_ Ht%String.eqb_eq]%andb_true_iff].
        by pose proof (channel_by_id db ch x Hwf Hin Hx Hi) as ->.
      * exfalso. apply Hfresh. rewrite <- Hi. by apply list_elem_of_fmap_2.
  - erewrite bind_inr by exact E2. eexists _, db2. split; [done|]. rewrite Ech in Hold.
    split_and!; [done|congruence|done|done|done|by rewrite Econt|by rewrite Econt].
Qed.

(** The binding of a known guardian where none was bound. *)
Lemma rebound_ok now newContact newChannel p g db :
  db_wf db → existingGuardianContact p db = Some g → p.(bp_reactivateRevoked) = true →
  newChannel ∉ channel_id <$> channels db →
  (∀ ch, ch ∈ channels db → by_key p.(bp_channel) p.(bp_externalUserId) ch = true →
     ch.(channel_status) ≠ "blocked") →
  (∀ row, ¬ bound_row p.(bp_channel) db row) →
  ∃ w db', applyGuardianBindingGatewayWrites now newContact newChannel p db = (inr w, db')
    ∧ db_wf db' ∧ db'.(invites) = db.(invites) ∧ w.(bw_contactId) = g
    ∧ (∃ row, bound_row p.(bp_channel) db' row ∧ row.1.(contact_id) = g)
    ∧ ∀ row, bound_row p.(bp_channel) db' row →
        row.2.(channel_address) = p.(bp_externalUserId) ∧ row.2.(channel_contactId) = g.
Proof.
  intros Hwf Hg Hre Hfresh Hnb Hnone.
  destruct (binding_writes_ok now newContact newChannel p g db Hwf Hg Hre Hfresh Hnb)
    as (w & db' & E & Hwf' & Hinv & Hw & (ch & Hin & Hb) & Hold & Hcs & Hrole).
  exists w, db'. split_and!; try done.
  - destruct Hb as (Ht & Ha & Hs & _ & Ho & _).
    pose proof (wf_owners _ Hwf' ch Hin) as (c & Ec & Hc)%has_contact_elem%list_elem_of_fmap.
    exists (c, ch). split; [|simpl; congruence]. split; [by apply joined_elem|].
    apply guardian_on_active. simpl. split_and!; [|done..]. apply Hrole; [done|congruence].
  - intros [c' x] [[Hx [Hc' Hid]]%(joined_elem _ _ _ Hwf') [Hr [Ht Hs]]%guardian_on_active].
    simpl in *. destruct (Hold _ Hx) as [(_ & ? & _ & _ & ? & _)|Hxold]; [done|].
    destruct (Hcs _ Hc') as (c & Hc & Eid & Hsame). exfalso. apply (Hnone (c, x)).
    split; [apply joined_elem; [done|]; split_and!; [done..|congruence]|].
    apply guardian_on_active. simpl. split_and!; [|done..].
    destruct Hsame as [Hcg| ->]; [|done].
    destruct (existing_guardian_contact _ _ _ Hg) as (gc & Hgc & Hgid & Hgr).
    rewrite (NoDup_fmap_inv contact_id (contacts db) c gc); [done|apply Hwf|done..|congruence].
Qed.

(** After a code is answered from a phone, either nothing was written (the number is
    already the guardian's, or the guardian was rebound since the session) or the
    number is the one phone that a guardian is bound to: whoever was bound before is
    revoked, in the same writes. *)
Lemma phone_rebind now newContact newChannel phone chat sessionUpdatedAt g db :
  db_wf db →
  existingGuardianContact (phone_binding phone chat (resolveCanonicalPrincipal phone db)) db
    = Some g →
  newChannel ∉ channel_id <$> channels db →
  (∀ ch, ch ∈ channels db → by_key "phone" phone ch = true → ch.(channel_status) ≠ "blocked") →
  ∃ r db', applyPhoneGuardianBindingGatewayWrites now newContact newChannel phone chat
             sessionUpdatedAt db = (inr r, db') ∧ db_wf db' ∧ db'.(invites) = db.(invites)
  ∧ match r with
    | None =>
        db' = db
        ∧ ((∃ row, bound_row "phone" db row ∧ row.2.(channel_address) = phone)
           ∨ ∃ t, getMostRecentChannelGuardianTimestamp "phone" db = Some t
                  ∧ (sessionUpdatedAt <= t)%Z)
    | Some w =>
        w.(bw_contactId) = g
        ∧ (∃ row, bound_row "phone" db' row ∧ row.1.(contact_id) = g)
        ∧ ∀ row, bound_row "phone" db' row →
            row.2.(channel_address) = phone ∧ row.2.(channel_contactId) = g
    end.
Proof.
  intros Hwf Hguard Hfresh Hnb. unfold applyPhoneGuardianBindingGatewayWrites.
  erewrite bind_inr by done.
  destruct (match getMostRecentChannelGuardianTimestamp "phone" db with
            | Some t => (sessionUpdatedAt <=? t)%Z | None => false end) eqn:Et.
  { destruct (getMostRecentChannelGuardianTimestamp "phone" db) as [t|]; [|done].
    exists None, db. split_and!; try done. right. exists t. split; [done|by apply Z.leb_le]. }
  do 2 erewrite bind_inr by done. set (p := phone_binding _ _ _) in *.
  destruct (getExistingGuardianBinding "phone" db) as [address|] eqn:Eb.
  - destruct (String.eqb_spec address phone) as [->|Hne].
    { exists None, db. split_and!; try done. left. unfold getExistingGuardianBinding in Eb.
      destruct (find_first _ _) as [row|] eqn:Ef; [|done]. apply find_first_Some in Ef as [? ?].
      exists row. split; [by split|]. by injection Eb. }
    destruct (revoke_guardian_ok now "phone" db Hwf) as (db1 & E1 & Hwf1 & Hc1 & Hi1 & Hnone & Hold).
    erewrite bind_inr by exact E1.
    destruct (rebound_ok now newContact newChannel p g db1 Hwf1) as (w & db2 & E2 & ? & ? & ?);
      [by unfold existingGuardianContact; rewrite Hc1|done| | |done|].
    + intros (ch' & E & Hin)%list_elem_of_fmap. destruct (Hold _ Hin) as (ch & Hch & _ & Eid & _).
      apply Hfresh. rewrite E, Eid. by apply list_elem_of_fmap_2.
    + intros ch' Hin Hk Hs. destruct (Hold _ Hin) as (ch & Hch & El & _ & _ & [->|[Er _]]);
        [by eapply Hnb|congruence].
    + erewrite bind_inr by exact E2. exists (Some w), db2.
      split; [done|]. split; [done|]. split; [congruence|done].
  - assert (∀ row, ¬ bound_row "phone" db row) as Hnone.
    { intros row [Hin Hg]. unfold getExistingGuardianBinding in Eb.
      destruct (find_first _ _) eqn:Ef; [done|]. by eapply find_none_row. }
    destruct (rebound_ok now newContact newChannel p g db Hwf) as (w & db2 & E2 & ? & ? & ?);
      try done.
    erewrite bind_inr by exact E2. by exists (Some w), db2.
Qed.

(** ** Concrete instances *)

Definition phone_channel (i owner address status : string) : ContactChannel :=
  channel_row 0 i owner "phone" address false None status "allow".

(** A guardian of principal [p], with a phone. *)
Definition phone_db (status : string) : GatewayDb :=
  {| acl := {| acl_contacts :=
                 [{| contact_id := "g"; displayName := "g"; contact_role := "guardian";
                     principalId := Some "p"; autoApproveThreshold := None;
                     contact_createdAt := 0; contact_updatedAt := 0 |}];
               acl_channels := [channel_row 0 "v" "g" "vellum" "p" true None "active" "allow";
                                phone_channel "c1" "g" "+1" status] |};
     invites := [] |}.

(** The revocation of a guardian that verifies again comes before a question to the
    assistant: when that fails the guardian has lost the channel, and the next code is
    refused because the row is revoked. *)
Definition silent_assistant : VerifyEnv :=
  {| ve_newContact := "n"; ve_newChannel := "k"; ve_name := None; ve_naming := λ db, db;
     ve_lookup := None; ve_mirrors := true; ve_answer := mirror_unreachable;
     ve_asking := λ db, db; ve_mirroring := λ db, db; ve_probing := λ db, db |}.

Definition sample_actor (channel user : string) : TextActor :=
  {| ta_sourceChannel := channel; ta_canonicalUserId := user; ta_actorChatId := user;
     ta_actorDisplayName := None; ta_actorUsername := None |}.

Lemma guardian_lost_when_lookup_fails :
  getExistingGuardianBinding "telegram" sample_db = Some "7"
  ∧ ∃ db', applyGuardianSideEffects 5 silent_assistant (sample_actor "telegram" "7") sample_db
           = (inr None, db')
    ∧ getExistingGuardianBinding "telegram" db' = None
    ∧ ∀ env, applyGuardianSideEffects 6 env (sample_actor "telegram" "7") db'
             = (inr (Some false), db').
Proof. split; [reflexivity|]. eexists. split_and!; [reflexivity..|]. by intros []. Qed.

(** A guardian bound at a new address takes over the contact's row of that type, a
    blocked one too: the block of the old address is gone. *)
Lemma binding_overwrites_blocked_row :
  gatewayChannelStatus "phone" "+1" (phone_db "blocked") = Some "blocked"
  ∧ match applyGuardianBindingGatewayWrites 9 "n" "k" (phone_binding "+2" "+2" "p")
            (phone_db "blocked") with
    | (inr w, db') =>
        w.(bw_channelId) = "c1" ∧ gatewayChannelStatus "phone" "+1" db' = None
        ∧ gatewayChannelStatus "phone" "+2" db' = Some "active"
    | _ => False
    end.
Proof. split; [reflexivity|]. vm_compute. split_and!; reflexivity. Qed.
