(* ===== verification/ContactHistories.v ===== *)
(** Histories of contact writes: what the operations of [ContactStore], [ContactWrites] and
    [GuardianBinding] keep, in whatever order they run. Some of them are the guardian's own
    decisions and may lift a block; the others may not. *)
From S2P Require Import Prelude JsString VerificationSessions VerificationFlow SenderTrust.
From S2P Require Import ContactStore ContactWrites ContactSafety GuardianBinding.

(** ** What a history promises *)

(** That every channel stays; that blocked ones stay blocked too; that active ones also keep
    their binding. *)
Inductive Promise := rows_stay | blocks_hold | bindings_hold.

Definition channel_rel (k : Promise) : ContactChannel → ContactChannel → Prop :=
  match k with
  | rows_stay => λ _ _, True
  | blocks_hold => channel_le false
  | bindings_hold => channel_le true
  end.

#[export] Instance channel_rel_preorder k : PreOrder (channel_rel k).
Proof. destruct k; simpl; [by split|apply _..]. Qed.

#[local] Arguments channel_rel : simpl never.

Lemma channel_le_true strict ch ch' : channel_le true ch ch' → channel_le strict ch ch'.
Proof. intros [H1 H2]. split; [done|]. intros _. by apply H2. Qed.

Lemma channel_rel_strongest k ch ch' : channel_le true ch ch' → channel_rel k ch ch'.
Proof. destruct k; simpl; [done|apply channel_le_true|done]. Qed.

Lemma channel_rel_blocks k ch ch' : k ≠ bindings_hold → channel_le false ch ch' → channel_rel k ch ch'.
Proof. by destruct k. Qed.

Lemma rows_kept_weaken (R R' : ContactChannel → ContactChannel → Prop) db db' :
  (∀ ch ch', R ch ch' → R' ch ch') → rows_kept R db db' → rows_kept R' db db'.
Proof.
  intros HR H ch Hin. destruct (H ch Hin) as (c & ? & ? & ?). exists c. split_and!; auto.
Qed.

(** What other calls may write while one waits. *)
Definition harmless (k : Promise) (f : GatewayDb → GatewayDb) : Prop :=
  ∀ db, (db_wf db → db_wf (f db) ∧ rows_kept (channel_rel k) db (f db))
        ∧ ∀ inv, inv ∈ (f db).(invites) → inv ∈ db.(invites).

(** One write. A verification, a seeding, a merge and a collection keep every promise; a
    revocation and the console's upsert may end a binding; the update of a status, the
    attestation of a channel and the binding of a guardian are decisions that may lift a
    block. The binding is the transaction of [createGuardianBinding], which a collection
    follows. *)
Inductive contact_write (k : Promise) (db : GatewayDb) : GatewayDb → Prop :=
  | cw_verify now newContact newChannel p existing :
      mirror_agrees db p.(vp_sourceChannel) (vp_address p) existing →
      (existing = None → ∀ ch, ch ∈ channels db → ch.(channel_id) ≠ newChannel) →
      (k = bindings_hold → is_Some (knownStrengthRank (Some (vp_via p)))) →
      contact_write k db
        (applyVerifiedChannelGatewayWrites now newContact newChannel p existing db).2
  | cw_seed now newContact newChannel channel sender chat name username :
      contact_write k db
        (upsertContactChannel now newContact newChannel channel sender chat name username db).2
  | cw_seen now i : contact_write k db (touchChannelLastSeen now i db).2
  | cw_interaction now i : contact_write k db (touchContactInteraction now i db).2
  | cw_collect answer i : contact_write k db (deleteContactIfOrphaned answer (λ d, d) i db).2
  | cw_merge now keepId mergeId : contact_write k db (mergeContacts now keepId mergeId db).2
  | cw_revoke now i reason :
      k ≠ bindings_hold → contact_write k db (markChannelRevokedById now i reason db).2
  | cw_upsert now newContact fresh p :
      k ≠ bindings_hold →
      contact_write k db (upsertContactGatewayWrites now newContact fresh p db).2
  | cw_status now lookup asking meanwhile i status policy reason :
      k = rows_stay → harmless k asking → harmless k meanwhile →
      contact_write k db (updateChannelStatus now lookup asking meanwhile i status policy reason db).2
  | cw_attest now lookup asking meanwhile i via :
      k = rows_stay → harmless k asking → harmless k meanwhile →
      contact_write k db (markChannelVerified now lookup asking meanwhile i via db).2
  | cw_unbind now type :
      k = rows_stay → contact_write k db (revokeExistingChannelGuardian now type db).2
  | cw_bind now newContact newChannel p :
      k = rows_stay → newChannel ∉ channel_id <$> channels db →
      contact_write k db
        (transaction (applyGuardianBindingGatewayWrites now newContact newChannel p) db).2.

(** ** Decisions *)

Lemma keeps_harmless k f : harmless k f → keeps (channel_rel k) (interfere f).
Proof. intros Hf db Hwf. by apply Hf. Qed.

Lemma keeps_resolve k lookup asking i :
  harmless k asking → keeps (channel_rel k) (resolveGatewayChannel lookup asking i).
Proof.
  intros Ha. unfold resolveGatewayChannel. apply keeps_bind; [apply _|apply keeps_gets, _|].
  intros [ch|]; [apply keeps_ret, _|]. apply keeps_bind; [apply _|by apply keeps_harmless|].
  intros _. destruct (lookup i) as [[]|]; [apply keeps_gets, _|apply keeps_ret, _].
Qed.

(** Columns outside the key and the owner, with no promise about them. *)
Lemma keeps_rows p sets :
  (∀ ch, logical_key (apply_sets sets ch) = logical_key ch
         ∧ (apply_sets sets ch).(channel_id) = ch.(channel_id)
         ∧ (apply_sets sets ch).(channel_contactId) = ch.(channel_contactId)) →
  keeps (channel_rel rows_stay) (update_channels p sets).
Proof.
  intros H db Hwf. apply update_kept; [apply _|done|]. intros ch Hc _. destruct (H ch) as (E1 & E2 & E3).
  rewrite E3. split_and!; try done. by apply wf_owners.
Qed.

Lemma keeps_status now lookup asking meanwhile i status policy reason :
  harmless rows_stay asking → harmless rows_stay meanwhile →
  keeps (channel_rel rows_stay)
    (updateChannelStatus now lookup asking meanwhile i status policy reason).
Proof.
  intros Ha Hm. unfold updateChannelStatus. apply keeps_bind; [apply _|by apply keeps_resolve|].
  intros found. apply keeps_bind; [apply _|by apply keeps_harmless|]. intros _.
  apply keeps_unless_none; [apply _|]. intros ch _. case_match; [apply keeps_throw, _|].
  apply keeps_bind; [apply _| |intros _; apply keeps_gets, _].
  apply keeps_rows. intros c. destruct status as [s|], policy as [p|]; simpl; unfold status_sets;
    repeat case_match; by split_and!.
Qed.

Lemma keeps_attest now lookup asking meanwhile i via :
  harmless rows_stay asking → harmless rows_stay meanwhile →
  keeps (channel_rel rows_stay) (markChannelVerified now lookup asking meanwhile i via).
Proof.
  intros Ha Hm. unfold markChannelVerified. apply keeps_bind; [apply _|by apply keeps_resolve|].
  intros found. apply keeps_bind; [apply _|by apply keeps_harmless|]. intros _.
  apply keeps_unless_none; [apply _|]. intros ch _. case_match; [apply keeps_ret, _|].
  apply keeps_bind; [apply _|by apply keeps_rows|]. intros written.
  apply keeps_bind; [apply _|apply keeps_gets, _|]. intros [c|]; apply keeps_ret, _.
Qed.

Lemma keeps_unbind now type : keeps (channel_rel rows_stay) (revokeExistingChannelGuardian now type).
Proof.
  unfold revokeExistingChannelGuardian. apply keeps_bind; [apply _|apply keeps_gets, _|].
  intros rows. induction ((λ row : Contact * ContactChannel, channel_id row.2) <$> rows) as [|i ids IH];
    simpl; [apply keeps_ret, _|].
  apply keeps_bind; [apply _|by apply keeps_rows|done].
Qed.

(** ** Bindings *)

(** No channel disappears, whatever else holds. *)
Definition keeps_ids {A} (m : Store A) : Prop :=
  ∀ db, channel_id <$> channels db ⊆ channel_id <$> channels (m db).2.

Lemma ids_same {A} (m : Store A) : (∀ db, channels (m db).2 = channels db) → keeps_ids m.
Proof. intros H db. by rewrite H. Qed.

Lemma ids_bind {A B} (m : Store A) (k : A → Store B) :
  keeps_ids m → (∀ a, keeps_ids (k a)) → keeps_ids (m ≫= k).
Proof.
  intros Hm Hk db. specialize (Hm db). unfold mbind, Store_bind.
  destruct (m db) as [[e|a] db1]; [done|]. specialize (Hk a db1). by etrans.
Qed.

Lemma ids_commit {A} (a : A) f :
  (∀ db, channel_id <$> channels db ⊆ channel_id <$> channels (f db)) →
  keeps_ids (λ db, commit a (f db) db).
Proof. intros H db. unfold commit. by case_match. Qed.

Lemma apply_sets_id sets ch : (apply_sets sets ch).(channel_id) = ch.(channel_id).
Proof.
  unfold apply_sets. revert ch. induction sets as [|s sets IH]; intros ch; simpl; [done|].
  rewrite IH. by destruct s.
Qed.

Lemma ids_update p sets : keeps_ids (update_channels p sets).
Proof.
  intros db. unfold update_channels, commit. case_match; [|done]. simpl. cbn.
  rewrite <- list_fmap_compose.
  assert ((channel_id ∘ (λ ch, if p ch then apply_sets sets ch else ch)) <$> channels db
          = channel_id <$> channels db) as ->; [|done].
  apply list_fmap_ext. intros i ch _. simpl. by destruct (p ch); rewrite ?apply_sets_id.
Qed.

Lemma ids_insert ch : keeps_ids (insert_channel ch).
Proof.
  intros db. unfold insert_channel, commit. case_match; [|done]. cbn. rewrite fmap_app. set_solver.
Qed.

Lemma ids_upsert_guardian now g name principal : keeps_ids (upsert_guardian now g name principal).
Proof.
  apply ids_bind; [by apply ids_same|]. intros [];
    apply ids_same; intros db; unfold update_contacts, insert_contact, commit; by case_match.
Qed.

Lemma ids_binding now newContact newChannel p :
  keeps_ids (applyGuardianBindingGatewayWrites now newContact newChannel p).
Proof.
  unfold applyGuardianBindingGatewayWrites, upsert_binding_channel.
  repeat (first [apply ids_update|apply ids_insert|apply ids_upsert_guardian
                |apply ids_bind; [|intros ?]|by apply ids_same|case_match]).
Qed.

(** The contact of a binding, new or known. *)
Lemma upsert_guardian_has now g name principal db db1 :
  db_wf db → upsert_guardian now g name principal db = (inr (), db1) →
  db_wf db1 ∧ channels db1 = channels db ∧ has_contact db1 g = true.
Proof.
  intros Hwf E. destruct (has_contact db g) eqn:Hg.
  - destruct (upsert_guardian_ok now g name principal db Hwf Hg) as (db' & E' & W & Hc & _ & Hh & _).
    rewrite E in E'. by injection E' as <-.
  - unfold upsert_guardian in E. erewrite bind_inr in E by done. rewrite Hg in E.
    pose proof (keeps_insert_contact (channel_rel rows_stay) _ db Hwf : db_wf (insert_contact
      {| contact_id := g; displayName := name; contact_role := "guardian"; principalId := Some principal;
         autoApproveThreshold := None; contact_createdAt := now; contact_updatedAt := now |} db).2 ∧ _) as [W _].
    rewrite E in W. split; [done|]. unfold insert_contact, commit in E. case_match; [|done].
    injection E as <-. split; [done|]. apply has_contact_elem. cbn. rewrite fmap_app. set_solver.
Qed.

(** The row a binding would take has the type of the channel. *)
Lemma binding_row_type p guardian contactId newChannel db ch :
  db_wf db → newChannel ∉ channel_id <$> channels db → ch ∈ channels db →
  ch.(channel_id)
    = match claimableChannel p guardian db,
            match claimableChannel p guardian db, guardian with
            | None, Some _ => find_first (λ ch, owned_by contactId ch
                                           && String.eqb ch.(channel_type) p.(bp_channel)) (channels db)
            | _, _ => None
            end with
      | Some ch, _ => ch.(channel_id)
      | None, Some ch => ch.(channel_id)
      | None, None => newChannel
      end →
  ch.(channel_type) = p.(bp_channel).
Proof.
  intros Hwf Hfresh Hin. destruct (claimableChannel p guardian db) as [cl|] eqn:Ecl.
  - intros Hi. apply claimed_elem in Ecl as [Hcin [Hk _]%andb_true_iff].
    pose proof (channel_by_id db ch cl Hwf Hin Hcin Hi) as ->. by apply by_key_true in Hk as [= -> _].
  - intros Hi. destruct guardian as [g|]; [destruct (find_first _ (channels db)) as [x|] eqn:Ef|].
    + apply find_first_Some in Ef as [Hx [_ Ht%String.eqb_eq]%andb_true_iff].
      by pose proof (channel_by_id db ch x Hwf Hin Hx Hi) as ->.
    + exfalso. apply Hfresh. rewrite <- Hi. by apply list_elem_of_fmap_2.
    + exfalso. apply Hfresh. rewrite <- Hi. by apply list_elem_of_fmap_2.
Qed.

Lemma keeps_binding now newContact newChannel p db :
  db_wf db → newChannel ∉ channel_id <$> channels db →
  let db' := (transaction (applyGuardianBindingGatewayWrites now newContact newChannel p) db).2 in
  db_wf db' ∧ rows_kept (channel_rel rows_stay) db db'.
Proof.
  intros Hwf Hfresh db'. subst db'. unfold transaction.
  pose proof (ids_binding now newContact newChannel p db) as Hids.
  destruct (applyGuardianBindingGatewayWrites now newContact newChannel p db) as [[e|w] db2] eqn:E;
    [by split|]. simpl in *. split.
  - unfold applyGuardianBindingGatewayWrites in E. do 3 erewrite bind_inr in E by done.
    set (contactId := match existingGuardianContact p db with Some g => g | None => _ end) in E.
    unfold mbind at 1, Store_bind in E.
    destruct (upsert_guardian _ _ _ _ db) as [[e|[]] db1] eqn:E1; [done|].
    apply upsert_guardian_has in E1 as (W1 & Hc1 & Hh1); [|done].
    unfold select_channel in E. erewrite bind_inr in E by done.
    destruct (match find_first (by_key p.(bp_channel) p.(bp_externalUserId)) (channels db1) with
              | Some ch => protected_from_reactivation p ch | None => false end) eqn:Hp.
    { destruct (find_first _ (channels db1)) as [ch|]; [|done]. rewrite Hp in E. by injection E as _ <-. }
    edestruct (binding_channel_ok now p) as (db3 & E3 & W3 & _); [exact W1|exact Hh1| | |].
    { intros ch Ef. by rewrite Ef in Hp. }
    2: { erewrite bind_inr in E by exact E3. by injection E as _ <-. }
    rewrite Hc1. intros ch Hin Hi. eapply binding_row_type; [exact Hwf|exact Hfresh|exact Hin|exact Hi].
  - intros ch Hin. apply (list_elem_of_fmap_2 channel_id), Hids in Hin.
    apply list_elem_of_fmap in Hin as (c & E' & Hc). by exists c.
Qed.

(** ** Histories *)

(** The promises that are not the guardian's to break are those of [channel_le]. *)
Definition counts_bindings (k : Promise) : bool := match k with bindings_hold => true | _ => false end.

Lemma promised k db db' :
  db_wf db' ∧ rows_kept (channel_le (counts_bindings k)) db db' →
  db_wf db' ∧ rows_kept (channel_rel k) db db'.
Proof.
  intros [W R]. split; [done|]. eapply rows_kept_weaken; [|exact R]. by destruct k.
Qed.

Lemma contact_write_kept k db db' :
  db_wf db → contact_write k db db' → db_wf db' ∧ rows_kept (channel_rel k) db db'.
Proof.
  intros Hwf Hstep. destruct Hstep; try subst k.
  - apply promised, keeps_verify; [done..|]. intros Hs. apply H1. by destruct k.
  - by apply promised, keeps_seed.
  - by apply promised, keeps_touch_seen.
  - by apply promised, keeps_touch_interaction.
  - destruct (orphan_collection_safe answer (λ d, d) i db Hwf) as (seen & Hseen & W & Hc & _); [done|].
    split; [done|]. apply rows_kept_same; [apply _|]. by destruct Hseen as [-> | ->].
  - destruct (keeps_merge now keepId mergeId db Hwf) as [W R]. split; [done|].
    eapply rows_kept_weaken; [|exact R]. intros. by apply channel_rel_strongest.
  - apply promised. assert (counts_bindings k = false) as -> by by destruct k. by apply keeps_revoke.
  - apply promised. assert (counts_bindings k = false) as -> by by destruct k. by apply keeps_upsert.
  - by apply keeps_status.
  - by apply keeps_attest.
  - by apply keeps_unbind.
  - by apply keeps_binding.
Qed.

(** C21: Whatever sequence of contact writes the gateway runs, the guardian's decisions
    included, the tables stay well formed and no channel disappears, provided new rows
    get new identifiers and the row the mirror names for a verified address is the
    gateway's row of that address. While no status is
    set by hand, no channel attested and no guardian bound or unbound, a blocked channel
    stays blocked, with its policy and reason and under its address. While besides no
    channel is revoked or edited from the console and every verification says how, an
    active channel also stays active, with a provenance that never ranks lower. *)
Theorem contact_writes_safe k db db' :
  db_wf db → rtc (contact_write k) db db' → db_wf db' ∧ rows_kept (channel_rel k) db db'.
Proof.
  intros Hwf Hs. induction Hs as [db|db db1 db2 Hstep Hs IH]; [by split|].
  destruct (contact_write_kept k db db1 Hwf Hstep) as [W1 R1].
  destruct (IH W1) as [W2 R2]. split; [done|]. by etrans.
Qed.

(** ** Concrete instances *)

Lemma harmless_id k : harmless k (λ db, db).
Proof. intros db. by split. Qed.

(** A verification, then the guardian lifts a block. *)
Lemma contact_writes_safe_witness :
  ∃ db1 db2, rtc (contact_write bindings_hold) sample_db db1
  ∧ (channel_verifiedVia <$> getGatewayChannelByKey "telegram" "42" db1) = Some (Some "challenge")
  ∧ rows_kept (channel_le true) sample_db db1
  ∧ (channel_status <$> getGatewayChannelByKey "telegram" "66" db2) = Some "active"
  ∧ db_wf db2 ∧ rows_kept (λ _ _, True) sample_db db2.
Proof.
  set (db1 := (applyVerifiedChannelGatewayWrites 5 "n" "k"
                 (sample_verify "42" (Some "manual") None) (Some ("c2", "a")) sample_db).2).
  set (db2 := (markChannelVerified 6 (λ _, None) (λ d, d) (λ d, d) "c3" "manual" sample_db).2).
  assert (rtc (contact_write bindings_hold) sample_db db1) as Hs.
  { apply rtc_once. constructor; [by apply mirror_agrees_check|done|by eexists]. }
  assert (rtc (contact_write rows_stay) sample_db db2) as Hs2.
  { apply rtc_once. by apply cw_attest; [|apply harmless_id..]. }
  exists db1, db2. split; [exact Hs|]. split; [vm_compute; reflexivity|].
  split; [apply (contact_writes_safe bindings_hold sample_db db1 sample_db_wf Hs)|].
  split; [vm_compute; reflexivity|].
  apply (contact_writes_safe rows_stay sample_db db2 sample_db_wf Hs2).
Defined.
