(* ===== verification/InviteRedemption.v ===== *)
(** Redemption of invites ([gateway/src/verification/invite-redemption.ts],
    [invite-liveness.ts], [packages/gateway-client/src/invite-contract.ts]): a sender
    who presents the code, the link token or the spoken code of an invite consumes
    one of its uses and becomes an active channel of the invite's contact.

    [hash] is SHA-256 in hexadecimal. What the assistant's mirror answers, what other
    requests write while it is asked, and the fresh identifiers are one record. The
    event that mirrors a redemption and the delivery of the reply are not modelled. *)
From S2P Require Import Prelude JsString VerificationSessions VerificationFlow SenderTrust.
From S2P Require Import ContactStore ContactWrites ContactSafety GuardianBinding ContactHistories.

Section Redemption.
Context (hash : string → string) (now : Z).

(** ** Liveness *)

Inductive InviteLiveness := live | not_live (status : string).

Definition ensureInviteLive (inv : Invite) : Store InviteLiveness :=
  if negb (invite_active inv) then mret (not_live inv.(inv_status))
  else if (inv.(inv_expiresAt) <=? now)%Z then
    _ ← markInviteExpired now inv.(inv_id); mret (not_live "expired")
  else mret live.

(** ** Results *)

Record RedeemIdentity := {
  ri_sourceChannel : string;
  ri_externalUserId : option string;
  ri_externalChatId : option string;
  ri_displayName : option string;
  ri_username : option string
}.

Record InviteOutcome := {
  io_inviteId : string;
  io_contactId : string;
  io_memberExternalUserId : string;
  io_memberExternalChatId : option string;
  io_displayName : option string;
  io_username : option string;
  io_sourceConversationId : option string
}.

Inductive EngineResult :=
  | redeemed (o : InviteOutcome)
  | already_member (o : InviteOutcome)
  | failed (reason : string)
  | no_match.

Definition INVITE_REPLY (r : EngineResult) : string :=
  match r with
  | redeemed _ => "Welcome! You've been granted access."
  | already_member _ => "You already have access."
  | failed "channel_mismatch" => "This invite is not valid for this channel."
  | failed "missing_identity" =>
      "Unable to process this invite. Please contact the person who shared it."
  | _ => "This invite is no longer valid."
  end.

Definition reasonForStatus (status : string) : string :=
  if String.eqb status "expired" then "expired"
  else if String.eqb status "revoked" then "revoked"
  else if String.eqb status "redeemed" then "max_uses_reached"
  else "invalid_token".

(** [a?.trim() || b?.trim() || ... || null] *)
Definition first_name (names : list (option string)) : option string :=
  first_some (λ n, nonblank (trim <$> n)) names.

Definition resolveInviteeName (inv : Invite) (fallback : option string) (db : GatewayDb)
    : option string :=
  first_name [displayName <$> getContact inv.(inv_contactId) db; inv.(inv_friendName); fallback].

(** What surrounds the write of the verified channel. *)
Record MirrorEnv := {
  me_newContact : string;
  me_newChannel : string;
  me_lookup : option (option (string * string));
  me_mirrors : bool;
  me_answer : MirrorAnswer;
  me_asking : GatewayDb → GatewayDb;
  me_mirroring : GatewayDb → GatewayDb;
  me_probing : GatewayDb → GatewayDb
}.

(** ** The engine *)

Definition canonical_member (r : RedeemIdentity) : option string :=
  match nonblank r.(ri_externalUserId) with
  | Some u => Some (canonical_address r.(ri_sourceChannel) u)
  | None => None
  end.

Definition existing_member (r : RedeemIdentity) (inv : Invite) (db : GatewayDb)
    : option ContactChannel :=
  match canonical_member r, nonblank r.(ri_externalChatId) with
  | Some u, _ => getGatewayChannelByKey r.(ri_sourceChannel) u db
  | None, Some chat =>
      getGatewayChannelByExternalChatId r.(ri_sourceChannel) chat (Some inv.(inv_contactId)) db
  | None, None => None
  end.

Definition redeem_verify (r : RedeemIdentity) (inv : Invite) (name : option string)
    : VerifyParams :=
  let address := default (default "" r.(ri_externalChatId)) r.(ri_externalUserId) in
  {| vp_sourceChannel := r.(ri_sourceChannel); vp_externalUserId := address;
     vp_externalChatId := default address r.(ri_externalChatId); vp_displayName := name;
     vp_username := r.(ri_username); vp_verifiedVia := Some "invite";
     vp_contactId := Some inv.(inv_contactId); vp_allowRevokedReactivation := true |}.

Definition redeem_outcome (r : RedeemIdentity) (inv : Invite) (contactId member : string)
    (name username conversation : option string) : InviteOutcome :=
  {| io_inviteId := inv.(inv_id); io_contactId := contactId; io_memberExternalUserId := member;
     io_memberExternalChatId := nonblank r.(ri_externalChatId); io_displayName := name;
     io_username := username; io_sourceConversationId := conversation |}.

(** The part of the redemption before it first waits: the checks and the claim. A
    result, or the name the new member goes under. *)
Definition claimRedemption (inv : Invite) (r : RedeemIdentity)
    : Store (EngineResult + option string) :=
  l ← ensureInviteLive inv;
  match l with
  | not_live status => mret (inl (failed (reasonForStatus status)))
  | live =>
      if (inv.(inv_maxUses) <=? inv.(inv_useCount))%Z
      then mret (inl (failed "max_uses_reached"))
      else if negb (String.eqb inv.(inv_sourceChannel) r.(ri_sourceChannel))
      then mret (inl (failed "channel_mismatch"))
      else
        existing ← gets (existing_member r inv);
        let mine := match existing with
                    | Some ch => String.eqb ch.(channel_contactId) inv.(inv_contactId)
                    | None => false
                    end in
        let status := channel_status <$> existing in
        if bool_decide (status = Some "active") && mine then
          let address := default "" (channel_address <$> existing) in
          mret (inl (already_member (redeem_outcome r inv inv.(inv_contactId)
                       (default address (canonical_member r)) None None None)))
        else if bool_decide (status = Some "blocked") then mret (inl (failed "invalid_token"))
        else
          claimed ← recordInviteRedemption now inv.(inv_id) r.(ri_externalUserId)
                      r.(ri_externalChatId);
          if negb claimed then mret (inl (failed "invalid_token"))
          else name ← gets (resolveInviteeName inv r.(ri_displayName)); mret (inr name)
  end.

Definition finishRedemption (env : MirrorEnv) (inv : Invite) (r : RedeemIdentity)
    : Store EngineResult :=
  claimed ← claimRedemption inv r;
  match claimed with
  | inl result => mret result
  | inr name =>
      let p := redeem_verify r inv name in
      verified ← upsertVerifiedContactChannel now env.(me_newContact) env.(me_newChannel) p
        true env.(me_lookup) env.(me_mirrors) env.(me_asking) env.(me_mirroring)
        env.(me_answer) env.(me_probing);
      if bool_decide (verified = Some true) then
        mret (redeemed (redeem_outcome r inv inv.(inv_contactId)
                (default p.(vp_externalUserId) (canonical_member r)) (nonblank name)
                (nonblank r.(ri_username)) (nonblank inv.(inv_sourceConversationId))))
      else mret (failed "invalid_token")
  end.

Definition no_identity (r : RedeemIdentity) : bool :=
  negb (truthy (default "" r.(ri_externalUserId)))
  && negb (truthy (default "" r.(ri_externalChatId))).

Definition redeemInviteByCode (env : MirrorEnv) (code : string) (r : RedeemIdentity)
    : Store EngineResult :=
  if no_identity r then mret (failed "missing_identity")
  else
    found ← gets (findInviteByCodeHash (hash code) r.(ri_sourceChannel));
    match found with
    | Some inv => finishRedemption env inv r
    | None =>
        elsewhere ← gets (findInviteByCodeHashAnyChannel now (hash code));
        mret (match elsewhere with Some _ => failed "channel_mismatch" | None => no_match end)
    end.

Definition redeemInviteByToken (env : MirrorEnv) (token : string) (r : RedeemIdentity)
    : Store EngineResult :=
  if no_identity r then mret (failed "missing_identity")
  else
    found ← gets (findInviteByTokenHash (hash token));
    match found with
    | Some inv => finishRedemption env inv r
    | None => mret (failed "invalid_token")
    end.

(** ** Voice *)

Fixpoint sweepExpiredVoiceInvites (candidates : list Invite) : Store () :=
  match candidates with
  | [] => mret ()
  | c :: cs => _ ← ensureInviteLive c; sweepExpiredVoiceInvites cs
  end.

Definition DEFAULT_VOICE_CODE_DIGITS : Z := 6.

Record ActiveVoiceInvite := {
  av_inviteId : string;
  av_inviteeName : option string;
  av_guardianName : option string;
  av_codeDigits : Z
}.

Definition getActiveVoiceInviteForCaller (caller : string) : Store (option ActiveVoiceInvite) :=
  candidates ← gets (findActiveVoiceInvites caller);
  _ ← sweepExpiredVoiceInvites candidates;
  match find_first (λ c, (now <? c.(inv_expiresAt))%Z) candidates with
  | None => mret None
  | Some inv =>
      name ← gets (resolveInviteeName inv None);
      mret (Some {| av_inviteId := inv.(inv_id); av_inviteeName := name;
                    av_guardianName := nonblank (trim <$> inv.(inv_guardianName));
                    av_codeDigits := default DEFAULT_VOICE_CODE_DIGITS inv.(inv_voiceCodeDigits) |})
  end.

Definition voice_candidate (code : string) (c : Invite) : bool :=
  bool_decide (c.(inv_voiceCodeHash) = Some (hash code)) && (now <? c.(inv_expiresAt))%Z
  && (c.(inv_useCount) <? c.(inv_maxUses))%Z.

(** Every failure is the same one. *)
Definition redeemVoiceInvite (env : MirrorEnv) (caller code : string) : Store EngineResult :=
  if negb (truthy caller) then mret (failed "invalid_or_expired")
  else
    candidates ← gets (findActiveVoiceInvites caller);
    match find_first (voice_candidate code) candidates with
    | None => _ ← sweepExpiredVoiceInvites candidates; mret (failed "invalid_or_expired")
    | Some inv =>
        result ← finishRedemption env inv
          {| ri_sourceChannel := "phone"; ri_externalUserId := Some caller;
             ri_externalChatId := Some caller; ri_displayName := None; ri_username := None |};
        mret (match result with
              | redeemed o => redeemed o
              | already_member o => already_member o
              | _ => failed "invalid_or_expired"
              end)
    end.

(** ** The intercept of inbound text *)

Definition INVITE_CODE_REDEMPTION_CHANNELS : list string :=
  ["telegram"; "whatsapp"; "slack"; "email"; "discord"].
Definition isInviteCodeRedemptionEnabled (channelType : string) : bool :=
  mem channelType INVITE_CODE_REDEMPTION_CHANNELS.

Definition INVITE_TOKEN_PREFIX : string := "iv_".

Record CommandIntent := { ci_kind : string; ci_payload : option string }.

(** [\S+] *)
Fixpoint nonspace_run (s : string) : string :=
  match s with
  | String c rest => if is_space c then EmptyString else String c (nonspace_run rest)
  | EmptyString => EmptyString
  end.

(** [/^\/start\s+iv_(\S+)/] *)
Definition start_token (content : string) : option string :=
  if starts_with content "/start" then
    let rest := slice_from 6 content in
    let body := trim_start rest in
    if (String.length body <? String.length rest)%nat && starts_with body INVITE_TOKEN_PREFIX
    then nonblank (Some (nonspace_run (slice_from 3 body)))
    else None
  else None.

Definition extractInviteToken (intent : option CommandIntent) (content : string)
    : option string :=
  match intent with
  | Some i =>
      if String.eqb i.(ci_kind) "start" then
        match i.(ci_payload) with
        | Some payload =>
            if starts_with payload INVITE_TOKEN_PREFIX
            then let token := slice_from 3 payload in
                 if truthy (trim token) then Some token else None
            else None
        | None => None
        end
      else start_token content
  | None => start_token content
  end.

Record InterceptParams := {
  ic_sourceChannel : string;
  ic_messageContent : string;
  ic_commandIntent : option CommandIntent;
  ic_actorExternalUserId : option string;
  ic_actorChatId : string;
  ic_actorDisplayName : option string;
  ic_actorUsername : option string;
  ic_replyCallbackUrl : option string;
  ic_trustVerdict : option TrustVerdict
}.

Record InviteIntercepted := { ii_result : EngineResult; ii_pendingReplyText : option string }.

Definition intercept_secret (p : InterceptParams) : option (bool * string) :=
  let trimmed := trim (if String.eqb p.(ic_sourceChannel) "email"
                       then extractEmailReplyBody p.(ic_messageContent)
                       else p.(ic_messageContent)) in
  match nonblank (extractInviteToken p.(ic_commandIntent) trimmed) with
  | Some token => Some (true, token)
  | None =>
      if all_chars is_digit trimmed && (String.length trimmed =? 6)%nat
      then Some (false, trimmed) else None
  end.

Definition non_member (v : option TrustVerdict) : bool :=
  match v with
  | Some v => negb v.(tv_resolutionFailed)
              && mem v.(tv_trustClass) ["unknown"; "unverified_contact"]
  | None => false
  end.

Definition intercept_identity (p : InterceptParams) : RedeemIdentity :=
  {| ri_sourceChannel := p.(ic_sourceChannel); ri_externalUserId := p.(ic_actorExternalUserId);
     ri_externalChatId := Some p.(ic_actorChatId); ri_displayName := p.(ic_actorDisplayName);
     ri_username := p.(ic_actorUsername) |}.

(** [None]: the message goes on as a normal one. An engine that throws is let
    through as well. *)
Definition tryInviteRedemptionIntercept (env : MirrorEnv) (p : InterceptParams)
    : Store (option InviteIntercepted) :=
  if negb (isInviteCodeRedemptionEnabled p.(ic_sourceChannel)) then mret None
  else
    match intercept_secret p with
    | None => mret None
    | Some (is_token, secret) =>
        if negb (non_member p.(ic_trustVerdict)) then mret None
        else
          result ← catching
            (if is_token then redeemInviteByToken env secret (intercept_identity p)
             else redeemInviteByCode env secret (intercept_identity p))
            (λ _, mret no_match);
          match result with
          | no_match => mret None
          | _ => mret (Some {| ii_result := result;
                               ii_pendingReplyText :=
                                 if truthy (default "" p.(ic_replyCallbackUrl)) then None
                                 else Some (INVITE_REPLY result) |})
          end
    end.
End Redemption.

(** ** Uses *)

(** What a claim needs. *)
Definition claimable (now : Z) (r : RedeemIdentity) (inv : Invite) (db : GatewayDb) : Prop :=
  inv.(inv_status) = "active" ∧ (now < inv.(inv_expiresAt))%Z
  ∧ (inv.(inv_useCount) < inv.(inv_maxUses))%Z
  ∧ inv.(inv_sourceChannel) = r.(ri_sourceChannel)
  ∧ channel_status <$> existing_member r inv db ≠ Some "blocked".

Definition on_invite (i : string) (f : Invite → Invite) (db : GatewayDb) : GatewayDb :=
  with_invites ((λ inv, if is_invite i inv && invite_active inv then f inv else inv)
                <$> db.(invites)) db.

Lemma claim_spec now r inv db :
  inv ∈ db.(invites) →
  match claimRedemption now inv r db with
  | (inl _, _) => False
  | (inr (inl (redeemed _)), _) => False
  | (inr (inl _), db') =>
      db' = db ∨ db' = on_invite inv.(inv_id) (with_invite_status now "expired") db
  | (inr (inr _), db') =>
      claimable now r inv db
      ∧ db' = on_invite inv.(inv_id)
                (redeemed_row now r.(ri_externalUserId) r.(ri_externalChatId)) db
  end.
Proof.
  intros Hin. unfold claimRedemption, ensureInviteLive, recordInviteRedemption, markInviteExpired,
    update_invites.
  destruct (invite_active inv) eqn:Ha; simpl; [|by left].
  destruct (Z.leb_spec inv.(inv_expiresAt) now); [by right|].
  unfold mbind, Store_bind, mret, Store_ret, gets.
  destruct (Z.leb_spec inv.(inv_maxUses) inv.(inv_useCount)); [by left|].
  destruct (String.eqb_spec inv.(inv_sourceChannel) r.(ri_sourceChannel)); simpl; [|by left].
  destruct (bool_decide _ && _); [by left|].
  destruct (bool_decide (_ = Some "blocked")) eqn:Hb; [by left|].
  destruct (List.filter _ db.(invites)) as [|x l] eqn:Hf; simpl.
  - exfalso. rewrite lfilter_nil in Hf. specialize (Hf _ Hin).
    unfold is_invite in Hf. by rewrite String.eqb_refl, Ha in Hf.
  - apply bool_decide_eq_false in Hb. apply String.eqb_eq in Ha. by split_and!.
Qed.

(** Computations that add no invite and change none. *)
Definition invites_sub {A} (m : Store A) : Prop :=
  ∀ db inv, inv ∈ (m db).2.(invites) → inv ∈ db.(invites).

Lemma sub_bind {A B} (m : Store A) (k : A → Store B) :
  invites_sub m → (∀ a, invites_sub (k a)) → invites_sub (m ≫= k).
Proof.
  intros Hm Hk db inv. unfold mbind, Store_bind. specialize (Hm db inv).
  destruct (m db) as [[e|a] db1]; [done|]. intros H. apply Hm. by apply (Hk a db1).
Qed.

Lemma sub_same {A} (m : Store A) : (∀ db, (m db).2.(invites) = db.(invites)) → invites_sub m.
Proof. intros H db inv. by rewrite H. Qed.

Lemma sub_commit {A} (a : A) (f : GatewayDb → GatewayDb) :
  (∀ db, (f db).(invites) = db.(invites)) → invites_sub (λ db, commit a (f db) db).
Proof. intros H. apply sub_same. intros db. unfold commit. destruct (constraints _); [apply H|done]. Qed.

Lemma sub_transaction {A} (m : Store A) : invites_sub m → invites_sub (transaction m).
Proof.
  intros Hm db inv. unfold transaction. specialize (Hm db inv). by destruct (m db) as [[e|a] db1].
Qed.

Lemma sub_catching {A} (m : Store A) k :
  invites_sub m → (∀ e, invites_sub (k e)) → invites_sub (catching m k).
Proof.
  intros Hm Hk db inv. unfold catching. specialize (Hm db inv).
  destruct (m db) as [[e|a] db1]; [|done]. intros H. apply Hm. by apply (Hk e db1).
Qed.

Lemma sub_update_channels p sets : invites_sub (update_channels p sets).
Proof.
  apply sub_same. intros db. unfold update_channels, commit. by destruct (constraints _).
Qed.
Lemma sub_insert_channel ch : invites_sub (insert_channel ch).
Proof. by apply (sub_commit () (λ db, with_channels (channels db ++ [ch]) db)). Qed.
Lemma sub_insert_channel_or_ignore ch : invites_sub (insert_channel_or_ignore ch).
Proof.
  apply sub_same. intros db. unfold insert_channel_or_ignore, commit.
  destruct (existsb _ _); [done|]. by destruct (constraints _).
Qed.
Lemma sub_insert_contact c : invites_sub (insert_contact c).
Proof. by apply (sub_commit () (λ db, with_contacts (contacts db ++ [c]) db)). Qed.
Lemma sub_ensure now i name : invites_sub (ensureContactRow now i name).
Proof.
  apply sub_same. intros db. unfold ensureContactRow, insert_contact_or_ignore, insert_contact, commit.
  destruct (has_contact _ _); [done|]. by destruct (constraints _).
Qed.
Lemma sub_update_contacts p f : invites_sub (update_contacts p f).
Proof.
  apply sub_same. intros db. unfold update_contacts, commit. by destruct (constraints _).
Qed.
Lemma sub_delete_contacts p : invites_sub (delete_contacts p).
Proof. by intros db inv [H _]%elem_of_lfilter. Qed.
Lemma sub_guarded i : invites_sub (λ db, delete_contacts (orphanPredicates i db) db).
Proof. by intros db inv [H _]%elem_of_lfilter. Qed.
Lemma sub_ret {A} (a : A) : invites_sub (mret a).
Proof. by apply sub_same. Qed.
Lemma sub_throw {A} e : invites_sub (throw (A:=A) e).
Proof. by apply sub_same. Qed.
Lemma sub_gets {A} (f : GatewayDb → A) : invites_sub (gets f).
Proof. by apply sub_same. Qed.
Lemma sub_select p : invites_sub (select_channel p).
Proof. by apply sub_same. Qed.
Lemma sub_interfere_id : invites_sub (interfere (λ d, d)).
Proof. by apply sub_same. Qed.

Create HintDb invites_sub.
#[export] Hint Resolve sub_bind sub_transaction sub_catching sub_update_channels sub_insert_channel
  sub_insert_channel_or_ignore sub_insert_contact sub_ensure sub_update_contacts
  sub_delete_contacts sub_guarded sub_ret sub_throw sub_gets sub_select sub_interfere_id
  : invites_sub.

(** Every branch of a computation, down to its statements. *)
Ltac subs :=
  repeat first
    [ progress auto with invites_sub nocore
    | apply sub_bind; [|intros ?]
    | apply sub_transaction
    | apply sub_catching; [|intros ?]
    | progress cbn [unless_none]
    | case_match ].

Lemma sub_unless_none {A B} (a : option A) (b : B) k :
  (∀ x, invites_sub (k x)) → invites_sub (unless_none a b k).
Proof. intros H. destruct a; simpl; [done|]. apply sub_ret. Qed.

Lemma sub_move now keepId donor : invites_sub (move_channels now keepId donor).
Proof. induction donor as [|ch donor IH]; simpl; subs; done. Qed.

Lemma sub_sync now fresh n contactId chs : invites_sub (syncChannels now fresh n contactId chs).
Proof.
  revert n. induction chs as [|ch chs IH]; intros n; simpl; [subs|].
  apply sub_bind; [|intros _; apply IH]. unfold sync_channel. subs.
Qed.

Lemma sub_harmless k f : harmless k f → invites_sub (interfere f).
Proof. intros Hf db inv. apply Hf. Qed.

Lemma sub_resolve k lookup asking i : harmless k asking → invites_sub (resolveGatewayChannel lookup asking i).
Proof. intros Ha. unfold resolveGatewayChannel. subs. by eapply sub_harmless. Qed.

Lemma contact_write_invites k db db' inv :
  contact_write k db db' → inv ∈ db'.(invites) → inv ∈ db.(invites).
Proof.
  intros H. revert inv. destruct H.
  - assert (invites_sub (applyVerifiedChannelGatewayWrites now newContact newChannel p existing))
      as Hs; [|apply Hs].
    unfold applyVerifiedChannelGatewayWrites, writeVerifiedGatewayChannel, reassignChannelContact,
      reassignChannelOwner. subs. all: apply sub_unless_none; intros; subs.
  - assert (invites_sub (upsertContactChannel now newContact newChannel channel sender chat name
      username)) as Hs; [|apply Hs].
    unfold upsertContactChannel, seedInboundChannel, refreshIdentity. subs.
  - apply sub_update_channels.
  - apply sub_update_channels.
  - assert (invites_sub (deleteContactIfOrphaned answer (λ d, d) i)) as Hs; [|apply Hs].
    unfold deleteContactIfOrphaned. subs.
  - assert (invites_sub (mergeContacts now keepId mergeId)) as Hs; [|apply Hs].
    unfold mergeContacts. subs. apply sub_move.
  - assert (invites_sub (markChannelRevokedById now i reason)) as Hs; [|apply Hs].
    unfold markChannelRevokedById. subs. apply sub_unless_none; intros; subs.
  - assert (invites_sub (upsertContactGatewayWrites now newContact fresh p)) as Hs; [|apply Hs].
    unfold upsertContactGatewayWrites, updateContactName. subs. all: apply sub_sync.
  - assert (invites_sub (updateChannelStatus now lookup asking meanwhile i status policy reason)) as Hs;
      [|apply Hs]. unfold updateChannelStatus. apply sub_bind; [by eapply sub_resolve|intros found].
    apply sub_bind; [by eapply sub_harmless|intros _]. apply sub_unless_none. intros. subs.
  - assert (invites_sub (markChannelVerified now lookup asking meanwhile i via)) as Hs; [|apply Hs].
    unfold markChannelVerified. apply sub_bind; [by eapply sub_resolve|intros found].
    apply sub_bind; [by eapply sub_harmless|intros _]. apply sub_unless_none. intros. subs.
  - assert (invites_sub (revokeExistingChannelGuardian now type)) as Hs; [|apply Hs].
    unfold revokeExistingChannelGuardian. apply sub_bind; [subs|intros rows].
    induction ((λ row : Contact * ContactChannel, channel_id row.2) <$> rows); simpl; subs; done.
  - assert (invites_sub (transaction (applyGuardianBindingGatewayWrites now newContact newChannel p)))
      as Hs; [|apply Hs].
    unfold applyGuardianBindingGatewayWrites, upsert_guardian, upsert_binding_channel. subs.
Qed.

(** ** Every interleaving *)

(** The database and the invites claimed so far, the last one first. The claim of a
    redemption is one step: the code does not wait between reading the invite and
    consuming it. What follows it are contact writes. *)
Definition History : Type := GatewayDb * list string.

Inductive invite_step : History → History → Prop :=
  | is_contact db db' log : contact_write rows_stay db db' → invite_step (db, log) (db', log)
  | is_create now p db log :
      p.(ip_id) ∉ log → (0 <= default 1 p.(ip_maxUses))%Z →
      invite_step (db, log) ((createInvite now p db).2, log)
  | is_revoke now i db log : invite_step (db, log) ((revokeInvite now i db).2, log)
  | is_expire now i db log : invite_step (db, log) ((markInviteExpired now i db).2, log)
  | is_refused now r inv db log result db' :
      inv ∈ db.(invites) → claimRedemption now inv r db = (inr (inl result), db') →
      invite_step (db, log) (db', log)
  | is_claimed now r inv db log name db' :
      inv ∈ db.(invites) → claimRedemption now inv r db = (inr (inr name), db') →
      invite_step (db, log) (db', inv.(inv_id) :: log).

Definition claims (i : string) (log : list string) : Z :=
  Z.of_nat (length (List.filter (String.eqb i) log)).

Lemma claims_cons i j log : claims i (j :: log) = ((if String.eqb i j then 1 else 0) + claims i log)%Z.
Proof. unfold claims. simpl. destruct (String.eqb i j); simpl; lia. Qed.

(** The count of an invite is its claims, and is within its limit. *)
Definition uses_ok (h : History) : Prop :=
  db_wf h.1 ∧ ∀ inv, inv ∈ h.1.(invites) →
    claims inv.(inv_id) h.2 = inv.(inv_useCount) ∧ (inv.(inv_useCount) <= inv.(inv_maxUses))%Z.

(** A row-by-row change that keeps who the invites are and whom they are for. *)
Lemma invites_fmap_wf f db :
  db_wf db → (∀ i, (f i).(inv_id) = i.(inv_id) ∧ (f i).(inv_contactId) = i.(inv_contactId)) →
  db_wf (with_invites (f <$> db.(invites)) db).
Proof.
  intros [W1 W2 W3 W4 W5 W6] Hf. constructor; try done; cbn.
  - rewrite <- list_fmap_compose. erewrite list_fmap_ext; [exact W4|]. intros i x _. apply Hf.
  - intros i (x & -> & Hx)%list_elem_of_fmap. destruct (Hf x) as [_ ->]. by apply W6.
Qed.

Lemma on_invite_wf i f db :
  db_wf db → (∀ x, (f x).(inv_id) = x.(inv_id) ∧ (f x).(inv_contactId) = x.(inv_contactId)) →
  db_wf (on_invite i f db).
Proof.
  intros Hwf Hf. apply invites_fmap_wf; [done|]. intros x. by destruct (_ && _).
Qed.

Lemma status_uses_ok now i status db log :
  uses_ok (db, log) → uses_ok (on_invite i (with_invite_status now status) db, log).
Proof.
  intros [Hwf H]. split; [by apply on_invite_wf|]. cbn.
  intros inv (x & -> & Hx)%list_elem_of_fmap. destruct (H x Hx). by destruct (_ && _).
Qed.

Lemma invite_step_uses h h' : invite_step h h' → uses_ok h → uses_ok h'.
Proof.
  intros Hs Hok. pose proof Hok as [Hwf H]. destruct Hs as
    [db db' log Hw|now p db log Hfresh Hmax|now i db log|now i db log|now r inv db log res db' Hin Hc
    |now r inv db log name db' Hin Hc]; simpl in *.
  - split; [by eapply (contact_write_kept rows_stay db db')|].
    intros inv Hinv. apply H. by eapply contact_write_invites.
  - unfold createInvite, commit. destruct (constraints _) eqn:Hc; [|done].
    unfold constraints in Hc. rewrite !andb_true_iff, !bool_decide_eq_true, !forallb_true in Hc.
    destruct Hc as [[[[[C1 C2] C3] C4] C5] C6]. split.
    { destruct Hwf. by constructor. }
    intros inv [Hinv| ->%list_elem_of_singleton]%elem_of_app; [by apply H|]. simpl.
    split; [|lia]. unfold claims. rewrite (proj2 (lfilter_nil _ _)); [done|].
    intros j Hj. apply String.eqb_neq. by intros <-.
  - by apply status_uses_ok.
  - by apply status_uses_ok.
  - pose proof (claim_spec now r inv db Hin) as Hcl. rewrite Hc in Hcl.
    assert (uses_ok (on_invite inv.(inv_id) (with_invite_status now "expired") db, log)) as He
      by by apply status_uses_ok.
    destruct res; (done || (destruct Hcl as [-> | ->]; done)).
  - pose proof (claim_spec now r inv db Hin) as Hcl. rewrite Hc in Hcl.
    destruct Hcl as [(Ha & _ & Hlt & _) ->]. split; [by apply on_invite_wf|]. cbn.
    intros x (y & -> & Hy)%list_elem_of_fmap. destruct (H y Hy) as [Hu Hle].
    unfold is_invite. destruct (String.eqb_spec y.(inv_id) inv.(inv_id)) as [E|E].
    + pose proof (NoDup_fmap_inv _ _ _ _ (wf_invites _ Hwf) Hy Hin E) as ->.
      unfold invite_active. rewrite Ha. simpl. rewrite claims_cons, String.eqb_refl. split; [lia|].
      simpl. lia.
    + simpl. rewrite claims_cons. destruct (String.eqb_spec y.(inv_id) inv.(inv_id)); [done|].
      split; [lia|done].
Qed.

(** C26: However redemptions, creations, revocations, expiries and contact writes
    interleave, the guardian's decisions among them, an invite is used at most as often as
    it allows, and its counter is the number of redemptions that claimed a use, those
    whose contact write then fails or is refused included. *)
Theorem invite_uses_bounded db0 db log inv :
  db_wf db0 → db0.(invites) = [] → rtc invite_step (db0, []) (db, log) → inv ∈ db.(invites) →
  claims inv.(inv_id) log = inv.(inv_useCount)
  ∧ (claims inv.(inv_id) log <= inv.(inv_maxUses))%Z.
Proof.
  intros Hwf Hnil Hs Hin.
  assert (uses_ok (db, log)) as [_ H].
  { assert (uses_ok (db0, [])) as H0 by (split; [done|]; simpl; rewrite Hnil; by intros ? ?%elem_of_nil).
    clear Hin. remember (db0, @nil string) as h0. remember (db, log) as h. revert Heqh Heqh0 H0.
    intros -> ->. revert Hs. generalize (db0, @nil string), (db, log). intros h h' Hs H0.
    induction Hs as [|? ? ? Hstep _ IH]; [done|]. by apply IH, (invite_step_uses _ _ Hstep). }
  destruct (H inv Hin) as [E ?]. simpl in E. rewrite E. done.
Qed.

(** ** One redemption *)

Lemma acl_on_invite i f db : (on_invite i f db).(acl) = db.(acl).
Proof. done. Qed.

Lemma redeem_address r inv name u :
  canonical_member r = Some u → vp_address (redeem_verify r inv name) = u.
Proof.
  unfold canonical_member, vp_address, redeem_verify, nonblank. simpl.
  destruct r.(ri_externalUserId) as [e|]; [|done]. destruct (truthy e); [|done]. by intros [= <-].
Qed.

(** Nothing else writes during the redemption. *)
Definition quiet (env : MirrorEnv) : Prop :=
  env.(me_asking) = (λ d, d) ∧ env.(me_mirroring) = (λ d, d) ∧ env.(me_probing) = (λ d, d).

Lemma collect_total answer f i db :
  ∃ x, deleteContactIfOrphaned answer f i db
       = (inr x, (deleteContactIfOrphaned answer f i db).2).
Proof.
  unfold deleteContactIfOrphaned. erewrite bind_inr by done.
  destruct (negb _); [by eexists|]. destruct answer as [| |p]; [by eexists..|].
  erewrite bind_inr by done. destruct (probe_allows p); by eexists.
Qed.

(** After the gateway's write, the softly failing rest changes no channel and no
    invite. *)
Lemma upsert_quiet now newContact newChannel p lookup mirrors answer db plan db2 :
  applyVerifiedChannelGatewayWrites now newContact newChannel p (default None lookup) db
  = (inr (Some plan), db2) → db_wf db2 →
  ∃ db3, upsertVerifiedContactChannel now newContact newChannel p true lookup mirrors (λ d, d)
           (λ d, d) answer (λ d, d) db = (inr (Some true), db3)
    ∧ channels db3 = channels db2 ∧ db3.(invites) = db2.(invites).
Proof.
  intros E Hwf. unfold upsertVerifiedContactChannel.
  destruct lookup as [l|].
  all: erewrite bind_inr by done; unfold catching; simpl default in *; erewrite bind_inr by by rewrite E.
  all: cbn match; erewrite bind_inr by done; destruct mirrors; [|by exists db2].
  all: destruct plan.(mp_orphanedDonorContactId) as [d|]; [|by exists db2].
  all: cbn match; destruct (collect_total answer (λ d, d) d db2) as [x Ex]; erewrite bind_inr by exact Ex.
  all: eexists; split; [done|].
  all: destruct (orphan_collection_safe answer (λ d, d) d db2 Hwf) as (seen & Hs & _ & ? & ? & _);
    [done|]; by destruct Hs as [-> | ->].
Qed.

Lemma upsert_refused now newContact newChannel p lookup mirrors answer db db2 :
  applyVerifiedChannelGatewayWrites now newContact newChannel p (default None lookup) db
  = (inr None, db2) →
  upsertVerifiedContactChannel now newContact newChannel p true lookup mirrors (λ d, d)
    (λ d, d) answer (λ d, d) db = (inr (Some false), db2).
Proof.
  intros E. unfold upsertVerifiedContactChannel. destruct lookup as [l|].
  all: erewrite bind_inr by done; unfold catching; simpl default in *.
  all: by erewrite bind_inr by by rewrite E.
Qed.

(** What a redemption of [inv] by [r] has to find, and what it must leave. *)
Record redemption_spec (now : Z) (env : MirrorEnv) (inv : Invite) (r : RedeemIdentity)
    (db db' : GatewayDb) : Prop := {
  rs_claimable : claimable now r inv db;
  rs_invites : db'.(invites)
    = (on_invite inv.(inv_id)
         (redeemed_row now r.(ri_externalUserId) r.(ri_externalChatId)) db).(invites);
  rs_channel : ∃ name ch,
    let p := redeem_verify r inv name in
    getGatewayChannelByKey r.(ri_sourceChannel) (vp_address p) db' = Some ch
    ∧ verified_channel env.(me_newContact) p (default None env.(me_lookup))
        (getGatewayChannelByKey r.(ri_sourceChannel) (vp_address p) db) ch
    ∧ ∀ c, by_key r.(ri_sourceChannel) (vp_address p) c = false →
        c ∈ channels db' ↔ c ∈ channels db
}.

(** A redemption that succeeds found the invite active, unexpired, with a use left,
    for this channel, and the sender not blocked; it consumes one use and leaves the
    sender an active, allowed channel, every other channel as it was. Any other
    answer leaves contacts and channels exactly as they were. No constraint is
    violated on the way. *)
Theorem redemption_grants now env inv r db :
  db_wf db → inv ∈ db.(invites) → quiet env →
  (∀ name, mirror_agrees db r.(ri_sourceChannel) (vp_address (redeem_verify r inv name))
             (default None env.(me_lookup))) →
  (default None env.(me_lookup) = None →
   ∀ ch, ch ∈ channels db → ch.(channel_id) ≠ env.(me_newChannel)) →
  match finishRedemption now env inv r db with
  | (inl _, _) => False
  | (inr (redeemed o), db') =>
      o.(io_inviteId) = inv.(inv_id) ∧ o.(io_contactId) = inv.(inv_contactId)
      ∧ redemption_spec now env inv r db db'
  | (inr _, db') => db'.(acl) = db.(acl)
  end.
Proof.
  intros Hwf Hin (Q1 & Q2 & Q3) Hm Hf. unfold finishRedemption.
  pose proof (claim_spec now r inv db Hin) as Hc.
  unfold mbind at 1, Store_bind at 1.
  destruct (claimRedemption now inv r db) as [[e|[res|name]] db1]; [done| |].
  { destruct res; simpl; try done; by destruct Hc as [-> | ->]. }
  destruct Hc as [Hcl ->]. set (p := redeem_verify r inv name). set (db1 := on_invite _ _ db).
  assert (db_wf db1) as Hwf1 by by apply on_invite_wf.
  rewrite Q1, Q2, Q3.
  pose proof (verify_outcome now env.(me_newContact) env.(me_newChannel) p
    (default None env.(me_lookup)) db1 Hwf1 (Hm name) Hf) as Hv.
  destruct (applyVerifiedChannelGatewayWrites _ _ _ _ _ _) as [[e|[plan|]] db2] eqn:E; [done| |].
  - destruct Hv as (_ & Hk & (ch & Hch & Hvc) & _).
    destruct (upsert_quiet now env.(me_newContact) env.(me_newChannel) p env.(me_lookup)
      env.(me_mirrors) env.(me_answer) db1 plan db2 E (kept_wf _ _ _ _ Hk)) as (db3 & Eu & H1 & H2).
    erewrite bind_inr by exact Eu. simpl. split_and!; [done|done|]. constructor.
    + done.
    + by rewrite H2, (kept_invites _ _ _ _ Hk).
    + exists name, ch. split; [|split; [exact Hvc|]].
      * unfold getGatewayChannelByKey. by rewrite H1.
      * intros c Hc. rewrite H1. by apply (kept_channels _ _ _ _ Hk).
  - destruct Hv as [-> _]. erewrite bind_inr by by apply upsert_refused. done.
Qed.

(** A member's message is never taken for a code. *)
Lemma member_not_intercepted hash now env p db :
  non_member p.(ic_trustVerdict) = false →
  tryInviteRedemptionIntercept hash now env p db = (inr None, db).
Proof.
  intros H. unfold tryInviteRedemptionIntercept.
  destruct (negb (isInviteCodeRedemptionEnabled _)); [done|].
  destruct (intercept_secret p) as [[t s]|]; [|done]. by rewrite H.
Qed.

(** ** Concrete instances *)

Definition sample_invite (i channel contact : string) : InviteParams :=
  {| ip_id := i; ip_sourceChannel := channel; ip_inviteCodeHash := Some "#123456";
     ip_contactId := contact; ip_note := None; ip_maxUses := None; ip_expiresAt := 1000;
     ip_tokenHash := Some "#tok"; ip_voiceCodeHash := None; ip_voiceCodeDigits := None;
     ip_expectedExternalUserId := None; ip_friendName := None; ip_guardianName := None;
     ip_sourceConversationId := None |}.

Definition sample_hash (s : string) : string := String "#" s.

Definition invited_db : GatewayDb := (createInvite 0 (sample_invite "i" "telegram" "a") sample_db).2.

Definition sample_env (lookup : option (string * string)) : MirrorEnv :=
  {| me_newContact := "n"; me_newChannel := "k"; me_lookup := Some lookup; me_mirrors := true;
     me_answer := mirror_unreachable; me_asking := λ d, d; me_mirroring := λ d, d;
     me_probing := λ d, d |}.

Definition sample_sender (u : string) : RedeemIdentity :=
  {| ri_sourceChannel := "telegram"; ri_externalUserId := Some u; ri_externalChatId := Some u;
     ri_displayName := None; ri_username := None |}.

Lemma invited_db_wf : db_wf invited_db.
Proof. apply constraints_all_wf; vm_compute; reflexivity. Qed.

(** The seeded sender redeems the code: its channel moves to the invite's contact and
    the contact it was seeded under is collected. *)
Example redeem_by_code :
  match redeemInviteByCode sample_hash 5 (sample_env (Some ("c4", "s"))) "123456"
          (sample_sender "99") invited_db with
  | (inr (redeemed o), db') =>
      (o.(io_contactId), o.(io_memberExternalUserId),
       channel_contactId <$> getGatewayChannelByKey "telegram" "99" db',
       getContact "s" db', inv_status <$> db'.(invites))
      = ("a", "99", Some "a", None, ["redeemed"])
  | _ => False
  end.
Proof. vm_compute. reflexivity. Qed.

Lemma redemption_grants_witness :
  ∃ inv db', getInviteById "i" invited_db = Some inv
  ∧ (finishRedemption 5 (sample_env (Some ("c4", "s"))) inv (sample_sender "99") invited_db).2 = db'
  ∧ redemption_spec 5 (sample_env (Some ("c4", "s"))) inv (sample_sender "99") invited_db db'.
Proof.
  destruct (getInviteById "i" invited_db) as [inv|] eqn:Hi; [|by vm_compute in Hi].
  pose proof Hi as [Hin _]%find_first_Some.
  pose proof (redemption_grants 5 (sample_env (Some ("c4", "s"))) inv (sample_sender "99")
    invited_db invited_db_wf Hin (conj eq_refl (conj eq_refl eq_refl))
    (λ name, mirror_agrees_check invited_db "telegram" "99" (Some ("c4", "s")) eq_refl)
    ltac:(done)) as H.
  exists inv. eexists. split; [done|]. split; [reflexivity|].
  destruct (finishRedemption _ _ _ _ _) as [[e|[o|o|reason|]] db'] eqn:E; [done|apply H|..];
    exfalso; vm_compute in Hi; injection Hi as <-; vm_compute in E; done.
Defined.

Lemma invite_uses_bounded_witness :
  ∃ db inv log, rtc invite_step (sample_db, []) (db, log) ∧ inv ∈ db.(invites)
  ∧ log = ["i"] ∧ (claims inv.(inv_id) log <= inv.(inv_maxUses))%Z.
Proof.
  destruct (claimRedemption 5 (invite_row 0 (sample_invite "i" "telegram" "a")) (sample_sender "99")
    invited_db) as [[e|[res|name]] db'] eqn:E; [exfalso; vm_compute in E; done..|].
  assert (rtc invite_step (sample_db, []) (db', ["i"])) as Hs.
  { eapply rtc_l; [apply (is_create 0 (sample_invite "i" "telegram" "a"))|]; [by apply not_elem_of_nil|done|].
    eapply rtc_l; [|apply rtc_refl].
    apply (is_claimed 5 (sample_sender "99") (invite_row 0 (sample_invite "i" "telegram" "a"))
             _ [] name db'); [|exact E]. by left. }
  assert (∃ inv, head db'.(invites) = Some inv) as [inv Hinv]
    by (vm_compute in E; injection E as _ <-; by eexists).
  assert (inv ∈ db'.(invites)) as Hin
    by (destruct db'.(invites); [done|]; injection Hinv as ->; by left).
  exists db', inv, ["i"]. split_and!; [exact Hs|exact Hin|reflexivity|].
  apply (invite_uses_bounded sample_db db' ["i"] inv sample_db_wf eq_refl Hs Hin).
Defined.

(** ** Findings *)

(** Redemption re-parents whatever active channel presents the secret: the caller
    whose channel is the guardian's own ends up as the invite's plain contact, and no
    channel is left under the guardian. *)
Lemma redemption_takes_guardian_channel :
  match redeemInviteByToken sample_hash 5 (sample_env (Some ("c1", "g"))) "tok"
          (sample_sender "7") invited_db with
  | (inr (redeemed _), db') =>
      channel_contactId <$> getGatewayChannelByKey "telegram" "7" db' = Some "a"
      ∧ List.filter (owned_by "g") (channels db') = []
  | _ => False
  end.
Proof. vm_compute. split; reflexivity. Qed.

(** The answer names the invite's contact though the channel stays under another one
    when the mirror already lists it under the invite's. *)
Lemma redeemed_elsewhere :
  let db := (createInvite 0 (sample_invite "i" "telegram" "a") drifted_db).2 in
  match redeemInviteByToken sample_hash 5 (sample_env (Some ("c2", "a"))) "tok"
          (sample_sender "42") db with
  | (inr (redeemed o), db') =>
      o.(io_contactId) = "a"
      ∧ channel_contactId <$> getGatewayChannelByKey "telegram" "42" db' = Some "m"
  | _ => False
  end.
Proof. vm_compute. split; reflexivity. Qed.
