(* ===== verification/SessionService.v ===== *)
(** The gateway's service over verification sessions
    ([gateway/src/verification/session-service.ts]): minting codes, and redeeming one
    with what it grants.

    Secrets come from the random source and identifiers from the caller, both as
    arguments. A redemption runs over the session store, the rate limits and the
    contact tables; [others] is what other requests do to the sessions while the
    assistant is asked. *)
From stdpp Require Import pretty.
From S2P Require Import Prelude JsString VerificationSessions VerificationFlow SenderTrust.
From S2P Require Import ContactStore ContactWrites ContactSafety GuardianBinding.

Definition CHALLENGE_TTL_MS : Z := 10 * 60 * 1000.

Fixpoint zeros (n : nat) : string :=
  match n with O => EmptyString | S n => String "0" (zeros n) end.

(** [padStart(width, "0")] *)
Definition pad_zeros (width : nat) (s : string) : string := zeros (width - String.length s) +:+ s.

(** [random]: the 32-bit integer read from the random bytes *)
Definition generateNumericSecret (random : N) (digits : nat) : string :=
  pad_zeros digits (pretty (random `mod` 10 ^ N.of_nat digits)%N).

(** ** Minting *)

Record Randomness := {
  rnd_id : string;        (** [randomUUID()] *)
  rnd_hex : string;       (** [randomBytes(32).toString("hex")] *)
  rnd_number : N
}.

Record MintParams := {
  mint_channel : string;
  mint_expectedExternalUserId : option string;
  mint_expectedChatId : option string;
  mint_expectedPhoneE164 : option string;
  mint_identityBindingStatus : option IdentityBindingStatus;
  mint_destinationAddress : option string;
  mint_codeDigits : option Z;
  mint_maxAttempts : option Z;
  mint_verificationPurpose : option VerificationPurpose;
  mint_bootstrapTokenHash : option string;
  mint_sessionId : option string;
  mint_requireSourceSessionPending : option string;
  mint_ifNoneActiveForExternalUserId : option string
}.

Record Minted := {
  minted_sessionId : string;
  minted_secret : string;
  minted_challengeHash : string;
  minted_expiresAt : Z
}.

Inductive MintConflict := source_session_not_pending | active_session_exists.

Section Service.
Context (hash : string → string) (now : Z).

(** [None]: the insert throws. *)
Definition createInboundVerificationSession (rnd : Randomness) (ch : string)
    (conversation : option string) (t : Sessions)
    : Sessions * option (VerificationSession * string) :=
  let '(t', session) := createInboundSession
    {| in_id := rnd.(rnd_id); in_channel := ch; in_challengeHash := hash rnd.(rnd_hex);
       in_expiresAt := now + CHALLENGE_TTL_MS; in_sourceConversationId := conversation |} now t in
  (t', (λ s, (s, rnd.(rnd_hex))) <$> session).

Definition is_unbound (p : MintParams) : bool :=
  bool_decide (p.(mint_identityBindingStatus) = Some binding_pending_bootstrap).

Definition mint_secret (rnd : Randomness) (p : MintParams) : string :=
  if is_unbound p then rnd.(rnd_hex)
  else generateNumericSecret rnd.(rnd_number) (Z.to_nat (default 6 p.(mint_codeDigits)))%Z.

Definition outbound_params (rnd : Randomness) (p : MintParams) : OutboundParams :=
  {| out_id := default rnd.(rnd_id) p.(mint_sessionId); out_channel := p.(mint_channel);
     out_challengeHash := hash (mint_secret rnd p); out_expiresAt := now + CHALLENGE_TTL_MS;
     out_status := if is_unbound p then pending_bootstrap else awaiting_response;
     out_sourceConversationId := None;
     out_expectedExternalUserId := p.(mint_expectedExternalUserId);
     out_expectedChatId := p.(mint_expectedChatId);
     out_expectedPhoneE164 := p.(mint_expectedPhoneE164);
     out_identityBindingStatus := Some (default bound p.(mint_identityBindingStatus));
     out_destinationAddress := p.(mint_destinationAddress);
     out_codeDigits := p.(mint_codeDigits); out_maxAttempts := p.(mint_maxAttempts);
     out_verificationPurpose := p.(mint_verificationPurpose);
     out_bootstrapTokenHash := p.(mint_bootstrapTokenHash) |}.

Definition createOutboundSession (rnd : Randomness) (p : MintParams) (t : Sessions)
    : Sessions * option Minted :=
  let '(t', session) := VerificationSessions.createOutboundSession (outbound_params rnd p) now t in
  (t', (λ _, {| minted_sessionId := default rnd.(rnd_id) p.(mint_sessionId);
                minted_secret := mint_secret rnd p;
                minted_challengeHash := hash (mint_secret rnd p);
                minted_expiresAt := now + CHALLENGE_TTL_MS |}) <$> session).

Definition with_purpose (purpose : option VerificationPurpose) (p : MintParams) : MintParams :=
  {| mint_channel := p.(mint_channel);
     mint_expectedExternalUserId := p.(mint_expectedExternalUserId);
     mint_expectedChatId := p.(mint_expectedChatId);
     mint_expectedPhoneE164 := p.(mint_expectedPhoneE164);
     mint_identityBindingStatus := p.(mint_identityBindingStatus);
     mint_destinationAddress := p.(mint_destinationAddress);
     mint_codeDigits := p.(mint_codeDigits); mint_maxAttempts := p.(mint_maxAttempts);
     mint_verificationPurpose := purpose;
     mint_bootstrapTokenHash := p.(mint_bootstrapTokenHash);
     mint_sessionId := p.(mint_sessionId);
     mint_requireSourceSessionPending := p.(mint_requireSourceSessionPending);
     mint_ifNoneActiveForExternalUserId := p.(mint_ifNoneActiveForExternalUserId) |}.

(** A conflict, or a mint that may still throw. *)
Definition createOutboundSessionGuarded (rnd : Randomness) (p : MintParams) (t : Sessions)
    : Sessions * (MintConflict + option Minted) :=
  let active :=
    match p.(mint_ifNoneActiveForExternalUserId) with
    | Some u => findActiveSession p.(mint_channel)
                  {| filter_expectedExternalUserId := Some u;
                     filter_verificationPurpose := None |} now t
    | None => None
    end in
  match active with
  | Some _ => (t, inl active_session_exists)
  | None =>
      match p.(mint_requireSourceSessionPending) with
      | Some i =>
          match claimBootstrapSession i p.(mint_channel) now t with
          | (t, None) => (t, inl source_session_not_pending)
          | (t, Some source) =>
              let '(t, m) :=
                createOutboundSession rnd (with_purpose source.(verificationPurpose) p) t in
              (t, inr m)
          end
      | None => let '(t, m) := createOutboundSession rnd p t in (t, inr m)
      end
  end.

(** ** Redeeming *)

Record ServiceState := { svc_ver : VerificationState; svc_db : GatewayDb }.

Definition on_sessions (t : Sessions) (st : ServiceState) : ServiceState :=
  {| svc_ver := with_sessions t st.(svc_ver); svc_db := st.(svc_db) |}.
Definition on_limits (t : gmap ActorKey RateLimit) (st : ServiceState) : ServiceState :=
  {| svc_ver := with_limits t st.(svc_ver); svc_db := st.(svc_db) |}.
Definition on_db (db : GatewayDb) (st : ServiceState) : ServiceState :=
  {| svc_ver := st.(svc_ver); svc_db := db |}.

Inductive ConsumeOutcome :=
  | consume_success (verificationType : option VerificationPurpose)
  | consume_failure
  | consume_throws.

Definition phone_guardian_session (ch : string) (session : VerificationSession) : bool :=
  negb (bool_decide (session.(verificationPurpose) = Some purpose_trusted_contact))
  && String.eqb ch "phone" && bool_decide (is_Some session.(expectedPhoneE164)).

(** The transaction of the consume and the binding. *)
Definition consume_and_bind (env : VerifyEnv) (key : ActorKey) (session : VerificationSession)
    (st : ServiceState) : ConsumeOutcome * ServiceState :=
  let '(ch, user, chat) := key in
  match consumeSession session.(id) user chat now st.(svc_ver).(sessions) with
  | (_, false) => (consume_failure, st)
  | (ss, true) =>
      if bool_decide (gatewayChannelStatus ch user st.(svc_db) = Some "blocked")
      then (consume_failure, on_sessions ss st)
      else
        match applyPhoneGuardianBindingGatewayWrites now env.(ve_newContact) env.(ve_newChannel)
                user chat now st.(svc_db) with
        | (inl _, _) => (consume_throws, st)
        | (inr binding, db) =>
            let st := on_limits (resetRateLimit key st.(svc_ver).(limits))
                        (on_db db (on_sessions ss st)) in
            let st :=
              match binding with
              | Some w => on_db (mirrorGuardianBinding env.(ve_answer) env.(ve_probing) w
                                   (env.(ve_mirroring) st.(svc_db))).2 st
              | None => st
              end in
            (consume_success session.(verificationPurpose), st)
        end
  end.

Definition session_actor (ch user chat : string) : TextActor :=
  {| ta_sourceChannel := ch; ta_canonicalUserId := user; ta_actorChatId := chat;
     ta_actorDisplayName := None; ta_actorUsername := None |}.

(** The consume, then what it grants; a side effect that throws puts the session back. *)
Definition consume_then_grant (env : VerifyEnv) (others : Sessions → Sessions) (key : ActorKey)
    (session : VerificationSession) (st : ServiceState) : ConsumeOutcome * ServiceState :=
  let '(ch, user, chat) := key in
  match consumeSession session.(id) user chat now st.(svc_ver).(sessions) with
  | (_, false) => (consume_failure, st)
  | (ss, true) =>
      let st := on_limits (resetRateLimit key st.(svc_ver).(limits)) (on_sessions ss st) in
      if bool_decide (session.(verificationPurpose) = Some purpose_trusted_contact) then
        let '(r, db) := applyTrustedContactSideEffects now env (session_actor ch user chat)
                          st.(svc_db) in
        let st := on_db db (on_sessions (others st.(svc_ver).(sessions)) st) in
        match r with
        | inr (Some true) => (consume_success session.(verificationPurpose), st)
        | inr (Some false) => (consume_failure, st)
        | inr None | inl _ =>
            (consume_throws,
             on_sessions (updateSessionStatus session.(id) session.(status) None None now
                            st.(svc_ver).(sessions)) st)
        end
      else (consume_success session.(verificationPurpose), st)
  end.

Definition validateAndConsumeSession (env : VerifyEnv) (others : Sessions → Sessions)
    (ch secret user chat : string) (st : ServiceState) : ConsumeOutcome * ServiceState :=
  let key := (ch, user, chat) in
  let invalid := on_limits (recordInvalidAttempt key now st.(svc_ver).(limits)) st in
  if isRateLimited key now st.(svc_ver).(limits) then (consume_failure, st)
  else
    match findPendingSessionByHash ch (hash secret) now st.(svc_ver).(sessions) with
    | None => (consume_failure, invalid)
    | Some session =>
        if negb (checkIdentityMatch session user chat) then (consume_failure, invalid)
        else if phone_guardian_session ch session then consume_and_bind env key session st
        else consume_then_grant env others key session st
    end.
End Service.

(** ** A phone that answers becomes the guardian's *)

Lemma find_pending_elem ch h now t session :
  findPendingSessionByHash ch h now t = Some session →
  ∃ r, r ∈ t ∧ session = rowToSession r ∧ interceptable r = true ∧ r.(channel) = ch
       ∧ r.(challengeHash) = h ∧ (now < r.(expiresAt))%Z.
Proof.
  unfold findPendingSessionByHash. destruct (find_first _ t) as [r|] eqn:E; [|done].
  intros [= <-]. apply find_first_Some in E as [Hr Hp]. rewrite !andb_true_iff in Hp.
  destruct Hp as [[[Hc%String.eqb_eq Hh%String.eqb_eq] Hi] Ht%Z.ltb_lt]. by exists r.
Qed.

(** The session a lookup finds can be consumed. *)
Lemma found_consumes ch h now t session user chat at_ :
  findPendingSessionByHash ch h now t = Some session →
  ∃ t', consumeSession session.(id) user chat at_ t = (t', true).
Proof.
  intros (r & Hr & -> & Hi & _)%find_pending_elem. unfold consumeSession.
  assert (existsb (λ x, has_id (rowToSession r).(id) x && interceptable x) t = true) as ->; [|eauto].
  apply existsb_true. exists r. split; [done|]. unfold has_id. simpl.
  by rewrite String.eqb_refl.
Qed.

(** What is committed when the code of a phone session is right. *)
Definition phone_bound (now : Z) (phone g : string) (db db' : GatewayDb) : Prop :=
  db_wf db' ∧ db'.(invites) = db.(invites)
  ∧ ((∃ row, bound_row "phone" db' row ∧ row.1.(contact_id) = g)
     ∧ (∀ row, bound_row "phone" db' row →
          row.2.(channel_address) = phone ∧ row.2.(channel_contactId) = g)
     ∨ db' = db
       ∧ ((∃ row, bound_row "phone" db row ∧ row.2.(channel_address) = phone)
          ∨ ∃ t, getMostRecentChannelGuardianTimestamp "phone" db = Some t ∧ (now <= t)%Z)).

(** C25: The right code from the phone of an outbound guardian session is spent, and in
    the same transaction either the number becomes the only phone that a guardian is
    bound to (whoever held it is revoked), or the binding is there already or newer
    than the redemption and nothing changes. A blocked number is refused with the code
    spent and the contacts untouched. The call does not throw. *)
Theorem phone_verification_binds hash now env others secret phone chat g session st :
  let key := ("phone", phone, chat) in
  let db := st.(svc_db) in
  db_wf db →
  isRateLimited key now st.(svc_ver).(limits) = false →
  findPendingSessionByHash "phone" (hash secret) now st.(svc_ver).(sessions) = Some session →
  checkIdentityMatch session phone chat = true →
  phone_guardian_session "phone" session = true →
  existingGuardianContact (phone_binding phone chat (resolveCanonicalPrincipal phone db)) db
    = Some g →
  env.(ve_newChannel) ∉ channel_id <$> channels db →
  match validateAndConsumeSession hash now env others "phone" secret phone chat st with
  | (consume_success purpose, st') =>
      purpose = session.(verificationPurpose)
      ∧ spent session.(id) st'.(svc_ver).(sessions)
      ∧ st'.(svc_ver).(limits) = resetRateLimit key st.(svc_ver).(limits)
      ∧ ∃ db', phone_bound now phone g db db'
        ∧ (st'.(svc_db) = db'
           ∨ ∃ w, st'.(svc_db) = (mirrorGuardianBinding env.(ve_answer) env.(ve_probing) w
                                    (env.(ve_mirroring) db')).2)
  | (consume_failure, st') =>
      gatewayChannelStatus "phone" phone db = Some "blocked"
      ∧ spent session.(id) st'.(svc_ver).(sessions)
      ∧ st'.(svc_db) = db ∧ st'.(svc_ver).(limits) = st.(svc_ver).(limits)
  | (consume_throws, _) => False
  end.
Proof.
  intros key db Hwf Hrate Hfind Hid Hphone Hg Hfresh. subst key. unfold validateAndConsumeSession.
  rewrite Hrate, Hfind, Hid, Hphone. cbn [negb]. unfold consume_and_bind.
  destruct (found_consumes _ _ _ _ _ phone chat now Hfind) as [t' Et]. rewrite Et.
  apply consume_spent in Et. fold db. case_bool_decide as Hb; [done|].
  destruct (phone_rebind now env.(ve_newContact) env.(ve_newChannel) phone chat now g db Hwf Hg
              Hfresh) as (r & db' & E & Hwf' & Hinv & Hr).
  { intros c Hc Hk Hs. apply Hb. unfold gatewayChannelStatus.
    by rewrite (proj2 (find_by_key db _ _ c Hwf) (conj Hc Hk)), <- Hs. }
  rewrite E. destruct r as [w|]; (split_and!; [done..|]); exists db'.
  - destruct Hr as (_ & ? & ?). split; [|right; by exists w]. split_and!; [done..|]. by left.
  - destruct Hr as [-> Hr]. split; [|by left]. split_and!; [done..|]. by right.
Qed.

(** Putting a consumed session back makes its code match again. *)
Lemma restored_found ch h now t session user chat at_ others ss :
  (∀ t r, r ∈ t → r.(challengeHash) = h → r ∈ others t) →
  findPendingSessionByHash ch h now t = Some session →
  consumeSession session.(id) user chat at_ t = (ss, true) →
  ∃ s, findPendingSessionByHash ch h now
         (updateSessionStatus session.(id) session.(status) None None now (others ss)) = Some s.
Proof.
  intros Hothers (r & Hr & -> & Hi & Hc & Hh & Ht)%find_pending_elem [= <- _].
  set (r' := set_consumer (Some user) (Some chat) (VerificationSessions.set_status consumed at_ r)).
  set (t' := update_rows _ _ t).
  assert (r' ∈ others t') as Hin.
  { apply Hothers; [|done]. apply elem_update_where. exists r. split; [done|].
    unfold has_id. simpl. by rewrite String.eqb_refl, Hi. }
  unfold findPendingSessionByHash. destruct (find_first _ _) as [x|] eqn:E; [by eexists|].
  exfalso. rewrite find_first_None in E.
  assert (has_id r.(id) r' = true) as Hid by (unfold has_id; apply String.eqb_refl).
  specialize (E (set_consumer None None (VerificationSessions.set_status r.(status) now r'))).
  rewrite !andb_false_iff in E. destruct E as [[[E|E]|E]|E].
  - apply elem_update_where. exists r'. split; [done|]. simpl in *. by rewrite Hid.
  - apply String.eqb_neq in E. done.
  - apply String.eqb_neq in E. done.
  - unfold interceptable in *. simpl in E. congruence.
  - apply Z.ltb_ge in E. simpl in E. lia.
Qed.

(** A redemption that throws leaves the code redeemable, whatever the code was for
    and wherever it threw, as long as the other requests keep the session's row. *)
Theorem throw_keeps_code hash now env others ch secret user chat st st' :
  (∀ t r, r ∈ t → r.(challengeHash) = hash secret → r ∈ others t) →
  validateAndConsumeSession hash now env others ch secret user chat st = (consume_throws, st') →
  ∃ session, findPendingSessionByHash ch (hash secret) now st'.(svc_ver).(sessions) = Some session.
Proof.
  intros Hothers. unfold validateAndConsumeSession. destruct (isRateLimited _ _ _); [done|].
  destruct (findPendingSessionByHash _ _ _ _) as [session|] eqn:Hfind; [|done].
  destruct (negb _); [done|]. destruct (phone_guardian_session _ _).
  - unfold consume_and_bind. destruct (consumeSession _ _ _ _ _) as [ss []]; [|done].
    case_bool_decide; [done|]. destruct (applyPhoneGuardianBindingGatewayWrites _ _ _ _ _ _ _)
      as [[e|b] db]; [|by destruct b]. intros [= <-]. eauto.
  - unfold consume_then_grant. destruct (consumeSession _ _ _ _ _) as [ss []] eqn:Ec; [|done].
    case_bool_decide; [|done].
    destruct (applyTrustedContactSideEffects _ _ _ _) as [[e|[[]|]] db]; try done;
      intros [= <-]; by eapply restored_found.
Qed.

(** ** A deep link mints one code *)

Lemma update_rows_none p f t : (∀ r, r ∈ t → p r = false) → update_rows p f t = t.
Proof.
  intros H. unfold update_rows. rewrite <- (list_fmap_id t) at 2. apply list_fmap_ext.
  intros i r Hr%list_elem_of_lookup_2. by rewrite (H r Hr).
Qed.

Lemma claim_spent i ch now t t' s :
  NoDup (id <$> t) → claimBootstrapSession i ch now t = (t', Some s) → spent i t'.
Proof.
  intros Hnd. unfold claimBootstrapSession. set (p := λ r, _ && _).
  destruct (find_first p t) as [r|] eqn:E; [|done]. intros [= <- _].
  apply find_first_Some in E as [Hr Hp]. pose proof Hp as Hp'. unfold p in Hp'.
  rewrite !andb_true_iff in Hp'. destruct Hp' as [[Hid%String.eqb_eq _] _]. split.
  - eexists. split; [apply elem_update_where; eauto|]. by destruct (p r).
  - intros x (r0 & Hr0 & ->)%elem_update_where Hx.
    assert (r0 = r) as ->; [|by rewrite Hp].
    apply (NoDup_fmap_inv id t); [done..|]. rewrite Hid. by destruct (p r0).
Qed.

Lemma claim_spent_none i ch now t : spent i t → claimBootstrapSession i ch now t = (t, None).
Proof.
  intros [_ Hall]. unfold claimBootstrapSession. set (p := λ r, _ && _).
  assert (∀ r, r ∈ t → p r = false) as Hno.
  { intros r Hr. destruct (p r) eqn:E; [|done]. unfold p in E. rewrite !andb_true_iff in E.
    destruct E as [[Hid%String.eqb_eq _] Hs%bool_decide_eq_true]. specialize (Hall r Hr Hid).
    unfold interceptable in Hall. by rewrite Hs in Hall. }
  rewrite update_rows_none by done. by rewrite (proj2 (find_first_None _ _) Hno).
Qed.

(** A deep link mints one code: once a mint that claims a bootstrap session has
    gone through, then whatever other calls do to the store, short of putting that
    session back by hand, every later mint that claims it is a conflict and changes
    nothing. *)
Theorem bootstrap_claimed_once hash now now' rnd rnd' p p' i t t' m calls :
  NoDup (id <$> t) →
  p.(mint_requireSourceSessionPending) = Some i →
  p'.(mint_requireSourceSessionPending) = Some i →
  createOutboundSessionGuarded hash now rnd p t = (t', inr (Some m)) →
  Forall (λ call, reopens i call = false) calls →
  let t2 := foldl session_step t' calls in
  ∃ c, createOutboundSessionGuarded hash now' rnd' p' t2 = (t2, inl c).
Proof.
  intros Hnd Hp Hp' Hmint Hcalls t2. assert (spent i t2) as Hspent.
  { apply steps_spent; [done|]. revert Hmint. unfold createOutboundSessionGuarded.
    destruct (match p.(mint_ifNoneActiveForExternalUserId) with Some _ => _ | None => _ end); [done|].
    rewrite Hp. destruct (claimBootstrapSession _ _ _ _) as [t1 [s|]] eqn:Ec; [|done].
    apply claim_spent in Ec; [|done]. set (q := with_purpose _ p). unfold createOutboundSession.
    destruct (VerificationSessions.createOutboundSession _ _ _) as [t3 o] eqn:Eo.
    intros [= <- _]. pose proof (step_spent i t1 (CreateOutbound (outbound_params hash now rnd q) now)
      eq_refl Ec) as H. simpl in H. by rewrite Eo in H. }
  unfold createOutboundSessionGuarded. destruct (match p'.(mint_ifNoneActiveForExternalUserId) with
    Some _ => _ | None => _ end); [eauto|]. rewrite Hp', claim_spent_none by done. eauto.
Qed.

(** ** Concrete instances *)

Definition sample_rnd (i secret : string) : Randomness :=
  {| rnd_id := i; rnd_hex := secret; rnd_number := 42 |}.

Definition mint_for (ch : string) (user phone source : option string)
    (binding : option IdentityBindingStatus) (purpose : option VerificationPurpose) : MintParams :=
  {| mint_channel := ch; mint_expectedExternalUserId := user; mint_expectedChatId := None;
     mint_expectedPhoneE164 := phone; mint_identityBindingStatus := binding;
     mint_destinationAddress := None; mint_codeDigits := None; mint_maxAttempts := None;
     mint_verificationPurpose := purpose; mint_bootstrapTokenHash := None;
     mint_sessionId := None; mint_requireSourceSessionPending := source;
     mint_ifNoneActiveForExternalUserId := None |}.

Example numeric_secret_padded : generateNumericSecret 42 6 = "000042".
Proof. reflexivity. Qed.

(** An outbound call to [+2], for a guardian whose phone is [+1]. *)
Definition calling_state (status : string) : ServiceState :=
  {| svc_ver :=
       {| sessions := (createOutboundSession sample_hash 1 (sample_rnd "s" "")
                         (mint_for "phone" None (Some "+2") None None None) []).1;
          limits := ∅ |};
     svc_db := phone_db status |}.

Definition answering : VerifyEnv :=
  {| ve_newContact := "n"; ve_newChannel := "k"; ve_name := Some None; ve_naming := λ db, db;
     ve_lookup := Some None; ve_mirrors := true; ve_answer := mirror_unreachable;
     ve_asking := λ db, db; ve_mirroring := λ db, db; ve_probing := λ db, db |}.

Lemma phone_verification_binds_witness :
  ∃ purpose st', validateAndConsumeSession sample_hash 9 answering (λ t, t) "phone" "000042" "+2" "c"
                   (calling_state "active") = (consume_success purpose, st')
  ∧ ∃ db', phone_bound 9 "+2" "g" (phone_db "active") db'.
Proof.
  pose proof (phone_verification_binds sample_hash 9 answering (λ t, t) "000042" "+2" "c" "g"
    (default (inbound_row {| in_id := ""; in_channel := ""; in_challengeHash := "";
       in_expiresAt := 0; in_sourceConversationId := None |} 0)
      (head (calling_state "active").(svc_ver).(sessions))) (calling_state "active")) as H.
  destruct (validateAndConsumeSession sample_hash 9 answering (λ t, t) "phone" "000042" "+2" "c"
                   (calling_state "active")) as [[purpose| |] st'] eqn:E;
    [|vm_compute in E; discriminate E..].
  exists purpose, st'. split; [reflexivity|].
  destruct H as (_ & _ & _ & db' & Hb & _); [|reflexivity..|apply (bool_decide_unpack _);
    vm_compute; exact I|by exists db'].
  apply constraints_all_wf; vm_compute; reflexivity.
Defined.

(** A trusted contact's session, with the assistant unreachable. *)
Definition contact_state : ServiceState :=
  {| svc_ver :=
       {| sessions := (createOutboundSession sample_hash 1 (sample_rnd "s" "")
                         (mint_for "telegram" (Some "99") None None None
                            (Some purpose_trusted_contact)) []).1;
          limits := ∅ |};
     svc_db := sample_db |}.

Lemma throw_keeps_code_witness :
  ∃ session st', validateAndConsumeSession sample_hash 9 silent_assistant (λ t, t) "telegram" "000042"
                   "99" "99" contact_state = (consume_throws, st')
  ∧ findPendingSessionByHash "telegram" (sample_hash "000042") 9 st'.(svc_ver).(sessions)
    = Some session.
Proof.
  destruct (validateAndConsumeSession sample_hash 9 silent_assistant (λ t, t) "telegram" "000042"
                   "99" "99" contact_state) as [r st'] eqn:E.
  assert (r = consume_throws) as -> by (vm_compute in E; congruence).
  destruct (throw_keeps_code sample_hash 9 silent_assistant (λ t, t) "telegram" "000042" "99" "99"
    contact_state st') as [s Hs]; [done|exact E|]. by exists s, st'.
Defined.

(** A deep link that was opened. *)
Definition linked : Sessions :=
  (createOutboundSession sample_hash 1 (sample_rnd "s" "token")
     (mint_for "telegram" None None None (Some binding_pending_bootstrap) None) []).1.

Lemma bootstrap_claimed_once_witness :
  ∃ t' m c,
    createOutboundSessionGuarded sample_hash 2 (sample_rnd "a" "")
      (mint_for "telegram" (Some "7") None (Some "s") None None) linked = (t', inr (Some m))
    ∧ createOutboundSessionGuarded sample_hash 3 (sample_rnd "b" "")
        (mint_for "telegram" (Some "8") None (Some "s") None None) t' = (t', inl c).
Proof.
  destruct (createOutboundSessionGuarded sample_hash 2 (sample_rnd "a" "")
      (mint_for "telegram" (Some "7") None (Some "s") None None) linked) as [t' r] eqn:E.
  destruct r as [c|[m|]]; [vm_compute in E; discriminate E| |vm_compute in E; discriminate E].
  destruct (bootstrap_claimed_once sample_hash 2 3 (sample_rnd "a" "") (sample_rnd "b" "")
    (mint_for "telegram" (Some "7") None (Some "s") None None)
    (mint_for "telegram" (Some "8") None (Some "s") None None) "s" linked t' m []) as [c Hc].
  - apply (bool_decide_unpack _). vm_compute. exact I.
  - reflexivity.
  - reflexivity.
  - exact E.
  - constructor.
  - exists t', m, c. split; [reflexivity|exact Hc].
Defined.

(** A code that was put back is live beside the code that superseded it: the newer mint
    cannot revoke a session that is being redeemed, and the redemption, when it fails,
    restores it without looking. *)
Definition minting_meanwhile (t : Sessions) : Sessions :=
  (createOutboundSession sample_hash 5
     {| rnd_id := "s2"; rnd_hex := ""; rnd_number := 77 |}
     (mint_for "telegram" (Some "99") None None None (Some purpose_trusted_contact)) t).1.

Lemma restored_code_beside_newer :
  match validateAndConsumeSession sample_hash 9 silent_assistant minting_meanwhile "telegram" "000042"
          "99" "99" contact_state with
  | (consume_throws, st') =>
      (λ r, (r.(id), boundIdentity r, outbound_live r)) <$> st'.(svc_ver).(sessions)
      = [("s", Some (field_externalUserId, "99"), true);
         ("s2", Some (field_externalUserId, "99"), true)]
  | _ => False
  end.
Proof. vm_compute. reflexivity. Qed.
