(* ===== verification/GuardianRequests.v ===== *)
(** Requests that a guardian decides
    ([gateway/src/db/guardian-request-store.ts],
    [gateway/src/approvals/guardian-request-service.ts],
    [packages/gateway-client/src/guardian-request-contract.ts]).

    The store keeps the requests and where each was delivered, in insertion order. A
    decision is a compare-and-swap on the status together with the write to the access
    control list it stands for, in one transaction over the whole gateway database. *)
From S2P Require Import Prelude JsString VerificationSessions VerificationFlow SenderTrust.
From S2P Require Import ContactStore ContactWrites ContactSafety GuardianBinding SessionService.

(** ** Rows *)

Inductive RequestStatus := req_pending | req_approved | req_denied | req_expired | req_cancelled.

#[export] Instance RequestStatus_eq_dec : EqDecision RequestStatus.
Proof. solve_decision. Defined.

Record GuardianRequest := {
  gr_id : string;
  gr_kind : string;
  gr_sourceChannel : option string;
  gr_sourceConversationId : option string;
  gr_requesterExternalUserId : option string;
  gr_requesterChatId : option string;
  gr_guardianExternalUserId : option string;
  gr_guardianPrincipalId : option string;
  gr_callSessionId : option string;
  gr_pendingQuestionId : option string;
  gr_questionText : option string;
  gr_requestCode : option string;
  gr_toolName : option string;
  gr_inputDigest : option string;
  gr_commandPreview : option string;
  gr_riskLevel : option string;
  gr_activityText : option string;
  gr_executionTarget : option string;
  gr_requesterSignals : option string;
  gr_requestTrigger : option string;
  gr_status : RequestStatus;
  gr_answerText : option string;
  gr_decidedByExternalUserId : option string;
  gr_decidedByPrincipalId : option string;
  gr_followupState : option string;
  gr_expiresAt : option Z;
  gr_createdAt : Z;
  gr_updatedAt : Z
}.

Record Delivery := {
  gd_id : string;
  gd_requestId : string;
  gd_destinationChannel : string;
  gd_destinationConversationId : option string;
  gd_destinationChatId : option string;
  gd_destinationMessageId : option string;
  gd_status : string;
  gd_createdAt : Z;
  gd_updatedAt : Z
}.

Record RequestStore := { requests : list GuardianRequest; deliveries : list Delivery }.

Definition on_requests (rs : list GuardianRequest) (s : RequestStore) : RequestStore :=
  {| requests := rs; deliveries := s.(deliveries) |}.
Definition on_deliveries (ds : list Delivery) (s : RequestStore) : RequestStore :=
  {| requests := s.(requests); deliveries := ds |}.

Definition is_request (i : string) (r : GuardianRequest) : bool := String.eqb r.(gr_id) i.
Definition is_delivery (i : string) (d : Delivery) : bool := String.eqb d.(gd_id) i.
Definition is_pending (r : GuardianRequest) : bool := bool_decide (r.(gr_status) = req_pending).

(** The columns an update names; [None] for the ones it leaves. *)
Record RequestPatch := {
  rp_status : option RequestStatus;
  rp_answerText : option string;
  rp_decidedByExternalUserId : option string;
  rp_decidedByPrincipalId : option string;
  rp_followupState : option (option string);
  rp_expiresAt : option Z
}.

Definition given {A} (old : option A) (new : option A) : option A :=
  match new with Some _ => new | None => old end.

Definition patched (now : Z) (p : RequestPatch) (r : GuardianRequest) : GuardianRequest :=
  {| gr_id := r.(gr_id); gr_kind := r.(gr_kind); gr_sourceChannel := r.(gr_sourceChannel);
     gr_sourceConversationId := r.(gr_sourceConversationId);
     gr_requesterExternalUserId := r.(gr_requesterExternalUserId);
     gr_requesterChatId := r.(gr_requesterChatId);
     gr_guardianExternalUserId := r.(gr_guardianExternalUserId);
     gr_guardianPrincipalId := r.(gr_guardianPrincipalId);
     gr_callSessionId := r.(gr_callSessionId); gr_pendingQuestionId := r.(gr_pendingQuestionId);
     gr_questionText := r.(gr_questionText); gr_requestCode := r.(gr_requestCode);
     gr_toolName := r.(gr_toolName); gr_inputDigest := r.(gr_inputDigest);
     gr_commandPreview := r.(gr_commandPreview); gr_riskLevel := r.(gr_riskLevel);
     gr_activityText := r.(gr_activityText); gr_executionTarget := r.(gr_executionTarget);
     gr_requesterSignals := r.(gr_requesterSignals); gr_requestTrigger := r.(gr_requestTrigger);
     gr_status := default r.(gr_status) p.(rp_status);
     gr_answerText := given r.(gr_answerText) p.(rp_answerText);
     gr_decidedByExternalUserId :=
       given r.(gr_decidedByExternalUserId) p.(rp_decidedByExternalUserId);
     gr_decidedByPrincipalId := given r.(gr_decidedByPrincipalId) p.(rp_decidedByPrincipalId);
     gr_followupState := default r.(gr_followupState) p.(rp_followupState);
     gr_expiresAt := given r.(gr_expiresAt) p.(rp_expiresAt);
     gr_createdAt := r.(gr_createdAt); gr_updatedAt := now |}.

Definition status_patch (s : RequestStatus) : RequestPatch :=
  {| rp_status := Some s; rp_answerText := None; rp_decidedByExternalUserId := None;
     rp_decidedByPrincipalId := None; rp_followupState := None; rp_expiresAt := None |}.

(** [UPDATE guardian_requests SET p WHERE w] *)
Definition update_requests (now : Z) (w : GuardianRequest → bool) (p : RequestPatch)
    (s : RequestStore) : RequestStore :=
  on_requests ((λ r, if w r then patched now p r else r) <$> s.(requests)) s.

Definition delivery_set (now : Z) (status message : option string) (d : Delivery) : Delivery :=
  {| gd_id := d.(gd_id); gd_requestId := d.(gd_requestId);
     gd_destinationChannel := d.(gd_destinationChannel);
     gd_destinationConversationId := d.(gd_destinationConversationId);
     gd_destinationChatId := d.(gd_destinationChatId);
     gd_destinationMessageId := given d.(gd_destinationMessageId) message;
     gd_status := default d.(gd_status) status; gd_createdAt := d.(gd_createdAt);
     gd_updatedAt := now |}.

Definition update_deliveries (now : Z) (w : Delivery → bool) (status message : option string)
    (s : RequestStore) : RequestStore :=
  on_deliveries ((λ d, if w d then delivery_set now status message d else d) <$> s.(deliveries)) s.

(** ** Reads *)

Definition getGuardianRequest (i : string) (s : RequestStore) : option GuardianRequest :=
  find_first (is_request i) s.(requests).

Definition getGuardianRequestByCode (code : string) (s : RequestStore) : option GuardianRequest :=
  find_first (λ r, bool_decide (r.(gr_requestCode) = Some code) && is_pending r) s.(requests).

Inductive SourceType := source_voice | source_desktop | source_channel.

#[export] Instance SourceType_eq_dec : EqDecision SourceType.
Proof. solve_decision. Defined.

Definition deriveGuardianRequestSourceType (sourceChannel : option string) : SourceType :=
  match sourceChannel with
  | Some c => if String.eqb c "phone" then source_voice
              else if String.eqb c "vellum" then source_desktop else source_channel
  | None => source_channel
  end.

(** The predicate on the column that stands for a derived type. *)
Definition sourceTypeCondition (t : SourceType) (r : GuardianRequest) : bool :=
  match t with
  | source_voice => bool_decide (r.(gr_sourceChannel) = Some "phone")
  | source_desktop => bool_decide (r.(gr_sourceChannel) = Some "vellum")
  | source_channel =>
      match r.(gr_sourceChannel) with
      | None => true
      | Some c => negb (mem c ["phone"; "vellum"])
      end
  end.

Record RequestFilters := {
  rf_status : option RequestStatus;
  rf_guardianExternalUserId : option string;
  rf_guardianPrincipalId : option string;
  rf_requesterExternalUserId : option string;
  rf_sourceConversationId : option string;
  rf_sourceType : option SourceType;
  rf_sourceChannel : option string;
  rf_kind : option string;
  rf_toolName : option string
}.

(** [if (filters?.x) conditions.push(eq(x, filters.x))] *)
Definition filters_text (f v : option string) : bool :=
  match nonblank f with Some x => bool_decide (v = Some x) | None => true end.

Definition passes_filters (f : RequestFilters) (r : GuardianRequest) : bool :=
  match f.(rf_status) with Some s => bool_decide (r.(gr_status) = s) | None => true end
  && filters_text f.(rf_guardianExternalUserId) r.(gr_guardianExternalUserId)
  && filters_text f.(rf_guardianPrincipalId) r.(gr_guardianPrincipalId)
  && filters_text f.(rf_requesterExternalUserId) r.(gr_requesterExternalUserId)
  && filters_text f.(rf_sourceConversationId) r.(gr_sourceConversationId)
  && match f.(rf_sourceType) with Some t => sourceTypeCondition t r | None => true end
  && filters_text f.(rf_sourceChannel) r.(gr_sourceChannel)
  && filters_text f.(rf_kind) (Some r.(gr_kind))
  && filters_text f.(rf_toolName) r.(gr_toolName).

Definition listGuardianRequests (f : RequestFilters) (s : RequestStore) : list GuardianRequest :=
  List.filter (passes_filters f) s.(requests).

(** [expiresAt && expiresAt < now]: a deadline of zero counts as none. *)
Definition isGuardianRequestExpired (r : GuardianRequest) (now : Z) : bool :=
  match r.(gr_expiresAt) with
  | Some t => negb (t =? 0)%Z && (t <? now)%Z
  | None => false
  end.

(** ** Creation *)

Definition DECISIONABLE_KINDS : list string :=
  ["tool_approval"; "tool_grant_request"; "pending_question"; "access_request"].

Definition MAX_RETRIES : nat := 5.

(** [codes]: what [newCode()] answers, call by call *)
Fixpoint pick_code (codes : nat → string) (retries n : nat) (s : RequestStore) : string :=
  match retries with
  | O => codes n
  | S retries =>
      match getGuardianRequestByCode (codes n) s with
      | None => codes n
      | Some _ => pick_code codes retries (S n) s
      end
  end.

Definition generateRequestCode (codes : nat → string) (s : RequestStore) : string :=
  pick_code codes MAX_RETRIES 0 s.

Record CreateParams := {
  cr_id : option string;
  cr_kind : string;
  cr_sourceChannel : option string;
  cr_sourceConversationId : option string;
  cr_requesterExternalUserId : option string;
  cr_requesterChatId : option string;
  cr_guardianExternalUserId : option string;
  cr_guardianPrincipalId : option string;
  cr_callSessionId : option string;
  cr_pendingQuestionId : option string;
  cr_questionText : option string;
  cr_requestCode : option string;
  cr_toolName : option string;
  cr_inputDigest : option string;
  cr_commandPreview : option string;
  cr_riskLevel : option string;
  cr_activityText : option string;
  cr_executionTarget : option string;
  cr_requesterSignals : option string;
  cr_requestTrigger : option string;
  cr_status : option RequestStatus;
  cr_answerText : option string;
  cr_decidedByExternalUserId : option string;
  cr_decidedByPrincipalId : option string;
  cr_followupState : option string;
  cr_expiresAt : option Z
}.

Inductive RequestError :=
  | guardian_principal_required
  | duplicate_id
  | missing_request
  | missing_after_resolve
  | acl_outcome_failed (message : string)
  | outcome_throws.

Definition created_request (now : Z) (freshId code : string) (p : CreateParams)
    : GuardianRequest :=
  {| gr_id := default freshId p.(cr_id); gr_kind := p.(cr_kind);
     gr_sourceChannel := p.(cr_sourceChannel);
     gr_sourceConversationId := p.(cr_sourceConversationId);
     gr_requesterExternalUserId := p.(cr_requesterExternalUserId);
     gr_requesterChatId := p.(cr_requesterChatId);
     gr_guardianExternalUserId := p.(cr_guardianExternalUserId);
     gr_guardianPrincipalId := p.(cr_guardianPrincipalId);
     gr_callSessionId := p.(cr_callSessionId); gr_pendingQuestionId := p.(cr_pendingQuestionId);
     gr_questionText := p.(cr_questionText); gr_requestCode := Some code;
     gr_toolName := p.(cr_toolName); gr_inputDigest := p.(cr_inputDigest);
     gr_commandPreview := p.(cr_commandPreview); gr_riskLevel := p.(cr_riskLevel);
     gr_activityText := p.(cr_activityText); gr_executionTarget := p.(cr_executionTarget);
     gr_requesterSignals := p.(cr_requesterSignals); gr_requestTrigger := p.(cr_requestTrigger);
     gr_status := default req_pending p.(cr_status); gr_answerText := p.(cr_answerText);
     gr_decidedByExternalUserId := p.(cr_decidedByExternalUserId);
     gr_decidedByPrincipalId := p.(cr_decidedByPrincipalId);
     gr_followupState := p.(cr_followupState); gr_expiresAt := p.(cr_expiresAt);
     gr_createdAt := now; gr_updatedAt := now |}.

Definition createGuardianRequest (now : Z) (freshId : string) (codes : nat → string)
    (p : CreateParams) (s : RequestStore) : RequestError + GuardianRequest * RequestStore :=
  if mem p.(cr_kind) DECISIONABLE_KINDS && negb (truthy (default "" p.(cr_guardianPrincipalId)))
  then inl guardian_principal_required
  else
    let row := created_request now freshId (default (generateRequestCode codes s) p.(cr_requestCode)) p in
    if existsb (is_request row.(gr_id)) s.(requests) then inl duplicate_id
    else inr (row, on_requests (s.(requests) ++ [row]) s).

(** ** Updates *)

Definition updateGuardianRequest (now : Z) (i : string) (p : RequestPatch) (s : RequestStore)
    : option GuardianRequest * RequestStore :=
  let s := update_requests now (is_request i) p s in (getGuardianRequest i s, s).

Record Resolution := {
  rs_status : RequestStatus;
  rs_answerText : option string;
  rs_decidedByExternalUserId : option string;
  rs_decidedByPrincipalId : option string
}.

Definition resolution_patch (d : Resolution) : RequestPatch :=
  {| rp_status := Some d.(rs_status); rp_answerText := d.(rs_answerText);
     rp_decidedByExternalUserId := d.(rs_decidedByExternalUserId);
     rp_decidedByPrincipalId := d.(rs_decidedByPrincipalId); rp_followupState := None;
     rp_expiresAt := None |}.

(** [(expires_at IS NULL OR expires_at >= ?)] *)
Definition unexpired (now : Z) (r : GuardianRequest) : bool :=
  match r.(gr_expiresAt) with Some t => (now <=? t)%Z | None => true end.

(** [None]: nothing matched the guard. *)
Definition resolveGuardianRequest (now : Z) (i : string) (expected : RequestStatus)
    (d : Resolution) (requireUnexpired : bool) (s : RequestStore)
    : RequestError + option GuardianRequest * RequestStore :=
  let guard r := is_request i r && bool_decide (r.(gr_status) = expected)
                 && (negb requireUnexpired || unexpired now r) in
  if existsb guard s.(requests) then
    let s := update_requests now guard (resolution_patch d) s in
    match getGuardianRequest i s with
    | Some r => inr (Some r, s)
    | None => inl missing_after_resolve
    end
  else inr (None, s).

(** ** Expiry *)

Definition INTERACTION_BOUND_KINDS : list string := ["tool_approval"; "pending_question"].

Definition interaction_bound (r : GuardianRequest) : bool :=
  is_pending r && mem r.(gr_kind) INTERACTION_BOUND_KINDS.

Definition expireAllPendingInteractionBound (now : Z) (s : RequestStore) : nat * RequestStore :=
  (length (List.filter interaction_bound s.(requests)),
   update_requests now interaction_bound (status_patch req_expired) s).

Definition MAX_EXPIRED_PENDING_BATCH : Z := 200.

Definition overdue (now : Z) (r : GuardianRequest) : bool :=
  is_pending r && match r.(gr_expiresAt) with Some t => (t <? now)%Z | None => false end.

Definition deadline (r : GuardianRequest) : Z := default 0%Z r.(gr_expiresAt).

(** [ORDER BY expires_at], equal deadlines in insertion order *)
Fixpoint insert_by_deadline (r : GuardianRequest) (rs : list GuardianRequest)
    : list GuardianRequest :=
  match rs with
  | [] => [r]
  | x :: xs => if (deadline r <=? deadline x)%Z then r :: x :: xs
               else x :: insert_by_deadline r xs
  end.
Definition by_deadline (rs : list GuardianRequest) : list GuardianRequest :=
  foldr insert_by_deadline [] rs.

Definition listExpiredPendingGuardianRequests (now limit : Z) (s : RequestStore)
    : list GuardianRequest :=
  take (Z.to_nat (Z.min (Z.max 1 limit) MAX_EXPIRED_PENDING_BATCH))
    (by_deadline (List.filter (overdue now) s.(requests))).

Definition expireGuardianRequest (now : Z) (i : string) (s : RequestStore) : RequestStore :=
  if bool_decide (gr_status <$> getGuardianRequest i s = Some req_pending) then
    update_deliveries now
      (λ d, String.eqb d.(gd_requestId) i && negb (String.eqb d.(gd_status) "withdrawn"))
      (Some "expired") None
      (update_requests now (is_request i) (status_patch req_expired) s)
  else s.

(** ** Deliveries *)

Record DeliveryParams := {
  dp_id : option string;
  dp_requestId : string;
  dp_destinationChannel : string;
  dp_destinationConversationId : option string;
  dp_destinationChatId : option string;
  dp_destinationMessageId : option string;
  dp_status : option string
}.

Definition createDelivery (now : Z) (freshId : string) (p : DeliveryParams) (s : RequestStore)
    : RequestError + Delivery * RequestStore :=
  let row := {| gd_id := default freshId p.(dp_id); gd_requestId := p.(dp_requestId);
                gd_destinationChannel := p.(dp_destinationChannel);
                gd_destinationConversationId := p.(dp_destinationConversationId);
                gd_destinationChatId := p.(dp_destinationChatId);
                gd_destinationMessageId := p.(dp_destinationMessageId);
                gd_status := default "pending" p.(dp_status);
                gd_createdAt := now; gd_updatedAt := now |} in
  if existsb (is_delivery row.(gd_id)) s.(deliveries) then inl duplicate_id
  else if existsb (is_request row.(gd_requestId)) s.(requests)
  then inr (row, on_deliveries (s.(deliveries) ++ [row]) s)
  else inl missing_request.

Definition listDeliveries (requestId : string) (s : RequestStore) : list Delivery :=
  List.filter (λ d, String.eqb d.(gd_requestId) requestId) s.(deliveries).

Definition to_chat (channel chat : string) (d : Delivery) : bool :=
  String.eqb d.(gd_destinationChannel) channel
  && bool_decide (d.(gd_destinationChatId) = Some chat).

Definition listDeliveriesByChat (channel chat : string) (s : RequestStore) : list Delivery :=
  List.filter (to_chat channel chat) s.(deliveries).

Definition updateDelivery (now : Z) (i : string) (status message : option string)
    (s : RequestStore) : option Delivery * RequestStore :=
  let s := update_deliveries now (is_delivery i) None message s in
  let s := match status with
           | Some _ => update_deliveries now
                         (λ d, is_delivery i d && negb (String.eqb d.(gd_status) "withdrawn"))
                         status None s
           | None => s
           end in
  (find_first (is_delivery i) s.(deliveries), s).

(** ** Lookups by destination and scope *)

Fixpoint pending_for (seen : list string) (ds : list Delivery) (s : RequestStore)
    : list GuardianRequest :=
  match ds with
  | [] => []
  | d :: ds =>
      if mem d.(gd_requestId) seen then pending_for seen ds s
      else
        let rest := pending_for (d.(gd_requestId) :: seen) ds s in
        match getGuardianRequest d.(gd_requestId) s with
        | Some r => if is_pending r then r :: rest else rest
        | None => rest
        end
  end.
Definition pendingRequestsForDeliveries (ds : list Delivery) (s : RequestStore)
    : list GuardianRequest := pending_for [] ds s.

Definition listPendingByDestinationChat (channel chat : string) (s : RequestStore)
    : list GuardianRequest :=
  pendingRequestsForDeliveries (List.filter (to_chat channel chat) s.(deliveries)) s.

Definition to_conversation (conversation : string) (channel : option string) (d : Delivery)
    : bool :=
  bool_decide (d.(gd_destinationConversationId) = Some conversation)
  && match nonblank channel with
     | Some c => String.eqb d.(gd_destinationChannel) c
     | None => true
     end.

Definition listPendingByDestinationConversation (conversation : string)
    (channel : option string) (s : RequestStore) : list GuardianRequest :=
  pendingRequestsForDeliveries (List.filter (to_conversation conversation channel) s.(deliveries)) s.

Definition from_conversation (conversation : string) : RequestFilters :=
  {| rf_status := Some req_pending; rf_guardianExternalUserId := None;
     rf_guardianPrincipalId := None; rf_requesterExternalUserId := None;
     rf_sourceConversationId := Some conversation; rf_sourceType := None;
     rf_sourceChannel := None; rf_kind := None; rf_toolName := None |}.

Fixpoint live_once (now : Z) (seen : list string) (rs : list GuardianRequest)
    : list GuardianRequest :=
  match rs with
  | [] => []
  | r :: rs =>
      if negb (mem r.(gr_id) seen) && negb (isGuardianRequestExpired r now)
      then r :: live_once now (r.(gr_id) :: seen) rs
      else live_once now seen rs
  end.

Definition listPendingByConversationScope (now : Z) (conversation : string)
    (channel : option string) (s : RequestStore) : list GuardianRequest :=
  live_once now []
    (listGuardianRequests (from_conversation conversation) s
     ++ listPendingByDestinationConversation conversation channel s).

Definition isRequestInConversationScope (requestId conversation : string) (s : RequestStore)
    : bool :=
  match getGuardianRequest requestId s with
  | None => false
  | Some r =>
      bool_decide (r.(gr_sourceConversationId) = Some conversation)
      || existsb (λ d, bool_decide (d.(gd_destinationConversationId) = Some conversation))
           (listDeliveries requestId s)
  end.

(** [ORDER BY created_at DESC]: the first of the latest. *)
Definition getPendingByCallSessionId (call : string) (s : RequestStore) : option GuardianRequest :=
  foldl (λ best r, match best with
                   | Some b => if (b.(gr_createdAt) <? r.(gr_createdAt))%Z then Some r else best
                   | None => Some r
                   end) None
    (List.filter (λ r, bool_decide (r.(gr_callSessionId) = Some call) && is_pending r)
       s.(requests)).

Definition getByPendingQuestionId (question : string) (s : RequestStore)
    : option GuardianRequest :=
  find_first (λ r, bool_decide (r.(gr_pendingQuestionId) = Some question)) s.(requests).

(** [None]: neither form was given. *)
Definition listPendingRequestsByDestination (conversation channel chat : option string)
    (s : RequestStore) : option (list GuardianRequest) :=
  match nonblank conversation, nonblank channel, nonblank chat with
  | Some c, _, _ => Some (listPendingByDestinationConversation c channel s)
  | None, Some ch, Some chat => Some (listPendingByDestinationChat ch chat s)
  | None, _, _ => None
  end.

(** ** Sequences of calls *)

Inductive RequestCall :=
  | CreateRequest (now : Z) (freshId : string) (codes : nat → string) (p : CreateParams)
  | UpdateRequest (now : Z) (i : string) (p : RequestPatch)
  | ResolveRequest (now : Z) (i : string) (d : Resolution) (requireUnexpired : bool)
  | ExpireInteractionBound (now : Z)
  | ExpireRequest (now : Z) (i : string)
  | CreateDelivery (now : Z) (freshId : string) (p : DeliveryParams)
  | UpdateDelivery (now : Z) (i : string) (status message : option string).

Definition request_step (s : RequestStore) (call : RequestCall) : RequestStore :=
  match call with
  | CreateRequest now i codes p =>
      match createGuardianRequest now i codes p s with inr (_, s') => s' | inl _ => s end
  | UpdateRequest now i p => (updateGuardianRequest now i p s).2
  | ResolveRequest now i d u =>
      match resolveGuardianRequest now i req_pending d u s with inr (_, s') => s' | inl _ => s end
  | ExpireInteractionBound now => (expireAllPendingInteractionBound now s).2
  | ExpireRequest now i => expireGuardianRequest now i s
  | CreateDelivery now i p =>
      match createDelivery now i p s with inr (_, s') => s' | inl _ => s end
  | UpdateDelivery now i status message => (updateDelivery now i status message s).2
  end.

(** The primary keys. *)
Record store_ok (s : RequestStore) : Prop := {
  ok_requests : NoDup (gr_id <$> s.(requests));
  ok_deliveries : NoDup (gd_id <$> s.(deliveries))
}.

Lemma update_requests_ids now w p s :
  gr_id <$> (update_requests now w p s).(requests) = gr_id <$> s.(requests).
Proof.
  simpl. rewrite <- list_fmap_compose. apply list_fmap_ext. intros i r _. simpl. by destruct (w r).
Qed.

Lemma update_deliveries_ids now w st m s :
  gd_id <$> (update_deliveries now w st m s).(deliveries) = gd_id <$> s.(deliveries).
Proof.
  simpl. rewrite <- list_fmap_compose. apply list_fmap_ext. intros i r _. simpl. by destruct (w r).
Qed.

Lemma update_requests_keys now w p s : store_ok s → store_ok (update_requests now w p s).
Proof. intros [H1 H2]. split; [by rewrite update_requests_ids|done]. Qed.

Lemma update_deliveries_keys now w st m s : store_ok s → store_ok (update_deliveries now w st m s).
Proof. intros [H1 H2]. split; [done|by rewrite update_deliveries_ids]. Qed.

#[local] Hint Resolve update_requests_keys update_deliveries_keys : core.

Lemma NoDup_fmap_unseen {A} (f : A → string) xs x :
  NoDup (f <$> xs) → existsb (λ y, String.eqb (f y) (f x)) xs = false → NoDup (f <$> xs ++ [x]).
Proof.
  rewrite existsb_false. intros Hnd Hx. apply NoDup_fmap_snoc; [done|].
  intros y Hy. by apply String.eqb_neq, Hx.
Qed.

Lemma request_step_ok s call : store_ok s → store_ok (request_step s call).
Proof.
  intros Hok. destruct call; simpl.
  - unfold createGuardianRequest. destruct (_ && _); [done|]. destruct (existsb _ _) eqn:E; [done|].
    destruct Hok. split; [|done]. by apply NoDup_fmap_unseen.
  - auto.
  - unfold resolveGuardianRequest. destruct (existsb _ _); [|done].
    destruct (getGuardianRequest _ _); auto.
  - auto.
  - unfold expireGuardianRequest. case_bool_decide; auto.
  - unfold createDelivery. destruct (existsb _ _) eqn:E; [done|]. destruct (existsb _ s.(requests)); [|done].
    destruct Hok. split; [done|]. by apply NoDup_fmap_unseen.
  - unfold updateDelivery. destruct status; simpl; auto.
Qed.

(** *** One row under an update *)

Lemma get_request_elem i s r :
  store_ok s → getGuardianRequest i s = Some r ↔ r ∈ s.(requests) ∧ r.(gr_id) = i.
Proof.
  intros [Hnd _]. unfold getGuardianRequest, is_request. split.
  - by intros [Hr Hi%String.eqb_eq]%find_first_Some.
  - intros [Hr Hi]. destruct (find_first _ _) as [x|] eqn:E.
    + apply find_first_Some in E as [Hx Hxi%String.eqb_eq]. f_equal.
      apply (NoDup_fmap_inv gr_id s.(requests)); [done..|congruence].
    + rewrite find_first_None in E. specialize (E r Hr). apply String.eqb_neq in E. done.
Qed.

Lemma get_updated now w p i s :
  store_ok s →
  getGuardianRequest i (update_requests now w p s)
  = (λ r, if w r then patched now p r else r) <$> getGuardianRequest i s.
Proof.
  intros Hok. destruct (getGuardianRequest i s) as [r|] eqn:E.
  - apply get_request_elem in E as [Hr Hi]; [|done].
    apply get_request_elem; [auto|]. split.
    + apply list_elem_of_fmap. by exists r.
    + by destruct (w r).
  - unfold getGuardianRequest, is_request in *. rewrite find_first_None in E |- *.
    intros x (r & -> & Hr)%list_elem_of_fmap. specialize (E r Hr). by destruct (w r).
Qed.

Lemma get_same_requests i s s' :
  s'.(requests) = s.(requests) → getGuardianRequest i s' = getGuardianRequest i s.
Proof. unfold getGuardianRequest. by intros ->. Qed.

(** A call that does not patch a settled request by hand leaves it as it is. *)
Definition patches (i : string) (call : RequestCall) : bool :=
  match call with UpdateRequest _ j _ => String.eqb j i | _ => false end.

Lemma settled_step s call i r :
  store_ok s → patches i call = false → r.(gr_status) ≠ req_pending →
  getGuardianRequest i s = Some r → getGuardianRequest i (request_step s call) = Some r.
Proof.
  intros Hok Hcall Hr Hg.
  assert (∀ now w p, w r = false → getGuardianRequest i (update_requests now w p s) = Some r) as Hup.
  { intros now w p Hw. rewrite get_updated, Hg by done. simpl. by rewrite Hw. }
  assert (is_pending r = false) as Hnp by by apply bool_decide_eq_false.
  destruct call; simpl.
  - unfold createGuardianRequest. destruct (_ && _); [done|]. destruct (existsb _ _); [done|].
    unfold getGuardianRequest in *. simpl. by rewrite find_first_app, Hg.
  - apply Hup. simpl in Hcall. apply get_request_elem in Hg as [_ <-]; [|done].
    unfold is_request. apply String.eqb_neq. apply String.eqb_neq in Hcall. congruence.
  - unfold resolveGuardianRequest. destruct (existsb _ _); [|done].
    destruct (getGuardianRequest i0 _) eqn:E; [|done]. apply Hup.
    unfold is_pending in Hnp. by rewrite Hnp, andb_false_r.
  - apply Hup. unfold interaction_bound. by rewrite Hnp.
  - unfold expireGuardianRequest. case_bool_decide as Hi; [|done].
    etrans; [apply (get_same_requests _ (update_requests now (is_request i0) (status_patch req_expired) s));
             done|]. apply Hup.
    unfold is_request. apply String.eqb_neq. intros <-.
    apply get_request_elem in Hg as Hg'; [|done]. destruct Hg' as [_ Hid].
    rewrite Hid, Hg in Hi. simpl in Hi. congruence.
  - unfold createDelivery. destruct (existsb _ _); [done|]. by destruct (existsb _ _).
  - unfold updateDelivery. by destruct status.
Qed.

Lemma settled_steps i r calls s :
  store_ok s → Forall (λ call, patches i call = false) calls → r.(gr_status) ≠ req_pending →
  getGuardianRequest i s = Some r →
  store_ok (foldl request_step s calls) ∧ getGuardianRequest i (foldl request_step s calls) = Some r.
Proof.
  intros Hok Hcalls Hr. revert s Hok. induction Hcalls as [|call calls Hc _ IH]; intros s Hok Hg; [done|].
  simpl. apply IH; [by apply request_step_ok|by apply settled_step].
Qed.

Lemma settled_refuses now i d u r s :
  store_ok s → r.(gr_status) ≠ req_pending → getGuardianRequest i s = Some r →
  resolveGuardianRequest now i req_pending d u s = inr (None, s)
  ∧ expireGuardianRequest now i s = s.
Proof.
  intros Hok Hr Hg. split.
  - unfold resolveGuardianRequest. destruct (existsb _ _) eqn:E; [|done].
    apply existsb_true in E as (x & Hx & Hp). rewrite !andb_true_iff in Hp.
    destruct Hp as [[Hi%String.eqb_eq Hs%bool_decide_eq_true] _].
    assert (getGuardianRequest i s = Some x) as Hgx by by apply get_request_elem. congruence.
  - unfold expireGuardianRequest. rewrite bool_decide_false; [done|]. rewrite Hg. simpl. congruence.
Qed.

Lemma resolve_applied now i d u s r s' :
  store_ok s → resolveGuardianRequest now i req_pending d u s = inr (Some r, s') →
  ∃ r0, r0 ∈ s.(requests) ∧ r0.(gr_id) = i ∧ r0.(gr_status) = req_pending
    ∧ (u = true → unexpired now r0 = true)
    ∧ r = patched now (resolution_patch d) r0 ∧ store_ok s' ∧ getGuardianRequest i s' = Some r
    ∧ s' = update_requests now (is_request i) (resolution_patch d) s.
Proof.
  intros Hok. unfold resolveGuardianRequest. set (guard := λ r, _ && (_ || _)).
  destruct (existsb guard _) eqn:E; [|done]. apply existsb_true in E as (r0 & Hr0 & Hg).
  assert (getGuardianRequest i s = Some r0) as Hget.
  { apply get_request_elem; [done|]. split; [done|]. unfold guard in Hg.
    rewrite !andb_true_iff in Hg. by destruct Hg as [[Hi%String.eqb_eq _] _]. }
  rewrite get_updated, Hget by done. simpl. rewrite Hg. intros [= <- <-].
  exists r0. pose proof Hg as Hg'. unfold guard in Hg'. rewrite !andb_true_iff in Hg'.
  destruct Hg' as [[Hi%String.eqb_eq Hs%bool_decide_eq_true] Hu].
  assert (update_requests now guard (resolution_patch d) s
          = update_requests now (is_request i) (resolution_patch d) s) as ->.
  { unfold update_requests. f_equal. apply list_fmap_ext. intros k x Hx%list_elem_of_lookup_2.
    destruct (is_request i x) eqn:Ex.
    - apply String.eqb_eq in Ex. assert (x = r0) as ->; [|by rewrite Hg].
      apply (NoDup_fmap_inv gr_id s.(requests)); [apply Hok|done..|congruence].
    - unfold guard. by rewrite Ex. }
  split_and!; try done.
  - intros ->. by destruct (unexpired now r0).
  - auto.
  - rewrite get_updated, Hget by done. simpl. unfold is_request. by rewrite Hi, String.eqb_refl.
Qed.

(** ** The first decision stands *)

(** The first decision stands: once a pending request was resolved, then after any
    sequence of calls that does not patch it by hand the request is exactly as that
    decision left it, no later resolution or expiry of it goes through, and a
    resolution that respects the deadline was made in time. *)
Theorem first_decision_stands now i d u s s' r calls :
  store_ok s →
  d.(rs_status) ≠ req_pending →
  resolveGuardianRequest now i req_pending d u s = inr (Some r, s') →
  Forall (λ call, patches i call = false) calls →
  let s2 := foldl request_step s' calls in
  r.(gr_status) = d.(rs_status)
  ∧ (u = true → ∀ t, r.(gr_expiresAt) = Some t → (now <= t)%Z)
  ∧ getGuardianRequest i s2 = Some r
  ∧ (∀ now' d' u', resolveGuardianRequest now' i req_pending d' u' s2 = inr (None, s2))
  ∧ ∀ now', expireGuardianRequest now' i s2 = s2.
Proof.
  intros Hok Hd Hres Hcalls s2.
  destruct (resolve_applied _ _ _ _ _ _ _ Hok Hres) as
    (r0 & _ & _ & _ & Hu & -> & Hok' & Hget & _).
  set (r := patched now (resolution_patch d) r0) in *.
  assert (r.(gr_status) ≠ req_pending) as Hr by done.
  destruct (settled_steps i r calls s' Hok' Hcalls Hr Hget) as [Hok2 Hg2].
  split_and!; [done| |done|..].
  - intros Ht t Hx. specialize (Hu Ht). unfold unexpired in Hu. simpl in Hx. rewrite Hx in Hu.
    by apply Z.leb_le.
  - intros. by eapply (settled_refuses _ _ _ _ r).
  - intros. by eapply (settled_refuses now' i d u r).
Qed.

(** ** Receipts *)

Definition same_surface (d d' : Delivery) : Prop :=
  d'.(gd_id) = d.(gd_id) ∧ d'.(gd_requestId) = d.(gd_requestId)
  ∧ d'.(gd_destinationChannel) = d.(gd_destinationChannel)
  ∧ d'.(gd_destinationConversationId) = d.(gd_destinationConversationId)
  ∧ d'.(gd_destinationChatId) = d.(gd_destinationChatId).

Definition receipt_in (d : Delivery) (s : RequestStore) : Prop :=
  ∃ d', d' ∈ s.(deliveries) ∧ same_surface d d' ∧ d'.(gd_status) = "withdrawn".

Lemma receipt_same d s s' : s'.(deliveries) = s.(deliveries) → receipt_in d s → receipt_in d s'.
Proof. unfold receipt_in. by intros ->. Qed.

Lemma receipt_updated d now w st m s :
  (st = None ∨ ∀ x, x.(gd_status) = "withdrawn" → w x = false) →
  receipt_in d s → receipt_in d (update_deliveries now w st m s).
Proof.
  intros Hw (d' & Hin & Hs & Hst). exists (if w d' then delivery_set now st m d' else d').
  split; [apply list_elem_of_fmap; by exists d'|].
  destruct Hw as [->|Hw]; [by destruct (w d')|]. by rewrite (Hw _ Hst).
Qed.

Lemma receipt_step d s call : receipt_in d s → receipt_in d (request_step s call).
Proof.
  assert (∀ x : Delivery, x.(gd_status) = "withdrawn" →
            ∀ b : bool, b && negb (String.eqb x.(gd_status) "withdrawn") = false) as Hno.
  { intros x -> b. by rewrite andb_false_r. }
  intros Hd. destruct call; simpl.
  - unfold createGuardianRequest. destruct (_ && _); [done|]. by destruct (existsb _ _).
  - by eapply receipt_same.
  - unfold resolveGuardianRequest. destruct (existsb _ _); [|done].
    destruct (getGuardianRequest _ _); [|done]. by eapply receipt_same.
  - by eapply receipt_same.
  - unfold expireGuardianRequest. case_bool_decide; [|done].
    apply receipt_updated; [right; intros x Hx; by apply Hno|]. by eapply receipt_same.
  - unfold createDelivery. destruct (existsb _ _); [done|]. destruct (existsb _ _); [|done].
    destruct Hd as (d' & Hin & ?). exists d'. split; [|done]. simpl. apply elem_of_app. by left.
  - unfold updateDelivery. destruct status; simpl.
    + apply receipt_updated; [right; intros x Hx; by apply Hno|]. apply receipt_updated; [by left|done].
    + apply receipt_updated; [by left|done].
Qed.

(** The receipt that a card was withdrawn is never lost: no sequence of calls
    restamps it, neither the expiry of its request nor a late report of its sending,
    and it stays attached to its request and surface. *)
Theorem withdrawn_receipt_kept d s calls :
  receipt_in d s → receipt_in d (foldl request_step s calls).
Proof.
  revert s. induction calls as [|call calls IH]; intros s Hd; [done|]. simpl.
  apply IH. by apply receipt_step.
Qed.

(** ** The deadline *)

Lemma resolve_result now i d s r :
  store_ok s → r ∈ s.(requests) → r.(gr_id) = i →
  (∃ r' s', resolveGuardianRequest now i req_pending d true s = inr (Some r', s'))
  ↔ r.(gr_status) = req_pending ∧ unexpired now r = true.
Proof.
  intros Hok Hr Hi. split.
  - intros (r' & s' & E). destruct (resolve_applied _ _ _ _ _ _ _ Hok E) as
      (r0 & Hr0 & Hi0 & Hs & Hu & _).
    assert (r0 = r) as ->; [|split; auto].
    apply (NoDup_fmap_inv gr_id s.(requests)); [apply Hok|done..|congruence].
  - intros [Hs Hu]. unfold resolveGuardianRequest. set (guard := λ x, _ && (_ || _)).
    assert (guard r = true) as Hg.
    { unfold guard, is_request. by rewrite Hi, String.eqb_refl, bool_decide_true, Hu by done. }
    assert (existsb guard s.(requests) = true) as -> by (apply existsb_true; eauto).
    rewrite get_updated by done. rewrite (proj2 (get_request_elem i s r Hok) (conj Hr Hi)).
    simpl. eauto.
Qed.

(** The decision and the expiry split the pending requests between them: at any
    time, a request whose deadline is not the zero timestamp can be decided exactly
    when it is pending and the sweep does not list it as overdue, which is exactly
    when the shared check says that it has not expired. *)
Theorem deadline_arbitration now i d s r :
  store_ok s → r ∈ s.(requests) → r.(gr_id) = i → r.(gr_expiresAt) ≠ Some 0%Z →
  ((∃ r' s', resolveGuardianRequest now i req_pending d true s = inr (Some r', s'))
   ↔ is_pending r = true ∧ overdue now r = false)
  ∧ (is_pending r = true → overdue now r = isGuardianRequestExpired r now).
Proof.
  intros Hok Hr Hi Hz. rewrite (resolve_result now i d s r) by done.
  unfold overdue, isGuardianRequestExpired, unexpired, is_pending. split.
  - rewrite bool_decide_eq_true. split; intros [Hs Hu]; (split; [done|]).
    + rewrite bool_decide_true by done. simpl. destruct (gr_expiresAt r); [|done].
      apply Z.leb_le in Hu. apply Z.ltb_ge. lia.
    + rewrite bool_decide_true in Hu by done. simpl in Hu. destruct (gr_expiresAt r); [|done].
      apply Z.ltb_ge in Hu. apply Z.leb_le. lia.
  - intros ->. simpl. destruct (gr_expiresAt r) as [t|]; [|done].
    destruct (Z.eqb_spec t 0); [congruence|done].
Qed.

(** ** The sweep *)

(** One round: the requests listed, each confirmed as expired. The daemon's notices go
    out between the two and do not touch the store. *)
Definition sweep_round (now limit : Z) (s : RequestStore) : RequestStore :=
  foldl (λ s r, expireGuardianRequest now r.(gr_id) s) s
    (listExpiredPendingGuardianRequests now limit s).

Fixpoint sweep_rounds (n : nat) (now limit : Z) (s : RequestStore) : RequestStore :=
  match n with O => s | S n => sweep_rounds n now limit (sweep_round now limit s) end.

Definition batch (limit : Z) : nat := Z.to_nat (Z.min (Z.max 1 limit) MAX_EXPIRED_PENDING_BATCH).

Definition overdue_requests (now : Z) (s : RequestStore) : list GuardianRequest :=
  List.filter (overdue now) s.(requests).

Lemma mem_nil {A} `{EqDecision A} (x : A) : mem x [] = false.
Proof. by apply mem_false, not_elem_of_nil. Qed.

Lemma insert_by_deadline_perm r rs : insert_by_deadline r rs ≡ₚ r :: rs.
Proof.
  induction rs as [|x xs IH]; [done|]. simpl. destruct (deadline r <=? deadline x)%Z; [done|].
  rewrite IH. apply Permutation_swap.
Qed.

Lemma by_deadline_perm rs : by_deadline rs ≡ₚ rs.
Proof. induction rs as [|r rs IH]; [done|]. simpl. by rewrite insert_by_deadline_perm, IH. Qed.

(** What expiring a list of requests does to each row. *)
Definition expired_in (now : Z) (ids : list string) (r : GuardianRequest) : GuardianRequest :=
  if is_pending r && mem r.(gr_id) ids then patched now (status_patch req_expired) r else r.

Lemma expire_requests now i s :
  store_ok s → (expireGuardianRequest now i s).(requests) = expired_in now [i] <$> s.(requests)
  ∧ store_ok (expireGuardianRequest now i s).
Proof.
  intros Hok. split; [|by apply (request_step_ok s (ExpireRequest now i))].
  unfold expireGuardianRequest.
  assert (∀ r, r ∈ s.(requests) → mem r.(gr_id) [i] = true → getGuardianRequest i s = Some r) as Hone.
  { intros r Hr Hi%mem_true%list_elem_of_singleton. by apply get_request_elem. }
  case_bool_decide as Hp.
  - simpl. apply list_fmap_ext. intros k r Hr%list_elem_of_lookup_2. unfold expired_in.
    specialize (Hone r Hr). unfold is_request. rewrite mem_cons, mem_nil, orb_false_r.
    destruct (String.eqb_spec r.(gr_id) i) as [Hi|Hi].
    + rewrite bool_decide_true by done. simpl. rewrite Hone in Hp.
      * simpl in Hp. unfold is_pending. rewrite bool_decide_true; [done|congruence].
      * rewrite Hi. apply mem_true. by left.
    + rewrite bool_decide_false by done. by rewrite andb_false_r.
  - rewrite <- (list_fmap_id s.(requests)) at 1. apply list_fmap_ext.
    intros k r Hr%list_elem_of_lookup_2. unfold expired_in, is_pending.
    destruct (mem r.(gr_id) [i]) eqn:Ei; [|by rewrite andb_false_r]. rewrite andb_true_r.
    rewrite (Hone r Hr Ei) in Hp. simpl in Hp. rewrite bool_decide_false; [done|congruence].
Qed.

Lemma expire_all_requests now (rs : list GuardianRequest) s :
  store_ok s →
  let s' := foldl (λ s r, expireGuardianRequest now r.(gr_id) s) s rs in
  store_ok s' ∧ s'.(requests) = expired_in now (gr_id <$> rs) <$> s.(requests).
Proof.
  revert s. induction rs as [|x rs IH]; intros s Hok; simpl.
  - split; [done|]. rewrite <- (list_fmap_id s.(requests)) at 1. apply list_fmap_ext.
    intros k r _. unfold expired_in. by rewrite mem_nil, andb_false_r.
  - destruct (expire_requests now x.(gr_id) s Hok) as [E Hok1].
    destruct (IH _ Hok1) as [Hok2 ->]. split; [done|]. rewrite E, <- list_fmap_compose.
    apply list_fmap_ext. intros k r _. simpl. unfold expired_in.
    rewrite !mem_cons, mem_nil, orb_false_r.
    destruct (is_pending r) eqn:Ep; simpl; [|by rewrite Ep].
    by destruct (bool_decide (r.(gr_id) = x.(gr_id))); simpl; [|rewrite Ep].
Qed.

(** A round expires the first of the overdue requests and leaves the others. *)
Lemma sweep_round_ok now limit s :
  store_ok s →
  store_ok (sweep_round now limit s)
  ∧ overdue_requests now (sweep_round now limit s)
    ≡ₚ drop (batch limit) (by_deadline (overdue_requests now s))
  ∧ ∀ i r, getGuardianRequest i s = Some r →
      getGuardianRequest i (sweep_round now limit s) = Some r
      ∨ overdue now r = true
        ∧ getGuardianRequest i (sweep_round now limit s)
          = Some (patched now (status_patch req_expired) r).
Proof.
  intros Hok. set (listed := listExpiredPendingGuardianRequests now limit s).
  destruct (expire_all_requests now listed s Hok) as [Hok' E].
  change (foldl _ s listed) with (sweep_round now limit s) in Hok', E.
  set (ids := gr_id <$> listed) in *.
  set (O := overdue_requests now s). assert (by_deadline O ≡ₚ O) as HB by apply by_deadline_perm.
  assert (∀ r, r ∈ listed → r ∈ s.(requests) ∧ overdue now r = true) as Hlisted.
  { intros r Hr. unfold listed, listExpiredPendingGuardianRequests in Hr.
    apply (subseteq_take (Z.to_nat (Z.min (Z.max 1 limit) MAX_EXPIRED_PENDING_BATCH))) in Hr.
    rewrite by_deadline_perm in Hr. by apply elem_of_lfilter in Hr as [? ?]. }
  split_and!; [done|..].
  - assert (overdue_requests now (sweep_round now limit s)
            = List.filter (λ r, negb (mem r.(gr_id) ids)) O) as ->.
    { unfold overdue_requests at 1. rewrite E. unfold O, overdue_requests. clear.
      induction s.(requests) as [|r rs IH]; [done|]. csimpl. rewrite IH. unfold expired_in.
      destruct (overdue now r) eqn:Ho.
      - assert (is_pending r = true) as -> by by apply andb_true_iff in Ho as [? _].
        simpl. destruct (mem r.(gr_id) ids); simpl; [done|by rewrite Ho].
      - destruct (is_pending r && _); [done|by rewrite Ho]. }
    rewrite (lfilter_perm _ _ _ (symmetry HB)).
    rewrite <- (take_drop (batch limit) (by_deadline O)) at 1. rewrite List.filter_app.
    change (take (batch limit) (by_deadline O)) with listed.
    rewrite (proj2 (lfilter_nil _ listed)), filter_all; [done|..].
    + intros x Hx. apply negb_true_iff, mem_false. intros Hi.
      assert (NoDup (gr_id <$> by_deadline O)) as Hnd.
      { rewrite HB. apply NoDup_fmap_lfilter, Hok. }
      rewrite <- (take_drop (batch limit) (by_deadline O)), fmap_app in Hnd.
      apply NoDup_app in Hnd as (_ & Hnd & _). apply (Hnd _ Hi). by apply list_elem_of_fmap_2.
    + intros x Hx. apply negb_false_iff, mem_true. by apply list_elem_of_fmap_2.
  - intros i r Hg. apply get_request_elem in Hg as [Hr Hi]; [|done].
    destruct (is_pending r && mem r.(gr_id) ids) eqn:Em.
    + right. split.
      * apply andb_true_iff in Em as [_ Em]. apply mem_true in Em.
        apply list_elem_of_fmap in Em as (x & Ex & Hx). destruct (Hlisted x Hx) as [Hxs Ho].
        by rewrite (NoDup_fmap_inv gr_id s.(requests) r x (ok_requests _ Hok) Hr Hxs Ex).
      * apply get_request_elem; [done|]. rewrite E. split; [|done].
        apply list_elem_of_fmap. exists r. unfold expired_in. by rewrite Em.
    + left. apply get_request_elem; [done|]. rewrite E. split; [|done].
      apply list_elem_of_fmap. exists r. unfold expired_in. by rewrite Em.
Qed.

(** The sweep drains: whatever the batch asked for (a round takes at least one
    request and at most 200), after enough rounds to cover them every overdue request
    has been expired, and no request that was not overdue has changed. *)
Theorem sweep_drains now limit n s :
  store_ok s → length (overdue_requests now s) ≤ n * batch limit →
  1 ≤ batch limit ≤ 200
  ∧ overdue_requests now (sweep_rounds n now limit s) = []
  ∧ ∀ i r, getGuardianRequest i s = Some r →
      getGuardianRequest i (sweep_rounds n now limit s)
      = Some (if overdue now r then patched now (status_patch req_expired) r else r).
Proof.
  intros Hok Hn. split; [unfold batch, MAX_EXPIRED_PENDING_BATCH; lia|].
  assert (∀ r : GuardianRequest,
    overdue now (patched now (status_patch req_expired) r) = false) as Hexp by done.
  assert (∀ m s, store_ok s → ∀ i r, overdue now r = false → getGuardianRequest i s = Some r →
            getGuardianRequest i (sweep_rounds m now limit s) = Some r) as Hstay.
  { clear s Hok Hn. intros m. induction m as [|m IH]; intros s Hok i r Ho Hg; [done|]. simpl.
    destruct (sweep_round_ok now limit s Hok) as (Hok' & _ & Hrow).
    destruct (Hrow i r Hg) as [?|[? _]]; [by apply IH|congruence]. }
  revert s Hok Hn. induction n as [|n IH]; intros s Hok Hn; simpl.
  - assert (overdue_requests now s = []) as E by (apply nil_length_inv; lia). split; [done|].
    intros i r Hg. apply get_request_elem in Hg as Hg'; [|done]. destruct Hg' as [Hr _].
    unfold overdue_requests in E. rewrite lfilter_nil in E. by rewrite (E r Hr).
  - destruct (sweep_round_ok now limit s Hok) as (Hok' & Hperm & Hrow).
    destruct (IH _ Hok') as [Hnone Hall].
    { apply Permutation_length in Hperm. rewrite length_drop in Hperm.
      rewrite (Permutation_length (by_deadline_perm _)) in Hperm. lia. }
    split; [done|]. intros i r Hg. destruct (Hrow i r Hg) as [Hsame|[Ho Hp]].
    + by apply Hall.
    + rewrite Ho. by apply Hstay.
Qed.

(** ** What is in a conversation's scope *)

Lemma pending_for_elem seen ds s r :
  store_ok s →
  r ∈ pending_for seen ds s
  ↔ (∃ d, d ∈ ds ∧ d.(gd_requestId) = r.(gr_id)) ∧ r.(gr_id) ∉ seen
    ∧ r ∈ s.(requests) ∧ is_pending r = true.
Proof.
  intros Hok. revert seen. induction ds as [|d ds IH]; intros seen; simpl.
  { rewrite elem_of_nil. split; [done|]. by intros [(d & []%elem_of_nil & _) _]. }
  assert (∀ x, getGuardianRequest d.(gd_requestId) s = Some x →
            x ∈ s.(requests) ∧ x.(gr_id) = d.(gd_requestId)) as Hget.
  { intros x. by apply get_request_elem. }
  setoid_rewrite elem_of_cons. destruct (mem d.(gd_requestId) seen) eqn:Em.
  - apply mem_true in Em. rewrite IH. naive_solver congruence.
  - apply mem_false in Em.
    assert (r ∈ pending_for (d.(gd_requestId) :: seen) ds s
      ↔ (∃ d0, d0 ∈ ds ∧ d0.(gd_requestId) = r.(gr_id)) ∧ r.(gr_id) ≠ d.(gd_requestId)
        ∧ r.(gr_id) ∉ seen ∧ r ∈ s.(requests) ∧ is_pending r = true) as Hrest.
    { rewrite IH, not_elem_of_cons. tauto. }
    set (rest := pending_for _ ds s) in *.
    assert (r ∈ match getGuardianRequest d.(gd_requestId) s with
                | Some x => if is_pending x then x :: rest else rest
                | None => rest
                end
            ↔ getGuardianRequest d.(gd_requestId) s = Some r ∧ is_pending r = true ∨ r ∈ rest) as ->.
    { destruct (getGuardianRequest d.(gd_requestId) s) as [x|]; [|naive_solver].
      destruct (is_pending x) eqn:Ex; [rewrite elem_of_cons|]; naive_solver congruence. }
    rewrite Hrest, (get_request_elem _ _ _ Hok).
    destruct (decide (r.(gr_id) = d.(gd_requestId))) as [E|E].
    + rewrite E. split; [|naive_solver]. intros [[[? _] ?]|?]; [|naive_solver].
      split_and!; try done. exists d. by split; [left|].
    + naive_solver congruence.
Qed.

Lemma live_once_elem now seen rs r :
  (∀ x y, x ∈ rs → y ∈ rs → x.(gr_id) = y.(gr_id) → x = y) →
  r ∈ live_once now seen rs
  ↔ r ∈ rs ∧ r.(gr_id) ∉ seen ∧ isGuardianRequestExpired r now = false.
Proof.
  revert seen. induction rs as [|x rs IH]; intros seen Hone; simpl.
  { rewrite elem_of_nil. naive_solver. }
  assert (∀ a b, a ∈ rs → b ∈ rs → a.(gr_id) = b.(gr_id) → a = b) as Hone'.
  { intros a b Ha Hb. apply Hone; by right. }
  rewrite !elem_of_cons. destruct (negb _ && _) eqn:E.
  - apply andb_true_iff in E as [Hs%negb_true_iff%mem_false He%negb_true_iff].
    rewrite elem_of_cons, IH, not_elem_of_cons by done. split; [naive_solver|].
    intros (Hr & Hs' & He'). destruct (decide (r.(gr_id) = x.(gr_id))) as [Ei|Ei].
    + left. apply Hone; [by apply elem_of_cons|by left|done].
    + right. naive_solver.
  - rewrite IH by done. apply andb_false_iff in E. rewrite !negb_false_iff, mem_true in E.
    naive_solver congruence.
Qed.

Lemma live_once_NoDup now seen rs : NoDup (gr_id <$> live_once now seen rs)
  ∧ ∀ i, i ∈ gr_id <$> live_once now seen rs → i ∉ seen.
Proof.
  revert seen. induction rs as [|x rs IH]; intros seen; simpl.
  { split; [constructor|]. by intros i ?%elem_of_nil. }
  destruct (negb _ && _) eqn:E; [|apply IH]. destruct (IH (x.(gr_id) :: seen)) as [Hnd Hs].
  apply andb_true_iff in E as [Hx%negb_true_iff%mem_false _]. split; csimpl.
  - constructor; [|done]. intros Hi. apply (Hs _ Hi). by left.
  - intros i [->|Hi]%elem_of_cons; [done|]. specialize (Hs i Hi).
    intros Hi'. apply Hs. by right.
Qed.

Lemma from_conversation_elem conversation s r :
  truthy conversation = true →
  r ∈ listGuardianRequests (from_conversation conversation) s
  ↔ r ∈ s.(requests) ∧ is_pending r = true ∧ r.(gr_sourceConversationId) = Some conversation.
Proof.
  intros Ht. unfold listGuardianRequests. rewrite elem_of_lfilter.
  unfold passes_filters, filters_text, nonblank, is_pending. simpl. rewrite Ht.
  rewrite !andb_true_r, andb_true_iff, !bool_decide_eq_true. tauto.
Qed.

(** The two readings of a conversation's scope agree: the list offered to a
    conversation has each request once, and a request is on it exactly when it is
    pending, its deadline has not passed and the check that guards a decision from
    that conversation lets it through. *)
Theorem scope_readings_agree now conversation s :
  store_ok s → truthy conversation = true →
  let listed := listPendingByConversationScope now conversation None s in
  NoDup (gr_id <$> listed)
  ∧ ∀ i r, getGuardianRequest i s = Some r →
      (r ∈ listed ↔ is_pending r = true ∧ isGuardianRequestExpired r now = false
                    ∧ isRequestInConversationScope i conversation s = true).
Proof.
  intros Hok Ht listed. split; [apply live_once_NoDup|].
  intros i r Hg. unfold isRequestInConversationScope. rewrite Hg.
  apply get_request_elem in Hg as [Hr Hi]; [|done].
  assert (∀ x, x ∈ listPendingByDestinationConversation conversation None s
    ↔ (∃ d, d ∈ s.(deliveries) ∧ d.(gd_destinationConversationId) = Some conversation
            ∧ d.(gd_requestId) = x.(gr_id)) ∧ x ∈ s.(requests) ∧ is_pending x = true) as Hdest.
  { intros x. unfold listPendingByDestinationConversation, pendingRequestsForDeliveries.
    rewrite pending_for_elem by done. setoid_rewrite elem_of_lfilter. unfold to_conversation. simpl.
    setoid_rewrite andb_true_r. setoid_rewrite bool_decide_eq_true. set_solver. }
  unfold listed, listPendingByConversationScope. rewrite live_once_elem.
  - rewrite elem_of_app, from_conversation_elem, Hdest, orb_true_iff, bool_decide_eq_true,
      existsb_true by done.
    unfold listDeliveries. setoid_rewrite elem_of_lfilter. setoid_rewrite bool_decide_eq_true.
    setoid_rewrite String.eqb_eq. rewrite Hi. pose proof (not_elem_of_nil (A:=string) i).
    naive_solver.
  - intros x y Hx Hy E. apply (NoDup_fmap_inv gr_id s.(requests)); [apply Hok|..|done].
    + apply elem_of_app in Hx as [Hx|Hx]; [by apply elem_of_lfilter in Hx as [? _]|by apply Hdest in Hx as (_ & ? & _)].
    + apply elem_of_app in Hy as [Hy|Hy]; [by apply elem_of_lfilter in Hy as [? _]|by apply Hdest in Hy as (_ & ? & _)].
Qed.

(** ** Concrete instances *)

Definition sample_create (i kind : string) (expires : option Z) : CreateParams :=
  {| cr_id := Some i; cr_kind := kind; cr_sourceChannel := Some "telegram";
     cr_sourceConversationId := Some "conv"; cr_requesterExternalUserId := Some "99";
     cr_requesterChatId := Some "99"; cr_guardianExternalUserId := None;
     cr_guardianPrincipalId := Some "p"; cr_callSessionId := None;
     cr_pendingQuestionId := None; cr_questionText := None; cr_requestCode := Some "ABC123";
     cr_toolName := None; cr_inputDigest := None; cr_commandPreview := None;
     cr_riskLevel := None; cr_activityText := None; cr_executionTarget := None;
     cr_requesterSignals := None; cr_requestTrigger := None; cr_status := None;
     cr_answerText := None; cr_decidedByExternalUserId := None;
     cr_decidedByPrincipalId := None; cr_followupState := None; cr_expiresAt := expires |}.

Definition sample_delivery (i request status : string) : DeliveryParams :=
  {| dp_id := Some i; dp_requestId := request; dp_destinationChannel := "telegram";
     dp_destinationConversationId := Some "guardian-conv"; dp_destinationChatId := Some "7";
     dp_destinationMessageId := None; dp_status := Some status |}.

Definition approve : Resolution :=
  {| rs_status := req_approved; rs_answerText := None; rs_decidedByExternalUserId := Some "7";
     rs_decidedByPrincipalId := Some "p" |}.

(** An access request, a tool approval and a request with deadline zero; one card that
    was withdrawn. *)
Definition sample_requests : RequestStore :=
  foldl request_step {| requests := []; deliveries := [] |}
    [CreateRequest 1 "" (λ _, "") (sample_create "r1" "access_request" (Some 10%Z));
     CreateRequest 2 "" (λ _, "") (sample_create "r2" "tool_approval" None);
     CreateRequest 3 "" (λ _, "") (sample_create "r3" "access_request" (Some 0%Z));
     CreateDelivery 4 "" (sample_delivery "d1" "r1" "withdrawn");
     CreateDelivery 4 "" (sample_delivery "d2" "r1" "sent")].

Lemma store_ok_check s :
  bool_decide (NoDup (gr_id <$> s.(requests))) = true →
  bool_decide (NoDup (gd_id <$> s.(deliveries))) = true → store_ok s.
Proof. rewrite !bool_decide_eq_true. by constructor. Qed.

Lemma sample_requests_ok : store_ok sample_requests.
Proof. apply store_ok_check; vm_compute; reflexivity. Qed.

Lemma first_decision_stands_witness :
  ∃ r s', resolveGuardianRequest 5 "r1" req_pending approve true sample_requests = inr (Some r, s')
  ∧ getGuardianRequest "r1" (foldl request_step s'
      [ExpireRequest 20 "r1"; UpdateRequest 21 "r2" (status_patch req_denied)]) = Some r.
Proof.
  destruct (resolveGuardianRequest 5 "r1" req_pending approve true sample_requests)
    as [e|[[r|] s']] eqn:E; [vm_compute in E; discriminate E| |vm_compute in E; discriminate E].
  exists r, s'. split; [reflexivity|].
  apply (first_decision_stands 5 "r1" approve true sample_requests s' r _ sample_requests_ok);
    [discriminate|exact E|repeat constructor].
Defined.

Lemma withdrawn_receipt_kept_witness :
  ∃ d, receipt_in d (foldl request_step sample_requests
                       [UpdateDelivery 20 "d1" (Some "sent") (Some "m"); ExpireRequest 21 "r1"]).
Proof.
  destruct (listDeliveries "r1" sample_requests) as [|d ds] eqn:E; [vm_compute in E; discriminate E|].
  exists d. apply withdrawn_receipt_kept. exists d.
  assert (d ∈ listDeliveries "r1" sample_requests) as Hd by (rewrite E; left).
  apply elem_of_lfilter in Hd as [Hd _]. vm_compute in E. injection E as <- _.
  split; [exact Hd|split; [|reflexivity]]. split_and!; reflexivity.
Defined.

Lemma deadline_arbitration_witness :
  ∃ r, getGuardianRequest "r1" sample_requests = Some r
  ∧ overdue 11 r = true ∧ ¬ (is_pending r = true ∧ overdue 11 r = false)
  ∧ ((∃ r' s', resolveGuardianRequest 11 "r1" req_pending approve true sample_requests
               = inr (Some r', s')) ↔ is_pending r = true ∧ overdue 11 r = false).
Proof.
  destruct (getGuardianRequest "r1" sample_requests) as [r|] eqn:E; [|vm_compute in E; discriminate E].
  exists r. apply (get_request_elem _ _ _ sample_requests_ok) in E as Hr. destruct Hr as [Hr Hi].
  assert (overdue 11 r = true) as Ho by (vm_compute in E; injection E as <-; reflexivity).
  split_and!; [reflexivity|exact Ho|intros [_ H]; congruence|].
  apply (deadline_arbitration 11 "r1" approve sample_requests r sample_requests_ok Hr Hi).
  vm_compute in E. injection E as <-. discriminate.
Defined.

Lemma sweep_drains_witness :
  overdue_requests 11 (sweep_rounds 2 11 1 sample_requests) = []
  ∧ length (overdue_requests 11 sample_requests) = 2.
Proof.
  split; [|reflexivity].
  apply (sweep_drains 11 1 2 sample_requests sample_requests_ok). vm_compute. reflexivity.
Defined.

Lemma scope_readings_agree_witness :
  gr_id <$> listPendingByConversationScope 5 "guardian-conv" None sample_requests = ["r1"]
  ∧ NoDup (gr_id <$> listPendingByConversationScope 5 "guardian-conv" None sample_requests).
Proof.
  split; [reflexivity|].
  apply (scope_readings_agree 5 "guardian-conv" sample_requests sample_requests_ok). reflexivity.
Defined.

(** A deadline of zero is none for the shared check and long past for the statements:
    the request is offered to its conversation, and cannot be decided. *)
Lemma zero_deadline_offered :
  ∃ r, getGuardianRequest "r3" sample_requests = Some r
  ∧ isGuardianRequestExpired r 5 = false
  ∧ "r3" ∈ (gr_id <$> listPendingByConversationScope 5 "conv" None sample_requests)
  ∧ overdue 5 r = true
  ∧ resolveGuardianRequest 5 "r3" req_pending approve true sample_requests
    = inr (None, sample_requests).
Proof.
  eexists. split; [reflexivity|]. split_and!; try reflexivity.
  apply (bool_decide_unpack _). vm_compute. exact I.
Qed.

(** The expiry of the interaction-bound kinds leaves an overdue access request alone. *)
Lemma bound_expiry_spares_overdue :
  (gr_status <$> getGuardianRequest "r1" (expireAllPendingInteractionBound 11 sample_requests).2)
    = Some req_pending
  ∧ (gr_status <$> getGuardianRequest "r2" (expireAllPendingInteractionBound 11 sample_requests).2)
    = Some req_expired.
Proof. split; reflexivity. Qed.
