(* ===== verification/GuardianDecisions.v ===== *)
(** What a guardian's decision does
    ([gateway/src/approvals/guardian-request-service.ts],
    [packages/gateway-client/src/guardian-request-contract.ts]).

    The transaction of a decision runs over the request store, the verification
    sessions and the contact tables together; when any of its writes throws, all of
    them are undone. *)
From S2P Require Import Prelude JsString VerificationSessions VerificationFlow SenderTrust.
From S2P Require Import ContactStore ContactWrites ContactSafety GuardianBinding SessionService.
From S2P Require Import GuardianRequests.

(** ** Outcomes *)

Record ActivateOutcome := {
  ac_sourceChannel : string;
  ac_externalUserId : option string;
  ac_externalChatId : option string;
  ac_contactId : option string;
  ac_displayName : option string;
  ac_username : option string;
  ac_verifiedVia : option string
}.

Record SeedOutcome := {
  se_sourceChannel : string;
  se_externalUserId : string;
  se_displayName : option string
}.

Inductive AclOutcome :=
  | activate_member (o : ActivateOutcome)
  | seed_unverified (o : SeedOutcome)
  | block_sender (o : SeedOutcome) (reason : option string)
  | mint_outbound_session (p : MintParams).

(** [OUTCOME_TYPES_BY_DECISION_STATUS] *)
Definition outcome_fits (status : RequestStatus) (o : AclOutcome) : bool :=
  match status, o with
  | req_approved, (activate_member _ | mint_outbound_session _) => true
  | req_denied, (seed_unverified _ | block_sender _ _) => true
  | _, _ => false
  end.

Record DecideParams := {
  de_id : string;
  de_decision : Resolution;
  de_aclOutcome : option AclOutcome
}.

(** The schema of the call. *)
Definition valid_decision (p : DecideParams) : bool :=
  truthy p.(de_id) && mem p.(de_decision).(rs_status) [req_approved; req_denied]
  && match p.(de_aclOutcome) with
     | Some o => outcome_fits p.(de_decision).(rs_status) o
     | None => true
     end.

Record GatewayState := { gs_requests : RequestStore; gs_sessions : Sessions; gs_db : GatewayDb }.

(** The identifiers and codes drawn, and what the assistant and other requests do
    while the decision waits. *)
Record DecideEnv := {
  dn_newContact : string;
  dn_newChannel : string;
  dn_fresh : nat → string;
  dn_rnd : Randomness;
  dn_lookup : option (option (string * string));
  dn_asking : GatewayState → GatewayState;
  dn_mirroring : GatewayState → GatewayState;
  dn_mirrors : bool;
  dn_answer : MirrorAnswer;
  dn_probing : GatewayDb → GatewayDb
}.

Section Decide.
Context (hash : string → string) (now : Z).

(** The identity the assistant knows, asked for before the transaction. *)
Definition lookupActivationMirrorChannel (env : DecideEnv) (o : ActivateOutcome)
    (st : GatewayState) : option (string * string) * GatewayState :=
  if truthy (default (default "" o.(ac_externalChatId)) o.(ac_externalUserId))
  then (default None env.(dn_lookup), env.(dn_asking) st)
  else (None, st).

Definition on_gateway_db (db : GatewayDb) (st : GatewayState) : GatewayState :=
  {| gs_requests := st.(gs_requests); gs_sessions := st.(gs_sessions); gs_db := db |}.

(** What the writes answer: a code minted, a mirror plan to run after the commit. *)
Record OutcomeWrites := { ow_minted : option Minted; ow_plan : option MirrorPlan }.

Definition no_writes : OutcomeWrites := {| ow_minted := None; ow_plan := None |}.

Definition GatewayTxn (A : Type) : Type := GatewayState → RequestError + A * GatewayState.

(** A store operation inside the transaction. *)
Definition in_db {A} (m : Store A) : GatewayTxn A := λ st,
  match m st.(gs_db) with
  | (inl _, _) => inl outcome_throws
  | (inr a, db) => inr (a, on_gateway_db db st)
  end.

Definition activation_params (o : ActivateOutcome) (address chat : string) : VerifyParams :=
  {| vp_sourceChannel := o.(ac_sourceChannel); vp_externalUserId := address;
     vp_externalChatId := chat; vp_displayName := o.(ac_displayName);
     vp_username := o.(ac_username);
     vp_verifiedVia := Some (default "invite" o.(ac_verifiedVia));
     vp_contactId := o.(ac_contactId); vp_allowRevokedReactivation := true |}.

Definition activation_address (o : ActivateOutcome) : string :=
  default (default "" o.(ac_externalChatId)) o.(ac_externalUserId).
Definition activation_chat (o : ActivateOutcome) : string :=
  default (default "" o.(ac_externalUserId)) o.(ac_externalChatId).

Definition applyActivateMemberOutcome (env : DecideEnv) (o : ActivateOutcome)
    (existing : option (string * string)) : GatewayTxn OutcomeWrites := λ st,
  if negb (truthy (activation_address o)) || negb (truthy (activation_chat o))
  then inl (acl_outcome_failed "activate_member outcome carries no channel identity")
  else
    match in_db (applyVerifiedChannelGatewayWrites now env.(dn_newContact) env.(dn_newChannel)
                   (activation_params o (activation_address o) (activation_chat o)) existing) st with
    | inl e => inl e
    | inr (None, _) => inl (acl_outcome_failed "gateway refused the member activation")
    | inr (Some plan, st) => inr ({| ow_minted := None; ow_plan := Some plan |}, st)
    end.

Definition seed_address (o : SeedOutcome) : string :=
  default (trim o.(se_externalUserId))
    (canonicalizeInboundIdentity o.(se_sourceChannel) o.(se_externalUserId)).

Definition seed_input (o : SeedOutcome) : ChannelInput :=
  {| ci_id := None; ci_type := o.(se_sourceChannel); ci_address := seed_address o;
     ci_isPrimary := Some true; ci_externalChatId := None; ci_status := None;
     ci_policy := None; ci_verifiedAt := None; ci_verifiedVia := None; ci_inviteId := None;
     ci_revokedReason := None; ci_blockedReason := None |}.

Definition seed_params (o : SeedOutcome) : UpsertParams :=
  {| up_id := None; up_displayName := o.(se_displayName); up_autoApproveThreshold := None;
     up_channels := Some [seed_input o] |}.

(** The contact the channel was seeded under. *)
Definition applyContactSeedOutcome (env : DecideEnv) (o : SeedOutcome) : Store string :=
  r ← upsertContactGatewayWrites now env.(dn_newContact) env.(dn_fresh) (seed_params o);
  mret r.1.

Definition getChannelsForContact (contactId : string) (db : GatewayDb) : list ContactChannel :=
  List.filter (owned_by contactId) (channels db).

(** [ORDER BY created_at]: an earlier row first *)
Definition first_created (best : option ContactChannel) (ch : ContactChannel)
    : option ContactChannel :=
  match best with
  | Some b => if (ch.(channel_createdAt) <? b.(channel_createdAt))%Z then Some ch else best
  | None => Some ch
  end.

Definition seeded_channel (o : SeedOutcome) (contactId : string) (db : GatewayDb)
    : option ContactChannel :=
  foldl first_created None
    (List.filter (by_key o.(se_sourceChannel) (seed_address o))
       (getChannelsForContact contactId db)).

(** [Some true]: revoked; [Some false], [None]: the row is missing. *)
Definition applyBlockOutcome (env : DecideEnv) (o : SeedOutcome) (reason : option string)
    : GatewayTxn OutcomeWrites := λ st,
  match in_db (applyContactSeedOutcome env o) st with
  | inl e => inl e
  | inr (contactId, st) =>
      match seeded_channel o contactId st.(gs_db) with
      | None => inl (acl_outcome_failed "block outcome produced no gateway channel row to revoke")
      | Some ch =>
          match in_db (markChannelRevokedById now ch.(channel_id) reason) st with
          | inl e => inl e
          | inr (None, _) =>
              inl (acl_outcome_failed "block outcome: gateway channel row missing at revoke")
          | inr (Some _, st) => inr (no_writes, st)
          end
      end
  end.

Definition applyAclOutcomeGatewayWrites (env : DecideEnv) (o : AclOutcome)
    (existing : option (string * string)) : GatewayTxn OutcomeWrites := λ st,
  match o with
  | activate_member o => applyActivateMemberOutcome env o existing st
  | seed_unverified o =>
      match in_db (applyContactSeedOutcome env o) st with
      | inl e => inl e
      | inr (_, st) => inr (no_writes, st)
      end
  | block_sender o reason => applyBlockOutcome env o reason st
  | mint_outbound_session p =>
      match createOutboundSessionGuarded hash now env.(dn_rnd) p st.(gs_sessions) with
      | (_, inl _) => inl (acl_outcome_failed "outbound session mint conflicted")
      | (_, inr None) => inl outcome_throws
      | (t, inr (Some m)) =>
          inr ({| ow_minted := Some m; ow_plan := None |},
               {| gs_requests := st.(gs_requests); gs_sessions := t; gs_db := st.(gs_db) |})
      end
  end.

(** The transaction: [inr None] when the compare-and-swap misses. *)
Definition decide_txn (env : DecideEnv) (p : DecideParams) (existing : option (string * string))
    (st : GatewayState) : RequestError + option (GuardianRequest * OutcomeWrites) * GatewayState :=
  match resolveGuardianRequest now p.(de_id) req_pending p.(de_decision) true st.(gs_requests) with
  | inl e => inl e
  | inr (None, _) => inr (None, st)
  | inr (Some r, rs) =>
      let st := {| gs_requests := rs; gs_sessions := st.(gs_sessions); gs_db := st.(gs_db) |} in
      match p.(de_aclOutcome) with
      | None => inr (Some (r, no_writes), st)
      | Some o =>
          match applyAclOutcomeGatewayWrites env o existing st with
          | inl e => inl e
          | inr (w, st) => inr (Some (r, w), st)
          end
      end
  end.

(** After the commit, best-effort: the mirror, then the collection of the contact that
    lost the channel. *)
Definition post_commit (env : DecideEnv) (w : OutcomeWrites) (st : GatewayState) : GatewayState :=
  match w.(ow_plan) with
  | None => st
  | Some plan =>
      let st := env.(dn_mirroring) st in
      match env.(dn_mirrors), plan.(mp_orphanedDonorContactId) with
      | true, Some donor =>
          on_gateway_db (deleteContactIfOrphaned env.(dn_answer) env.(dn_probing) donor
                           st.(gs_db)).2 st
      | _, _ => st
      end
  end.

Definition decide_lookup (env : DecideEnv) (p : DecideParams) (st : GatewayState)
    : option (string * string) * GatewayState :=
  match p.(de_aclOutcome) with
  | Some (activate_member o) => lookupActivationMirrorChannel env o st
  | _ => (None, st)
  end.

Definition decideGuardianRequest (env : DecideEnv) (p : DecideParams) (st : GatewayState)
    : (RequestError + option (GuardianRequest * option Minted)) * GatewayState :=
  let '(existing, st) := decide_lookup env p st in
  match decide_txn env p existing st with
  | inl e => (inl e, st)
  | inr (None, st) => (inr None, st)
  | inr (Some (r, w), st) => (inr (Some (r, w.(ow_minted))), post_commit env w st)
  end.
End Decide.

(** ** Each outcome lands *)

Lemma bind_inv {A B} (m : Store A) (k : A → Store B) db b db' :
  (m ≫= k) db = (inr b, db') → ∃ a db1, m db = (inr a, db1) ∧ k a db1 = (inr b, db').
Proof.
  unfold mbind, Store_bind. destruct (m db) as [[e|a] db1]; [done|]. eauto.
Qed.

Lemma update_channels_inv p sets db ids db' :
  update_channels p sets db = (inr ids, db') →
  channels db' = (λ ch, if p ch then apply_sets sets ch else ch) <$> channels db.
Proof. unfold update_channels, commit. destruct (constraints _); [|done]. by intros [= _ <-]. Qed.

Lemma in_db_inv {A} (m : Store A) st a st' :
  in_db m st = inr (a, st') →
  ∃ db', m st.(gs_db) = (inr a, db') ∧ st' = on_gateway_db db' st.
Proof. unfold in_db. destruct (m _) as [[e|x] db']; [done|]. intros [= -> <-]. eauto. Qed.

(** After a channel was synced, its key is in the table. *)
Lemma sync_channel_exists now i contactId ch db db' :
  sync_channel now i contactId ch db = (inr (), db') →
  ∃ x, x ∈ channels db' ∧ by_key ch.(ci_type) ch.(ci_address) x = true.
Proof.
  unfold sync_channel. intros (c & db1 & [= <- <-] & H)%bind_inv.
  destruct (find_first _ _) as [x|] eqn:Ef.
  - apply find_first_Some in Ef as [Hx [_ Hk]%andb_true_iff].
    apply bind_inv in H as (ids & db1 & Hu%update_channels_inv & [= <-]).
    exists (apply_sets (sync_sets now x ch) x). rewrite Hu. split.
    + apply list_elem_of_fmap. exists x. by rewrite (proj2 (by_id_true _ _) eq_refl).
    + destruct (apply_sets_key (sync_sets now x ch) x) as (_ & _ & E); [apply sync_sets_ok|].
      apply by_key_true. apply by_key_true in Hk. by rewrite <- Hk, (exact_logical _ _ E).
  - apply bind_inv in H as (c & db1 & [= <- <-] & H).
    destruct (find_first (by_key _ _) _) as [x|] eqn:Ef2.
    + revert H. intros [= <-]. apply find_first_Some in Ef2 as [? ?]. eauto.
    + unfold insert_channel, commit in H. destruct (constraints _); [|done]. injection H as <-.
      eexists. split; [cbn; apply elem_of_app; right; by left|]. by apply by_key_true.
Qed.

Definition seed_key (o : SeedOutcome) : string * string :=
  (o.(se_sourceChannel), (canonical_input (seed_input o)).(ci_address)).

Lemma seed_lands now env o contactId db db' :
  db_wf db → applyContactSeedOutcome now env o db = (inr contactId, db') →
  db_wf db' ∧ rows_kept (channel_le false) db db'
  ∧ ∃ x, x ∈ channels db' ∧ by_key (seed_key o).1 (seed_key o).2 x = true.
Proof.
  intros Hwf Hs. pose proof (keeps_upsert now env.(dn_newContact) env.(dn_fresh) (seed_params o) db Hwf)
    as Hkeep. apply bind_inv in Hs as (r & db1 & Hu & [= _ <-]). rewrite Hu in Hkeep.
  destruct Hkeep as [W K]. split_and!; [done..|]. clear W K.
  apply bind_inv in Hu as (r' & db2 & _ & Hs). apply bind_inv in Hs as ([] & db3 & Hs & [= _ <-]).
  apply bind_inv in Hs as ([] & db4 & Hs & [= <-]). by apply sync_channel_exists in Hs.
Qed.

Lemma revoke_lands now ch reason db c db' :
  db_wf db → ch ∈ channels db →
  markChannelRevokedById now ch.(channel_id) reason db = (inr (Some c), db') →
  ∃ x, x ∈ channels db' ∧ exact_key x = exact_key ch
       ∧ x.(channel_status) ∈ ["revoked"; "blocked"].
Proof.
  intros Hwf Hin. unfold markChannelRevokedById. intros (f & db1 & [= <- <-] & H)%bind_inv.
  destruct (find_first _ _) as [y|] eqn:Ef; [|done]. apply find_first_Some in Ef as [Hy Hyi%by_id_true].
  pose proof (channel_by_id db y ch Hwf Hy Hin Hyi) as ->. cbn [unless_none] in H.
  apply bind_inv in H as (k & db1 & [= <- <-] & H). destruct (bool_decide _ && _); [done|].
  destruct (String.eqb_spec ch.(channel_status) "blocked") as [Hb|_].
  { revert H. intros [= _ <-]. exists ch. rewrite Hb. split_and!; [done..|]. right. by left. }
  destruct (String.eqb_spec ch.(channel_status) "revoked") as [Hr|_]; simpl in H.
  - case_bool_decide.
    { revert H. intros [= _ <-]. exists ch. rewrite Hr. split_and!; [done..|]. by left. }
    apply bind_inv in H as (ids & db1 & Hu%update_channels_inv & H).
    apply bind_inv in H as (a & db2 & [= _ <-] & [= _ <-]). rewrite Hu. eexists. split.
    + apply list_elem_of_fmap. exists ch. by rewrite (proj2 (by_id_true _ _) eq_refl).
    + split; [done|]. by left.
  - apply bind_inv in H as (ids & db1 & Hu%update_channels_inv & H).
    apply bind_inv in H as (a & db2 & [= _ <-] & [= _ <-]). rewrite Hu. eexists. split.
    + apply list_elem_of_fmap. exists ch. by rewrite (proj2 (by_id_true _ _) eq_refl).
    + split; [done|]. by left.
Qed.

Lemma first_created_elem chs best : 
  match foldl first_created best chs with
  | Some c => Some c = best ∨ c ∈ chs
  | None => best = None
  end.
Proof.
  revert best. induction chs as [|ch chs IH]; intros best; simpl; [destruct best; auto|].
  specialize (IH (first_created best ch)). destruct (foldl _ _ _) as [c|].
  - destruct IH as [IH|]; [|right; by right]. unfold first_created in IH.
    destruct best as [b|]; [destruct (_ <? _)%Z|]; simplify_eq; auto; right; by left.
  - unfold first_created in IH. destruct best as [b|]; [|done]. by destruct (_ <? _)%Z.
Qed.

(** The state after the writes of an outcome. *)
Definition outcome_landed (hash : string → string) (now : Z) (o : option AclOutcome)
    (existing : option (string * string)) (env : DecideEnv) (w : OutcomeWrites)
    (st st' : GatewayState) : Prop :=
  match o with
  | None => w = no_writes ∧ st'.(gs_db) = st.(gs_db) ∧ st'.(gs_sessions) = st.(gs_sessions)
  | Some (activate_member o) =>
      let p := activation_params o (activation_address o) (activation_chat o) in
      let gwRow := getGatewayChannelByKey p.(vp_sourceChannel) (vp_address p) st.(gs_db) in
      st'.(gs_sessions) = st.(gs_sessions)
      ∧ (∀ old, gwRow = Some old → old.(channel_status) ≠ "blocked")
      ∧ others_kept p.(vp_sourceChannel) (vp_address p) st.(gs_db) st'.(gs_db)
      ∧ ∃ ch, getGatewayChannelByKey p.(vp_sourceChannel) (vp_address p) st'.(gs_db) = Some ch
              ∧ verified_channel env.(dn_newContact) p existing gwRow ch
  | Some (seed_unverified o) =>
      st'.(gs_sessions) = st.(gs_sessions)
      ∧ db_wf st'.(gs_db) ∧ rows_kept (channel_le false) st.(gs_db) st'.(gs_db)
      ∧ ∃ x, x ∈ channels st'.(gs_db) ∧ by_key (seed_key o).1 (seed_key o).2 x = true
  | Some (block_sender o _) =>
      st'.(gs_sessions) = st.(gs_sessions)
      ∧ db_wf st'.(gs_db) ∧ rows_kept (channel_le false) st.(gs_db) st'.(gs_db)
      ∧ ∃ x, x ∈ channels st'.(gs_db)
             ∧ by_key o.(se_sourceChannel) (seed_address o) x = true
             ∧ x.(channel_status) ∈ ["revoked"; "blocked"]
  | Some (mint_outbound_session p) =>
      st'.(gs_db) = st.(gs_db)
      ∧ ∃ m r, w.(ow_minted) = Some m ∧ r ∈ st'.(gs_sessions)
          ∧ r.(id) = m.(minted_sessionId) ∧ r.(channel) = p.(mint_channel)
          ∧ r.(challengeHash) = hash m.(minted_secret) ∧ outbound_live r = true
          ∧ r.(expiresAt) = (now + CHALLENGE_TTL_MS)%Z
  end.

(** The mirror and the fresh identifier do not contradict the gateway's table. *)
Definition activation_fits (env : DecideEnv) (existing : option (string * string))
    (o : option AclOutcome) (st : GatewayState) : Prop :=
  match o with
  | Some (activate_member o) =>
      let p := activation_params o (activation_address o) (activation_chat o) in
      mirror_agrees st.(gs_db) p.(vp_sourceChannel) (vp_address p) existing
      ∧ (existing = None → ∀ ch, ch ∈ channels st.(gs_db) → ch.(channel_id) ≠ env.(dn_newChannel))
  | _ => True
  end.

Lemma activation_lands hash now env o existing st w st' :
  db_wf st.(gs_db) → activation_fits env existing (Some (activate_member o)) st →
  applyActivateMemberOutcome now env o existing st = inr (w, st') →
  outcome_landed hash now (Some (activate_member o)) existing env w st st'.
Proof.
  intros Hwf [Hm Hf]. unfold applyActivateMemberOutcome. destruct (_ || _); [done|].
  set (p := activation_params o _ _) in *. unfold in_db.
  pose proof (verify_outcome now env.(dn_newContact) env.(dn_newChannel) p existing st.(gs_db)
    Hwf Hm Hf) as H.
  destruct (applyVerifiedChannelGatewayWrites _ _ _ _ _ _) as [[e|[plan|]] db']; [done| |done].
  destruct H as (Hst & Hk & Hch & _). intros [= <- <-]. split_and!; try done.
  intros old Ho Hb. unfold refused_by_status in Hst. fold p in Ho. rewrite Ho in Hst.
  unfold reactivatable in Hst. by rewrite Hb in Hst.
Qed.

Lemma block_lands hash now env o reason existing st w st' :
  db_wf st.(gs_db) → applyBlockOutcome now env o reason st = inr (w, st') →
  outcome_landed hash now (Some (block_sender o reason)) existing env w st st'.
Proof.
  intros Hwf. unfold applyBlockOutcome.
  destruct (in_db (applyContactSeedOutcome now env o) st) as [e|[i st1]] eqn:Es; [done|].
  apply in_db_inv in Es as (db1 & Es & ->). apply seed_lands in Es as (W1 & K1 & _); [|done].
  unfold seeded_channel. pose proof (first_created_elem
    (List.filter (by_key o.(se_sourceChannel) (seed_address o)) (getChannelsForContact i db1)) None)
    as Hfc. cbn [gs_db on_gateway_db]. destruct (foldl _ _ _) as [ch|]; [|done].
  destruct Hfc as [|[Hch Hk]%elem_of_lfilter]; [done|].
  apply elem_of_lfilter in Hch as [Hch _].
  destruct (in_db (markChannelRevokedById now ch.(channel_id) reason) _) as [e|[[c|] st2]] eqn:Er;
    [done| |done].
  apply in_db_inv in Er as (db2 & Er & ->). intros [= <- <-]. cbn [gs_db on_gateway_db] in *.
  pose proof (keeps_revoke now ch.(channel_id) reason db1 W1) as [W2 K2]. rewrite Er in W2, K2.
  destruct (revoke_lands _ _ _ _ _ _ W1 Hch Er) as (x & Hx & Ex & Hs).
  split_and!; [done|done|by etrans|]. exists x. split_and!; [done| |done].
  apply by_key_true. apply by_key_true in Hk. by rewrite (exact_logical _ _ Ex).
Qed.

Lemma mint_lands hash now rnd p t t' m :
  createOutboundSessionGuarded hash now rnd p t = (t', inr (Some m)) →
  ∃ r, r ∈ t' ∧ r.(id) = m.(minted_sessionId) ∧ r.(channel) = p.(mint_channel)
    ∧ r.(challengeHash) = hash m.(minted_secret) ∧ outbound_live r = true
    ∧ r.(expiresAt) = (now + CHALLENGE_TTL_MS)%Z.
Proof.
  assert (∀ q t, q.(mint_channel) = p.(mint_channel) → createOutboundSession hash now rnd q t = (t', Some m) →
    ∃ r, r ∈ t' ∧ r.(id) = m.(minted_sessionId) ∧ r.(channel) = p.(mint_channel)
    ∧ r.(challengeHash) = hash m.(minted_secret) ∧ outbound_live r = true
    ∧ r.(expiresAt) = (now + CHALLENGE_TTL_MS)%Z) as Hmint.
  { intros q t0 Hq. unfold createOutboundSession, VerificationSessions.createOutboundSession, insert_row.
    destruct (existsb _ _); [done|]. intros [= <- <-].
    exists (outbound_row (outbound_params hash now rnd q) now).
    split_and!; try done; [apply elem_of_app; right; by left|].
    unfold outbound_live. simpl. by destruct (is_unbound q). }
  unfold createOutboundSessionGuarded.
  destruct (match p.(mint_ifNoneActiveForExternalUserId) with Some _ => _ | None => _ end); [done|].
  destruct p.(mint_requireSourceSessionPending).
  - destruct (claimBootstrapSession _ _ _ _) as [t1 [s0|]]; [|done].
    destruct (createOutboundSession _ _ _ _ _) as [t2 [m'|]] eqn:E; [|done]. intros [= -> ->].
    by eapply Hmint in E.
  - destruct (createOutboundSession _ _ _ _ _) as [t2 [m'|]] eqn:E; [|done]. intros [= -> ->].
    by eapply Hmint in E.
Qed.

Lemma outcome_lands hash now env o existing st w st' :
  db_wf st.(gs_db) → activation_fits env existing (Some o) st →
  applyAclOutcomeGatewayWrites hash now env o existing st = inr (w, st') →
  st'.(gs_requests) = st.(gs_requests) ∧ outcome_landed hash now (Some o) existing env w st st'.
Proof.
  intros Hwf Hfit H. destruct o as [o|o|o reason|p]; cbn [applyAclOutcomeGatewayWrites] in H.
  - split; [|by apply activation_lands]. revert H. unfold applyActivateMemberOutcome.
    destruct (_ || _); [done|]. destruct (in_db _ _) as [e|[[plan|] st1]] eqn:E; [done| |done].
    apply in_db_inv in E as (db1 & _ & ->). by intros [= _ <-].
  - destruct (in_db _ _) as [e|[i st1]] eqn:E; [done|]. injection H as <- <-.
    apply in_db_inv in E as (db1 & E & ->). split; [done|]. split; [done|].
    by apply seed_lands in E.
  - split; [|by apply block_lands]. revert H. unfold applyBlockOutcome.
    destruct (in_db (applyContactSeedOutcome _ _ _) _) as [e|[i st1]] eqn:E; [done|].
    apply in_db_inv in E as (db1 & _ & ->). destruct (seeded_channel _ _ _) as [ch|]; [|done].
    destruct (in_db _ _) as [e|[[c|] st2]] eqn:E2; [done| |done].
    apply in_db_inv in E2 as (db2 & _ & ->). by intros [= _ <-].
  - destruct (createOutboundSessionGuarded _ _ _ _ _) as [t [c|[m|]]] eqn:E; [done| |done].
    injection H as <- <-. split; [done|]. split; [done|].
    destruct (mint_lands _ _ _ _ _ _ _ E) as (r & ?). by exists m, r.
Qed.

(** C4: A decision is all or nothing. When the call throws or loses the arbitration,
    every table is as it was, and a decision that was refused was on a request that
    was settled, unknown or past its deadline. When it applies, the request was
    pending and in time, it alone changed among the requests, and the outcome is in
    the tables in the same commit: the activated sender has an active channel (and was
    not blocked), the seeded one a channel, the blocked one a revoked or blocked
    channel, the minted code a live session that it matches; what follows the commit
    is the best-effort mirror. *)
Theorem decision_atomic hash now env p st :
  let existing := (decide_lookup env p st).1 in
  let st0 := (decide_lookup env p st).2 in
  store_ok st0.(gs_requests) → db_wf st0.(gs_db) →
  activation_fits env existing p.(de_aclOutcome) st0 →
  match decideGuardianRequest hash now env p st with
  | (inl _, st') => st' = st0
  | (inr None, st') =>
      st' = st0 ∧ ∀ r, getGuardianRequest p.(de_id) st0.(gs_requests) = Some r →
                    is_pending r = false ∨ unexpired now r = false
  | (inr (Some (r, m)), st') => ∃ r0 w committed,
      getGuardianRequest p.(de_id) st0.(gs_requests) = Some r0
      ∧ is_pending r0 = true ∧ unexpired now r0 = true
      ∧ r = patched now (resolution_patch p.(de_decision)) r0
      ∧ committed.(gs_requests)
        = update_requests now (is_request p.(de_id)) (resolution_patch p.(de_decision))
            st0.(gs_requests)
      ∧ outcome_landed hash now p.(de_aclOutcome) existing env w st0 committed
      ∧ m = w.(ow_minted) ∧ st' = post_commit env w committed
  end.
Proof.
  intros existing st0 Hok Hwf Hfit. unfold decideGuardianRequest.
  assert (decide_lookup env p st = (existing, st0)) as -> by apply surjective_pairing.
  unfold decide_txn.
  destruct (resolveGuardianRequest _ _ _ _ _ _) as [e|[[r|] rs]] eqn:E; [done| |].
  - destruct (resolve_applied _ _ _ _ _ _ _ Hok E) as
      (r0 & Hr0 & Hi & Hs & Hu & -> & _ & _ & ->).
    assert (is_pending r0 = true) as Hp by by apply bool_decide_eq_true.
    assert (getGuardianRequest p.(de_id) st0.(gs_requests) = Some r0) as Hget
      by by apply get_request_elem.
    destruct p.(de_aclOutcome) as [o|].
    + set (st1 := {| gs_requests := _ |}).
      destruct (applyAclOutcomeGatewayWrites _ _ _ _ _ _) as [e|[w st2]] eqn:Ea; [done|].
      apply outcome_lands in Ea as [Er Hl]; [|done|by destruct o].
      exists r0, w, st2. split_and!; try done. by apply Hu.
    + eexists r0, no_writes, {| gs_requests := _; gs_sessions := _; gs_db := _ |}.
      split_and!; try done. by apply Hu.
  - split; [done|]. intros r Hget. apply get_request_elem in Hget as [Hr Hi]; [|done].
    destruct (is_pending r) eqn:Hp; [|by left]. destruct (unexpired now r) eqn:Hu; [|by right].
    apply bool_decide_eq_true in Hp.
    destruct (proj2 (resolve_result now p.(de_id) p.(de_decision) st0.(gs_requests) r Hok Hr Hi)
      (conj Hp Hu)) as (r' & s' & E'). congruence.
Qed.

(** ** What the decision makes of the sender *)

(** The row of a sender is the member that its trust is read from. *)
Lemma member_of_row db type s ch :
  db_wf db → truthy s = true → ch ∈ channels db → by_key type s ch = true →
  ∃ c, memberRow type (Some s) db.(acl) = Some (c, ch) ∧ c ∈ contacts db
       ∧ c.(contact_id) = ch.(channel_contactId).
Proof.
  intros Hwf Ht Hin Hk. simpl. rewrite Ht.
  pose proof (wf_owners _ Hwf ch Hin) as (c & Ec & Hc)%has_contact_elem%list_elem_of_fmap.
  assert ((c, ch) ∈ joined db.(acl)) as Hj by by apply joined_elem.
  exists c. split; [|by split]. destruct (find_first _ _) as [[c' ch']|] eqn:E.
  - apply find_first_Some in E as [Hj' Hm]. apply joined_elem in Hj' as (Hin' & Hc' & Eid); [|done].
    assert (ch' = ch) as ->.
    { apply (channel_by_key db); [done..|]. apply by_key_true in Hk. rewrite Hk.
      by apply by_key_true. }
    do 2 f_equal. apply (NoDup_fmap_inv contact_id (contacts db)); [apply Hwf|done..|congruence].
  - rewrite find_first_None in E. specialize (E _ Hj). unfold member_match in E. simpl in E.
    unfold by_key in Hk. congruence.
Qed.

(** A guardian is recognised by this sender only on the sender's own row. *)
Lemma guardian_is_row db type s ch :
  db_wf db → ch ∈ channels db → by_key type s ch = true →
  isGuardian (guardianRow type db.(acl)) (Some s) = true →
  ch.(channel_status) = "active"
  ∧ ∃ c, c ∈ contacts db ∧ c.(contact_id) = ch.(channel_contactId) ∧ c.(contact_role) = "guardian".
Proof.
  intros Hwf Hin Hk. unfold isGuardian. destruct (guardianRow _ _) as [[c g]|] eqn:E; [|done].
  intros [_ Ha]%andb_true_iff. apply guardianRow_Some in E as [Hj Hg].
  apply joined_elem in Hj as (Hin' & Hc & Hid); [|done].
  unfold active_guardian_on in Hg. simpl in *. rewrite !andb_true_iff, !String.eqb_eq in Hg.
  destruct Hg as [[Hr Ht] Hs].
  assert (g = ch) as ->; [|eauto].
  apply (channel_by_key db); [done..|]. apply by_key_true in Hk. rewrite Hk.
  apply by_key_true. unfold by_key. by rewrite Ht, String.eqb_refl.
Qed.

Lemma verdict_of_row tokens now ss db channelType actor cached type address s ch :
  db_wf db → memberIdentity channelType actor = (type, address) →
  canonicalSenderIdFor type address = Some s → ch ∈ channels db → by_key type s ch = true →
  let v := (resolveTrustVerdict tokens now ss db.(acl) channelType actor cached).2 in
  (live_status ch.(channel_status) = false → v.(tv_trustClass) = "unknown")
  ∧ (ch.(channel_status) = "active" →
     (∀ c, c ∈ contacts db → c.(contact_id) = ch.(channel_contactId) →
        c.(contact_role) ≠ "guardian") →
     v.(tv_trustClass) = "trusted_contact" ∧ v.(tv_status) = Some "active"
     ∧ v.(tv_policy) = Some ch.(channel_policy)).
Proof.
  intros Hwf Hid Hs Hin Hk v. subst v. unfold resolveTrustVerdict. rewrite Hid, Hs.
  destruct (member_of_row db type s ch Hwf) as (c & -> & Hc & Hcid);
    [by eapply canonical_truthy|done..|].
  pose proof (guardian_is_row db type s ch Hwf Hin Hk) as Hg.
  set (is_guardian := isGuardian _ _) in *. split.
  - intros Hl. assert (is_guardian = false) as ->.
    { apply not_true_iff_false. intros Hgt. destruct (Hg Hgt) as [Ha _]. by rewrite Ha in Hl. }
    unfold guardianIdentityMatch, memberDeniedByStatus. simpl. rewrite Hl. simpl.
    unfold live_status in Hl. rewrite mem_false, !not_elem_of_cons in Hl.
    destruct Hl as (H1 & H2 & H3 & _). unfold classify_sender. simpl.
    rewrite (proj2 (String.eqb_neq _ _) H1), (proj2 (String.eqb_neq _ _) H2),
      (proj2 (String.eqb_neq _ _) H3). by destruct (guardianIntegrityState _ _ _ _).
  - intros Ha Hno. assert (is_guardian = false) as ->.
    { apply not_true_iff_false. intros Hgt. destruct (Hg Hgt) as (_ & x & Hx & Ex & Hr).
      by apply (Hno x). }
    pose proof (Hno c Hc Hcid) as Hr.
    unfold guardianIdentityMatch. simpl. rewrite (proj2 (String.eqb_neq _ _) Hr), andb_false_r.
    unfold classify_sender. simpl. rewrite Ha. simpl.
    destruct (guardianIntegrityState _ _ _ _). simpl. by rewrite Ha.
Qed.

(** What the gateway's trust resolver answers on a sender, for the channel and actor of
    a message that canonicalise to [s]. *)
Definition reads_sender (channelType : string) (actor : option string) (type s : string) : Prop :=
  ∃ address, memberIdentity channelType actor = (type, address)
             ∧ canonicalSenderIdFor type address = Some s.

(** C5: A decision changes whom the gateway trusts, in the commit it is made in: after
    an approval that activates a member the resolver answers [trusted_contact] with an
    active and allowed channel on that sender (unless the contact is a guardian's), and
    after a denial that blocks one it answers [unknown]. *)
Theorem decision_decides_trust hash now env p existing st r w st1 tokens now' channelType actor
    cached s :
  let verdict := (resolveTrustVerdict tokens now' st1.(gs_sessions) st1.(gs_db).(acl)
                    channelType actor cached).2 in
  store_ok st.(gs_requests) → db_wf st.(gs_db) →
  activation_fits env existing p.(de_aclOutcome) st →
  valid_decision p = true →
  decide_txn hash now env p existing st = inr (Some (r, w), st1) →
  match p.(de_aclOutcome) with
  | Some (activate_member o) =>
      let v := activation_params o (activation_address o) (activation_chat o) in
      reads_sender channelType actor o.(ac_sourceChannel) s → s = vp_address v →
      (∀ c ch, (c, ch) ∈ joined st1.(gs_db).(acl) →
         by_key o.(ac_sourceChannel) s ch = true → c.(contact_role) ≠ "guardian") →
      r.(gr_status) = req_approved ∧ verdict.(tv_trustClass) = "trusted_contact"
      ∧ verdict.(tv_status) = Some "active" ∧ verdict.(tv_policy) = Some "allow"
  | Some (block_sender o _) =>
      reads_sender channelType actor o.(se_sourceChannel) s → s = seed_address o →
      r.(gr_status) = req_denied ∧ verdict.(tv_trustClass) = "unknown"
  | _ => True
  end.
Proof.
  intros verdict Hok Hwf Hfit Hvalid Htxn. destruct p.(de_aclOutcome) as [o|] eqn:Eo; [|done].
  unfold decide_txn in Htxn. rewrite Eo in Htxn.
  destruct (resolveGuardianRequest _ _ _ _ _ _) as [e|[[r'|] rs]] eqn:E; [done| |done].
  destruct (resolve_applied _ _ _ _ _ _ _ Hok E) as (r0 & _ & _ & _ & _ & -> & _).
  destruct (applyAclOutcomeGatewayWrites _ _ _ _ _ _) as [e|[w' st2]] eqn:Ea; [done|].
  injection Htxn as <- <- <-. apply outcome_lands in Ea as [_ Hl]; [|done|by destruct o].
  unfold valid_decision in Hvalid. rewrite Eo in Hvalid.
  apply andb_true_iff in Hvalid as [_ Hfits].
  destruct o as [o|o|o reason|m]; try done; simpl in Hl |- *.
  - destruct Hl as (_ & _ & Hk & ch & Hch & Hv). intros (address & Hid & Hs) -> Hno.
    pose proof (kept_wf _ _ _ _ Hk) as Hwf2. apply find_by_key in Hch as [Hin Hkey]; [|done].
    destruct (verdict_of_row tokens now' st2.(gs_sessions) st2.(gs_db) channelType actor cached _ _ _ ch
                Hwf2 Hid Hs Hin Hkey) as [_ Hact].
    destruct Hact as (? & ? & Hp); [apply Hv| |].
    { intros c Hc Ec. apply (Hno c ch); [by apply joined_elem|done]. }
    split; [by destruct (rs_status _)|]. split_and!; [done..|]. by rewrite (vc_policy _ _ _ _ _ Hv) in Hp.
  - destruct Hl as (_ & Hwf2 & _ & ch & Hin & Hkey & Hst). intros (address & Hid & Hs) ->.
    destruct (verdict_of_row tokens now' st2.(gs_sessions) st2.(gs_db) channelType actor cached _ _ _ ch
                Hwf2 Hid Hs Hin Hkey) as [Hun _].
    split; [by destruct (rs_status _)|]. apply Hun.
    rewrite !elem_of_cons, elem_of_nil in Hst. by destruct Hst as [->|[->|[]]].
Qed.

(** ** Concrete instances *)

Definition sample_gateway_state : GatewayState :=
  {| gs_requests := sample_requests; gs_sessions := []; gs_db := sample_db |}.

Definition sample_decide_env (lookup : option (string * string)) : DecideEnv :=
  {| dn_newContact := "n"; dn_newChannel := "k"; dn_fresh := λ _, "f";
     dn_rnd := sample_rnd "s" ""; dn_lookup := Some lookup; dn_asking := λ st, st;
     dn_mirroring := λ st, st; dn_mirrors := false; dn_answer := mirror_unreachable;
     dn_probing := λ db, db |}.

Definition approve_member (request user : string) : DecideParams :=
  {| de_id := request; de_decision := approve;
     de_aclOutcome := Some (activate_member
       {| ac_sourceChannel := "telegram"; ac_externalUserId := Some user;
          ac_externalChatId := None; ac_contactId := None; ac_displayName := None;
          ac_username := None; ac_verifiedVia := None |}) |}.

Lemma not_guardian_check db type sender c ch :
  forallb (λ row, implb (by_key type sender row.2) (negb (String.eqb row.1.(contact_role) "guardian")))
    (joined db.(acl)) = true →
  (c, ch) ∈ joined db.(acl) → by_key type sender ch = true → c.(contact_role) ≠ "guardian".
Proof.
  rewrite forallb_true. intros H Hj Hk. specialize (H _ Hj). simpl in H. rewrite Hk in H.
  by apply negb_true_iff, String.eqb_neq in H.
Qed.

Lemma decision_atomic_witness :
  ∃ r m st' r0, decideGuardianRequest sample_hash 5 (sample_decide_env (Some ("c4", "s")))
                  (approve_member "r1" "99") sample_gateway_state = (inr (Some (r, m)), st')
  ∧ getGuardianRequest "r1" sample_requests = Some r0
  ∧ r = patched 5 (resolution_patch approve) r0.
Proof.
  pose proof (decision_atomic sample_hash 5 (sample_decide_env (Some ("c4", "s")))
    (approve_member "r1" "99") sample_gateway_state sample_requests_ok sample_db_wf) as H.
  destruct (decideGuardianRequest sample_hash 5 (sample_decide_env (Some ("c4", "s")))
    (approve_member "r1" "99") sample_gateway_state) as [[e|[[r m]|]] st'] eqn:E;
    [vm_compute in E; discriminate E| |vm_compute in E; discriminate E].
  destruct H as (r0 & w & committed & Hget & _ & _ & Hr & _).
  - split; [apply mirror_agrees_check; vm_compute; reflexivity|discriminate].
  - exists r, m, st', r0. split; [reflexivity|]. split; [exact Hget|exact Hr].
Defined.

Lemma decision_decides_trust_witness :
  ∃ r w st1, decide_txn sample_hash 5 (sample_decide_env (Some ("c4", "s")))
               (approve_member "r1" "99") (Some ("c4", "s")) sample_gateway_state
             = inr (Some (r, w), st1)
  ∧ (resolveTrustVerdict true 6 st1.(gs_sessions) st1.(gs_db).(acl) "telegram" (Some "99") None)
      .2.(tv_trustClass) = "trusted_contact".
Proof.
  destruct (decide_txn sample_hash 5 (sample_decide_env (Some ("c4", "s")))
               (approve_member "r1" "99") (Some ("c4", "s")) sample_gateway_state)
    as [e|[[[r w]|] st1]] eqn:E; [vm_compute in E; discriminate E| |vm_compute in E; discriminate E].
  exists r, w, st1. split; [reflexivity|].
  apply (decision_decides_trust sample_hash 5 (sample_decide_env (Some ("c4", "s")))
    (approve_member "r1" "99") (Some ("c4", "s")) sample_gateway_state r w st1 true 6 "telegram"
    (Some "99") None "99" sample_requests_ok sample_db_wf).
  - split; [apply mirror_agrees_check; vm_compute; reflexivity|discriminate].
  - reflexivity.
  - exact E.
  - exists (Some "99"). split; reflexivity.
  - reflexivity.
  - intros c ch Hj Hk. apply (not_guardian_check st1.(gs_db) "telegram" "99" c ch); [|exact Hj|exact Hk].
    vm_compute in E. injection E as _ _ <-. vm_compute. reflexivity.
Defined.
