(* ===== verification/Admission.v ===== *)
(** Whether an inbound message starts a turn. The per-channel floors
    ([packages/gateway-client/src/admission-policy-contract.ts],
    [gateway/src/db/admission-policy-store.ts], [db/seed-admission-policy.ts],
    [risk/admission-policy-cache.ts], [http/routes/channel-admission-policy.ts]);
    the gateway's gate ([gateway/src/handlers/handle-inbound.ts],
    [routing/resolve-assistant.ts]); the daemon's two stages
    ([assistant/src/runtime/routes/inbound-stages/acl-enforcement.ts] and
    [admission-policy.ts]) and its intercept of reactions
    ([reaction-intercept.ts]) as [inbound-message-handler.ts] runs them.

    Arguments: the feature flags, the intercept of invites, for a denied sender
    what the verification, notification and delivery services answer, and for a
    reaction the pressure on the disk, the deliveries and messages stored, and
    whether its turn can be rendered and dispatched. *)
From S2P Require Import Prelude JsString JsMap VerificationSessions VerificationFlow SenderTrust.

(** ** Floors *)

Inductive AdmissionPolicy := no_one | guardian_only | trusted_contacts | any_contact | strangers.

#[export] Instance AdmissionPolicy_eq_dec : EqDecision AdmissionPolicy.
Proof. solve_decision. Defined.

(** [isAdmissionPolicy] *)
Definition admission_policy_of (s : string) : option AdmissionPolicy :=
  if String.eqb s "no_one" then Some no_one
  else if String.eqb s "guardian_only" then Some guardian_only
  else if String.eqb s "trusted_contacts" then Some trusted_contacts
  else if String.eqb s "any_contact" then Some any_contact
  else if String.eqb s "strangers" then Some strangers
  else None.

Definition policy_name (p : AdmissionPolicy) : string :=
  match p with
  | no_one => "no_one" | guardian_only => "guardian_only"
  | trusted_contacts => "trusted_contacts" | any_contact => "any_contact"
  | strangers => "strangers"
  end.

Definition ADMISSION_POLICY_DEFAULT : AdmissionPolicy := trusted_contacts.

Definition ADMISSION_FLOOR (p : AdmissionPolicy) : nat :=
  match p with
  | no_one => 5 | guardian_only => 4 | trusted_contacts => 3 | any_contact => 2 | strangers => 1
  end.

Definition TRUST_CLASS_RANK (c : SenderClass) : nat :=
  match c with
  | class_guardian => 4 | class_trusted_contact => 3 | class_unverified_contact => 2
  | class_unknown => 1
  end.

Definition meetsAdmissionFloor (p : AdmissionPolicy) (c : SenderClass) : bool :=
  ADMISSION_FLOOR p <=? TRUST_CLASS_RANK c.

Definition isAdmissionPolicyExemptChannel (ch : string) : bool := mem ch ["platform"; "a2a"].
Definition isAdmissionPolicyHiddenChannel (ch : string) : bool := mem ch ["vellum"; "whatsapp"].

Definition CHANNEL_IDS : list string :=
  ["telegram"; "phone"; "vellum"; "whatsapp"; "slack"; "email"; "a2a"; "discord"; "plugin"].
Definition isChannelId (ch : string) : bool := mem ch CHANNEL_IDS.

(** ** The table of floors *)

Record PolicyRow := {
  pr_channelType : string; pr_policy : string; pr_note : option string; pr_updatedAt : Z }.

(** [channel_type] is the primary key. *)
Definition PolicyTable := list PolicyRow.

Definition is_channel_row (ch : string) (r : PolicyRow) : bool :=
  String.eqb r.(pr_channelType) ch.

Definition coercePolicy (value : string) : AdmissionPolicy :=
  default ADMISSION_POLICY_DEFAULT (admission_policy_of value).

Definition policy_get (ch : string) (t : PolicyTable) : AdmissionPolicy :=
  match find_first (is_channel_row ch) t with
  | Some r => coercePolicy r.(pr_policy)
  | None => ADMISSION_POLICY_DEFAULT
  end.

Definition policy_list (t : PolicyTable) : list (string * AdmissionPolicy) :=
  (λ r, (r.(pr_channelType), coercePolicy r.(pr_policy)))
    <$> List.filter (λ r, isChannelId r.(pr_channelType)) t.

(** [INSERT ... ON CONFLICT (channel_type) DO UPDATE] *)
Definition policy_set (ch : string) (p : AdmissionPolicy) (note : option string) (now : Z)
    (t : PolicyTable) : PolicyTable :=
  let new := {| pr_channelType := ch; pr_policy := policy_name p; pr_note := note;
                pr_updatedAt := now |} in
  if existsb (is_channel_row ch) t then (λ r, if is_channel_row ch r then new else r) <$> t
  else t ++ [new].

Definition policy_remove (ch : string) (t : PolicyTable) : PolicyTable :=
  if existsb (is_channel_row ch) t then List.filter (λ r, negb (is_channel_row ch r)) t else t.

(** [INSERT ... ON CONFLICT DO NOTHING] *)
Definition seedDefault (ch : string) (p : AdmissionPolicy) (now : Z) (t : PolicyTable)
    : PolicyTable :=
  if existsb (is_channel_row ch) t then t
  else t ++ [{| pr_channelType := ch; pr_policy := policy_name p; pr_note := None;
                pr_updatedAt := now |}].

Definition CHANNEL_ADMISSION_DEFAULTS (ch : string) : option AdmissionPolicy :=
  if mem ch ["vellum"; "plugin"] then Some guardian_only else None.

Definition seed_channel (now : Z) (t : PolicyTable) (ch : string) : PolicyTable :=
  if isAdmissionPolicyExemptChannel ch then t
  else
    let policy := default ADMISSION_POLICY_DEFAULT (CHANNEL_ADMISSION_DEFAULTS ch) in
    let t := seedDefault ch policy now t in
    if isAdmissionPolicyHiddenChannel ch && negb (bool_decide (policy_get ch t = policy))
    then policy_set ch policy None now t else t.

Definition seedAdmissionPolicyDefaults (now : Z) (t : PolicyTable) : PolicyTable :=
  foldl (seed_channel now) t CHANNEL_IDS.

(** ** The cache *)

Definition PolicyCache := list (string * AdmissionPolicy).

Definition cache_refresh (t : PolicyTable) : PolicyCache :=
  foldl (λ m e, map_set e.1 e.2 m) [] (policy_list t).

Definition floor_cache_get (ch : string) (m : PolicyCache) : AdmissionPolicy :=
  default ADMISSION_POLICY_DEFAULT (map_get ch m).

(** [None] when floors are off, for an exempt channel and for an unknown one. *)
Definition resolveAdmissionPolicy (flag : bool) (channelType : string) (m : PolicyCache)
    : option AdmissionPolicy :=
  if negb flag then None
  else if isAdmissionPolicyExemptChannel channelType then None
  else if negb (isChannelId channelType) then None
  else Some (floor_cache_get channelType m).

(** ** The routes *)

Record PolicyState := { policy_table : PolicyTable; policy_cache : PolicyCache }.

(** The body of a PUT: [None] when it is no JSON, else the policy it names. *)
Definition set_policy_route (ch : string) (body : option (string * option string)) (now : Z)
    (st : PolicyState) : PolicyState * Z :=
  if isAdmissionPolicyExemptChannel ch then (st, 403%Z)
  else if isAdmissionPolicyHiddenChannel ch then (st, 403%Z)
  else if negb (isChannelId ch) then (st, 400%Z)
  else match body with
       | None => (st, 400%Z)
       | Some (policy, note) =>
           match admission_policy_of policy with
           | None => (st, 400%Z)
           | Some p =>
               let t := policy_set ch p note now st.(policy_table) in
               ({| policy_table := t; policy_cache := cache_refresh t |}, 200%Z)
           end
       end.

Definition delete_policy_route (ch : string) (st : PolicyState) : PolicyState * Z :=
  if negb (isChannelId ch) then (st, 400%Z)
  else if isAdmissionPolicyExemptChannel ch then (st, 403%Z)
  else if isAdmissionPolicyHiddenChannel ch then (st, 403%Z)
  else
    let t := policy_remove ch st.(policy_table) in
    ({| policy_table := t; policy_cache := cache_refresh t |}, 200%Z).

(** The gateway's start: seed, then load the cache. *)
Definition start_policies (now : Z) (t : PolicyTable) : PolicyState :=
  let t := seedAdmissionPolicyDefaults now t in
  {| policy_table := t; policy_cache := cache_refresh t |}.

(** ** The floor stage of the daemon *)

Inductive AdmissionDenyReason := member_blocked | member_revoked | below_floor (p : AdmissionPolicy).

Inductive AdmissionPolicyResult :=
  | floor_admits
  | floor_denies (reason : AdmissionDenyReason) (shouldChallenge : bool)
                 (effectivePolicy : AdmissionPolicy).

Definition POLICIES_THAT_COULD_UPGRADE : list AdmissionPolicy := [any_contact; strangers].

Definition trustedContactPromotionClearsFloor (p : AdmissionPolicy) : bool :=
  ADMISSION_FLOOR p <=? TRUST_CLASS_RANK class_trusted_contact.

Definition enforceAdmissionPolicy (sourceChannel : string) (class : SenderClass)
    (memberStatus : option ChannelStatus) (policy : AdmissionPolicy) : AdmissionPolicyResult :=
  if isAdmissionPolicyExemptChannel sourceChannel then floor_admits
  else if bool_decide (memberStatus = Some st_blocked) then
    floor_denies member_blocked false policy
  else if bool_decide (memberStatus = Some st_revoked) then
    floor_denies member_revoked false policy
  else if ADMISSION_FLOOR policy <=? TRUST_CLASS_RANK class then floor_admits
  else floor_denies (below_floor policy) (mem policy POLICIES_THAT_COULD_UPGRADE) policy.

(** ** The access check of the daemon *)

Record AclParams := {
  ap_canonicalSenderId : option string;
  ap_hasSenderIdentityClaim : bool;
  ap_rawSenderId : option string;
  ap_sourceChannel : string;
  ap_isBot : option bool;
  ap_commandIntent : option (string * option string);
  ap_trustVerdict : option TrustVerdict;
  ap_replyCallbackUrl : option string;
  ap_effectiveAdmissionPolicy : option AdmissionPolicy;
  ap_isCallbackInteraction : bool;
  ap_actorUnattributed : bool
}.

(** What a denial does on the way. *)
Inductive AclEffect :=
  | challenge_minted (sessionId : string)
  | guardian_asked (previousMemberStatus : option string)
  | requester_messaged (text : string)
  | reply_sent (text : string).

Record AclResponse := {
  ar_reason : string;
  ar_verificationSessionId : option string;
  ar_replyText : option string
}.

Record AclResult := {
  resolvedMember : option VerdictMember;
  earlyResponse : option AclResponse;
  validatedBootstrapSession : option VerificationSession;
  acl_effects : list AclEffect
}.

(** What [notifyGuardianOfAccessRequest] answers. *)
Inductive AccessRequestOutcome := guardian_notified | approval_pending_verification | not_notified.

#[export] Instance AccessRequestOutcome_eq_dec : EqDecision AccessRequestOutcome.
Proof. solve_decision. Defined.

(** The services a denial calls; [None] when a call throws or fails. *)
Record AclServices := {
  resolveBootstrapToken : string → string → option VerificationSession;
  readSenderSessions : string → string
                       → option (option VerificationSession * option VerificationSession);
  mintChallenge : string → string → option string;
  notifyGuardian : option string → option AccessRequestOutcome;
  handshakeLive : bool;
  replyDelivered : bool;
  guardianLabel : option string → string
}.

Definition ACCESS_DENIED_NOT_APPROVED_REPLY : string :=
  "Sorry, you haven't been approved to message this assistant.".

Section Acl.
Context (services : AclServices).

Definition response (reason : string) (session reply : option string) : AclResponse :=
  {| ar_reason := reason; ar_verificationSessionId := session; ar_replyText := reply |}.

Definition denied (member : option VerdictMember) (r : AclResponse) (effects : list AclEffect)
    : AclResult :=
  {| resolvedMember := member; earlyResponse := Some r; validatedBootstrapSession := None;
     acl_effects := effects |}.

Definition failClosedDeny : AclResult := denied None (response "not_a_member" None None) [].

Definition composeAccessDenialReply (v : TrustVerdict) (guardianNotified handshakeInProgress : bool)
    : string :=
  let label := services.(guardianLabel) v.(tv_guardianDisplayName) in
  if handshakeInProgress then
    "Your access request was approved! Reply here with the 6-digit verification code to finish connecting — if you don't have it, ask "
      +:+ label +:+ " for it."
  else if guardianNotified then
    "Hmm looks like you don't have access to talk to me. I'll let " +:+ label
      +:+ " know you tried talking to me and get back to you."
  else ACCESS_DENIED_NOT_APPROVED_REPLY.

Definition expects (sender : string) (s : option VerificationSession) : bool :=
  match s with Some s => bool_decide (s.(expectedExternalUserId) = Some sender) | None => false end.

(** The id of the session it creates, if it creates one. *)
Definition initiateVerificationChallenge (ch sender : string) (stamp : option bool)
    : option string :=
  let mint := services.(mintChallenge) ch sender in
  if bool_decide (stamp = Some false) then mint
  else match services.(readSenderSessions) ch sender with
       | None => None
       | Some (existingChallenge, existingSession) =>
           if expects sender existingChallenge
              || (match existingSession with Some _ => true | None => false end)
           then None else mint
       end.

Definition BOOTSTRAP_PREFIX : string := "gv_".

(** [isBootstrapCommand], with the token behind the prefix *)
Definition bootstrap_token (p : AclParams) : option string :=
  match p.(ap_commandIntent) with
  | Some ("start", Some payload) =>
      if starts_with payload BOOTSTRAP_PREFIX then Some (slice_from 3 payload) else None
  | _ => None
  end.

(** The session a bootstrap command opens the door with. *)
Definition bootstrap_session (p : AclParams) : option VerificationSession :=
  token ← bootstrap_token p;
  s ← services.(resolveBootstrapToken) p.(ap_sourceChannel) token;
  if bool_decide (s.(status) = pending_bootstrap) then Some s else None.

Definition sender_of (p : AclParams) : option string :=
  match p.(ap_canonicalSenderId) with Some s => Some s | None => p.(ap_rawSenderId) end.

Definition has_callback (p : AclParams) : bool := truthy (default "" p.(ap_replyCallbackUrl)).

(** The challenge of one of the two lanes; a bot cannot return a code on Slack. *)
Definition slack_challenge (p : AclParams) (v : TrustVerdict) : option string :=
  let sender := default "" (sender_of p) in
  if String.eqb p.(ap_sourceChannel) "slack" && negb (bool_decide (p.(ap_isBot) = Some true))
     && truthy sender && negb p.(ap_isCallbackInteraction)
  then initiateVerificationChallenge p.(ap_sourceChannel) sender
         v.(tv_hasInterceptableVerificationSession)
  else None.

Definition email_challenge (p : AclParams) (v : TrustVerdict) : option string :=
  let sender := default "" (sender_of p) in
  if String.eqb p.(ap_sourceChannel) "email" && truthy sender
     && negb p.(ap_isCallbackInteraction)
  then initiateVerificationChallenge p.(ap_sourceChannel) sender
         v.(tv_hasInterceptableVerificationSession)
  else None.

Definition CHALLENGE_DM (label : string) : string :=
  "I don't recognize you yet! I've let " +:+ label
  +:+ " know you're trying to reach me. They'll need to share a 6-digit verification code with you — ask them directly if you know them. Once you have the code, reply here with it.".

Definition challenge_response (sessionId : string) : AclResponse :=
  response "verification_challenge_sent" (Some sessionId) None.

(** A challenge over Slack: the guardian is asked, the requester told. *)
Definition slack_effects (p : AclParams) (v : TrustVerdict) (sessionId : string)
    (previous : option string) : list AclEffect :=
  [challenge_minted sessionId; guardian_asked previous]
  ++ (if has_callback p
      then [requester_messaged (CHALLENGE_DM (services.(guardianLabel) v.(tv_guardianDisplayName)))]
      else []).

(** Asking the guardian: whether it was notified, whether an approval is under way. *)
Definition ask_guardian (p : AclParams) (previous : option string)
    : list AclEffect * bool * bool :=
  if p.(ap_isCallbackInteraction) then ([], false, services.(handshakeLive))
  else
    ([guardian_asked previous],
     bool_decide (services.(notifyGuardian) previous = Some guardian_notified),
     bool_decide (services.(notifyGuardian) previous = Some approval_pending_verification)).

(** The reply goes out over the callback; the response carries it when it did not. *)
Definition reply_effects (p : AclParams) (text : string) : list AclEffect :=
  if has_callback p then [reply_sent text] else [].
Definition undelivered (p : AclParams) (text : string) : option string :=
  if has_callback p && services.(replyDelivered) then None else Some text.

Definition deny_non_member (p : AclParams) (v : TrustVerdict) : AclResult :=
  match slack_challenge p v with
  | Some s => denied None (challenge_response s) (slack_effects p v s None)
  | None =>
      match email_challenge p v with
      | Some s => denied None (challenge_response s) [challenge_minted s; guardian_asked None]
      | None =>
          let '(effects, notified, handshake) := ask_guardian p None in
          let text := composeAccessDenialReply v notified handshake in
          denied None (response "not_a_member" None (undelivered p text))
            (effects ++ reply_effects p text)
      end
  end.

Definition deny_inactive_member (p : AclParams) (v : TrustVerdict) (m : VerdictMember)
    : AclResult :=
  let previous := Some (member_status_name m.(vm_status)) in
  let kept_out := isKeptOutStatus (Some m.(vm_status)) in
  match (if kept_out then None else slack_challenge p v) with
  | Some s => denied (Some m) (challenge_response s) (slack_effects p v s previous)
  | None =>
      let '(effects, notified, handshake) :=
        if kept_out then ([], false, false) else ask_guardian p previous in
      let text := composeAccessDenialReply v notified handshake in
      denied (Some m)
        (response ("member_" +:+ member_status_name m.(vm_status)) None (undelivered p text))
        (effects ++ reply_effects p text)
  end.

Definition passed (m : option VerdictMember) (bootstrap : option VerificationSession) : AclResult :=
  {| resolvedMember := m; earlyResponse := None; validatedBootstrapSession := bootstrap;
     acl_effects := [] |}.

(** Which policies leave a sender without a record, or an inactive one, to the floor. *)
Definition non_member_bypass (policy : option AdmissionPolicy) : bool :=
  bool_decide (policy = Some strangers) || bool_decide (policy = Some guardian_only).

Definition inactive_bypass (policy : option AdmissionPolicy) (status : ChannelStatus) : bool :=
  bool_decide (policy = Some strangers) && negb (bool_decide (status = st_revoked))
  || (bool_decide (policy = Some any_contact) || bool_decide (policy = Some guardian_only))
     && (bool_decide (status = st_pending) || bool_decide (status = st_unverified)).

Definition check_member (p : AclParams) (v : TrustVerdict) (m : VerdictMember) : AclResult :=
  let blocked := bool_decide (m.(vm_status) = st_blocked) in
  let active := bool_decide (m.(vm_status) = st_active) in
  let bootstrap := if active || blocked then None else bootstrap_session p in
  let let_in :=
    active
    || negb blocked
       && ((match bootstrap with Some _ => true | None => false end)
           || inactive_bypass p.(ap_effectiveAdmissionPolicy) m.(vm_status)) in
  if negb let_in then deny_inactive_member p v m
  else if bool_decide (m.(vm_policy) = policy_deny) then
    denied (Some m) (response "policy_deny" None (undelivered p ACCESS_DENIED_NOT_APPROVED_REPLY))
      (reply_effects p ACCESS_DENIED_NOT_APPROVED_REPLY)
  else passed (Some m) bootstrap.

(** Everybody but the guardian. *)
Definition check_sender (p : AclParams) (v : TrustVerdict) (member : option VerdictMember)
    : AclResult :=
  if negb (truthy (default "" p.(ap_canonicalSenderId))) && negb p.(ap_hasSenderIdentityClaim)
  then passed member None
  else
    match member with
    | Some m => check_member p v m
    | None =>
        match bootstrap_session p with
        | Some s => passed None (Some s)
        | None =>
            if non_member_bypass p.(ap_effectiveAdmissionPolicy)
            then passed None None else deny_non_member p v
        end
    end.

Definition check_guardian (member : option VerdictMember) : AclResult :=
  match member with
  | None => failClosedDeny
  | Some m =>
      if isKeptOutStatus (Some m.(vm_status)) then failClosedDeny
      else if bool_decide (m.(vm_policy) = policy_deny) then
        denied (Some m) (response "policy_deny" None None) []
      else passed (Some m) None
  end.

Definition enforceIngressAcl (p : AclParams) : AclResult :=
  if p.(ap_actorUnattributed) then passed None None
  else
    match verdictUsability p.(ap_trustVerdict) with
    | inr _ => failClosedDeny
    | inl (v, class) =>
        if bool_decide (class = class_guardian) then check_guardian (verdictMemberFromVerdict v)
        else check_sender p v (verdictMemberFromVerdict v)
    end.
End Acl.

(** ** Event kinds *)

Inductive InboundEventKind := kind_message | kind_edit | kind_delete | kind_reaction | kind_button.

#[export] Instance InboundEventKind_eq_dec : EqDecision InboundEventKind.
Proof. solve_decision. Defined.

Definition event_kind_of (s : string) : option InboundEventKind :=
  if String.eqb s "message" then Some kind_message
  else if String.eqb s "edit" then Some kind_edit
  else if String.eqb s "delete" then Some kind_delete
  else if String.eqb s "reaction" then Some kind_reaction
  else if String.eqb s "button" then Some kind_button
  else None.

Definition resolveInboundEventKind (eventKind : option string) (isEdit : bool)
    (callbackData callbackQueryId : option string) : InboundEventKind :=
  match eventKind ≫= event_kind_of with
  | Some k => k
  | None =>
      if isEdit then kind_edit
      else
        let cb := default "" callbackData in
        if truthy cb then
          if String.eqb cb "message_deleted" then kind_delete
          else if starts_with cb "reaction:" || starts_with cb "reaction_removed:"
               then kind_reaction else kind_button
        else match callbackQueryId with Some _ => kind_button | None => kind_message end
  end.

(** ** An inbound event *)

Inductive ReactionOp := reaction_added | reaction_removed.

#[export] Instance ReactionOp_eq_dec : EqDecision ReactionOp.
Proof. solve_decision. Defined.

Record ReactionPayload := { rx_op : ReactionOp; rx_emoji : string; rx_targetMessageId : string }.

Record InboundEvent := {
  ev_sourceChannel : string;
  ev_actorExternalId : string;
  ev_conversationExternalId : string;
  ev_content : string;
  ev_eventKind : option string;
  ev_isEdit : bool;
  ev_callbackData : option string;
  ev_callbackQueryId : option string;
  ev_isDirectMessage : option bool;
  ev_isBot : option bool;
  ev_actorUnattributed : bool;
  ev_commandIntent : option (string * option string);
  ev_replyCallbackUrl : option string;
  ev_senderAuthenticated : option bool;
  ev_reaction : option ReactionPayload;    (** the structured field *)
  ev_messageId : option string;            (** [sourceMetadata.messageId] *)
  ev_sourceInterface : option string
}.

Definition event_kind (e : InboundEvent) : InboundEventKind :=
  resolveInboundEventKind e.(ev_eventKind) e.(ev_isEdit) e.(ev_callbackData)
    e.(ev_callbackQueryId).

Definition resolveInboundReactionPayload (e : InboundEvent) : option ReactionPayload :=
  match e.(ev_reaction) with
  | Some r => if truthy r.(rx_emoji) && truthy r.(rx_targetMessageId) then Some r else None
  | None =>
      match e.(ev_callbackData), nonempty e.(ev_messageId) with
      | Some cb, Some target =>
          let payload op prefix :=
            let emoji := slice_from (String.length prefix) cb in
            if truthy emoji
            then Some {| rx_op := op; rx_emoji := emoji; rx_targetMessageId := target |} else None in
          if starts_with cb "reaction_removed:" then payload reaction_removed "reaction_removed:"
          else if starts_with cb "reaction:" then payload reaction_added "reaction:"
          else None
      | _, _ => None
      end
  end.

(** ** The gateway's gate *)

Record RoutingEntry := { route_type : string; route_key : string; route_assistantId : string }.

Definition LOCAL_ASSISTANT_ID : string := "self".

(** The assistant, or [None] for an event without any identity. *)
Definition resolveAssistant (entries : list RoutingEntry) (conversationId actorId : string)
    : option string :=
  if negb (truthy conversationId) && negb (truthy actorId) then None
  else
    let route type key := find_first (λ r, String.eqb r.(route_type) type
                                           && String.eqb r.(route_key) key) entries in
    match route "conversation_id" conversationId, route "actor_id" actorId with
    | Some r, _ => Some r.(route_assistantId)
    | None, Some r => Some r.(route_assistantId)
    | None, None => Some LOCAL_ASSISTANT_ID
    end.

(** What the gateway reads and writes. *)
Record GatewayState := {
  g_acl : AclTables;
  g_hasActorTokens : bool;
  g_verification : VerificationState;
  g_policies : PolicyCache;
  g_integrity : IntegrityCache
}.

Definition with_verification (v : VerificationState) (st : GatewayState) : GatewayState :=
  {| g_acl := st.(g_acl); g_hasActorTokens := st.(g_hasActorTokens); g_verification := v;
     g_policies := st.(g_policies); g_integrity := st.(g_integrity) |}.
Definition with_integrity (c : IntegrityCache) (st : GatewayState) : GatewayState :=
  {| g_acl := st.(g_acl); g_hasActorTokens := st.(g_hasActorTokens);
     g_verification := st.(g_verification); g_policies := st.(g_policies); g_integrity := c |}.

Inductive InboundAdmission :=
  | rejected (reason : string)
  | verification_intercepted (i : Intercepted)
  | invite_intercepted
  | forwarded (trustVerdict : TrustVerdict) (admissionPolicy : option AdmissionPolicy).

Section Gate.
(** The hash of a code and the contact store's answer ([VerificationFlow]), and
    whether the text is an invite of a sender with this verdict. *)
Context (hash : string → string)
        (contactAccepts : VerificationPurpose → string → string → string → bool)
        (redeemsInvite : InboundEvent → TrustVerdict → bool).

Definition verification_params (e : InboundEvent) : TextParams :=
  {| VerificationFlow.sourceChannel := e.(ev_sourceChannel); messageContent := e.(ev_content);
     actorExternalUserId := e.(ev_actorExternalId);
     actorChatId := e.(ev_conversationExternalId);
     isDirectMessage := e.(ev_isDirectMessage);
     replyCallbackUrl := e.(ev_replyCallbackUrl) |}.

Definition carriesUserText (e : InboundEvent) : bool :=
  mem (event_kind e) [kind_message; kind_edit].

(** A failed sender authentication leaves a stranger, or a failed resolution. *)
Definition downgrade (authenticated : option bool) (v : TrustVerdict) : TrustVerdict :=
  if bool_decide (authenticated = Some false)
  then memberless_verdict v.(tv_canonicalSenderId) v.(tv_resolutionFailed)
  else v.

Definition admitInbound (entries : list RoutingEntry) (flag : bool) (e : InboundEvent) (now : Z)
    (st : GatewayState) : GatewayState * InboundAdmission :=
  let policy := resolveAdmissionPolicy flag e.(ev_sourceChannel) st.(g_policies) in
  if bool_decide (policy = Some no_one) then (st, rejected "admission_no_one")
  else match resolveAssistant entries e.(ev_conversationExternalId) e.(ev_actorExternalId) with
  | None => (st, rejected "No routable identity on this event")
  | Some _ =>
      let '(v, intercepted) :=
        if carriesUserText e
        then tryTextVerificationIntercept hash contactAccepts (verification_params e) now
               st.(g_verification)
        else (st.(g_verification), None) in
      let st := with_verification v st in
      match intercepted with
      | Some i => (st, verification_intercepted i)
      | None =>
          let '(cached, verdict) :=
            resolveTrustVerdict st.(g_hasActorTokens) now st.(g_verification).(sessions) st.(g_acl)
              e.(ev_sourceChannel) (Some e.(ev_actorExternalId)) st.(g_integrity) in
          let st := with_integrity cached st in
          let verdict := downgrade e.(ev_senderAuthenticated) verdict in
          if carriesUserText e && negb (bool_decide (e.(ev_senderAuthenticated) = Some false))
             && redeemsInvite e verdict
          then (st, invite_intercepted)
          else (st, forwarded verdict policy)
      end
  end.
End Gate.

(** ** The daemon's handler *)

Inductive InboundDecision :=
  | acl_denied (r : AclResponse)
  | floor_denied (reason : AdmissionDenyReason)
  | no_turn
  | turn (class : string) (member : option VerdictMember)
  | reaction_dropped
  | reaction_recorded
  | reaction_turn (class : string).            (** a turn on a reaction *)

(** A stored message: its row, unless it is gone, with its author's role and whether it
    is one of the guardian's cards. *)
Record ReactedMessage := { rm_row : option (string * bool) }.

(** What a reaction meets: the pressure on the disk for a class of senders, the deliveries
    recorded before, the messages of a conversation by the id of the provider, and whether
    a turn can be rendered and dispatched. *)
Record ReactionServices := {
  diskPressureBlocks : SenderClass → bool;
  alreadyRecorded : InboundEvent → bool;
  findReactedMessage : string → string → string → option ReactedMessage;
  dispatchStarts : bool
}.

(** Nothing runs between the look at the earlier deliveries and [recordInbound], so its own
    answer [duplicate] does not occur. *)
Definition handleReactionIntercept (reactions : ReactionServices) (e : InboundEvent)
    (verdict : option TrustVerdict) (reaction : ReactionPayload) : InboundDecision :=
  match verdictUsability verdict with
  | inr _ => reaction_dropped
  | inl (v, class) =>
      if bool_decide (class = class_unknown) then reaction_dropped
      else if reactions.(diskPressureBlocks) class then reaction_dropped
      else if reactions.(alreadyRecorded) e then reaction_dropped
      else
        match reactions.(findReactedMessage) e.(ev_sourceChannel) e.(ev_conversationExternalId)
                reaction.(rx_targetMessageId) with
        | None => reaction_dropped
        | Some target =>
            match target.(rm_row) with
            | Some (_, true) => reaction_dropped
            | Some (role, false) =>
                if bool_decide (reaction.(rx_op) = reaction_added)
                   && truthy (default "" e.(ev_replyCallbackUrl))
                   && truthy (default "" e.(ev_sourceInterface))
                   && String.eqb role "assistant" && reactions.(dispatchStarts)
                then reaction_turn v.(tv_trustClass) else reaction_recorded
            | None => reaction_recorded
            end
        end
  end.

Definition acl_params (flag : bool) (e : InboundEvent) (verdict : option TrustVerdict)
    (policy : AdmissionPolicy) : AclParams :=
  let kind := event_kind e in
  {| ap_canonicalSenderId :=
       if truthy e.(ev_actorExternalId)
       then canonicalizeInboundIdentity e.(ev_sourceChannel) e.(ev_actorExternalId) else None;
     ap_hasSenderIdentityClaim := true;
     ap_rawSenderId := Some e.(ev_actorExternalId);
     ap_sourceChannel := e.(ev_sourceChannel);
     ap_isBot := e.(ev_isBot);
     ap_commandIntent := e.(ev_commandIntent);
     ap_trustVerdict := verdict;
     ap_replyCallbackUrl := e.(ev_replyCallbackUrl);
     ap_effectiveAdmissionPolicy := if flag then Some policy else None;
     ap_isCallbackInteraction := mem kind [kind_button; kind_reaction; kind_delete];
     ap_actorUnattributed := bool_decide (kind = kind_delete) && e.(ev_actorUnattributed) |}.

(** From the checks of [handleChannelInbound] to the floor. A reaction is dealt with before
    both; deletes and edits start no turn; [floor_denied] is before the notices of a denial. *)
Definition handleChannelInbound (services : AclServices) (reactions : ReactionServices)
    (flag : bool) (e : InboundEvent) (verdict : option TrustVerdict)
    (stamped : option AdmissionPolicy) : InboundDecision :=
  let policy := default ADMISSION_POLICY_DEFAULT stamped in
  let kind := event_kind e in
  if bool_decide (kind = kind_reaction) then
    match resolveInboundReactionPayload e with
    | Some reaction => handleReactionIntercept reactions e verdict reaction
    | None => reaction_dropped
    end
  else
    let acl := enforceIngressAcl services (acl_params flag e verdict policy) in
    match acl.(earlyResponse) with
    | Some r => acl_denied r
    | None =>
        if mem kind [kind_delete; kind_edit] then no_turn
        else
          let class := match verdict with Some v => v.(tv_trustClass) | None => "unknown" end in
          if negb flag || (match acl.(validatedBootstrapSession) with
                           | Some _ => true | None => false end)
          then turn class acl.(resolvedMember)
          else
            match enforceAdmissionPolicy e.(ev_sourceChannel)
                    (default class_unknown (sender_class_of class))
                    (vm_status <$> acl.(resolvedMember)) policy with
            | floor_admits => turn class acl.(resolvedMember)
            | floor_denies reason _ _ => floor_denied reason
            end
    end.

(** ** The whole way of an event *)

(** A bootstrap token is looked up by its hash in the gateway's sessions. *)
Definition resolve_bootstrap (hash : string → string) (now : Z) (t : Sessions)
    (ch token : string) : option VerificationSession :=
  findSessionByBootstrapTokenHash ch (hash token) now t.

(** ** What the access check lets through *)

(** What holds of a sender that is no guardian and passes: the record it has
    admits it, or its policy leaves the decision to the floor, or a bootstrap
    session opens the door. *)
Definition passes_as (services : AclServices) (p : AclParams) (member : option VerdictMember)
    (bootstrap : option VerificationSession) : Prop :=
  (∀ s, bootstrap = Some s → bootstrap_session services p = Some s) ∧
  match member with
  | Some m =>
      m.(vm_status) ≠ st_blocked ∧ m.(vm_policy) = policy_allow ∧
      (bootstrap = None →
       m.(vm_status) = st_active
       ∨ inactive_bypass p.(ap_effectiveAdmissionPolicy) m.(vm_status) = true)
  | None =>
      bootstrap = None → non_member_bypass p.(ap_effectiveAdmissionPolicy) = true
  end.

Lemma not_denied_allow p : bool_decide (p = policy_deny) = false → p = policy_allow.
Proof. by destruct p. Qed.

Lemma check_member_passed services p v m :
  (check_member services p v m).(earlyResponse) = None →
  (check_member services p v m).(resolvedMember) = Some m
  ∧ passes_as services p (Some m) (check_member services p v m).(validatedBootstrapSession).
Proof.
  unfold check_member. set (bs := if _ || _ then None else bootstrap_session services p).
  destruct (negb (_ || _)) eqn:Hin.
  { unfold deny_inactive_member. repeat (case_match; try done). }
  apply negb_false_iff, orb_true_iff in Hin.
  destruct (bool_decide (vm_policy m = policy_deny)) eqn:Hp; [done|].
  intros _. simpl. split; [done|]. split.
  - intros s. unfold bs. by destruct (_ || _).
  - split_and!; [|by apply not_denied_allow|].
    + destruct Hin as [Ha | [Hb _]%andb_prop]; [by bool_to_prop; rewrite Ha|].
      by bool_to_prop.
    + intros Hnone. destruct Hin as [Ha | [_ Hb]%andb_prop]; [bool_to_prop; by left|].
      rewrite Hnone in Hb. simpl in Hb. by right.
Qed.

Lemma non_member_denied services p v : (deny_non_member services p v).(earlyResponse) ≠ None.
Proof. unfold deny_non_member. repeat (case_match; try done). Qed.

Lemma acl_passed services p :
  let r := enforceIngressAcl services p in
  r.(earlyResponse) = None → p.(ap_actorUnattributed) = false →
  p.(ap_hasSenderIdentityClaim) = true →
  ∃ v class, verdictUsability p.(ap_trustVerdict) = inl (v, class)
    ∧ r.(resolvedMember) = verdictMemberFromVerdict v
    ∧ if decide (class = class_guardian)
      then r.(validatedBootstrapSession) = None
           ∧ ∃ m, verdictMemberFromVerdict v = Some m ∧ m.(vm_status) ≠ st_blocked
                  ∧ m.(vm_status) ≠ st_revoked ∧ m.(vm_policy) = policy_allow
      else passes_as services p (verdictMemberFromVerdict v) r.(validatedBootstrapSession).
Proof.
  intros r Hr Hun Hclaim. subst r. unfold enforceIngressAcl in *. rewrite Hun in *.
  destruct (verdictUsability _) as [[v class]|]; [|done].
  exists v, class. split; [done|].
  rewrite <- decide_bool_decide in *. destruct (decide (class = class_guardian)) as [->|Hne].
  - unfold check_guardian in *. destruct (verdictMemberFromVerdict v) as [m|]; [|done].
    unfold isKeptOutStatus in *.
    destruct (bool_decide (Some (vm_status m) = Some st_revoked)) eqn:H1; [done|].
    destruct (bool_decide (Some (vm_status m) = Some st_blocked)) eqn:H2; [done|]. simpl in *.
    destruct (bool_decide (vm_policy m = policy_deny)) eqn:H3; [done|]. simpl in *.
    split; [done|]. split; [done|]. exists m. apply not_denied_allow in H3. bool_to_prop.
    split_and!; congruence.
  - unfold check_sender in *. rewrite Hclaim, andb_false_r in *.
    destruct (verdictMemberFromVerdict v) as [m|]; [by apply check_member_passed|].
    destruct (bootstrap_session services p) as [s|] eqn:Hbs.
    { simpl. split; [done|]. split; [by intros ? [= <-]|done]. }
    destruct (non_member_bypass _) eqn:Hby; [|by apply non_member_denied in Hr].
    simpl. split; [done|]. by split.
Qed.

(** ** Who gets a turn *)

Section Turn.
Context (hash : string → string)
        (contactAccepts : VerificationPurpose → string → string → string → bool)
        (redeemsInvite : InboundEvent → TrustVerdict → bool)
        (services : AclServices) (reactions : ReactionServices).

(** The gateway resolves bootstrap tokens against its own sessions. *)
Definition gateway_services (now : Z) (t : Sessions) : AclServices :=
  {| resolveBootstrapToken := resolve_bootstrap hash now t;
     readSenderSessions := services.(readSenderSessions);
     mintChallenge := services.(mintChallenge); notifyGuardian := services.(notifyGuardian);
     handshakeLive := services.(handshakeLive); replyDelivered := services.(replyDelivered);
     guardianLabel := services.(guardianLabel) |}.

(** Gateway and daemon, each with its own reading of the feature flag. *)
Definition run_inbound (entries : list RoutingEntry) (gatewayFlag daemonFlag : bool)
    (e : InboundEvent) (now : Z) (st : GatewayState)
    : GatewayState * (InboundAdmission + InboundDecision) :=
  match admitInbound hash contactAccepts redeemsInvite entries gatewayFlag e now st with
  | (st, forwarded v policy) =>
      (st, inr (handleChannelInbound (gateway_services now st.(g_verification).(sessions))
                  reactions daemonFlag e (Some v) policy))
  | (st, a) => (st, inl a)
  end.

(** A start command with the token of an open bootstrap session of the channel. *)
Definition opened_by_bootstrap (e : InboundEvent) (now : Z) (t : Sessions) : Prop :=
  ∃ token r, e.(ev_commandIntent) = Some ("start", Some ("gv_" +:+ token)) ∧ r ∈ t
    ∧ r.(channel) = e.(ev_sourceChannel) ∧ r.(bootstrapTokenHash) = Some (hash token)
    ∧ r.(status) = pending_bootstrap ∧ (now < r.(expiresAt))%Z.

Lemma bootstrap_session_open flag e now t verdict policy s :
  bootstrap_session (gateway_services now t) (acl_params flag e verdict policy) = Some s →
  opened_by_bootstrap e now t.
Proof.
  unfold bootstrap_session, bootstrap_token. simpl.
  destruct (ev_commandIntent e) as [[kind [payload|]]|] eqn:Hc; try by repeat case_match.
  destruct (decide (kind = "start")) as [->|Hne]; [|by repeat case_match].
  destruct (starts_with payload BOOTSTRAP_PREFIX) eqn:Hp; [|done].
  apply starts_with_spec in Hp as [token ->].
  change (BOOTSTRAP_PREFIX +:+ token)
    with (String "g" (String "v" (String "_" token))) at 1. simpl.
  unfold resolve_bootstrap, findSessionByBootstrapTokenHash.
  destruct (find_first _ t) as [r|] eqn:Hf; [|done].
  apply find_first_Some in Hf as [Hin Hr]. bool_to_prop. intros _.
  exists token, r. split_and!; try done.
Qed.

Lemma intercept_none p now st st' :
  tryTextVerificationIntercept hash contactAccepts p now st = (st', None) → st' = st.
Proof.
  unfold tryTextVerificationIntercept. intros H. repeat (case_match; simplify_eq; try done).
Qed.

(** What the gateway forwards: an untouched verification state, no kill switch, and
    the resolver's verdict, downgraded when the sender is not authenticated. *)
Lemma forwarded_spec entries flag e now st st' v policy :
  admitInbound hash contactAccepts redeemsInvite entries flag e now st
    = (st', forwarded v policy) →
  st'.(g_verification) = st.(g_verification)
  ∧ policy = resolveAdmissionPolicy flag e.(ev_sourceChannel) st.(g_policies)
  ∧ policy ≠ Some no_one
  ∧ ∃ cached v0,
      resolveTrustVerdict st.(g_hasActorTokens) now st.(g_verification).(sessions) st.(g_acl)
        e.(ev_sourceChannel) (Some e.(ev_actorExternalId)) st.(g_integrity) = (cached, v0)
      ∧ v = downgrade e.(ev_senderAuthenticated) v0.
Proof.
  unfold admitInbound. destruct (bool_decide (_ = Some no_one)) eqn:Hno; [done|].
  destruct (resolveAssistant _ _ _); [|done].
  destruct (if carriesUserText e then _ else _) as [v1 [i|]] eqn:Hv; [done|].
  assert (v1 = st.(g_verification)) as ->.
  { destruct (carriesUserText e); [by eapply intercept_none|]. by simplify_eq. }
  simpl. destruct (resolveTrustVerdict _ _ _ _ _ _ _) as [cached v0] eqn:Hr.
  destruct (_ && _ && _); [done|]. intros [= <- <- <-]. simpl. bool_to_prop.
  split_and!; try done. eauto.
Qed.

(** Every stored channel has an id. *)
Definition ids_present (t : AclTables) : Prop :=
  Forall (λ ch, truthy ch.(channel_id) = true) t.(acl_channels).

Lemma nonempty_row t type sender m :
  ids_present t → memberRow type sender t = Some m → nonempty (Some m.2.(channel_id)) ≠ None.
Proof.
  intros Hids [Hin _]%memberRow_Some. destruct m as [c ch].
  apply elem_of_joined in Hin as (Hin & _). eapply Forall_forall in Hids; [|done].
  simpl in *. by rewrite Hids.
Qed.

(** The usable verdict of an authenticated sender: its member is the row that was
    found, and the tables bear the class out. *)
Lemma usable_resolved tokens now ss t ch actor cached cached' v class :
  ids_present t →
  resolveTrustVerdict tokens now ss t ch actor cached = (cached', v) →
  verdictUsability (Some v) = inl (v, class) →
  let '(type, address) := memberIdentity ch actor in
  let sender := canonicalSenderIdFor type address in
  class_evidence t type sender class ∧
  match verdictMemberFromVerdict v with
  | Some vm => ∃ m, memberRow type sender t = Some m
                    ∧ channel_status_of m.2.(channel_status) = Some vm.(vm_status)
                    ∧ channel_policy_of m.2.(channel_policy) = Some vm.(vm_policy)
  | None => memberRow type sender t = None
  end.
Proof.
  intros Hids Hr (_ & Hres & Hclass & Hnone)%usable_spec.
  pose proof (resolve_spec _ _ _ _ _ _ _ _ _ Hr Hres) as Hspec.
  destruct (memberIdentity ch actor) as [type address]. simpl in *.
  destruct Hspec as (_ & _ & Hid & Hst & Hpol & Hev). split; [by apply Hev|].
  destruct (verdictMemberFromVerdict v) as [vm|] eqn:Hm.
  - apply verdict_member_spec in Hm as [H1 H2]. rewrite Hst in H1. rewrite Hpol in H2.
    destruct (memberRow _ _ _) as [m|]; [|done]. simpl in *. eauto.
  - destruct (memberRow _ _ _) as [m|] eqn:Hrow; [|done].
    destruct Hnone as (_ & _ & Hn); [done|]. rewrite Hid in Hn. simpl in Hn.
    by apply nonempty_row in Hrow.
Qed.

(** Whoever passes both stages of the daemon has opened the door with a bootstrap
    session, or clears the floor in force: the channel's, or, without floors, that
    of trusted contacts. *)
Lemma passed_clears_floor svc flag e v v' c policy r :
  verdictUsability (Some v) = inl (v', c) →
  let p := acl_params flag e (Some v) policy in
  r = enforceIngressAcl svc p →
  r.(earlyResponse) = None → p.(ap_actorUnattributed) = false →
  (isAdmissionPolicyExemptChannel e.(ev_sourceChannel) = true → policy = trusted_contacts) →
  (flag = true → r.(validatedBootstrapSession) = None →
   enforceAdmissionPolicy e.(ev_sourceChannel) c (vm_status <$> r.(resolvedMember)) policy
     = floor_admits) →
  (∀ m, verdictMemberFromVerdict v = Some m → m.(vm_status) = st_active →
        c = class_guardian ∨ c = class_trusted_contact) →
  (∃ s, r.(validatedBootstrapSession) = Some s ∧ bootstrap_session svc p = Some s)
  ∨ meetsAdmissionFloor (if flag then policy else trusted_contacts) c = true.
Proof.
  intros Hu p -> Hearly Hun Hexempt Hfloor Hactive.
  pose proof (acl_passed svc p Hearly Hun eq_refl) as (v1 & c1 & Hu1 & Hmem & Hpass).
  change (ap_trustVerdict p) with (Some v) in Hu1. rewrite Hu in Hu1. simplify_eq.
  apply usable_spec in Hu as (-> & _).
  destruct (validatedBootstrapSession _) as [s|] eqn:Hbs.
  { left. exists s. split; [done|]. case_decide; [naive_solver|]. by apply Hpass. }
  right. specialize (λ H, Hfloor H eq_refl).
  (* without the floor stage: only guardians and active members pass *)
  assert (non_member_bypass (ap_effectiveAdmissionPolicy p) = false →
          (∀ st, inactive_bypass (ap_effectiveAdmissionPolicy p) st = false) →
          c1 = class_guardian ∨ c1 = class_trusted_contact) as Hstrict.
  { intros Hn Hi. case_decide; [by left|]. destruct Hpass as [_ Hpass].
    destruct (verdictMemberFromVerdict v) as [m|] eqn:Hm.
    - destruct Hpass as (_ & _ & [Ha | Hb]); [done|by eapply Hactive|].
      by rewrite Hi in Hb.
    - rewrite Hpass in Hn; done. }
  destruct flag.
  - specialize (Hfloor eq_refl). unfold enforceAdmissionPolicy in Hfloor.
    destruct (isAdmissionPolicyExemptChannel _).
    + specialize (Hexempt eq_refl). subst policy.
      destruct Hstrict as [-> | ->]; [done|by intros []|done..].
    + destruct (bool_decide _); [done|]. destruct (bool_decide _); [done|].
      unfold meetsAdmissionFloor. by destruct (ADMISSION_FLOOR policy <=? _).
  - destruct Hstrict as [-> | ->]; [done|by intros []|done..].
Qed.

(** What the tables say about the sender of an authenticated event. *)
Definition borne_out (t : AclTables) (e : InboundEvent) (v : TrustVerdict) (c : SenderClass)
    : Prop :=
  let '(type, address) := memberIdentity e.(ev_sourceChannel) (Some e.(ev_actorExternalId)) in
  let sender := canonicalSenderIdFor type address in
  class_evidence t type sender c ∧
  match verdictMemberFromVerdict v with
  | Some vm => ∃ m, memberRow type sender t = Some m
                    ∧ channel_status_of m.2.(channel_status) = Some vm.(vm_status)
                    ∧ channel_policy_of m.2.(channel_policy) = Some vm.(vm_policy)
  | None => memberRow type sender t = None
  end.

(** The stages an event that gets a turn has passed. *)
Lemma turn_stages entries gatewayFlag daemonFlag e now st st' class member :
  ids_present st.(g_acl) →
  run_inbound entries gatewayFlag daemonFlag e now st = (st', inr (turn class member)) →
  let policy := resolveAdmissionPolicy gatewayFlag e.(ev_sourceChannel) st.(g_policies) in
  let svc := gateway_services now st.(g_verification).(sessions) in
  ∃ v c, let floor := default ADMISSION_POLICY_DEFAULT policy in
    let p := acl_params daemonFlag e (Some v) floor in
    let r := enforceIngressAcl svc p in
    policy ≠ Some no_one
    ∧ verdictUsability (Some v) = inl (v, c) ∧ sender_class_of class = Some c
    ∧ r.(earlyResponse) = None ∧ p.(ap_actorUnattributed) = false
    ∧ (daemonFlag = true → r.(validatedBootstrapSession) = None →
       enforceAdmissionPolicy e.(ev_sourceChannel) c (vm_status <$> r.(resolvedMember)) floor
         = floor_admits)
    ∧ (e.(ev_senderAuthenticated) = Some false →
       c = class_unknown ∧ verdictMemberFromVerdict v = None)
    ∧ (e.(ev_senderAuthenticated) ≠ Some false → borne_out st.(g_acl) e v c).
Proof.
  intros Hids. unfold run_inbound.
  destruct (admitInbound _ _ _ _ _ _ _ _) as [st1 a] eqn:Hg. destruct a; try done.
  apply forwarded_spec in Hg as (Hver & -> & Hno & cached & v0 & Hres & ->).
  rewrite Hver. intros [= <- Hd].
  set (policy := resolveAdmissionPolicy _ _ _) in *. set (svc := gateway_services _ _) in *.
  set (v := downgrade _ v0) in *. exists v.
  unfold handleChannelInbound in Hd. case_bool_decide.
  { unfold handleReactionIntercept in Hd. by repeat case_match. }
  set (p := acl_params _ _ _ _) in *.
  destruct (earlyResponse (enforceIngressAcl svc p)) eqn:Hearly; [done|].
  destruct (mem (event_kind e) _) eqn:Hkind; [done|].
  assert (ap_actorUnattributed p = false) as Hun.
  { simpl. apply mem_false in Hkind. rewrite bool_decide_false; [done|]. set_solver. }
  pose proof (acl_passed svc p Hearly Hun eq_refl) as (v1 & c & Hu & _).
  change (ap_trustVerdict p) with (Some v) in Hu.
  pose proof (usable_spec _ _ _ Hu) as (-> & _ & Hclass & _).
  assert (class = tv_trustClass v) as -> by (repeat case_match; by simplify_eq).
  rewrite Hclass in Hd. exists c. split_and!; try done.
  - intros -> Hb. rewrite Hb in Hd. simpl in Hd. by destruct (enforceAdmissionPolicy _ _ _ _).
  - intros Hf. unfold v, downgrade in Hclass |- *. rewrite bool_decide_true in Hclass |- * by done.
    change (Some class_unknown = Some c) in Hclass. by injection Hclass as <-.
  - intros Hne. unfold borne_out, v, downgrade in Hu |- *. rewrite bool_decide_false in Hu |- * by done.
    apply (usable_resolved _ _ _ _ _ _ _ _ _ _ Hids Hres Hu).
Qed.

Lemma active_member_class t e v c vm :
  borne_out t e v c → verdictMemberFromVerdict v = Some vm → vm.(vm_status) = st_active →
  c = class_guardian ∨ c = class_trusted_contact.
Proof.
  unfold borne_out. destruct (memberIdentity _ _) as [type address].
  intros [Hev Hrow] Hvm Hact. rewrite Hvm in Hrow. destruct Hrow as (m & Hm & Hst & _).
  rewrite Hact in Hst. apply channel_status_of_inv in Hst.
  destruct c; simpl in Hev; [by left|by right|..].
  - destruct Hev as (m' & Hm' & Hst'). rewrite Hm in Hm'. simplify_eq.
    rewrite Hst in Hst'. by destruct Hst'.
  - specialize (Hev m Hm). by rewrite Hst in Hev.
Qed.

(** The record of a sender who passes the access check. *)
Lemma passed_member svc p v c vm :
  verdictUsability p.(ap_trustVerdict) = inl (v, c) →
  (enforceIngressAcl svc p).(earlyResponse) = None → p.(ap_actorUnattributed) = false →
  p.(ap_hasSenderIdentityClaim) = true → verdictMemberFromVerdict v = Some vm →
  vm.(vm_status) ≠ st_blocked ∧ vm.(vm_policy) = policy_allow
  ∧ (vm.(vm_status) = st_revoked → ∃ s, bootstrap_session svc p = Some s).
Proof.
  intros Hu Hearly Hun Hclaim Hvm.
  destruct (acl_passed svc p Hearly Hun Hclaim) as (v1 & c1 & Hu1 & _ & Hpass).
  rewrite Hu in Hu1. simplify_eq. rewrite Hvm in Hpass. case_decide.
  - destruct Hpass as (_ & m & [= <-] & ? & ? & ?). by split_and!.
  - destruct Hpass as (Hb & ? & ? & Hin). split_and!; [done..|]. intros Hrev.
    destruct (validatedBootstrapSession _) as [s|]; [exists s; by apply Hb|].
    rewrite Hrev in Hin. destruct Hin as [|Hin]; [done..|].
    by destruct (ap_effectiveAdmissionPolicy p) as [[]|].
Qed.

(** The row behind a message that gets a turn. *)
Lemma turn_row daemonFlag e now st v c policy :
  let svc := gateway_services now st.(g_verification).(sessions) in
  let p := acl_params daemonFlag e (Some v) policy in
  verdictUsability (Some v) = inl (v, c) →
  (enforceIngressAcl svc p).(earlyResponse) = None → p.(ap_actorUnattributed) = false →
  borne_out st.(g_acl) e v c →
  let '(type, address) := memberIdentity e.(ev_sourceChannel) (Some e.(ev_actorExternalId)) in
  ∀ m, memberRow type (canonicalSenderIdFor type address) st.(g_acl) = Some m →
       m.2.(channel_status) ≠ "blocked" ∧ m.2.(channel_policy) = "allow"
       ∧ (m.2.(channel_status) = "revoked" → opened_by_bootstrap e now st.(g_verification).(sessions)).
Proof.
  intros svc p Hu Hearly Hun. unfold borne_out. destruct (memberIdentity _ _) as [type address].
  intros [_ Hrow] m Hm. destruct (verdictMemberFromVerdict v) as [vm|] eqn:Hvm; [|congruence].
  destruct Hrow as (m' & Hm' & Hst & Hpol). rewrite Hm in Hm'. simplify_eq.
  apply channel_status_of_inv in Hst. apply channel_policy_of_inv in Hpol.
  destruct (passed_member svc p v c vm Hu Hearly Hun eq_refl Hvm) as (H1 & H2 & H3).
  rewrite H2 in Hpol. rewrite Hst. split_and!; [by destruct (vm_status vm)|done|].
  intros Hr. destruct H3 as [s Hs]; [by destruct (vm_status vm)|].
  by eapply bootstrap_session_open.
Qed.

(** The class a turn is started with. *)
Definition turn_class (d : InboundDecision) : option string :=
  match d with turn class _ | reaction_turn class => Some class | _ => None end.

(** A turn on a reaction: the usable verdict of a sender who is no stranger, and a reaction
    added to a post of the assistant. *)
Lemma reaction_stages entries gatewayFlag daemonFlag e now st st' class :
  ids_present st.(g_acl) →
  run_inbound entries gatewayFlag daemonFlag e now st = (st', inr (reaction_turn class)) →
  ∃ v c, verdictUsability (Some v) = inl (v, c) ∧ sender_class_of class = Some c
    ∧ c ≠ class_unknown
    ∧ resolveAdmissionPolicy gatewayFlag e.(ev_sourceChannel) st.(g_policies) ≠ Some no_one
    ∧ event_kind e = kind_reaction
    ∧ (∃ r, resolveInboundReactionPayload e = Some r ∧ r.(rx_op) = reaction_added
            ∧ reactions.(findReactedMessage) e.(ev_sourceChannel) e.(ev_conversationExternalId)
                r.(rx_targetMessageId) = Some {| rm_row := Some ("assistant", false) |})
    ∧ e.(ev_senderAuthenticated) ≠ Some false ∧ borne_out st.(g_acl) e v c.
Proof.
  intros Hids. unfold run_inbound.
  destruct (admitInbound _ _ _ _ _ _ _ _) as [st1 a] eqn:Hg. destruct a; try done.
  apply forwarded_spec in Hg as (_ & -> & Hno & cached & v0 & Hres & ->).
  intros [= <- Hd]. set (v := downgrade _ v0) in *. unfold handleChannelInbound in Hd.
  case_bool_decide as Hkind; [|by repeat case_match].
  destruct (resolveInboundReactionPayload e) as [r|]; [|done]. unfold handleReactionIntercept in Hd.
  destruct (verdictUsability (Some v)) as [[v' c]|] eqn:Hu; [|done].
  pose proof (usable_spec _ _ _ Hu) as (-> & _ & Hclass & _). exists v, c.
  case_bool_decide as Hc; [done|]. destruct (diskPressureBlocks _ _); [done|].
  destruct (alreadyRecorded _ _); [done|].
  destruct (findReactedMessage _ _ _ _) as [[row]|] eqn:Hf; [|done].
  destruct row as [[role card]|]; [|done]. destruct card; [done|]. simpl in Hd.
  destruct (_ && _ && _ && _ && _) eqn:Hw; [|done]. bool_to_prop. subst role.
  injection Hd as <-.
  assert (e.(ev_senderAuthenticated) ≠ Some false) as Hauth.
  { intros Hf'. unfold v, downgrade in Hclass. rewrite bool_decide_true in Hclass by done.
    change (Some class_unknown = Some c) in Hclass. by injection Hclass as <-. }
  split_and!; try done; [by exists r|].
  unfold borne_out, v, downgrade in Hu |- *. rewrite bool_decide_false in Hu |- * by done.
  apply (usable_resolved _ _ _ _ _ _ _ _ _ _ Hids Hres Hu).
Qed.

(** C3: Who gets a turn. Nobody while the floor the gateway resolves is [no_one]; a guardian, a trusted and
    an unverified contact only with the evidence of that class in the contact tables; an
    unauthenticated sender as a stranger only. A message gets its turn always at or above
    the floor, an open bootstrap session apart, and, when its sender is authenticated,
    never from a row that is blocked or denies, and from a revoked one by a bootstrap
    session alone. A reaction, to which neither the floor nor the channel's policy
    applies, gets one only when it was added, by somebody who is no stranger, to a
    message of the assistant. *)
Theorem turn_admitted entries gatewayFlag daemonFlag e now st st' d class :
  ids_present st.(g_acl) →
  run_inbound entries gatewayFlag daemonFlag e now st = (st', inr d) → turn_class d = Some class →
  let '(type, address) := memberIdentity e.(ev_sourceChannel) (Some e.(ev_actorExternalId)) in
  let sender := canonicalSenderIdFor type address in
  let policy := resolveAdmissionPolicy gatewayFlag e.(ev_sourceChannel) st.(g_policies) in
  let opened := opened_by_bootstrap e now st.(g_verification).(sessions) in
  ∃ c, sender_class_of class = Some c
    ∧ policy ≠ Some no_one
    ∧ (e.(ev_senderAuthenticated) = Some false → c = class_unknown)
    ∧ (e.(ev_senderAuthenticated) ≠ Some false → class_evidence st.(g_acl) type sender c)
    ∧ match d with
      | reaction_turn _ =>
          event_kind e = kind_reaction ∧ c ≠ class_unknown
          ∧ ∃ r, resolveInboundReactionPayload e = Some r ∧ r.(rx_op) = reaction_added
              ∧ reactions.(findReactedMessage) e.(ev_sourceChannel) e.(ev_conversationExternalId)
                  r.(rx_targetMessageId) = Some {| rm_row := Some ("assistant", false) |}
      | _ =>
          (opened ∨ meetsAdmissionFloor
                      (if daemonFlag then default ADMISSION_POLICY_DEFAULT policy
                       else trusted_contacts) c = true)
          ∧ (e.(ev_senderAuthenticated) ≠ Some false →
             ∀ m, memberRow type sender st.(g_acl) = Some m →
                  m.2.(channel_status) ≠ "blocked" ∧ m.2.(channel_policy) = "allow"
                  ∧ (m.2.(channel_status) = "revoked" → opened))
      end.
Proof.
  intros Hids Hrun Hturn. destruct d as [| | |class' member| | |class']; try done;
    injection Hturn as ->.
  2: { destruct (reaction_stages _ _ _ _ _ _ _ _ Hids Hrun)
         as (v & c & _ & Hclass & Hc & Hno & Hkind & Hr & Hauth & Hb).
       unfold borne_out in Hb. destruct (memberIdentity _ _) as [type address]. exists c.
       by destruct Hb. }
  destruct (turn_stages _ _ _ _ _ _ _ _ _ Hids Hrun)
    as (v & c & Hno & Hu & Hclass & Hearly & Hun & Hfloor & Hunauth & Hauth).
  pose proof (turn_row daemonFlag e now st v c _ Hu Hearly Hun) as Hrow.
  unfold borne_out in Hauth, Hrow. destruct (memberIdentity _ _) as [type address] eqn:Hid.
  exists c. split; [done|]. split; [done|]. split_and!.
  - intros Hf. by apply Hunauth.
  - intros Hne. by apply Hauth.
  - destruct (passed_clears_floor _ daemonFlag e v v c _ _ Hu eq_refl Hearly Hun)
      as [(s & _ & Hs) | Hf]; [..|left; by eapply bootstrap_session_open|by right].
    + unfold resolveAdmissionPolicy. intros ->. by destruct gatewayFlag.
    + done.
    + intros vm Hvm Hact. destruct (decide (ev_senderAuthenticated e = Some false)) as [Hf|Hne].
      { destruct (Hunauth Hf). congruence. }
      specialize (Hauth Hne). eapply (active_member_class st.(g_acl) e); [|done..].
      unfold borne_out. by rewrite Hid.
  - intros Hne m Hm. by apply Hrow; [apply Hauth|].
Qed.

(** A guardian writing on a channel where the row is active gets a turn as the
    guardian, unless the channel is switched off, the text is a code or an invite,
    or the sender failed the channel's authentication. *)
Theorem guardian_gets_in entries gatewayFlag daemonFlag e now st type address s g :
  memberIdentity e.(ev_sourceChannel) (Some e.(ev_actorExternalId)) = (type, address) →
  canonicalSenderIdFor type address = Some s → guardian_row st.(g_acl) type s g →
  event_kind e = kind_message → text_code (verification_params e) = None →
  (∀ v, redeemsInvite e v = false) → e.(ev_senderAuthenticated) ≠ Some false →
  resolveAdmissionPolicy gatewayFlag e.(ev_sourceChannel) st.(g_policies) ≠ Some no_one →
  ∃ st' vm, run_inbound entries gatewayFlag daemonFlag e now st
              = (st', inr (turn "guardian" (Some vm)))
            ∧ vm.(vm_contactId) = g.2.(channel_contactId).
Proof.
  intros Hid Hs Hg Hkind Hcode Hinv Hauth Hno.
  destruct (guardian_recognised st.(g_hasActorTokens) now st.(g_verification).(sessions)
    st.(g_acl) _ _ st.(g_integrity) _ _ _ _ Hid Hs Hg)
    as (cached & v & vm & Hres & Hu & Hclass & Hvm & Hc & Hst & Hpol).
  assert (truthy e.(ev_actorExternalId) = true) as Hactor.
  { unfold memberIdentity in Hid. destruct (truthy (ev_actorExternalId e)) eqn:Ha; [done|].
    destruct (ev_actorExternalId e); [|done]. by simplify_eq. }
  unfold run_inbound, admitInbound. rewrite bool_decide_false by done.
  unfold resolveAssistant. rewrite Hactor, andb_false_r.
  assert (∃ x, (match find_first _ entries, find_first _ entries with
      | Some r, _ => Some r.(route_assistantId)
      | None, Some r => Some r.(route_assistantId)
      | None, None => Some LOCAL_ASSISTANT_ID end) = Some x) as [x ->]
    by (repeat case_match; eauto).
  assert (carriesUserText e = true) as -> by (unfold carriesUserText; by rewrite Hkind).
  unfold tryTextVerificationIntercept. rewrite Hcode. simpl. rewrite Hres.
  unfold downgrade. rewrite bool_decide_false by done. rewrite Hinv. simpl.
  unfold handleChannelInbound. rewrite Hkind. simpl.
  set (p := acl_params _ _ _ _). set (svc := gateway_services _ _).
  assert (enforceIngressAcl svc p = passed (Some vm) None) as Hacl.
  { unfold enforceIngressAcl. assert (ap_actorUnattributed p = false) as ->
      by (simpl; by rewrite Hkind).
    change (ap_trustVerdict p) with (Some v). rewrite Hu. simpl. rewrite Hvm.
    unfold check_guardian. by rewrite Hst, Hpol. }
  rewrite Hacl, Hclass. simpl. unfold enforceAdmissionPolicy. rewrite Hst. simpl.
  set (policy := resolveAdmissionPolicy _ _ _) in *.
  eexists _, vm. split; [|done]. destruct daemonFlag; [|reflexivity]. simpl.
  destruct (isAdmissionPolicyExemptChannel _); [reflexivity|].
  by destruct policy as [[]|].
Qed.
End Turn.

(** ** The floors stay what the table says *)

Definition distinct_channels (t : PolicyTable) : Prop := NoDup (pr_channelType <$> t).

Lemma coerce_name p : coercePolicy (policy_name p) = p.
Proof. by destruct p. Qed.

Lemma policy_get_set ch ch' p note now t :
  policy_get ch' (policy_set ch p note now t) = if decide (ch' = ch) then p else policy_get ch' t.
Proof.
  unfold policy_set, policy_get. set (new := {| pr_channelType := ch |}).
  rewrite find_first_existsb. destruct (find_first (is_channel_row ch) t) as [r|] eqn:Hf.
  - rewrite find_first_fmap.
    + case_decide as Hch; [subst|].
      * rewrite Hf. simpl. apply find_first_Some in Hf as [_ ->]. simpl. apply coerce_name.
      * destruct (find_first (is_channel_row ch') t) as [r'|] eqn:Hf'; [|done]. simpl.
        apply find_first_Some in Hf' as [_ Hr']. unfold is_channel_row in *. bool_to_prop.
        destruct (String.eqb_spec (pr_channelType r') ch); [congruence|done].
    + intros r'. unfold is_channel_row. destruct (String.eqb_spec (pr_channelType r') ch) as [He|]; [|done].
      unfold new. simpl. by rewrite He.
  - rewrite find_first_app. simpl. unfold is_channel_row at 2. simpl.
    case_decide as Hch; [subst; rewrite Hf, String.eqb_refl; apply coerce_name|].
    destruct (find_first (is_channel_row ch') t); [done|].
    destruct (String.eqb_spec ch ch'); [congruence|done].
Qed.

Lemma policy_get_remove ch ch' t :
  ch' ≠ ch → policy_get ch' (policy_remove ch t) = policy_get ch' t.
Proof.
  intros Hne. unfold policy_remove. destruct (existsb _ t); [|done].
  unfold policy_get. induction t as [|r t IH]; [done|]. simpl.
  destruct (is_channel_row ch r) eqn:Hr; simpl.
  - assert (is_channel_row ch' r = false) as ->; [|done].
    unfold is_channel_row in *. bool_to_prop. apply String.eqb_neq. congruence.
  - by destruct (is_channel_row ch' r).
Qed.

Lemma policy_get_seed ch ch' p now t :
  policy_get ch' (seedDefault ch p now t) =
  if decide (ch' = ch) then (if existsb (is_channel_row ch) t then policy_get ch t else p)
  else policy_get ch' t.
Proof.
  unfold seedDefault. destruct (existsb _ t) eqn:He; [case_decide; by subst|].
  unfold policy_get. rewrite find_first_app. simpl. unfold is_channel_row at 2. simpl.
  rewrite find_first_existsb in He.
  case_decide as Hch; [subst; destruct (find_first _ t); [done|]; rewrite String.eqb_refl|].
  - apply coerce_name.
  - destruct (find_first (is_channel_row ch') t); [done|].
    destruct (String.eqb_spec ch ch'); [congruence|done].
Qed.

Lemma distinct_set ch p note now t :
  distinct_channels t → distinct_channels (policy_set ch p note now t).
Proof.
  unfold distinct_channels, policy_set. intros Hnd. destruct (existsb _ t) eqn:He.
  - replace (pr_channelType <$> _) with (pr_channelType <$> t); [done|].
    rewrite <- list_fmap_compose. apply list_fmap_ext. intros _ r _. simpl.
    unfold is_channel_row. by destruct (String.eqb_spec (pr_channelType r) ch).
  - rewrite fmap_app. apply NoDup_app. split_and!; [done| |apply NoDup_singleton].
    intros x (r & -> & Hr)%list_elem_of_fmap. simpl. rewrite list_elem_of_singleton.
    rewrite existsb_false in He. specialize (He r Hr). unfold is_channel_row in He. by bool_to_prop.
Qed.

Lemma distinct_remove ch t : distinct_channels t → distinct_channels (policy_remove ch t).
Proof.
  unfold distinct_channels, policy_remove. intros Hnd. destruct (existsb _ t); [|done].
  induction t as [|r t IH]; [done|]. simpl in *. apply NoDup_cons in Hnd as [Hr Hnd].
  destruct (negb _); [|by apply IH]. simpl. apply NoDup_cons. split; [|by apply IH].
  intros (r' & Heq & [Hr' _]%elem_of_lfilter)%list_elem_of_fmap.
  apply Hr, list_elem_of_fmap. eauto.
Qed.

Lemma distinct_seed ch p now t : distinct_channels t → distinct_channels (seedDefault ch p now t).
Proof.
  intros Hnd. unfold seedDefault. destruct (existsb _ t) eqn:He; [done|].
  pose proof (distinct_set ch p None now t Hnd) as H. unfold policy_set in H. by rewrite He in H.
Qed.

Lemma distinct_seed_channel now t ch :
  distinct_channels t → distinct_channels (seed_channel now t ch).
Proof.
  intros Hnd. unfold seed_channel. destruct (isAdmissionPolicyExemptChannel ch); [done|].
  destruct (_ && _); [apply distinct_set|]; by apply distinct_seed.
Qed.

(** The cache is a faithful copy of the table. *)
Lemma cache_refresh_get t ch :
  distinct_channels t → isChannelId ch = true → floor_cache_get ch (cache_refresh t) = policy_get ch t.
Proof.
  intros Hnd Hch. unfold floor_cache_get, cache_refresh, policy_get, policy_list.
  assert (∀ acc, map_get ch (foldl (λ m e, map_set e.1 e.2 m) acc
      ((λ r, (r.(pr_channelType), coercePolicy r.(pr_policy)))
         <$> List.filter (λ r, isChannelId r.(pr_channelType)) t))
    = match find_first (is_channel_row ch) t with
      | Some r => Some (coercePolicy r.(pr_policy)) | None => map_get ch acc end) as H.
  { induction t as [|r t IH]; intros acc; [done|]. simpl.
    apply NoDup_cons in Hnd as [Hr Hnd]. specialize (IH Hnd).
    destruct (is_channel_row ch r) eqn:Hc; unfold is_channel_row in Hc; bool_to_prop.
    - rewrite Hc, Hch. simpl. rewrite IH, map_get_set, decide_True by done.
      assert (find_first (is_channel_row ch) t = None) as ->; [|done].
      apply find_first_None. intros r' Hr'. unfold is_channel_row. apply String.eqb_neq.
      intros Heq. apply Hr, list_elem_of_fmap. exists r'. by rewrite Hc, Heq.
    - destruct (isChannelId (pr_channelType r)); simpl; [|apply IH].
      rewrite IH, map_get_set, decide_False by done. done. }
  rewrite (H []). by destruct (find_first _ t).
Qed.

(** The floor of a hidden channel, as the seed pins it. *)
Definition seeded_floor (ch : string) : AdmissionPolicy :=
  default ADMISSION_POLICY_DEFAULT (CHANNEL_ADMISSION_DEFAULTS ch).

Lemma seed_channel_get now t ch h :
  isAdmissionPolicyHiddenChannel h = true →
  policy_get h (seed_channel now t ch) =
  if decide (h = ch) then seeded_floor h else policy_get h t.
Proof.
  intros Hh. unfold seed_channel.
  assert (isAdmissionPolicyExemptChannel h = false) as Hex.
  { apply mem_false. apply mem_true in Hh. set_solver. }
  case_decide as Heq; [subst ch|].
  - rewrite Hex, Hh. simpl. case_bool_decide as Hp; [done|]. simpl.
    by rewrite policy_get_set, decide_True.
  - destruct (isAdmissionPolicyExemptChannel ch); [done|].
    destruct (_ && _); rewrite ?policy_get_set, ?decide_False by done;
      by rewrite policy_get_seed, decide_False.
Qed.

Lemma seeded_hidden now t h :
  isAdmissionPolicyHiddenChannel h = true →
  policy_get h (seedAdmissionPolicyDefaults now t) = seeded_floor h.
Proof.
  intros Hh. unfold seedAdmissionPolicyDefaults.
  assert (∀ chs t, (h ∈ chs ∨ policy_get h t = seeded_floor h) →
            policy_get h (foldl (seed_channel now) t chs) = seeded_floor h) as H.
  { induction chs as [|ch chs IH]; intros t0 Ht; simpl; [destruct Ht; [set_solver|done]|].
    apply IH. rewrite seed_channel_get by done. case_decide; [by right|].
    destruct Ht as [Ht|Ht]; [left; set_solver|by right]. }
  apply H. left. apply mem_true in Hh. unfold CHANNEL_IDS. set_solver.
Qed.

Inductive PolicyCall :=
  | PutPolicy (ch : string) (body : option (string * option string)) (now : Z)
  | DeletePolicy (ch : string).

Definition policy_step (st : PolicyState) (call : PolicyCall) : PolicyState :=
  match call with
  | PutPolicy ch body now => (set_policy_route ch body now st).1
  | DeletePolicy ch => (delete_policy_route ch st).1
  end.

Definition floors_wf (st : PolicyState) : Prop :=
  distinct_channels st.(policy_table)
  ∧ st.(policy_cache) = cache_refresh st.(policy_table)
  ∧ ∀ h, isAdmissionPolicyHiddenChannel h = true →
         policy_get h st.(policy_table) = seeded_floor h.

Lemma policy_step_wf st call : floors_wf st → floors_wf (policy_step st call).
Proof.
  intros Hwf. destruct call as [ch body now|ch]; simpl.
  - unfold set_policy_route. repeat (case_match; try done). simpl.
    destruct Hwf as (Hnd & _ & Hh). split_and!; simpl; [by apply distinct_set|done|].
    intros h Hhid. rewrite policy_get_set, decide_False by congruence. by apply Hh.
  - unfold delete_policy_route. repeat (case_match; try done). simpl.
    destruct Hwf as (Hnd & _ & Hh). split_and!; simpl; [by apply distinct_remove|done|].
    intros h Hhid. rewrite policy_get_remove by congruence. by apply Hh.
Qed.

Lemma start_policies_wf now t : distinct_channels t → floors_wf (start_policies now t).
Proof.
  intros Hnd. split_and!; simpl; [|done|by intros; apply seeded_hidden].
  unfold seedAdmissionPolicyDefaults.
  assert (∀ chs t, distinct_channels t → distinct_channels (foldl (seed_channel now) t chs)) as H.
  { induction chs as [|ch chs IH]; intros t0 Ht; [done|]. simpl.
    by apply IH, distinct_seed_channel. }
  by apply H.
Qed.

(** C37: The floors in force: whatever requests come in after a start of the gateway,
    the cache answers every channel as the table does, and the channels that are
    not configurable keep the floor they are pinned to. *)
Theorem floors_coherent now t calls :
  distinct_channels t →
  let st := foldl policy_step (start_policies now t) calls in
  (∀ ch, isChannelId ch = true → floor_cache_get ch st.(policy_cache) = policy_get ch st.(policy_table))
  ∧ (∀ h, isAdmissionPolicyHiddenChannel h = true →
          floor_cache_get h st.(policy_cache) = seeded_floor h).
Proof.
  intros Hnd st.
  assert (floors_wf st) as (Hd & Hc & Hh).
  { subst st. generalize (start_policies_wf now t Hnd). generalize (start_policies now t).
    induction calls as [|call calls IH]; intros st Hst; [done|]. simpl.
    by apply IH, policy_step_wf. }
  rewrite Hc. split; [intros; by apply cache_refresh_get|].
  intros h Hhid. rewrite cache_refresh_get; [by apply Hh|done|].
  apply mem_true. apply mem_true in Hhid. unfold CHANNEL_IDS. set_solver.
Qed.

(** ** What a denial sets off *)

(** An effect that reaches out about the sender, beyond answering it. *)
Definition reaches_out (f : AclEffect) : bool :=
  match f with challenge_minted _ | guardian_asked _ => true | _ => false end.

Definition minting_channel (p : AclParams) : Prop :=
  p.(ap_sourceChannel) = "email"
  ∨ p.(ap_sourceChannel) = "slack" ∧ p.(ap_isBot) ≠ Some true.

Section Effects.
Context (services : AclServices).

Lemma slack_challenge_some p v s :
  slack_challenge services p v = Some s →
  p.(ap_isCallbackInteraction) = false ∧ minting_channel p.
Proof.
  unfold slack_challenge. case_match; [|done]. intros _. bool_to_prop.
  split; [done|]. by right.
Qed.

Lemma email_challenge_some p v s :
  email_challenge services p v = Some s →
  p.(ap_isCallbackInteraction) = false ∧ minting_channel p.
Proof.
  unfold email_challenge. case_match; [|done]. intros _. bool_to_prop. by split; [|left].
Qed.

Lemma ask_guardian_callback p prev f :
  f ∈ (ask_guardian services p prev).1.1 →
  p.(ap_isCallbackInteraction) = false ∧ f = guardian_asked prev.
Proof.
  unfold ask_guardian. destruct (ap_isCallbackInteraction p); simpl; [set_solver|].
  intros ->%list_elem_of_singleton. done.
Qed.

Lemma reply_reaches p text f : f ∈ reply_effects p text → reaches_out f = false.
Proof. unfold reply_effects. case_match; [|set_solver]. by intros ->%list_elem_of_singleton. Qed.

Lemma non_member_effects p v f :
  f ∈ (deny_non_member services p v).(acl_effects) → reaches_out f = true →
  p.(ap_isCallbackInteraction) = false ∧ ((∃ s, f = challenge_minted s) → minting_channel p).
Proof.
  unfold deny_non_member. intros Hf Hr.
  destruct (slack_challenge services p v) eqn:Hs.
  { apply slack_challenge_some in Hs. naive_solver. }
  destruct (email_challenge services p v) eqn:He.
  { apply email_challenge_some in He. naive_solver. }
  pose proof (ask_guardian_callback p None f) as Hask.
  destruct (ask_guardian services p None) as [[effects notified] handshake]. simpl in *.
  apply elem_of_app in Hf as [Hf|Hf].
  - destruct (Hask Hf) as [? ->]. split; [done|]. by intros [s ?].
  - by rewrite (reply_reaches _ _ _ Hf) in Hr.
Qed.

Lemma inactive_effects p v m f :
  f ∈ (deny_inactive_member services p v m).(acl_effects) → reaches_out f = true →
  isKeptOutStatus (Some m.(vm_status)) = false ∧
  p.(ap_isCallbackInteraction) = false ∧ ((∃ s, f = challenge_minted s) → minting_channel p).
Proof.
  unfold deny_inactive_member. destruct (isKeptOutStatus _); intros Hf Hr; simpl in *.
  { by rewrite (reply_reaches _ _ _ Hf) in Hr. }
  split; [done|].
  destruct (slack_challenge services p v) eqn:Hs.
  { apply slack_challenge_some in Hs. naive_solver. }
  pose proof (ask_guardian_callback p (Some (member_status_name m.(vm_status))) f) as Hask.
  destruct (ask_guardian services p _) as [[effects notified] handshake]. simpl in *.
  apply elem_of_app in Hf as [Hf|Hf].
  - destruct (Hask Hf) as [? ->]. split; [done|]. by intros [s ?].
  - by rewrite (reply_reaches _ _ _ Hf) in Hr.
Qed.

Lemma check_member_effects p v m f :
  f ∈ (check_member services p v m).(acl_effects) → reaches_out f = true →
  isKeptOutStatus (Some m.(vm_status)) = false ∧
  p.(ap_isCallbackInteraction) = false ∧ ((∃ s, f = challenge_minted s) → minting_channel p).
Proof.
  unfold check_member. intros Hf Hr. destruct (negb (_ || _)); [by eapply inactive_effects|].
  destruct (bool_decide (vm_policy m = policy_deny)); simpl in Hf; [|set_solver].
  by rewrite (reply_reaches _ _ _ Hf) in Hr.
Qed.

(** Denials keep quiet where they must: the guardian is asked, and a challenge
    minted, only for somebody with a usable verdict who is no guardian and not
    kept out by one, never in answer to a button press, a reaction or a delete, and a
    challenge only over email or to a human on Slack. A sender nobody vouches for
    is denied without any effect, and one who passes has none either. *)
Theorem denials_quiet p :
  let r := enforceIngressAcl services p in
  (∀ f, f ∈ r.(acl_effects) → reaches_out f = true →
     p.(ap_isCallbackInteraction) = false
     ∧ ((∃ s, f = challenge_minted s) → minting_channel p)
     ∧ ∃ v c, verdictUsability p.(ap_trustVerdict) = inl (v, c) ∧ c ≠ class_guardian
              ∧ isKeptOutStatus (vm_status <$> verdictMemberFromVerdict v) = false)
  ∧ (∀ reason, verdictUsability p.(ap_trustVerdict) = inr reason →
     p.(ap_actorUnattributed) = false → r = failClosedDeny)
  ∧ (r.(earlyResponse) = None → r.(acl_effects) = []).
Proof.
  intros r. subst r. unfold enforceIngressAcl.
  destruct (ap_actorUnattributed p); [by split_and!; simpl; [set_solver|..]|].
  destruct (verdictUsability _) as [[v c]|]; [|by split_and!; simpl; [set_solver|..]].
  case_bool_decide as Hc.
  { unfold check_guardian. split_and!; repeat case_match; simpl; try done; set_solver. }
  unfold check_sender. destruct (negb _ && negb _); [by split_and!; simpl; [set_solver|..]|].
  destruct (verdictMemberFromVerdict v) as [m|] eqn:Hm.
  - split_and!; [|done|].
    + intros f Hf Hr. destruct (check_member_effects p v m f Hf Hr) as (? & ? & ?).
      split_and!; [done..|]. exists v, c. by rewrite Hm.
    + intros Hn. unfold check_member in *. destruct (negb (_ || _)).
      { unfold deny_inactive_member in Hn. by repeat case_match. }
      by destruct (bool_decide (vm_policy m = policy_deny)).
  - destruct (bootstrap_session services p); [by split_and!; simpl; [set_solver|..]|].
    destruct (non_member_bypass _); [by split_and!; simpl; [set_solver|..]|].
    split_and!; [|done|].
    + intros f Hf Hr. destruct (non_member_effects p v f Hf Hr) as (? & ?).
      split_and!; [done..|]. exists v, c. by rewrite Hm.
    + intros Hn. by apply non_member_denied in Hn.
Qed.
End Effects.

(** ** Concrete instances *)

Definition contact (id role : string) (principal : option string) : Contact :=
  {| contact_id := id; displayName := id; contact_role := role; principalId := principal;
     autoApproveThreshold := None; contact_createdAt := 0; contact_updatedAt := 0 |}.

Definition contact_channel (id owner type address status policy : string) : ContactChannel :=
  {| channel_id := id; channel_contactId := owner; channel_type := type;
     channel_address := address; channel_isPrimary := false; channel_externalChatId := None;
     channel_status := status; channel_policy := policy; channel_verifiedAt := None;
     channel_verifiedVia := None; channel_inviteId := None; channel_revokedReason := None;
     channel_blockedReason := None; channel_lastSeenAt := None; channel_interactionCount := 0;
     channel_lastInteraction := None; channel_createdAt := 0; channel_updatedAt := None |}.

(** A guardian on Telegram, a contact there, one who is blocked by email. *)
Definition sample_acl : AclTables :=
  {| acl_contacts := [contact "g" "guardian" (Some "p"); contact "a" "contact" None;
                      contact "m" "contact" None];
     acl_channels := [contact_channel "c1" "g" "telegram" "7" "active" "allow";
                      contact_channel "c2" "a" "telegram" "42" "active" "allow";
                      contact_channel "c3" "m" "email" "mallory@example.com" "blocked" "allow"] |}.

Definition sample_gateway (policies : PolicyTable) : GatewayState :=
  {| g_acl := sample_acl; g_hasActorTokens := false;
     g_verification := {| sessions := []; limits := ∅ |};
     g_policies := cache_refresh policies; g_integrity := None |}.

Definition text_from (ch actor : string) (authenticated : option bool) : InboundEvent :=
  {| ev_sourceChannel := ch; ev_actorExternalId := actor; ev_conversationExternalId := "chat";
     ev_content := "hello"; ev_eventKind := Some "message"; ev_isEdit := false;
     ev_callbackData := None; ev_callbackQueryId := None; ev_isDirectMessage := Some true;
     ev_isBot := None; ev_actorUnattributed := false; ev_commandIntent := None;
     ev_replyCallbackUrl := None; ev_senderAuthenticated := authenticated; ev_reaction := None;
     ev_messageId := None; ev_sourceInterface := None |}.

Definition no_services : AclServices :=
  {| resolveBootstrapToken := λ _ _, None; readSenderSessions := λ _ _, None;
     mintChallenge := λ _ _, None; notifyGuardian := λ _, None; handshakeLive := false;
     replyDelivered := false; guardianLabel := default "the owner" |}.

(** One message of the assistant is stored. *)
Definition sample_reactions : ReactionServices :=
  {| diskPressureBlocks := λ _, false; alreadyRecorded := λ _, false;
     findReactedMessage := λ _ _ id,
       if String.eqb id "m1" then Some {| rm_row := Some ("assistant", false) |} else None;
     dispatchStarts := true |}.

Definition sample_run (policies : PolicyTable) (e : InboundEvent)
    : GatewayState * (InboundAdmission + InboundDecision) :=
  run_inbound (λ s, s) (λ _ _ _ _, true) (λ _ _, false) no_services sample_reactions [] true true e 0
    (sample_gateway policies).

Lemma turn_admitted_witness :
  ∃ c, sender_class_of "trusted_contact" = Some c
    ∧ class_evidence sample_acl "telegram" (Some "42") c
    ∧ meetsAdmissionFloor trusted_contacts c = true.
Proof.
  destruct (sample_run [] (text_from "telegram" "42" None)) as [st' a] eqn:Hrun.
  assert (∃ m, a = inr (turn "trusted_contact" m)) as [m ->].
  { change a with (st', a).2. rewrite <- Hrun. eexists. vm_compute. reflexivity. }
  unfold sample_run in Hrun.
  destruct (turn_admitted (λ s, s) (λ _ _ _ _, true) (λ _ _, false) no_services sample_reactions []
              true true (text_from "telegram" "42" None) 0 (sample_gateway []) st'
              (turn "trusted_contact" m) "trusted_contact")
    as (c & Hc & _ & _ & Ha & Hf & _).
  - repeat (apply Forall_cons_2; [reflexivity|]). apply Forall_nil_2.
  - exact Hrun.
  - reflexivity.
  - exists c. split; [exact Hc|]. split; [apply Ha; discriminate|].
    destruct Hf as [(token & r & _ & Hin & _)|Hf]; [by apply not_elem_of_nil in Hin|exact Hf].
Defined.

Lemma guardian_gets_in_witness :
  ∃ st' vm, sample_run [] (text_from "telegram" " 7 " None)
              = (st', inr (turn "guardian" (Some vm)))
            ∧ vm.(vm_contactId) = "g".
Proof.
  unfold sample_run.
  apply (guardian_gets_in (λ s, s) (λ _ _ _ _, true) (λ _ _, false) no_services sample_reactions [] true true
           (text_from "telegram" " 7 " None) 0 (sample_gateway []) "telegram" (Some " 7 ") "7"
           (contact "g" "guardian" (Some "p"),
            contact_channel "c1" "g" "telegram" "7" "active" "allow")).
  - reflexivity.
  - reflexivity.
  - split; try reflexivity; [by left|by split|].
    intros row Hin. simpl in Hin. unfold joined in Hin. simpl in Hin.
    repeat (apply elem_of_cons in Hin as [-> | Hin]; [by vm_compute|]).
    by apply not_elem_of_nil in Hin.
  - reflexivity.
  - reflexivity.
  - reflexivity.
  - discriminate.
  - discriminate.
Defined.

Lemma floors_coherent_witness :
  let calls := [PutPolicy "slack" (Some ("strangers", None)) 5; PutPolicy "vellum" None 6;
                DeletePolicy "telegram"] in
  let st := foldl policy_step (start_policies 0 []) calls in
  floor_cache_get "slack" st.(policy_cache) = policy_get "slack" st.(policy_table).
Proof.
  intros calls st. apply (floors_coherent 0 [] calls); [apply NoDup_nil_2|reflexivity].
Defined.

(** ** Where the code falls short of its comments *)

(** Removing the row of a channel whose seeded floor is stricter than the default
    opens it to contacts until the next start. *)
Lemma reset_loosens_plugin :
  let st := start_policies 0 [] in
  let st' := policy_step st (DeletePolicy "plugin") in
  floor_cache_get "plugin" st.(policy_cache) = guardian_only
  ∧ floor_cache_get "plugin" st'.(policy_cache) = trusted_contacts
  ∧ seeded_floor "plugin" = guardian_only.
Proof. by vm_compute. Qed.

(** A blocked sender is kept out of a channel that admits strangers, but gets a
    turn when its message fails the channel's authentication. *)
Lemma blocked_sender_unauthenticated :
  let open := policy_set "email" strangers None 0 [] in
  (∃ r, (sample_run open (text_from "email" "mallory@example.com" None)).2 = inr (acl_denied r))
  ∧ (sample_run open (text_from "email" "mallory@example.com" (Some false))).2
    = inr (turn "unknown" None).
Proof. split; [eexists|]; vm_compute; reflexivity. Qed.

(** The stage is for an admitted actor's reaction, but asks for a known one only: a contact
    whose channel denies, on a channel for guardians, is denied its message and gets a turn
    by a reaction to a post of the assistant. *)
Lemma denied_contact_reaction_wakes :
  let gateway := {| g_acl := {| acl_contacts := [contact "a" "contact" None];
                                acl_channels := [contact_channel "c" "a" "telegram" "42" "active" "deny"] |};
                    g_hasActorTokens := false;
                    g_verification := {| sessions := []; limits := ∅ |};
                    g_policies := cache_refresh (policy_set "telegram" guardian_only None 0 []);
                    g_integrity := None |} in
  let run kind r := (run_inbound (λ s, s) (λ _ _ _ _, true) (λ _ _, false) no_services sample_reactions
    [] true true
    {| ev_sourceChannel := "telegram"; ev_actorExternalId := "42"; ev_conversationExternalId := "chat";
       ev_content := "hello"; ev_eventKind := Some kind; ev_isEdit := false;
       ev_callbackData := None; ev_callbackQueryId := None; ev_isDirectMessage := Some true;
       ev_isBot := None; ev_actorUnattributed := false; ev_commandIntent := None;
       ev_replyCallbackUrl := Some "https://reply"; ev_senderAuthenticated := None;
       ev_reaction := r; ev_messageId := None; ev_sourceInterface := Some "telegram" |} 0 gateway).2 in
  (∃ r, run "message" None = inr (acl_denied r))
  ∧ run "reaction" (Some {| rx_op := reaction_added; rx_emoji := "+1"; rx_targetMessageId := "m1" |})
    = inr (reaction_turn "trusted_contact").
Proof. split; [eexists|]; vm_compute; reflexivity. Qed.
