(* ===== verification/RiskTypes.v ===== *)
(** The vocabulary of the command risk classifier
    ([gateway/src/risk/risk-types.ts]): risk levels and their order, argument
    schemas, command specifications, parsed shell commands, assessments.

    A risk is an [option Risk]: [None] is the [undefined] the code reads off an
    object without a [baseRisk]. Comparisons with [undefined] are false. *)
From S2P Require Import Prelude JsString JsMap.

(** ** Risks *)

Inductive Risk := low | medium | high | unknown.
Inductive RiskLevel := Low | Medium | High.

#[export] Instance Risk_eq_dec : EqDecision Risk.
Proof. solve_decision. Defined.
#[export] Instance RiskLevel_eq_dec : EqDecision RiskLevel.
Proof. solve_decision. Defined.

Definition RISK_ORD (r : Risk) : Z :=
  match r with low => 0 | medium => 1 | unknown => 2 | high => 3 end%Z.

Definition riskOrd (risk : option Risk) : option Z := RISK_ORD <$> risk.

(** JavaScript's [>] and [>=] on possibly undefined numbers. *)
Definition js_gt (a b : option Z) : bool :=
  match a, b with Some x, Some y => (y <? x)%Z | _, _ => false end.
Definition js_ge (a b : option Z) : bool :=
  match a, b with Some x, Some y => (y <=? x)%Z | _, _ => false end.

Definition maxRisk (a b : option Risk) : option Risk :=
  if js_ge (riskOrd a) (riskOrd b) then a else b.

Definition riskToRiskLevel (risk : option Risk) : option RiskLevel :=
  match risk with
  | Some low => Some Low
  | Some medium => Some Medium
  | Some high => Some High
  | Some unknown => Some Medium
  | None => None
  end.

(** ** Argument schemas *)

Inductive PositionalRole := RolePath | RolePattern | RoleScript | RoleValue | RoleCommand.

Record PositionalDesc := { role : PositionalRole; rest : option bool }.

Inductive PositionalsDef :=
  | PosPaths
  | PosNone
  | PosDescs (descs : list PositionalDesc).

Record ArgSchema := {
  valueFlags : option (list string);
  positionalsDef : option PositionalsDef;
  pathFlags : option (list string);
  respectsDoubleDash : option bool }.

(** The value stored for a flag: [true] or the consumed string. *)
Inductive FlagValue := FlagTrue | FlagStr (value : string).

Record ParsedArgs := {
  flags : list (string * FlagValue);
  positionals : list string;
  pathArgs : list string;
  sawDoubleDash : bool }.

(** ** Command specifications *)

Record ArgRule := {
  rule_id : string;
  rule_flags : option (list string);
  valuePattern : option string;
  rule_risk : Risk;
  rule_reason : string }.

Inductive CommandRiskSpec := Spec {
  baseRisk : option Risk;
  subcommands : option (list (string * CommandRiskSpec));
  argRules : option (list ArgRule);
  isWrapper : option bool;
  nonExecFlags : option (list string);
  complexSyntax : option bool;
  spec_reason : option string;
  sandboxAutoApprove : option bool;
  filesystemOp : option bool;
  argSchema : option ArgSchema }.

(** ** Parsed commands *)

Inductive Operator := OpAnd | OpOr | OpSemi | OpPipe | OpNone.
#[export] Instance Operator_eq_dec : EqDecision Operator.
Proof. solve_decision. Defined.

Record CommandSegment := {
  command : string;
  program : string;
  args : list string;
  operator : Operator;
  synthetic : option bool }.

Inductive DangerousPatternType :=
  | pipe_to_shell | base64_execute | process_substitution | sensitive_redirect
  | network_redirect | dangerous_substitution | env_injection.

Record DangerousPattern := {
  dp_type : DangerousPatternType;
  dp_description : string;
  dp_text : string }.

Record ParsedCommand := {
  originalCommand : string;
  segments : list CommandSegment;
  dangerousPatterns : list DangerousPattern;
  hasOpaqueConstructs : bool }.

(** ** Assessments *)

Inductive MatchType := user_rule | registry_match | unknown_match.
#[export] Instance MatchType_eq_dec : EqDecision MatchType.
Proof. solve_decision. Defined.

Record ScopeOption := { so_pattern : string; so_label : string }.
Record AllowlistOption := {
  al_label : string; al_description : string; al_pattern : string }.

Record RiskAssessment := {
  riskLevel : option Risk;
  reason : string;
  scopeOptions : list ScopeOption;
  matchType : MatchType;
  allowlistOptions : list AllowlistOption }.

Inductive ToolName := bash | host_bash.
#[export] Instance ToolName_eq_dec : EqDecision ToolName.
Proof. solve_decision. Defined.

Definition tool_string (t : ToolName) : string :=
  match t with bash => "bash" | host_bash => "host_bash" end.

(** ** The risk order *)

(** [risk_le a b]: [b] is at least as risky as [a]; [unknown] lies between
    [medium] and [high]. *)
Definition risk_le (a b : Risk) : Prop := (RISK_ORD a <= RISK_ORD b)%Z.
#[export] Instance risk_le_dec a b : Decision (risk_le a b) := decide (_ <= _)%Z.

#[export] Instance risk_le_preorder : PreOrder risk_le.
Proof. split; [intros ?|intros ???]; unfold risk_le; lia. Qed.

Lemma RISK_ORD_inj a b : RISK_ORD a = RISK_ORD b → a = b.
Proof. by destruct a, b. Qed.

#[export] Instance risk_le_antisymm : AntiSymm (=) risk_le.
Proof. intros a b ??. apply RISK_ORD_inj. unfold risk_le in *. lia. Qed.

Lemma risk_le_total a b : risk_le a b ∨ risk_le b a.
Proof. unfold risk_le. lia. Qed.

Lemma risk_le_high a : risk_le a high.
Proof. destruct a; unfold risk_le; simpl; lia. Qed.

Lemma risk_le_low a : risk_le low a.
Proof. destruct a; unfold risk_le; simpl; lia. Qed.

Lemma js_gt_spec a b : js_gt (riskOrd (Some a)) (riskOrd (Some b)) = false ↔ risk_le a b.
Proof. unfold risk_le. simpl. apply Z.ltb_ge. Qed.

Lemma js_ge_spec a b : js_ge (riskOrd (Some a)) (riskOrd (Some b)) = true ↔ risk_le b a.
Proof. unfold risk_le. simpl. apply Z.leb_le. Qed.

Lemma maxRisk_Some a b :
  ∃ m, maxRisk (Some a) (Some b) = Some m ∧ risk_le a m ∧ risk_le b m ∧ (m = a ∨ m = b).
Proof.
  unfold maxRisk. destruct (js_ge _ _) eqn:E.
  - apply js_ge_spec in E. exists a. split_and!; auto. reflexivity.
  - exists b. split_and!; auto; [|reflexivity].
    destruct (risk_le_total a b) as [|H]; [done|].
    apply js_ge_spec in H. congruence.
Qed.

Lemma maxRisk_None_l b : maxRisk None b = b.
Proof. done. Qed.

#[export] Hint Resolve risk_le_high risk_le_low : vellum.
