(* ===== verification/RegistrySyntax.v ===== *)
(** Object-literal syntax for the command registry: a specification is its base
    risk and the list of the properties its literal gives, in the literal's
    order; properties it omits are absent. *)
From S2P Require Import Prelude JsString JsMap RiskTypes.

Definition empty_spec (r : Risk) : CommandRiskSpec :=
  {| baseRisk := Some r; subcommands := None; argRules := None; isWrapper := None;
     nonExecFlags := None; complexSyntax := None; spec_reason := None;
     sandboxAutoApprove := None; filesystemOp := None; argSchema := None |}.

Definition SpecField := CommandRiskSpec → CommandRiskSpec.

Definition spec (r : Risk) (fields : list SpecField) : CommandRiskSpec :=
  foldl (λ s f, f s) (empty_spec r) fields.

Definition with_subcommands (v : list (string * CommandRiskSpec)) : SpecField :=
  λ '(Spec a _ c d e f g h i j), Spec a (Some v) c d e f g h i j.
Definition with_argRules (v : list ArgRule) : SpecField :=
  λ '(Spec a b _ d e f g h i j), Spec a b (Some v) d e f g h i j.
Definition with_isWrapper (v : bool) : SpecField :=
  λ '(Spec a b c _ e f g h i j), Spec a b c (Some v) e f g h i j.
Definition with_nonExecFlags (v : list string) : SpecField :=
  λ '(Spec a b c d _ f g h i j), Spec a b c d (Some v) f g h i j.
Definition with_complexSyntax (v : bool) : SpecField :=
  λ '(Spec a b c d e _ g h i j), Spec a b c d e (Some v) g h i j.
Definition with_reason (v : string) : SpecField :=
  λ '(Spec a b c d e f _ h i j), Spec a b c d e f (Some v) h i j.
Definition with_sandboxAutoApprove (v : bool) : SpecField :=
  λ '(Spec a b c d e f g _ i j), Spec a b c d e f g (Some v) i j.
Definition with_filesystemOp (v : bool) : SpecField :=
  λ '(Spec a b c d e f g h _ j), Spec a b c d e f g h (Some v) j.
Definition with_argSchema (v : ArgSchema) : SpecField :=
  λ '(Spec a b c d e f g h i _), Spec a b c d e f g h i (Some v).

Definition SchemaField := ArgSchema → ArgSchema.

Definition schema (fields : list SchemaField) : ArgSchema :=
  foldl (λ s f, f s)
    {| valueFlags := None; positionalsDef := None; pathFlags := None;
       respectsDoubleDash := None |} fields.

Definition value_flags (v : list string) : SchemaField :=
  λ s, {| valueFlags := Some v; positionalsDef := s.(positionalsDef);
          pathFlags := s.(pathFlags); respectsDoubleDash := s.(respectsDoubleDash) |}.
Definition positionals_are (v : PositionalsDef) : SchemaField :=
  λ s, {| valueFlags := s.(valueFlags); positionalsDef := Some v;
          pathFlags := s.(pathFlags); respectsDoubleDash := s.(respectsDoubleDash) |}.
Definition path_flags (v : list string) : SchemaField :=
  λ s, {| valueFlags := s.(valueFlags); positionalsDef := s.(positionalsDef);
          pathFlags := Some v; respectsDoubleDash := s.(respectsDoubleDash) |}.
Definition double_dash (v : bool) : SchemaField :=
  λ s, {| valueFlags := s.(valueFlags); positionalsDef := s.(positionalsDef);
          pathFlags := s.(pathFlags); respectsDoubleDash := Some v |}.

Definition positional (r : PositionalRole) (is_rest : option bool) : PositionalDesc :=
  {| role := r; rest := is_rest |}.

Definition arg_rule (id : string) (flags : option (list string))
    (pattern : option string) (risk : Risk) (why : string) : ArgRule :=
  {| rule_id := id; rule_flags := flags; valuePattern := pattern;
     rule_risk := risk; rule_reason := why |}.
