(* ===== verification/RegistryA.v ===== *)
(** Command registry entries [7z] to [nft]
    ([gateway/src/risk/command-registry/commands]), one definition per file. *)
From S2P Require Import Prelude JsString JsMap RiskTypes RegistrySyntax.

Definition cmd__7z : CommandRiskSpec :=
  spec medium [with_filesystemOp true; with_argSchema (schema [])].

Definition cmd__7za : CommandRiskSpec :=
  spec medium [with_filesystemOp true; with_argSchema (schema [])].

Definition cmd_ack : CommandRiskSpec :=
  spec low [with_sandboxAutoApprove true;
     with_argSchema (schema [positionals_are (PosDescs [positional RolePattern None; positional RolePath (Some true)])])].

Definition cmd_adduser : CommandRiskSpec :=
  spec high [with_reason "Creates system user"].

Definition cmd_ag : CommandRiskSpec :=
  spec low [with_sandboxAutoApprove true;
     with_argSchema (schema [positionals_are (PosDescs [positional RolePattern None; positional RolePath (Some true)])])].

Definition cmd_alias : CommandRiskSpec :=
  spec low [].

Definition cmd_ant : CommandRiskSpec :=
  spec high [with_reason "Executes Ant targets and tasks"].

Definition cmd_apk : CommandRiskSpec :=
  spec high [with_reason "Installs/removes system packages"].

Definition cmd_apt : CommandRiskSpec :=
  spec high [with_reason "Installs/removes system packages"].

Definition cmd_apt_get : CommandRiskSpec :=
  spec high [with_reason "Installs/removes system packages"].

Definition cmd_at : CommandRiskSpec :=
  spec high [with_reason "Schedules command execution"].

Definition cmd_awk : CommandRiskSpec :=
  spec medium [with_argSchema (schema [positionals_are (PosDescs [positional RoleScript None; positional RolePath (Some true)])]);
     with_complexSyntax true; with_reason "Can execute shell commands via system()"].

Definition cmd_aws : CommandRiskSpec :=
  spec high [with_reason "Can mutate cloud infrastructure"].

Definition cmd_az : CommandRiskSpec :=
  spec high [with_reason "Can mutate cloud infrastructure"].

Definition cmd_b2sum : CommandRiskSpec :=
  spec low [with_filesystemOp true].

Definition cmd_base64 : CommandRiskSpec :=
  spec low [with_argSchema (schema [])].

Definition cmd_basename : CommandRiskSpec :=
  spec low [with_sandboxAutoApprove true; with_argSchema (schema [])].

Definition cmd_bash : CommandRiskSpec :=
  spec high [with_reason "Executes arbitrary shell commands"; with_complexSyntax true].

Definition cmd_bazel : CommandRiskSpec :=
  spec high [with_reason "Executes project-defined build actions"].

Definition cmd_brew : CommandRiskSpec :=
  spec medium [with_subcommands [("list", spec low []); ("info", spec low []); ("search", spec low []);
       ("install", spec medium []); ("update", spec medium []); ("upgrade", spec medium []);
       ("uninstall", spec high [])]].

Definition cmd_bun : CommandRiskSpec :=
  spec medium [with_subcommands [("install", spec medium []); ("add", spec medium []); ("update", spec medium []);
       ("test", spec high [with_reason "Executes arbitrary test code"]);
       ("run", spec high [with_reason "Executes arbitrary scripts"])]].

Definition cmd_bunx : CommandRiskSpec :=
  spec high [with_reason "Downloads and executes arbitrary packages"].

Definition cmd_bunzip2 : CommandRiskSpec :=
  spec medium [with_filesystemOp true; with_argSchema (schema [])].

Definition cmd_bzip2 : CommandRiskSpec :=
  spec medium [with_filesystemOp true; with_argSchema (schema [])].

Definition cmd_cal : CommandRiskSpec :=
  spec low [].

Definition cmd_cargo : CommandRiskSpec :=
  spec medium [with_subcommands [("build", spec medium []); ("check", spec medium []);
       ("test", spec high [with_reason "Executes arbitrary test code"]);
       ("run", spec high [with_reason "Compiles and executes code"]);
       ("install", spec medium []); ("uninstall", spec medium [])]].

Definition cmd_cat : CommandRiskSpec :=
  spec low [with_sandboxAutoApprove true; with_filesystemOp true; with_argSchema (schema []);
     with_argRules [arg_rule "cat:sensitive" None
          (Some "(?:^|/)(?:\.ssh|\.gnupg|\.aws|\.config|\.env)\b") high
          "Reads sensitive file"]].

Definition cmd_cd : CommandRiskSpec :=
  spec low [].

Definition cmd_chgrp : CommandRiskSpec :=
  spec high [with_sandboxAutoApprove true; with_argSchema (schema []);
     with_reason "Changes file group"].

Definition cmd_chmod : CommandRiskSpec :=
  spec high [with_sandboxAutoApprove true; with_filesystemOp true; with_argSchema (schema []);
     with_reason "Changes file permissions"].

Definition cmd_chown : CommandRiskSpec :=
  spec high [with_sandboxAutoApprove true; with_filesystemOp true; with_argSchema (schema []);
     with_reason "Changes file ownership"].

Definition cmd_chroot : CommandRiskSpec :=
  spec high [with_reason "Changes root directory for command"].

Definition cmd_cksum : CommandRiskSpec :=
  spec low [with_filesystemOp true].

Definition cmd_cmake : CommandRiskSpec :=
  spec high [with_reason "Evaluates CMake scripts and can execute commands"].

Definition cmd_cmp : CommandRiskSpec :=
  spec low [with_filesystemOp true; with_argSchema (schema [])].

Definition cmd_column : CommandRiskSpec :=
  spec low [with_filesystemOp true; with_argSchema (schema [])].

Definition cmd_comm : CommandRiskSpec :=
  spec low [with_filesystemOp true; with_argSchema (schema [])].

Definition cmd_command : CommandRiskSpec :=
  spec low [with_isWrapper true; with_nonExecFlags ["-v"; "-V"];
     with_argRules [arg_rule "command:lookup" (Some ["-v"; "-V"])
          None low
          "Command lookup"]].

Definition cmd_composer : CommandRiskSpec :=
  spec medium [with_subcommands [("show", spec low []); ("install", spec medium []); ("update", spec medium []);
       ("remove", spec medium []);
       ("run-script", spec high [with_reason "Executes arbitrary scripts"])]].

Definition cmd_cp : CommandRiskSpec :=
  spec medium [with_sandboxAutoApprove true; with_filesystemOp true;
     with_argSchema (schema [value_flags ["-t"; "--target-directory"];
               path_flags ["-t"; "--target-directory"]]);
     with_argRules [arg_rule "cp:system" None
          (Some "^/(?:usr|bin|sbin|lib|boot|dev|proc|sys)\b") high
          "Copies to system path"]].

Definition cmd_crontab : CommandRiskSpec :=
  spec high [with_reason "Schedules privileged command execution"].

Definition cmd_csplit : CommandRiskSpec :=
  spec medium [with_filesystemOp true; with_argSchema (schema [])].

Definition cmd_curl : CommandRiskSpec :=
  spec medium [with_argSchema (schema [value_flags ["-d"; "--data"; "--data-binary"; "--data-raw"; "--data-urlencode";
                       "-T"; "--upload-file"; "-o"; "--output"; "-H"; "--header"; "-X";
                       "--request"; "-u"; "--user"; "-A"; "--user-agent"; "-e"; "--referer";
                       "-b"; "--cookie"; "-c"; "--cookie-jar"; "--connect-timeout"; "-m";
                       "--max-time"; "--retry"; "-w"; "--write-out"];
               positionals_are PosNone]);
     with_argRules [arg_rule "curl:upload-data" (Some ["-d"; "--data"; "--data-binary"; "--data-raw"])
          (Some "^@") high
          "Uploads file contents";
       arg_rule "curl:upload-file" (Some ["-T"; "--upload-file"])
          None high
          "Uploads file";
       arg_rule "curl:output-sensitive" (Some ["-o"; "--output"])
          (Some "(?:^|/)(?:\.ssh|\.gnupg|\.aws|\.config|\.env)\b") high
          "Writes to sensitive path";
       arg_rule "curl:localhost" None
          (Some "^https?://(localhost|127\.0\.0\.1|\[::1\])") low
          "Local request"]].

Definition cmd_cut : CommandRiskSpec :=
  spec low [with_sandboxAutoApprove true; with_argSchema (schema [])].

Definition cmd_dash : CommandRiskSpec :=
  spec high [with_reason "Executes arbitrary shell commands"; with_complexSyntax true].

Definition cmd_date : CommandRiskSpec :=
  spec low [].

Definition cmd_dd : CommandRiskSpec :=
  spec high [with_reason "Low-level block device copy — can destroy disks"].

Definition cmd_declare : CommandRiskSpec :=
  spec medium [with_reason "Defines shell variables/functions"].

Definition cmd_defaults : CommandRiskSpec :=
  spec medium [with_reason "Modifies macOS preference domains"].

Definition cmd_deluser : CommandRiskSpec :=
  spec high [with_reason "Deletes system user"].

Definition cmd_deno : CommandRiskSpec :=
  spec high [with_reason "Executes arbitrary code"].

Definition cmd_df : CommandRiskSpec :=
  spec low [with_sandboxAutoApprove true; with_filesystemOp true; with_argSchema (schema [])].

Definition cmd_diff : CommandRiskSpec :=
  spec low [with_sandboxAutoApprove true; with_filesystemOp true; with_argSchema (schema [])].

Definition cmd_dig : CommandRiskSpec :=
  spec medium [with_reason "DNS lookup: the queried name reaches an external resolver"].

Definition cmd_dir : CommandRiskSpec :=
  spec low [with_filesystemOp true; with_argSchema (schema [])].

Definition cmd_dirname : CommandRiskSpec :=
  spec low [with_sandboxAutoApprove true; with_argSchema (schema [])].

Definition cmd_dmesg : CommandRiskSpec :=
  spec medium [with_argRules [arg_rule "dmesg:clear" (Some ["-C"; "--clear"; "-c"])
          None high
          "Clears kernel ring buffer"]].

Definition cmd_dnf : CommandRiskSpec :=
  spec high [with_reason "Installs/removes system packages"].

Definition cmd_doas : CommandRiskSpec :=
  spec high [with_isWrapper true; with_reason "Elevates privileges (OpenBSD sudo alternative)"].

Definition cmd_docker : CommandRiskSpec :=
  spec medium [with_argSchema (schema [value_flags ["--host"; "-H"; "--config"; "--context"; "--log-level"]]);
     with_subcommands [("ps", spec low []); ("images", spec low []); ("inspect", spec low []);
       ("logs", spec low []); ("info", spec low []); ("version", spec low []);
       ("login", spec medium []); ("logout", spec medium []); ("build", spec medium []);
       ("pull", spec medium []);
       ("push", spec high [with_reason "Pushes image to registry"]); ("cp", spec medium []);
       ("restart", spec medium []);
       ("kill", spec high [with_reason "Forcefully stops container"]);
       ("prune", spec high [with_reason "Deletes unused docker resources"]);
       ("system", spec medium [with_subcommands [("df", spec low []);
             ("prune", spec high [with_reason "Deletes unused docker resources"])]]);
       ("network", spec medium [with_subcommands [("ls", spec low []); ("inspect", spec low []); ("create", spec medium []);
             ("rm", spec medium []);
             ("prune", spec high [with_reason "Deletes docker networks"])]]);
       ("volume", spec medium [with_subcommands [("ls", spec low []); ("inspect", spec low []); ("create", spec medium []);
             ("rm", spec medium []);
             ("prune", spec high [with_reason "Deletes docker volumes"])]]);
       ("compose", spec medium [with_subcommands [("ps", spec low []); ("logs", spec low []); ("config", spec low []);
             ("pull", spec medium []); ("build", spec medium []); ("up", spec medium []);
             ("down", spec medium []); ("start", spec medium []); ("stop", spec medium []);
             ("restart", spec medium []); ("rm", spec medium []);
             ("run", spec high [with_reason "Runs one-off container command"]);
             ("exec", spec high [with_reason "Executes command in service container"])]]);
       ("run", spec high [with_argSchema (schema [value_flags ["-v"; "--volume"; "-p"; "--publish"; "-e"; "--env"; "--name";
                             "--network"; "-w"; "--workdir"; "--entrypoint"; "--mount";
                             "--cpus"; "--memory"; "--user"; "--platform"]]);
           with_reason "Runs arbitrary container";
           with_argRules [arg_rule "docker-run:privileged" (Some ["--privileged"])
                None high
                "Privileged container with full host access";
             arg_rule "docker-run:volume-root" (Some ["-v"; "--volume"])
                (Some "^/:") high
                "Mounts host root filesystem"]]);
       ("exec", spec high [with_reason "Executes command in running container"]);
       ("rm", spec high []); ("rmi", spec high []); ("stop", spec medium []);
       ("start", spec medium [])]].

Definition cmd_dos2unix : CommandRiskSpec :=
  spec medium [with_filesystemOp true; with_argSchema (schema [])].

Definition cmd_du : CommandRiskSpec :=
  spec low [with_sandboxAutoApprove true; with_filesystemOp true; with_argSchema (schema [])].

Definition cmd_echo : CommandRiskSpec :=
  spec low [with_sandboxAutoApprove true; with_argSchema (schema [positionals_are PosNone])].

Definition cmd_egrep : CommandRiskSpec :=
  spec low [with_filesystemOp true;
     with_argSchema (schema [positionals_are (PosDescs [positional RolePattern None; positional RolePath (Some true)])])].

Definition cmd_env : CommandRiskSpec :=
  spec low [with_isWrapper true].

Definition cmd_eval : CommandRiskSpec :=
  spec high [with_reason "Evaluates arbitrary shell code"].

Definition cmd_exec : CommandRiskSpec :=
  spec high [with_isWrapper true; with_reason "Replaces current shell process"].

Definition cmd_expand : CommandRiskSpec :=
  spec low [with_filesystemOp true; with_argSchema (schema [])].

Definition cmd_export : CommandRiskSpec :=
  spec low [].

Definition cmd_fd : CommandRiskSpec :=
  spec low [with_sandboxAutoApprove true; with_argSchema (schema [])].

Definition cmd_fdisk : CommandRiskSpec :=
  spec high [with_reason "Modifies disk partitions"].

Definition cmd_fgrep : CommandRiskSpec :=
  spec low [with_filesystemOp true;
     with_argSchema (schema [positionals_are (PosDescs [positional RolePattern None; positional RolePath (Some true)])])].

Definition cmd_file : CommandRiskSpec :=
  spec low [with_sandboxAutoApprove true; with_filesystemOp true; with_argSchema (schema [])].

Definition cmd_find : CommandRiskSpec :=
  spec low [with_filesystemOp true;
     with_argSchema (schema [value_flags ["-name"; "-iname"; "-path"; "-ipath"; "-regex"; "-iregex";
                       "-maxdepth"; "-mindepth"; "-newer"; "-user"; "-group"; "-printf";
                       "-fprintf"]]);
     with_complexSyntax true;
     with_argRules [arg_rule "find:exec" (Some ["-exec"; "-execdir"])
          None high
          "Executes arbitrary commands on matched files";
       arg_rule "find:delete" (Some ["-delete"])
          None high
          "Deletes matched files"]].

Definition cmd_firewall_cmd : CommandRiskSpec :=
  spec high [with_reason "Modifies firewall rules"].

Definition cmd_fish : CommandRiskSpec :=
  spec high [with_reason "Executes arbitrary shell commands"; with_complexSyntax true].

Definition cmd_fmt : CommandRiskSpec :=
  spec low [with_filesystemOp true; with_argSchema (schema [])].

Definition cmd_fold : CommandRiskSpec :=
  spec low [with_filesystemOp true; with_argSchema (schema [])].

Definition cmd_free : CommandRiskSpec :=
  spec low [].

Definition cmd_ftp : CommandRiskSpec :=
  spec medium [with_reason "Transfers files over network"].

Definition cmd_gateway : CommandRiskSpec :=
  spec low [with_subcommands [("contacts", spec low [with_subcommands [("list", spec low []); ("get", spec low []);
             ("set-risk-threshold", spec high [with_reason "Writes a contact risk ceiling and can escalate auto-approval"])]])]].

Definition cmd_gcloud : CommandRiskSpec :=
  spec high [with_reason "Can mutate cloud infrastructure"].

Definition cmd_gem : CommandRiskSpec :=
  spec medium [with_subcommands [("list", spec low []); ("search", spec low []); ("install", spec medium []);
       ("uninstall", spec medium [])]].

Definition cmd_gh : CommandRiskSpec :=
  spec low [with_argSchema (schema [value_flags ["--repo"; "-R"]]);
     with_subcommands [("pr", spec low [with_subcommands [("view", spec low []); ("list", spec low []); ("create", spec medium []);
             ("merge", spec high [with_reason "Merges pull request"])]]);
       ("issue", spec low [with_subcommands [("view", spec low []); ("list", spec low []); ("create", spec medium [])]]);
       ("repo", spec low [with_subcommands [("view", spec low []); ("clone", spec low []); ("create", spec high []);
             ("delete", spec high [])]]);
       ("api", spec medium [with_reason "Makes arbitrary GitHub API calls"])]].

Definition cmd_git : CommandRiskSpec :=
  spec medium [with_argSchema (schema [value_flags ["-C"; "-c"; "--git-dir"; "--work-tree"; "--namespace";
                       "--super-prefix"; "--config-env"]]);
     with_subcommands [("status", spec low []); ("log", spec low []); ("diff", spec low []);
       ("show", spec low []);
       ("branch", spec low [with_argRules [arg_rule "git-branch:delete" (Some ["-d"; "-D"; "--delete"])
                None medium
                "Deletes local branch";
             arg_rule "git-branch:move" (Some ["-m"; "-M"; "--move"])
                None medium
                "Renames local branch";
             arg_rule "git-branch:copy" (Some ["-c"; "-C"; "--copy"])
                None medium
                "Copies local branch"]]);
       ("tag", spec low [with_argRules [arg_rule "git-tag:delete" (Some ["-d"; "--delete"])
                None high
                "Deletes git tag"]]);
       ("remote", spec low [with_subcommands [("show", spec low []); ("get-url", spec low []);
             ("add", spec medium [with_reason "Adds git remote"]);
             ("set-url", spec medium [with_reason "Changes remote URL"]);
             ("rename", spec medium [with_reason "Renames git remote"]);
             ("remove", spec medium [with_reason "Removes git remote"]);
             ("prune", spec medium [with_reason "Prunes stale remote refs"])]]);
       ("stash", spec medium [with_subcommands [("list", spec low []); ("show", spec low []);
             ("drop", spec high [with_reason "Permanently drops stashed changes"])]]);
       ("blame", spec low []); ("shortlog", spec low []); ("describe", spec low []);
       ("rev-parse", spec low []); ("ls-files", spec low []); ("ls-tree", spec low []);
       ("cat-file", spec low []); ("reflog", spec low []); ("init", spec medium []);
       ("clone", spec medium []); ("add", spec medium []); ("commit", spec medium []);
       ("config", spec medium [with_argRules [arg_rule "git-config:global" (Some ["--global"])
                None high
                "Modifies global git configuration";
             arg_rule "git-config:system" (Some ["--system"])
                None high
                "Modifies system git configuration"]]);
       ("checkout", spec medium []); ("restore", spec medium []);
       ("switch", spec medium []); ("merge", spec medium []);
       ("cherry-pick", spec medium []); ("revert", spec medium []); ("rm", spec medium []);
       ("mv", spec medium []);
       ("rebase", spec medium [with_argRules [arg_rule "git-rebase:interactive" (Some ["-i"; "--interactive"])
                None high
                "Interactive rebase rewrites history"]]);
       ("push", spec medium [with_argRules [arg_rule "git-push:force" (Some ["--force"; "-f"; "--force-with-lease"])
                None high
                "Force push rewrites remote history"]]);
       ("pull", spec medium []);
       ("fetch", spec low [with_argRules [arg_rule "git-fetch:prune" (Some ["-p"; "--prune"])
                None medium
                "Prunes stale remote-tracking refs"]]);
       ("reset", spec medium [with_argRules [arg_rule "git-reset:hard" (Some ["--hard"])
                None high
                "Discards uncommitted changes"]]);
       ("clean", spec high [with_reason "Removes untracked files"]);
       ("bisect", spec low []); ("worktree", spec medium []); ("submodule", spec medium [])]].

Definition cmd_go : CommandRiskSpec :=
  spec low [with_subcommands [("mod", spec low []); ("vet", spec low []); ("version", spec low []);
       ("build", spec medium []);
       ("test", spec high [with_reason "Executes arbitrary test code"]);
       ("run", spec high [with_reason "Compiles and executes Go code"]);
       ("get", spec medium [with_reason "Downloads and installs packages; may execute arbitrary code via tool directives"]);
       ("generate", spec high [with_reason "Runs arbitrary commands via //go:generate directives"])]].

Definition cmd_gradle : CommandRiskSpec :=
  spec high [with_reason "Executes Gradle build scripts and plugins"].

Definition cmd_grep : CommandRiskSpec :=
  spec low [with_sandboxAutoApprove true; with_filesystemOp true;
     with_argSchema (schema [positionals_are (PosDescs [positional RolePattern None; positional RolePath (Some true)])])].

Definition cmd_groupadd : CommandRiskSpec :=
  spec high [with_reason "Creates system group"].

Definition cmd_groupdel : CommandRiskSpec :=
  spec high [with_reason "Deletes system group"].

Definition cmd_groupmod : CommandRiskSpec :=
  spec high [with_reason "Modifies system group"].

Definition cmd_groups : CommandRiskSpec :=
  spec low [].

Definition cmd_gunzip : CommandRiskSpec :=
  spec medium [with_sandboxAutoApprove true; with_filesystemOp true; with_argSchema (schema [])].

Definition cmd_gzip : CommandRiskSpec :=
  spec medium [with_sandboxAutoApprove true; with_filesystemOp true; with_argSchema (schema [])].

Definition cmd_halt : CommandRiskSpec :=
  spec high [with_reason "Halts the system"].

Definition cmd_head : CommandRiskSpec :=
  spec low [with_sandboxAutoApprove true; with_filesystemOp true; with_argSchema (schema [])].

Definition cmd_helm : CommandRiskSpec :=
  spec medium [with_subcommands [("list", spec low []); ("search", spec low []); ("status", spec low []);
       ("get", spec low []); ("template", spec low []);
       ("install", spec high [with_reason "Installs workloads to cluster"]);
       ("upgrade", spec high [with_reason "Upgrades workloads in cluster"]);
       ("rollback", spec high [with_reason "Rolls back workloads in cluster"]);
       ("uninstall", spec high [with_reason "Removes workloads from cluster"])]].

Definition cmd_help : CommandRiskSpec :=
  spec low [].

Definition cmd_hexdump : CommandRiskSpec :=
  spec low [].

Definition cmd_hg : CommandRiskSpec :=
  spec medium [with_subcommands [("status", spec low []); ("log", spec low []); ("diff", spec low []);
       ("pull", spec medium []); ("update", spec medium []); ("add", spec medium []);
       ("commit", spec medium []); ("remove", spec high [])]].

Definition cmd_history : CommandRiskSpec :=
  spec low [].

Definition cmd_host : CommandRiskSpec :=
  spec medium [with_reason "DNS lookup: the queried name reaches an external resolver"].

Definition cmd_hostname : CommandRiskSpec :=
  spec low [].

Definition cmd_htop : CommandRiskSpec :=
  spec low [].

Definition cmd_http : CommandRiskSpec :=
  spec medium [].

Definition cmd_iconv : CommandRiskSpec :=
  spec low [with_argSchema (schema [])].

Definition cmd_id : CommandRiskSpec :=
  spec low [].

Definition cmd_ifconfig : CommandRiskSpec :=
  spec medium [with_reason "Can reconfigure network interfaces"].

Definition cmd_info : CommandRiskSpec :=
  spec low [].

Definition cmd_install : CommandRiskSpec :=
  spec medium [with_filesystemOp true;
     with_argSchema (schema [value_flags ["-t"; "--target-directory"];
               path_flags ["-t"; "--target-directory"]]);
     with_argRules [arg_rule "install:system" None
          (Some "^/(?:usr|bin|sbin|lib|boot|dev|proc|sys)\b") high
          "Installs files into system path"]].

Definition cmd_ionice : CommandRiskSpec :=
  spec low [with_isWrapper true].

Definition cmd_iostat : CommandRiskSpec :=
  spec low [].

Definition cmd_ip : CommandRiskSpec :=
  spec high [with_reason "Can reconfigure networking and routing"].

Definition cmd_ip6tables : CommandRiskSpec :=
  spec high [with_reason "Modifies IPv6 firewall rules"].

Definition cmd_iptables : CommandRiskSpec :=
  spec high [with_reason "Modifies firewall rules"].

Definition cmd_java : CommandRiskSpec :=
  spec high [with_reason "Executes Java bytecode";
     with_argRules [arg_rule "java:version" (Some ["-version"; "--version"])
          None low
          "Prints version"]].

Definition cmd_javac : CommandRiskSpec :=
  spec high [with_reason "Compilation can run annotation processors"].

Definition cmd_join : CommandRiskSpec :=
  spec low [with_filesystemOp true; with_argSchema (schema [])].

Definition cmd_jq : CommandRiskSpec :=
  spec low [with_sandboxAutoApprove true; with_argSchema (schema [])].

Definition cmd_kill : CommandRiskSpec :=
  spec high [with_reason "Sends signal to process"].

Definition cmd_killall : CommandRiskSpec :=
  spec high [with_reason "Kills processes by name"].

Definition cmd_ksh : CommandRiskSpec :=
  spec high [with_reason "Executes arbitrary shell commands"; with_complexSyntax true].

Definition cmd_kubectl : CommandRiskSpec :=
  spec medium [with_subcommands [("get", spec low []); ("describe", spec low []); ("logs", spec low []);
       ("top", spec low []); ("version", spec low []); ("cluster-info", spec low []);
       ("config", spec medium []);
       ("apply", spec high [with_reason "Applies changes to cluster resources"]);
       ("patch", spec high [with_reason "Mutates cluster resources"]);
       ("edit", spec high [with_reason "Mutates cluster resources"]);
       ("delete", spec high [with_reason "Deletes cluster resources"]);
       ("replace", spec high [with_reason "Replaces cluster resources"]);
       ("scale", spec high [with_reason "Scales workloads in cluster"]);
       ("exec", spec high [with_reason "Executes commands in running cluster workloads"]);
       ("cp", spec high [with_reason "Copies files to/from workloads"]);
       ("port-forward", spec medium [with_reason "Opens local network tunnel"])]].

Definition cmd_last : CommandRiskSpec :=
  spec low [].

Definition cmd_launchctl : CommandRiskSpec :=
  spec high [with_reason "Controls macOS services"].

Definition cmd_less : CommandRiskSpec :=
  spec low [with_sandboxAutoApprove true; with_filesystemOp true; with_argSchema (schema [])].

Definition cmd_ln : CommandRiskSpec :=
  spec medium [with_sandboxAutoApprove true; with_filesystemOp true;
     with_argSchema (schema [value_flags ["-t"; "--target-directory"];
               path_flags ["-t"; "--target-directory"]])].

Definition cmd_locate : CommandRiskSpec :=
  spec low [].

Definition cmd_loginctl : CommandRiskSpec :=
  spec high [with_reason "Controls system logind sessions"].

Definition cmd_ls : CommandRiskSpec :=
  spec low [with_sandboxAutoApprove true; with_filesystemOp true; with_argSchema (schema [])].

Definition cmd_lsof : CommandRiskSpec :=
  spec low [].

Definition cmd_ltrace : CommandRiskSpec :=
  spec medium [with_isWrapper true; with_reason "Traces library calls"].

Definition cmd_lua : CommandRiskSpec :=
  spec high [with_reason "Executes arbitrary Lua code";
     with_argRules [arg_rule "lua:version" (Some ["-v"; "--version"])
          None low
          "Prints version"]].

Definition cmd_make : CommandRiskSpec :=
  spec high [with_reason "Executes arbitrary Makefile targets"].

Definition cmd_man : CommandRiskSpec :=
  spec low [].

Definition cmd_md5 : CommandRiskSpec :=
  spec low [with_filesystemOp true].

Definition cmd_md5sum : CommandRiskSpec :=
  spec low [with_filesystemOp true].

Definition cmd_meson : CommandRiskSpec :=
  spec high [with_reason "Configures builds and can execute project-defined commands"].

Definition cmd_mkdir : CommandRiskSpec :=
  spec medium [with_sandboxAutoApprove true; with_filesystemOp true; with_argSchema (schema [])].

Definition cmd_mkfs : CommandRiskSpec :=
  spec high [with_reason "Formats filesystem — destroys all data"].

Definition cmd_mktemp : CommandRiskSpec :=
  spec medium [with_filesystemOp true; with_argSchema (schema [])].

Definition cmd_more : CommandRiskSpec :=
  spec low [with_sandboxAutoApprove true; with_filesystemOp true; with_argSchema (schema [])].

Definition cmd_mount : CommandRiskSpec :=
  spec high [with_reason "Mounts filesystem"].

Definition cmd_mtr : CommandRiskSpec :=
  spec medium [with_reason "Network probe: resolves and contacts an arbitrary host"].

Definition cmd_mv : CommandRiskSpec :=
  spec medium [with_sandboxAutoApprove true; with_filesystemOp true; with_argSchema (schema []);
     with_argRules [arg_rule "mv:system" None
          (Some "^/(?:usr|bin|sbin|lib|boot|dev|proc|sys)\b") high
          "Moves to system path"]].

Definition cmd_mvn : CommandRiskSpec :=
  spec high [with_reason "Executes Maven plugins and build scripts"].

Definition cmd_nc : CommandRiskSpec :=
  spec medium [with_reason "Opens arbitrary network connections"].

Definition cmd_netcat : CommandRiskSpec :=
  spec medium [with_reason "Opens arbitrary network connections"].

Definition cmd_netstat : CommandRiskSpec :=
  spec low [].

Definition cmd_networksetup : CommandRiskSpec :=
  spec high [with_reason "Modifies macOS network settings"].

Definition cmd_nft : CommandRiskSpec :=
  spec high [with_reason "Modifies firewall rules"].
