(* ===== verification/RegistryB.v ===== *)
(** Command registry entries [nice] to [zypper]
    ([gateway/src/risk/command-registry/commands]), one definition per file. *)
From S2P Require Import Prelude JsString JsMap RiskTypes RegistrySyntax.

Definition cmd_nice : CommandRiskSpec :=
  spec low [with_isWrapper true].

Definition cmd_ninja : CommandRiskSpec :=
  spec high [with_reason "Executes build graph commands"].

Definition cmd_nl : CommandRiskSpec :=
  spec low [with_filesystemOp true; with_argSchema (schema [])].

Definition cmd_nmap : CommandRiskSpec :=
  spec medium [with_reason "Performs active network scanning"].

Definition cmd_nmcli : CommandRiskSpec :=
  spec high [with_reason "Controls NetworkManager settings"].

Definition cmd_node : CommandRiskSpec :=
  spec high [with_reason "Executes arbitrary JavaScript";
     with_argRules [arg_rule "node:version" (Some ["--version"; "-v"])
          None low
          "Prints version";
       arg_rule "node:eval" (Some ["-e"; "--eval"])
          None high
          "Evaluates inline JavaScript"]].

Definition cmd_nohup : CommandRiskSpec :=
  spec low [with_isWrapper true].

Definition cmd_npm : CommandRiskSpec :=
  spec medium [with_argSchema (schema [value_flags ["--prefix"; "--userconfig"; "--globalconfig"; "--cache"]]);
     with_subcommands [("ls", spec low []); ("list", spec low []); ("outdated", spec low []);
       ("view", spec low []); ("info", spec low []);
       ("install", spec medium [with_reason "Runs lifecycle scripts, downloads code"]);
       ("ci", spec medium [with_reason "Clean install, runs lifecycle scripts"]);
       ("uninstall", spec medium []);
       ("test", spec high [with_reason "Executes arbitrary package scripts"]);
       ("run", spec high [with_reason "Executes arbitrary package scripts"]);
       ("exec", spec high [with_reason "Executes package binaries"]);
       ("publish", spec high [with_reason "Publishes package to registry"])]].

Definition cmd_npx : CommandRiskSpec :=
  spec high [with_reason "Downloads and executes arbitrary packages"].

Definition cmd_nslookup : CommandRiskSpec :=
  spec medium [with_reason "DNS lookup: the queried name reaches an external resolver"].

Definition cmd_od : CommandRiskSpec :=
  spec low [with_filesystemOp true; with_argSchema (schema [])].

Definition cmd_openssl : CommandRiskSpec :=
  spec medium [with_reason "Performs cryptographic operations"].

Definition cmd_pacman : CommandRiskSpec :=
  spec high [with_reason "Installs/removes system packages"].

Definition cmd_parted : CommandRiskSpec :=
  spec high [with_reason "Modifies disk partitions"].

Definition cmd_passwd : CommandRiskSpec :=
  spec high [with_reason "Changes account credentials"].

Definition cmd_paste : CommandRiskSpec :=
  spec low [with_filesystemOp true; with_argSchema (schema [])].

Definition cmd_perl : CommandRiskSpec :=
  spec high [with_reason "Executes arbitrary Perl code";
     with_argRules [arg_rule "perl:version" (Some ["--version"; "-v"])
          None low
          "Prints version"]].

Definition cmd_pgrep : CommandRiskSpec :=
  spec low [].

Definition cmd_php : CommandRiskSpec :=
  spec high [with_reason "Executes arbitrary PHP code";
     with_argRules [arg_rule "php:version" (Some ["--version"; "-v"])
          None low
          "Prints version"]].

Definition cmd_ping : CommandRiskSpec :=
  spec medium [with_reason "Network probe: resolves and contacts an arbitrary host"].

Definition cmd_pip : CommandRiskSpec :=
  spec medium [with_subcommands [("list", spec low []); ("show", spec low []); ("freeze", spec low []);
       ("install", spec medium []); ("uninstall", spec medium [])]].

Definition cmd_pip3 : CommandRiskSpec :=
  spec medium [with_subcommands [("list", spec low []); ("show", spec low []); ("freeze", spec low []);
       ("install", spec medium []); ("uninstall", spec medium [])]].

Definition cmd_pipx : CommandRiskSpec :=
  spec medium [with_subcommands [("list", spec low []); ("install", spec medium []); ("uninstall", spec medium []);
       ("run", spec high [with_reason "Executes package entrypoint"])]].

Definition cmd_pkill : CommandRiskSpec :=
  spec high [with_reason "Kills processes by pattern"].

Definition cmd_plocate : CommandRiskSpec :=
  spec low [].

Definition cmd_pnpm : CommandRiskSpec :=
  spec medium [with_subcommands [("list", spec low []); ("install", spec medium []); ("add", spec medium []);
       ("remove", spec medium []);
       ("test", spec high [with_reason "Executes arbitrary package scripts"]);
       ("run", spec high [with_reason "Executes arbitrary package scripts"]);
       ("exec", spec high [with_reason "Executes package binaries"]);
       ("dlx", spec high [with_reason "Downloads and executes package"])]].

Definition cmd_pnpx : CommandRiskSpec :=
  spec high [with_reason "Downloads and executes arbitrary packages"].

Definition cmd_poetry : CommandRiskSpec :=
  spec medium [with_subcommands [("show", spec low []); ("install", spec medium []); ("add", spec medium []);
       ("remove", spec medium []);
       ("run", spec high [with_reason "Executes arbitrary commands"])]].

Definition cmd_popd : CommandRiskSpec :=
  spec low [].

Definition cmd_port : CommandRiskSpec :=
  spec high [with_reason "Installs/removes system packages"].

Definition cmd_poweroff : CommandRiskSpec :=
  spec high [with_reason "Powers off the system"].

Definition cmd_powershell : CommandRiskSpec :=
  spec high [with_reason "Executes arbitrary PowerShell code"].

Definition cmd_pr : CommandRiskSpec :=
  spec low [with_filesystemOp true; with_argSchema (schema [])].

Definition cmd_printenv : CommandRiskSpec :=
  spec low [].

Definition cmd_printf : CommandRiskSpec :=
  spec low [with_sandboxAutoApprove true; with_argSchema (schema [positionals_are PosNone])].

Definition cmd_ps : CommandRiskSpec :=
  spec low [].

Definition cmd_pstree : CommandRiskSpec :=
  spec low [].

Definition cmd_pushd : CommandRiskSpec :=
  spec low [].

Definition cmd_pwd : CommandRiskSpec :=
  spec low [with_sandboxAutoApprove true; with_argSchema (schema [positionals_are PosNone])].

Definition cmd_pwsh : CommandRiskSpec :=
  spec high [with_reason "Executes arbitrary PowerShell code"].

Definition cmd_python : CommandRiskSpec :=
  spec high [with_reason "Executes arbitrary Python code";
     with_argRules [arg_rule "python:version" (Some ["--version"; "-V"])
          None low
          "Prints version"]].

Definition cmd_python3 : CommandRiskSpec :=
  spec high [with_reason "Executes arbitrary Python code";
     with_argRules [arg_rule "python3:version" (Some ["--version"; "-V"])
          None low
          "Prints version"]].

Definition cmd_R : CommandRiskSpec :=
  spec high [with_reason "Executes arbitrary R code"].

Definition cmd_readlink : CommandRiskSpec :=
  spec low [with_sandboxAutoApprove true; with_filesystemOp true; with_argSchema (schema [])].

Definition cmd_readonly : CommandRiskSpec :=
  spec medium [with_reason "Locks shell variable/function state"].

Definition cmd_realpath : CommandRiskSpec :=
  spec low [with_sandboxAutoApprove true; with_argSchema (schema [])].

Definition cmd_reboot : CommandRiskSpec :=
  spec high [with_reason "Reboots the system"].

Definition cmd_renice : CommandRiskSpec :=
  spec medium [with_reason "Changes process scheduling priority"].

Definition cmd_rev : CommandRiskSpec :=
  spec low [with_argSchema (schema [])].

Definition cmd_rg : CommandRiskSpec :=
  spec low [with_sandboxAutoApprove true;
     with_argSchema (schema [positionals_are (PosDescs [positional RolePattern None; positional RolePath (Some true)])])].

Definition cmd_rm : CommandRiskSpec :=
  spec high [with_sandboxAutoApprove true; with_filesystemOp true; with_argSchema (schema []);
     with_argRules [arg_rule "rm:recursive-force" (Some ["-rf"; "-fr"; "-Rf"; "-fR"])
          None high
          "Recursive force delete";
       arg_rule "rm:recursive" (Some ["-r"; "-R"; "--recursive"])
          None high
          "Recursive delete";
       arg_rule "rm:tmp" None
          (Some "^(?:/tmp|/var/tmp|\./|\.\.\/)") medium
          "Removes temp files";
       arg_rule "rm:system" None
          (Some "^/(?:usr|bin|sbin|lib|boot|dev|proc|sys)\b") high
          "Removes system files";
       arg_rule "rm:sensitive" None
          (Some "(?:^|/)(?:\.ssh|\.gnupg|\.aws|\.config|\.env)\b") high
          "Removes sensitive files"]].

Definition cmd_rmdir : CommandRiskSpec :=
  spec high [with_sandboxAutoApprove true; with_filesystemOp true; with_argSchema (schema [])].

Definition cmd_route : CommandRiskSpec :=
  spec high [with_reason "Modifies network routing"].

Definition cmd_Rscript : CommandRiskSpec :=
  spec high [with_reason "Executes arbitrary R code"].

Definition cmd_rsync : CommandRiskSpec :=
  spec high [with_reason "Remote file sync"].

Definition cmd_ruby : CommandRiskSpec :=
  spec high [with_reason "Executes arbitrary Ruby code"].

Definition cmd_scp : CommandRiskSpec :=
  spec high [with_reason "Remote file transfer"].

Definition cmd_screen : CommandRiskSpec :=
  spec medium [with_reason "Runs shell commands in managed sessions"].

Definition cmd_sed : CommandRiskSpec :=
  spec medium [with_reason "Can write files or execute commands via sed scripts";
     with_sandboxAutoApprove true; with_filesystemOp true;
     with_argSchema (schema [positionals_are (PosDescs [positional RoleScript None; positional RolePath (Some true)])]);
     with_argRules [arg_rule "sed:inplace" (Some ["-i"; "--in-place"])
          None medium
          "Edits files in place"]].

Definition cmd_seq : CommandRiskSpec :=
  spec low [with_argSchema (schema [positionals_are PosNone])].

Definition cmd_service : CommandRiskSpec :=
  spec high [with_reason "Controls system services"].

Definition cmd_set : CommandRiskSpec :=
  spec medium [with_reason "Modifies shell options"].

Definition cmd_sftp : CommandRiskSpec :=
  spec high [with_reason "Remote file transfer"].

Definition cmd_sh : CommandRiskSpec :=
  spec high [with_reason "Executes arbitrary shell commands"; with_complexSyntax true].

Definition cmd_sha1sum : CommandRiskSpec :=
  spec low [with_filesystemOp true].

Definition cmd_sha256sum : CommandRiskSpec :=
  spec low [with_filesystemOp true].

Definition cmd_sha512sum : CommandRiskSpec :=
  spec low [with_filesystemOp true].

Definition cmd_shred : CommandRiskSpec :=
  spec high [with_filesystemOp true; with_argSchema (schema [])].

Definition cmd_shuf : CommandRiskSpec :=
  spec low [with_argSchema (schema [])].

Definition cmd_shutdown : CommandRiskSpec :=
  spec high [with_reason "Shuts down the system"].

Definition cmd_sleep : CommandRiskSpec :=
  spec low [with_argSchema (schema [positionals_are PosNone])].

Definition cmd_sort : CommandRiskSpec :=
  spec low [with_sandboxAutoApprove true; with_filesystemOp true;
     with_argSchema (schema [value_flags ["-o"; "--output"]; path_flags ["-o"; "--output"]]);
     with_argRules [arg_rule "sort:output" (Some ["-o"; "--output"])
          None medium
          "Writes sorted output to file";
       arg_rule "sort:output-sensitive" (Some ["-o"; "--output"])
          (Some "(?:^|/)(?:\.ssh|\.gnupg|\.aws|\.config|\.env)\b") high
          "Writes sorted output to sensitive path"]].

Definition cmd_source : CommandRiskSpec :=
  spec high [with_reason "Executes arbitrary shell script"].

Definition cmd_split : CommandRiskSpec :=
  spec medium [with_filesystemOp true; with_argSchema (schema [])].

Definition cmd_ss : CommandRiskSpec :=
  spec low [].

Definition cmd_ssh : CommandRiskSpec :=
  spec high [with_reason "Opens remote shell"].

Definition cmd_ssh_add : CommandRiskSpec :=
  spec high [with_reason "Adds private keys to authentication agent"].

Definition cmd_ssh_copy_id : CommandRiskSpec :=
  spec high [with_reason "Modifies remote authorized_keys"].

Definition cmd_ssh_keygen : CommandRiskSpec :=
  spec medium [with_filesystemOp true; with_argSchema (schema []);
     with_reason "Generates and can overwrite SSH keys"].

Definition cmd_stat : CommandRiskSpec :=
  spec low [with_sandboxAutoApprove true; with_filesystemOp true; with_argSchema (schema [])].

Definition cmd_strace : CommandRiskSpec :=
  spec medium [with_isWrapper true; with_reason "Traces system calls"].

Definition cmd_strings : CommandRiskSpec :=
  spec low [with_filesystemOp true; with_argSchema (schema [])].

Definition cmd_su : CommandRiskSpec :=
  spec high [with_reason "Switches user identity"].

Definition cmd_sudo : CommandRiskSpec :=
  spec high [with_isWrapper true; with_reason "Elevates to superuser privileges"].

Definition cmd_svn : CommandRiskSpec :=
  spec medium [with_subcommands [("info", spec low []); ("status", spec low []); ("log", spec low []);
       ("diff", spec low []); ("update", spec medium []); ("add", spec medium []);
       ("commit", spec medium []); ("delete", spec high [])]].

Definition cmd_sw_vers : CommandRiskSpec :=
  spec low [].

Definition cmd_swift : CommandRiskSpec :=
  spec low [with_subcommands [("package", spec low []); ("build", spec medium []);
       ("test", spec high [with_reason "Executes arbitrary test code"]);
       ("run", spec high [with_reason "Compiles and executes Swift code"])]].

Definition cmd_sysctl : CommandRiskSpec :=
  spec medium [with_argSchema (schema [value_flags ["-w"; "--write"; "-p"; "--load"]]);
     with_argRules [arg_rule "sysctl:write" (Some ["-w"; "--write"])
          None high
          "Writes kernel parameters";
       arg_rule "sysctl:load" (Some ["-p"; "--load"; "--system"])
          None high
          "Loads kernel parameter settings"]].

Definition cmd_systemctl : CommandRiskSpec :=
  spec high [with_reason "Controls system services"].

Definition cmd_tail : CommandRiskSpec :=
  spec low [with_sandboxAutoApprove true; with_filesystemOp true; with_argSchema (schema [])].

Definition cmd_tar : CommandRiskSpec :=
  spec medium [with_sandboxAutoApprove true; with_filesystemOp true;
     with_argSchema (schema [value_flags ["-C"; "--directory"; "-f"; "--file"; "-I"; "--use-compress-program";
                       "--to-command"; "--checkpoint-action"];
               path_flags ["-C"; "--directory"; "-f"; "--file"]]);
     with_complexSyntax true;
     with_argRules [arg_rule "tar:to-command" (Some ["--to-command"])
          None high
          "Executes arbitrary command during extraction";
       arg_rule "tar:checkpoint-action" (Some ["--checkpoint-action"])
          None high
          "Executes action at checkpoints";
       arg_rule "tar:use-compress-program" (Some ["-I"; "--use-compress-program"])
          None high
          "Executes arbitrary compression program"]].

Definition cmd_taskset : CommandRiskSpec :=
  spec low [with_isWrapper true].

Definition cmd_tcsh : CommandRiskSpec :=
  spec high [with_reason "Executes arbitrary shell commands"; with_complexSyntax true].

Definition cmd_tee : CommandRiskSpec :=
  spec medium [with_sandboxAutoApprove true; with_filesystemOp true; with_argSchema (schema [])].

Definition cmd_telnet : CommandRiskSpec :=
  spec medium [with_reason "Opens remote terminal connection"].

Definition cmd_terraform : CommandRiskSpec :=
  spec medium [with_subcommands [("fmt", spec low []); ("validate", spec low []); ("plan", spec medium []);
       ("apply", spec high [with_reason "Applies infrastructure changes"]);
       ("destroy", spec high [with_reason "Destroys managed infrastructure"]);
       ("import", spec high [with_reason "Mutates Terraform state"]);
       ("state", spec medium [with_reason "Reads or mutates Terraform state"])]].

Definition cmd_time : CommandRiskSpec :=
  spec low [with_isWrapper true].

Definition cmd_timeout : CommandRiskSpec :=
  spec low [with_isWrapper true; with_nonExecFlags ["--help"; "--version"]].

Definition cmd_tmux : CommandRiskSpec :=
  spec medium [with_reason "Runs shell commands in managed sessions"].

Definition cmd_top : CommandRiskSpec :=
  spec low [].

Definition cmd_touch : CommandRiskSpec :=
  spec medium [with_sandboxAutoApprove true; with_filesystemOp true; with_argSchema (schema [])].

Definition cmd_tr : CommandRiskSpec :=
  spec low [with_sandboxAutoApprove true; with_argSchema (schema [positionals_are PosNone])].

Definition cmd_tracepath : CommandRiskSpec :=
  spec medium [with_reason "Network probe: resolves and contacts an arbitrary host"].

Definition cmd_traceroute : CommandRiskSpec :=
  spec medium [with_reason "Network probe: resolves and contacts an arbitrary host"].

Definition cmd_tree : CommandRiskSpec :=
  spec low [with_sandboxAutoApprove true; with_filesystemOp true; with_argSchema (schema [])].

Definition cmd_truncate : CommandRiskSpec :=
  spec medium [with_filesystemOp true; with_argSchema (schema [])].

Definition cmd_ts_node : CommandRiskSpec :=
  spec high [with_reason "Executes TypeScript code"].

Definition cmd_tsx : CommandRiskSpec :=
  spec high [with_reason "Executes TypeScript/JavaScript code"].

Definition cmd_type : CommandRiskSpec :=
  spec low [].

Definition cmd_typeset : CommandRiskSpec :=
  spec medium [with_reason "Defines shell variables/functions"].

Definition cmd_ufw : CommandRiskSpec :=
  spec high [with_reason "Modifies firewall rules"].

Definition cmd_umask : CommandRiskSpec :=
  spec medium [with_reason "Changes default file permission mask"].

Definition cmd_umount : CommandRiskSpec :=
  spec high [with_reason "Unmounts filesystem"].

Definition cmd_uname : CommandRiskSpec :=
  spec low [].

Definition cmd_unexpand : CommandRiskSpec :=
  spec low [with_filesystemOp true; with_argSchema (schema [])].

Definition cmd_uniq : CommandRiskSpec :=
  spec low [with_sandboxAutoApprove true; with_argSchema (schema [])].

Definition cmd_unix2dos : CommandRiskSpec :=
  spec medium [with_filesystemOp true; with_argSchema (schema [])].

Definition cmd_unlink : CommandRiskSpec :=
  spec high [with_filesystemOp true; with_argSchema (schema [])].

Definition cmd_unset : CommandRiskSpec :=
  spec low [].

Definition cmd_unxz : CommandRiskSpec :=
  spec medium [with_filesystemOp true; with_argSchema (schema [])].

Definition cmd_unzip : CommandRiskSpec :=
  spec medium [with_sandboxAutoApprove true; with_filesystemOp true; with_argSchema (schema [])].

Definition cmd_unzstd : CommandRiskSpec :=
  spec medium [with_filesystemOp true; with_argSchema (schema [])].

Definition cmd_uptime : CommandRiskSpec :=
  spec low [].

Definition cmd_useradd : CommandRiskSpec :=
  spec high [with_reason "Creates system user"].

Definition cmd_userdel : CommandRiskSpec :=
  spec high [with_reason "Deletes system user"].

Definition cmd_usermod : CommandRiskSpec :=
  spec high [with_reason "Modifies system user"].

Definition cmd_users : CommandRiskSpec :=
  spec low [].

Definition cmd_uv : CommandRiskSpec :=
  spec medium [with_subcommands [("sync", spec medium []); ("add", spec medium []); ("remove", spec medium []);
       ("run", spec high [with_reason "Executes arbitrary commands"]);
       ("tool", spec medium [with_subcommands [("run", spec high [with_reason "Executes installed tool"])]])]].

Definition cmd_vdir : CommandRiskSpec :=
  spec low [with_filesystemOp true; with_argSchema (schema [])].

Definition cmd_visudo : CommandRiskSpec :=
  spec high [with_reason "Edits sudo policy"].

Definition cmd_vmstat : CommandRiskSpec :=
  spec low [].

Definition cmd_w : CommandRiskSpec :=
  spec low [].

Definition cmd_watch : CommandRiskSpec :=
  spec medium [with_reason "Repeatedly executes command"].

Definition cmd_wc : CommandRiskSpec :=
  spec low [with_sandboxAutoApprove true; with_filesystemOp true; with_argSchema (schema [])].

Definition cmd_wget : CommandRiskSpec :=
  spec medium [with_argSchema (schema [value_flags ["-O"; "--output-document"; "-o"; "--output-file"; "--post-file";
                       "--method"; "--body-data"; "--header"];
               positionals_are PosNone]);
     with_argRules [arg_rule "wget:post-file" (Some ["--post-file"])
          None high
          "Uploads file contents";
       arg_rule "wget:output-sensitive" (Some ["-O"; "--output-document"])
          (Some "(?:^|/)(?:\.ssh|\.gnupg|\.aws|\.config|\.env)\b") high
          "Writes response to sensitive path";
       arg_rule "wget:localhost" None
          (Some "^https?://(localhost|127\.0\.0\.1|\[::1\])") low
          "Local request"]].

Definition cmd_where : CommandRiskSpec :=
  spec low [].

Definition cmd_whereis : CommandRiskSpec :=
  spec low [].

Definition cmd_which : CommandRiskSpec :=
  spec low [].

Definition cmd_who : CommandRiskSpec :=
  spec low [].

Definition cmd_whoami : CommandRiskSpec :=
  spec low [].

Definition cmd_wipefs : CommandRiskSpec :=
  spec high [with_reason "Erases filesystem and partition signatures"].

Definition cmd_xargs : CommandRiskSpec :=
  spec medium [with_complexSyntax true; with_reason "Executes command with piped arguments"].

Definition cmd_xxd : CommandRiskSpec :=
  spec low [].

Definition cmd_xz : CommandRiskSpec :=
  spec medium [with_filesystemOp true; with_argSchema (schema [])].

Definition cmd_yarn : CommandRiskSpec :=
  spec medium [with_subcommands [("list", spec low []); ("info", spec low []); ("why", spec low []);
       ("install", spec medium []); ("add", spec medium []); ("remove", spec medium []);
       ("test", spec high [with_reason "Executes arbitrary package scripts"]);
       ("run", spec high [with_reason "Executes arbitrary package scripts"]);
       ("dlx", spec high [with_reason "Downloads and executes package"])]].

Definition cmd_yes : CommandRiskSpec :=
  spec low [with_argSchema (schema [positionals_are PosNone])].

Definition cmd_yq : CommandRiskSpec :=
  spec low [with_sandboxAutoApprove true; with_argSchema (schema [])].

Definition cmd_yum : CommandRiskSpec :=
  spec high [with_reason "Installs/removes system packages"].

Definition cmd_zip : CommandRiskSpec :=
  spec medium [with_sandboxAutoApprove true; with_filesystemOp true; with_argSchema (schema [])].

Definition cmd_zsh : CommandRiskSpec :=
  spec high [with_reason "Executes arbitrary shell commands"; with_complexSyntax true].

Definition cmd_zstd : CommandRiskSpec :=
  spec medium [with_filesystemOp true; with_argSchema (schema [])].

Definition cmd_zypper : CommandRiskSpec :=
  spec high [with_reason "Installs/removes system packages"].
