(* ===== verification/ArgParser.v ===== *)
(** Argument parsing against a schema ([gateway/src/risk/arg-parser.ts]). *)
From S2P Require Import Prelude JsString JsMap RiskTypes.

(** The descriptor of the last [rest: true] entry, if any. *)
Fixpoint last_rest (descs : list PositionalDesc) : option PositionalDesc :=
  match descs with
  | [] => None
  | d :: ds =>
      match last_rest ds with
      | Some d' => Some d'
      | None => match d.(rest) with Some true => Some d | _ => None end
      end
  end.

(** [addIfPath(token, index, def, pathArgs)], returning the new [pathArgs]. *)
Definition addIfPath (token : string) (index : nat) (def : option PositionalsDef)
    (pathArgs : list string) : list string :=
  match def with
  | None | Some PosPaths => pathArgs ++ [token]
  | Some PosNone => pathArgs
  | Some (PosDescs descs) =>
      let desc :=
        if (index <? length descs)%nat then descs !! index else last_rest descs in
      match desc with
      | Some d =>
          match d.(role) with RolePath => pathArgs ++ [token] | _ => pathArgs end
      | None => pathArgs ++ [token]
      end
  end.

Definition value_flag (schema : ArgSchema) (f : string) : bool :=
  mem f (default [] schema.(valueFlags)).
Definition path_flag (schema : ArgSchema) (f : string) : bool :=
  mem f (default [] schema.(pathFlags)).

(** The three effects of the parsing loop on its accumulators. *)
Definition push_positional (schema : ArgSchema) (acc : ParsedArgs) (token : string)
    : ParsedArgs :=
  let positionals' := acc.(positionals) ++ [token] in
  {| flags := acc.(flags); positionals := positionals';
     pathArgs := addIfPath token (length positionals' - 1) schema.(positionalsDef)
                   acc.(pathArgs);
     sawDoubleDash := acc.(sawDoubleDash) |}.

Definition push_value (schema : ArgSchema) (acc : ParsedArgs) (flag value : string)
    : ParsedArgs :=
  {| flags := map_set flag (FlagStr value) acc.(flags);
     positionals := acc.(positionals);
     pathArgs := if path_flag schema flag then acc.(pathArgs) ++ [value]
                 else acc.(pathArgs);
     sawDoubleDash := acc.(sawDoubleDash) |}.

Definition push_bool (acc : ParsedArgs) (flag : string) : ParsedArgs :=
  {| flags := map_set flag FlagTrue acc.(flags); positionals := acc.(positionals);
     pathArgs := acc.(pathArgs); sawDoubleDash := acc.(sawDoubleDash) |}.

Definition set_double_dash (acc : ParsedArgs) : ParsedArgs :=
  {| flags := acc.(flags); positionals := acc.(positionals);
     pathArgs := acc.(pathArgs); sawDoubleDash := true |}.

(** The [--flag=value] split at the first [=]. *)
Definition inline_value (token : string) : option (string * string) :=
  match index_of_char "=" token with
  | Some n => Some (slice_to n token, slice_from (S n) token)
  | None => None
  end.

(** The [while] loop of [parseArgs]. *)
Fixpoint parse_loop (schema : ArgSchema) (args : list string) (acc : ParsedArgs)
    : ParsedArgs :=
  match args with
  | [] => acc
  | token :: rest =>
      if acc.(sawDoubleDash) then
        parse_loop schema rest (push_positional schema acc token)
      else if String.eqb token "--" &&
              negb (bool_decide (schema.(respectsDoubleDash) = Some false)) then
        parse_loop schema rest (set_double_dash acc)
      else if starts_with token "-" && value_flag schema token then
        match rest with
        | value :: rest' => parse_loop schema rest' (push_value schema acc token value)
        | [] => push_bool acc token
        end
      else if starts_with token "-" then
        match inline_value token with
        | Some (flagName, flagValue) =>
            if value_flag schema flagName then
              parse_loop schema rest (push_value schema acc flagName flagValue)
            else parse_loop schema rest (push_bool acc token)
        | None => parse_loop schema rest (push_bool acc token)
        end
      else parse_loop schema rest (push_positional schema acc token)
  end.

Definition empty_parsed : ParsedArgs :=
  {| flags := []; positionals := []; pathArgs := []; sawDoubleDash := false |}.

Definition parseArgs (args : list string) (schema : ArgSchema) : ParsedArgs :=
  parse_loop schema args empty_parsed.

(** ** Specification: a token grammar

    An item is one syntactic unit of the argument list; [tokens_parse] says how
    a token list decomposes into items, before or after the [--] terminator. *)
Inductive Item :=
  | IDash                              (* the [--] terminator *)
  | IValue (flag value : string)       (* a value flag and the next token *)
  | IInline (token flag value : string) (* [--flag=value] of a value flag *)
  | IBool (token : string)
  | IPos (token : string).

Definition item_tokens (it : Item) : list string :=
  match it with
  | IDash => ["--"]
  | IValue f v => [f; v]
  | IInline t _ _ => [t]
  | IBool t | IPos t => [t]
  end.

Section Grammar.
Context (schema : ArgSchema).

Definition is_terminator (t : string) : Prop :=
  t = "--" ∧ schema.(respectsDoubleDash) ≠ Some false.

Definition splits_value (t f v : string) : Prop :=
  inline_value t = Some (f, v) ∧ value_flag schema f = true.

Inductive tokens_parse : bool → list string → list Item → Prop :=
  | tp_nil saw : tokens_parse saw [] []
  | tp_after t ts its :
      tokens_parse true ts its → tokens_parse true (t :: ts) (IPos t :: its)
  | tp_dash t ts its :
      is_terminator t → tokens_parse true ts its →
      tokens_parse false (t :: ts) (IDash :: its)
  | tp_value f v ts its :
      ¬ is_terminator f → starts_with f "-" = true → value_flag schema f = true →
      tokens_parse false ts its → tokens_parse false (f :: v :: ts) (IValue f v :: its)
  | tp_value_end f :
      ¬ is_terminator f → starts_with f "-" = true → value_flag schema f = true →
      tokens_parse false [f] [IBool f]
  | tp_inline t f v ts its :
      ¬ is_terminator t → starts_with t "-" = true → value_flag schema t = false →
      splits_value t f v → tokens_parse false ts its →
      tokens_parse false (t :: ts) (IInline t f v :: its)
  | tp_bool t ts its :
      ¬ is_terminator t → starts_with t "-" = true → value_flag schema t = false →
      (∀ f v, ¬ splits_value t f v) → tokens_parse false ts its →
      tokens_parse false (t :: ts) (IBool t :: its)
  | tp_pos t ts its :
      ¬ is_terminator t → starts_with t "-" = false → tokens_parse false ts its →
      tokens_parse false (t :: ts) (IPos t :: its).

Definition apply_item (acc : ParsedArgs) (it : Item) : ParsedArgs :=
  match it with
  | IDash => set_double_dash acc
  | IValue f v | IInline _ f v => push_value schema acc f v
  | IBool t => push_bool acc t
  | IPos t => push_positional schema acc t
  end.

Lemma is_terminator_spec t :
  String.eqb t "--" && negb (bool_decide (schema.(respectsDoubleDash) = Some false))
  = bool_decide (is_terminator t).
Proof.
  apply eq_true_iff_eq. rewrite andb_true_iff, negb_true_iff, bool_decide_eq_false,
    bool_decide_eq_true, String.eqb_eq. done.
Qed.
End Grammar.

Section GrammarFacts.
Context (schema : ArgSchema).

Lemma saw_apply_item acc it :
  (apply_item schema acc it).(sawDoubleDash) =
  match it with IDash => true | _ => acc.(sawDoubleDash) end.
Proof. by destruct it. Qed.

(** Every derivation of the grammar computes what the loop computes. *)
Lemma tokens_parse_sound saw ts its :
  tokens_parse schema saw ts its → ∀ acc, acc.(sawDoubleDash) = saw →
  parse_loop schema ts acc = foldl (apply_item schema) acc its.
Proof.
  induction 1; intros acc Hacc; simpl; rewrite ?Hacc; try done;
    rewrite ?is_terminator_spec;
    rewrite ?(bool_decide_eq_true_2 (is_terminator _ _)) by done;
    rewrite ?(bool_decide_eq_false_2 (is_terminator _ _)) by done; simpl;
    repeat match goal with
    | H : starts_with _ _ = _ |- _ => rewrite !H; clear H; simpl
    | H : value_flag _ _ = _ |- _ => rewrite !H; clear H; simpl
    | H : splits_value _ _ _ _ |- _ => destruct H as [-> ->]; simpl
    end; eauto using saw_apply_item.
  - (* boolean flag *)
    destruct (inline_value t) as [[f v]|] eqn:Hv; [|by apply IHtokens_parse].
    destruct (value_flag schema f) eqn:Hf; [|by apply IHtokens_parse].
    exfalso. by eapply H2.
Qed.

(** Every token list has a derivation. *)
Lemma tokens_parse_total ts saw : ∃ its, tokens_parse schema saw ts its.
Proof.
  assert (∀ n ts saw, length ts ≤ n → ∃ its, tokens_parse schema saw ts its) as Hn;
    [|by eapply Hn].
  clear ts saw. induction n as [|n IH]; intros [|t ts] saw Hlen; simpl in *;
    try (by eexists; constructor); [lia|].
  destruct (IH ts saw ltac:(lia)) as [its Hits].
  destruct saw; [eexists; by constructor|].
  destruct (decide (is_terminator schema t)) as [Ht|Ht].
  { destruct (IH ts true ltac:(lia)) as [? ?]. eexists. by apply tp_dash. }
  destruct (starts_with t "-") eqn:Hs; [|eexists; by apply tp_pos].
  destruct (value_flag schema t) eqn:Hv.
  { destruct ts as [|v ts]; [eexists; by apply tp_value_end|]. simpl in Hlen.
    destruct (IH ts false ltac:(lia)) as [? ?]. eexists. by apply tp_value. }
  destruct (inline_value t) as [[f v]|] eqn:Hi.
  - destruct (value_flag schema f) eqn:Hf.
    + eexists. by eapply tp_inline.
    + eexists. apply tp_bool; try done. intros ?? [? ?]. congruence.
  - eexists. apply tp_bool; try done. intros ?? [? ?]. congruence.
Qed.

Lemma tokens_parse_tokens saw ts its :
  tokens_parse schema saw ts its →
  its ≫= item_tokens = ts.
Proof.
  induction 1; csimpl; try done; try congruence.
  destruct H as [-> _]. csimpl. congruence.
Qed.
End GrammarFacts.

(** ** What an item list denotes *)

Definition item_positionals (its : list Item) : list string :=
  omap (λ it, match it with IPos t => Some t | _ => None end) its.

(** The values assigned to a flag, in order. *)
Definition item_flag_values (f : string) (its : list Item) : list FlagValue :=
  omap (λ it, match it with
    | IValue g v | IInline _ g v => if decide (f = g) then Some (FlagStr v) else None
    | IBool t => if decide (f = t) then Some FlagTrue else None
    | _ => None
    end) its.

Definition item_is_dash (it : Item) : bool :=
  match it with IDash => true | _ => false end.

(** The path arguments, [k] being the index of the next positional. *)
Fixpoint item_paths (schema : ArgSchema) (k : nat) (its : list Item) : list string :=
  match its with
  | [] => []
  | IPos t :: its => addIfPath t k schema.(positionalsDef) [] ++ item_paths schema (S k) its
  | IValue f v :: its | IInline _ f v :: its =>
      (if path_flag schema f then [v] else []) ++ item_paths schema k its
  | _ :: its => item_paths schema k its
  end.

Section Denotation.
Context (schema : ArgSchema).

Lemma addIfPath_app t k def acc : addIfPath t k def acc = acc ++ addIfPath t k def [].
Proof.
  unfold addIfPath. destruct def as [[| |descs]|]; simpl; rewrite ?app_nil_r; try done.
  destruct (if (k <? length descs)%nat then _ else _) as [[[] ?]|]; simpl;
    by rewrite ?app_nil_r.
Qed.

Lemma foldl_positionals its acc :
  (foldl (apply_item schema) acc its).(positionals) =
  acc.(positionals) ++ item_positionals its.
Proof.
  revert acc. induction its as [|it its IH]; intros acc; csimpl.
  { by rewrite app_nil_r. }
  rewrite IH. destruct it; csimpl; by rewrite <- ?app_assoc.
Qed.

Lemma foldl_saw its acc :
  (foldl (apply_item schema) acc its).(sawDoubleDash) =
  acc.(sawDoubleDash) || existsb item_is_dash its.
Proof.
  revert acc. induction its as [|it its IH]; intros acc; csimpl.
  { by rewrite orb_false_r. }
  rewrite IH, saw_apply_item. destruct it; simpl; by rewrite ?orb_true_r.
Qed.

Lemma foldl_flags f its acc :
  map_get f (foldl (apply_item schema) acc its).(flags) =
  match last (item_flag_values f its) with
  | Some v => Some v
  | None => map_get f acc.(flags)
  end.
Proof.
  revert acc. induction its as [|it its IH]; intros acc; [done|]. simpl foldl.
  rewrite IH. destruct it; csimpl; try done;
    rewrite map_get_set; case_decide; csimpl; rewrite ?last_cons;
    by destruct (last (item_flag_values f its)).
Qed.

Lemma foldl_pathArgs its acc :
  (foldl (apply_item schema) acc its).(pathArgs) =
  acc.(pathArgs) ++ item_paths schema (length acc.(positionals)) its.
Proof.
  revert acc. induction its as [|it its IH]; intros acc; simpl foldl.
  { simpl. by rewrite app_nil_r. }
  rewrite IH. destruct it; simpl; try done; try (by case_match; rewrite <- ?app_assoc).
  rewrite addIfPath_app, <- app_assoc, length_app. simpl.
  by replace (length acc.(positionals) + 1 - 1) with (length acc.(positionals)) by lia;
    replace (length acc.(positionals) + 1) with (S (length acc.(positionals))) by lia.
Qed.
End Denotation.

(** C36: Every argument list decomposes into syntactic items that use each token
    exactly once, in order, and [parseArgs] reports exactly what the items
    denote: the positionals in order, for each flag the last value assigned to
    it, the path arguments, and whether a terminator was seen. *)
Theorem parseArgs_spec (args : list string) (schema : ArgSchema) :
  ∃ its, tokens_parse schema false args its ∧ its ≫= item_tokens = args ∧
    let p := parseArgs args schema in
    p.(positionals) = item_positionals its ∧
    (∀ f, map_get f p.(flags) = last (item_flag_values f its)) ∧
    p.(pathArgs) = item_paths schema 0 its ∧
    p.(sawDoubleDash) = existsb item_is_dash its.
Proof.
  destruct (tokens_parse_total schema args false) as [its Hits]. exists its.
  split; [done|]. split; [by eapply tokens_parse_tokens|]. simpl. unfold parseArgs.
  rewrite (tokens_parse_sound _ _ _ _ Hits) by done.
  rewrite foldl_positionals, foldl_pathArgs, foldl_saw. split_and!; try done.
  intros f. rewrite foldl_flags. by destruct (last _).
Qed.

(** The positionals are arguments, in their order. *)
Lemma positionals_sublist args schema :
  (parseArgs args schema).(positionals) `sublist_of` args.
Proof.
  destruct (tokens_parse_total schema args false) as [its Hits].
  unfold parseArgs. rewrite (tokens_parse_sound _ _ _ _ Hits), foldl_positionals by done.
  rewrite <- (tokens_parse_tokens _ _ _ _ Hits). simpl. clear Hits.
  induction its as [|it its IH]; csimpl; [constructor|]. destruct it; csimpl;
    by repeat first [exact IH | apply sublist_skip | apply sublist_cons].
Qed.

Lemma positionals_elem args schema x :
  x ∈ (parseArgs args schema).(positionals) → x ∈ args.
Proof. intros. by eapply elem_of_sublist, positionals_sublist. Qed.
