(* ===== verification/TrustRules.v ===== *)
(** Trust rules: the table behind [gateway/src/db/trust-rule-store.ts] and the
    lookup cache of [gateway/src/risk/trust-rule-cache.ts], with the interface
    the bash classifier uses. *)
From S2P Require Import Prelude JsString JsMap RiskTypes.

(** ** Rules *)

Inductive Origin := default_origin | user_defined.
#[export] Instance Origin_eq_dec : EqDecision Origin.
Proof. solve_decision. Defined.

Record TrustRule := {
  tr_id : string;
  tr_tool : string;
  tr_pattern : string;
  tr_risk : Risk;
  tr_description : string;
  tr_origin : Origin;
  tr_userModified : bool;
  tr_deleted : bool;
  tr_scope : option string;
  tr_createdAt : string;
  tr_updatedAt : string }.

#[export] Instance TrustRule_eq_dec : EqDecision TrustRule.
Proof. solve_decision. Defined.

(** A rule the user wrote or adjusted, as opposed to a seeded default. *)
Definition isUserRule (r : option TrustRule) : bool :=
  match r with
  | Some r => r.(tr_userModified) || bool_decide (r.(tr_origin) = user_defined)
  | None => false
  end.

(** ** Scope *)

Definition ensure_slash (s : string) : string :=
  if ends_with s "/" then s else s +:+ "/".

Definition isScopeMatch (scope cwd : option string) : bool :=
  match scope with
  | None => true
  | Some scope =>
      if negb (truthy scope) || String.eqb scope "everywhere" then true
      else match cwd with
      | None => true
      | Some cwd =>
          if negb (truthy cwd) then true
          else
            let dir := if ends_with scope "/*" then slice_drop_last 2 scope else scope in
            let normalizedScope := ensure_slash dir in
            let normalizedCwd := ensure_slash cwd in
            String.eqb normalizedCwd normalizedScope
            || starts_with normalizedCwd normalizedScope
      end
  end.

(** ** The cache *)

Definition ToolMap := list (string * TrustRule).
Definition TrustRuleCache := list (string * ToolMap).

Definition refresh_step (rules : TrustRuleCache) (rule : TrustRule) : TrustRuleCache :=
  let toolMap := default [] (map_get rule.(tr_tool) rules) in
  map_set rule.(tr_tool) (map_set rule.(tr_pattern) rule toolMap) rules.

(** [refresh], on the rows [store.listActive()] returns. *)
Definition refresh (active : list TrustRule) : TrustRuleCache :=
  foldl refresh_step [] active.

Definition stripPath (command : string) : string :=
  let '(binary, rest) :=
    match index_of_char " " command with
    | None => (command, "")
    | Some i => (slice_to i command, slice_from i command)
    end in
  match last_index_of_char "/" binary with
  | None => command
  | Some i => slice_from (S i) binary +:+ rest
  end.

(** The scope-checked probe of one key in both dialects. *)
Definition lookup_key (toolMap : ToolMap) (cwd : option string) (key : string)
    : option TrustRule :=
  let scoped (r : option TrustRule) :=
    match r with
    | Some r => if isScopeMatch r.(tr_scope) cwd then Some r else None
    | None => None
    end in
  let litOk := scoped (map_get key toolMap) in
  let actOk := scoped (map_get ("action:" +:+ key) toolMap) in
  if isUserRule litOk then litOk
  else if isUserRule actOk then actOk
  else match litOk with Some r => Some r | None => actOk end.

(** [for (let i = parts.length - 1; i >= 1; i--)] over the word prefixes. *)
Fixpoint prefix_loop (toolMap : ToolMap) (cwd : option string) (parts : list string)
    (i : nat) : option TrustRule :=
  match i with
  | O => None
  | S i' =>
      match lookup_key toolMap cwd (join " " (take i parts)) with
      | Some r => Some r
      | None => prefix_loop toolMap cwd parts i'
      end
  end.

Definition findBaseRisk (cache : TrustRuleCache) (tool command : string)
    (cwd : option string) : option TrustRule :=
  match map_get tool cache with
  | None => None
  | Some toolMap =>
      match lookup_key toolMap cwd command with
      | Some exact => Some exact
      | None =>
          let stripped := stripPath command in
          match (if String.eqb stripped command then None
                 else lookup_key toolMap cwd stripped) with
          | Some strippedMatch => Some strippedMatch
          | None =>
              let resolvedCommand :=
                if String.eqb stripped command then command else stripped in
              let parts := split_ws resolvedCommand in
              prefix_loop toolMap cwd parts (length parts - 1)
          end
      end
  end.

Definition findToolOverride (cache : TrustRuleCache) (tool pattern : string)
    (cwd : option string) : option TrustRule :=
  match map_get tool cache with
  | None => None
  | Some toolMap =>
      let candidates := [map_get pattern toolMap;
                         map_get (tool +:+ ":" +:+ pattern) toolMap] in
      first_some (λ rule, match rule with
        | Some r => if isScopeMatch r.(tr_scope) cwd then Some r else None
        | None => None
        end) candidates
  end.

Definition getAllForTool (cache : TrustRuleCache) (tool : string) : list TrustRule :=
  match map_get tool cache with None => [] | Some toolMap => toolMap.*2 end.

(** ** What the lookup computes *)

Definition prefix_keys (parts : list string) (i : nat) : list string :=
  (λ j, join " " (take j parts)) <$> rev (seq 1 i).

(** The keys [findBaseRisk] tries, most specific first. *)
Definition candidate_keys (command : string) : list string :=
  let stripped := stripPath command in
  let parts := split_ws stripped in
  command :: (if String.eqb stripped command then [] else [stripped])
    ++ prefix_keys parts (length parts - 1).

(** [applicable cache tool cwd key r]: the cache holds [r] for [tool] at [key],
    in one of the two dialects, and the scope of [r] covers [cwd]. *)
Definition applicable (cache : TrustRuleCache) (tool : string) (cwd : option string)
    (key : string) (r : TrustRule) : Prop :=
  ∃ toolMap, map_get tool cache = Some toolMap ∧
    (map_get key toolMap = Some r ∨ map_get ("action:" +:+ key) toolMap = Some r) ∧
    isScopeMatch r.(tr_scope) cwd = true.

(** The cache stores [r] under [tool] and its own pattern. *)
Definition cache_at (cache : TrustRuleCache) (tool : string) (r : TrustRule) : Prop :=
  ∃ toolMap, map_get tool cache = Some toolMap ∧ map_get r.(tr_pattern) toolMap = Some r.

Lemma prefix_loop_first_some toolMap cwd parts i :
  prefix_loop toolMap cwd parts i =
  first_some (lookup_key toolMap cwd) (prefix_keys parts i).
Proof.
  induction i as [|i IH]; [done|]. unfold prefix_keys.
  rewrite seq_S, rev_app_distr. cbn [rev app fmap list_fmap first_some].
  simpl prefix_loop. by rewrite IH.
Qed.

Lemma findBaseRisk_candidates cache tool command cwd :
  findBaseRisk cache tool command cwd =
  match map_get tool cache with
  | None => None
  | Some toolMap => first_some (lookup_key toolMap cwd) (candidate_keys command)
  end.
Proof.
  unfold findBaseRisk, candidate_keys. destruct (map_get tool cache); [|done].
  cbn [first_some app]. destruct (lookup_key _ _ command) eqn:E1; [done|].
  destruct (String.eqb_spec (stripPath command) command) as [Heq|Hne]; cbn [first_some app].
  - rewrite Heq. apply prefix_loop_first_some.
  - destruct (lookup_key _ _ (stripPath command)); [done|]. apply prefix_loop_first_some.
Qed.

Lemma lookup_key_Some cache tool toolMap cwd key r :
  map_get tool cache = Some toolMap → lookup_key toolMap cwd key = Some r →
  applicable cache tool cwd key r ∧
  ∀ r', applicable cache tool cwd key r' → isUserRule (Some r') = true →
        isUserRule (Some r) = true.
Proof.
  intros Htool. unfold lookup_key, applicable. rewrite Htool. intros Hr. split.
  - exists toolMap. split; [done|].
    destruct (map_get key toolMap) as [lit|], (map_get ("action:" +:+ key) toolMap)
      as [act|]; repeat case_match; simplify_eq/=; eauto.
  - intros r' (tm & [= <-] & [Hr'|Hr'] & Hs) Hu; rewrite Hr' in Hr;
      rewrite Hs in Hr; repeat case_match; simplify_eq/=; congruence.
Qed.

Lemma lookup_key_None cache tool toolMap cwd key r :
  map_get tool cache = Some toolMap → lookup_key toolMap cwd key = None →
  ¬ applicable cache tool cwd key r.
Proof.
  intros Htool Hl (tm & Htm & [Hr|Hr] & Hs); simplify_eq; unfold lookup_key in Hl;
    rewrite Hr, Hs in Hl; repeat case_match; simplify_eq/=.
Qed.

Lemma findBaseRisk_some cache tool command cwd r :
  findBaseRisk cache tool command cwd = Some r →
  ∃ pre key post, candidate_keys command = pre ++ key :: post ∧
    applicable cache tool cwd key r ∧
    (∀ key' r', key' ∈ pre → ¬ applicable cache tool cwd key' r') ∧
    (∀ r', applicable cache tool cwd key r' → isUserRule (Some r') = true →
           isUserRule (Some r) = true).
Proof.
  rewrite findBaseRisk_candidates. destruct (map_get tool cache) as [tm|] eqn:Htool; [|done].
  intros (pre & key & post & Hkeys & Hkey & Hpre)%first_some_Some.
  exists pre, key, post. destruct (lookup_key_Some _ _ _ _ _ _ Htool Hkey) as [Happ Hu].
  split_and!; try done. intros key' r' Hin. rewrite Forall_forall in Hpre.
  by eapply lookup_key_None, Hpre.
Qed.

Lemma findBaseRisk_none cache tool command cwd key r :
  findBaseRisk cache tool command cwd = None → key ∈ candidate_keys command →
  ¬ applicable cache tool cwd key r.
Proof.
  rewrite findBaseRisk_candidates. destruct (map_get tool cache) as [tm|] eqn:Htool.
  2: { intros _ _ (? & ? & _). congruence. }
  intros Hf Hin. apply first_some_None in Hf. rewrite Forall_forall in Hf.
  by eapply lookup_key_None, Hf.
Qed.

(** C31: [findBaseRisk] returns an applicable rule at the most specific candidate
    key that has one, preferring at that key a rule the user authored over a
    seeded default; it returns nothing exactly when no candidate key has an
    applicable rule. *)
Theorem findBaseRisk_spec (cache : TrustRuleCache) (tool command : string)
    (cwd : option string) :
  match findBaseRisk cache tool command cwd with
  | Some r => ∃ pre key post, candidate_keys command = pre ++ key :: post ∧
      applicable cache tool cwd key r ∧
      (∀ key' r', key' ∈ pre → ¬ applicable cache tool cwd key' r') ∧
      (∀ r', applicable cache tool cwd key r' → isUserRule (Some r') = true →
             isUserRule (Some r) = true)
  | None => ∀ key r, key ∈ candidate_keys command → ¬ applicable cache tool cwd key r
  end.
Proof.
  destruct (findBaseRisk _ _ _ _) as [r|] eqn:H; [by apply findBaseRisk_some|].
  intros key r. by apply findBaseRisk_none.
Qed.

(** ** Directory scopes *)

Lemma ensure_slash_dir d : ends_with d "/" = false → ensure_slash d = d +:+ "/".
Proof. unfold ensure_slash. by intros ->. Qed.

Lemma isScopeMatch_dir (dir cwd : string) :
  ends_with dir "/" = false → truthy cwd = true →
  isScopeMatch (Some (dir +:+ "/*")) (Some cwd) = true ↔
  cwd = dir ∨ ∃ below, cwd = dir +:+ "/" +:+ below.
Proof.
  intros Hdir Hcwd. unfold isScopeMatch.
  assert (truthy (dir +:+ "/*") = true) as -> by by destruct dir.
  assert (String.eqb (dir +:+ "/*") "everywhere" = false) as ->.
  { apply String.eqb_neq. intros Heq.
    pose proof (ends_with_app dir "/*") as H. rewrite Heq in H. discriminate H. }
  rewrite Hcwd, ends_with_app. cbn [negb orb].
  rewrite (slice_drop_last_app dir "/*" : slice_drop_last 2 _ = _).
  rewrite (ensure_slash_dir _ Hdir), orb_true_iff, String.eqb_eq, starts_with_spec.
  unfold ensure_slash. destruct (ends_with cwd "/") eqn:Hc.
  - split.
    + intros [->|[r ->]]; right; [by exists ""|]. exists r. by rewrite append_assoc.
    + intros [->|[b ->]]; [congruence|]. right. exists b. by rewrite append_assoc.
  - split.
    + intros [H%append_inj_r|[r Hr]]; [by left|].
      destruct (decide (r = "")) as [->|Hne].
      { left. rewrite append_nil_r in Hr. by apply append_inj_r in Hr. }
      right. exists (slice_drop_last 1 r).
      assert (ends_with r "/" = true) as [r' ->]%ends_with_spec.
      { apply ends_with_spec. pose proof (ends_with_app cwd "/") as He.
        rewrite Hr in He. apply ends_with_spec in He as [q Hq].
        exact (append_last_char _ _ _ Hne Hq). }
      rewrite (slice_drop_last_app r' "/" : slice_drop_last 1 _ = _).
      rewrite <- append_assoc in Hr. apply append_inj_r in Hr. by rewrite <- append_assoc.
    + intros [->|[b ->]]; [by left|]. right. exists (b +:+ "/").
      by rewrite !append_assoc.
Qed.

(** A rule saved for a directory [dir] (as [dir/*]) applies in [dir] and below
    it and nowhere else; in particular a sibling that merely shares the prefix
    of the name is out of scope. *)
Theorem isScopeMatch_directory (dir cwd : string) :
  ends_with dir "/" = false → truthy cwd = true →
  isScopeMatch (Some (dir +:+ "/*")) (Some cwd) = true ↔
  cwd = dir ∨ ∃ below, cwd = dir +:+ "/" +:+ below.
Proof. apply isScopeMatch_dir. Qed.

(** ** Generalised rules are honoured *)

(** A directory prefix of an executable: empty, or ending in a slash. *)
Definition path_prefix (p : string) : Prop :=
  p = "" ∨ ∃ d, no_char " " d ∧ p = d +:+ "/".

Lemma stripPath_first p w rest :
  path_prefix p → is_word w = true → no_char "/" w →
  rest = "" ∨ (∃ r, rest = String " " r) →
  stripPath (p +:+ w +:+ rest) = w +:+ rest.
Proof.
  intros Hp Hw Hslash Hrest. apply andb_true_iff in Hw as [_ Hw%no_space_no_char].
  assert (no_char " " (p +:+ w)) as Hpw.
  { apply no_char_app. split; [|done]. destruct Hp as [->|(d & ? & ->)]; [done|].
    apply no_char_app. done. }
  assert (match last_index_of_char "/" (p +:+ w) with
          | None => p +:+ w | Some i => slice_from (S i) (p +:+ w) end = w) as Hbin.
  { destruct Hp as [->|(d & _ & ->)]; simpl.
    - by rewrite (proj2 (last_index_of_char_None _ _) Hslash).
    - rewrite append_assoc. change ("/" +:+ w) with (String "/" w).
      rewrite (last_index_of_char_app "/" d w Hslash).
      pose proof (slice_from_app (d +:+ "/") w) as H.
      rewrite append_length, append_assoc, Nat.add_1_r in H. exact H. }
  unfold stripPath. rewrite <- append_assoc. destruct Hrest as [->|[r ->]].
  - rewrite !append_nil_r, Hpw.
    destruct (last_index_of_char "/" (p +:+ w)); by rewrite ?append_nil_r, Hbin.
  - rewrite (index_of_char_app _ _ _ Hpw), slice_to_app, slice_from_app.
    destruct (last_index_of_char "/" (p +:+ w)); by rewrite Hbin.
Qed.

Lemma prefix_keys_elem parts i j :
  1 ≤ j ≤ i → join " " (take j parts) ∈ prefix_keys parts i.
Proof.
  intros Hj. unfold prefix_keys. apply (list_elem_of_fmap_2 (λ j, join " " (take j parts))).
  apply list_elem_of_In, in_rev. rewrite rev_involutive. apply in_seq. lia.
Qed.

(** Every non-empty word prefix of the command, path-stripped, is tried. *)
Lemma candidate_keys_prefix p w ws pre :
  path_prefix p → no_char "/" w → Forall (λ w, is_word w = true) (w :: ws) →
  pre `prefix_of` (w :: ws) → pre ≠ [] →
  join " " pre ∈ candidate_keys (p +:+ join " " (w :: ws)).
Proof.
  intros Hp Hslash Hws Hpre Hne. unfold candidate_keys.
  assert (stripPath (p +:+ join " " (w :: ws)) = join " " (w :: ws)) as Hstrip.
  { inversion_clear Hws as [|? ? Hw _]. destruct ws as [|w' ws].
    - pose proof (stripPath_first p w "" Hp Hw Hslash (or_introl eq_refl)) as H.
      by rewrite !append_nil_r in H.
    - rewrite join_cons. apply stripPath_first; try done. right. by eexists. }
  rewrite Hstrip, split_ws_join by done. destruct Hpre as [post Hpost].
  destruct post as [|x post].
  - rewrite app_nil_r in Hpost. subst pre.
    destruct (String.eqb_spec (join " " (w :: ws)) (p +:+ join " " (w :: ws))) as [Heq|].
    + rewrite <- Heq. by left.
    + right. apply elem_of_app. left. by left.
  - right. apply elem_of_app. right.
    assert (pre = take (length pre) (w :: ws)) as Htake.
    { rewrite Hpost. by rewrite take_app_length. }
    rewrite Htake at 1. apply prefix_keys_elem.
    rewrite Hpost, length_app. simpl. destruct pre; [done|]. simpl. lia.
Qed.

Lemma saved_rule_found cache tool cwd p w ws pre r :
  path_prefix p → no_char "/" w → Forall (λ w, is_word w = true) (w :: ws) →
  pre `prefix_of` (w :: ws) → pre ≠ [] →
  applicable cache tool cwd (join " " pre) r →
  ∃ r', findBaseRisk cache tool (p +:+ join " " (w :: ws)) cwd = Some r'.
Proof.
  intros Hp Hs Hws Hpre Hne Happ.
  destruct (findBaseRisk _ _ _ _) as [r'|] eqn:H; [by exists r'|]. exfalso.
  eapply findBaseRisk_none; [exact H| |exact Happ]. by apply candidate_keys_prefix.
Qed.

(** A rule saved for the leading words of a command (in either dialect) is
    never ignored: whatever arguments follow and whatever directory the
    executable is called by, the lookup finds that rule or one at a more
    specific key. *)
Theorem saved_rule_applies (cache : TrustRuleCache) (tool : string)
    (cwd : option string) (p w : string) (ws pre : list string) (r : TrustRule) :
  path_prefix p → no_char "/" w → Forall (λ w, is_word w = true) (w :: ws) →
  pre `prefix_of` (w :: ws) → pre ≠ [] →
  applicable cache tool cwd (join " " pre) r →
  ∃ r', findBaseRisk cache tool (p +:+ join " " (w :: ws)) cwd = Some r'.
Proof. apply saved_rule_found. Qed.

(** ** Concrete instances *)

Definition sample_rule (pattern : string) (scope : option string) : TrustRule :=
  {| tr_id := "rule-1"; tr_tool := "bash"; tr_pattern := pattern; tr_risk := low;
     tr_description := "saved from the prompt"; tr_origin := user_defined;
     tr_userModified := false; tr_deleted := false; tr_scope := scope;
     tr_createdAt := "2026-01-01T00:00:00Z"; tr_updatedAt := "2026-01-01T00:00:00Z" |}.

Lemma isScopeMatch_directory_witness :
  isScopeMatch (Some "/work/app/*") (Some "/work/app/src") = true ∧
  isScopeMatch (Some "/work/app/*") (Some "/work/app2") = false.
Proof.
  split.
  - apply (isScopeMatch_directory "/work/app" "/work/app/src");
      [reflexivity|reflexivity|]. right. by exists "src".
  - apply not_true_is_false.
    intros [H|[b H]]%(isScopeMatch_directory "/work/app" "/work/app2");
      [discriminate H|discriminate H|reflexivity|reflexivity].
Defined.

Lemma saved_rule_applies_witness :
  let cache := refresh [sample_rule "action:git push" None] in
  ∃ r, findBaseRisk cache "bash" "/usr/bin/git push origin main" (Some "/work") = Some r.
Proof.
  simpl. apply (saved_rule_applies _ "bash" (Some "/work") "/usr/bin/" "git"
    ["push"; "origin"; "main"] ["git"; "push"] (sample_rule "action:git push" None)).
  - right. exists "/usr/bin". split; reflexivity.
  - reflexivity.
  - repeat constructor.
  - by exists ["origin"; "main"].
  - discriminate.
  - eexists. split; [reflexivity|]. split; [right|]; reflexivity.
Defined.
