(* ===== verification/TrustRuleStore.v ===== *)
(** The [trust_rules] table ([gateway/src/db/trust-rule-store.ts]).

    The table is the list of its rows in insertion order. The columns [id]
    (primary key) and [(tool, pattern)] (unique index) are the uniqueness
    constraints of [gateway/src/db/schema.ts]. The time stamp and the fresh
    identifier of an operation are arguments. *)
From S2P Require Import Prelude JsString JsMap RiskTypes TrustRules.

Record Row := {
  row_id : string; row_tool : string; row_pattern : string; row_risk : string;
  row_description : string; row_origin : Origin; row_userModified : bool;
  row_deleted : bool; row_scope : option string;
  row_createdAt : string; row_updatedAt : string }.

Abbreviation Table := (list Row).

Definition parse_risk (s : string) : option Risk :=
  if String.eqb s "low" then Some low
  else if String.eqb s "medium" then Some medium
  else if String.eqb s "high" then Some high
  else None.

(** [assertValidRisk] does not throw. *)
Definition valid_risk (s : string) : bool :=
  match parse_risk s with Some _ => true | None => false end.

Definition toTrustRule (row : Row) : TrustRule :=
  {| tr_id := row.(row_id); tr_tool := row.(row_tool); tr_pattern := row.(row_pattern);
     tr_risk := default high (parse_risk row.(row_risk));
     tr_description := row.(row_description); tr_origin := row.(row_origin);
     tr_userModified := row.(row_userModified); tr_deleted := row.(row_deleted);
     tr_scope := row.(row_scope);
     tr_createdAt := row.(row_createdAt); tr_updatedAt := row.(row_updatedAt) |}.

(** ** Queries *)

Definition has_id (id : string) (row : Row) : bool := String.eqb row.(row_id) id.
Definition has_key (tool pattern : string) (row : Row) : bool :=
  String.eqb row.(row_tool) tool && String.eqb row.(row_pattern) pattern.

Record ListFilters := {
  f_origin : option Origin; f_tool : option string;
  f_includeDeleted : bool; f_userRelevantOnly : bool }.

Definition filter_row (f : ListFilters) (row : Row) : bool :=
  (f.(f_includeDeleted) || negb row.(row_deleted))
  && match f.(f_origin) with
     | Some o => bool_decide (row.(row_origin) = o) | None => true end
  && (negb f.(f_userRelevantOnly)
      || (bool_decide (row.(row_origin) = user_defined) || row.(row_userModified)))
  && match f.(f_tool) with Some t => String.eqb row.(row_tool) t | None => true end.

Definition list_rules (f : ListFilters) (t : Table) : list TrustRule :=
  toTrustRule <$> List.filter (filter_row f) t.

Definition find_row (id : string) (t : Table) : option Row := find_first (has_id id) t.
Definition getById (id : string) (t : Table) : option TrustRule :=
  toTrustRule <$> find_row id t.

Definition listActive (tool : option string) (t : Table) : list TrustRule :=
  toTrustRule <$> List.filter (λ row, negb row.(row_deleted)
    && match tool with Some x => String.eqb row.(row_tool) x | None => true end) t.

(** ** Updates *)

(** [UPDATE ... SET f WHERE p] *)
Definition update_where (p : Row → bool) (f : Row → Row) (t : Table) : Table :=
  (λ row, if p row then f row else row) <$> t.

(** [INSERT ... ON CONFLICT (tool, pattern) DO UPDATE SET f WHERE guard]: the
    conflict target decides first; otherwise a taken primary key is an error. *)
Definition upsert (new : Row) (f : Row → Row) (guard : Row → bool) (t : Table)
    : option Table :=
  if existsb (has_key new.(row_tool) new.(row_pattern)) t then
    Some (update_where (λ row, has_key new.(row_tool) new.(row_pattern) row && guard row) f t)
  else if existsb (has_id new.(row_id)) t then None
  else Some (t ++ [new]).

Record CreateInput := {
  ci_tool : string; ci_pattern : string; ci_risk : string; ci_description : string;
  ci_scope : option string }.

Definition create_update (now : string) (input : CreateInput) (row : Row) : Row :=
  {| row_id := row.(row_id); row_tool := row.(row_tool); row_pattern := row.(row_pattern);
     row_risk := input.(ci_risk); row_description := input.(ci_description);
     row_origin := user_defined; row_userModified := row.(row_userModified);
     row_deleted := false; row_scope := input.(ci_scope);
     row_createdAt := row.(row_createdAt); row_updatedAt := now |}.

Definition create (now id : string) (input : CreateInput) (t : Table)
    : option (TrustRule * Table) :=
  if negb (valid_risk input.(ci_risk)) then None
  else
    let new := {| row_id := id; row_tool := input.(ci_tool);
      row_pattern := input.(ci_pattern); row_risk := input.(ci_risk);
      row_description := input.(ci_description); row_origin := user_defined;
      row_userModified := false; row_deleted := false; row_scope := input.(ci_scope);
      row_createdAt := now; row_updatedAt := now |} in
    match upsert new (create_update now input) (λ _, true) t with
    | None => None
    | Some t' =>
        match find_first (has_key input.(ci_tool) input.(ci_pattern)) t' with
        | Some row => Some (toTrustRule row, t')
        | None => None
        end
    end.

Definition set_update (now : string) (risk description : option string) (row : Row)
    : Row :=
  {| row_id := row.(row_id); row_tool := row.(row_tool); row_pattern := row.(row_pattern);
     row_risk := default row.(row_risk) risk;
     row_description := default row.(row_description) description;
     row_origin := row.(row_origin);
     row_userModified :=
       match row.(row_origin) with
       | default_origin => true | user_defined => row.(row_userModified) end;
     row_deleted := row.(row_deleted); row_scope := row.(row_scope);
     row_createdAt := row.(row_createdAt); row_updatedAt := now |}.

Definition update (now id : string) (risk description : option string) (t : Table)
    : option (TrustRule * Table) :=
  match getById id t with
  | None => None
  | Some existing =>
      match risk, description with
      | None, None => Some (existing, t)
      | _, _ =>
          if match risk with Some r => valid_risk r | None => true end then
            let t' := update_where (has_id id) (set_update now risk description) t in
            match getById id t' with Some r => Some (r, t') | None => None end
          else None
      end
  end.

Definition set_deleted (now : string) (row : Row) : Row :=
  {| row_id := row.(row_id); row_tool := row.(row_tool); row_pattern := row.(row_pattern);
     row_risk := row.(row_risk); row_description := row.(row_description);
     row_origin := row.(row_origin); row_userModified := row.(row_userModified);
     row_deleted := true; row_scope := row.(row_scope);
     row_createdAt := row.(row_createdAt); row_updatedAt := now |}.

Definition remove (now id : string) (t : Table) : option Table :=
  match getById id t with
  | None => None
  | Some existing =>
      match existing.(tr_origin) with
      | user_defined => Some (List.filter (λ row, negb (has_id id row)) t)
      | default_origin => Some (update_where (has_id id) (set_deleted now) t)
      end
  end.

Definition set_reset (now risk : string) (description : option string) (row : Row)
    : Row :=
  {| row_id := row.(row_id); row_tool := row.(row_tool); row_pattern := row.(row_pattern);
     row_risk := risk; row_description := default row.(row_description) description;
     row_origin := row.(row_origin); row_userModified := false; row_deleted := false;
     row_scope := row.(row_scope);
     row_createdAt := row.(row_createdAt); row_updatedAt := now |}.

Definition reset (now id originalRisk : string) (originalDescription : option string)
    (t : Table) : option (TrustRule * Table) :=
  match getById id t with
  | None => None
  | Some existing =>
      match existing.(tr_origin) with
      | user_defined => None
      | default_origin =>
          let t' := update_where (has_id id)
                      (set_reset now originalRisk originalDescription) t in
          match getById id t' with Some r => Some (r, t') | None => None end
      end
  end.

Record UpsertDefaultInput := {
  ud_id : string; ud_tool : string; ud_pattern : string; ud_risk : string;
  ud_description : string }.

Definition upsert_update (now : string) (input : UpsertDefaultInput) (row : Row) : Row :=
  {| row_id := row.(row_id); row_tool := row.(row_tool); row_pattern := row.(row_pattern);
     row_risk := input.(ud_risk); row_description := input.(ud_description);
     row_origin := row.(row_origin); row_userModified := row.(row_userModified);
     row_deleted := row.(row_deleted); row_scope := row.(row_scope);
     row_createdAt := row.(row_createdAt); row_updatedAt := now |}.

(** The three guards of the conflict clause. *)
Definition pristine_default (row : Row) : bool :=
  bool_decide (row.(row_origin) = default_origin)
  && negb row.(row_userModified) && negb row.(row_deleted).

Definition upsertDefault (now : string) (input : UpsertDefaultInput) (t : Table)
    : option Table :=
  upsert {| row_id := input.(ud_id); row_tool := input.(ud_tool);
            row_pattern := input.(ud_pattern); row_risk := input.(ud_risk);
            row_description := input.(ud_description); row_origin := default_origin;
            row_userModified := false; row_deleted := false; row_scope := None;
            row_createdAt := now; row_updatedAt := now |}
    (upsert_update now input) pristine_default t.

(** ** Seeding from the command registry ([gateway/src/db/seed-trust-rules.ts]) *)

(** [pattern.replace(/ /g, "-")] *)
Fixpoint dash_spaces (s : string) : string :=
  match s with
  | EmptyString => EmptyString
  | String c s => String (if Ascii.eqb c " " then "-"%char else c) (dash_spaces s)
  end.

Definition makeId (pattern : string) : string := "default:bash:" +:+ dash_spaces pattern.

Definition makeDescription (pattern : string) (spec : CommandRiskSpec) : string :=
  match spec.(spec_reason) with
  | Some r => if truthy r then pattern +:+ " — " +:+ r else pattern +:+ " (default)"
  | None => pattern +:+ " (default)"
  end.

Definition risk_string (r : Risk) : string :=
  match r with low => "low" | medium => "medium" | high => "high" | unknown => "unknown" end.

Fixpoint collectEntries (pattern : string) (spec : CommandRiskSpec)
    : list UpsertDefaultInput :=
  let entry := {| ud_id := makeId pattern; ud_tool := "bash"; ud_pattern := pattern;
                  ud_risk := from_option risk_string "" spec.(baseRisk);
                  ud_description := makeDescription pattern spec |} in
  match spec with
  | Spec _ (Some subs) _ _ _ _ _ _ _ _ =>
      entry :: (fix go (subs : list (string * CommandRiskSpec)) :=
        match subs with
        | [] => []
        | (sub, subSpec) :: subs =>
            collectEntries (pattern +:+ " " +:+ sub) subSpec ++ go subs
        end) subs
  | _ => [entry]
  end.

Definition registry_entries (registry : list (string * CommandRiskSpec))
    : list UpsertDefaultInput :=
  registry ≫= λ '(command, spec), collectEntries command spec.

(** The loop stops at the first entry whose statement throws. *)
Fixpoint seed_entries (now : string) (entries : list UpsertDefaultInput) (t : Table)
    : Table * bool :=
  match entries with
  | [] => (t, true)
  | e :: es =>
      match upsertDefault now e t with
      | Some t' => seed_entries now es t'
      | None => (t, false)
      end
  end.

Definition seedTrustRulesFromRegistry (now : string)
    (registry : list (string * CommandRiskSpec)) (t : Table) : Table * bool :=
  seed_entries now (registry_entries registry) t.

(** ** The table invariant *)

Definition row_key (row : Row) : string * string := (row.(row_tool), row.(row_pattern)).
Definition table_wf (t : Table) : Prop :=
  NoDup (row_id <$> t) ∧ NoDup (row_key <$> t).

(** [f] changes neither identifier nor key. *)
Definition keeps_keys (f : Row → Row) : Prop :=
  ∀ row, row_id (f row) = row_id row ∧ row_key (f row) = row_key row.

Lemma has_key_spec tool pattern row :
  has_key tool pattern row = true ↔ row_key row = (tool, pattern).
Proof.
  unfold has_key, row_key. rewrite andb_true_iff, !String.eqb_eq. naive_solver.
Qed.

Lemma has_id_spec id row : has_id id row = true ↔ row_id row = id.
Proof. apply String.eqb_eq. Qed.

Lemma update_where_keys p f t :
  keeps_keys f → row_id <$> update_where p f t = row_id <$> t ∧
                 row_key <$> update_where p f t = row_key <$> t.
Proof.
  intros Hf. unfold update_where. rewrite <- !list_fmap_compose.
  split; apply list_fmap_ext; intros ? row _; simpl;
    destruct (p row); try done; apply Hf.
Qed.

Lemma update_where_wf p f t : keeps_keys f → table_wf t → table_wf (update_where p f t).
Proof.
  intros Hf. unfold table_wf. by destruct (update_where_keys p f t Hf) as [-> ->].
Qed.

Lemma upsert_wf new f guard t t' :
  keeps_keys f → table_wf t → upsert new f guard t = Some t' → table_wf t'.
Proof.
  intros Hf [Hid Hkey]. unfold upsert. destruct (existsb (has_key _ _) t) eqn:Hk.
  { intros [= <-]. by apply update_where_wf. }
  destruct (existsb (has_id _) t) eqn:Hi; [done|]. intros [= <-].
  rewrite existsb_false in Hk, Hi. unfold table_wf. rewrite !fmap_app.
  split; apply NoDup_app; (split; [done|]; split; [|apply NoDup_singleton]);
    intros x (row & -> & Hrow)%list_elem_of_fmap Hx%list_elem_of_singleton.
  - specialize (Hi row Hrow). rewrite <- not_true_iff_false, has_id_spec in Hi. done.
  - specialize (Hk row Hrow). rewrite <- not_true_iff_false, has_key_spec in Hk. done.
Qed.

Lemma filter_wf p t : table_wf t → table_wf (List.filter p t).
Proof.
  assert (List.filter p t `sublist_of` t) as Hsub.
  { induction t as [|x t IH]; simpl; [constructor|].
    destruct (p x); by constructor. }
  intros [? ?]. split; eapply sublist_NoDup; try done; by apply fmap_sublist.
Qed.

Lemma create_update_keeps now input : keeps_keys (create_update now input).
Proof. by intros ?. Qed.
Lemma set_update_keeps now r d : keeps_keys (set_update now r d).
Proof. by intros ?. Qed.
Lemma set_deleted_keeps now : keeps_keys (set_deleted now).
Proof. by intros ?. Qed.
Lemma set_reset_keeps now r d : keeps_keys (set_reset now r d).
Proof. by intros ?. Qed.
Lemma upsert_update_keeps now input : keeps_keys (upsert_update now input).
Proof. by intros ?. Qed.

#[export] Hint Resolve create_update_keeps set_update_keeps set_deleted_keeps
  set_reset_keeps upsert_update_keeps update_where_wf filter_wf : vellum.

(** ** Operations as steps *)

Inductive StoreOp :=
  | OpCreate (now id : string) (input : CreateInput)
  | OpUpdate (now id : string) (risk description : option string)
  | OpRemove (now id : string)
  | OpReset (now id risk : string) (description : option string)
  | OpUpsertDefault (now : string) (input : UpsertDefaultInput).

(** A throwing operation leaves the table as it was. *)
Definition run_op (t : Table) (op : StoreOp) : Table :=
  match op with
  | OpCreate now id input => from_option snd t (create now id input t)
  | OpUpdate now id r d => from_option snd t (update now id r d t)
  | OpRemove now id => default t (remove now id t)
  | OpReset now id r d => from_option snd t (reset now id r d t)
  | OpUpsertDefault now input => default t (upsertDefault now input t)
  end.

Lemma run_op_wf t op : table_wf t → table_wf (run_op t op).
Proof.
  intros Hwf. destruct op; simpl.
  - unfold create. destruct (valid_risk _); [|done]. simpl.
    destruct (upsert _ _ _ t) as [t'|] eqn:Hu; [|done].
    destruct (find_first _ t'); [|done]. simpl.
    eapply upsert_wf; [..|exact Hu]; eauto with vellum.
  - unfold update. destruct (getById id t); [|done].
    repeat case_match; simplify_eq/=; try destruct (getById id _); simpl;
      eauto with vellum.
  - unfold remove. destruct (getById id t) as [e|]; [|done].
    destruct (tr_origin e); simpl; eauto with vellum.
  - unfold reset. destruct (getById id t) as [e|]; [|done].
    destruct (tr_origin e); [|done]. destruct (getById id _); simpl; eauto with vellum.
  - destruct (upsertDefault now input t) as [t'|] eqn:Hu; [|done].
    eapply upsert_wf; [..|exact Hu]; eauto with vellum.
Qed.

(** Whatever operations have run, succeeding or failing, no two rules share
    an identifier and no two rules share a tool and pattern. *)
Theorem store_reachable_wf (ops : list StoreOp) : table_wf (foldl run_op [] ops).
Proof.
  assert (∀ t, table_wf t → table_wf (foldl run_op t ops)) as H.
  { induction ops as [|op ops IH]; intros t Ht; [done|]. by apply IH, run_op_wf. }
  apply H. split; constructor.
Qed.

(** ** Seeding and the user's rules *)

Lemma filter_update_where (p q : Row → bool) f t :
  (∀ row, q row = true → p row = false ∧ p (f row) = false) →
  List.filter p (update_where q f t) = List.filter p t.
Proof.
  intros H. induction t as [|row t IH]; [done|]. simpl.
  destruct (q row) eqn:Hq; [|by rewrite IH].
  destruct (H row Hq) as [-> ->]. done.
Qed.

(** The row is the user's: authored, modified or removed by them. *)
Definition touched (row : Row) : bool :=
  bool_decide (row.(row_origin) = user_defined) || row.(row_userModified)
  || row.(row_deleted).

Lemma touched_pristine row : touched row = negb (pristine_default row).
Proof.
  unfold touched, pristine_default.
  by destruct (row_origin row), (row_userModified row), (row_deleted row).
Qed.

Lemma upsertDefault_touched now input t t' :
  upsertDefault now input t = Some t' →
  List.filter touched t' = List.filter touched t.
Proof.
  unfold upsertDefault, upsert. destruct (existsb (has_key _ _) t).
  - intros [= <-]. apply filter_update_where. intros row [_ Hp]%andb_true_iff.
    rewrite !touched_pristine.
    change (pristine_default (upsert_update now input row)) with (pristine_default row).
    by rewrite Hp.
  - destruct (existsb _ t); [done|]. intros [= <-].
    rewrite List.filter_app. apply app_nil_r.
Qed.

(** Seeding the defaults, even when it stops half way, leaves every rule the
    user created, modified or deleted exactly as it was. *)
Theorem seed_preserves_user_rules (now : string)
    (registry : list (string * CommandRiskSpec)) (t : Table) :
  List.filter touched (seedTrustRulesFromRegistry now registry t).1 =
  List.filter touched t.
Proof.
  unfold seedTrustRulesFromRegistry. generalize (registry_entries registry). intros es.
  revert t. induction es as [|e es IH]; intros t; [done|]. simpl.
  destruct (upsertDefault now e t) as [t'|] eqn:Hu; [|done].
  rewrite IH. by eapply upsertDefault_touched.
Qed.

(** ** The cache sees what the store holds *)

Definition cache_get (cache : TrustRuleCache) (tool pattern : string) : option TrustRule :=
  map_get tool cache ≫= map_get pattern.

Definition rule_at (tool pattern : string) (r : TrustRule) : bool :=
  String.eqb r.(tr_tool) tool && String.eqb r.(tr_pattern) pattern.

(** [refresh] keeps, for each tool and pattern, the last active rule. *)
Lemma refresh_get active tool pattern :
  cache_get (refresh active) tool pattern =
  last (List.filter (rule_at tool pattern) active).
Proof.
  unfold refresh. induction active as [|r l IH] using rev_ind; [done|].
  rewrite foldl_app, List.filter_app. simpl. unfold refresh_step at 1, rule_at at 2.
  unfold cache_get in *. rewrite map_get_set.
  destruct (String.eqb_spec (tr_tool r) tool) as [<-|Hne]; simpl.
  - rewrite decide_True by done. simpl. rewrite map_get_set.
    destruct (String.eqb_spec (tr_pattern r) pattern) as [<-|Hne]; simpl.
    + by rewrite decide_True, last_snoc.
    + rewrite decide_False, app_nil_r, <- IH by done.
      by destruct (map_get (tr_tool r) _).
  - by rewrite decide_False, app_nil_r, <- IH by done.
Qed.

Lemma find_first_filter {A} (f : A → bool) xs :
  find_first f xs = head (List.filter f xs).
Proof. induction xs as [|x xs IH]; simpl; [done|]. by destruct (f x). Qed.

Lemma filter_key_unique tool pattern t row :
  table_wf t → row ∈ t → row_key row = (tool, pattern) →
  List.filter (has_key tool pattern) t = [row].
Proof.
  intros [_ Hnd] Hin Hkey. induction t as [|x t IH]; [by apply elem_of_nil in Hin|].
  rewrite fmap_cons in Hnd. apply NoDup_cons in Hnd as [Hx Hnd]. simpl.
  assert (∀ r, r ∈ t → row_key r = row_key x → False) as Hother.
  { intros r Hr Heq. apply Hx. rewrite <- Heq. by apply list_elem_of_fmap_2. }
  apply elem_of_cons in Hin as [->|Hin].
  - rewrite (proj2 (has_key_spec _ _ _) Hkey). f_equal.
    destruct (List.filter _ t) as [|y ys] eqn:Hf; [done|]. exfalso.
    assert (y ∈ List.filter (has_key tool pattern) t) as Hy by (rewrite Hf; left).
    apply list_elem_of_In, List.filter_In in Hy as [Hy Hky%has_key_spec].
    apply (Hother y); [by apply list_elem_of_In|congruence].
  - destruct (has_key tool pattern x) eqn:Hkx; [|by apply IH].
    apply has_key_spec in Hkx. exfalso. apply (Hother row); congruence.
Qed.

Lemma rule_at_toTrustRule tool pattern row :
  rule_at tool pattern (toTrustRule row) = has_key tool pattern row.
Proof. done. Qed.

(** The active rule at a key, read through a refreshed cache. *)
Lemma cache_get_active t row :
  table_wf t → row ∈ t → row.(row_deleted) = false →
  cache_get (refresh (listActive None t)) row.(row_tool) row.(row_pattern) =
  Some (toTrustRule row).
Proof.
  intros Hwf Hin Hdel. rewrite refresh_get. unfold listActive.
  assert (∀ l, List.filter (rule_at (row_tool row) (row_pattern row)) (toTrustRule <$> l)
    = toTrustRule <$> List.filter (has_key (row_tool row) (row_pattern row)) l) as Hmap.
  { induction l as [|x l IH]; csimpl; [done|]. rewrite rule_at_toTrustRule.
    destruct (has_key _ _ x); csimpl; by rewrite IH. }
  rewrite Hmap. erewrite filter_key_unique; [done|by apply filter_wf| |done].
  apply list_elem_of_In, List.filter_In. rewrite Hdel. by rewrite <- list_elem_of_In.
Qed.

Lemma create_spec now id input t r t' :
  table_wf t → create now id input t = Some (r, t') →
  table_wf t' ∧ ∃ row, row ∈ t' ∧ r = toTrustRule row ∧ row.(row_deleted) = false ∧
    row_key row = (input.(ci_tool), input.(ci_pattern)) ∧
    row.(row_risk) = input.(ci_risk) ∧ row.(row_origin) = user_defined ∧
    row.(row_scope) = input.(ci_scope).
Proof.
  intros Hwf. unfold create. destruct (valid_risk _); [|done]. simpl.
  destruct (upsert _ _ _ t) as [t1|] eqn:Hu; [|done].
  destruct (find_first _ t1) as [row|] eqn:Hfind; [|done]. intros [= <- <-].
  split; [eapply upsert_wf; [..|exact Hu]; eauto with vellum|].
  apply find_first_Some in Hfind as [Hin Hkey]. exists row. split; [done|]. split; [done|].
  pose proof Hkey as Hk%has_key_spec.
  unfold upsert in Hu. simpl in Hu. destruct (existsb (has_key _ _) t) eqn:Hex.
  - injection Hu as <-. unfold update_where in Hin.
    apply list_elem_of_fmap in Hin as (row0 & -> & Hin0).
    rewrite andb_true_r in *. destruct (has_key _ _ row0) eqn:Hk0; [done|congruence].
  - destruct (existsb (has_id id) t); [done|]. injection Hu as <-.
    apply elem_of_app in Hin as [Hin|Hin]; [|by apply list_elem_of_singleton in Hin as ->].
    rewrite existsb_false in Hex. rewrite Hex in Hkey; done.
Qed.

(** A rule created by the user, with a scope that covers the working directory,
    is what the refreshed cache answers for its tool and pattern: it wins over
    any seeded default it replaced. *)
Theorem created_rule_found (now id : string) (input : CreateInput) (t t' : Table)
    (r : TrustRule) (cwd : option string) :
  table_wf t → create now id input t = Some (r, t') →
  isScopeMatch input.(ci_scope) cwd = true →
  findToolOverride (refresh (listActive None t')) input.(ci_tool) input.(ci_pattern) cwd
    = Some r ∧
  findBaseRisk (refresh (listActive None t')) input.(ci_tool) input.(ci_pattern) cwd
    = Some r.
Proof.
  intros Hwf Hc Hscope.
  destruct (create_spec _ _ _ _ _ _ Hwf Hc)
    as (Hwf' & row & Hin & -> & Hdel & Hkey & _ & Ho & Hs).
  injection Hkey as Ht Hp.
  pose proof (cache_get_active t' row Hwf' Hin Hdel) as Hget. rewrite Ht, Hp in Hget.
  unfold cache_get in Hget. unfold findToolOverride, findBaseRisk.
  destruct (map_get (ci_tool input) _) as [tm|]; [|done]. simpl in Hget.
  unfold lookup_key. cbn [first_some]. rewrite Hget. simpl. rewrite Hs, Hscope. simpl.
  rewrite Ho, orb_true_r. done.
Qed.

(** ** Seeding never stops half way *)

Definition entry_key (e : UpsertDefaultInput) : string * string :=
  (e.(ud_tool), e.(ud_pattern)).

(** No row holds the identifier of an entry under another key. *)
Definition seed_compatible (es : list UpsertDefaultInput) (t : Table) : Prop :=
  ∀ row e, row ∈ t → e ∈ es → row.(row_id) = e.(ud_id) → row_key row = entry_key e.

(** The table has a row for the entry, with the entry's classification unless the
    user has made the row theirs. *)
Definition seeded (t : Table) (e : UpsertDefaultInput) : Prop :=
  ∃ row, row ∈ t ∧ row_key row = entry_key e ∧
    (touched row = false →
     row.(row_risk) = e.(ud_risk) ∧ row.(row_description) = e.(ud_description)).

Lemma entries_distinct (es : list UpsertDefaultInput) {B} (f : UpsertDefaultInput → B) e e' :
  NoDup (f <$> es) → e ∈ es → e' ∈ es → f e = f e' → e = e'.
Proof.
  intros Hnd (i & Hi)%list_elem_of_lookup_1 (j & Hj)%list_elem_of_lookup_1 Hf.
  assert (i = j) as <-; [|congruence].
  eapply NoDup_lookup; [done|by rewrite list_lookup_fmap, Hi|].
  by rewrite list_lookup_fmap, Hj, Hf.
Qed.

Lemma update_where_elem (p : Row → bool) (f : Row → Row) (t : Table) (row : Row) :
  row ∈ t → (if p row then f row else row) ∈ update_where p f t.
Proof. intros. by apply (list_elem_of_fmap_2 (λ row, if p row then f row else row)). Qed.

Lemma upsertDefault_seeds now es t e :
  NoDup (ud_id <$> es) → seed_compatible es t → e ∈ es →
  ∃ t', upsertDefault now e t = Some t' ∧ seed_compatible es t' ∧ seeded t' e.
Proof.
  intros Hids Hc He. unfold upsertDefault, upsert. cbn [row_tool row_pattern row_id].
  destruct (existsb (has_key _ _) t) eqn:Hk.
  - eexists. split; [done|]. split.
    + intros row e' Hrow He'. apply list_elem_of_fmap in Hrow as (row0 & -> & Hrow0).
      destruct (_ && _); apply (Hc row0 e' Hrow0 He').
    + apply existsb_true in Hk as (row & Hrow & Hkey).
      eexists. split; [by apply update_where_elem|]. rewrite Hkey. simpl.
      apply has_key_spec in Hkey.
      rewrite touched_pristine.
      destruct (pristine_default row) eqn:Hp; split; try done. by rewrite Hp.
  - destruct (existsb (has_id _) t) eqn:Hi.
    { exfalso. apply existsb_true in Hi as (row & Hrow & Hid%has_id_spec).
      rewrite existsb_false in Hk. specialize (Hk row Hrow).
      rewrite <- not_true_iff_false, has_key_spec in Hk. apply Hk.
      by apply (Hc row e). }
    eexists. split; [done|]. split.
    + intros row e' [Hrow|Hrow]%elem_of_app He' Hid; [by apply Hc|].
      apply list_elem_of_singleton in Hrow as ->. simpl in Hid.
      by rewrite (entries_distinct es ud_id e e').
    + eexists. split; [apply elem_of_app; right; by apply list_elem_of_singleton|]. done.
Qed.

Lemma upsertDefault_keeps_seeded now t t' e e' :
  entry_key e ≠ entry_key e' → upsertDefault now e t = Some t' →
  seeded t e' → seeded t' e'.
Proof.
  intros Hne Hu (row & Hrow & Hkey & Hm). exists row. split; [|done].
  unfold upsertDefault, upsert in Hu. cbn [row_tool row_pattern row_id] in Hu.
  destruct (existsb (has_key _ _) t).
  - injection Hu as <-. pose proof (update_where_elem (λ row,
      has_key (ud_tool e) (ud_pattern e) row && pristine_default row)
      (upsert_update now e) t row Hrow) as H. simpl in H.
    destruct (has_key _ _ row) eqn:Hk; [|done].
    apply has_key_spec in Hk. rewrite Hkey in Hk. by destruct Hne.
  - destruct (existsb _ t); [done|]. injection Hu as <-. apply elem_of_app. by left.
Qed.

Lemma seed_entries_total now es t :
  NoDup (ud_id <$> es) → NoDup (entry_key <$> es) → seed_compatible es t →
  ∃ t', seed_entries now es t = (t', true) ∧ ∀ e, e ∈ es → seeded t' e.
Proof.
  intros Hids Hkeys.
  assert (∀ post pre t, es = pre ++ post → seed_compatible es t →
    (∀ e, e ∈ pre → seeded t e) →
    ∃ t', seed_entries now post t = (t', true) ∧ ∀ e, e ∈ es → seeded t' e) as Hgen.
  { induction post as [|e post IH]; intros pre t0 Hes Hc Hpre; simpl.
    { rewrite app_nil_r in Hes. subst pre. by exists t0. }
    assert (e ∈ es) as He by (rewrite Hes; set_solver).
    destruct (upsertDefault_seeds now es t0 e Hids Hc He) as (t1 & Hu & Hc1 & Hs1).
    rewrite Hu. apply (IH (pre ++ [e])); [by rewrite <- app_assoc|done|].
    intros e' [He'|He'%list_elem_of_singleton]%elem_of_app; [|by subst].
    eapply upsertDefault_keeps_seeded; [|exact Hu|by apply Hpre].
    intros Heq. rewrite Hes, fmap_app in Hkeys. apply NoDup_app in Hkeys as (_ & Hd & _).
    apply (Hd (entry_key e')); [by apply list_elem_of_fmap_2|].
    rewrite <- Heq, fmap_cons. by left. }
  intros Hc. apply (Hgen es [] t); [done|done|]. intros e He. by apply elem_of_nil in He.
Qed.

(** The identifier of an entry is a function of its key, so distinct identifiers
    mean distinct keys. *)
Definition entry_well_named (e : UpsertDefaultInput) : Prop :=
  e.(ud_id) = makeId e.(ud_pattern).

Lemma collectEntries_named : ∀ spec pattern, Forall entry_well_named (collectEntries pattern spec).
Proof.
  fix IH 1. intros [b subs a1 a2 a3 a4 a5 a6 a7 a8] pattern. cbn [collectEntries].
  destruct subs as [subs|]; [|by repeat constructor]. constructor; [done|].
  induction subs as [|[sub subSpec] subs IHs]; [constructor|].
  apply Forall_app. split; [apply IH|exact IHs].
Qed.

Lemma registry_entries_named registry : Forall entry_well_named (registry_entries registry).
Proof.
  unfold registry_entries. induction registry as [|[c s] reg IH]; csimpl; [constructor|].
  apply Forall_app. split; [apply collectEntries_named|exact IH].
Qed.

Lemma registry_keys_distinct registry :
  NoDup (ud_id <$> registry_entries registry) →
  NoDup (entry_key <$> registry_entries registry).
Proof.
  pose proof (registry_entries_named registry) as Hn.
  assert (ud_id <$> registry_entries registry =
          (λ k, makeId k.2) <$> (entry_key <$> registry_entries registry)) as ->.
  { rewrite <- list_fmap_compose. apply list_fmap_ext. intros i e He.
    rewrite Forall_forall in Hn. by apply Hn, (list_elem_of_lookup_2 _ i). }
  apply NoDup_fmap_1.
Qed.

(** ** Concrete instances *)

Definition sample_input : CreateInput :=
  {| ci_tool := "bash"; ci_pattern := "action:git push"; ci_risk := "low";
     ci_description := "my pushes"; ci_scope := Some "/work/*" |}.

Lemma created_rule_found_witness :
  ∃ r t', create "now" "id-1" sample_input [] = Some (r, t') ∧
    findBaseRisk (refresh (listActive None t')) "bash" "action:git push" (Some "/work/app")
      = Some r.
Proof.
  eexists _, _. split; [vm_compute; reflexivity|].
  eapply (created_rule_found "now" "id-1" sample_input [] _ _ (Some "/work/app"));
    [split; constructor|vm_compute; reflexivity|vm_compute; reflexivity].
Defined.
