(* ===== verification/ToolRisk.v ===== *)
(** The classifiers of the web, schedule and skill tools
    ([gateway/src/risk/web-risk-classifier.ts], [schedule-risk-classifier.ts],
    [skill-risk-classifier.ts]) and the override by a user's rule they share
    ([user-rule-override.ts]).

    The runtime's URL parser is the argument [normalizeWebUrl]; rules are read
    through the interface [ToolRuleSource], whose absence is a cache that is not
    initialised yet. *)
From S2P Require Import Prelude JsString JsMap RiskTypes TrustRules.

(** ** The rule source *)

Class ToolRuleSource (S : Type) := {
  find_tool_override : S → string → string → option string → option TrustRule;
  find_tool_override_scoped s tool pattern cwd r :
    find_tool_override s tool pattern cwd = Some r → isScopeMatch r.(tr_scope) cwd = true }.

Lemma findToolOverride_some cache tool pattern cwd r :
  findToolOverride cache tool pattern cwd = Some r →
  isScopeMatch r.(tr_scope) cwd = true ∧
  ∃ toolMap, map_get tool cache = Some toolMap ∧
    (map_get pattern toolMap = Some r ∨ map_get (tool +:+ ":" +:+ pattern) toolMap = Some r).
Proof.
  unfold findToolOverride. destruct (map_get tool cache) as [tm|]; [|done].
  intros (pre & x & post & Heq & Hx & _)%first_some_Some.
  destruct x as [r'|]; [|done]. destruct (isScopeMatch (tr_scope r') cwd) eqn:Hs; [|done].
  injection Hx as ->. split; [done|]. exists tm. split; [done|].
  assert (Some r ∈ [map_get pattern tm; map_get (tool +:+ ":" +:+ pattern) tm]) as Hin.
  { rewrite Heq. apply elem_of_app. right. by left. }
  rewrite !elem_of_cons in Hin. destruct Hin as [<-|[<-|[]%elem_of_nil]]; auto.
Qed.

#[export] Program Instance TrustRuleCache_tool_source : ToolRuleSource TrustRuleCache :=
  {| find_tool_override := findToolOverride |}.
Next Obligation. by intros ????? [? _]%findToolOverride_some. Qed.

(** ** Assessments *)

Record ToolAssessment := {
  ta_risk : Risk; ta_reason : string; ta_matchType : MatchType;
  ta_allowlistOptions : option (list AllowlistOption) }.

Definition registry_assessment (risk : Risk) (why : string)
    (options : option (list AllowlistOption)) : ToolAssessment :=
  {| ta_risk := risk; ta_reason := why; ta_matchType := registry_match;
     ta_allowlistOptions := options |}.

Definition applyUserRuleOverride (assessment : ToolAssessment) (rule : TrustRule)
    : ToolAssessment :=
  {| ta_risk := rule.(tr_risk); ta_reason := rule.(tr_description);
     ta_matchType := user_rule;
     ta_allowlistOptions := assessment.(ta_allowlistOptions) |}.

Section Tools.
Context {Src : Type} {TS : ToolRuleSource Src}.
(** The rule cache; [None] when it is not initialised. *)
Context (source : option Src).

(** The lookup and the test that close every [classify]. *)
Definition user_override (tool pattern : string) (cwd : option string) : option TrustRule :=
  match source with
  | Some s =>
      match find_tool_override s tool pattern cwd with
      | Some r => if isUserRule (Some r) then Some r else None
      | None => None
      end
  | None => None
  end.

Definition with_override (o : option TrustRule) (assessment : ToolAssessment)
    : ToolAssessment :=
  match o with
  | Some r => applyUserRuleOverride assessment r
  | None => assessment
  end.

(** ** Web tools *)

Inductive WebTool := web_fetch | network_request | web_search.

Definition web_tool_string (t : WebTool) : string :=
  match t with
  | web_fetch => "web_fetch" | network_request => "network_request"
  | web_search => "web_search"
  end.

(** What the code reads off a normalised URL. *)
Record WebUrl := { href : string; url_origin : string; hostname : string }.

Context (normalizeWebUrl : string → option WebUrl).

Definition WEB_TOOL_DISPLAY_NAMES (t : WebTool) : string :=
  match t with
  | web_fetch => "URL fetches" | network_request => "network requests"
  | web_search => "web_search"
  end.

Definition friendlyHostname (url : WebUrl) : string :=
  if starts_with url.(hostname) "www." then slice_from 4 url.(hostname) else url.(hostname).

(** [options.filter(...)] on the patterns seen. *)
Fixpoint distinct_patterns (seen : list string) (options : list AllowlistOption)
    : list AllowlistOption :=
  match options with
  | [] => []
  | o :: rest =>
      if mem o.(al_pattern) seen then distinct_patterns seen rest
      else o :: distinct_patterns (o.(al_pattern) :: seen) rest
  end.

Definition buildWebAllowlistOptions (tool : WebTool) (rawUrl : string)
    : list AllowlistOption :=
  let toolName := web_tool_string tool in
  let trimmed := trim rawUrl in
  let normalized := normalizeWebUrl trimmed in
  let exact := match normalized with Some u => u.(href) | None => trimmed end in
  distinct_patterns [] (
    (if truthy exact then
       [{| al_label := exact; al_description := "This exact URL";
           al_pattern := toolName +:+ ":" +:+ exact |}] else [])
    ++ match normalized with
       | Some u =>
           [{| al_label := u.(url_origin) +:+ "/*";
               al_description := "Any page on " +:+ friendlyHostname u;
               al_pattern := toolName +:+ ":" +:+ u.(url_origin) +:+ "/*" |}]
       | None => []
       end
    ++ [{| al_label := toolName +:+ ":*";
           al_description := "All " +:+ WEB_TOOL_DISPLAY_NAMES tool; al_pattern := "**" |}]).

Definition web_base (tool : WebTool) (url : option string)
    (allowPrivateNetwork : option bool) : ToolAssessment :=
  let options := buildWebAllowlistOptions tool (default "" url) in
  match tool with
  | web_search => registry_assessment low "Web search (read-only)" None
  | web_fetch =>
      if bool_decide (allowPrivateNetwork = Some true)
      then registry_assessment high "Private network fetch" (Some options)
      else registry_assessment low "Web fetch (default)" (Some options)
  | network_request =>
      registry_assessment medium "Network request (proxied credentials)" (Some options)
  end.

Definition web_classify (tool : WebTool) (url : option string)
    (allowPrivateNetwork : option bool) : ToolAssessment :=
  with_override (user_override (web_tool_string tool) (default "" url) None)
    (web_base tool url allowPrivateNetwork).

(** ** Schedule tools *)

Inductive ScheduleTool := schedule_create | schedule_update.

Definition schedule_tool_string (t : ScheduleTool) : string :=
  match t with schedule_create => "schedule_create" | schedule_update => "schedule_update" end.

Definition SCRIPT_MODE_REASON : string :=
  "Schedule in script mode runs an arbitrary shell command on the host " +:+
  "without going through the bash permission classifier".

Definition involvesScriptMode (mode script : option string) : bool :=
  let hasScriptContent :=
    match script with Some s => (0 <? String.length (trim s))%nat | None => false end in
  bool_decide (mode = Some "script") || hasScriptContent.

Definition schedule_base (tool : ScheduleTool) (mode script : option string)
    : ToolAssessment :=
  if involvesScriptMode mode script then registry_assessment high SCRIPT_MODE_REASON None
  else registry_assessment medium
    (match tool with
     | schedule_create => "Schedule create (notify/execute)"
     | schedule_update => "Schedule update (notify/execute)" end) None.

(** [mode ?? script ?? ""] *)
Definition schedule_key (mode script : option string) : string :=
  match mode with Some m => m | None => default "" script end.

Definition schedule_classify (tool : ScheduleTool) (mode script : option string)
    : ToolAssessment :=
  with_override (user_override (schedule_tool_string tool) (schedule_key mode script) None)
    (schedule_base tool mode script).

(** ** Skill tools *)

Inductive SkillTool := skill_load | scaffold_managed_skill | delete_managed_skill.

Definition skill_tool_string (t : SkillTool) : string :=
  match t with
  | skill_load => "skill_load" | scaffold_managed_skill => "scaffold_managed_skill"
  | delete_managed_skill => "delete_managed_skill"
  end.

Record ResolvedSkillMetadata := {
  skillId : string; selector : string; versionHash : string;
  transitiveHash : option string; hasInlineExpansions : bool; isDynamic : bool }.

Definition option_entry (label description pattern : string) : AllowlistOption :=
  {| al_label := label; al_description := description; al_pattern := pattern |}.

Definition buildSkillLoadAllowlistOptions (rawSelector : option string)
    (metadata : option ResolvedSkillMetadata) : list AllowlistOption :=
  if negb (truthy (default "" rawSelector)) then
    [option_entry "skill_load:*" "All skill loads" "skill_load:*"]
  else
    let raw := default "" rawSelector in
    match metadata with
    | None => [option_entry raw "This skill" ("skill_load:" +:+ raw)]
    | Some md =>
        if md.(isDynamic) && md.(hasInlineExpansions) then
          match md.(transitiveHash) with
          | Some h =>
              if truthy h then
                [option_entry (md.(skillId) +:+ "@" +:+ h) "This exact version (pinned)"
                   ("skill_load_dynamic:" +:+ md.(skillId) +:+ "@" +:+ h)] else []
          | None => []
          end
          ++ [option_entry md.(skillId) "This skill (any version)"
                ("skill_load_dynamic:" +:+ md.(skillId))]
        else if truthy md.(versionHash) then
          [option_entry (md.(skillId) +:+ "@" +:+ md.(versionHash)) "This exact version"
             ("skill_load:" +:+ md.(skillId) +:+ "@" +:+ md.(versionHash))]
        else [option_entry raw "This skill" ("skill_load:" +:+ raw)]
    end.

Definition buildManagedSkillAllowlistOptions (tool : SkillTool) (skillId : option string)
    : list AllowlistOption :=
  let toolName := skill_tool_string tool in
  let toolLabel := match tool with scaffold_managed_skill => "scaffold" | _ => "delete" end in
  (if truthy (default "" skillId) then
     [option_entry (default "" skillId) "This skill only"
        (toolName +:+ ":" +:+ default "" skillId)] else [])
  ++ [option_entry (toolName +:+ ":*") ("All managed skill " +:+ toolLabel +:+ "s")
        (toolName +:+ ":*")].

Definition skill_base (tool : SkillTool) (skillSelector : option string)
    (metadata : option ResolvedSkillMetadata) : ToolAssessment :=
  match tool with
  | skill_load =>
      let options := Some (buildSkillLoadAllowlistOptions skillSelector metadata) in
      if match metadata with Some md => md.(hasInlineExpansions) | None => false end
      then registry_assessment high
        ("Skill load with inline command expansions " +:+
         "(executes shell commands at load time)") options
      else registry_assessment low "Skill load (default)" options
  | scaffold_managed_skill =>
      registry_assessment high "Skill scaffold — writes persistent skill source code"
        (Some (buildManagedSkillAllowlistOptions tool skillSelector))
  | delete_managed_skill =>
      registry_assessment high "Skill delete — removes persistent skill source code"
        (Some (buildManagedSkillAllowlistOptions tool skillSelector))
  end.

Definition is_dynamic (metadata : option ResolvedSkillMetadata) : bool :=
  match metadata with
  | Some md => md.(isDynamic) && md.(hasInlineExpansions)
  | None => false
  end.

(** The version-pinned key, then the bare one. *)
Definition skill_candidates (skillSelector : option string)
    (metadata : option ResolvedSkillMetadata) : list string :=
  let id := match metadata with Some md => md.(skillId) | None => default "" skillSelector end in
  let pinnedHash :=
    match metadata with
    | Some md =>
        if is_dynamic metadata then default "" md.(transitiveHash) else md.(versionHash)
    | None => ""
    end in
  if truthy pinnedHash then [id +:+ "@" +:+ pinnedHash; id] else [id].

Definition skill_override_tool (tool : SkillTool) (metadata : option ResolvedSkillMetadata)
    : string :=
  if is_dynamic metadata then "skill_load_dynamic" else skill_tool_string tool.

Definition skill_override (tool : SkillTool) (skillSelector : option string)
    (metadata : option ResolvedSkillMetadata) : option TrustRule :=
  first_some (λ candidate,
    if truthy candidate
    then user_override (skill_override_tool tool metadata) candidate None else None)
    (skill_candidates skillSelector metadata).

Definition skill_classify (tool : SkillTool) (skillSelector : option string)
    (metadata : option ResolvedSkillMetadata) : ToolAssessment :=
  with_override (skill_override tool skillSelector metadata)
    (skill_base tool skillSelector metadata).
End Tools.

(** ** Rules saved from the prompt *)

(** The whole-string lookup answers a rule stored under the prefixed pattern when
    nothing is stored under the bare one. *)
Lemma findToolOverride_prefixed (cache : TrustRuleCache) (toolMap : ToolMap) tool pattern cwd r :
  map_get tool cache = Some toolMap → map_get pattern toolMap = None →
  map_get (tool +:+ ":" +:+ pattern) toolMap = Some r → isScopeMatch r.(tr_scope) cwd = true →
  findToolOverride cache tool pattern cwd = Some r.
Proof. intros Htm Hb Hr Hs. unfold findToolOverride. rewrite Htm, Hb, Hr. simpl. by rewrite Hs. Qed.

Lemma user_override_prefixed (cache : TrustRuleCache) (toolMap : ToolMap) tool pattern cwd r :
  map_get tool cache = Some toolMap → map_get pattern toolMap = None →
  map_get (tool +:+ ":" +:+ pattern) toolMap = Some r → isScopeMatch r.(tr_scope) cwd = true →
  isUserRule (Some r) = true →
  user_override (Some cache) tool pattern cwd = Some r.
Proof.
  intros Htm Hb Hr Hs Hu. unfold user_override.
  change (find_tool_override cache tool pattern cwd) with (findToolOverride cache tool pattern cwd).
  by rewrite (findToolOverride_prefixed cache toolMap tool pattern cwd r), Hu.
Qed.

Lemma user_override_no_map (cache : TrustRuleCache) tool pattern cwd :
  map_get tool cache = None → user_override (Some cache) tool pattern cwd = None.
Proof.
  intros H. unfold user_override.
  change (find_tool_override cache tool pattern cwd) with (findToolOverride cache tool pattern cwd).
  unfold findToolOverride. by rewrite H.
Qed.

(** The text a rule for this load is looked up under. *)
Definition load_key (sel : string) (metadata : option ResolvedSkillMetadata) : string :=
  match metadata with
  | Some md => if truthy md.(versionHash) then md.(skillId) +:+ "@" +:+ md.(versionHash)
               else md.(skillId)
  | None => sel
  end.

(** The version pinned by an option for a static skill is the version the lookup
    asks for: a rule saved from the prompt decides every later load of that
    version, and keeps the offered options. A skill without a version hash must
    have been named by its identifier. *)
Theorem offered_skill_rule_applies (cache : TrustRuleCache) (toolMap : ToolMap) (sel : string)
    (metadata : option ResolvedSkillMetadata) (o : AllowlistOption) (r : TrustRule) :
  truthy sel = true → is_dynamic metadata = false →
  (∀ md, metadata = Some md →
    md.(skillId) ≠ "" ∧ (truthy md.(versionHash) = false → md.(skillId) = sel)) →
  o ∈ buildSkillLoadAllowlistOptions (Some sel) metadata →
  map_get "skill_load" cache = Some toolMap → map_get o.(al_pattern) toolMap = Some r →
  map_get (load_key sel metadata) toolMap = None →
  isUserRule (Some r) = true → r.(tr_scope) = None →
  skill_classify (Some cache) skill_load (Some sel) metadata =
    applyUserRuleOverride (skill_base skill_load (Some sel) metadata) r.
Proof.
  intros Hsel Hdyn Hmd Ho Htm Hr Hbare Hu Hscope.
  assert (o.(al_pattern) = "skill_load:" +:+ load_key sel metadata ∧
    ∃ rest, skill_candidates (Some sel) metadata = load_key sel metadata :: rest ∧
      truthy (load_key sel metadata) = true) as (Hp & rest & Hc & Hk).
  { unfold buildSkillLoadAllowlistOptions, skill_candidates, load_key in *.
    cbn [from_option id] in *. rewrite Hsel in Ho. rewrite Hdyn. cbn [negb] in Ho.
    destruct metadata as [md|].
    - cbn [is_dynamic] in Hdyn. rewrite Hdyn in Ho. destruct (Hmd md eq_refl) as [Hid Hraw].
      assert (truthy (skillId md) = true) by (by destruct (skillId md)).
      destruct (truthy (versionHash md)); apply elem_of_cons in Ho as [->|[]%elem_of_nil].
      + split; [done|]. eexists. split; [done|]. by destruct (skillId md).
      + rewrite <- (Hraw eq_refl). split; [done|]. by eexists.
    - apply elem_of_cons in Ho as [->|[]%elem_of_nil]. split; [done|]. by eexists. }
  rewrite Hp in Hr. unfold skill_classify, skill_override, skill_override_tool.
  rewrite Hdyn, Hc. cbn [first_some]. rewrite Hk.
  rewrite (user_override_prefixed cache toolMap (skill_tool_string skill_load) _ None r);
    try done. by rewrite Hscope.
Qed.

(** Rules are saved under the name of the tool that was called; those saved from
    the prompt for a skill with inline commands are never looked at, because
    they are looked up under another name. *)
Theorem dynamic_rung_ignored (cache : TrustRuleCache) (sel : option string)
    (metadata : option ResolvedSkillMetadata) :
  is_dynamic metadata = true → map_get "skill_load_dynamic" cache = None →
  skill_classify (Some cache) skill_load sel metadata = skill_base skill_load sel metadata.
Proof.
  intros Hdyn Hno. unfold skill_classify, skill_override, skill_override_tool. rewrite Hdyn.
  assert (first_some (λ candidate, if truthy candidate
    then user_override (Some cache) "skill_load_dynamic" candidate None else None)
    (skill_candidates sel metadata) = None) as ->; [|done].
  apply first_some_None, Forall_forall. intros c _.
  destruct (truthy c); [by apply user_override_no_map|done].
Qed.

(** ** Concrete instances *)

Definition sample_skill (dynamic : bool) : ResolvedSkillMetadata :=
  {| skillId := "notes"; selector := "notes"; versionHash := "v1:ab"; transitiveHash := Some "tv1:cd";
     hasInlineExpansions := dynamic; isDynamic := dynamic |}.

Definition skill_rule : TrustRule :=
  {| tr_id := "r1"; tr_tool := "skill_load"; tr_pattern := "skill_load:notes@v1:ab";
     tr_risk := medium; tr_description := "my skill"; tr_origin := user_defined;
     tr_userModified := false; tr_deleted := false; tr_scope := None; tr_createdAt := "";
     tr_updatedAt := "" |}.

Lemma offered_skill_rule_applies_witness :
  let cache := refresh [skill_rule] in
  (skill_classify (Some cache) skill_load (Some "notes") (Some (sample_skill false))).(ta_risk)
  = medium.
Proof.
  cbv zeta.
  rewrite (offered_skill_rule_applies (refresh [skill_rule])
    [("skill_load:notes@v1:ab", skill_rule)] "notes" (Some (sample_skill false))
    {| al_label := "notes@v1:ab"; al_description := "This exact version";
       al_pattern := "skill_load:notes@v1:ab" |} skill_rule); try reflexivity.
  - intros md [= <-]. split; [discriminate|]. intros H. discriminate H.
  - by left.
Defined.
