(* ===== verification/BashArgs.v ===== *)
(** Argument-level helpers of the bash risk classifier
    ([gateway/src/risk/bash-risk-classifier.ts]): risk escalation, argument
    rules, wrapper unwrapping, help detection, subcommand resolution.

    Regular expressions are opaque strings: [re_test p s] stands for
    [new RegExp(p).test(s)], and every statement holds for all of them. *)
From S2P Require Import Prelude JsString JsMap RiskTypes ArgParser.

Definition escalateOne (risk : option Risk) : option Risk :=
  match risk with
  | Some low => Some medium
  | Some medium => Some high
  | Some high => Some high
  | Some unknown => Some unknown
  | None => None
  end.

(** ** Property lookup on plain objects

    [obj[key]] also finds what [Object.prototype] provides. A command
    specification read that way has none of the specification's properties. *)
Definition proto_names : list string :=
  ["constructor"; "__defineGetter__"; "__defineSetter__"; "hasOwnProperty";
   "__lookupGetter__"; "__lookupSetter__"; "isPrototypeOf"; "propertyIsEnumerable";
   "toString"; "valueOf"; "__proto__"; "toLocaleString"].

Definition proto_spec : CommandRiskSpec :=
  Spec None None None None None None None None None None.

Definition obj_get (key : string) (obj : list (string * CommandRiskSpec))
    : option CommandRiskSpec :=
  match map_get key obj with
  | Some s => Some s
  | None => if mem key proto_names then Some proto_spec else None
  end.

(** ** Argument rules *)

(** The rule's flags ([] when absent) and its pattern when it is truthy. *)
Definition flags_of (rule : ArgRule) : list string := default [] rule.(rule_flags).
Definition pattern_of (rule : ArgRule) : option string :=
  match rule.(valuePattern) with
  | Some p => if truthy p then Some p else None
  | None => None
  end.

Section ArgRules.
Context (re_test : string → string → bool).

Definition matchesArgRule (rule : ArgRule) (arg : string) : bool :=
  match flags_of rule with
  | [] => match pattern_of rule with Some p => re_test p arg | None => true end
  | _ :: _ =>
      let inline :=
        match index_of_char "=" arg with
        | Some (S n) =>
            let flagPart := slice_to (S n) arg in
            let valuePart := slice_from (S (S n)) arg in
            if mem flagPart (flags_of rule) then
              Some (match pattern_of rule with
                    | Some p => re_test p valuePart | None => true end)
            else None
        | _ => None
        end in
      match inline with
      | Some b => b
      | None =>
          if negb (mem arg (flags_of rule)) then false
          else match pattern_of rule with Some _ => false | None => true end
      end
  end.
End ArgRules.

(** ** Wrappers *)

Definition WRAPPER_SKIP_FIRST_POSITIONAL : list string := ["timeout"; "taskset"].
Definition ENV_VALUE_FLAGS : list string := ["-u"; "--unset"; "-C"; "--chdir"].
Definition TIMEOUT_VALUE_FLAGS : list string := ["-s"; "--signal"; "-k"; "--kill-after"].

Fixpoint unwrap_loop (isEnv isTimeout skipFirst skipped : bool) (args : list string)
    : option (string * list string) :=
  match args with
  | [] => None
  | arg :: rest =>
      if starts_with arg "-" then
        if (isEnv && mem arg ENV_VALUE_FLAGS) || (isTimeout && mem arg TIMEOUT_VALUE_FLAGS)
        then match rest with
             | [] => None
             | _ :: rest' => unwrap_loop isEnv isTimeout skipFirst skipped rest'
             end
        else unwrap_loop isEnv isTimeout skipFirst skipped rest
      else if isEnv && includes_char arg "=" then
        unwrap_loop isEnv isTimeout skipFirst skipped rest
      else if skipFirst && negb skipped then
        unwrap_loop isEnv isTimeout skipFirst true rest
      else Some (arg, rest)
  end.

Definition getWrappedProgramWithArgs (program : string) (args : list string)
    : option (string * list string) :=
  unwrap_loop (String.eqb program "env") (String.eqb program "timeout")
    (mem program WRAPPER_SKIP_FIRST_POSITIONAL) false args.

(** ** Positionals and help *)

Definition firstPositionalArg (args : list string) (valueFlags : option (list string))
    : option string :=
  head (parseArgs args
    {| valueFlags := valueFlags; positionalsDef := Some PosNone; pathFlags := None;
       respectsDoubleDash := None |}).(positionals).

Definition last_char (s : string) : option ascii :=
  match String.length s with O => None | S n => String.get n s end.

(** [-xf] where [-f] is a value flag. *)
Definition bundle_value_flag (valueFlags : list string) (arg : string) : bool :=
  starts_with arg "-" && negb (starts_with arg "--") && (2 <? String.length arg)%nat
  && match last_char arg with
     | Some c => mem (String "-" (String c EmptyString)) valueFlags
     | None => false
     end.

Definition inline_value_flag (valueFlags : list string) (arg : string) : bool :=
  starts_with arg "-"
  && match index_of_char "=" arg with
     | Some n => mem (slice_to n arg) valueFlags
     | None => false
     end.

Fixpoint help_loop (valueFlags : list string) (args : list string) : bool :=
  match args with
  | [] => false
  | arg :: rest =>
      if String.eqb arg "--" then false
      else if mem arg valueFlags || bundle_value_flag valueFlags arg then
        match rest with [] => false | _ :: rest' => help_loop valueFlags rest' end
      else if inline_value_flag valueFlags arg then help_loop valueFlags rest
      else if String.eqb arg "--help" || starts_with arg "--help=" then true
      else help_loop valueFlags rest
  end.

Definition hasStandaloneHelpFlag (args : list string) (schema : option ArgSchema) : bool :=
  match schema with
  | None => false
  | Some schema => help_loop (default [] schema.(valueFlags)) args
  end.

(** ** Subcommands *)

Fixpoint index_of (x : string) (xs : list string) : nat :=
  match xs with
  | [] => O
  | y :: ys => if String.eqb x y then O else S (index_of x ys)
  end.

(** One level of the subcommand tree: the name, its specification and the
    arguments after the first occurrence of the name. *)
Definition subcommand_step (spec : CommandRiskSpec) (args : list string)
    : option (string * CommandRiskSpec * list string) :=
  match spec.(subcommands), args with
  | None, _ | _, [] => None
  | Some subs, _ =>
      match firstPositionalArg args (spec.(argSchema) ≫= valueFlags) with
      | None => None
      | Some name =>
          if negb (truthy name) then None
          else match obj_get name subs with
          | None => None
          | Some subSpec => Some (name, subSpec, drop (S (index_of name args)) args)
          end
      end
  end.

(** Each level consumes an argument: [length args] levels are enough. *)
Fixpoint resolve_fuel (fuel : nat) (spec : CommandRiskSpec) (args : list string)
    : CommandRiskSpec * list string :=
  match fuel with
  | O => (spec, args)
  | S fuel =>
      match subcommand_step spec args with
      | None => (spec, args)
      | Some (_, subSpec, remainingArgs) => resolve_fuel fuel subSpec remainingArgs
      end
  end.

Definition resolveSubcommand (spec : CommandRiskSpec) (args : list string)
    : CommandRiskSpec * list string :=
  resolve_fuel (length args) spec args.

Fixpoint chain_fuel (fuel : nat) (spec : CommandRiskSpec) (args : list string)
    : list string :=
  match fuel with
  | O => []
  | S fuel =>
      match subcommand_step spec args with
      | None => []
      | Some (name, subSpec, remainingArgs) => name :: chain_fuel fuel subSpec remainingArgs
      end
  end.

(** The names traversed, as collected for the cache lookup. *)
Definition subcommandChain (spec : CommandRiskSpec) (args : list string) : list string :=
  chain_fuel (length args) spec args.
