(* ===== verification/MessageQueue.v ===== *)
(** The backlog of user messages a conversation holds while an agent loop runs
    ([assistant/src/daemon/conversation-queue-manager.ts]), with the types of
    the messages ([daemon/trust-context-types.ts], [channels/types.ts],
    [daemon/message-types]). The class keeps an array and a running byte
    count; the abstract queue at the end keeps a list alone. *)
From S2P Require Import Prelude JsString JsMap BashArgs.

(** ** Messages *)

(** [UserMessageAttachment], the fields the queue reads *)
Record Attachment := {
  data : string;
  extractedText : option string
}.

(** [ConversationTransportMetadata]: a plain object, its properties in the order
    they were assigned; [TvUndefined] is a property set to [undefined]. *)
Inductive TransportValue :=
  | TvStr (s : string)
  | TvStrs (xs : list string)
  | TvUndefined.

Definition TransportMetadata := list (string * TransportValue).

Definition transport_string (key : string) (t : TransportMetadata) : option string :=
  match map_get key t with Some (TvStr s) => Some s | _ => None end.

Inductive TrustClass := guardian | trusted_contact | unverified_contact | unknown_actor.

#[export] Instance TrustClass_eq_dec : EqDecision TrustClass.
Proof. solve_decision. Defined.

(** [TrustContext]: the fields that identify the actor by name, the others (display
    names, time zone, message ids, membership) together. *)
Record TrustContext := {
  sourceChannel : string;
  trustClass : TrustClass;
  guardianExternalUserId : option string;
  guardianPrincipalId : option string;
  requesterIdentifier : option string;
  requesterExternalUserId : option string;
  requesterChatId : option string;
  requesterContactId : option string;
  trust_details : list (string * JsValue)
}.

(** [sameTrustIdentity(a, b)]; the shortcut for one and the same object answers
    what the comparison of its fields does. *)
Definition sameTrustIdentity (a b : option TrustContext) : bool :=
  match a, b with
  | None, None => true
  | Some a, Some b =>
      bool_decide (a.(trustClass) = b.(trustClass))
      && bool_decide (a.(sourceChannel) = b.(sourceChannel))
      && bool_decide (a.(requesterExternalUserId) = b.(requesterExternalUserId))
      && bool_decide (a.(requesterChatId) = b.(requesterChatId))
      && bool_decide (a.(requesterIdentifier) = b.(requesterIdentifier))
      && bool_decide (a.(requesterContactId) = b.(requesterContactId))
      && bool_decide (a.(guardianExternalUserId) = b.(guardianExternalUserId))
      && bool_decide (a.(guardianPrincipalId) = b.(guardianPrincipalId))
  | _, _ => false
  end.

(** What [parseInterfaceId] answers. Its table of legacy names is a plain object,
    so a name of [Object.prototype] is answered with that property. *)
Inductive InterfaceId :=
  | Interface (name : string)
  | PrototypeMember (name : string).

#[export] Instance InterfaceId_eq_dec : EqDecision InterfaceId.
Proof. solve_decision. Defined.

Definition INTERFACE_IDS : list string :=
  ["macos"; "windows"; "linux"; "ios"; "cli"; "telegram"; "phone"; "web"; "whatsapp";
   "slack"; "email"; "chrome-extension"; "a2a"; "discord"; "route"; "plugin"].

Definition LEGACY_INTERFACE_ALIASES : list (string * string) := [("vellum", "web")].

Definition parseInterfaceId (value : option JsValue) : option InterfaceId :=
  match value with
  | Some (JsStr value) =>
      if mem value INTERFACE_IDS then Some (Interface value)
      else match map_get value LEGACY_INTERFACE_ALIASES with
           | Some alias => Some (Interface alias)
           | None => if mem value proto_names then Some (PrototypeMember value) else None
           end
  | _ => None
  end.

Record TurnInterfaceContext := {
  userMessageInterface : InterfaceId;
  assistantMessageInterface : InterfaceId
}.

Record TurnChannelContext := {
  userMessageChannel : string;
  assistantMessageChannel : string
}.

(** [AuthContext]: the principal by name, the rest together. *)
Record AuthContext := {
  actorPrincipalId : option string;
  auth_details : list (string * JsValue)
}.

(** [Record<string, unknown>] *)
Definition Metadata := list (string * JsValue).

Record QueuedMessage := {
  content : string;
  attachments : list Attachment;
  requestId : string;
  onEvent : option string; (* the sink of the sender's events; [None] is a no-op *)
  activeSurfaceId : option string;
  currentPage : option string;
  metadata : option Metadata;
  turnChannelContext : option TurnChannelContext;
  turnInterfaceContext : option TurnInterfaceContext;
  isInteractive : option bool;
  sourceActorPrincipalId : option string;
  authContext : option AuthContext;
  trustContext : option TrustContext;
  transport : option TransportMetadata;
  displayContent : option string;
  cronRunId : option string; (* [null] and [undefined] are treated alike *)
  sentAt : Z;
  clientMessageId : option string;
  dequeueAnnounced : bool
}.

(** ** The size of a message *)

Definition hex_digit (n : nat) : ascii :=
  match String.get n "0123456789abcdef" with Some c => c | None => "0"%char end.

(** A character inside [JSON.stringify]'s quotes. *)
Definition json_char (c : ascii) : string :=
  match nat_of_ascii c with
  | 8 => "\b"
  | 9 => "\t"
  | 10 => "\n"
  | 12 => "\f"
  | 13 => "\r"
  | 34 => String "\" (String (ascii_of_nat 34) EmptyString)
  | 92 => "\\"
  | n => if (n <? 32)%nat
         then "\u00" +:+ String (hex_digit (n / 16)) (String (hex_digit (n mod 16)) EmptyString)
         else String c EmptyString
  end.

Fixpoint json_chars (s : string) : string :=
  match s with EmptyString => EmptyString | String c s => json_char c +:+ json_chars s end.

Definition json_string (s : string) : string :=
  let quote := String (ascii_of_nat 34) EmptyString in quote +:+ json_chars s +:+ quote.

(** [JSON.stringify(transport)]; a property that is [undefined] is left out. *)
Definition json_property (p : string * TransportValue) : option string :=
  match p.2 with
  | TvStr s => Some (json_string p.1 +:+ ":" +:+ json_string s)
  | TvStrs xs => Some (json_string p.1 +:+ ":[" +:+ join "," (json_string <$> xs) +:+ "]")
  | TvUndefined => None
  end.

Definition JSON_stringify (t : TransportMetadata) : string :=
  "{" +:+ join "," (omap json_property t) +:+ "}".

Definition utf16_bytes (s : string) : Z := Z.of_nat (String.length s) * 2.

Definition attachment_bytes (a : Attachment) : Z :=
  utf16_bytes a.(data) + match a.(extractedText) with Some t => utf16_bytes t | None => 0 end.

Definition estimateItemBytes (item : QueuedMessage) : Z :=
  foldl (λ bytes a, bytes + attachment_bytes a)%Z (utf16_bytes item.(content)) item.(attachments)
  + match item.(transport) with Some t => utf16_bytes (JSON_stringify t) | None => 0 end
  + match item.(sourceActorPrincipalId) with Some p => utf16_bytes p | None => 0 end
  + 512.

(** ** The class *)

Record MessageQueue := {
  items : list QueuedMessage;
  currentBytes : Z;
  maxBytes : Z
}.

Definition DEFAULT_MAX_QUEUE_BYTES : Z := 50 * 1024 * 1024.

Definition new_queue (maxBytes : Z) : MessageQueue :=
  {| items := []; currentBytes := 0; maxBytes := maxBytes |}.

Definition set_items (its : list QueuedMessage) (bytes : Z) (q : MessageQueue) : MessageQueue :=
  {| items := its; currentBytes := bytes; maxBytes := q.(maxBytes) |}.

Definition push (item : QueuedMessage) (q : MessageQueue) : MessageQueue * bool :=
  let itemBytes := estimateItemBytes item in
  if (q.(maxBytes) <? q.(currentBytes) + itemBytes)%Z && (0 <? length q.(items))%nat
  then (q, false)
  else (set_items (q.(items) ++ [item]) (q.(currentBytes) + itemBytes) q, true).

Definition shift (q : MessageQueue) : MessageQueue * option QueuedMessage :=
  match q.(items) with
  | [] => (q, None)
  | item :: rest => (set_items rest (q.(currentBytes) - estimateItemBytes item) q, Some item)
  end.

Definition unshift (item : QueuedMessage) (q : MessageQueue) : MessageQueue :=
  set_items (item :: q.(items)) (q.(currentBytes) + estimateItemBytes item) q.

(** [items[index]]: nothing out of range, negative indices included. *)
Definition peek (index : Z) (q : MessageQueue) : option QueuedMessage :=
  if (index <? 0)%Z then None else q.(items) !! Z.to_nat index.

Definition snapshot (q : MessageQueue) : list QueuedMessage := q.(items).

Definition shiftN (count : Z) (q : MessageQueue) : MessageQueue * list QueuedMessage :=
  let n := Z.min (Z.max 0 count) (Z.of_nat (length q.(items))) in
  if (n =? 0)%Z then (q, [])
  else
    let removed := take (Z.to_nat n) q.(items) in
    (set_items (drop (Z.to_nat n) q.(items))
       (foldl (λ bytes item, bytes - estimateItemBytes item)%Z q.(currentBytes) removed) q,
     removed).

Definition clear_queue (q : MessageQueue) : MessageQueue := set_items [] 0 q.

Definition queue_length (q : MessageQueue) : nat := length q.(items).
Definition isEmpty (q : MessageQueue) : bool := (length q.(items) =? 0)%nat.
Definition totalBytes (q : MessageQueue) : Z := q.(currentBytes).

Definition has_request (id : string) (m : QueuedMessage) : bool :=
  String.eqb m.(requestId) id.

(** [items.splice(idx, 1)]: what is left *)
Definition splice_one (idx : nat) (its : list QueuedMessage) : list QueuedMessage :=
  take idx its ++ drop (S idx) its.

Definition promoteToHead (id : string) (q : MessageQueue) : MessageQueue * option QueuedMessage :=
  match first_index (has_request id) q.(items) with
  | None => (q, None)
  | Some 0 => (q, q.(items) !! 0)
  | Some idx =>
      match q.(items) !! idx with
      | Some promoted =>
          (set_items (promoted :: splice_one idx q.(items)) q.(currentBytes) q, Some promoted)
      | None => (q, None)
      end
  end.

Definition findByRequestId (id : string) (q : MessageQueue) : option QueuedMessage :=
  find_first (has_request id) q.(items).

Definition removeByRequestId (id : string) (q : MessageQueue) : MessageQueue * option QueuedMessage :=
  match first_index (has_request id) q.(items) with
  | None => (q, None)
  | Some idx =>
      match q.(items) !! idx with
      | Some removed =>
          (set_items (splice_one idx q.(items)) (q.(currentBytes) - estimateItemBytes removed) q,
           Some removed)
      | None => (q, None)
      end
  end.

(** One call of the class and what it answers. *)
Inductive QueueCall :=
  | Push (item : QueuedMessage)
  | Shift
  | Unshift (item : QueuedMessage)
  | Peek (index : Z)
  | Snapshot
  | ShiftN (count : Z)
  | Clear
  | Length
  | IsEmpty
  | TotalBytes
  | PromoteToHead (id : string)
  | FindByRequestId (id : string)
  | RemoveByRequestId (id : string).

Inductive QueueAnswer :=
  | Nothing
  | Answer (b : bool)
  | Size (n : Z)
  | AnswerMessage (m : option QueuedMessage)
  | AnswerMessages (ms : list QueuedMessage).

Definition queue_step (c : QueueCall) (q : MessageQueue) : MessageQueue * QueueAnswer :=
  match c with
  | Push item => let '(q, b) := push item q in (q, Answer b)
  | Shift => let '(q, m) := shift q in (q, AnswerMessage m)
  | Unshift item => (unshift item q, Nothing)
  | Peek index => (q, AnswerMessage (peek index q))
  | Snapshot => (q, AnswerMessages (snapshot q))
  | ShiftN count => let '(q, ms) := shiftN count q in (q, AnswerMessages ms)
  | Clear => (clear_queue q, Nothing)
  | Length => (q, Size (Z.of_nat (queue_length q)))
  | IsEmpty => (q, Answer (isEmpty q))
  | TotalBytes => (q, Size (totalBytes q))
  | PromoteToHead id => let '(q, m) := promoteToHead id q in (q, AnswerMessage m)
  | FindByRequestId id => (q, AnswerMessage (findByRequestId id q))
  | RemoveByRequestId id => let '(q, m) := removeByRequestId id q in (q, AnswerMessage m)
  end.

Fixpoint run_calls {St : Type} (step : QueueCall → St → St * QueueAnswer)
    (cs : list QueueCall) (st : St) : St * list QueueAnswer :=
  match cs with
  | [] => (st, [])
  | c :: cs =>
      let '(st, a) := step c st in
      let '(st, answers) := run_calls step cs st in (st, a :: answers)
  end.

(** ** The abstract queue

    A list of messages. Its size is the sum of the sizes of what it holds, and a
    message is taken out of the middle by its id. *)
Definition bytes_of (ms : list QueuedMessage) : Z :=
  foldr (λ m total, estimateItemBytes m + total)%Z 0%Z ms.

(** The first message with the id and the rest of the list. *)
Fixpoint extract (id : string) (ms : list QueuedMessage) : option (QueuedMessage * list QueuedMessage) :=
  match ms with
  | [] => None
  | m :: ms =>
      if decide (m.(requestId) = id) then Some (m, ms)
      else match extract id ms with Some (x, rest) => Some (x, m :: rest) | None => None end
  end.

Definition abstract_step (budget : Z) (c : QueueCall) (ms : list QueuedMessage)
    : list QueuedMessage * QueueAnswer :=
  match c with
  | Push item =>
      if decide (ms = [] ∨ bytes_of (ms ++ [item]) ≤ budget)%Z
      then (ms ++ [item], Answer true) else (ms, Answer false)
  | Shift => (tail ms, AnswerMessage (head ms))
  | Unshift item => (item :: ms, Nothing)
  | Peek index => (ms, AnswerMessage (if decide (0 ≤ index)%Z then ms !! Z.to_nat index else None))
  | Snapshot => (ms, AnswerMessages ms)
  | ShiftN count => (drop (Z.to_nat count) ms, AnswerMessages (take (Z.to_nat count) ms))
  | Clear => ([], Nothing)
  | Length => (ms, Size (Z.of_nat (length ms)))
  | IsEmpty => (ms, Answer (bool_decide (ms = [])))
  | TotalBytes => (ms, Size (bytes_of ms))
  | PromoteToHead id =>
      match extract id ms with
      | Some (m, rest) => (m :: rest, AnswerMessage (Some m))
      | None => (ms, AnswerMessage None)
      end
  | FindByRequestId id => (ms, AnswerMessage (fst <$> extract id ms))
  | RemoveByRequestId id =>
      match extract id ms with
      | Some (m, rest) => (rest, AnswerMessage (Some m))
      | None => (ms, AnswerMessage None)
      end
  end.

(** ** Refinement *)

Lemma estimate_nonneg m : (0 <= estimateItemBytes m)%Z.
Proof.
  unfold estimateItemBytes.
  assert (Hfold : ∀ ats z, (0 <= z)%Z →
    (0 <= foldl (λ bytes a, bytes + attachment_bytes a)%Z z ats)%Z).
  { induction ats as [|a ats IH]; intros z Hz; [done|]. apply IH.
    unfold attachment_bytes, utf16_bytes. destruct (extractedText a); lia. }
  specialize (Hfold m.(attachments) (utf16_bytes m.(content)) ltac:(unfold utf16_bytes; lia)).
  unfold utf16_bytes in *. destruct (transport m), (sourceActorPrincipalId m); lia.
Qed.

Lemma bytes_app ms ms' : bytes_of (ms ++ ms') = (bytes_of ms + bytes_of ms')%Z.
Proof. induction ms as [|m ms IH]; [done|]. simpl. rewrite IH. lia. Qed.

Lemma bytes_nonneg ms : (0 <= bytes_of ms)%Z.
Proof. induction ms as [|m ms IH]; simpl; [lia|]. pose proof (estimate_nonneg m). lia. Qed.

(** [shiftN] pays the removed messages back one by one. *)
Lemma foldl_bytes ms z :
  foldl (λ bytes item, bytes - estimateItemBytes item)%Z z ms = (z - bytes_of ms)%Z.
Proof. revert z. induction ms as [|m ms IH]; intros z; simpl; [|rewrite IH]; lia. Qed.

Lemma has_request_true id m : has_request id m = true ↔ requestId m = id.
Proof. apply String.eqb_eq. Qed.

Lemma has_request_decide id m : has_request id m = bool_decide (requestId m = id).
Proof.
  unfold has_request. case_bool_decide as H; [by apply String.eqb_eq | by apply String.eqb_neq].
Qed.

(** Searching by index and cutting there is [extract]. *)
Lemma extract_index id ms :
  extract id ms
  = match first_index (has_request id) ms with
    | Some i => match ms !! i with Some m => Some (m, splice_one i ms) | None => None end
    | None => None
    end.
Proof.
  induction ms as [|m ms IH]; [done|]. simpl. rewrite has_request_decide.
  case_bool_decide as H; [by rewrite decide_True|]. rewrite decide_False, IH by done.
  destruct (first_index _ ms) as [i|]; [|done]. simpl. by destruct (ms !! i).
Qed.

Lemma extract_find id ms : fst <$> extract id ms = find_first (has_request id) ms.
Proof.
  induction ms as [|m ms IH]; [done|]. simpl. rewrite has_request_decide.
  case_bool_decide as H; [by rewrite decide_True|]. rewrite decide_False, <- IH by done.
  by destruct (extract id ms) as [[? ?]|].
Qed.

Lemma extract_bytes id ms m rest :
  extract id ms = Some (m, rest) → bytes_of ms = (estimateItemBytes m + bytes_of rest)%Z.
Proof.
  revert rest. induction ms as [|x ms IH]; intros rest; [done|]. simpl.
  case_decide; [naive_solver|]. destruct (extract id ms) as [[y r]|]; [|done].
  intros [= <- <-]. simpl. rewrite (IH r) by done. lia.
Qed.

Lemma extract_length id ms m rest :
  extract id ms = Some (m, rest) → length ms = S (length rest).
Proof.
  revert rest. induction ms as [|x ms IH]; intros rest; [done|]. simpl.
  case_decide; [naive_solver|]. destruct (extract id ms) as [[y r]|]; [|done].
  intros [= <- <-]. simpl. by rewrite (IH r).
Qed.

(** The state of the class represents a list: its items, with their size. *)
Definition represents (budget : Z) (q : MessageQueue) (ms : list QueuedMessage) : Prop :=
  q.(items) = ms ∧ q.(currentBytes) = bytes_of ms ∧ q.(maxBytes) = budget.

Definition concrete (budget : Z) (ms : list QueuedMessage) : MessageQueue :=
  {| items := ms; currentBytes := bytes_of ms; maxBytes := budget |}.

Lemma represents_concrete budget q ms : represents budget q ms ↔ q = concrete budget ms.
Proof. destruct q; unfold represents, concrete; simpl; naive_solver. Qed.

Lemma push_refines budget item ms :
  let '(ms', a) := abstract_step budget (Push item) ms in
  queue_step (Push item) (concrete budget ms) = (concrete budget ms', a).
Proof.
  simpl. unfold push, concrete, set_items; simpl. rewrite bytes_app; simpl.
  rewrite Z.add_0_r. destruct ms as [|m ms].
  { rewrite decide_True by tauto. simpl. by rewrite andb_false_r, Z.add_0_r. }
  change (0 <? length (m :: ms))%nat with true. rewrite andb_true_r. case_decide as H.
  - destruct H as [?|H]; [done|]. rewrite (proj2 (Z.ltb_ge _ _)) by done.
    unfold concrete. rewrite bytes_app. simpl. by rewrite Z.add_0_r.
  - by rewrite (proj2 (Z.ltb_lt _ _)) by (destruct (Z.le_gt_cases
      (bytes_of (m :: ms) + estimateItemBytes item) budget); tauto || done).
Qed.

Lemma shiftN_refines budget count ms :
  let '(ms', a) := abstract_step budget (ShiftN count) ms in
  queue_step (ShiftN count) (concrete budget ms) = (concrete budget ms', a).
Proof.
  simpl. unfold shiftN, concrete, set_items; simpl.
  set (n := Z.min _ _). destruct (n =? 0)%Z eqn:Hn.
  - apply Z.eqb_eq in Hn. subst n. destruct ms as [|m ms]; [by rewrite drop_nil, take_nil|].
    by replace (Z.to_nat count) with 0%nat by (simpl in *; lia).
  - assert (Htake : take (Z.to_nat n) ms = take (Z.to_nat count) ms).
    { destruct (decide (Z.of_nat (length ms) <= count)%Z);
        [rewrite !take_ge by lia|replace (Z.to_nat n) with (Z.to_nat count) by lia]; done. }
    assert (Hdrop : drop (Z.to_nat n) ms = drop (Z.to_nat count) ms).
    { destruct (decide (Z.of_nat (length ms) <= count)%Z);
        [rewrite !drop_ge by lia|replace (Z.to_nat n) with (Z.to_nat count) by lia]; done. }
    rewrite Htake, Hdrop, foldl_bytes. f_equal. f_equal.
    rewrite <- (take_drop (Z.to_nat count) ms) at 1. rewrite bytes_app. lia.
Qed.

Lemma promote_refines budget id ms :
  let '(ms', a) := abstract_step budget (PromoteToHead id) ms in
  queue_step (PromoteToHead id) (concrete budget ms) = (concrete budget ms', a).
Proof.
  simpl. pose proof (extract_bytes id ms) as Hbytes. revert Hbytes. rewrite extract_index.
  unfold promoteToHead. simpl. destruct (first_index _ ms) as [[|i]|] eqn:Hi; [| |done].
  - destruct ms as [|m ms]; [done|]. done.
  - destruct (ms !! S i) as [m|] eqn:Hm; [|done]. intros Hbytes. unfold set_items, concrete. simpl.
    by rewrite (Hbytes m (splice_one (S i) ms)).
Qed.

Lemma remove_refines budget id ms :
  let '(ms', a) := abstract_step budget (RemoveByRequestId id) ms in
  queue_step (RemoveByRequestId id) (concrete budget ms) = (concrete budget ms', a).
Proof.
  simpl. pose proof (extract_bytes id ms) as Hbytes. revert Hbytes. rewrite extract_index.
  unfold removeByRequestId. simpl. destruct (first_index _ ms) as [i|] eqn:Hi; [|done].
  destruct (ms !! i) as [m|] eqn:Hm; [|done]. intros Hbytes. unfold set_items, concrete. simpl.
  rewrite (Hbytes m (splice_one i ms)) by done. do 2 f_equal. lia.
Qed.

(** Every call on a state that represents a list answers what the list answers
    and leaves a state that represents the new list. *)
Lemma step_refines budget c ms :
  let '(ms', a) := abstract_step budget c ms in
  queue_step c (concrete budget ms) = (concrete budget ms', a).
Proof.
  destruct c; try done.
  - apply push_refines.
  - destruct ms as [|m ms]; [done|]. simpl. unfold shift, set_items, concrete. simpl.
    do 2 f_equal. lia.
  - simpl. unfold unshift, set_items, concrete. simpl. do 2 f_equal. lia.
  - simpl. unfold peek. destruct (Z.ltb_spec index 0); [by rewrite decide_False by lia|].
    by rewrite decide_True.
  - apply shiftN_refines.
  - simpl. unfold isEmpty. by destruct ms.
  - apply promote_refines.
  - simpl. unfold findByRequestId. by rewrite extract_find.
  - apply remove_refines.
Qed.

(** C38: The queue is a list: whatever sequence of calls is made on a fresh queue, every
    answer (messages, refusals, sizes) is that of the abstract queue, which has
    no byte counter, and the counter is the size of what the queue holds. *)
Theorem queue_refines_list budget cs :
  let '(q, answers) := run_calls queue_step cs (new_queue budget) in
  run_calls (abstract_step budget) cs [] = (q.(items), answers)
  ∧ q.(currentBytes) = bytes_of q.(items).
Proof.
  change (new_queue budget) with (concrete budget []). generalize (@nil QueuedMessage) as ms.
  induction cs as [|c cs IH]; intros ms; simpl; [done|].
  pose proof (step_refines budget c ms) as Hstep.
  destruct (abstract_step budget c ms) as [ms' a]. rewrite Hstep.
  specialize (IH ms'). destruct (run_calls queue_step cs _) as [q answers].
  destruct IH as [-> ->]. done.
Qed.

(** ** The byte budget *)

Definition is_unshift (c : QueueCall) : bool :=
  match c with Unshift _ => true | _ => false end.

Definition within_budget (budget : Z) (ms : list QueuedMessage) : Prop :=
  (bytes_of ms <= budget)%Z ∨ length ms ≤ 1.

Lemma within_sub budget ms ms' :
  within_budget budget ms → (bytes_of ms' <= bytes_of ms)%Z → length ms' ≤ length ms →
  within_budget budget ms'.
Proof. unfold within_budget. intros [?|?] ? ?; [left | right]; lia. Qed.

Lemma abstract_within budget c ms :
  is_unshift c = false → within_budget budget ms →
  within_budget budget (abstract_step budget c ms).1.
Proof.
  intros Hc Hw. destruct c; try done; simpl.
  - case_decide as H; [|done]. destruct H as [->|H]; [by right | by left].
  - apply (within_sub _ ms); [done| |]; destruct ms as [|m ms]; simpl; [lia| |lia|lia].
    pose proof (estimate_nonneg m). lia.
  - apply (within_sub _ ms); [done| |rewrite length_drop; lia].
    rewrite <- (take_drop (Z.to_nat count) ms) at 2. rewrite bytes_app.
    pose proof (bytes_nonneg (take (Z.to_nat count) ms)). lia.
  - right. simpl. lia.
  - destruct (extract id ms) as [[m rest]|] eqn:E; [|done].
    apply (within_sub _ ms); [done| |]; simpl.
    + rewrite (extract_bytes _ _ _ _ E). lia.
    + rewrite (extract_length _ _ _ _ E). lia.
  - destruct (extract id ms) as [[m rest]|] eqn:E; [|done].
    apply (within_sub _ ms); [done| |]; simpl.
    + rewrite (extract_bytes _ _ _ _ E). pose proof (estimate_nonneg m). lia.
    + rewrite (extract_length _ _ _ _ E). lia.
Qed.

(** The memory bound: as long as nothing is put back at the front (a requeue is
    never refused), a queue of two or more messages stays within its budget,
    whatever is sent; a single message is accepted whatever its size. *)
Theorem queue_within_budget budget cs :
  Forall (λ c, is_unshift c = false) cs →
  let q := (run_calls queue_step cs (new_queue budget)).1 in
  (q.(currentBytes) <= budget)%Z ∨ length q.(items) ≤ 1.
Proof.
  change (new_queue budget) with (concrete budget []).
  assert (Hw : within_budget budget []) by (right; simpl; lia). revert Hw.
  generalize (@nil QueuedMessage) as ms. intros ms Hw Hcs. revert ms Hw.
  induction Hcs as [|c cs Hc _ IH]; intros ms Hw; [exact Hw|]. simpl.
  pose proof (step_refines budget c ms) as Hstep.
  pose proof (abstract_within budget c ms Hc Hw) as Hw'.
  destruct (abstract_step budget c ms) as [ms' a]. rewrite Hstep.
  specialize (IH ms' Hw'). by destruct (run_calls queue_step cs _) as [q answers].
Qed.

(** ** Witnesses *)

Definition sample_message (id text : string) : QueuedMessage :=
  {| content := text; attachments := []; requestId := id; onEvent := Some id;
     activeSurfaceId := None; currentPage := None; metadata := None;
     turnChannelContext := None; turnInterfaceContext := None; isInteractive := None;
     sourceActorPrincipalId := None; authContext := None; trustContext := None;
     transport := Some [("channelId", TvStr "desktop")]; displayContent := None;
     cronRunId := None; sentAt := 0; clientMessageId := None; dequeueAnnounced := false |}.

(** 570 bytes each: the second is refused, the third is accepted after a shift. *)
Lemma queue_within_budget_witness :
  let cs := [Push (sample_message "a" "hello"); Push (sample_message "b" "world");
             Shift; Push (sample_message "c" "again")] in
  Forall (λ c, is_unshift c = false) cs
  ∧ (run_calls queue_step cs (new_queue 1000)).2
    = [Answer true; Answer false; AnswerMessage (Some (sample_message "a" "hello")); Answer true]
  ∧ let q := (run_calls queue_step cs (new_queue 1000)).1 in
    (q.(currentBytes) <= 1000)%Z ∨ length q.(items) ≤ 1.
Proof.
  split; [repeat constructor|]. split; [vm_compute; reflexivity|].
  apply queue_within_budget. repeat constructor.
Defined.
