(* ===== verification/InterruptRepair.v ===== *)
(** The repair of a history that an abort cut off in the middle of a tool call
    ([assistant/src/daemon/conversation-interrupt-repair.ts]). *)
From S2P Require Import Prelude JsString JsMap ContentBlocks.

(** The fields of the conversation the repair reads and writes. *)
Record InterruptState := {
  messages : list Message;
  pendingSteerRepair : bool;
  pendingInterruptRepair : bool
}.

Definition PREEMPTED_TOOL_RESULT_TEXT : string :=
  "Stopped early because the user sent a new message. This call may have completed anyway; check before repeating it.".

(** The ids a user message answers, as the walk collects them. *)
Definition answered_id (b : ContentBlock) : option string :=
  match b with
  | ToolResult id _ _ _ | WebSearchToolResult id _ => Some id
  | _ => None
  end.

Notation answered_ids := (ids_of answered_id).

(** The walk backwards from the tail: results are collected from user messages,
    the first assistant message met is the only one looked at. *)
Fixpoint walk_back (reversed : list Message) (resolvedToolUseIds : list string) : list string :=
  match reversed with
  | [] => []
  | msg :: earlier =>
      match msg.(role) with
      | role_user =>
          walk_back earlier
            (foldl (λ ids id, set_add id ids) resolvedToolUseIds (answered_ids msg.(content)))
      | role_assistant =>
          List.filter (λ id, negb (mem id resolvedToolUseIds)) (tool_use_ids msg.(content))
      end
  end.

Definition pendingToolUseIds (ms : list Message) : list string := walk_back (rev ms) [].

Definition synthetic_result (toolUseId : string) : ContentBlock :=
  ToolResult toolUseId PREEMPTED_TOOL_RESULT_TEXT (Some false) None.

Definition repairRow (ids : list string) : Message :=
  {| role := role_user; content := synthetic_result <$> ids |}.

(** [repairInterruptedToolUseBlocks]; [persists] tells whether [addMessage]
    succeeds, the answer whether the call throws. *)
Definition repairInterruptedToolUseBlocks (force requireDurable persists : bool)
    (st : InterruptState) : InterruptState * bool :=
  let wasSteerArmed := st.(pendingSteerRepair) in
  let wasArmed := st.(pendingInterruptRepair) in
  if negb wasSteerArmed && negb wasArmed && negb force then (st, false)
  else
    let cleared ms := {| messages := ms; pendingSteerRepair := false;
                         pendingInterruptRepair := false |} in
    if (length st.(messages) =? 0)%nat then (cleared st.(messages), false)
    else
      match pendingToolUseIds st.(messages) with
      | [] => (cleared st.(messages), false)
      | pending =>
          if persists then (cleared (st.(messages) ++ [repairRow pending]), false)
          else if requireDurable then
            ({| messages := st.(messages); pendingSteerRepair := wasSteerArmed;
                pendingInterruptRepair := true |}, true)
          else (cleared (st.(messages) ++ [repairRow pending]), false)
      end.

(** ** What the repair promises *)

(** The last assistant message with what follows it. *)
Definition tail_turn (ms : list Message) (a : Message) (after : list Message) : Prop :=
  ∃ before, ms = before ++ a :: after ∧ a.(role) = role_assistant
            ∧ Forall (λ m, m.(role) = role_user) after.

(** Every tool call of the last assistant message is answered after it. *)
Definition tail_answered (ms : list Message) : Prop :=
  ∀ a after id, tail_turn ms a after → id ∈ tool_use_ids a.(content) →
  ∃ m, m ∈ after ∧ id ∈ answered_ids m.(content).

Lemma elem_of_fold_add (id : string) ids acc :
  id ∈ foldl (λ ids id, set_add id ids) acc ids ↔ id ∈ acc ∨ id ∈ ids.
Proof.
  revert acc. induction ids as [|x ids IH]; intros acc; simpl; [set_solver|].
  rewrite IH, elem_of_set_add. set_solver.
Qed.

(** The walk stops at the last assistant message, having seen every result after it. *)
Lemma walk_back_spec after a before resolved id :
  a.(role) = role_assistant → Forall (λ m, m.(role) = role_user) after →
  id ∈ walk_back (rev (before ++ a :: after)) resolved ↔
  id ∈ tool_use_ids a.(content) ∧ id ∉ resolved
  ∧ ∀ m, m ∈ after → id ∉ answered_ids m.(content).
Proof.
  intros Ha. revert resolved. induction after as [|m after IH] using rev_ind; intros resolved Hafter.
  - rewrite rev_app_distr. simpl. rewrite Ha, elem_of_lfilter, negb_true_iff, mem_false.
    split; [intros [? ?]; split_and!; [done..|]; intros m Hm; by apply not_elem_of_nil in Hm|tauto].
  - apply Forall_app in Hafter as [Hafter Hm]. apply Forall_inv in Hm.
    replace (before ++ a :: after ++ [m]) with ((before ++ a :: after) ++ [m])
      by (by rewrite <- app_assoc). rewrite rev_app_distr. cbn [rev app walk_back].
    rewrite Hm, IH by done. rewrite elem_of_fold_add. setoid_rewrite elem_of_app.
    setoid_rewrite list_elem_of_singleton. split.
    + intros (? & ? & Hno). split_and!; [done|tauto|].
      intros x [Hx | ->]; [by apply Hno | tauto].
    + intros (? & ? & Hno). split_and!; [done| |intros x Hx; apply Hno; by left].
      intros [?|Hin]; [tauto|]. apply (Hno m); [by right|done].
Qed.

(** Nothing is pending exactly when the tail is answered. *)
Lemma pending_nil ms : pendingToolUseIds ms = [] → tail_answered ms.
Proof.
  intros H a after id (before & -> & Ha & Hafter) Hid.
  destruct (decide (Exists (λ m, id ∈ answered_ids m.(content)) after)) as [He|He];
    [by apply Exists_exists in He as (m & ? & ?); exists m|].
  exfalso. assert (Hin : id ∈ pendingToolUseIds (before ++ a :: after)).
  { apply walk_back_spec; [done|done|]. split_and!; [done|apply not_elem_of_nil|].
    intros m Hm Hans. apply He, Exists_exists. by exists m. }
  rewrite H in Hin. by apply not_elem_of_nil in Hin.
Qed.

Lemma answered_synthetic ids : answered_ids (synthetic_result <$> ids) = ids.
Proof.
  induction ids as [|id ids IH]; [done|].
  change (id :: answered_ids (synthetic_result <$> ids) = id :: ids). by rewrite IH.
Qed.

Lemma tail_turn_snoc_user ms m a after :
  m.(role) = role_user → tail_turn (ms ++ [m]) a after →
  ∃ after', after = after' ++ [m] ∧ tail_turn ms a after'.
Proof.
  intros Hm (before & Heq & Ha & Hafter).
  destruct after as [|x after _] using rev_ind.
  - apply app_inj_tail in Heq as [_ ->]. congruence.
  - replace (before ++ a :: after ++ [x]) with ((before ++ a :: after) ++ [x]) in Heq
      by (by rewrite <- app_assoc). apply app_inj_tail in Heq as [-> ->].
    exists after. split; [done|]. exists before. apply Forall_app in Hafter as [? _]. done.
Qed.

(** The synthetic row answers what was pending. *)
Lemma repair_row_answers ms :
  tail_answered (ms ++ [repairRow (pendingToolUseIds ms)]).
Proof.
  intros a after id Hturn Hid.
  apply tail_turn_snoc_user in Hturn as (after' & -> & before & -> & Ha & Hafter); [|done].
  destruct (decide (Exists (λ m, id ∈ answered_ids m.(content)) after')) as [He|He].
  { apply Exists_exists in He as (m & ? & ?). exists m. set_solver. }
  exists (repairRow (pendingToolUseIds (before ++ a :: after'))). split; [set_solver|].
  unfold repairRow. cbn [content]. rewrite answered_synthetic.
  apply walk_back_spec; [done|done|]. split_and!; [done|apply not_elem_of_nil|].
  intros m Hm Hans. apply He, Exists_exists. by exists m.
Qed.

(** C39: An armed (or forced) repair that returns leaves every tool call of the very
    last assistant message answered (calls of an earlier one are not looked at,
    even when the last one makes none), adding at most one row, of results for exactly
    the calls that were dangling, and disarms both flags. One that throws was
    asked to be durable, has put the history back as it was and leaves the
    interrupt flag armed, so that the next drain repairs again. *)
Theorem interrupt_repair_spec force requireDurable persists st :
  st.(pendingSteerRepair) || st.(pendingInterruptRepair) || force = true →
  let '(st', threw) := repairInterruptedToolUseBlocks force requireDurable persists st in
  let pending := pendingToolUseIds st.(messages) in
  if threw then
    requireDurable = true ∧ persists = false ∧ pending ≠ []
    ∧ st'.(messages) = st.(messages) ∧ st'.(pendingInterruptRepair) = true
    ∧ st'.(pendingSteerRepair) = st.(pendingSteerRepair)
  else
    tail_answered st'.(messages)
    ∧ st'.(messages) = (if decide (pending = []) then st.(messages)
                        else st.(messages) ++ [repairRow pending])
    ∧ st'.(pendingSteerRepair) = false ∧ st'.(pendingInterruptRepair) = false.
Proof.
  intros Harm. unfold repairInterruptedToolUseBlocks.
  replace (negb (pendingSteerRepair st) && negb (pendingInterruptRepair st) && negb force)
    with false by (destruct (pendingSteerRepair st), (pendingInterruptRepair st), force; done).
  destruct (length (messages st) =? 0)%nat eqn:Hlen.
  { apply Nat.eqb_eq, nil_length_inv in Hlen. rewrite Hlen. simpl.
    split_and!; [by apply pending_nil|done..]. }
  pose proof (repair_row_answers st.(messages)) as Hrow.
  destruct (pendingToolUseIds (messages st)) as [|p ps] eqn:Hp.
  { simpl. split_and!; [by apply pending_nil|done..]. }
  destruct persists, requireDurable; simpl; split_and!; done.
Qed.

(** When the last assistant message makes no call, the walk stops at it: the
    dangling call of the message before is not repaired, and the flags are
    disarmed all the same. *)
Lemma text_tail_not_repaired (before : list Message) (call text : string) force requireDurable persists :
  let history :=
    before ++ [{| role := role_assistant; content := [ToolUse call "bash" JNull None] |};
               {| role := role_assistant; content := [Text text] |}] in
  pendingToolUseIds history = []
  ∧ repairInterruptedToolUseBlocks force requireDurable persists
      {| messages := history; pendingSteerRepair := true; pendingInterruptRepair := false |}
    = ({| messages := history; pendingSteerRepair := false; pendingInterruptRepair := false |}, false).
Proof.
  set (history := before ++ _). cbv zeta.
  assert (Hp : pendingToolUseIds history = []).
  { unfold history, pendingToolUseIds. by rewrite rev_app_distr. }
  split; [done|]. unfold repairInterruptedToolUseBlocks. cbn [messages pendingSteerRepair pendingInterruptRepair].
  rewrite Hp. simpl. by destruct (length history =? 0)%nat.
Qed.

(** ** Witness *)
Definition cut_off : list Message :=
  [{| role := role_user; content := [Text "go"] |};
   {| role := role_assistant;
      content := [ToolUse "t1" "bash" JNull None; ToolUse "t2" "bash" JNull None] |};
   {| role := role_user; content := [ToolResult "t1" "done" None None] |}].

Lemma interrupt_repair_spec_witness :
  let st := {| messages := cut_off; pendingSteerRepair := true; pendingInterruptRepair := false |} in
  pendingToolUseIds cut_off = ["t2"]
  ∧ st.(pendingSteerRepair) || st.(pendingInterruptRepair) || false = true
  ∧ let '(st', threw) := repairInterruptedToolUseBlocks false true false st in
    if threw then
      true = true ∧ false = false ∧ pendingToolUseIds cut_off ≠ []
      ∧ st'.(messages) = cut_off ∧ st'.(pendingInterruptRepair) = true
      ∧ st'.(pendingSteerRepair) = true
    else False.
Proof.
  split; [reflexivity|]. split; [reflexivity|].
  exact (interrupt_repair_spec false true false
    {| messages := cut_off; pendingSteerRepair := true; pendingInterruptRepair := false |} eq_refl).
Defined.
