(* ===== verification/QueueDrain.v ===== *)
(** Enqueueing, deleting, draining and requeueing a conversation's messages, with
    the events its clients see ([assistant/src/daemon/conversation-messaging.ts],
    [conversation-process.ts], [conversation-lifecycle.ts],
    [handlers/conversations.ts]). The turn a drain starts is the argument
    [dispatch]; the classification of a message's text is an argument too. *)
From S2P Require Import Prelude JsString JsMap ContentBlocks MessageQueue InterruptRepair.

(** ** State *)

(** What a sender is told about the queue. *)
Inductive ClientEvent :=
  | message_queued (requestId : string) (position : nat) (clientMessageId : option string)
  | message_dequeued (requestId : string) (clientMessageId : option string)
  | message_requeued (requestId : string) (position : nat) (clientMessageId : option string)
  | message_queued_deleted (requestId : string) (clientMessageId : option string)
  | generation_cancelled
  | queue_full
  | queue_drain_failed (requestId : string).

(** The fields of [Conversation] the queue's operations touch; [events] is what
    has been delivered, oldest first, each with its sink. *)
Record Conversation := {
  queue : MessageQueue;
  repair : InterruptState;
  processing : bool;
  surfaceActionRequestIds : list string;
  turnChannel : option TurnChannelContext;
  turnInterface : option TurnInterfaceContext;
  conversationTrust : option TrustContext;
  conversationAuth : option AuthContext;
  currentTurnAuthContext : option AuthContext;
  currentTurnSourceActorPrincipalId : option string;
  events : list (string * ClientEvent)
}.

Definition set_queue (q : MessageQueue) (c : Conversation) : Conversation :=
  {| queue := q; repair := c.(repair); processing := c.(processing);
     surfaceActionRequestIds := c.(surfaceActionRequestIds); turnChannel := c.(turnChannel);
     turnInterface := c.(turnInterface); conversationTrust := c.(conversationTrust);
     conversationAuth := c.(conversationAuth);
     currentTurnAuthContext := c.(currentTurnAuthContext);
     currentTurnSourceActorPrincipalId := c.(currentTurnSourceActorPrincipalId);
     events := c.(events) |}.

Definition set_repair (r : InterruptState) (c : Conversation) : Conversation :=
  {| queue := c.(queue); repair := r; processing := c.(processing);
     surfaceActionRequestIds := c.(surfaceActionRequestIds); turnChannel := c.(turnChannel);
     turnInterface := c.(turnInterface); conversationTrust := c.(conversationTrust);
     conversationAuth := c.(conversationAuth);
     currentTurnAuthContext := c.(currentTurnAuthContext);
     currentTurnSourceActorPrincipalId := c.(currentTurnSourceActorPrincipalId);
     events := c.(events) |}.

(** [sink?.(event)] *)
Definition emit (sink : option string) (event : ClientEvent) (c : Conversation) : Conversation :=
  match sink with
  | None => c
  | Some s =>
      {| queue := c.(queue); repair := c.(repair); processing := c.(processing);
         surfaceActionRequestIds := c.(surfaceActionRequestIds); turnChannel := c.(turnChannel);
         turnInterface := c.(turnInterface); conversationTrust := c.(conversationTrust);
         conversationAuth := c.(conversationAuth);
         currentTurnAuthContext := c.(currentTurnAuthContext);
         currentTurnSourceActorPrincipalId := c.(currentTurnSourceActorPrincipalId);
         events := c.(events) ++ [(s, event)] |}
  end.

(** [...(m.clientMessageId ? { clientMessageId } : {})] *)
Definition client_id (m : QueuedMessage) : option string :=
  match m.(clientMessageId) with
  | Some id => if truthy id then Some id else None
  | None => None
  end.

(** ** Which messages have a row in the client *)

Definition meta_get (key : string) (metadata : option Metadata) : option JsValue :=
  match metadata with Some md => map_get key md | None => None end.

Definition isHiddenMessageMetadata (metadata : option Metadata) : bool :=
  match meta_get "hidden" metadata with Some (JsBool true) => true | _ => false end.

Definition isBackgroundEventMetadata (metadata : option Metadata) : bool :=
  match meta_get "backgroundEventSource" metadata with Some (JsStr _) => true | _ => false end.

(** [metadata?.[key] != null] *)
Definition present (key : string) (metadata : option Metadata) : bool :=
  match meta_get key metadata with Some JsNull | None => false | Some _ => true end.

Definition isEchoSuppressedUserMessage (metadata : option Metadata) : bool :=
  isHiddenMessageMetadata metadata || present "subagentNotification" metadata
  || present "acpNotification" metadata || isBackgroundEventMetadata metadata.

Definition isSuppressedQueuedMessage (metadata : option Metadata) : bool :=
  isEchoSuppressedUserMessage metadata.

Definition visible (m : QueuedMessage) : bool := negb (isSuppressedQueuedMessage m.(metadata)).

(** ** Enqueueing *)

(** [parseChannelId], [isChannelId] *)
Definition parseChannelId (channels : list string) (value : option JsValue) : option string :=
  match value with Some (JsStr s) => if mem s channels then Some s else None | _ => None end.

Definition extractTurnChannelContext (channels : list string) (metadata : option Metadata)
    : option TurnChannelContext :=
  match parseChannelId channels (meta_get "userMessageChannel" metadata),
        parseChannelId channels (meta_get "assistantMessageChannel" metadata) with
  | Some u, Some a => Some {| userMessageChannel := u; assistantMessageChannel := a |}
  | _, _ => None
  end.

Definition extractTurnInterfaceContext (metadata : option Metadata)
    : option TurnInterfaceContext :=
  match parseInterfaceId (meta_get "userMessageInterface" metadata),
        parseInterfaceId (meta_get "assistantMessageInterface" metadata) with
  | Some u, Some a => Some {| userMessageInterface := u; assistantMessageInterface := a |}
  | _, _ => None
  end.

Record EnqueueMessageOptions := {
  opt_content : string;
  opt_attachments : list Attachment;
  opt_onEvent : option string;
  opt_requestId : option string;
  opt_activeSurfaceId : option string;
  opt_currentPage : option string;
  opt_metadata : option Metadata;
  opt_isInteractive : option bool;
  opt_displayContent : option string;
  opt_transport : option TransportMetadata;
  opt_clientMessageId : option string;
  opt_sourceActorPrincipalId : option string;
  opt_authContext : option AuthContext;
  opt_trustContext : option TrustContext;
  opt_queueWhenIdle : bool;
  opt_cronRunId : option string
}.

Record EnqueueResult := { queued : bool; result_requestId : string; rejected : bool }.

(** The item [enqueueMessage] builds. *)
Definition queued_item (channels : list string) (freshId : string) (now : Z)
    (options : EnqueueMessageOptions) (c : Conversation) : QueuedMessage :=
  let queuedAuthContext :=
    or_else options.(opt_authContext)
      (or_else c.(currentTurnAuthContext) c.(conversationAuth)) in
  {| content := options.(opt_content);
     attachments := options.(opt_attachments);
     requestId := default freshId options.(opt_requestId);
     onEvent := options.(opt_onEvent);
     activeSurfaceId := options.(opt_activeSurfaceId);
     currentPage := options.(opt_currentPage);
     metadata := options.(opt_metadata);
     turnChannelContext :=
       or_else (extractTurnChannelContext channels options.(opt_metadata)) c.(turnChannel);
     turnInterfaceContext :=
       or_else (extractTurnInterfaceContext options.(opt_metadata)) c.(turnInterface);
     isInteractive := options.(opt_isInteractive);
     sourceActorPrincipalId :=
       or_else options.(opt_sourceActorPrincipalId)
         (or_else c.(currentTurnSourceActorPrincipalId)
            (queuedAuthContext ≫= actorPrincipalId));
     authContext := queuedAuthContext;
     trustContext := or_else options.(opt_trustContext) c.(conversationTrust);
     transport := options.(opt_transport);
     displayContent := options.(opt_displayContent);
     cronRunId := options.(opt_cronRunId);
     sentAt := now;
     clientMessageId := options.(opt_clientMessageId);
     dequeueAnnounced := false |}.

Definition enqueueMessage (channels : list string) (freshId : string) (now : Z)
    (options : EnqueueMessageOptions) (c : Conversation) : Conversation * EnqueueResult :=
  let item := queued_item channels freshId now options c in
  if negb c.(processing) && negb options.(opt_queueWhenIdle) then
    (c, {| queued := false; result_requestId := item.(requestId); rejected := false |})
  else
    let '(q, accepted) := push item c.(queue) in
    let c := set_queue q c in
    if negb accepted then
      (emit item.(onEvent) queue_full c,
       {| queued := false; result_requestId := item.(requestId); rejected := true |})
    else
      let c :=
        if isSuppressedQueuedMessage options.(opt_metadata) then c
        else
          let position := length (List.filter visible (snapshot c.(queue))) in
          emit item.(onEvent) (message_queued item.(requestId) position (client_id item)) c in
      (c, {| queued := true; result_requestId := item.(requestId); rejected := false |}).

(** ** Deleting and discarding *)

Definition mayActOnQueuedMessage (queued : QueuedMessage) (callerActorPrincipalId : option string)
    : bool :=
  match queued.(sourceActorPrincipalId), callerActorPrincipalId with
  | Some a, Some b => if truthy a && truthy b then String.eqb a b else true
  | _, _ => true
  end.

Inductive DeleteResult :=
  | removed
  | not_removed (reason : string).

Definition deleteQueuedMessage (id : string) (actorPrincipalId : option string)
    (found : option Conversation) : option Conversation * DeleteResult :=
  match found with
  | None => (None, not_removed "conversation_not_found")
  | Some c =>
      match findByRequestId id c.(queue) with
      | None => (Some c, not_removed "message_not_found")
      | Some queued =>
          if negb (mayActOnQueuedMessage queued actorPrincipalId) then
            (Some c, not_removed "forbidden")
          else
            let c := set_queue (removeByRequestId id c.(queue)).1 c in
            (Some (if isSuppressedQueuedMessage queued.(metadata) then c
                   else emit queued.(onEvent) (message_queued_deleted id (client_id queued)) c),
             removed)
      end
  end.

Definition discard_notice (c : Conversation) (queued : QueuedMessage) : Conversation :=
  let c := emit queued.(onEvent) generation_cancelled c in
  if isSuppressedQueuedMessage queued.(metadata) then c
  else emit queued.(onEvent)
         (message_queued_deleted queued.(requestId) (client_id queued)) c.

Definition discardQueueOnAbort (c : Conversation) : Conversation :=
  let c := foldl discard_notice c (snapshot c.(queue)) in
  set_queue (clear_queue c.(queue)) c.

(** ** Draining *)

Definition set_announced (b : bool) (m : QueuedMessage) : QueuedMessage :=
  {| content := m.(content); attachments := m.(attachments); requestId := m.(requestId);
     onEvent := m.(onEvent); activeSurfaceId := m.(activeSurfaceId);
     currentPage := m.(currentPage); metadata := m.(metadata);
     turnChannelContext := m.(turnChannelContext);
     turnInterfaceContext := m.(turnInterfaceContext); isInteractive := m.(isInteractive);
     sourceActorPrincipalId := m.(sourceActorPrincipalId); authContext := m.(authContext);
     trustContext := m.(trustContext); transport := m.(transport);
     displayContent := m.(displayContent); cronRunId := m.(cronRunId); sentAt := m.(sentAt);
     clientMessageId := m.(clientMessageId); dequeueAnnounced := b |}.

(** The message is a shared object: what is returned is what every holder sees. *)
Definition announceDequeue (message : QueuedMessage) (c : Conversation)
    : Conversation * QueuedMessage :=
  if isSuppressedQueuedMessage message.(metadata) then (c, message)
  else
    (emit message.(onEvent) (message_dequeued message.(requestId) (client_id message)) c,
     set_announced true message).

(** The loop of [visibleQueuePosition], from [position] on. *)
Fixpoint visible_position (id : string) (position : nat) (its : list QueuedMessage)
    : option nat :=
  match its with
  | [] => None
  | item :: rest =>
      if isSuppressedQueuedMessage item.(metadata) then visible_position id position rest
      else if String.eqb item.(requestId) id then Some (S position)
      else visible_position id (S position) rest
  end.

Definition visibleQueuePosition (id : string) (c : Conversation) : option nat :=
  visible_position id 0 (snapshot c.(queue)).

(** The corrective event of one requeued message. *)
Definition requeue_notice (c : Conversation) (message : QueuedMessage) : Conversation :=
  if negb message.(dequeueAnnounced) then c
  else if isSuppressedQueuedMessage message.(metadata) then c
  else match visibleQueuePosition message.(requestId) c with
       | None => c
       | Some position =>
           emit message.(onEvent)
             (message_requeued message.(requestId) position (client_id message)) c
       end.

Definition arm_steer (r : InterruptState) : InterruptState :=
  {| messages := r.(messages); pendingSteerRepair := true;
     pendingInterruptRepair := r.(pendingInterruptRepair) |}.

(** The flags are cleared on the shared objects while the events are sent, so the
    queue holds them cleared; the notices read the flags the messages came with. *)
Definition requeueDrainedMessages (msgs : list QueuedMessage) (steered : bool) (c : Conversation)
    : Conversation :=
  let c := set_queue (foldr unshift c.(queue) (set_announced false <$> msgs)) c in
  let c := if steered then set_repair (arm_steer c.(repair)) c else c in
  foldl requeue_notice c msgs.

Definition resolveQueuedTurnInterfaceContext (queued : QueuedMessage)
    (fallback : option TurnInterfaceContext) : option TurnInterfaceContext :=
  or_else queued.(turnInterfaceContext)
    (or_else (extractTurnInterfaceContext queued.(metadata)) fallback).

(** An error as [restoredDrainErrors] sees it: an object with an identity, or a
    thrown primitive value. *)
Inductive DrainError :=
  | ErrorObject (identity : nat)
  | ErrorValue.

Section Drain.
(** [classifySlash(content) === "passthrough"] and
    [resolveVerificationSessionIntent(content).kind === "direct_setup"] *)
Context (passthrough direct_setup : string → bool).

Definition interface_of (m : QueuedMessage) (c : Conversation) : option InterfaceId :=
  userMessageInterface <$> resolveQueuedTurnInterfaceContext m c.(turnInterface).

Definition transport_field (key : string) (m : QueuedMessage) : option string :=
  m.(transport) ≫= transport_string key.

(** Plain text that no single-message path owns. *)
Definition batchable (c : Conversation) (m : QueuedMessage) : bool :=
  passthrough m.(content) && negb (direct_setup m.(content))
  && negb (match m.(activeSurfaceId) with Some _ => true | None => false end
           || mem m.(requestId) c.(surfaceActionRequestIds)).

(** None of the loop's [break]s fires. *)
Definition joins (c : Conversation) (head candidate : QueuedMessage) : bool :=
  bool_decide (interface_of candidate c = interface_of head c)
  && bool_decide (transport_field "clientOs" candidate = transport_field "clientOs" head)
  && bool_decide (transport_field "visibleAppId" candidate = transport_field "visibleAppId" head)
  && bool_decide (candidate.(sourceActorPrincipalId) = head.(sourceActorPrincipalId))
  && sameTrustIdentity candidate.(trustContext) head.(trustContext)
  && bool_decide (candidate.(cronRunId) = head.(cronRunId))
  && batchable c candidate.

(** [for (;;) { candidate = peek(i); ...; i++ }] *)
Fixpoint batch_end (fuel : nat) (c : Conversation) (head : QueuedMessage) (i : nat) : nat :=
  match fuel with
  | O => i
  | S fuel =>
      match peek (Z.of_nat i) c.(queue) with
      | None => i
      | Some candidate => if joins c head candidate then batch_end fuel c head (S i) else i
      end
  end.

Definition buildPassthroughBatch (c : Conversation) : Conversation * list QueuedMessage :=
  match peek 0 c.(queue) with
  | None => (c, [])
  | Some head =>
      if negb (batchable c head) then (c, [])
      else
        let matched := batch_end (queue_length c.(queue)) c head 1 in
        let '(q, batch) := shiftN (Z.of_nat matched) c.(queue) in (set_queue q c, batch)
  end.

(** [drainSingleMessage] and [drainBatch]: what the turn does to the conversation
    and to the messages (shared objects), and the error it throws, if it does. *)
Definition Dispatch :=
  list QueuedMessage → bool → Conversation → Conversation * list QueuedMessage * option DrainError.

Definition already_restored (restored : list nat) (err : DrainError) : bool :=
  match err with ErrorObject i => mem i restored | ErrorValue => false end.

Definition mark_restored (restored : list nat) (err : DrainError) : list nat :=
  match err with ErrorObject i => set_add i restored | ErrorValue => restored end.

(** [restored] is the module's [restoredDrainErrors]. *)
Definition dispatchDrainWithRestore (dispatch : Dispatch) (msgs : list QueuedMessage)
    (steered : bool) (restored : list nat) (c : Conversation)
    : Conversation * list nat * option DrainError :=
  let '(c, msgs, thrown) := dispatch msgs steered c in
  match thrown with
  | None => (c, restored, None)
  | Some err =>
      if already_restored restored err then (c, restored, Some err)
      else (requeueDrainedMessages msgs steered c, mark_restored restored err, Some err)
  end.

(** What one attempt to drain meets: whether the repair's row can be written, what
    is thrown when it cannot, and the turn. *)
Record Attempt := { persists : bool; repairError : DrainError; dispatch : Dispatch }.

Definition drainQueue (attempt : Attempt) (restored : list nat) (c : Conversation)
    : Conversation * list nat * option DrainError :=
  let steered := c.(repair).(pendingSteerRepair) in
  let '(r, threw) := repairInterruptedToolUseBlocks false c.(repair).(pendingInterruptRepair)
                       attempt.(persists) c.(repair) in
  let c := set_repair r c in
  if (threw : bool) then (c, restored, Some attempt.(repairError))
  else if steered then
    match shift c.(queue) with
    | (_, None) => (c, restored, None)
    | (q, Some next) =>
        dispatchDrainWithRestore attempt.(dispatch) [next] true restored (set_queue q c)
    end
  else
    let '(c, batch) := buildPassthroughBatch c in
    match batch with
    | [] =>
        match shift c.(queue) with
        | (_, None) => (c, restored, None)
        | (q, Some next) =>
            dispatchDrainWithRestore attempt.(dispatch) [next] false restored (set_queue q c)
        end
    | _ => dispatchDrainWithRestore attempt.(dispatch) batch false restored c
    end.

Definition stranded_notice (c : Conversation) (queued : QueuedMessage) : Conversation :=
  emit queued.(onEvent) (queue_drain_failed queued.(requestId)) c.

Definition kickQueueDrain (first retry : Attempt) (restored : list nat) (c : Conversation)
    : Conversation * list nat :=
  let '(c, restored, thrown) := drainQueue first restored c in
  match thrown with
  | None => (c, restored)
  | Some _ =>
      let '(c, restored, thrown) := drainQueue retry restored c in
      match thrown with
      | None => (c, restored)
      | Some _ => (foldl stranded_notice c (List.filter visible (snapshot c.(queue))), restored)
      end
  end.
End Drain.

(** ** The batch of one turn *)

Section Batch.
Context (passthrough direct_setup : string → bool).

(** The longest prefix whose messages satisfy a test. *)
Fixpoint take_while {A} (f : A → bool) (xs : list A) : list A :=
  match xs with
  | [] => []
  | x :: xs => if f x then x :: take_while f xs else []
  end.

Lemma take_while_prefix {A} (f : A → bool) xs :
  take (length (take_while f xs)) xs = take_while f xs.
Proof. induction xs as [|x xs IH]; [done|]. simpl. destruct (f x); [|done]. simpl. by rewrite IH. Qed.

Lemma take_while_Forall {A} (f : A → bool) xs : Forall (λ x, f x = true) (take_while f xs).
Proof. induction xs as [|x xs IH]; simpl; [done|]. destruct (f x) eqn:E; by constructor. Qed.

Lemma take_while_next {A} (f : A → bool) xs x rest :
  drop (length (take_while f xs)) xs = x :: rest → f x = false.
Proof.
  induction xs as [|y xs IH]; [done|]. simpl. destruct (f y) eqn:E; [apply IH|].
  by intros [= -> ->].
Qed.

Lemma peek_nat q i : peek (Z.of_nat i) q = q.(items) !! i.
Proof. unfold peek. rewrite (proj2 (Z.ltb_ge _ _)) by lia. by rewrite Nat2Z.id. Qed.

(** The loop counts the longest run after position [i]. *)
Lemma batch_end_run fuel c head i :
  length (drop i c.(queue).(items)) ≤ fuel →
  batch_end passthrough direct_setup fuel c head i
  = i + length (take_while (joins passthrough direct_setup c head) (drop i c.(queue).(items))).
Proof.
  revert i. induction fuel as [|fuel IH]; intros i Hfuel; simpl.
  - destruct (drop i _); simpl in *; lia.
  - rewrite peek_nat. destruct (c.(queue).(items) !! i) as [m|] eqn:Hm.
    + rewrite (drop_S _ _ _ Hm) in *. simpl in *. destruct (joins _ _ c head m); [|simpl; lia].
      rewrite IH by lia. simpl. lia.
    + apply lookup_ge_None in Hm. rewrite drop_ge by lia. simpl. lia.
Qed.

Lemma joins_refl c head :
  batchable passthrough direct_setup c head = true →
  joins passthrough direct_setup c head head = true.
Proof.
  intros H. unfold joins. rewrite H, !bool_decide_eq_true_2 by done. simpl.
  unfold sameTrustIdentity. destruct (trustContext head); [|done].
  by rewrite !bool_decide_eq_true_2.
Qed.

(** What the builder takes: nothing, or the longest run at the head of the queue. *)
Lemma buildPassthroughBatch_run c :
  buildPassthroughBatch passthrough direct_setup c
  = match c.(queue).(items) with
    | head :: _ =>
        if batchable passthrough direct_setup c head then
          let batch := take_while (joins passthrough direct_setup c head) c.(queue).(items) in
          (set_queue (set_items (drop (length batch) c.(queue).(items))
                        (c.(queue).(currentBytes) - bytes_of batch)%Z c.(queue)) c, batch)
        else (c, [])
    | [] => (c, [])
    end.
Proof.
  unfold buildPassthroughBatch. change 0%Z with (Z.of_nat 0). rewrite peek_nat.
  destruct (c.(queue).(items)) as [|head its] eqn:Hits; [done|]. simpl lookup. cbv iota beta.
  destruct (batchable _ _ c head) eqn:Hb; [|done]. cbv [negb].
  rewrite batch_end_run by (rewrite Hits, length_drop; unfold queue_length; rewrite Hits; simpl; lia).
  rewrite Hits. cbn [take_while drop]. rewrite drop_0, joins_refl by done.
  set (run := take_while _ its).
  assert (Hle : length run ≤ length its).
  { subst run. rewrite <- (take_while_prefix (joins passthrough direct_setup c head) its) at 1.
    rewrite length_take. lia. }
  unfold shiftN. rewrite Hits. cbn [length]. set (n := Z.min _ _).
  assert (Hn : Z.to_nat n = S (length run)) by (subst n; lia).
  replace (n =? 0)%Z with false by (symmetry; apply Z.eqb_neq; lia).
  rewrite Hn. cbn [take drop]. unfold run. rewrite take_while_prefix. fold run.
  by rewrite foldl_bytes.
Qed.

(** The attributes the whole batch runs under. *)
Definition same_actor (c : Conversation) (m1 m2 : QueuedMessage) : Prop :=
  m1.(sourceActorPrincipalId) = m2.(sourceActorPrincipalId)
  ∧ sameTrustIdentity m1.(trustContext) m2.(trustContext) = true
  ∧ m1.(cronRunId) = m2.(cronRunId)
  ∧ interface_of m1 c = interface_of m2 c
  ∧ transport_field "clientOs" m1 = transport_field "clientOs" m2
  ∧ transport_field "visibleAppId" m1 = transport_field "visibleAppId" m2.

(** The actor as the comparison sees it. *)
Definition trust_identity (t : TrustContext) :=
  (t.(trustClass), t.(sourceChannel), t.(requesterExternalUserId), t.(requesterChatId),
   t.(requesterIdentifier), t.(requesterContactId), t.(guardianExternalUserId),
   t.(guardianPrincipalId)).

Lemma sameTrustIdentity_spec a b :
  sameTrustIdentity a b = true ↔ trust_identity <$> a = trust_identity <$> b.
Proof.
  destruct a as [a|], b as [b|]; simpl; try done. unfold trust_identity.
  rewrite !andb_true_iff, !bool_decide_eq_true. split; [intuition congruence|].
  intros [= ]. tauto.
Qed.

Lemma joins_same_actor c head m1 m2 :
  joins passthrough direct_setup c head m1 = true →
  joins passthrough direct_setup c head m2 = true → same_actor c m1 m2.
Proof.
  unfold joins, same_actor. rewrite !andb_true_iff, !bool_decide_eq_true, !sameTrustIdentity_spec.
  intuition congruence.
Qed.

(** A drained batch is the longest run at the front of the queue that may share a
    turn: its messages come off in order with the rest left in place, they are
    all plain text, and any two of them come from the same actor with the same
    privileges, in the same interface and schedule firing. The first message
    left behind is one that may not join. *)
Theorem batch_shares_actor c :
  let '(c', batch) := buildPassthroughBatch passthrough direct_setup c in
  batch ++ c'.(queue).(items) = c.(queue).(items)
  ∧ c'.(queue).(currentBytes) = (c.(queue).(currentBytes) - bytes_of batch)%Z
  ∧ (∀ m, m ∈ batch → batchable passthrough direct_setup c m = true)
  ∧ (∀ m1 m2, m1 ∈ batch → m2 ∈ batch → same_actor c m1 m2)
  ∧ (∀ head tails next rest, batch = head :: tails → c'.(queue).(items) = next :: rest →
     joins passthrough direct_setup c head next = false).
Proof.
  rewrite buildPassthroughBatch_run.
  destruct (c.(queue).(items)) as [|head its] eqn:Hits;
    [|destruct (batchable _ _ c head) eqn:Hb].
  1, 3: rewrite Hits; split_and!; [done | simpl; lia | set_solver | set_solver | done].
  set (batch := take_while _ _).
  pose proof (take_while_Forall (joins passthrough direct_setup c head) (head :: its)) as Hall.
  rewrite Forall_forall in Hall. fold batch in Hall. cbn [queue set_queue set_items items currentBytes].
  split_and!; [| done | | |].
  - rewrite <- (take_drop (length batch) (head :: its)) at 2. f_equal.
    symmetry. apply take_while_prefix.
  - intros m Hm%Hall. unfold joins in Hm. rewrite !andb_true_iff in Hm. tauto.
  - intros m1 m2 H1%Hall H2%Hall. by apply (joins_same_actor c head).
  - intros head' tails next rest Hhd Hnext.
    assert (head' = head) as ->.
    { unfold batch in Hhd. simpl in Hhd. rewrite joins_refl in Hhd by done. congruence. }
    by apply (take_while_next _ (head :: its) next rest).
Qed.
End Batch.

(** ** Requeueing *)

Lemma emit_queue sink ev c : (emit sink ev c).(queue) = c.(queue).
Proof. by destruct sink. Qed.

Lemma emit_repair sink ev c : (emit sink ev c).(repair) = c.(repair).
Proof. by destruct sink. Qed.

(** The events an emission adds. *)
Definition sent (sink : option string) (ev : ClientEvent) : list (string * ClientEvent) :=
  match sink with Some s => [(s, ev)] | None => [] end.

Lemma emit_events sink ev c : (emit sink ev c).(events) = c.(events) ++ sent sink ev.
Proof. destruct sink; simpl; [done|by rewrite app_nil_r]. Qed.

Lemma requeue_notice_queue c m : (requeue_notice c m).(queue) = c.(queue).
Proof. unfold requeue_notice. by repeat (case_match; rewrite ?emit_queue). Qed.

Lemma requeue_notices_queue ms c : (foldl requeue_notice c ms).(queue) = c.(queue).
Proof. revert c. induction ms as [|m ms IH]; intros c; [done|]. simpl. by rewrite IH, requeue_notice_queue. Qed.

Lemma unshift_all q ms :
  foldr unshift q ms
  = set_items (ms ++ q.(items)) (bytes_of ms + q.(currentBytes))%Z q.
Proof.
  induction ms as [|m ms IH]; [by destruct q|]. simpl. rewrite IH. unfold unshift, set_items.
  simpl. f_equal. lia.
Qed.

Lemma requeue_queue msgs steered c :
  (requeueDrainedMessages msgs steered c).(queue)
  = set_items ((set_announced false <$> msgs) ++ c.(queue).(items))
      (bytes_of (set_announced false <$> msgs) + c.(queue).(currentBytes))%Z c.(queue).
Proof.
  unfold requeueDrainedMessages. rewrite requeue_notices_queue.
  destruct steered; simpl; apply unshift_all.
Qed.

(** Nobody has been told that a message in the queue left it. *)
Definition none_announced (ms : list QueuedMessage) : Prop :=
  Forall (λ m, m.(dequeueAnnounced) = false) ms.

Lemma set_announced_id m : m.(dequeueAnnounced) = false → set_announced false m = m.
Proof. destruct m; simpl. by intros ->. Qed.

Lemma clear_none_announced ms : none_announced ms → set_announced false <$> ms = ms.
Proof.
  induction 1 as [|m ms Hm _ IH]; [done|]. rewrite fmap_cons, IH. by rewrite set_announced_id.
Qed.

(** ** A drain that fails *)

Section Failure.
Context (passthrough direct_setup : string → bool).

(** The turn throws without having touched the queue; it may have announced
    messages and sent events. *)
Definition throws (d : Dispatch) (err : DrainError) : Prop :=
  ∀ msgs steered c, ∃ c' msgs' es,
    d msgs steered c = (c', msgs', Some err) ∧ c'.(queue) = c.(queue)
    ∧ c'.(events) = c.(events) ++ es
    ∧ set_announced false <$> msgs' = set_announced false <$> msgs.

Lemma requeue_notices_events ms c :
  ∃ es, (foldl requeue_notice c ms).(events) = c.(events) ++ es.
Proof.
  revert c. induction ms as [|m ms IH]; intros c; simpl; [exists []; by rewrite app_nil_r|].
  destruct (IH (requeue_notice c m)) as [es ->].
  assert (∃ es', (requeue_notice c m).(events) = c.(events) ++ es') as [es' ->].
  { unfold requeue_notice. repeat case_match; rewrite ?emit_events; eauto using app_nil_r.
    all: exists []; by rewrite app_nil_r. }
  exists (es' ++ es). by rewrite app_assoc.
Qed.

Lemma requeue_events msgs steered c :
  ∃ es, (requeueDrainedMessages msgs steered c).(events) = c.(events) ++ es.
Proof.
  unfold requeueDrainedMessages. destruct steered;
    apply (requeue_notices_events msgs (set_repair _ (set_queue _ c)))
    || apply (requeue_notices_events msgs (set_queue _ c)).
Qed.

(** A dispatch of the front of the queue that throws a new error puts the queue
    back as it was. *)
Lemma dispatch_restores d err msgs steered restored c its0 bytes0 :
  throws d err → already_restored restored err = false → none_announced msgs →
  its0 = msgs ++ c.(queue).(items) → bytes0 = (c.(queue).(currentBytes) + bytes_of msgs)%Z →
  ∃ c' es, dispatchDrainWithRestore d msgs steered restored c
           = (c', mark_restored restored err, Some err)
    ∧ c'.(queue) = set_items its0 bytes0 c.(queue) ∧ c'.(events) = c.(events) ++ es.
Proof.
  intros Hd Hnew Hmsgs -> ->. destruct (Hd msgs steered c) as (c1 & msgs' & es & Heq & Hq & Hev & Hms).
  unfold dispatchDrainWithRestore. rewrite Heq, Hnew.
  destruct (requeue_events msgs' steered c1) as [es' Hes'].
  eexists _, (es ++ es'). split; [done|]. split.
  - rewrite requeue_queue, Hms, Hq, (clear_none_announced msgs) by done. f_equal. lia.
  - by rewrite Hes', Hev, app_assoc.
Qed.

Lemma set_items_same its bytes q q' :
  q'.(items) = its → q'.(currentBytes) = bytes → q'.(maxBytes) = q.(maxBytes) →
  set_items its bytes q = q'.
Proof. destruct q'; simpl. by intros -> -> ->. Qed.

(** One attempt that fails leaves the queue as it found it. *)
Lemma drain_restores attempt err restored c :
  throws attempt.(dispatch) err → already_restored restored err = false →
  none_announced c.(queue).(items) →
  ∃ c' restored' thrown es, drainQueue passthrough direct_setup attempt restored c
                            = (c', restored', thrown)
    ∧ c'.(queue) = c.(queue) ∧ c'.(events) = c.(events) ++ es
    ∧ (restored' = restored ∨ restored' = mark_restored restored err)
    ∧ (thrown = None → c.(queue).(items) = [] ∧ es = []).
Proof.
  intros Hd Hnew Hnone. unfold drainQueue.
  destruct (repairInterruptedToolUseBlocks _ _ _ _) as [r [|]].
  { eexists _, _, _, []. split; [done|]. simpl. rewrite app_nil_r. split_and!; [done..|by left|done]. }
  set (c1 := set_repair r c). change c.(queue) with c1.(queue) in *.
  change c.(events) with c1.(events).
  assert (Hshift : ∀ steered, ∃ c' restored' thrown es,
    match shift c1.(queue) with
    | (_, None) => (c1, restored, None)
    | (q, Some next) =>
        dispatchDrainWithRestore attempt.(dispatch) [next] steered restored (set_queue q c1)
    end = (c', restored', thrown)
    ∧ c'.(queue) = c1.(queue) ∧ c'.(events) = c1.(events) ++ es
    ∧ (restored' = restored ∨ restored' = mark_restored restored err)
    ∧ (thrown = None → c1.(queue).(items) = [] ∧ es = [])).
  { intros steered. unfold shift. destruct (c1.(queue).(items)) as [|next rest] eqn:Hits.
    { eexists _, _, _, []. rewrite app_nil_r. split_and!; [done..|by left|done]. }
    edestruct (dispatch_restores attempt.(dispatch) err [next] steered restored
      (set_queue (set_items rest (currentBytes (queue c1) - estimateItemBytes next) (queue c1)) c1))
      as (c' & es & -> & Hq & Hev); [done|done| |done|done|].
    { by apply Forall_cons in Hnone as [? _]; repeat constructor. }
    eexists _, _, _, es. split; [done|]. split_and!; [|done|by right|done].
    rewrite Hq. apply set_items_same; simpl; [done|lia|done]. }
  destruct (pendingSteerRepair (repair c)); [apply Hshift|].
  rewrite buildPassthroughBatch_run. destruct (c1.(queue).(items)) as [|head its] eqn:Hits;
    [apply Hshift|]. destruct (batchable _ _ c1 head) eqn:Hb; [|apply Hshift].
  set (batch := take_while _ _). cbv zeta.
  pose proof (take_while_prefix (joins passthrough direct_setup c1 head) (head :: its)) as Hpre.
  fold batch in Hpre. assert (Hne : batch ≠ []).
  { unfold batch. simpl. by rewrite joins_refl. }
  edestruct (dispatch_restores attempt.(dispatch) err batch false restored
    (set_queue (set_items (drop (length batch) (head :: its))
       (currentBytes (queue c1) - bytes_of batch) (queue c1)) c1) (head :: its))
    as (c' & es & Hrun & Hq & Hev); [done|done| | |done|].
  { rewrite <- Hpre. by apply Forall_take. }
  { simpl. rewrite <- Hpre at 1. by rewrite take_drop. }
  exists c', (mark_restored restored err), (Some err), es. destruct batch; [done|].
  split; [done|]. split_and!; [|done|by right|done].
  rewrite Hq. apply set_items_same; simpl; [done|lia|done].
Qed.

Lemma stranded_notices ms c :
  (foldl stranded_notice c ms).(queue) = c.(queue)
  ∧ (foldl stranded_notice c ms).(events)
    = c.(events) ++ (ms ≫= λ m, sent m.(onEvent) (queue_drain_failed m.(requestId))).
Proof.
  revert c. induction ms as [|m ms IH]; intros c; csimpl; [by rewrite app_nil_r|].
  destruct (IH (stranded_notice c m)) as [-> ->]. unfold stranded_notice.
  rewrite emit_queue, emit_events. by rewrite app_assoc.
Qed.

(** C34: A drain that keeps failing loses nothing: when the turn throws on the first
    attempt and on the retry, each time with an error object of its own (the two
    differ and neither has been handled before) and leaving the queue alone,
    and no waiting message has been announced, the queue is what it was, message
    for message, in order and to the byte, and every sender with a visible row
    is told that the message is still waiting. *)
Theorem failed_drain_keeps_queue first retry err1 err2 restored c :
  throws first.(dispatch) err1 → throws retry.(dispatch) err2 →
  already_restored restored err1 = false →
  already_restored (mark_restored restored err1) err2 = false →
  none_announced c.(queue).(items) →
  let '(c', _) := kickQueueDrain passthrough direct_setup first retry restored c in
  c'.(queue) = c.(queue)
  ∧ ∃ es, c'.(events) = c.(events) ++ es
      ++ (List.filter visible c.(queue).(items) ≫= λ m,
            sent m.(onEvent) (queue_drain_failed m.(requestId))).
Proof.
  intros H1 H2 Hnew1 Hnew2 Hnone. unfold kickQueueDrain.
  destruct (drain_restores first err1 restored c) as (c1 & r1 & t1 & es1 & -> & Hq1 & Hev1 & Hr1 & Hn1);
    [done..|].
  destruct t1 as [e1|]; [|destruct Hn1 as [Hnil ->]; [done|]].
  2: { split; [done|]. exists []. rewrite Hev1, Hnil. by rewrite !app_nil_r. }
  destruct (drain_restores retry err2 r1 c1) as (c2 & r2 & t2 & es2 & -> & Hq2 & Hev2 & _ & Hn2);
    [done| |by rewrite Hq1|].
  { destruct Hr1 as [-> | ->]; [|done]. destruct err1, err2; try done. simpl in *.
    apply mem_false in Hnew2. apply mem_false. intros Hin. apply Hnew2, elem_of_set_add. by right. }
  destruct t2 as [e2|]; [|destruct Hn2 as [Hnil ->]; [done|]].
  - destruct (stranded_notices (List.filter visible (snapshot (queue c2))) c2) as [-> ->].
    split; [congruence|]. exists (es1 ++ es2). unfold snapshot. rewrite Hq2, Hq1, Hev2, Hev1.
    by rewrite !app_assoc.
  - split; [congruence|]. exists es1. rewrite Hq1 in Hnil. rewrite Hev2, Hev1, Hnil.
    by rewrite !app_nil_r.
Qed.
End Failure.

(** ** What the clients see

    A client keeps the ids of the rows it shows as queued: [message_queued] and
    [message_requeued] add one, [message_dequeued] and [message_queued_deleted]
    take one away. *)
Definition view_step (rows : gset string) (e : string * ClientEvent) : gset string :=
  match e.2 with
  | message_queued id _ _ | message_requeued id _ _ => {[id]} ∪ rows
  | message_dequeued id _ | message_queued_deleted id _ => rows ∖ {[id]}
  | generation_cancelled | queue_full | queue_drain_failed _ => rows
  end.

Definition client_view (c : Conversation) : gset string := foldl view_step ∅ c.(events).

(** The conversation with the messages that drains have taken off its queue and
    not yet dealt with, and those a drain gave up without a word to anyone. *)
Record System := {
  conversation : Conversation;
  popped : list QueuedMessage;
  dropped : list QueuedMessage
}.

(** A sender listens and the row is not suppressed. *)
Definition shown (m : QueuedMessage) : bool :=
  visible m && match m.(onEvent) with Some _ => true | None => false end.

Definition all_ids (c : Conversation) (ps : list QueuedMessage) : list string :=
  requestId <$> c.(queue).(items) ++ ps.

Section Steps.
Context (passthrough direct_setup : string → bool) (channels : list string).

(** The operations interleave at every [await]. A drain may run on any part of what
    was taken off the queue. A message is dealt with ([step_settle]: its turn took
    over, or failed with an error to the sender) once announced, or if it has no
    row. Messages taken and not announced are dropped ([step_drop]) by a batch
    that an abort stops half way, and by a drain that throws an error already
    handled once. *)
Inductive sys_step : System → System → Prop :=
  | step_enqueue freshId now options c ps ds :
      (queued_item channels freshId now options c).(requestId) ∉ all_ids c (ps ++ ds) →
      sys_step {| conversation := c; popped := ps; dropped := ds |}
        {| conversation := (enqueueMessage channels freshId now options c).1; popped := ps; dropped := ds |}
  | step_batch c ps ds :
      sys_step {| conversation := c; popped := ps; dropped := ds |}
        {| conversation := (buildPassthroughBatch passthrough direct_setup c).1; popped := ps ++ (buildPassthroughBatch passthrough direct_setup c).2; dropped := ds |}
  | step_shift c ps ds q next :
      shift c.(queue) = (q, Some next) →
      sys_step {| conversation := c; popped := ps; dropped := ds |}
        {| conversation := set_queue q c; popped := ps ++ [next]; dropped := ds |}
  | step_promote id c ps ds :
      sys_step {| conversation := c; popped := ps; dropped := ds |}
        {| conversation := set_queue (promoteToHead id c.(queue)).1 c; popped := ps; dropped := ds |}
  | step_announce c p1 m p2 ds :
      sys_step {| conversation := c; popped := p1 ++ m :: p2; dropped := ds |}
        {| conversation := (announceDequeue m c).1; popped := p1 ++ (announceDequeue m c).2 :: p2; dropped := ds |}
  | step_requeue steered c p1 msgs p2 ds :
      sys_step {| conversation := c; popped := p1 ++ msgs ++ p2; dropped := ds |}
        {| conversation := requeueDrainedMessages msgs steered c; popped := p1 ++ p2; dropped := ds |}
  | step_settle c p1 m p2 ds :
      m.(dequeueAnnounced) = true ∨ visible m = false →
      sys_step {| conversation := c; popped := p1 ++ m :: p2; dropped := ds |}
        {| conversation := c; popped := p1 ++ p2; dropped := ds |}
  | step_drop c p1 tails p2 ds :
      none_announced tails →
      sys_step {| conversation := c; popped := p1 ++ tails ++ p2; dropped := ds |}
        {| conversation := c; popped := p1 ++ p2; dropped := ds ++ tails |}
  | step_delete id actorPrincipalId c c' result ps ds :
      deleteQueuedMessage id actorPrincipalId (Some c) = (Some c', result) →
      sys_step {| conversation := c; popped := ps; dropped := ds |}
        {| conversation := c'; popped := ps; dropped := ds |}
  | step_discard c ps ds :
      sys_step {| conversation := c; popped := ps; dropped := ds |}
        {| conversation := discardQueueOnAbort c; popped := ps; dropped := ds |}
  | step_other c c' ps ds :
      c'.(queue) = c.(queue) → c'.(events) = c.(events) →
      sys_step {| conversation := c; popped := ps; dropped := ds |}
        {| conversation := c'; popped := ps; dropped := ds |}.

(** The rows that should be on screen: what waits in the queue, and what a drain
    took without having said so. *)
Definition waiting (c : Conversation) (ps : list QueuedMessage) (m : QueuedMessage) : Prop :=
  m ∈ c.(queue).(items) ∨ (m ∈ ps ∧ m.(dequeueAnnounced) = false).

Definition row (c : Conversation) (ps : list QueuedMessage) (id : string) : Prop :=
  ∃ m, waiting c ps m ∧ shown m = true ∧ m.(requestId) = id.

Record Inv (c : Conversation) (ps : list QueuedMessage) : Prop := {
  inv_ids : NoDup (all_ids c ps);
  inv_fresh : none_announced c.(queue).(items);
  inv_view : ∀ id, id ∈ client_view c ↔ row c ps id
}.

Lemma view_emit sink ev c :
  client_view (emit sink ev c)
  = match sink with Some s => view_step (client_view c) (s, ev) | None => client_view c end.
Proof.
  unfold client_view. rewrite emit_events. destruct sink as [s|]; simpl;
    [by rewrite foldl_app|by rewrite app_nil_r].
Qed.

Lemma shown_set_announced b m : shown (set_announced b m) = shown m.
Proof. done. Qed.

Lemma shown_true m :
  shown m = true ↔ isSuppressedQueuedMessage m.(metadata) = false ∧ ∃ s, m.(onEvent) = Some s.
Proof.
  unfold shown, visible. rewrite andb_true_iff, negb_true_iff.
  destruct (onEvent m); naive_solver.
Qed.

Lemma announced_in_queue c ps m :
  Inv c ps → m ∈ c.(queue).(items) → m.(dequeueAnnounced) = false.
Proof. intros [_ H _]. revert m. by apply Forall_forall. Qed.

(** A message is told apart by its id. *)
Lemma same_id c ps m1 m2 :
  NoDup (all_ids c ps) → m1 ∈ c.(queue).(items) ++ ps → m2 ∈ c.(queue).(items) ++ ps →
  m1.(requestId) = m2.(requestId) → m1 = m2.
Proof.
  unfold all_ids. generalize (c.(queue).(items) ++ ps) as l. intros l Hnd H1 H2 Heq.
  induction l as [|x l IH]; [by apply not_elem_of_nil in H1|].
  rewrite fmap_cons in Hnd. apply NoDup_cons in Hnd as [Hx Hnd].
  apply elem_of_cons in H1 as [->|H1], H2 as [->|H2]; [done| | |by apply IH].
  - exfalso. apply Hx. rewrite Heq. by apply list_elem_of_fmap_2.
  - exfalso. apply Hx. rewrite <- Heq. by apply list_elem_of_fmap_2.
Qed.

(** Messages move from the queue to the drain, or change places in the queue. *)
Lemma inv_move c c' ps ps' taken :
  Inv c ps → c'.(events) = c.(events) → c.(queue).(items) ≡ₚ taken ++ c'.(queue).(items) →
  ps' = ps ++ taken → Inv c' ps'.
Proof.
  intros [Hids Hfresh Hview] Hev Hits ->. split.
  - unfold all_ids in *. rewrite Hits in Hids.
    eapply NoDup_Permutation_proper; [|exact Hids]. apply fmap_Permutation. solve_Permutation.
  - unfold none_announced in *. rewrite Hits in Hfresh. by apply Forall_app in Hfresh as [_ ?].
  - intros id. unfold client_view. rewrite Hev. fold (client_view c). rewrite Hview.
    unfold row, waiting. setoid_rewrite Hits. setoid_rewrite elem_of_app.
    assert (∀ m, m ∈ taken → dequeueAnnounced m = false).
    { apply Forall_forall. unfold none_announced in Hfresh. rewrite Hits in Hfresh.
      by apply Forall_app in Hfresh as [? _]. }
    naive_solver.
Qed.

Lemma ids_middle c p1 m p2 :
  NoDup (all_ids c (p1 ++ m :: p2)) →
  requestId m ∉ all_ids c (p1 ++ p2) ∧ NoDup (all_ids c (p1 ++ p2)).
Proof.
  intros H. apply NoDup_cons. unfold all_ids in *. rewrite <- fmap_cons.
  eapply NoDup_Permutation_proper; [|exact H]. apply fmap_Permutation. solve_Permutation.
Qed.

Lemma inv_announce c p1 m p2 :
  Inv c (p1 ++ m :: p2) →
  Inv (announceDequeue m c).1 (p1 ++ (announceDequeue m c).2 :: p2).
Proof.
  intros HI. unfold announceDequeue. destruct (isSuppressedQueuedMessage _) eqn:Hs; [done|].
  cbn [fst snd]. destruct HI as [Hids Hfresh Hview]. split.
  - unfold all_ids in *. rewrite emit_queue. revert Hids. by rewrite !fmap_app, !fmap_cons.
  - by rewrite emit_queue.
  - intros id. rewrite view_emit.
    assert (Hrow : row (emit (onEvent m) (message_dequeued (requestId m) (client_id m)) c)
                     (p1 ++ set_announced true m :: p2) id
                   ↔ row c (p1 ++ m :: p2) id ∧ (shown m = true → id ≠ requestId m)).
    { unfold row, waiting. rewrite emit_queue. split.
      - intros (x & Hx & Hsh & <-). assert (Hin : x ∈ c.(queue).(items) ∨
          (x ∈ p1 ++ p2 ∧ dequeueAnnounced x = false)).
        { destruct Hx as [?|[Hx Ha]]; [by left|]. right. split; [|done].
          apply elem_of_app in Hx as [?|Hx]; [set_solver|].
          apply elem_of_cons in Hx as [-> |?]; [done|set_solver]. }
        split; [exists x; set_solver|]. intros _ Heq.
        apply (proj1 (ids_middle _ _ _ _ Hids)). rewrite <- Heq.
        apply list_elem_of_fmap_2. set_solver.
      - intros [(x & Hx & Hsh & <-) Hne]. exists x. split; [|done].
        destruct Hx as [?|[Hx Ha]]; [by left|]. right. split; [|done].
        apply elem_of_app in Hx as [?|Hx]; [set_solver|].
        apply elem_of_cons in Hx as [-> |?]; [by destruct (Hne Hsh)|set_solver]. }
    rewrite Hrow, <- Hview. unfold view_step, shown, visible. rewrite Hs.
    destruct (onEvent m); simpl; set_solver.
Qed.

Lemma visible_position_Some id its position m :
  m ∈ its → isSuppressedQueuedMessage m.(metadata) = false → m.(requestId) = id →
  is_Some (visible_position id position its).
Proof.
  intros Hm Hs <-. revert position. induction its as [|x its IH]; intros position;
    [by apply not_elem_of_nil in Hm|].
  simpl. apply elem_of_cons in Hm as [<- |Hm].
  - rewrite Hs, String.eqb_refl. by eexists.
  - repeat case_match; [by apply IH|by eexists|by apply IH].
Qed.

(** The corrective events put exactly the announced rows back on screen. *)
Lemma view_requeue_notices ms c id :
  (∀ m, m ∈ ms → ∃ m', m' ∈ c.(queue).(items) ∧ m'.(requestId) = m.(requestId)
                       ∧ m'.(metadata) = m.(metadata)) →
  id ∈ client_view (foldl requeue_notice c ms) ↔
  id ∈ client_view c
  ∨ ∃ m, m ∈ ms ∧ m.(dequeueAnnounced) = true ∧ shown m = true ∧ m.(requestId) = id.
Proof.
  revert c. induction ms as [|m ms IH]; intros c Hin; simpl; [set_solver|].
  rewrite IH by (rewrite requeue_notice_queue; set_solver).
  setoid_rewrite elem_of_cons.
  assert (Hone : id ∈ client_view (requeue_notice c m) ↔
    id ∈ client_view c ∨ (m.(dequeueAnnounced) = true ∧ shown m = true ∧ m.(requestId) = id)).
  { unfold requeue_notice. destruct (dequeueAnnounced m); simpl; [|naive_solver].
    rewrite shown_true. destruct (isSuppressedQueuedMessage (metadata m)) eqn:Hs; [naive_solver|].
    destruct (Hin m ltac:(by left)) as (m' & Hm' & Hid & Hmd).
    destruct (visible_position_Some (requestId m) c.(queue).(items) 0 m') as [p Hp];
      [done|by rewrite Hmd|done|].
    unfold visibleQueuePosition, snapshot. rewrite Hp, view_emit.
    destruct (onEvent m) as [s|]; unfold view_step; simpl; set_solver. }
  rewrite Hone. naive_solver.
Qed.

Lemma inv_requeue steered c p1 msgs p2 :
  Inv c (p1 ++ msgs ++ p2) → Inv (requeueDrainedMessages msgs steered c) (p1 ++ p2).
Proof.
  intros [Hids Hfresh Hview].
  assert (Hq := requeue_queue msgs steered c).
  assert (Hits : (requeueDrainedMessages msgs steered c).(queue).(items)
                 = (set_announced false <$> msgs) ++ c.(queue).(items)) by (by rewrite Hq).
  split.
  - unfold all_ids in *. rewrite Hits.
    assert (Heq : requestId <$> (set_announced false <$> msgs) = requestId <$> msgs)
      by (rewrite <- list_fmap_compose; done).
    rewrite !fmap_app in *. rewrite Heq.
    eapply NoDup_Permutation_proper; [|exact Hids]. solve_Permutation.
  - rewrite Hits. apply Forall_app. split; [|done]. apply Forall_fmap. by apply Forall_forall.
  - intros id.
    transitivity (id ∈ client_view c ∨
      ∃ m, m ∈ msgs ∧ m.(dequeueAnnounced) = true ∧ shown m = true ∧ m.(requestId) = id).
    { unfold requeueDrainedMessages. rewrite view_requeue_notices.
      - by destruct steered.
      - intros m Hm. exists (set_announced false m). split; [|done].
        destruct steered; cbn [queue set_queue set_repair]; rewrite unshift_all;
          apply elem_of_app; left; by apply list_elem_of_fmap_2. }
    rewrite Hview. unfold row, waiting. rewrite Hits. split.
    + intros [(m & Hw & Hsh & Hid)|(m & Hm & Ha & Hsh & Hid)].
      * destruct Hw as [?|[Hin Ha]]; [exists m; set_solver|].
        rewrite !elem_of_app in Hin. destruct Hin as [?|[Hin|?]]; [exists m; set_solver| |exists m; set_solver].
        exists (set_announced false m). split_and!; [|done|done].
        left. apply elem_of_app. left. by apply list_elem_of_fmap_2.
      * exists (set_announced false m). split_and!; [|done|done].
        left. apply elem_of_app. left. by apply list_elem_of_fmap_2.
    + intros (x & [Hx|[Hx Ha]] & Hsh & Hid).
      * apply elem_of_app in Hx as [Hx|Hx]; [|left; exists x; tauto].
        apply list_elem_of_fmap in Hx as (m & -> & Hm).
        destruct (dequeueAnnounced m) eqn:Ha; [right; exists m; done|].
        left. exists m. split_and!; [right; set_solver|done|done].
      * left. exists x. set_solver.
Qed.

Lemma inv_settle c p1 m p2 :
  m.(dequeueAnnounced) = true ∨ visible m = false →
  Inv c (p1 ++ m :: p2) → Inv c (p1 ++ p2).
Proof.
  intros Hm [Hids Hfresh Hview]. split; [|done|].
  - apply (proj2 (ids_middle _ _ _ _ Hids)).
  - intros id. rewrite Hview. unfold row, waiting. split; intros (x & Hx & Hsh & Hid); exists x;
      (split; [|done]); [|set_solver].
    destruct Hx as [?|[Hx Ha]]; [by left|]. right. split; [|done].
    apply elem_of_app in Hx as [?|Hx]; [set_solver|].
    apply elem_of_cons in Hx as [-> |?]; [|set_solver].
    destruct Hm as [?|Hm]; [congruence|]. unfold shown in Hsh. by rewrite Hm in Hsh.
Qed.

Lemma extract_perm id ms m rest :
  extract id ms = Some (m, rest) → ms ≡ₚ m :: rest ∧ m.(requestId) = id.
Proof.
  revert rest. induction ms as [|x ms IH]; intros rest; [done|]. simpl. case_decide.
  - intros [= <- <-]. done.
  - destruct (extract id ms) as [[y r]|]; [|done]. intros [= <- <-].
    destruct (IH r eq_refl) as [Hp ?]. split; [|done]. rewrite Hp. solve_Permutation.
Qed.

Lemma remove_items id q m rest :
  extract id q.(items) = Some (m, rest) → (removeByRequestId id q).1.(items) = rest.
Proof.
  rewrite extract_index. unfold removeByRequestId.
  destruct (first_index _ _) as [i|]; [|done]. destruct (_ !! i); [|done]. by intros [= <- <-].
Qed.

Lemma promote_items id q : (promoteToHead id q).1.(items) ≡ₚ q.(items).
Proof.
  unfold promoteToHead. destruct (first_index _ _) as [[|i]|]; [done| |done].
  destruct (q.(items) !! S i) as [m|] eqn:Hm; [|done]. simpl. unfold splice_one.
  rewrite <- (take_drop_middle _ _ _ Hm) at 3. by rewrite Permutation_middle.
Qed.

(** One message leaves the queue and its row, if it has one, the screen. *)
Lemma inv_remove c ps m rest c' :
  Inv c ps → c.(queue).(items) ≡ₚ m :: rest → c'.(queue).(items) = rest →
  client_view c' = (if shown m then client_view c ∖ {[m.(requestId)]} else client_view c) →
  Inv c' ps.
Proof.
  intros [Hids Hfresh Hview] Hperm Hits Hv.
  assert (Hids' : NoDup (requestId m :: (requestId <$> rest ++ ps))).
  { unfold all_ids in Hids. by rewrite Hperm in Hids. }
  apply NoDup_cons in Hids' as [Hno Hids']. split.
  - unfold all_ids. by rewrite Hits.
  - unfold none_announced in *. rewrite Hperm in Hfresh. rewrite Hits.
    by apply Forall_cons in Hfresh as [_ ?].
  - intros id. rewrite Hv.
    assert (Hrow : row c' ps id ↔ row c ps id ∧ (shown m = true → id ≠ requestId m)).
    { unfold row, waiting. rewrite Hits. setoid_rewrite Hperm. setoid_rewrite elem_of_cons.
      split.
      - intros (x & Hx & Hsh & <-). split; [exists x; tauto|]. intros _ Heq. apply Hno.
        rewrite <- Heq. apply list_elem_of_fmap_2, elem_of_app. tauto.
      - intros [(x & Hx & Hsh & <-) Hne]. exists x. split; [|done].
        destruct Hx as [[->|?]|?]; [by destruct (Hne Hsh)|tauto|tauto]. }
    rewrite Hrow, <- Hview. destruct (shown m); set_solver.
Qed.

Lemma view_deleted m cid c :
  client_view (if isSuppressedQueuedMessage m.(metadata) then c
               else emit m.(onEvent) (message_queued_deleted m.(requestId) cid) c)
  = if shown m then client_view c ∖ {[m.(requestId)]} else client_view c.
Proof.
  unfold shown, visible. destruct (isSuppressedQueuedMessage _); [done|].
  rewrite view_emit. by destruct (onEvent m).
Qed.

Lemma inv_delete id actorPrincipalId c c' result ps :
  deleteQueuedMessage id actorPrincipalId (Some c) = (Some c', result) → Inv c ps → Inv c' ps.
Proof.
  unfold deleteQueuedMessage, findByRequestId. intros Hdel HI. revert Hdel.
  rewrite <- extract_find. destruct (extract id c.(queue).(items)) as [[m rest]|] eqn:E; simpl;
    [|by intros [= <- _]].
  destruct (mayActOnQueuedMessage m actorPrincipalId); simpl; [|by intros [= <- _]].
  intros [= <- _]. pose proof (extract_perm _ _ _ _ E) as [Hperm <-].
  apply (inv_remove c ps m rest); [done|done| |].
  - destruct (isSuppressedQueuedMessage _); [|rewrite emit_queue]; simpl; by apply (remove_items (requestId m) _ m).
  - by rewrite view_deleted.
Qed.

(** Discarding tells every listener about its row. *)
Lemma discard_notice_queue c m : (discard_notice c m).(queue) = c.(queue).
Proof. unfold discard_notice. case_match; by rewrite ?emit_queue. Qed.

Lemma view_discard_notices ms c :
  client_view (foldl discard_notice c ms)
  = client_view c ∖ list_to_set (requestId <$> List.filter shown ms).
Proof.
  revert c. induction ms as [|m ms IH]; intros c; simpl; [set_solver|]. rewrite IH.
  unfold discard_notice. rewrite view_deleted.
  replace (client_view (emit (onEvent m) generation_cancelled c)) with (client_view c)
    by (rewrite view_emit; by destruct (onEvent m)).
  destruct (shown m); [rewrite fmap_cons; set_solver|done].
Qed.

Lemma inv_discard c ps : Inv c ps → Inv (discardQueueOnAbort c) ps.
Proof.
  intros [Hids Hfresh Hview]. unfold discardQueueOnAbort, snapshot. split.
  - unfold all_ids in *. simpl. rewrite fmap_app in Hids. by apply NoDup_app in Hids as (_ & _ & ?).
  - constructor.
  - intros id. change (client_view (set_queue ?q ?c)) with (client_view c).
    rewrite view_discard_notices, elem_of_difference, Hview, elem_of_list_to_set.
    unfold row, waiting. simpl. split.
    + intros [(m & [Hm|?] & Hsh & <-) Hno]; [|exists m; tauto]. destruct Hno.
      apply list_elem_of_fmap_2, elem_of_lfilter. done.
    + intros (m & [Hm|[Hm Ha]] & Hsh & <-); [by apply not_elem_of_nil in Hm|].
      split; [exists m; tauto|]. intros (m' & Heq & [Hm' _]%elem_of_lfilter)%list_elem_of_fmap.
      unfold all_ids in Hids. rewrite fmap_app in Hids. apply NoDup_app in Hids as (_ & Hdisj & _).
      apply (Hdisj (requestId m)); [rewrite Heq|]; by apply list_elem_of_fmap_2.
Qed.

Lemma inv_enqueue freshId now options c ps :
  (queued_item channels freshId now options c).(requestId) ∉ all_ids c ps →
  Inv c ps → Inv (enqueueMessage channels freshId now options c).1 ps.
Proof.
  intros Hnew HI. unfold enqueueMessage.
  set (item := queued_item channels freshId now options c) in *.
  destruct (negb _ && negb _); [done|].
  assert (Hpush : push item c.(queue) = (c.(queue), false)
    ∨ push item c.(queue) = (set_items (c.(queue).(items) ++ [item])
        (c.(queue).(currentBytes) + estimateItemBytes item)%Z c.(queue), true)).
  { unfold push. destruct (_ && _); [by left|by right]. }
  destruct HI as [Hids Hfresh Hview]. destruct Hpush as [-> | ->]; cbn [negb fst].
  { split; unfold all_ids; rewrite ?emit_queue; [done|done|]. intros id.
    transitivity (row c ps id); [|unfold row, waiting; by rewrite emit_queue].
    rewrite <- Hview, view_emit. by destruct (onEvent item). }
  set (c1 := set_queue _ c).
  assert (Hq : ∀ c2, c2.(queue) = c1.(queue) →
    client_view c2 = (if shown item then {[requestId item]} ∪ client_view c else client_view c) →
    Inv c2 ps).
  { intros c2 Hq Hv. split.
    - unfold all_ids in *. rewrite Hq. simpl. rewrite <- app_assoc. simpl.
      rewrite <- Permutation_middle. rewrite fmap_cons. by constructor.
    - rewrite Hq. apply Forall_app. split; [done|]. by repeat constructor.
    - intros id. rewrite Hv. unfold row, waiting. rewrite Hq. simpl.
      setoid_rewrite elem_of_app. setoid_rewrite list_elem_of_singleton.
      destruct (shown item) eqn:Hsh; [rewrite elem_of_union, elem_of_singleton|];
        rewrite Hview; unfold row, waiting.
      + split; [intros [-> |(m & ? & ?)]; [exists item|exists m]; tauto|].
        intros (m & [[?| ->]|?] & ? & <-); [right; exists m; tauto|by left|right; exists m; tauto].
      + split; [intros (m & ? & ?); exists m; tauto|].
        intros (m & [[?| ->]|?] & ? & ?); [exists m; tauto|congruence|exists m; tauto]. }
  change (metadata item) with (opt_metadata options) in *.
  destruct (isSuppressedQueuedMessage (opt_metadata options)) eqn:Hs; cbn [fst]; apply Hq; try done.
  - unfold shown, visible. change (metadata item) with (opt_metadata options). by rewrite Hs.
  - by rewrite emit_queue.
  - rewrite view_emit. unfold shown, visible. change (metadata item) with (opt_metadata options).
    rewrite Hs. by destruct (onEvent item).
Qed.

Lemma inv_permutation c ps ps' : ps ≡ₚ ps' → Inv c ps → Inv c ps'.
Proof.
  intros Hp [Hids Hfresh Hview]. split; [|done|].
  - unfold all_ids in *. by rewrite <- Hp.
  - intros id. rewrite Hview. unfold row, waiting. by setoid_rewrite Hp.
Qed.

Lemma sys_step_inv s s' :
  sys_step s s' → Inv s.(conversation) (s.(popped) ++ s.(dropped)) →
  Inv s'.(conversation) (s'.(popped) ++ s'.(dropped)).
Proof.
  intros Hstep HI. destruct Hstep; simpl in *; rewrite <- ?app_assoc in *; simpl in *.
  - by apply inv_enqueue.
  - rewrite buildPassthroughBatch_run.
    destruct (c.(queue).(items)) as [|head its] eqn:Hits; [done|].
    destruct (batchable _ _ c head); [|done]. cbn [fst snd].
    eapply inv_permutation; [|eapply (inv_move c); [exact HI|done| |reflexivity]].
    + rewrite <- !app_assoc. apply Permutation_app_head, Permutation_app_comm.
    + rewrite Hits. simpl items.
      rewrite <- (take_while_prefix (joins passthrough direct_setup c head) (head :: its)) at 1.
      by rewrite take_drop.
  - unfold shift in H. destruct (c.(queue).(items)) as [|m rest] eqn:Hits; [done|].
    injection H as <- <-.
    eapply inv_permutation; [|eapply (inv_move c _ _ _ [m]); [exact HI|done|by rewrite Hits|reflexivity]].
    rewrite <- app_assoc. apply Permutation_app_head, Permutation_app_comm.
  - eapply (inv_move c _ _ _ []); [exact HI|done| |by rewrite app_nil_r].
    simpl. by rewrite promote_items.
  - by apply inv_announce.
  - by apply inv_requeue.
  - by apply (inv_settle c p1 m).
  - revert HI. apply inv_permutation. solve_Permutation.
  - by apply (inv_delete id actorPrincipalId c c' result).
  - by apply inv_discard.
  - eapply (inv_move c _ _ _ []); [exact HI|done| |by rewrite app_nil_r]. by rewrite H.
Qed.

(** What is dropped was never announced. *)
Lemma dropped_unannounced s s' :
  rtc sys_step s s' → none_announced s.(dropped) → none_announced s'.(dropped).
Proof.
  induction 1 as [|s1 s2 s3 Hstep _ IH]; [done|]. intros H1. apply IH.
  destruct Hstep; simpl in *; try done. by apply Forall_app.
Qed.

(** C22: What the clients show is the queue, and nothing else but what a drain
    dropped. Whatever interleaving of sends, deletes, steers, drains,
    announcements, failed drains and aborts has happened since the conversation
    had neither messages nor events, the rows a client shows as queued (computed
    from the events alone) are exactly the visible messages still waiting (those
    in the queue, and those a drain has taken without having announced it)
    together with the visible messages that were taken and then dropped
    unannounced, by a batch stopped by an abort or a drain whose error had been
    handled before; only such a drop leaves a row behind, and no row is ever
    lost. *)
Theorem clients_see_queue c0 s :
  c0.(queue).(items) = [] → c0.(events) = [] →
  rtc sys_step {| conversation := c0; popped := []; dropped := [] |} s →
  ∀ id, id ∈ client_view s.(conversation) ↔
        ∃ m, (m ∈ s.(conversation).(queue).(items)
              ∨ (m ∈ s.(popped) ∧ m.(dequeueAnnounced) = false)
              ∨ m ∈ s.(dropped))
             ∧ shown m = true ∧ m.(requestId) = id.
Proof.
  intros Hits Hev Hsteps.
  assert (HI : Inv s.(conversation) (s.(popped) ++ s.(dropped))).
  { assert (H0 : Inv c0 ([] ++ [])).
    { split; unfold all_ids, none_announced; rewrite ?Hits; [constructor..|].
      intros id. unfold client_view, row, waiting. rewrite Hev, Hits. set_solver. }
    clear Hits Hev. revert H0. remember {| conversation := c0; popped := []; dropped := [] |} as s0 eqn:Hs0.
    intros H0. assert (H1 : Inv s0.(conversation) (s0.(popped) ++ s0.(dropped))) by (by subst).
    clear Hs0 H0. induction Hsteps as [|s1 s2 s3 Hstep _ IH]; [done|].
    apply IH. by apply (sys_step_inv s1). }
  apply dropped_unannounced in Hsteps; [|constructor].
  unfold none_announced in Hsteps. rewrite Forall_forall in Hsteps.
  intros id. rewrite (inv_view _ _ HI). unfold row, waiting. setoid_rewrite elem_of_app.
  clear HI. naive_solver.
Qed.
End Steps.

(** ** Witnesses *)

Definition idle_repair : InterruptState :=
  {| messages := []; pendingSteerRepair := false; pendingInterruptRepair := false |}.

Definition busy_conversation (its : list QueuedMessage) : Conversation :=
  {| queue := {| items := its; currentBytes := bytes_of its; maxBytes := DEFAULT_MAX_QUEUE_BYTES |};
     repair := idle_repair; processing := true; surfaceActionRequestIds := [];
     turnChannel := None; turnInterface := None; conversationTrust := None;
     conversationAuth := None; currentTurnAuthContext := None;
     currentTurnSourceActorPrincipalId := None; events := [] |}.

Definition send (text : string) : EnqueueMessageOptions :=
  {| opt_content := text; opt_attachments := []; opt_onEvent := Some "tab-1";
     opt_requestId := None; opt_activeSurfaceId := None; opt_currentPage := None;
     opt_metadata := None; opt_isInteractive := None; opt_displayContent := None;
     opt_transport := None; opt_clientMessageId := None; opt_sourceActorPrincipalId := None;
     opt_authContext := None; opt_trustContext := None; opt_queueWhenIdle := false;
     opt_cronRunId := None |}.

(** A message is queued, taken by a drain, announced and put back. *)
Definition run_sent : Conversation :=
  (enqueueMessage [] "m1" 0 (send "hello") (busy_conversation [])).1.
Definition run_taken : Conversation := set_queue (shift run_sent.(queue)).1 run_sent.
Definition run_message : QueuedMessage := queued_item [] "m1" 0 (send "hello") (busy_conversation []).
Definition run_announced : Conversation := (announceDequeue run_message run_taken).1.
Definition run_requeued : Conversation :=
  requeueDrainedMessages [set_announced true run_message] false run_announced.

Lemma clients_see_queue_witness :
  run_requeued.(events)
  = [("tab-1", message_queued "m1" 1 None); ("tab-1", message_dequeued "m1" None);
     ("tab-1", message_requeued "m1" 1 None)]
  ∧ "m1" ∈ client_view run_requeued.
Proof.
  split; [reflexivity|].
  apply (clients_see_queue (λ _, true) (λ _, false) [] (busy_conversation [])
    {| conversation := run_requeued; popped := []; dropped := [] |}); [reflexivity|reflexivity| |].
  - eapply rtc_l; [apply (step_enqueue _ _ [] "m1" 0 (send "hello")); simpl; apply not_elem_of_nil|].
    eapply rtc_l; [apply (step_shift _ _ _ run_sent [] [] (shift run_sent.(queue)).1 run_message); reflexivity|].
    eapply rtc_l; [apply (step_announce _ _ _ run_taken [] run_message [] [])|].
    eapply rtc_l; [apply (step_requeue _ _ _ false run_announced [] [set_announced true run_message] [] [])|].
    apply rtc_refl.
  - exists run_message. split; [left; apply list_elem_of_singleton; reflexivity|].
    split; reflexivity.
Defined.

(** The batch that is stopped before its tail: the message has left the queue
    and no drain holds it, and its row is still there. *)
Lemma dropped_tail_keeps_row :
  rtc (sys_step (λ _, true) (λ _, false) [])
    {| conversation := busy_conversation []; popped := []; dropped := [] |}
    {| conversation := run_taken; popped := []; dropped := [run_message] |}
  ∧ run_taken.(queue).(items) = [] ∧ client_view run_taken = {["m1"]}.
Proof.
  split_and!; [|reflexivity|by vm_compute].
  eapply rtc_l; [apply (step_enqueue _ _ [] "m1" 0 (send "hello")); simpl; apply not_elem_of_nil|].
  eapply rtc_l; [apply (step_shift _ _ _ run_sent [] [] (shift run_sent.(queue)).1 run_message); reflexivity|].
  eapply rtc_l; [apply (step_drop _ _ _ run_taken [] [run_message] [] []); by repeat constructor|].
  apply rtc_refl.
Qed.

(** A turn that throws at once. *)
Definition throwing (err : DrainError) : Attempt :=
  {| persists := true; repairError := ErrorValue; dispatch := λ msgs _ c, (c, msgs, Some err) |}.

Lemma throwing_throws err : throws (throwing err).(dispatch) err.
Proof. intros msgs steered c. exists c, msgs, []. by rewrite app_nil_r. Qed.

Lemma failed_drain_keeps_queue_witness :
  let c := busy_conversation [sample_message "a" "hello"; sample_message "b" "/compact"] in
  let '(c', _) := kickQueueDrain (λ _, true) (λ _, false)
                    (throwing (ErrorObject 1)) (throwing (ErrorObject 2)) [] c in
  c'.(queue) = c.(queue)
  ∧ ∃ es, c'.(events) = c.(events) ++ es
      ++ (List.filter visible c.(queue).(items) ≫= λ m,
            sent m.(onEvent) (queue_drain_failed m.(requestId))).
Proof.
  apply (failed_drain_keeps_queue (λ _, true) (λ _, false) (throwing (ErrorObject 1))
    (throwing (ErrorObject 2)) (ErrorObject 1) (ErrorObject 2) []).
  - apply throwing_throws.
  - apply throwing_throws.
  - reflexivity.
  - reflexivity.
  - repeat constructor.
Defined.

(** What [restoredDrainErrors] misjudges: when the retry throws the very same error
    object, the drain takes it for one whose messages are back in the queue. The
    message is gone and nobody is told. *)
Lemma same_error_loses_message :
  let c := busy_conversation [sample_message "a" "hello"] in
  let c' := (kickQueueDrain (λ _, true) (λ _, false)
               (throwing (ErrorObject 1)) (throwing (ErrorObject 1)) [] c).1 in
  c'.(queue).(items) = [] ∧ c'.(events) = [].
Proof. split; reflexivity. Qed.

(** A property of [Object.prototype] passes for an interface. *)
Lemma prototype_interface :
  parseInterfaceId (Some (JsStr "constructor")) = Some (PrototypeMember "constructor").
Proof. reflexivity. Qed.
