(* ===== verification/ScopeOptions.v ===== *)
(** The "save this classification" ladders of
    [gateway/src/risk/bash-risk-classifier.ts]: [generateScopeOptions] and
    [scopeOptionsToAllowlistOptions]. *)
From S2P Require Import Prelude JsString JsMap RiskTypes ArgParser BashArgs.

Definition regex_special : list ascii :=
  String.list_ascii_of_string ".*+?^${}()|[]\".

(** [s.replace(/[.*+?^${}()|[\]\\]/g, "\\$&")] *)
Fixpoint escapeRegex (s : string) : string :=
  match s with
  | EmptyString => EmptyString
  | String c s =>
      if mem c regex_special then String "\" (String c (escapeRegex s))
      else String c (escapeRegex s)
  end.

(** [addOption]: append unless the pattern was already offered. *)
Definition addOption (options : list ScopeOption) (pattern label : string)
    : list ScopeOption :=
  if existsb (λ o, String.eqb o.(so_pattern) pattern) options then options
  else options ++ [{| so_pattern := pattern; so_label := label |}].

(** Iteration order of a [Set] built from a list. *)
Fixpoint dedup (xs : list string) : list string :=
  match xs with
  | [] => []
  | x :: xs => x :: List.filter (λ y, negb (String.eqb x y)) (dedup xs)
  end.

Definition command_wildcard (options : list ScopeOption) (prog : string)
    : list ScopeOption :=
  addOption options ("^" +:+ escapeRegex prog +:+ "\b") (prog +:+ " *").

(** Flags (with consumed values) and positionals of a segment. *)
Definition scope_flags (schema : option ArgSchema) (args : list string) : list string :=
  match schema with
  | Some schema =>
      (parseArgs args schema).(flags) ≫= λ '(flagName, flagValue),
        match flagValue with FlagStr v => [flagName; v] | FlagTrue => [flagName] end
  | None => List.filter (λ a, starts_with a "-") args
  end.

Definition scope_positionals (schema : option ArgSchema) (args : list string)
    : list string :=
  match schema with
  | Some schema => (parseArgs args schema).(positionals)
  | None => List.filter (λ a, negb (starts_with a "-")) args
  end.

Definition detect_subcommand (spec : option CommandRiskSpec) (positionals : list string)
    : option string :=
  match spec ≫= subcommands, positionals with
  | Some subs, firstPos :: _ =>
      match obj_get firstPos subs with Some _ => Some firstPos | None => None end
  | _, _ => None
  end.

(** Step 2: positionals become a wildcard from the right, one at a time. *)
Definition drop_positional (programName : string) (sub flags wildcardPositionals : list string)
    (options : list ScopeOption) (dropped : nat) : list ScopeOption :=
  let kept := take (length wildcardPositionals - dropped) wildcardPositionals in
  let parts := List.filter truthy (programName :: sub ++ flags ++ kept) in
  addOption options
    ("^" +:+ join "\s+" (escapeRegex <$> parts) +:+ "\s+.*$")
    (join " " (programName :: sub ++ flags ++ kept ++ ["*"])).

Definition single_segment_options (seg : CommandSegment)
    (registry : list (string * CommandRiskSpec)) : list ScopeOption :=
  let programName := seg.(program) in
  let spec := obj_get programName registry in
  let exact := addOption [] ("^" +:+ escapeRegex seg.(command) +:+ "$") seg.(command) in
  if bool_decide ((spec ≫= complexSyntax) = Some true) then
    command_wildcard exact programName
  else
    let schema := spec ≫= argSchema in
    let flags := scope_flags schema seg.(args) in
    let positionals := scope_positionals schema seg.(args) in
    let subcommand :=
      match detect_subcommand spec positionals with
      | Some s => if truthy s then Some s else None | None => None end in
    let sub := match subcommand with Some s => [s] | None => [] end in
    let wildcardPositionals :=
      match subcommand with Some _ => drop 1 positionals | None => positionals end in
    let options2 :=
      foldl (drop_positional programName sub flags wildcardPositionals) exact
        (seq 1 (length wildcardPositionals - 1)) in
    let parts := programName :: sub in
    let options3 :=
      match flags with
      | [] => options2
      | _ => addOption options2 ("^" +:+ join "\s+" (escapeRegex <$> parts) +:+ "\b")
               (join " " (parts ++ ["*"]))
      end in
    let options4 :=
      match subcommand with
      | None => options3
      | Some s =>
          addOption options3
            ("^" +:+ escapeRegex programName +:+ "\s+" +:+ escapeRegex s +:+ "\b")
            (programName +:+ " " +:+ s +:+ " *")
      end in
    command_wildcard options4 programName.

Definition generateScopeOptions (parsed : ParsedCommand)
    (registry : list (string * CommandRiskSpec)) : list ScopeOption :=
  match parsed.(segments) with
  | [] => []
  | [seg] => single_segment_options seg registry
  | segs =>
      let exact := addOption [] ("^" +:+ escapeRegex parsed.(originalCommand) +:+ "$")
                     parsed.(originalCommand) in
      let programs := dedup (program <$>
        List.filter (λ s, negb (default false s.(synthetic))) segs) in
      foldl command_wildcard exact programs
  end.

(** ** Conversion to allowlist options *)

Definition labelToActionPattern (label : string) : string :=
  let tokens := List.filter (λ t, negb (starts_with t "-") && negb (String.eqb t "*"))
                  (split_ws label) in
  "action:" +:+ join " " tokens.

Definition allowlist_entry (i : nat) (opt : ScopeOption) : AllowlistOption :=
  match i with
  | O => {| al_label := opt.(so_label); al_description := "This exact command";
            al_pattern := opt.(so_label) |}
  | S _ =>
      let prog := slice_drop_last 2 opt.(so_label) in
      if ends_with opt.(so_label) " *" && negb (includes_char prog " ") then
        {| al_label := opt.(so_label); al_description := "Any " +:+ prog +:+ " command";
           al_pattern := "action:" +:+ prog |}
      else
        {| al_label := opt.(so_label);
           al_description := "Commands matching this pattern";
           al_pattern := labelToActionPattern opt.(so_label) |}
  end.

(** The loop, [i] being the index and [results] what has been produced. *)
Fixpoint allowlist_loop (i : nat) (opts : list ScopeOption)
    (results : list AllowlistOption) : list AllowlistOption :=
  match opts with
  | [] => results
  | opt :: opts =>
      let entry := allowlist_entry i opt in
      if existsb (λ o, String.eqb o.(al_pattern) entry.(al_pattern)) results
      then allowlist_loop (S i) opts results
      else allowlist_loop (S i) opts (results ++ [entry])
  end.

Definition scopeOptionsToAllowlistOptions (scopeOptions : list ScopeOption)
    : list AllowlistOption :=
  allowlist_loop 0 scopeOptions [].
