(* ===== verification/AssistantSpec.v ===== *)
(** The registry entry of the [assistant] CLI
    ([gateway/src/risk/command-registry/commands/assistant.ts]): a subcommand tree
    built from a list of paths, a table of risk overrides and a few argument rules.

    Nodes are shared mutable objects in the source; they form a tree, so a write
    through the pointer [getExistingPath] returns is [modify_at] on that tree. The
    path segments are constants of the file, none of them a property name of
    [Object.prototype], so the lookups are own-property lookups. *)
From S2P Require Import Prelude JsString JsMap RiskTypes RegistrySyntax ScopeOptions.

(** ** Paths in a specification tree *)

Definition path_segments (path : string) : list string :=
  List.filter truthy (split_ws (trim path)).

Fixpoint ensure_segments (root : CommandRiskSpec) (segments : list string)
    : CommandRiskSpec :=
  match segments with
  | [] => root
  | segment :: segments =>
      let subs := default [] root.(subcommands) in
      let child := default (empty_spec low) (map_get segment subs) in
      with_subcommands (map_set segment (ensure_segments child segments) subs) root
  end.

Definition ensurePath (root : CommandRiskSpec) (path : string) : CommandRiskSpec :=
  ensure_segments root (path_segments path).

Fixpoint find_segments (root : CommandRiskSpec) (segments : list string)
    : option CommandRiskSpec :=
  match segments with
  | [] => Some root
  | segment :: segments =>
      match root.(subcommands) ≫= map_get segment with
      | Some next => find_segments next segments
      | None => None
      end
  end.

(** [None]: the path is missing and the code throws. *)
Definition getExistingPath (root : CommandRiskSpec) (path : string)
    : option CommandRiskSpec :=
  find_segments root (path_segments path).

(** Write through the node at a path. *)
Fixpoint modify_at (root : CommandRiskSpec) (segments : list string)
    (f : CommandRiskSpec → CommandRiskSpec) : option CommandRiskSpec :=
  match segments with
  | [] => Some (f root)
  | segment :: segments =>
      subs ← root.(subcommands);
      next ← map_get segment subs;
      next' ← modify_at next segments f;
      Some (with_subcommands (map_set segment next' subs) root)
  end.

Definition modifyPath (root : CommandRiskSpec) (path : string)
    (f : CommandRiskSpec → CommandRiskSpec) : option CommandRiskSpec :=
  modify_at root (path_segments path) f.

(** ** Risk overrides *)

Record AssistantRiskOverride := {
  ov_path : string; ov_risk : Risk; ov_reason : option string }.

Definition override (path : string) (risk : Risk) (why : option string)
    : AssistantRiskOverride :=
  {| ov_path := path; ov_risk := risk; ov_reason := why |}.

Definition with_baseRisk (r : Risk) : SpecField :=
  λ '(Spec _ b c d e f g h i j), Spec (Some r) b c d e f g h i j.

Definition apply_override (o : AssistantRiskOverride) : SpecField := λ node,
  let node := with_baseRisk o.(ov_risk) node in
  match o.(ov_reason) with
  | Some why => if truthy why then with_reason why node else node
  | None => node
  end.

Fixpoint apply_overrides (root : CommandRiskSpec) (os : list AssistantRiskOverride)
    : option CommandRiskSpec :=
  match os with
  | [] => Some root
  | o :: os =>
      root' ← modifyPath root o.(ov_path) (apply_override o);
      apply_overrides root' os
  end.

(** ** The data of the file *)

Definition supported_paths_1 : list string :=
  ["apps"; "apps list"; "apps inspect"; "apps refresh"; "attachment"; "attachment register";
   "attachment lookup"; "audit"; "auth"; "auth info"; "avatar"; "avatar generate";
   "avatar set"; "avatar remove"; "avatar get"; "avatar character";
   "avatar character update"; "avatar character components"; "avatar character ascii";
   "backup"; "backup enable"; "backup disable"; "backup destinations";
   "backup destinations list"; "backup destinations add"; "backup destinations remove";
   "backup destinations set-encrypt"; "backup status"; "backup list"; "backup create";
   "backup restore"; "backup verify"; "bash"; "browser"; "browser navigate";
   "browser snapshot"; "browser screenshot"; "browser close"; "browser attach";
   "browser detach"; "browser click"; "browser type"; "browser press-key"; "browser scroll";
   "browser select-option"; "browser hover"; "browser wait-for"; "browser extract";
   "browser wait-for-download"; "browser fill-credential"; "browser status"; "cache";
   "cache set"; "cache get"; "cache delete"; "changelog"; "changelog list";
   "changelog show"; "channel-verification-sessions";
   "channel-verification-sessions create"; "channel-verification-sessions status";
   "channel-verification-sessions resend"; "channel-verification-sessions cancel";
   "channel-verification-sessions revoke"; "channels"; "channels list"; "channels get";
   "channels request"; "channels send"; "clients"; "clients disconnect"; "clients history";
   "clients list"; "completions"; "config"; "config set"; "config get"; "config schema";
   "config list"; "config validate-allowlist"; "contacts"; "contacts list"; "contacts get";
   "contacts prompt"; "contacts create"; "contacts update"; "contacts delete";
   "contacts merge"; "contacts channels"; "contacts channels add";
   "contacts channels update-status"; "contacts invites"; "contacts invites list";
   "contacts invites create"; "contacts invites revoke"; "contacts invites redeem";
   "conversations"; "conversations import"; "conversations defer";
   "conversations defer list"; "conversations defer cancel"; "conversations list";
   "conversations search"; "conversations new"; "conversations rename";
   "conversations export"; "conversations clear"; "conversations wake"; "pending";
   "pending list"; "credentials"; "credentials list"; "credentials prompt";
   "credentials set"; "credentials delete"].

Definition supported_paths_2 : list string :=
  ["credentials inspect"; "credentials reveal"; "credentials status"; "db"; "db status";
   "db repair"; "gateway"; "gateway status"; "gateway logs"; "gateway logs tail";
   "image-generation"; "image-generation generate"; "inference"; "inference callsites";
   "inference callsites get"; "inference callsites list"; "inference models";
   "inference models list"; "inference profiles"; "inference profiles active";
   "inference profiles create"; "inference profiles delete"; "inference profiles get";
   "inference profiles list"; "inference profiles update"; "inference providers";
   "inference providers create"; "inference providers delete"; "inference providers get";
   "inference providers list"; "inference providers update";
   "inference providers connections"; "inference providers connections create";
   "inference providers connections delete"; "inference providers connections get";
   "inference providers connections list"; "inference providers connections update";
   "inference providers default"; "inference providers login-chatgpt"; "inference send";
   "inference session"; "inference session open"; "inference session close";
   "inference session list"; "llm"; "llm send"; "keys"; "keys list"; "keys set";
   "keys delete"; "mcp"; "mcp list"; "mcp reload"; "mcp add"; "mcp auth"; "mcp remove";
   "memory"; "memory ingest"; "memory validate"; "memory nodes"; "memory nodes stats";
   "memory nodes list"; "memory nodes delete"; "memory nodes update"; "memory items";
   "memory items list"; "memory items get"; "memory items create"; "memory items update";
   "memory items delete"; "memory v2"; "memory v2 reembed"; "memory v2 reembed-skills";
   "memory v2 activation"; "memory v2 validate"; "memory v2 ema"; "memory v2 simulate";
   "memory v2 compare"; "memory v3"; "memory v3 rebuild-index";
   "memory v3 backfill-sections"; "memory v3 eval"; "memory v3 eval-tally";
   "memory v3 gate-stats"; "memory retrospective"; "memory retrospective run";
   "memory retrospective list"; "memory worker"; "memory worker start";
   "memory worker stop"; "memory worker status"; "notifications"; "notifications send";
   "notifications list"; "oauth"; "oauth providers"; "oauth providers list";
   "oauth providers get"; "oauth providers register"; "oauth providers update";
   "oauth providers delete"; "oauth mode"; "oauth apps"; "oauth apps list";
   "oauth apps get"; "oauth apps upsert"; "oauth apps delete"; "oauth connect";
   "oauth status"; "oauth ping"; "oauth request"; "oauth disconnect"; "oauth token";
   "oauth proxy-url"; "platform"].

Definition supported_paths_3 : list string :=
  ["platform connect"; "platform status"; "platform credits"; "platform subscription";
   "platform plans"; "platform invoices"; "platform invoices list"; "platform invoices get";
   "platform disconnect"; "platform callback-routes"; "platform callback-routes register";
   "platform callback-routes list"; "monitoring"; "monitoring start"; "monitoring stop";
   "monitoring status"; "ps"; "roadmap"; "roadmap list"; "roadmap get"; "roadmap create";
   "roadmap update"; "roadmap delete"; "roadmap upvote"; "roadmap unvote"; "routes";
   "routes list"; "routes inspect"; "schedules"; "schedules list"; "schedules get";
   "schedules inspect"; "schedules runs"; "schedules create"; "schedules update";
   "schedules enable"; "schedules disable"; "schedules cancel"; "schedules delete";
   "schedules execute"; "schedules worker"; "schedules worker start";
   "schedules worker stop"; "schedules worker status"; "sequence"; "sequence list";
   "sequence get"; "sequence pause"; "sequence resume"; "sequence cancel-enrollment";
   "sequence stats"; "sequence guardrails"; "sequence guardrails show";
   "sequence guardrails set"; "skills"; "skills inspect"; "skills list"; "skills search";
   "skills install"; "skills uninstall"; "skills add"; "status"; "stt"; "stt transcribe";
   "telemetry"; "telemetry flush"; "tools"; "tools list"; "tools run"; "trust";
   "trust list"; "tts"; "tts synthesize"; "tts voice"; "ui"; "ui request"; "ui confirm";
   "ui snapshot"; "usage"; "usage totals"; "usage daily"; "usage breakdown"; "watchers";
   "watchers list"; "watchers create"; "watchers update"; "watchers delete";
   "watchers digest"; "webhooks"; "webhooks register"; "webhooks list"; "domain";
   "domain register"; "domain status"; "email"; "email register"; "email unregister";
   "email status"; "email list"; "email download"; "email send"; "email attachment";
   "plugins"; "plugins diff"; "plugins install"; "plugins inspect"; "plugins list";
   "plugins search"; "plugins uninstall"; "plugins upgrade"; "plugins enable";
   "plugins disable"].

Definition ASSISTANT_SUPPORTED_COMMAND_PATHS : list string :=
  supported_paths_1 ++ supported_paths_2 ++ supported_paths_3.

Definition risk_overrides_1 : list AssistantRiskOverride :=
  [override "oauth token" high (Some "Exposes OAuth access token");
   override "credentials prompt" low (Some "Prompts user for credential via secure UI — user has full control");
   override "credentials reveal" high (Some "Reveals stored credential value");
   override "credentials set" high (Some "Stores or updates credential value");
   override "credentials delete" high (Some "Deletes stored credential value");
   override "keys set" high (Some "Stores API key material");
   override "keys delete" high (Some "Deletes API key material");
   override "backup restore" high (Some "Restores backup and overwrites workspace state");
   override "conversations clear" medium (Some "Deletes conversation history");
   override "attachment register" medium None;
   override "apps refresh" medium (Some "Compiles workspace app source and refreshes open surfaces");
   override "avatar generate" low None;
   override "avatar set" low None;
   override "avatar remove" low None;
   override "avatar character update" low None;
   override "backup enable" low None;
   override "backup disable" high None;
   override "backup destinations add" high None;
   override "backup destinations remove" high None;
   override "backup destinations set-encrypt" high None;
   override "backup create" low None;
   override "cache set" low None;
   override "cache delete" low None;
   override "channel-verification-sessions create" high None;
   override "channel-verification-sessions resend" high None;
   override "channel-verification-sessions cancel" low None;
   override "channel-verification-sessions revoke" low None;
   override "config set" low None;
   override "contacts prompt" medium None;
   override "contacts create" medium None;
   override "contacts update" medium None;
   override "contacts delete" high None;
   override "contacts merge" high (Some "Permanently deletes the donor contact record, the same irreversible write that makes 'contacts delete' high. Its channels move to the survivor, so nobody loses access, but a policy that gates high operations should gate this one.");
   override "contacts channels add" medium None;
   override "contacts channels update-status" medium None;
   override "contacts invites create" high None;
   override "contacts invites revoke" medium None;
   override "contacts invites redeem" high None;
   override "conversations import" high None;
   override "conversations defer" low None;
   override "conversations defer cancel" low None;
   override "conversations new" low None;
   override "conversations rename" low None;
   override "conversations wake" low None;
   override "db repair" medium (Some "Runs the database repair sequence. First step is a read-only integrity check; future steps will mutate the SQLite database to recover state.");
   override "domain register" medium None;
   override "email register" medium None;
   override "email unregister" medium None;
   override "email send" high None;
   override "image-generation generate" medium None;
   override "roadmap create" high (Some "Publishes an item on the public Vellum roadmap under the assistant's name and notifies Vellum staff");
   override "roadmap update" medium (Some "Edits a publicly visible roadmap item");
   override "roadmap delete" high (Some "Permanently removes a publicly visible roadmap item");
   override "roadmap upvote" medium (Some "Casts a publicly visible vote attributed to the assistant");
   override "roadmap unvote" medium (Some "Withdraws a publicly visible vote, changing state the roadmap shows to everyone");
   override "inference send" medium None;
   override "inference models list" low (Some "Read-only listing of the code-owned model catalog")].

Definition risk_overrides_2 : list AssistantRiskOverride :=
  [override "inference profiles list" low (Some "Read-only listing of the effective inference profiles");
   override "inference profiles get" low (Some "Read-only fetch of a single effective profile");
   override "inference profiles create" medium (Some "Writes a validated custom profile to llm.profiles; daemon rejects managed names");
   override "inference profiles update" medium (Some "Mutates a custom profile in llm.profiles; daemon rejects managed profiles");
   override "inference profiles delete" medium (Some "Deletes a custom profile from llm.profiles; daemon rejects managed profiles");
   override "inference profiles active" medium (Some "Reads or switches llm.activeProfile — the user's chat-model selection");
   override "inference callsites list" low (Some "Read-only per-call-site resolution summary");
   override "inference callsites get" low (Some "Read-only resolution detail for one call site");
   override "inference providers login-chatgpt" medium (Some "Runs a browser OAuth flow and writes ChatGPT subscription credentials to CES");
   override "inference providers default" medium (Some "Reads the default provider, or replaces llm.defaultProvider when a name is passed");
   override "inference providers list" low (Some "Read-only listing of provider entries");
   override "inference providers get" low (Some "Read-only fetch of a single provider entry");
   override "inference providers create" medium (Some "Inserts a provider entry referenced by inference profiles");
   override "inference providers update" medium (Some "Mutates provider auth config in place");
   override "inference providers delete" medium (Some "Deletes a provider entry; the daemon refuses while profiles still reference it");
   override "inference providers connections list" low (Some "Read-only listing of provider_connection rows");
   override "inference providers connections get" low (Some "Read-only fetch of a single provider_connection row");
   override "inference providers connections create" medium (Some "Inserts a provider_connection row referenced by inference profiles");
   override "inference providers connections update" medium (Some "Mutates provider_connection auth config in place");
   override "inference providers connections delete" medium (Some "Deletes a provider_connection row; refuses unless --force when profiles still reference it");
   override "llm send" medium None;
   override "tools run" medium (Some "Executes a registered tool directly. Runs non-interactive and non-guardian, so prompt-gated tools auto-deny, but it still invokes a tool outside the agent loop.");
   override "inference session open" low (Some "Opens a reversible conversation-scoped profile session; server validates the profile name");
   override "inference session close" low (Some "Closes an active profile session; idempotent");
   override "inference session list" low (Some "Read-only listing of active sessions");
   override "mcp reload" low None;
   override "mcp add" high None;
   override "mcp auth" medium None;
   override "mcp remove" low None;
   override "memory ingest" medium (Some "Writes concept pages directly into assistant memory, bypassing the consolidation buffer, and enqueues reindex jobs")].

Definition risk_overrides_3 : list AssistantRiskOverride :=
  [override "memory nodes delete" medium (Some "Permanently deletes a memory graph node by content match and removes it from the recall index");
   override "memory nodes update" medium (Some "Rewrites a memory graph node's content by content match and re-embeds it for recall");
   override "memory items create" medium (Some "Creates a memory item that persists into assistant memory and is embedded for recall");
   override "memory items update" medium (Some "Rewrites a memory item's content/metadata and re-embeds it for recall");
   override "memory items delete" medium (Some "Soft-deletes a memory item and removes its embeddings from the recall index (restorable via 'memory items update --status active')");
   override "memory v2 reembed" medium (Some "Enqueues bulk re-embedding of every concept page");
   override "memory v2 reembed-skills" medium (Some "Synchronously re-seeds the v2 skill catalog into the concept-page collection");
   override "memory v2 activation" medium (Some "Enqueues recompute of persisted activation state");
   override "memory validate" low (Some "Read-only diagnostic walk over concept pages and links");
   override "memory v2 validate" low (Some "Read-only diagnostic walk over concept pages and edges");
   override "memory v2 ema" low (Some "Read-only listing of concept pages sorted by injection-frequency EMA score");
   override "memory v2 simulate" medium (Some "Invokes runRouter which calls provider.sendMessage — spends a real LLM provider call even though no local state is written");
   override "memory v2 compare" medium (Some "Re-runs the router (one LLM call) for each sampled historical turn; user-controlled --limit means many paid provider calls can be triggered");
   override "memory v3 backfill-sections" medium (Some "Embeds every page's sections into the v3 dense store and advances the maintain checkpoint");
   override "memory v3 eval" medium (Some "Reads recent conversation turns and memory contents and writes them to eval packet/key files");
   override "memory v3 rebuild-index" low (Some "Invalidates the in-memory v3 section lanes so they rebuild on the next turn");
   override "memory v3 eval-tally" medium (Some "Daemon handler is read-only, but the CLI writes the tally result to a user-supplied path when --out is provided; classifying medium so file-write invocations are not auto-approved as read-only");
   override "memory v3 gate-stats" low (Some "Read-only telemetry diagnostic: queries the local SQLite telemetry outbox and prints gate pass-rate stats; no writes, no daemon required");
   override "memory retrospective run" medium (Some "Forks a conversation and wakes a retrospective agent that calls remember on uncovered facts");
   override "memory worker start" medium (Some "Spawns a background process that processes memory jobs");
   override "memory worker stop" low (Some "Sends SIGTERM to the memory worker process");
   override "memory worker status" low (Some "Read-only liveness probe via PID file");
   override "monitoring start" medium (Some "Spawns a background process that samples memory and disk");
   override "monitoring stop" low (Some "Sends SIGTERM to the resource monitor process");
   override "monitoring status" low (Some "Read-only liveness probe via PID file");
   override "notifications send" low None].

Definition risk_overrides_4 : list AssistantRiskOverride :=
  [override "oauth request" medium (Some "Makes authenticated OAuth request");
   override "channels request" high (Some "Acts as the channel's bot with any effect the bot's API allows (sends, edits, deletes, uploads, reactions, as well as reads); the effect is the endpoint's, which the command cannot tell apart");
   override "channels send" high (Some "Posts a message people will read, as the assistant's bot, which nobody can take back; the same effect as the messaging tool's send, which carries the same rating");
   override "oauth connect" low (Some "Creates OAuth connection");
   override "oauth disconnect" medium (Some "Removes OAuth connection");
   override "oauth providers register" medium None;
   override "oauth providers update" medium None;
   override "oauth providers delete" medium None;
   override "oauth apps delete" medium None;
   override "oauth proxy-url" medium (Some "Mints a scoped, expiring grant a third-party CLI presents to reach a provider API through the passthrough proxy");
   override "platform connect" low None;
   override "platform disconnect" medium None;
   override "platform callback-routes register" low None;
   override "schedules create" medium (Some "Creates a new recurring schedule that fires assistant-side messages");
   override "schedules update" medium (Some "Updates schedule fields (expression, message, mode, script) and mutates assistant schedule state");
   override "schedules enable" medium (Some "Enables a schedule and mutates assistant schedule state");
   override "schedules disable" medium (Some "Disables a schedule and mutates assistant schedule state");
   override "schedules cancel" medium (Some "Cancels a pending schedule and mutates assistant schedule state");
   override "schedules delete" medium (Some "Permanently removes a schedule and its run history from assistant state");
   override "schedules execute" high (Some "Triggers immediate schedule execution. Script-mode schedules shell out via sh -c on the host, and the schedule ID arg is opaque to the classifier — must conservatively assume host shell execution");
   override "schedules worker start" medium (Some "Spawns a background process that runs scheduled jobs");
   override "schedules worker stop" medium (Some "Sends SIGTERM to the schedule worker process");
   override "schedules worker status" low (Some "Read-only liveness probe via PID file");
   override "sequence pause" medium None;
   override "sequence resume" medium None;
   override "sequence cancel-enrollment" medium None;
   override "sequence guardrails set" medium None;
   override "plugins install" high (Some "Fetches and installs external plugin code from GitHub");
   override "plugins uninstall" medium (Some "Removes an installed plugin and all its files from the workspace");
   override "plugins upgrade" high (Some "Fetches and re-installs external plugin code from GitHub");
   override "plugins disable" medium (Some "Disables a plugin by creating a .disabled sentinel file in the workspace");
   override "plugins enable" medium (Some "Re-enables a plugin by removing the .disabled sentinel file");
   override "skills install" high None;
   override "skills uninstall" medium None;
   override "skills add" high None;
   override "stt transcribe" medium None;
   override "tts synthesize" medium None;
   override "tts voice" low None;
   override "watchers create" medium None;
   override "watchers update" medium None;
   override "watchers delete" medium None;
   override "webhooks register" high None;
   override "browser navigate" medium None].

Definition risk_overrides_5 : list AssistantRiskOverride :=
  [override "browser close" medium None;
   override "browser attach" medium None;
   override "browser detach" low None;
   override "browser click" medium None;
   override "browser type" medium None;
   override "browser press-key" medium None;
   override "browser scroll" low None;
   override "browser select-option" medium None;
   override "browser hover" low None;
   override "browser wait-for" low None;
   override "browser wait-for-download" medium None;
   override "browser fill-credential" high None].

Definition riskOverrides : list AssistantRiskOverride :=
  risk_overrides_1 ++ risk_overrides_2 ++ risk_overrides_3 ++ risk_overrides_4 ++ risk_overrides_5.

(** ** Argument rules *)

Definition oauthModeArgRules : list ArgRule :=
  [arg_rule "assistant-oauth-mode:set" (Some ["--set"]) None high "Changes OAuth mode"].

(** [packages/service-contracts/src/channels.ts] *)
Definition CHANNEL_BOT_PROVIDER : list (string * string) :=
  [("slack", "slack_channel"); ("discord", "discord_channel"); ("telegram", "telegram")].

Definition botProviderKeyPattern : string :=
  join "|" (escapeRegex <$> CHANNEL_BOT_PROVIDER.*2).

Definition oauthRequestArgRules : list ArgRule :=
  [arg_rule "assistant-oauth-request:bot-provider" (Some ["--provider"])
     (Some ("^(" +:+ botProviderKeyPattern +:+ ")$")) high
     "Acts as a channel's bot through the OAuth request door, with every effect the bot's API allows"].

Definition assistantBashArgRules : list ArgRule :=
  [arg_rule "assistant-bash:command" None (Some "^(?!bash$|--help$|-h$).+") high
     "Executes arbitrary shell command"].

Definition scheduleUpdateArgRules : list ArgRule :=
  [arg_rule "assistant-schedules-update:script" (Some ["--script"]) None high
     "Persists an arbitrary shell command that the schedule executes on fire";
   arg_rule "assistant-schedules-update:mode-script" (Some ["--mode"])
     (Some "^script$") high
     "Switches the schedule to script mode (host shell execution on fire)"].

Definition scheduleCreateArgRules : list ArgRule :=
  [arg_rule "assistant-schedules-create:script" (Some ["--script"]) None high
     "Persists an arbitrary shell command that the schedule executes on fire";
   arg_rule "assistant-schedules-create:mode-script" (Some ["--mode"])
     (Some "^script$") high
     "Switches the schedule to script mode (host shell execution on fire)"].

(** ** The module body *)

Definition initial_tree : CommandRiskSpec :=
  ensurePath (foldl ensurePath (spec low [with_subcommands []])
    ASSISTANT_SUPPORTED_COMMAND_PATHS) "help".

Definition add_arg_rules (root : CommandRiskSpec) : option CommandRiskSpec :=
  s1 ← modifyPath root "oauth mode" (with_argRules oauthModeArgRules);
  s2 ← modifyPath s1 "oauth request" (λ n,
         with_argSchema (schema [value_flags ["--provider"; "--account"; "--client-id"]])
           (with_argRules oauthRequestArgRules n));
  s3 ← modifyPath s2 "bash" (with_argRules assistantBashArgRules);
  s4 ← modifyPath s3 "schedules update" (λ n,
         with_argSchema (schema [value_flags ["--mode"; "--script"]])
           (with_argRules scheduleUpdateArgRules n));
  modifyPath s4 "schedules create" (λ n,
    with_argSchema (schema [value_flags ["--mode"; "--script"]])
      (with_argRules scheduleCreateArgRules n)).

(** [None]: loading the module throws. *)
Definition assistant_spec : option CommandRiskSpec :=
  root ← apply_overrides initial_tree riskOverrides; add_arg_rules root.

(** ** Writing through a path *)

(** A node without its subtree. *)
Definition own (n : CommandRiskSpec) : CommandRiskSpec :=
  let '(Spec a _ c d e f g h i j) := n in Spec a None c d e f g h i j.

Definition keeps_subcommands (f : SpecField) : Prop :=
  (∀ n, (f n).(subcommands) = n.(subcommands)) ∧
  (∀ n m, own n = own m → own (f n) = own (f m)).

Lemma own_with_subcommands v n : own (with_subcommands v n) = own n.
Proof. by destruct n. Qed.

Lemma subcommands_with v n : (with_subcommands v n).(subcommands) = Some v.
Proof. by destruct n. Qed.

(** Only the node at the path changes. *)
Lemma find_modify root p f root' q :
  keeps_subcommands f → modify_at root p f = Some root' →
  own <$> find_segments root' q =
  if decide (q = p) then own ∘ f <$> find_segments root q
  else own <$> find_segments root q.
Proof.
  intros [Hf Hown]. revert root root' q.
  induction p as [|s p IH]; intros root root' q; simpl.
  { intros [= <-]. destruct q as [|t q]; simpl; [done|]. by rewrite Hf. }
  destruct (subcommands root) as [subs|] eqn:Hsubs; [|done]. simpl.
  destruct (map_get s subs) as [next|] eqn:Hnext; [|done]. simpl.
  destruct (modify_at next p f) as [next'|] eqn:Hm; [|done]. intros [= <-].
  destruct q as [|t q]; simpl.
  { by rewrite own_with_subcommands. }
  rewrite subcommands_with, Hsubs. simpl. rewrite map_get_set.
  destruct (decide (t = s)) as [->|Hne].
  - rewrite Hnext, (IH _ _ q Hm). repeat case_decide; congruence.
  - rewrite decide_False by congruence. done.
Qed.

Lemma apply_override_keeps o : keeps_subcommands (apply_override o).
Proof.
  split.
  - intros []. unfold apply_override. by repeat case_match.
  - intros [] [] [= -> -> -> -> -> -> -> -> ->]. unfold apply_override.
    by repeat case_match.
Qed.

(** The last override of a path decides its risk. *)
Definition overridden (segments : list string) (os : list AssistantRiskOverride)
    : option Risk :=
  ov_risk <$> last (List.filter (λ o, bool_decide (path_segments o.(ov_path) = segments)) os).

Lemma baseRisk_own n : (own n).(baseRisk) = n.(baseRisk).
Proof. by destruct n. Qed.

Lemma find_risk_own r q :
  baseRisk <$> find_segments r q = baseRisk <$> (own <$> find_segments r q).
Proof. destruct (find_segments r q); simpl; [by rewrite baseRisk_own|done]. Qed.

Lemma apply_override_risk o n : (apply_override o n).(baseRisk) = Some o.(ov_risk).
Proof. destruct n. unfold apply_override. by repeat case_match. Qed.

(** Whatever the table, a node's risk after the overrides is that of the last
    entry for its path, or what it was when the table has none; no other node is
    touched. *)
Theorem last_override_wins (root root' : CommandRiskSpec)
    (os : list AssistantRiskOverride) (segments : list string) :
  apply_overrides root os = Some root' →
  baseRisk <$> find_segments root' segments =
  match overridden segments os with
  | Some r => (λ _, Some r) <$> find_segments root segments
  | None => baseRisk <$> find_segments root segments
  end.
Proof.
  revert root. induction os as [|o os IH]; intros root; simpl; [by intros [= <-]|].
  destruct (modifyPath _ _ _) as [root1|] eqn:Hm; [|done]. simpl. intros Hos.
  rewrite (IH _ Hos). pose proof (find_modify _ _ _ _ segments (apply_override_keeps o) Hm) as Hf.
  unfold overridden. simpl.
  assert (∀ r, (λ _, Some r) <$> find_segments root1 segments =
               (λ _, Some r : option Risk) <$> find_segments root segments) as Hsame.
  { intros r. destruct (decide (segments = path_segments (ov_path o)));
      destruct (find_segments root1 segments), (find_segments root segments); done. }
  set (rest := List.filter _ os) in *. case_bool_decide as Hp.
  - rewrite decide_True in Hf by done.
    destruct rest as [|x rest'] using rev_ind; simpl.
    + rewrite find_risk_own, Hf. destruct (find_segments root segments); simpl; [|done].
      by rewrite baseRisk_own, apply_override_risk.
    + clear IHrest'. rewrite app_comm_cons, !last_snoc. apply Hsame.
  - rewrite decide_False in Hf by done. destruct (last rest); simpl; [apply Hsame|].
    rewrite !find_risk_own, Hf. done.
Qed.

(** ** The shipped table *)

(** What the table says about a supported path. *)
Definition expected_risk (path : string) : Risk :=
  default low (overridden (path_segments path) riskOverrides).

Definition risk_as_listed (root : CommandRiskSpec) (path : string) : bool :=
  bool_decide (baseRisk <$> getExistingPath root path = Some (Some (expected_risk path))).

(** Loading the module does not throw: every override and every argument rule
    names a supported path; and every supported path ends up with the risk the
    table gives it, low when it gives none. *)
Theorem assistant_spec_loads :
  ∃ root, assistant_spec = Some root ∧
    ∀ path, path ∈ ASSISTANT_SUPPORTED_COMMAND_PATHS →
      baseRisk <$> getExistingPath root path = Some (Some (expected_risk path)).
Proof.
  assert (match assistant_spec with
          | Some root => forallb (risk_as_listed root) ASSISTANT_SUPPORTED_COMMAND_PATHS
          | None => false end = true) as H by vm_cast_no_check (eq_refl true).
  destruct assistant_spec as [root|]; [|done]. exists root. split; [done|].
  intros path Hp. rewrite forallb_true in H. specialize (H path Hp).
  unfold risk_as_listed in H. by bool_to_prop.
Qed.

Lemma last_override_wins_witness :
  ∃ root, apply_overrides initial_tree riskOverrides = Some root ∧
    baseRisk <$> find_segments root ["oauth"; "token"] = Some (Some high).
Proof.
  destruct (apply_overrides initial_tree riskOverrides) as [root|] eqn:H.
  - exists root. split; [reflexivity|].
    rewrite (last_override_wins initial_tree root riskOverrides ["oauth"; "token"] H).
    vm_compute. reflexivity.
  - exfalso. revert H. vm_compute. discriminate.
Defined.
