(* ===== verification/NodePath.v ===== *)
(** The POSIX path functions of [node:path] the program uses: [resolve], [join],
    [dirname], [basename], [isAbsolute]. Paths are strings; the segments between
    slashes are normalised left to right. [process.cwd()] is an argument, an
    absolute path. *)
From S2P Require Import Prelude JsString.

(** ** Normalisation *)

(** One segment: empty and [.] are dropped, [..] removes the last segment; above
    the root it is kept for relative paths and dropped for absolute ones. *)
Definition normalize_step (allowAboveRoot : bool) (acc : list string) (seg : string)
    : list string :=
  if String.eqb seg "" || String.eqb seg "." then acc
  else if String.eqb seg ".." then
    match last acc with
    | None => if allowAboveRoot then [".."] else []
    | Some l =>
        if String.eqb l ".." then if allowAboveRoot then acc ++ [".."] else acc
        else removelast acc
    end
  else acc ++ [seg].

Definition normalize_segments (allowAboveRoot : bool) (segs : list string) : list string :=
  foldl (normalize_step allowAboveRoot) [] segs.

(** [isAbsolute(p)] *)
Definition isAbsolute (p : string) : bool := starts_with p "/".

(** The path that [resolve] normalises: the arguments from the right up to the
    first absolute one, on top of the working directory. *)
Fixpoint resolve_join (cwd : string) (rev_args : list string) (acc : string) : string :=
  match rev_args with
  | [] => cwd +:+ "/" +:+ acc
  | a :: rest =>
      if negb (truthy a) then resolve_join cwd rest acc
      else if isAbsolute a then a +:+ "/" +:+ acc
      else resolve_join cwd rest (a +:+ "/" +:+ acc)
  end.

Definition resolve_segments (cwd : string) (args : list string) : list string :=
  normalize_segments false (split_char "/" (resolve_join cwd (rev args) "")).

(** The absolute path with the given segments. *)
Definition abs_path (segs : list string) : string := "/" +:+ join "/" segs.

(** [resolve(...args)] *)
Definition resolve (cwd : string) (args : list string) : string :=
  abs_path (resolve_segments cwd args).

(** [normalize(p)] *)
Definition normalize (p : string) : string :=
  if negb (truthy p) then "."
  else
    let path := join "/" (normalize_segments (negb (isAbsolute p)) (split_char "/" p)) in
    let trailing := ends_with p "/" in
    if negb (truthy path) then
      if isAbsolute p then "/" else if trailing then "./" else "."
    else
      let path := if trailing then path +:+ "/" else path in
      if isAbsolute p then "/" +:+ path else path.

(** [join(...args)] *)
Definition path_join (args : list string) : string :=
  match List.filter truthy args with
  | [] => "."
  | parts => normalize (join "/" parts)
  end.

(** [p] without its trailing slashes. *)
Fixpoint strip_trailing (p : string) : string :=
  match p with
  | EmptyString => EmptyString
  | String c p' =>
      match strip_trailing p' with
      | EmptyString => if Ascii.eqb c "/" then EmptyString else String c EmptyString
      | t => String c t
      end
  end.

(** [dirname(p)] *)
Definition dirname (p : string) : string :=
  let body := strip_trailing p in
  if negb (truthy p) then "."
  else match last_index_of_char "/" body with
  | None => if isAbsolute p then "/" else "."
  | Some O => "/"
  | Some n => if isAbsolute p && (n =? 1)%nat then "//" else slice_to n p
  end.

(** [basename(p)] *)
Definition basename (p : string) : string :=
  let body := strip_trailing p in
  match last_index_of_char "/" body with
  | None => body
  | Some n => slice_from (S n) body
  end.

(** ** Splitting *)

Lemma split_char_nonempty c s : split_char c s ≠ [].
Proof.
  destruct s as [|d s]; simpl; [done|]. destruct (Ascii.eqb c d); [done|].
  by destruct (split_char c s).
Qed.

Lemma split_char_no_char c w : no_char c w → split_char c w = [w].
Proof.
  induction w as [|d w IH]; [done|]. intros [Hne H]%no_char_cons. simpl.
  destruct (Ascii.eqb_spec c d); [done|]. by rewrite IH.
Qed.

Lemma split_char_app c x y : split_char c (x +:+ String c y) = split_char c x ++ split_char c y.
Proof.
  induction x as [|d x IH]; simpl; [by rewrite Ascii.eqb_refl|].
  destruct (Ascii.eqb c d); rewrite IH; [done|].
  pose proof (split_char_nonempty c x). by destruct (split_char c x).
Qed.

Lemma split_char_elem c s w : w ∈ split_char c s → no_char c w.
Proof.
  revert w. induction s as [|d s IH]; intros w; simpl.
  { by intros ->%list_elem_of_singleton. }
  destruct (Ascii.eqb_spec c d) as [->|Hne].
  { intros [->|Hw]%elem_of_cons; [done|by apply IH]. }
  destruct (split_char c s) as [|v vs] eqn:E.
  - intros ->%list_elem_of_singleton. by apply no_char_cons.
  - intros [->|Hw]%elem_of_cons.
    + apply no_char_cons. split; [done|]. apply IH. left.
    + apply IH. by right.
Qed.

Lemma split_join_slash segs :
  segs ≠ [] → Forall (no_char "/") segs → split_char "/" (join "/" segs) = segs.
Proof.
  intros Hne Hsegs. induction Hsegs as [|w segs Hw Hsegs IH]; [done|].
  destruct segs as [|w' segs]; [by apply split_char_no_char|].
  rewrite join_cons. change ("/" +:+ ?x) with (String "/" x).
  rewrite split_char_app, (split_char_no_char _ w Hw), IH by done. done.
Qed.

Lemma join_app xs ys :
  xs ≠ [] → ys ≠ [] → join "/" (xs ++ ys) = join "/" xs +:+ "/" +:+ join "/" ys.
Proof.
  intros Hx Hy. induction xs as [|x xs IH]; [done|]. destruct xs as [|x' xs].
  - destruct ys; [done|]. apply join_cons.
  - change ((x :: x' :: xs) ++ ys) with (x :: x' :: (xs ++ ys)). rewrite !join_cons.
    change (x' :: xs ++ ys) with ((x' :: xs) ++ ys). rewrite IH by done.
    by rewrite !append_assoc.
Qed.

(** ** Clean segments *)

Definition clean_seg (seg : string) : Prop :=
  seg ≠ "" ∧ seg ≠ "." ∧ seg ≠ ".." ∧ no_char "/" seg.

Lemma clean_no_slash segs : Forall clean_seg segs → Forall (no_char "/") segs.
Proof. intros H. eapply Forall_impl; [exact H|]. by intros seg (_ & _ & _ & ?). Qed.

Lemma normalize_step_clean acc seg :
  Forall clean_seg acc → no_char "/" seg → Forall clean_seg (normalize_step false acc seg).
Proof.
  intros Hacc Hseg. unfold normalize_step.
  destruct (String.eqb_spec seg "") as [|H1]; [done|].
  destruct (String.eqb_spec seg ".") as [|H2]; [done|]. simpl.
  destruct (String.eqb_spec seg "..") as [|H3].
  - destruct (last acc); [|constructor]. destruct (String.eqb _ _); [done|].
    apply Forall_forall. intros x Hx. rewrite Forall_forall in Hacc. apply Hacc.
    destruct acc as [|y acc] using rev_ind; [done|].
    rewrite removelast_last in Hx. apply elem_of_app. by left.
  - apply Forall_app. split; [done|]. by repeat constructor.
Qed.

Lemma normalize_segments_clean segs :
  Forall (no_char "/") segs → Forall clean_seg (normalize_segments false segs).
Proof.
  intros Hsegs. unfold normalize_segments.
  assert (∀ acc, Forall clean_seg acc →
    Forall clean_seg (foldl (normalize_step false) acc segs)) as H; [|by apply H].
  induction Hsegs as [|s segs Hs _ IH]; intros acc Hacc; [done|].
  by apply IH, normalize_step_clean.
Qed.

Lemma resolve_segments_clean cwd args : Forall clean_seg (resolve_segments cwd args).
Proof.
  apply normalize_segments_clean, Forall_forall. intros s. apply split_char_elem.
Qed.

Lemma normalize_step_push b acc seg : clean_seg seg → normalize_step b acc seg = acc ++ [seg].
Proof.
  intros (H1 & H2 & H3 & _). unfold normalize_step.
  by rewrite (proj2 (String.eqb_neq _ _) H1), (proj2 (String.eqb_neq _ _) H2),
    (proj2 (String.eqb_neq _ _) H3).
Qed.

Lemma normalize_segments_clean_id b pre segs :
  Forall clean_seg segs → foldl (normalize_step b) pre segs = pre ++ segs.
Proof.
  intros H. revert pre. induction H as [|s segs Hs _ IH]; intros pre; simpl.
  { by rewrite app_nil_r. }
  by rewrite normalize_step_push, IH, <- app_assoc.
Qed.

Lemma split_abs_path segs :
  Forall clean_seg segs →
  split_char "/" (abs_path segs) = "" :: match segs with [] => [""] | _ => segs end.
Proof.
  intros H%clean_no_slash. unfold abs_path. cbn [split_char String.append].
  destruct segs as [|s segs]; [done|]. simpl Ascii.eqb. cbv iota.
  by rewrite split_join_slash.
Qed.

Lemma abs_path_inj a b :
  Forall clean_seg a → Forall clean_seg b → abs_path a = abs_path b → a = b.
Proof.
  intros Ha Hb Heq%(f_equal (split_char "/")). rewrite !split_abs_path in Heq by done.
  destruct a as [|x a], b as [|y b]; try done; injection Heq as Heq; simplify_eq; try done.
  - inversion Hb as [|? ? (? & _)]; done.
  - inversion Ha as [|? ? (? & _)]; done.
Qed.

Lemma isAbsolute_abs_path segs : isAbsolute (abs_path segs) = true.
Proof. apply starts_with_app. Qed.

(** An absolute path resolves to its own segments. *)
Lemma resolve_abs_path cwd base segs :
  Forall clean_seg segs → resolve_segments cwd (base ++ [abs_path segs]) = segs.
Proof.
  intros H. unfold resolve_segments. rewrite rev_app_distr. cbn [rev app resolve_join].
  rewrite isAbsolute_abs_path. change (truthy (abs_path segs)) with true. cbn [negb].
  change ("/" +:+ "") with (String "/" "").
  rewrite split_char_app, split_abs_path by done.
  unfold normalize_segments. rewrite foldl_app. cbn [foldl normalize_step String.eqb orb].
  assert (foldl (normalize_step false) [] match segs with [] => [""] | _ => segs end = segs)
    as Hs.
  { destruct segs; [done|]. by rewrite normalize_segments_clean_id. }
  destruct segs; [done|]. cbn [foldl]. cbn [foldl] in Hs. by rewrite Hs.
Qed.

Lemma ends_with_join segs :
  segs ≠ [] → Forall clean_seg segs → ends_with (abs_path segs) "/" = false.
Proof.
  intros Hne Hc. apply ends_with_false. intros r Hr.
  apply (f_equal (split_char "/")) in Hr.
  rewrite split_char_app, split_abs_path in Hr by done.
  destruct segs as [|s segs]; [done|].
  assert (last (split_char "/" r ++ [""]) = Some "") as Hl by apply last_snoc.
  change (split_char "/" "") with [""] in Hr. rewrite <- Hr in Hl.
  change ("" :: s :: segs) with ([""] ++ s :: segs) in Hl. rewrite last_app in Hl.
  destruct (last (s :: segs)) as [l|] eqn:E; [|by rewrite last_cons in E; case_match].
  injection Hl as ->. apply last_Some_elem_of in E. rewrite Forall_forall in Hc.
  by destruct (Hc _ E).
Qed.

(** Being strictly below a directory, read off the strings. *)
Lemma abs_path_below a b :
  Forall clean_seg a → Forall clean_seg b → b ≠ [] →
  starts_with (abs_path a) (abs_path b +:+ "/") = true ↔ ∃ c, c ≠ [] ∧ a = b ++ c.
Proof.
  intros Ha Hb Hne. rewrite starts_with_spec. split.
  - intros [r Hr]. rewrite append_assoc in Hr. change ("/" +:+ r) with (String "/" r) in Hr.
    apply (f_equal (split_char "/")) in Hr.
    rewrite split_char_app, !split_abs_path in Hr by done.
    destruct b as [|y b]; [done|]. injection Hr as Hr.
    exists (split_char "/" r). split; [apply split_char_nonempty|].
    destruct a as [|x a]; [|done]. exfalso. injection Hr as <- Hr.
    inversion Hb as [|? ? (? & _)]; done.
  - intros (c & Hc & ->). exists (join "/" c). unfold abs_path.
    by rewrite join_app, !append_assoc.
Qed.

(** A relative path of clean segments resolves below an absolute directory. *)
Lemma join_clean_head segs :
  segs ≠ [] → Forall clean_seg segs →
  truthy (join "/" segs) = true ∧ isAbsolute (join "/" segs) = false.
Proof.
  intros Hne Hc. destruct segs as [|s segs]; [done|].
  apply Forall_cons in Hc as [(Hs & _ & _ & Hslash) _].
  destruct s as [|c s]; [done|]. apply no_char_cons in Hslash as [Hc _].
  assert (∃ r, join "/" (String c s :: segs) = String c r) as [r ->].
  { destruct segs; [by exists s|]. rewrite join_cons. by eexists. }
  split; [done|]. apply starts_with_false. intros r' Hr. injection Hr as ->. done.
Qed.

Lemma resolve_relative cwd w segs :
  Forall clean_seg w → segs ≠ [] → Forall clean_seg segs →
  resolve_segments cwd [abs_path w; join "/" segs] = w ++ segs.
Proof.
  intros Hw Hne Hc. destruct (join_clean_head segs Hne Hc) as [Ht Ha].
  unfold resolve_segments. cbn [rev app resolve_join].
  rewrite Ht, Ha, isAbsolute_abs_path. change (truthy (abs_path w)) with true.
  cbn [negb]. change ("/" +:+ "") with (String "/" "").
  change ("/" +:+ join "/" segs +:+ String "/" "") with
    (String "/" (join "/" segs +:+ String "/" "")).
  rewrite !split_char_app, split_abs_path, split_join_slash; try done;
    [|by apply clean_no_slash].
  unfold normalize_segments. rewrite !foldl_app.
  assert (foldl (normalize_step false) [] ("" :: match w with [] => [""] | _ => w end) = w)
    as ->.
  { destruct w as [|s w]; [done|].
    exact (normalize_segments_clean_id false [] (s :: w) Hw). }
  by rewrite (normalize_segments_clean_id false w segs).
Qed.

(** ** [dirname] of a normalised path *)

Lemma strip_trailing_app a b :
  strip_trailing b ≠ "" → strip_trailing (a +:+ b) = a +:+ strip_trailing b.
Proof.
  intros Hb. induction a as [|c a IH]; [done|]. simpl. rewrite IH.
  destruct (a +:+ strip_trailing b) eqn:E; [|done]. exfalso. apply Hb.
  destruct a; [done|discriminate].
Qed.

Lemma strip_trailing_no_slash s : s ≠ "" → no_char "/" s → strip_trailing s = s.
Proof.
  induction s as [|c s IH]; [done|]. intros _ [Hc Hs]%no_char_cons. simpl.
  destruct s as [|d s].
  - simpl. destruct (Ascii.eqb_spec c "/"); congruence.
  - rewrite IH by done. done.
Qed.

Lemma abs_path_snoc segs s :
  abs_path (segs ++ [s]) = (match segs with [] => "" | _ => abs_path segs end) +:+ "/" +:+ s.
Proof.
  destruct segs as [|x segs]; [done|]. unfold abs_path.
  rewrite join_app by done. by rewrite !append_assoc.
Qed.

Lemma dirname_abs_path segs s :
  Forall clean_seg segs → clean_seg s → dirname (abs_path (segs ++ [s])) = abs_path segs.
Proof.
  intros Hc (Hs & _ & _ & Hslash). rewrite abs_path_snoc.
  set (p := match segs with [] => "" | _ => abs_path segs end).
  change ("/" +:+ s) with (String "/" s).
  assert (strip_trailing (p +:+ String "/" s) = p +:+ String "/" s) as Hstrip.
  { assert (strip_trailing (String "/" s) = String "/" s) as Hs'.
    { simpl. rewrite strip_trailing_no_slash by done. by destruct s. }
    rewrite strip_trailing_app; by rewrite Hs'. }
  unfold dirname. rewrite Hstrip, (last_index_of_char_app "/" p s Hslash), slice_to_app.
  assert (truthy (p +:+ String "/" s) = true) as -> by (by destruct p).
  cbn [negb]. unfold p. destruct segs as [|x segs]; [done|].
  assert (∃ k, String.length (abs_path (x :: segs)) = S (S k)) as [k Hk].
  { apply Forall_cons in Hc as [(Hx & _) _]. destruct x as [|c x]; [done|].
    unfold abs_path. destruct segs; [by exists (String.length x)|].
    rewrite join_cons. cbn. eexists. done. }
  rewrite Hk. by rewrite andb_false_r.
Qed.

Lemma abs_path_snoc_neq segs s :
  Forall clean_seg segs → clean_seg s → String.eqb (abs_path (segs ++ [s])) (abs_path segs) = false.
Proof.
  intros Hc Hs. apply String.eqb_neq. intros E. apply abs_path_inj in E; [|by apply Forall_app; split; [|constructor]|done].
  apply (f_equal length) in E. rewrite length_app in E. cbn [length] in E. lia.
Qed.

Lemma dirname_root : dirname (abs_path []) = abs_path [].
Proof. done. Qed.

(** ** Checking by computation *)

Definition clean_segb (seg : string) : bool :=
  negb (String.eqb seg "") && negb (String.eqb seg ".") && negb (String.eqb seg "..")
  && negb (includes_char seg "/").

Lemma clean_segsb segs : forallb clean_segb segs = true → Forall clean_seg segs.
Proof.
  rewrite forallb_true. intros H. apply Forall_forall. intros s Hs.
  specialize (H s Hs). unfold clean_segb, includes_char in H. bool_to_prop.
  split_and!; try done. unfold no_char. by destruct (index_of_char "/" s).
Qed.

(** [p] is the directory [root] or something in it, by segments. *)
Definition below_dir (root p : list string) : Prop := ∃ below, p = root ++ below.

(** ** [basename] and [join] of normalised paths *)

Lemma strip_abs_path_snoc segs s :
  clean_seg s → strip_trailing (abs_path (segs ++ [s])) = abs_path (segs ++ [s]).
Proof.
  intros (Hs & _ & _ & Hslash). rewrite abs_path_snoc. change ("/" +:+ s) with (String "/" s).
  assert (strip_trailing (String "/" s) = String "/" s) as Hs'.
  { simpl. rewrite strip_trailing_no_slash by done. by destruct s. }
  rewrite strip_trailing_app; by rewrite Hs'.
Qed.

Lemma basename_abs_path segs s : clean_seg s → basename (abs_path (segs ++ [s])) = s.
Proof.
  intros Hs. unfold basename. rewrite (strip_abs_path_snoc segs s Hs), abs_path_snoc.
  set (p := match segs with [] => "" | _ => abs_path segs end).
  change ("/" +:+ s) with (String "/" s). destruct Hs as (_ & _ & _ & Hslash).
  rewrite (last_index_of_char_app "/" p s Hslash).
  change (S (String.length p)) with (1 + String.length p).
  assert (p +:+ String "/" s = (p +:+ "/") +:+ s) as -> by (by rewrite append_assoc).
  replace (1 + String.length p) with (String.length (p +:+ "/"))
    by (rewrite append_length; cbn; lia).
  apply slice_from_app.
Qed.

Lemma normalize_slashed_segments rs ts :
  Forall clean_seg rs → Forall clean_seg ts → ts ≠ [] →
  normalize_segments false (split_char "/" (abs_path rs +:+ "/" +:+ join "/" ts)) = rs ++ ts.
Proof.
  intros Hrs Hts Hne. change ("/" +:+ join "/" ts) with (String "/" (join "/" ts)).
  rewrite split_char_app, split_abs_path, split_join_slash; [|done|by apply clean_no_slash|done].
  unfold normalize_segments. rewrite foldl_app.
  assert (foldl (normalize_step false) [] ("" :: match rs with [] => [""] | _ => rs end) = rs) as ->.
  { destruct rs as [|x rs]; [done|]. exact (normalize_segments_clean_id false [] (x :: rs) Hrs). }
  by apply normalize_segments_clean_id.
Qed.

Lemma slashed_no_trailing p ts :
  Forall clean_seg ts → ts ≠ [] → ends_with (p +:+ "/" +:+ join "/" ts) "/" = false.
Proof.
  intros Hts Hne. apply ends_with_false. intros r Hr.
  apply (f_equal (split_char "/")) in Hr.
  change ("/" +:+ join "/" ts) with (String "/" (join "/" ts)) in Hr.
  rewrite !split_char_app, split_join_slash in Hr; [|done|by apply clean_no_slash].
  assert (last (split_char "/" r ++ split_char "/" "") = Some "") as Hl by apply last_snoc.
  rewrite <- Hr, last_app in Hl.
  destruct (last ts) as [l|] eqn:E; [|by apply last_None in E].
  injection Hl as ->. apply last_Some_elem_of in E. rewrite Forall_forall in Hts.
  by destruct (Hts _ E).
Qed.

(** [join] of an absolute path and the names below it. *)
Lemma path_join_abs_path rs ts :
  Forall clean_seg rs → Forall clean_seg ts → ts ≠ [] →
  path_join (abs_path rs :: ts) = abs_path (rs ++ ts).
Proof.
  intros Hrs Hts Hne. unfold path_join.
  assert (List.filter truthy (abs_path rs :: ts) = abs_path rs :: ts) as ->.
  { cbn [List.filter]. change (truthy (abs_path rs)) with true. cbv iota. f_equal.
    induction Hts as [|t ts (Ht & _) Hts IH]; [done|]. cbn [List.filter].
    assert (truthy t = true) as -> by (by destruct t). f_equal.
    destruct ts; [done|by apply IH]. }
  destruct ts as [|t ts]; [done|]. rewrite join_cons.
  assert (truthy (abs_path rs +:+ "/" +:+ join "/" (t :: ts)) = true) as Ht by done.
  unfold normalize. rewrite Ht.
  assert (isAbsolute (abs_path rs +:+ "/" +:+ join "/" (t :: ts)) = true) as ->
    by (unfold abs_path; rewrite append_assoc; apply starts_with_app).
  cbn [negb]. rewrite normalize_slashed_segments, slashed_no_trailing by done.
  assert (truthy (join "/" (rs ++ t :: ts)) = true) as ->; [|done].
  apply join_clean_head; [by destruct rs|]. by apply Forall_app.
Qed.
