(* ===== verification/PathPolicy.v ===== *)
(** The path policies the file tools enforce when they run
    ([assistant/src/tools/shared/filesystem/path-policy.ts],
    [assistant/src/util/fs-symlinks.ts]): following symbolic links, the
    workspace boundary, and the denied paths.

    The file system is read through [FileSystem]: the target of a symbolic link
    and [realpathSync], both absent where the call throws. *)
From S2P Require Import Prelude JsString JsMap NodePath.

(** ** The file system *)

Record FileSystem := {
  link : string → option string;
  realpathSync : string → option string }.

(** What [realpath(3)] promises: an absolute path without links. *)
Record FileSystemLaws (fs : FileSystem) : Prop := {
  realpath_absolute p r : fs.(realpathSync) p = Some r →
    ∃ segs, r = abs_path segs ∧ Forall clean_seg segs;
  realpath_unlinked p r : fs.(realpathSync) p = Some r → fs.(link) r = None }.

(** ** [relative] of [node:path] *)

Fixpoint strip_common (xs ys : list string) : list string * list string :=
  match xs, ys with
  | x :: xs', y :: ys' => if String.eqb x y then strip_common xs' ys' else (xs, ys)
  | _, _ => (xs, ys)
  end.

Definition relative (cwd from to : string) : string :=
  let '(up, down) := strip_common (resolve_segments cwd [from]) (resolve_segments cwd [to]) in
  join "/" (((λ _, "..") <$> up) ++ down).

Lemma strip_common_spec xs ys :
  ∃ common, xs = common ++ (strip_common xs ys).1 ∧ ys = common ++ (strip_common xs ys).2 ∧
    ((strip_common xs ys).1 = [] ∨ (strip_common xs ys).2 = [] ∨
     head (strip_common xs ys).1 ≠ head (strip_common xs ys).2).
Proof.
  revert ys. induction xs as [|x xs IH]; intros [|y ys]; cbn [strip_common];
    [exists []; auto..|].
  destruct (String.eqb_spec x y) as [->|Hne].
  - destruct (IH ys) as (c & H1 & H2 & H3). exists (y :: c). cbn [app].
    split_and!; [by f_equal|by f_equal|done].
  - exists []. split_and!; [done..|]. right. right. cbn. congruence.
Qed.

Lemma strip_common_below xs below : strip_common xs (xs ++ below) = ([], below).
Proof.
  induction xs as [|x xs IH]; cbn; [by destruct below|]. by rewrite String.eqb_refl.
Qed.

(** ** Symbolic links *)

Section Policy.
Context (fs : FileSystem).
(** [process.cwd()] *)
Context (cwd : string).

(** [for (let depth = 0; depth < 64; depth++)] *)
Definition MAX_LINK_DEPTH : nat := 64.

Fixpoint follow_links (depth : nat) (current : string) : string :=
  match depth with
  | O => current
  | S depth =>
      match fs.(link) current with
      | None => current
      | Some linkTarget => follow_links depth (resolve cwd [dirname current; linkTarget])
      end
  end.

Definition resolveTrailingLinkTarget (path : string) : string :=
  follow_links MAX_LINK_DEPTH path.

(** The [while] loop of [resolveRealPath]; every turn drops a segment, so as many
    turns as there are characters suffice (lemma [real_path_loop_enough]). *)
Fixpoint real_path_loop (fuel : nat) (absolutePath current : string) (trailing : list string)
    : string :=
  match fuel with
  | O => absolutePath
  | S fuel =>
      if String.eqb current (dirname current) then absolutePath
      else match fs.(realpathSync) current with
      | Some real =>
          match trailing with [] => real | _ => path_join (real :: trailing) end
      | None =>
          real_path_loop fuel absolutePath (dirname current) (basename current :: trailing)
      end
  end.

Definition resolveRealPath (absolutePath : string) : string :=
  let current := resolveTrailingLinkTarget absolutePath in
  real_path_loop (S (String.length current)) absolutePath current [].

(** ** The sandbox target *)

Record SandboxTarget := { resolved : string; realResolved : string; realBoundary : string }.

Definition WORKSPACE_PREFIX : string := "/workspace/".
Definition WORKSPACE_EXACT : string := "/workspace".

Definition effective_path (rawPath boundaryDir : string) : string :=
  if negb (starts_with rawPath (boundaryDir +:+ "/")) && negb (String.eqb rawPath boundaryDir)
  then
    if starts_with rawPath WORKSPACE_PREFIX
    then slice_from (String.length WORKSPACE_PREFIX) rawPath
    else if String.eqb rawPath WORKSPACE_EXACT then "." else rawPath
  else rawPath.

Definition resolveSandboxTarget (rawPath boundaryDir : string) (mustExist : bool)
    : SandboxTarget :=
  let resolved := resolve cwd [boundaryDir; effective_path rawPath boundaryDir] in
  let linkTarget := resolveTrailingLinkTarget resolved in
  {| resolved := resolved;
     realResolved :=
       if mustExist then default linkTarget (fs.(realpathSync) linkTarget)
       else resolveRealPath linkTarget;
     realBoundary := default boundaryDir (fs.(realpathSync) boundaryDir) |}.

Definition isOutOfBounds (target : SandboxTarget) : bool :=
  let rel := relative cwd target.(realBoundary) target.(realResolved) in
  starts_with rel ".."
  || negb (String.eqb (resolve cwd [target.(realBoundary); rel]) target.(realResolved)).

(** ** Denials *)

Definition DENIED_BASENAMES : list string := [".backup.key"; "backup.key"].

Definition isDeniedBasename (path : string) : bool := mem (basename path) DENIED_BASENAMES.

Definition is_digit (c : ascii) : bool :=
  let n := nat_of_ascii c in ((48 <=? n) && (n <=? 57))%nat.

Fixpoint digits_only (s : string) : bool :=
  match s with EmptyString => true | String c s => is_digit c && digits_only s end.

(** [/^\/proc\/(?:\d+|self|thread-self)\/environ$/], on the segments. *)
Definition isProcessEnvironPath (path : string) : bool :=
  match split_char "/" path with
  | [root; proc; pid; environ] =>
      String.eqb root "" && String.eqb proc "proc" && String.eqb environ "environ"
      && (truthy pid && digits_only pid || String.eqb pid "self" || String.eqb pid "thread-self")
  | _ => false
  end.

Inductive PathFailureReason := not_absolute | out_of_bounds | denied.

Inductive PathResult :=
  | path_ok (resolved : string)
  | path_failure (why : PathFailureReason) (error : string).

Definition quoted (s : string) : string := String "034" (s +:+ String "034" "").

Definition outOfBoundsFailure (rawPath : string) (target : SandboxTarget) : PathResult :=
  path_failure out_of_bounds
    ("Path " +:+ quoted rawPath +:+ " resolves to " +:+ quoted target.(realResolved) +:+
     " which is outside the working directory " +:+ quoted target.(realBoundary)).

Definition deniedFailure (target : SandboxTarget) : option PathResult :=
  if isDeniedBasename target.(resolved) || isDeniedBasename target.(realResolved) then
    Some (path_failure denied
      ("Access to " +:+ quoted (basename target.(resolved)) +:+ " is denied"))
  else if isProcessEnvironPath target.(resolved) || isProcessEnvironPath target.(realResolved)
  then Some (path_failure denied "Access to process environment blocks is denied")
  else None.

(** The process environment: home directories in order of preference, the two
    security directory overrides (already trimmed), the daemon's dotenv and the
    container flag. *)
Record PolicyEnv := {
  env_homes : list string;
  env_overrides : list (option string);
  env_dotenv : string;
  env_containerized : bool }.

Context (env : PolicyEnv).

Definition getProtectedServicePaths : list string :=
  let home := default "" (find_first truthy env.(env_homes)) in
  set_of
    (path_join [home; ".vellum"; "protected"]
     :: omap (λ override, o ← override;
              if truthy o && isAbsolute o then Some (resolve cwd [o]) else None)
          env.(env_overrides)
     ++ [env.(env_dotenv)]).

Definition securityDirConfigMirrorable : bool :=
  forallb (λ override, match override with
                       | Some o => negb (truthy o) || isAbsolute o
                       | None => true
                       end) env.(env_overrides).

Definition isWithinDir (path dir : string) : bool :=
  let normalized :=
    if negb (String.eqb dir "/") && ends_with dir "/" then slice_drop_last 1 dir else dir in
  if String.eqb normalized "/" then isAbsolute path
  else String.eqb path normalized || starts_with path (normalized +:+ "/").

Definition touches_service_path (target : SandboxTarget) (protectedPath : string) : bool :=
  let realProtectedPath := resolveRealPath protectedPath in
  existsb (λ path, isWithinDir path protectedPath || isWithinDir path realProtectedPath)
    [target.(resolved); target.(realResolved)].

Definition securityDirDenial (target : SandboxTarget) : option PathResult :=
  if existsb (touches_service_path target) getProtectedServicePaths
  then Some (path_failure denied "Access to the service security directory is denied")
  else None.

(** ** The policies *)

Definition evaluateSandboxPolicy (rawPath boundaryDir : string) (mustExist : option bool)
    (allowOutOfBounds : bool) : PathResult :=
  let target := resolveSandboxTarget rawPath boundaryDir (default true mustExist) in
  if negb allowOutOfBounds && isOutOfBounds target then outOfBoundsFailure rawPath target
  else match securityDirDenial target with
  | Some failure => failure
  | None =>
      match deniedFailure target with
      | Some failure => failure
      | None => path_ok target.(resolved)
      end
  end.

Definition sandboxPolicy (rawPath boundaryDir : string) (mustExist : option bool) : PathResult :=
  evaluateSandboxPolicy rawPath boundaryDir mustExist false.

Definition sandboxPolicyWithHostFallback (rawPath boundaryDir : string)
    (mustExist : option bool) : PathResult :=
  evaluateSandboxPolicy rawPath boundaryDir mustExist
    (negb env.(env_containerized) && securityDirConfigMirrorable).

Definition sandboxReadPolicy (rawPath boundaryDir : string) (mustExist : option bool)
    : PathResult :=
  evaluateSandboxPolicy rawPath boundaryDir mustExist securityDirConfigMirrorable.

Definition hostPolicy (rawPath : string) : PathResult :=
  if negb (isAbsolute rawPath) then
    path_failure not_absolute ("path must be absolute for host file access: " +:+ rawPath)
  else if isDeniedBasename rawPath then
    path_failure denied ("Access to " +:+ quoted (basename rawPath) +:+ " is denied")
  else path_ok rawPath.

(** ** Real paths *)

Definition canonical (p : string) : Prop := ∃ segs, p = abs_path segs ∧ Forall clean_seg segs.

Lemma canonical_resolve args : canonical (resolve cwd args).
Proof. eexists. split; [done|]. apply resolve_segments_clean. Qed.

Lemma canonical_follow depth p : canonical p → canonical (follow_links depth p).
Proof.
  revert p. induction depth as [|d IH]; intros p Hp; [done|]. cbn [follow_links].
  destruct (link fs p); [|done]. apply IH, canonical_resolve.
Qed.

(** [p] does not exist, nor does any directory on the way down to it. *)
Definition missing (existing rest : list string) : Prop :=
  ∀ pre suf, rest = pre ++ suf → pre ≠ [] → fs.(realpathSync) (abs_path (existing ++ pre)) = None.

Lemma missing_snoc existing s rest :
  fs.(realpathSync) (abs_path (existing ++ [s])) = None → missing (existing ++ [s]) rest →
  missing existing (s :: rest).
Proof.
  intros Hs Hm pre suf Hrest Hpre. destruct pre as [|x pre]; [done|].
  cbn in Hrest. injection Hrest as <- Hrest. destruct pre as [|y pre]; [done|].
  specialize (Hm (y :: pre) suf Hrest). rewrite <- app_assoc in Hm. by apply Hm.
Qed.

Context (laws : FileSystemLaws fs).

Lemma real_path_loop_spec fuel absolutePath cs ts :
  Forall clean_seg cs → Forall clean_seg ts → length cs < fuel → missing cs ts →
  (real_path_loop fuel absolutePath (abs_path cs) ts = absolutePath ∧ missing [] (cs ++ ts)) ∨
  ∃ existing rest rs,
    cs ++ ts = existing ++ rest ∧ missing existing rest ∧ Forall clean_seg rs ∧
    fs.(realpathSync) (abs_path existing) = Some (abs_path rs) ∧
    real_path_loop fuel absolutePath (abs_path cs) ts = abs_path (rs ++ rest).
Proof.
  revert fuel ts. induction cs as [|s cs IH] using rev_ind; intros fuel ts Hcs Hts Hfuel Hm.
  { destruct fuel as [|fuel]; [by cbn in Hfuel; lia|]. left. by split. }
  apply Forall_app in Hcs as [Hcs Hs]. apply Forall_cons in Hs as [Hs _].
  rewrite length_app in Hfuel. cbn [length] in Hfuel.
  destruct fuel as [|fuel]; [lia|]. cbn [real_path_loop].
  rewrite (dirname_abs_path cs s Hcs Hs), (basename_abs_path cs s Hs).
  rewrite (abs_path_snoc_neq cs s Hcs Hs).
  destruct (realpathSync fs (abs_path (cs ++ [s]))) as [real|] eqn:Hreal.
  - right. destruct (realpath_absolute fs laws _ _ Hreal) as (rs & -> & Hrs).
    exists (cs ++ [s]), ts, rs. split_and!; try done.
    destruct ts as [|t ts]; [by rewrite app_nil_r|]. by apply path_join_abs_path.
  - rewrite <- app_assoc. cbn [app]. apply IH; [done|by constructor|lia|].
    by apply missing_snoc.
Qed.

Lemma length_abs_path cs : length cs ≤ String.length (abs_path cs).
Proof.
  unfold abs_path. rewrite append_length. cbn [String.length].
  induction cs as [|s [|s' cs] IH]; [cbn; lia..|]. rewrite join_cons, !append_length.
  cbn [length String.length] in *. lia.
Qed.

(** Canonicalisation resolves the longest existing prefix and keeps the names that
    do not exist yet; only when nothing exists does the path stay as it is. *)
Theorem resolveRealPath_nearest (p : string) :
  canonical p →
  ∃ cs, resolveTrailingLinkTarget p = abs_path cs ∧
    (resolveRealPath p = p ∧ missing [] cs ∨
     ∃ existing rest rs, cs = existing ++ rest ∧ missing existing rest ∧ Forall clean_seg rs ∧
       fs.(realpathSync) (abs_path existing) = Some (abs_path rs) ∧
       resolveRealPath p = abs_path (rs ++ rest)).
Proof.
  intros Hp. destruct (canonical_follow MAX_LINK_DEPTH p Hp) as (cs & Hcs & Hc).
  exists cs. split; [done|]. unfold resolveRealPath, resolveTrailingLinkTarget. rewrite Hcs.
  destruct (real_path_loop_spec (S (String.length (abs_path cs))) p cs [] Hc (Forall_nil_2 _))
    as [H|H].
  - pose proof (length_abs_path cs). lia.
  - intros pre suf E. by destruct pre.
  - rewrite app_nil_r in H. by left.
  - rewrite app_nil_r in H. by right.
Qed.

Lemma canonical_resolveRealPath p : canonical p → canonical (resolveRealPath p).
Proof.
  intros Hp. destruct (canonical_follow MAX_LINK_DEPTH p Hp) as (cs & Hcs & Hc).
  unfold resolveRealPath, resolveTrailingLinkTarget. rewrite Hcs.
  destruct (real_path_loop_spec (S (String.length (abs_path cs))) p cs [] Hc (Forall_nil_2 _))
    as [[-> _]|(existing & rest & rs & E & _ & Hrs & _ & ->)].
  - pose proof (length_abs_path cs). lia.
  - intros pre suf E. by destruct pre.
  - done.
  - rewrite app_nil_r in E. subst cs. apply Forall_app in Hc as [_ Hrest].
    exists (rs ++ rest). split; [done|]. by apply Forall_app.
Qed.

Lemma follow_settled depth p : fs.(link) p = None → follow_links depth p = p.
Proof. intros H. destruct depth; [done|]. cbn [follow_links]. by rewrite H. Qed.

(** The nearest existing directory above the end of the link chain at [p] is
    [existing], which is really [rs]; neither is the root of the file system. *)
Definition anchored (p : string) (existing rest rs : list string) : Prop :=
  resolveTrailingLinkTarget p = abs_path (existing ++ rest) ∧
  Forall clean_seg existing ∧ Forall clean_seg rest ∧ missing existing rest ∧
  fs.(realpathSync) (abs_path existing) = Some (abs_path rs) ∧
  Forall clean_seg rs ∧ existing ≠ [] ∧ rs ≠ [].

Lemma real_path_loop_anchored fuel absolutePath existing rest rs ts :
  Forall clean_seg existing → Forall clean_seg rest → Forall clean_seg rs → Forall clean_seg ts →
  existing ≠ [] → length rest < fuel → missing existing rest →
  fs.(realpathSync) (abs_path existing) = Some (abs_path rs) →
  real_path_loop fuel absolutePath (abs_path (existing ++ rest)) ts = abs_path (rs ++ rest ++ ts).
Proof.
  intros He Hrest Hrs Hts Hne Hfuel Hm Hreal. revert fuel Hfuel ts Hts.
  induction rest as [|s rest IH] using rev_ind; intros fuel Hfuel ts Hts.
  - destruct fuel as [|fuel]; [by cbn in Hfuel; lia|]. rewrite app_nil_r. cbn [real_path_loop app].
    rewrite Hreal. destruct existing as [|s existing _] using rev_ind; [done|].
    apply Forall_app in He as [He Hs]. apply Forall_cons in Hs as [Hs _].
    rewrite (dirname_abs_path existing s He Hs), abs_path_snoc_neq by done.
    destruct ts as [|t ts]; [by rewrite app_nil_r|]. by apply path_join_abs_path.
  - apply Forall_app in Hrest as [Hrest Hs]. apply Forall_cons in Hs as [Hs _].
    rewrite length_app in Hfuel. cbn [length] in Hfuel. destruct fuel as [|fuel]; [lia|].
    cbn [real_path_loop].
    rewrite (Hm (rest ++ [s]) []); [|by rewrite app_nil_r|by destruct rest].
    rewrite app_assoc, dirname_abs_path, basename_abs_path, abs_path_snoc_neq
      by (try done; by apply Forall_app).
    rewrite IH; [by rewrite <- (app_assoc rest)|done| |lia|by constructor].
    intros pre suf E Hpre. apply (Hm pre (suf ++ [s])); [|done]. by rewrite E, app_assoc.
Qed.

Lemma resolveRealPath_anchored p existing rest rs :
  anchored p existing rest rs → resolveRealPath p = abs_path (rs ++ rest).
Proof.
  intros (E & He & Hrest & Hm & Hreal & Hrs & Hne & _). unfold resolveRealPath. rewrite E.
  rewrite (real_path_loop_anchored _ p existing rest rs []); try done.
  - by rewrite app_nil_r.
  - pose proof (length_abs_path (existing ++ rest)). rewrite length_app in *. lia.
Qed.

(** Following the chain first changes nothing: the daemon's two ways of
    canonicalising a path agree. *)
Lemma resolveRealPath_trailing p existing rest rs :
  anchored p existing rest rs → fs.(link) (resolveTrailingLinkTarget p) = None →
  resolveRealPath (resolveTrailingLinkTarget p) = resolveRealPath p.
Proof.
  intros Ha Hl. rewrite (resolveRealPath_anchored p _ _ _ Ha).
  apply (resolveRealPath_anchored _ existing rest rs). destruct Ha as (E & Ha). split; [|done].
  rewrite <- E. unfold resolveTrailingLinkTarget at 1. by apply follow_settled.
Qed.

(** ** The boundary *)

Lemma starts_dots a b s :
  starts_with (String a (String b s)) ".." = Ascii.eqb a "." && Ascii.eqb b ".".
Proof.
  apply eq_true_iff_eq. rewrite starts_with_spec, andb_true_iff, !Ascii.eqb_eq. split.
  - intros [r Hr]. by injection Hr.
  - intros [-> ->]. by exists s.
Qed.

Lemma join_starts_dots segs :
  segs ≠ [] → Forall clean_seg segs →
  starts_with (join "/" segs) ".." = starts_with (default "" (head segs)) "..".
Proof.
  intros Hne Hc. destruct segs as [|s segs]; [done|]. cbn [head from_option id].
  apply Forall_cons in Hc as [(Hs & Hd & _ & Hslash) _].
  destruct segs as [|s' segs]; [done|]. rewrite join_cons.
  destruct s as [|a [|b s]]; [done| |].
  - change (String a "" +:+ "/" +:+ join "/" (s' :: segs))
      with (String a (String "/" (join "/" (s' :: segs)))).
    rewrite starts_dots, andb_false_r. symmetry. apply starts_with_false. intros r Hr. done.
  - change (String a (String b s) +:+ "/" +:+ join "/" (s' :: segs))
      with (String a (String b (s +:+ "/" +:+ join "/" (s' :: segs)))).
    by rewrite !starts_dots.
Qed.

(** The boundary check accepts exactly the canonical targets at or below the
    canonical workspace, except that a first name below it which merely begins
    with two dots is taken for an escape. *)
Theorem isOutOfBounds_spec (target : SandboxTarget) (b r : list string) :
  target.(realBoundary) = abs_path b → target.(realResolved) = abs_path r →
  Forall clean_seg b → Forall clean_seg r →
  isOutOfBounds target = false ↔
  ∃ below, r = b ++ below ∧ starts_with (default "" (head below)) ".." = false.
Proof.
  intros Hb Hr Hcb Hcr. unfold isOutOfBounds, relative. rewrite Hb, Hr.
  pose proof (resolve_abs_path cwd [] b Hcb) as Eb. pose proof (resolve_abs_path cwd [] r Hcr) as Er.
  cbn [app] in Eb, Er. rewrite Eb, Er. clear Eb Er.
  assert (∀ below, Forall clean_seg below →
    resolve cwd [abs_path b; join "/" below] = abs_path (b ++ below)) as Hres.
  { intros [|x below] Hc; [|unfold resolve; by rewrite resolve_relative].
    rewrite app_nil_r. unfold resolve. f_equal. exact (resolve_abs_path cwd [] b Hcb). }
  split.
  - destruct (strip_common_spec b r) as (common & H1 & H2 & _).
    destruct (strip_common b r) as [up down]. cbn [fst snd] in H1, H2.
    destruct up as [|u up].
    + cbn [fmap list_fmap app]. intros [Hdots _]%orb_false_elim. rewrite app_nil_r in H1. subst.
      apply Forall_app in Hcr as [_ Hd]. exists down. split; [done|].
      destruct down as [|d down]; [done|]. by rewrite <- join_starts_dots.
    + intros [Hdots _]%orb_false_elim. exfalso. revert Hdots. cbn [fmap list_fmap app].
      destruct (((λ _ : string, "..") <$> up) ++ down) as [|y ys]; [done|].
      rewrite join_cons. intros H. by apply (starts_with_false _ _) with (r := "/" +:+ join "/" (y :: ys)) in H.
  - intros (below & -> & Hdots). rewrite strip_common_below. cbn [fmap list_fmap app].
    apply Forall_app in Hcr as [_ Hc]. rewrite Hres, String.eqb_refl by done.
    destruct below as [|x below]; [done|]. by rewrite join_starts_dots, Hdots.
Qed.

(** ** Writes *)

Lemma evaluate_ok rawPath boundaryDir mustExist out p :
  evaluateSandboxPolicy rawPath boundaryDir mustExist out = path_ok p ↔
  let target := resolveSandboxTarget rawPath boundaryDir (default true mustExist) in
  p = target.(resolved) ∧ (out = true ∨ isOutOfBounds target = false) ∧
  securityDirDenial target = None ∧ deniedFailure target = None.
Proof.
  unfold evaluateSandboxPolicy. cbv zeta.
  set (t := resolveSandboxTarget _ _ _).
  assert (∀ f, securityDirDenial t = Some f → f ≠ path_ok p) as Hs.
  { unfold securityDirDenial. destruct (existsb _ _); [by intros ? [= <-]|done]. }
  assert (∀ f, deniedFailure t = Some f → f ≠ path_ok p) as Hd.
  { unfold deniedFailure. destruct (_ || _); [by intros ? [= <-]|].
    destruct (_ || _); [by intros ? [= <-]|done]. }
  destruct (negb out && isOutOfBounds t) eqn:E.
  { apply andb_prop in E as [E1 E2]. split; [done|]. intros (_ & [-> |H] & _); [done|congruence]. }
  assert (out = true ∨ isOutOfBounds t = false) as Hb.
  { apply andb_false_iff in E as [?%negb_false_iff|]; auto. }
  destruct (securityDirDenial t) as [f|]; [split; [by intros H; destruct (Hs f)|naive_solver]|].
  destruct (deniedFailure t) as [f|]; [split; [by intros H; destruct (Hd f)|naive_solver]|].
  split; [intros [= <-]; done|by intros (-> & _)].
Qed.

Lemma isWithinDir_spec p ds :
  Forall clean_seg p → Forall clean_seg ds →
  isWithinDir (abs_path p) (abs_path ds) = true ↔ below_dir ds p.
Proof.
  intros Hp Hds. unfold isWithinDir, below_dir. destruct ds as [|d ds].
  { change (isAbsolute (abs_path p) = true ↔ ∃ below, p = [] ++ below).
    rewrite isAbsolute_abs_path. split; [by exists p|done]. }
  assert (ends_with (abs_path (d :: ds)) "/" = false) as -> by (by apply ends_with_join).
  rewrite andb_false_r.
  destruct (String.eqb_spec (abs_path (d :: ds)) "/") as [E|_].
  { change "/" with (abs_path []) in E. by apply abs_path_inj in E. }
  rewrite orb_true_iff, String.eqb_eq, (abs_path_below _ _ Hp Hds) by done. split.
  - intros [E|(c & _ & ->)]; [|by exists c]. apply abs_path_inj in E as ->; [|done..].
    exists []. by rewrite app_nil_r.
  - intros [[|c below] ->]; [left; by rewrite app_nil_r|right; by exists (c :: below)].
Qed.

(** C33: Whatever the policy, a path it admits leads neither by name nor through links
    to a key, dotenv or trust-material path (or below one), to a backup key, or
    to a process environment block. *)
Theorem secrets_unreachable (rawPath boundaryDir p : string) (mustExist : option bool)
    (out : bool) (q : string) (qs : list string) :
  evaluateSandboxPolicy rawPath boundaryDir mustExist out = path_ok p →
  let target := resolveSandboxTarget rawPath boundaryDir (default true mustExist) in
  q ∈ [target.(resolved); target.(realResolved)] → q = abs_path qs → Forall clean_seg qs →
  (∀ d ds, d ∈ getProtectedServicePaths → Forall clean_seg ds →
    abs_path ds ∈ [d; resolveRealPath d] → ¬ below_dir ds qs) ∧
  basename q ∉ DENIED_BASENAMES ∧ isProcessEnvironPath q = false.
Proof.
  intros Hok. cbv zeta. intros Hq -> Hqs.
  apply evaluate_ok in Hok as (_ & _ & Hsec & Hden).
  set (target := resolveSandboxTarget _ _ _) in *. split; [|split].
  - intros d ds Hd Hds Hin Hbelow. unfold securityDirDenial in Hsec.
    destruct (existsb _ _) eqn:He; [done|]. rewrite existsb_false in He.
    specialize (He d Hd). unfold touches_service_path in He. rewrite existsb_false in He.
    specialize (He _ Hq). apply orb_false_elim in He as [H1 H2].
    apply (isWithinDir_spec qs ds Hqs Hds) in Hbelow.
    rewrite !elem_of_cons in Hin. destruct Hin as [E|[E|Hin]]; [rewrite E in Hbelow; congruence..|].
    by apply elem_of_nil in Hin.
  - unfold deniedFailure in Hden. destruct (_ || _) eqn:E in Hden; [done|].
    apply orb_false_elim in E as [E1 E2]. unfold isDeniedBasename in *.
    rewrite !elem_of_cons in Hq. destruct Hq as [->|[->|Hq]]; [by apply mem_false..|].
    by apply elem_of_nil in Hq.
  - unfold deniedFailure in Hden. destruct (_ || _) in Hden; [done|].
    destruct (_ || _) eqn:E in Hden; [done|]. apply orb_false_elim in E as [E1 E2].
    rewrite !elem_of_cons in Hq. destruct Hq as [->|[->|Hq]]; [done..|].
    by apply elem_of_nil in Hq.
Qed.
End Policy.

(** ** Concrete instances *)

(** A workspace holding a link [key] to the protected directory and a dangling
    top-level link. *)
Definition sample_fs : FileSystem :=
  {| link p := if String.eqb p "/ws/key" then Some "/home/u/.vellum/protected/k"
               else if String.eqb p "/a" then Some "/b" else None;
     realpathSync p :=
       if mem p ["/ws"; "/home"; "/home/u"; "/home/u/.vellum"; "/home/u/.vellum/protected"]
       then Some p else None |}.

Definition sample_env : PolicyEnv :=
  {| env_homes := [""; "/home/u"; "/root"]; env_overrides := [None; Some ""];
     env_dotenv := "/home/u/.vellum/.env"; env_containerized := false |}.

Lemma sample_fs_laws : FileSystemLaws sample_fs.
Proof.
  assert (∀ p r, realpathSync sample_fs p = Some r →
    r ∈ ["/ws"; "/home"; "/home/u"; "/home/u/.vellum"; "/home/u/.vellum/protected"]) as H.
  { intros p r. cbn. destruct (mem p _) eqn:E; [|done]. intros [= <-]. by apply mem_true. }
  split; intros p r Hr%H; rewrite !elem_of_cons in Hr; destruct_or! Hr; subst; try done.
  all: try (by apply elem_of_nil in Hr).
  - exists ["ws"]. split; [done|by apply clean_segsb].
  - exists ["home"]. split; [done|by apply clean_segsb].
  - exists ["home"; "u"]. split; [done|by apply clean_segsb].
  - exists ["home"; "u"; ".vellum"]. split; [done|by apply clean_segsb].
  - exists ["home"; "u"; ".vellum"; "protected"]. split; [done|by apply clean_segsb].
Qed.

(** The fallback to the unresolved path: a dangling link whose destination would
    be created directly below the root is not followed. *)
Theorem dangling_root_link :
  resolveTrailingLinkTarget sample_fs "/" "/a" = "/b" ∧ resolveRealPath sample_fs "/" "/a" = "/a".
Proof. split; reflexivity. Qed.

Lemma resolveRealPath_nearest_witness :
  resolveRealPath sample_fs "/" "/ws/new/file" = "/ws/new/file" ∧
  ∃ cs, resolveTrailingLinkTarget sample_fs "/" "/ws/new/file" = abs_path cs.
Proof.
  split; [reflexivity|].
  destruct (resolveRealPath_nearest sample_fs "/" sample_fs_laws "/ws/new/file") as (cs & H & _).
  - exists ["ws"; "new"; "file"]. split; [done|by apply clean_segsb].
  - by exists cs.
Defined.

Lemma isOutOfBounds_spec_witness :
  isOutOfBounds "/" {| resolved := "/ws/x"; realResolved := "/wsx/y"; realBoundary := "/ws" |}
  = true.
Proof.
  apply not_false_iff_true. intros H.
  apply (isOutOfBounds_spec "/"
    {| resolved := "/ws/x"; realResolved := "/wsx/y"; realBoundary := "/ws" |} ["ws"] ["wsx"; "y"])
    in H as (below & Hb & _); [discriminate Hb|reflexivity|reflexivity|by apply clean_segsb..].
Defined.

Lemma secrets_unreachable_witness :
  evaluateSandboxPolicy sample_fs "/" sample_env "notes.txt" "/ws" (Some false) false =
    path_ok "/ws/notes.txt" ∧ basename "/ws/notes.txt" ∉ DENIED_BASENAMES.
Proof.
  assert (evaluateSandboxPolicy sample_fs "/" sample_env "notes.txt" "/ws" (Some false) false =
    path_ok "/ws/notes.txt") as Hok by (vm_compute; reflexivity).
  split; [exact Hok|].
  destruct (secrets_unreachable sample_fs "/" sample_env "notes.txt" "/ws" "/ws/notes.txt"
    (Some false) false "/ws/notes.txt" ["ws"; "notes.txt"] Hok) as (_ & H & _).
  - by left.
  - reflexivity.
  - by apply clean_segsb.
  - exact H.
Defined.
