(* ===== verification/WorkspacePolicy.v ===== *)
(** Which invocations stay inside the workspace, and which rewrite the code and
    instructions the daemon itself acts on
    ([assistant/src/permissions/workspace-policy.ts]). Paths are canonicalised
    against the file system of [PathPolicy]. *)
From S2P Require Import Prelude JsString JsMap NodePath PathPolicy.

(** ** Tool input *)

(** [Record<string, unknown>] *)
Definition ToolInput := list (string * JsValue).

Definition input_string (input : ToolInput) (key : string) : option string :=
  match map_get key input with Some (JsStr s) => Some s | _ => None end.

(** [getStringField(input, ...keys)] *)
Definition getStringField (input : ToolInput) (keys : list string) : string :=
  default "" (first_some (input_string input) keys).

(** The directories the daemon's platform module names. *)
Record WorkspaceDirs := {
  wd_hooks : string; wd_plugins : string; wd_skills : string; wd_tools : string;
  wd_routes : string; wd_workflows : string; wd_monitoring : string;
  wd_systemPrompt : string }.

Section Workspace.
Context (fs : FileSystem) (cwd : string) (isContainerized : bool).

(** ** Canonical paths *)

(** Every turn drops a segment, so as many turns as there are characters suffice
    (lemma [canonicalizeExisting_spec]). *)
Fixpoint canonicalize_loop (fuel : nat) (abs : string) : string :=
  match fuel with
  | O => normalize abs
  | S fuel =>
      match fs.(realpathSync) abs with
      | Some real => real
      | None =>
          if String.eqb (dirname abs) abs then normalize abs
          else canonicalize_loop fuel (dirname abs) +:+ "/" +:+ basename abs
      end
  end.

Definition canonicalizeExisting (abs : string) : string :=
  canonicalize_loop (S (String.length abs)) abs.

Definition canonicalize (p : string) : string :=
  canonicalizeExisting (resolveTrailingLinkTarget fs cwd (resolve cwd [p])).

Definition canonicalizeAddressedName (p : string) : string :=
  let abs := resolve cwd [p] in canonicalizeExisting (dirname abs) +:+ "/" +:+ basename abs.

Definition isAtOrUnderCanonicalDir (canonicalPath canonicalDir : string) : bool :=
  let prefix :=
    if ends_with canonicalDir "/" then canonicalDir else canonicalDir +:+ "/" in
  String.eqb canonicalPath canonicalDir || starts_with canonicalPath prefix.

Definition isPathWithinWorkspaceRoot (filePath workspaceRoot : string) : bool :=
  if negb (truthy filePath) || negb (truthy workspaceRoot) then false
  else isAtOrUnderCanonicalDir (canonicalize filePath) (canonicalize workspaceRoot).

(** ** Invocations *)

Definition PATH_SCOPED_TOOLS : list string := ["file_read"; "file_write"; "file_edit"].
Definition WORKSPACE_WRITE_TOOLS : list string := ["file_write"; "file_edit"].
Definition NETWORK_TOOLS : list string := ["web_search"; "web_fetch"; "network_request"].
Definition HOST_TOOLS : list string :=
  ["host_file_read"; "host_file_write"; "host_file_edit"; "host_file_transfer"; "host_bash";
   "computer_use_run_applescript"].
Definition ALWAYS_SCOPED_TOOLS : list string :=
  ["skill_load"; "recall"; "ui_update"; "ui_dismiss"].

Definition isWorkspaceWriteTool (toolName : string) : bool := mem toolName WORKSPACE_WRITE_TOOLS.

(** [resolveSandboxBase]: the remap the policy applies when the tool runs. *)
Definition resolveSandboxBase (rawPath workingDir : string) : string :=
  resolve cwd [workingDir; effective_path rawPath workingDir].

Definition resolvePathScopedTarget (toolInput : ToolInput) (workspaceRoot : string) : string :=
  let rawPath :=
    match input_string toolInput "path" with
    | Some p => p
    | None => default "" (input_string toolInput "file_path")
    end in
  if String.eqb rawPath "" then "" else resolveSandboxBase rawPath workspaceRoot.

Definition isOutOfWorkspaceFileInvocation (toolName : string) (toolInput : ToolInput)
    (workspaceRoot : string) : bool :=
  if isContainerized then false
  else if negb (mem toolName PATH_SCOPED_TOOLS) then false
  else
    let filePath := resolvePathScopedTarget toolInput workspaceRoot in
    negb (String.eqb filePath "") && negb (isPathWithinWorkspaceRoot filePath workspaceRoot).

(** ** The control plane *)

Definition executableSinkDirs (dirs : WorkspaceDirs) : list string :=
  [dirs.(wd_hooks); dirs.(wd_plugins); dirs.(wd_skills); dirs.(wd_tools); dirs.(wd_routes);
   dirs.(wd_workflows); dirs.(wd_monitoring)].

Definition PROMPT_SURFACE_FILES : list string :=
  ["IDENTITY.md"; "SOUL.md"; "VOICE.md"; "BOOTSTRAP.md"; "HEARTBEAT.md"; "NOW.md"].
Definition PROMPT_SURFACE_DIRS : list string := ["users"; "channels"].

Definition writes_under (target addressed dir : string) : bool :=
  let canonicalDir := canonicalize dir in
  isAtOrUnderCanonicalDir target canonicalDir || isAtOrUnderCanonicalDir addressed canonicalDir.

Definition isControlPlaneWorkspaceWrite (dirs : WorkspaceDirs) (toolName : string)
    (toolInput : ToolInput) (workspaceRoot : string) : bool :=
  if negb (isWorkspaceWriteTool toolName) then false
  else
    let filePath := resolvePathScopedTarget toolInput workspaceRoot in
    if String.eqb filePath "" then false
    else
      let target := canonicalize filePath in
      let addressed := canonicalizeAddressedName filePath in
      let root := canonicalize workspaceRoot in
      existsb (writes_under target addressed) (executableSinkDirs dirs)
      || existsb (λ file,
           let canonicalFile := canonicalize (root +:+ "/" +:+ file) in
           String.eqb target canonicalFile || String.eqb addressed canonicalFile)
           PROMPT_SURFACE_FILES
      || existsb (λ dir, writes_under target addressed (root +:+ "/" +:+ dir))
           PROMPT_SURFACE_DIRS
      || writes_under target addressed dirs.(wd_systemPrompt).

Definition isWorkspaceScopedInvocation (toolName : string) (toolInput : ToolInput)
    (workspaceRoot : string) : bool :=
  if mem toolName ALWAYS_SCOPED_TOOLS then true
  else if mem toolName NETWORK_TOOLS then false
  else if mem toolName HOST_TOOLS then false
  else if mem toolName PATH_SCOPED_TOOLS then
    let filePath := resolvePathScopedTarget toolInput workspaceRoot in
    negb (String.eqb filePath "") && isPathWithinWorkspaceRoot filePath workspaceRoot
  else if String.eqb toolName "bash" then isContainerized
  else false.

(** ** The two canonicalisations agree *)

Context (laws : FileSystemLaws fs).

Lemma canonicalize_loop_spec fuel existing rest rs :
  Forall clean_seg existing → Forall clean_seg rest → length rest < fuel → rs ≠ [] →
  missing fs existing rest → fs.(realpathSync) (abs_path existing) = Some (abs_path rs) →
  canonicalize_loop fuel (abs_path (existing ++ rest)) = abs_path (rs ++ rest).
Proof.
  intros He Hrest Hfuel Hne Hm Hreal. revert fuel Hfuel.
  induction rest as [|s rest IH] using rev_ind; intros fuel Hfuel.
  { destruct fuel as [|fuel]; [by cbn in Hfuel; lia|]. cbn [canonicalize_loop].
    by rewrite !app_nil_r, Hreal. }
  apply Forall_app in Hrest as [Hrest Hs]. apply Forall_cons in Hs as [Hs _].
  rewrite length_app in Hfuel. cbn [length] in Hfuel. destruct fuel as [|fuel]; [lia|].
  cbn [canonicalize_loop].
  rewrite (Hm (rest ++ [s]) []); [|by rewrite app_nil_r|by destruct rest].
  rewrite app_assoc, dirname_abs_path, basename_abs_path by (try done; by apply Forall_app).
  rewrite String.eqb_sym, abs_path_snoc_neq by (try done; by apply Forall_app).
  rewrite IH; [|done| |lia].
  - rewrite app_assoc, (abs_path_snoc (rs ++ rest) s).
    destruct (rs ++ rest) eqn:E; [|done]. by apply app_eq_nil in E as [-> _].
  - intros pre suf E Hpre. apply (Hm pre (suf ++ [s])); [|done]. by rewrite E, app_assoc.
Qed.

(** The permission lane and the file tools canonicalise with different code; they
    reach the same path whenever some directory above the target exists below the
    root of the file system. *)
Theorem canonicalizations_agree (p : string) (existing rest rs : list string) :
  anchored fs cwd (resolve cwd [p]) existing rest rs →
  canonicalize p = abs_path (rs ++ rest) ∧
  resolveRealPath fs cwd (resolve cwd [p]) = abs_path (rs ++ rest).
Proof.
  intros Ha. split; [|by apply (resolveRealPath_anchored fs cwd _ existing)].
  destruct Ha as (E & He & Hrest & Hm & Hreal & Hrs & Hne & Hrne).
  unfold canonicalize, canonicalizeExisting. rewrite E.
  apply canonicalize_loop_spec; try done.
  pose proof (length_abs_path (existing ++ rest)) as Hl. rewrite length_app in Hl. lia.
Qed.

Lemma isAtOrUnder_spec p d :
  Forall clean_seg p → Forall clean_seg d → d ≠ [] →
  isAtOrUnderCanonicalDir (abs_path p) (abs_path d) = true ↔ below_dir d p.
Proof.
  intros Hp Hd Hne. unfold isAtOrUnderCanonicalDir, below_dir.
  rewrite (ends_with_join d Hne Hd), orb_true_iff, String.eqb_eq, (abs_path_below _ _ Hp Hd Hne).
  split.
  - intros [E|(c & _ & ->)]; [|by exists c]. apply abs_path_inj in E as ->; [|done..].
    exists []. by rewrite app_nil_r.
  - intros [[|c below] ->]; [left; by rewrite app_nil_r|right; by exists (c :: below)].
Qed.

(** A write whose canonical target is in a directory the daemon runs code from is
    recognised as a control-plane write, in a container too, whatever text and
    links name it. *)
Theorem control_plane_covers_sinks (dirs : WorkspaceDirs) (toolName : string)
    (input : ToolInput) (root dir target : string) (d p : list string) :
  isWorkspaceWriteTool toolName = true → resolvePathScopedTarget input root = target →
  target ≠ "" → dir ∈ executableSinkDirs dirs ++ [dirs.(wd_systemPrompt)] →
  canonicalize target = abs_path p → canonicalize dir = abs_path d →
  Forall clean_seg p → Forall clean_seg d → d ≠ [] → below_dir d p →
  isControlPlaneWorkspaceWrite dirs toolName input root = true.
Proof.
  intros Hw Ht Hne Hdir Hp Hd Hcp Hcd Hdne Hbelow. unfold isControlPlaneWorkspaceWrite.
  rewrite Hw, Ht. cbn [negb]. rewrite (proj2 (String.eqb_neq _ _) Hne).
  assert (writes_under (canonicalize target) (canonicalizeAddressedName target) dir = true) as Hu.
  { unfold writes_under. rewrite Hp, Hd. by rewrite (proj2 (isAtOrUnder_spec p d Hcp Hcd Hdne)). }
  apply elem_of_app in Hdir as [Hdir|Hdir].
  - rewrite !orb_true_iff. do 3 left. apply existsb_true. by exists dir.
  - apply elem_of_cons in Hdir as [->|[]%elem_of_nil]. rewrite Hu. by rewrite orb_true_r.
Qed.
End Workspace.

(** ** Concrete instances *)

Definition sample_dirs : WorkspaceDirs :=
  {| wd_hooks := "/ws/hooks"; wd_plugins := "/ws/plugins"; wd_skills := "/ws/skills";
     wd_tools := "/ws/tools"; wd_routes := "/ws/routes"; wd_workflows := "/ws/workflows";
     wd_monitoring := "/ws/data/monitoring"; wd_systemPrompt := "/ws/prompts/system" |}.

Lemma sample_anchored_notes :
  anchored sample_fs "/" "/ws/notes.txt" ["ws"] ["notes.txt"] ["ws"].
Proof.
  split_and!; try done; try (by apply clean_segsb).
  intros pre suf E Hpre. destruct pre as [|x [|y pre]]; [done| |done].
  injection E as <- <-. reflexivity.
Qed.

Lemma canonicalizations_agree_witness :
  canonicalize sample_fs "/" "/ws/notes.txt" = "/ws/notes.txt" ∧
  resolveRealPath sample_fs "/" (resolve "/" ["/ws/notes.txt"]) = "/ws/notes.txt".
Proof.
  exact (canonicalizations_agree sample_fs "/" "/ws/notes.txt" ["ws"] ["notes.txt"] ["ws"]
    sample_anchored_notes).
Defined.

Lemma control_plane_covers_sinks_witness :
  isControlPlaneWorkspaceWrite sample_fs "/" sample_dirs "file_write"
    [("path", JsStr "tools/x.ts")] "/ws" = true.
Proof.
  apply (control_plane_covers_sinks sample_fs "/" sample_dirs "file_write"
    [("path", JsStr "tools/x.ts")] "/ws" "/ws/tools" "/ws/tools/x.ts" ["ws"; "tools"]
    ["ws"; "tools"; "x.ts"]); try reflexivity; try discriminate.
  - do 3 right. left.
  - by apply clean_segsb.
  - by apply clean_segsb.
  - by exists ["x.ts"].
Defined.
