(* ===== verification/BashRisk.v ===== *)
(** The bash risk classifier ([gateway/src/risk/bash-risk-classifier.ts]):
    classification of one command segment, of a parsed command, and the
    facts that make it safe to rely on.

    Trust rules are read through the interface [RuleSource]; the absent source
    stands for a cache that is not initialised yet, whose exception the code
    catches. *)
From S2P Require Import Prelude JsString JsMap RiskTypes ArgParser TrustRules BashArgs.
From S2P Require Import RegistrySyntax RegistryA RegistryB.

(** ** The rule source the classifier relies on *)

Class RuleSource (S : Type) := {
  find_base_risk : S → string → string → option string → option TrustRule;
  (** A rule is only returned where its directory scope allows it. *)
  find_base_risk_scoped s tool command cwd r :
    find_base_risk s tool command cwd = Some r → isScopeMatch r.(tr_scope) cwd = true }.

#[export] Program Instance TrustRuleCache_source : RuleSource TrustRuleCache :=
  {| find_base_risk := findBaseRisk |}.
Next Obligation.
  intros cache tool command cwd r H%findBaseRisk_some.
  by destruct H as (_ & key & _ & _ & (tm & _ & _ & Hscope) & _).
Qed.

Record SegmentRisk := {
  sr_risk : option Risk; sr_reason : string; sr_matchType : MatchType }.

Section Segment.
Context {Src : Type} {RS : RuleSource Src}.
Context (re_test : string → string → bool).
Context (registry : list (string * CommandRiskSpec)).
Context (toolName : ToolName) (source : option Src) (cwd : option string).

(** [getTrustRuleCache().findBaseRisk(...)] inside its [try]. *)
Definition cached_rule (command : string) : option TrustRule :=
  source ≫= λ s, find_base_risk s (tool_string toolName) command cwd.

(** Step 1: a user-defined rule for the segment decides. *)
Definition user_rule_result (command : string) : option SegmentRisk :=
  match cached_rule command with
  | Some r =>
      if bool_decide (r.(tr_origin) = user_defined) then
        Some {| sr_risk := Some r.(tr_risk); sr_reason := r.(tr_description);
                sr_matchType := user_rule |}
      else None
  | None => None
  end.

(** Step 2: own-property lookup by program name, then by base name. *)
Definition lookup_spec (program : string) : string * option CommandRiskSpec :=
  match map_get program registry with
  | Some s => (program, Some s)
  | None =>
      match last (split_char "/" program) with
      | Some bare => if truthy bare then (bare, map_get bare registry) else (program, None)
      | None => (program, None)
      end
  end.

(** Step 2b: help mode of a command without subcommands. *)
Definition help_mode (spec : CommandRiskSpec) (args : list string) : bool :=
  match spec.(subcommands) with None => true | Some _ => false end
  && negb (default false spec.(isWrapper))
  && hasStandaloneHelpFlag args spec.(argSchema).

(** Step 3: the wrapper runs no inner command. *)
Definition non_exec_mode (spec : CommandRiskSpec) (args : list string) : bool :=
  match spec.(nonExecFlags), args with
  | Some flags, arg :: _ => mem arg flags
  | _, _ => false
  end.

Definition inner_segment (inner : string * list string) (op : Operator) : CommandSegment :=
  {| command := join " " (inner.1 :: inner.2); program := inner.1; args := inner.2;
     operator := op; synthetic := None |}.

(** Step 4b: the keys the base risk is looked up with. *)
Definition subcommand_pattern (programName : string) (spec : CommandRiskSpec)
    (args : list string) : string :=
  match subcommandChain spec args with
  | [] => programName
  | chain => programName +:+ " " +:+ join " " chain
  end.

Definition positional_pattern (programName : string) (args : list string) : string :=
  let positionals :=
    match obj_get programName registry ≫= argSchema with
    | Some schema => (parseArgs args schema).(positionals)
    | None => List.filter (λ arg, negb (starts_with arg "-")) args
    end in
  match positionals with
  | [] => programName
  | _ => programName +:+ " " +:+ join " " positionals
  end.

(** The cached override of the base risk: the program with its positionals, else
    the program with its subcommand chain. *)
Definition base_override (programName : string) (spec : CommandRiskSpec)
    (args : list string) : option TrustRule :=
  let subcommandPattern := subcommand_pattern programName spec args in
  let positionalPattern := positional_pattern programName args in
  match cached_rule positionalPattern with
  | Some r => Some r
  | None =>
      if String.eqb subcommandPattern positionalPattern then None
      else cached_rule subcommandPattern
  end.

Definition override_matchType (rule : option TrustRule) : MatchType :=
  if isUserRule rule then user_rule else registry_match.

(** Step 5: argument rules. The accumulator is the highest matching rule so far
    and the positionals the pattern-only rules covered. *)
Record RuleAcc := {
  ra_best : option (Risk * string);
  ra_matched : list nat }.

Definition ra_hit (acc : RuleAcc) (rule : ArgRule) (matched : list nat) : RuleAcc :=
  {| ra_best :=
       match acc.(ra_best) with
       | None => Some (rule.(rule_risk), rule.(rule_reason))
       | Some (r, why) =>
           if (RISK_ORD r <? RISK_ORD rule.(rule_risk))%Z
           then Some (rule.(rule_risk), rule.(rule_reason)) else Some (r, why)
       end;
     ra_matched := acc.(ra_matched) ++ matched |}.

Definition matched_positionals (pattern : string) (positionals : list string) : list nat :=
  List.filter (λ i, match positionals !! i with
                    | Some p => re_test pattern p | None => false end)
    (seq 0 (length positionals)).

Definition rule_step (parsed : ParsedArgs) (allArgs : list string) (acc : RuleAcc)
    (rule : ArgRule) : RuleAcc :=
  match flags_of rule, pattern_of rule with
  | _ :: _, Some pattern =>
      let flagValueMatched :=
        existsb (λ flag, match map_get flag parsed.(flags) with
                         | Some (FlagStr v) => re_test pattern v | _ => false end)
          (flags_of rule)
        || existsb (matchesArgRule re_test rule) allArgs in
      if flagValueMatched then ra_hit acc rule [] else acc
  | _ :: _, None =>
      let flagMatched :=
        existsb (λ flag, map_has flag parsed.(flags)) (flags_of rule)
        || existsb (matchesArgRule re_test rule) allArgs in
      if flagMatched then ra_hit acc rule [] else acc
  | [], Some pattern =>
      let matched := matched_positionals pattern parsed.(positionals) in
      let positionalMatched :=
        match matched with [] => existsb (re_test pattern) allArgs | _ => true end in
      if positionalMatched then ra_hit acc rule matched else acc
  | [], None => ra_hit acc rule []
  end.

(** Whether some argument is covered by no rule. *)
Definition has_unmatched (rules : list ArgRule) (parsed : ParsedArgs)
    (allArgs : list string) (matched : list nat) : bool :=
  existsb (λ pi, negb (mem pi matched)) (seq 0 (length parsed.(positionals)))
  || existsb (λ arg, negb (starts_with arg "-")
       && negb (existsb (λ rule, matchesArgRule re_test rule arg
            || match pattern_of rule with
               | Some _ => mem arg (flags_of rule) | None => false end) rules))
       allArgs.

Definition empty_schema : ArgSchema :=
  {| valueFlags := None; positionalsDef := None; pathFlags := None;
     respectsDoubleDash := None |}.

Definition apply_arg_rules (spec : CommandRiskSpec) (allArgs : list string)
    (base : SegmentRisk) : SegmentRisk :=
  match default [] spec.(argRules) with
  | [] => base
  | rules =>
      let parsed := parseArgs allArgs (default empty_schema spec.(argSchema)) in
      let acc := foldl (rule_step parsed allArgs)
                   {| ra_best := None; ra_matched := [] |} rules in
      match acc.(ra_best) with
      | None => base
      | Some (argRuleMaxRisk, argRuleReason) =>
          let by_rule := {| sr_risk := Some argRuleMaxRisk; sr_reason := argRuleReason;
                            sr_matchType := registry_match |} in
          if js_ge (riskOrd (Some argRuleMaxRisk)) (riskOrd base.(sr_risk)) then by_rule
          else if negb (has_unmatched rules parsed allArgs acc.(ra_matched)) then by_rule
          else base
      end
  end.

(** Step 6: variable expansion escalates from at least the base risk. *)
Definition escalate_variables (program : string) (args : list string)
    (effectiveBaseRisk : option Risk) (r : SegmentRisk) : SegmentRisk :=
  if existsb (λ a, includes_char a "$") args then
    let escalated := escalateOne (maxRisk r.(sr_risk) effectiveBaseRisk) in
    if js_gt (riskOrd escalated) (riskOrd r.(sr_risk)) then
      {| sr_risk := escalated; sr_reason := program +:+ " with variable expansion";
         sr_matchType := r.(sr_matchType) |}
    else r
  else r.

Definition RM_SAFE_BARE_FILES : list string := ["BOOTSTRAP.md"].
Definition RM_BENIGN_FLAGS : list string :=
  ["-f"; "-i"; "-v"; "--force"; "--interactive"; "--verbose"].

(** Step 7: the sandboxed removal of one known safe file. *)
Definition rm_downgrade (programName : string) (args : list string) (r : SegmentRisk)
    : SegmentRisk :=
  if String.eqb programName "rm" && bool_decide (toolName = bash)
     && bool_decide (r.(sr_risk) = Some high) then
    let positionalArgs := List.filter (λ a, negb (starts_with a "-")) args in
    let flagArgs := List.filter (λ a, starts_with a "-") args in
    let allFlagsBenign := forallb (λ f, mem f RM_BENIGN_FLAGS) flagArgs in
    match positionalArgs with
    | [file] =>
        if allFlagsBenign && negb (includes_char file "/") && mem file RM_SAFE_BARE_FILES
        then {| sr_risk := Some medium;
                sr_reason := "rm of known safe file: " +:+ file;
                sr_matchType := registry_match |}
        else r
    | _ => r
    end
  else r.

(** Steps 4 to 7, for a command that is not unwrapped. *)
Definition classify_command (programName : string) (spec : CommandRiskSpec)
    (segment : CommandSegment) : SegmentRisk :=
  let resolvedSpec := (resolveSubcommand spec segment.(args)).1 in
  let cachedRule := base_override programName spec segment.(args) in
  let effectiveBaseRisk :=
    match cachedRule with
    | Some r => Some r.(tr_risk) | None => resolvedSpec.(baseRisk) end in
  let base :=
    {| sr_risk := effectiveBaseRisk;
       sr_reason :=
         match resolvedSpec.(spec_reason) with
         | Some why => if truthy why then why else segment.(program) +:+ " (default)"
         | None => segment.(program) +:+ " (default)"
         end;
       sr_matchType := override_matchType cachedRule |} in
  rm_downgrade programName segment.(args)
    (escalate_variables segment.(program) segment.(args) effectiveBaseRisk
      (apply_arg_rules resolvedSpec segment.(args) base)).

(** [classifySegment], with the recursive call on wrapped commands abstracted. *)
Definition classify_body (classify_inner : CommandSegment → SegmentRisk)
    (segment : CommandSegment) : SegmentRisk :=
  match user_rule_result segment.(command) with
  | Some r => r
  | None =>
      let '(programName, spec) := lookup_spec segment.(program) in
      match spec with
      | None => {| sr_risk := Some unknown;
                   sr_reason := "Unknown command: " +:+ segment.(program);
                   sr_matchType := unknown_match |}
      | Some spec =>
          if help_mode spec segment.(args) then
            {| sr_risk := Some low; sr_reason := segment.(program) +:+ " help output";
               sr_matchType := registry_match |}
          else if default false spec.(isWrapper) && negb (non_exec_mode spec segment.(args))
          then
            match getWrappedProgramWithArgs segment.(program) segment.(args) with
            | Some inner =>
                let innerResult := classify_inner (inner_segment inner segment.(operator)) in
                {| sr_risk := maxRisk spec.(baseRisk) innerResult.(sr_risk);
                   sr_reason :=
                     if truthy innerResult.(sr_reason) then innerResult.(sr_reason)
                     else programName +:+ " wrapping " +:+ inner.1;
                   sr_matchType := innerResult.(sr_matchType) |}
            | None =>
                {| sr_risk := spec.(baseRisk);
                   sr_reason :=
                     match spec.(spec_reason) with
                     | Some why => if truthy why then why else programName
                     | None => programName
                     end;
                   sr_matchType := registry_match |}
            end
          else classify_command programName spec segment
      end
  end.

(** The recursion unwraps commands, which shortens the argument list: one more
    unfolding than there are arguments is enough (lemma [classifySegment_eq]). *)
Fixpoint classify_fuel (fuel : nat) (segment : CommandSegment) : SegmentRisk :=
  match fuel with
  | O => {| sr_risk := None; sr_reason := ""; sr_matchType := unknown_match |}
  | S fuel => classify_body (classify_fuel fuel) segment
  end.

Definition classifySegment (segment : CommandSegment) : SegmentRisk :=
  classify_fuel (S (length segment.(args))) segment.

(** ** Termination of the unwrapping *)

Lemma unwrap_loop_shorter isEnv isTimeout skipFirst skipped args inner :
  unwrap_loop isEnv isTimeout skipFirst skipped args = Some inner →
  length inner.2 < length args.
Proof.
  assert (∀ n args skipped, length args ≤ n →
    unwrap_loop isEnv isTimeout skipFirst skipped args = Some inner →
    length inner.2 < length args) as Hn; [|by eapply Hn].
  clear args skipped. induction n as [|n IH]; intros [|arg rest] skipped Hlen; try done;
    simpl in *; [lia|].
  repeat case_match; simplify_eq/=; intros Hu; simplify_eq/=; try lia;
    apply IH in Hu; simpl in *; lia.
Qed.

Lemma wrapped_shorter program args inner :
  getWrappedProgramWithArgs program args = Some inner → length inner.2 < length args.
Proof. apply unwrap_loop_shorter. Qed.

Lemma classify_body_ext f g segment :
  (∀ inner, length inner.(args) < length segment.(args) → f inner = g inner) →
  classify_body f segment = classify_body g segment.
Proof.
  intros Hfg. unfold classify_body. destruct (user_rule_result _); [done|].
  destruct (lookup_spec _) as [pn [spec|]]; [|done].
  destruct (help_mode _ _); [done|]. destruct (_ && _); [|done].
  destruct (getWrappedProgramWithArgs _ _) as [inner|] eqn:Hw; [|done].
  by rewrite Hfg by (simpl; by eapply wrapped_shorter).
Qed.

Lemma classify_fuel_enough fuel segment :
  length segment.(args) < fuel → classify_fuel fuel segment = classifySegment segment.
Proof.
  unfold classifySegment.
  assert (∀ n m seg, length seg.(args) < n → length seg.(args) < m →
    classify_fuel n seg = classify_fuel m seg) as Henough;
    [|intros; apply Henough; lia].
  induction n as [|n IH]; intros [|m] seg Hn Hm; try lia. simpl.
  apply classify_body_ext. intros inner Hinner. apply IH; lia.
Qed.

(** The fuel never runs out: [classifySegment] satisfies its defining recursion. *)
Lemma classifySegment_eq segment :
  classifySegment segment = classify_body classifySegment segment.
Proof.
  unfold classifySegment at 1. simpl. apply classify_body_ext. intros inner Hinner.
  by apply classify_fuel_enough.
Qed.

(** ** The floor of the argument rules *)

Lemma ra_hit_matched acc rule m : (ra_hit acc rule m).(ra_matched) = acc.(ra_matched) ++ m.
Proof. done. Qed.

(** A covered positional is matched by a pattern-only rule. *)
Definition covered (rules : list ArgRule) (p : string) : Prop :=
  ∃ rule pattern, rule ∈ rules ∧ flags_of rule = [] ∧ pattern_of rule = Some pattern ∧
    re_test pattern p = true.

Lemma rule_step_matched parsed allArgs rules acc i :
  i ∈ (foldl (rule_step parsed allArgs) acc rules).(ra_matched) →
  i ∈ acc.(ra_matched) ∨
  ∃ p, parsed.(positionals) !! i = Some p ∧ covered rules p.
Proof.
  revert acc. induction rules as [|rule rules IH]; intros acc; simpl; [by left|].
  intros [Hi|(p & Hp & rule' & pat & Hin & ?)]%IH; cycle 1.
  { right. exists p. split; [done|]. exists rule', pat. split; [by right|done]. }
  unfold rule_step in Hi. destruct (flags_of rule) eqn:Hf, (pattern_of rule) as [pat|] eqn:Hpat.
  - assert (i ∈ ra_matched acc ++ matched_positionals pat (positionals parsed)) as Hi'.
    { destruct (matched_positionals pat _) eqn:Hm; [destruct (existsb _ _)|];
        rewrite ?ra_hit_matched, ?app_nil_r in *; done. }
    apply elem_of_app in Hi' as [|Hi']; [by left|]. right.
    apply list_elem_of_In, List.filter_In in Hi' as [_ Hi'].
    destruct (positionals parsed !! i) as [p|]; [|done]. exists p. split; [done|].
    exists rule, pat. split_and!; try done. by left.
  - rewrite ra_hit_matched, app_nil_r in Hi. by left.
  - destruct (_ || _); [rewrite ra_hit_matched, app_nil_r in Hi|]; by left.
  - destruct (_ || _); [rewrite ra_hit_matched, app_nil_r in Hi|]; by left.
Qed.

Lemma has_unmatched_false rules parsed allArgs matched :
  has_unmatched rules parsed allArgs matched = false →
  (∀ i, i < length parsed.(positionals) → i ∈ matched) ∧
  (∀ arg, arg ∈ allArgs → starts_with arg "-" = false →
     ∃ rule, rule ∈ rules ∧
       (matchesArgRule re_test rule arg = true ∨ arg ∈ flags_of rule)).
Proof.
  unfold has_unmatched. intros [H1 H2]%orb_false_elim. rewrite existsb_false in H1.
  rewrite existsb_false in H2. split.
  - intros i Hi. specialize (H1 i). rewrite negb_false_iff, mem_true in H1. apply H1.
    apply list_elem_of_In, in_seq. lia.
  - intros arg Harg Hdash. specialize (H2 arg Harg). rewrite Hdash in H2. simpl in H2.
    apply negb_false_iff, existsb_true in H2 as (rule & Hrule & Hm). exists rule.
    split; [done|]. apply orb_true_elim in Hm as [Hm|Hm]; [by left|right].
    destruct (pattern_of rule); [|done]. by apply mem_true.
Qed.

(** Argument rules lower the risk below the base risk only when every
    positional argument is covered by a pattern rule and every argument that is
    not a flag is accounted for by some rule. *)
Theorem deescalation_needs_coverage (spec : CommandRiskSpec) (allArgs : list string)
    (base : SegmentRisk) (b r : Risk) :
  base.(sr_risk) = Some b → (apply_arg_rules spec allArgs base).(sr_risk) = Some r →
  ¬ risk_le b r →
  let rules := default [] spec.(argRules) in
  (∀ p, p ∈ (parseArgs allArgs (default empty_schema spec.(argSchema))).(positionals) →
        covered rules p) ∧
  (∀ arg, arg ∈ allArgs → starts_with arg "-" = false →
     ∃ rule, rule ∈ rules ∧
       (matchesArgRule re_test rule arg = true ∨ arg ∈ flags_of rule)).
Proof.
  unfold apply_arg_rules. intros Hb Hr Hlt. simpl.
  destruct (default [] (argRules spec)) as [|rule0 rules] eqn:Hrules.
  { exfalso. apply Hlt. by simplify_eq. }
  set (parsed := parseArgs _ _) in *. set (acc := foldl _ _ _) in Hr.
  destruct (ra_best acc) as [[m why]|]; [|exfalso; apply Hlt; by simplify_eq].
  rewrite Hb in Hr. destruct (js_ge _ _) eqn:Hge.
  { exfalso. apply Hlt. simplify_eq/=. by apply js_ge_spec. }
  destruct (has_unmatched _ _ _ _) eqn:Hun; simpl in Hr.
  { exfalso. apply Hlt. by simplify_eq. }
  apply has_unmatched_false in Hun as [Hpos Hargs]. split; [|done].
  intros p (i & Hi)%list_elem_of_lookup_1.
  destruct (rule_step_matched parsed allArgs (rule0 :: rules)
    {| ra_best := None; ra_matched := [] |} i) as [Hn|(p' & Hp' & Hc)].
  - apply Hpos. by eapply lookup_lt_Some.
  - by apply elem_of_nil in Hn.
  - by simplify_eq.
Qed.

(** ** When a risk is defined

    A specification whose tree assigns a base risk everywhere, as the type of
    registry entries requires. *)
Inductive spec_defined : CommandRiskSpec → Prop :=
  | spec_defined_intro s b :
      s.(baseRisk) = Some b →
      (∀ subs name sub, s.(subcommands) = Some subs → (name, sub) ∈ subs →
         spec_defined sub) →
      spec_defined s.

Definition registry_defined : Prop :=
  ∀ name spec, (name, spec) ∈ registry → spec_defined spec.

Definition no_proto_args (args : list string) : Prop :=
  ∀ a, a ∈ args → a ∉ proto_names.

Lemma firstPositionalArg_elem args vf name :
  firstPositionalArg args vf = Some name → name ∈ args.
Proof.
  unfold firstPositionalArg. intros Hh. eapply positionals_elem.
  destruct (positionals _) as [|x xs] eqn:E; [done|]. injection Hh as ->.
  rewrite E. by left.
Qed.

Lemma subcommand_step_inv spec args name sub rem :
  subcommand_step spec args = Some (name, sub, rem) →
  ∃ subs, spec.(subcommands) = Some subs ∧ obj_get name subs = Some sub ∧
    name ∈ args ∧ rem = drop (S (index_of name args)) args.
Proof.
  unfold subcommand_step. destruct (subcommands spec) as [subs|], args as [|a args']; try done.
  destruct (firstPositionalArg _ _) as [n|] eqn:Hf; [|done].
  destruct (truthy n); [|done]. simpl negb. cbn [negb].
  destruct (obj_get n subs) eqn:Ho; [|done]. intros [= <- <- <-].
  exists subs. split_and!; try done. by eapply firstPositionalArg_elem.
Qed.

Lemma no_proto_drop n args : no_proto_args args → no_proto_args (drop n args).
Proof. intros H a Ha. apply H. by eapply elem_of_sublist, sublist_drop. Qed.

Lemma resolve_defined fuel spec args :
  spec_defined spec → no_proto_args args →
  spec_defined (resolve_fuel fuel spec args).1.
Proof.
  revert spec args. induction fuel as [|fuel IH]; intros spec args Hs Ha; [done|]. simpl.
  destruct (subcommand_step spec args) as [[[name sub] rem]|] eqn:Hstep; [|done].
  apply subcommand_step_inv in Hstep as (subs & Hsubs & Hget & Hin & ->).
  apply IH; [|by apply no_proto_drop]. inversion Hs as [? b _ Hsub]; subst.
  unfold obj_get in Hget. destruct (map_get name subs) eqn:Hm.
  - injection Hget as ->. eapply Hsub; [done|]. by apply map_get_elem.
  - destruct (mem name proto_names) eqn:Hp; [|done]. apply mem_true in Hp.
    by destruct (Ha name Hin).
Qed.

Lemma apply_arg_rules_defined spec args base :
  is_Some base.(sr_risk) → is_Some (apply_arg_rules spec args base).(sr_risk).
Proof.
  intros. unfold apply_arg_rules. repeat case_match; simpl; eauto.
Qed.

Lemma maxRisk_is_Some a b : is_Some a → is_Some b → is_Some (maxRisk a b).
Proof. intros [x ->] [y ->]. unfold maxRisk. case_match; eauto. Qed.

Lemma escalateOne_is_Some a : is_Some a → is_Some (escalateOne a).
Proof. intros [[] ->]; simpl; eauto. Qed.

Lemma classify_command_defined programName spec segment :
  spec_defined spec → no_proto_args segment.(args) →
  is_Some (classify_command programName spec segment).(sr_risk).
Proof.
  intros Hs Ha. unfold classify_command.
  pose proof (resolve_defined (length segment.(args)) spec _ Hs Ha) as Hr.
  fold (resolveSubcommand spec segment.(args)) in Hr.
  inversion Hr as [? b Hb _]; subst. rewrite Hb.
  set (eff := match base_override _ _ _ with Some r => _ | None => _ end).
  assert (is_Some eff) as Heff by (unfold eff; destruct (base_override _ _ _); eauto).
  set (r1 := apply_arg_rules _ _ _).
  assert (is_Some r1.(sr_risk)) as Hr1 by (by apply apply_arg_rules_defined).
  set (r2 := escalate_variables _ _ _ _).
  assert (is_Some r2.(sr_risk)) as Hr2.
  { unfold r2, escalate_variables. destruct (existsb _ _); [|done].
    destruct (js_gt _ _); [|done]. simpl. by apply escalateOne_is_Some, maxRisk_is_Some. }
  unfold rm_downgrade. repeat case_match; simpl; eauto.
Qed.

Lemma lookup_spec_defined program pn spec :
  registry_defined → lookup_spec program = (pn, Some spec) → spec_defined spec.
Proof.
  unfold lookup_spec. intros Hreg H0. repeat case_match; simplify_eq/=;
    (eapply Hreg; by apply map_get_elem).
Qed.

Lemma unwrap_loop_suffix isEnv isTimeout skipFirst skipped args inner :
  unwrap_loop isEnv isTimeout skipFirst skipped args = Some inner →
  ∃ n, inner.2 = drop n args.
Proof.
  assert (∀ n args skipped, length args ≤ n →
    unwrap_loop isEnv isTimeout skipFirst skipped args = Some inner →
    ∃ n, inner.2 = drop n args) as Hn; [|by eapply Hn].
  clear args skipped. induction n as [|n IH]; intros [|arg rest] skipped Hlen; try done;
    simpl in *; [lia|].
  repeat case_match; simplify_eq/=; intros Hu; simplify_eq/=;
    try (by exists 1); apply IH in Hu as [k Hk]; try (simpl in *; lia);
    rewrite Hk; [by exists (S (S k))|by exists (S k)..].
Qed.

(** C40: When every registry entry has a base risk and no argument is a property
    name of [Object.prototype], every command segment gets a risk. *)
Theorem classifySegment_defined (segment : CommandSegment) :
  registry_defined → no_proto_args segment.(args) →
  ∃ r, (classifySegment segment).(sr_risk) = Some r.
Proof.
  intros Hreg. remember (length segment.(args)) as n eqn:Hn. revert segment Hn.
  induction n as [n IH] using lt_wf_ind. intros segment -> Ha.
  rewrite classifySegment_eq. unfold classify_body.
  destruct (user_rule_result _) as [r|] eqn:Hu.
  { unfold user_rule_result in Hu. repeat case_match; simplify_eq/=; eauto. }
  destruct (lookup_spec _) as [pn [spec|]] eqn:Hl; [|by eexists].
  pose proof (lookup_spec_defined _ _ _ Hreg Hl) as Hs.
  destruct (help_mode _ _); [by eexists|]. destruct (_ && _).
  2: { by apply classify_command_defined. }
  inversion Hs as [? b Hb _]; subst. rewrite Hb.
  destruct (getWrappedProgramWithArgs _ _) as [inner|] eqn:Hw; [|by eexists].
  apply maxRisk_is_Some; [by eexists|]. eapply IH; [|done|].
  - simpl. by eapply wrapped_shorter.
  - simpl. destruct (unwrap_loop_suffix _ _ _ _ _ _ Hw) as [k ->]. by apply no_proto_drop.
Qed.

(** ** Wrappers *)

Lemma help_mode_wrapper spec args : spec.(isWrapper) = Some true → help_mode spec args = false.
Proof. unfold help_mode. intros ->. by rewrite andb_false_r. Qed.

Lemma maxRisk_ub a b : ∃ m, maxRisk (Some a) (Some b) = Some m ∧ risk_le a m ∧ risk_le b m.
Proof. destruct (maxRisk_Some a b) as (m & ? & ? & ? & _). eauto. Qed.

(** A wrapper ([sudo], [env], [timeout], ...) is at least as risky as itself and
    as the command [getWrappedProgramWithArgs] finds in it, unless the user has a
    rule for the whole segment. What it finds need not be what runs:
    [nice_value_hides_command] in Registry.v. *)
Theorem wrapper_never_hides (segment : CommandSegment) (pn : string)
    (spec : CommandRiskSpec) (inner : string * list string) (rb ri : Risk) :
  user_rule_result segment.(command) = None →
  lookup_spec segment.(program) = (pn, Some spec) →
  spec.(isWrapper) = Some true → non_exec_mode spec segment.(args) = false →
  getWrappedProgramWithArgs segment.(program) segment.(args) = Some inner →
  spec.(baseRisk) = Some rb →
  (classifySegment (inner_segment inner segment.(operator))).(sr_risk) = Some ri →
  ∃ r, (classifySegment segment).(sr_risk) = Some r ∧ risk_le rb r ∧ risk_le ri r.
Proof.
  intros Hu Hl Hw Hne Hinner Hb Hi. rewrite classifySegment_eq. unfold classify_body.
  rewrite Hu, Hl, help_mode_wrapper, Hw, Hne, Hinner by done. simpl.
  rewrite Hb, Hi. apply maxRisk_ub.
Qed.

(** ** Variable expansion *)

Lemma escalateOne_medium a e : escalateOne (Some a) = Some e → risk_le medium e.
Proof. destruct a; intros [= <-]; unfold risk_le; simpl; lia. Qed.

Lemma rm_downgrade_cases pn args r :
  rm_downgrade pn args r = r ∨
  (rm_downgrade pn args r).(sr_risk) = Some medium ∧ r.(sr_risk) = Some high ∧
  pn = "rm" ∧ toolName = bash ∧
  ∃ file, List.filter (λ a, negb (starts_with a "-")) args = [file] ∧
    file ∈ RM_SAFE_BARE_FILES ∧
    ∀ a, a ∈ args → starts_with a "-" = true → a ∈ RM_BENIGN_FLAGS.
Proof.
  unfold rm_downgrade. destruct (_ && _ && _) eqn:Hg; [|by left]. bool_to_prop.
  destruct (List.filter (λ a, negb (starts_with a "-")) args) as [|file [|]] eqn:Hpos;
    try by left.
  destruct (_ && _ && _) eqn:Hf; [|by left]. apply andb_prop in Hf as [Hf Hsafe].
  apply andb_prop in Hf as [Hflags _]. apply mem_true in Hsafe. right.
  split_and!; try done. exists file. split_and!; try done. intros a Ha Hdash.
  rewrite forallb_true in Hflags. apply mem_true, Hflags.
  apply list_elem_of_In, List.filter_In. by rewrite <- list_elem_of_In.
Qed.

(** A command whose arguments contain a variable expansion is at least medium
    risk, whatever its argument rules and the cached base risk say. *)
Theorem variable_expansion_escalates (pn : string) (spec : CommandRiskSpec)
    (segment : CommandSegment) (a : string) :
  spec_defined spec → no_proto_args segment.(args) →
  a ∈ segment.(args) → includes_char a "$" = true →
  ∃ r, (classify_command pn spec segment).(sr_risk) = Some r ∧ risk_le medium r.
Proof.
  intros Hs Hproto Ha Hdollar. unfold classify_command.
  pose proof (resolve_defined (length segment.(args)) spec _ Hs Hproto) as Hr.
  fold (resolveSubcommand spec segment.(args)) in Hr.
  inversion Hr as [? b Hb _]; subst. rewrite Hb.
  set (eff := match base_override _ _ _ with Some r => _ | None => _ end).
  assert (∃ e, eff = Some e) as [e He] by (unfold eff; destruct (base_override _ _ _); eauto).
  set (r1 := apply_arg_rules _ _ _).
  assert (is_Some r1.(sr_risk)) as [x Hx].
  { apply apply_arg_rules_defined. simpl. rewrite He. eauto. }
  set (r2 := escalate_variables _ _ _ _).
  assert (∃ y, r2.(sr_risk) = Some y ∧ risk_le medium y) as (y & Hy & Hmed).
  { unfold r2, escalate_variables.
    rewrite (proj2 (existsb_true (λ a, includes_char a "$") segment.(args))) by eauto.
    rewrite Hx, He. destruct (maxRisk_ub x e) as (m & Hm & _ & _). rewrite Hm.
    destruct (escalateOne_is_Some (Some m)) as [z Hz]; [by eexists|]. rewrite Hz.
    pose proof (escalateOne_medium _ _ Hz) as Hzm.
    destruct (js_gt _ _) eqn:Hgt; simpl; [by exists z|].
    apply js_gt_spec in Hgt. exists x. split; [done|]. by transitivity z. }
  destruct (rm_downgrade_cases pn segment.(args) r2) as [->|(-> & _)]; [by exists y|].
  exists medium. split; [done|]. reflexivity.
Qed.

(** The only classification the [rm] exemption changes is a high-risk sandboxed
    [rm] of exactly one listed file with benign flags; on the host nothing is
    downgraded. *)
Theorem rm_downgrade_only_safe_file (pn : string) (args : list string) (r : SegmentRisk) :
  rm_downgrade pn args r ≠ r →
  (rm_downgrade pn args r).(sr_risk) = Some medium ∧ r.(sr_risk) = Some high ∧
  pn = "rm" ∧ toolName = bash ∧
  ∃ file, List.filter (λ a, negb (starts_with a "-")) args = [file] ∧
    file ∈ RM_SAFE_BARE_FILES ∧
    ∀ a, a ∈ args → starts_with a "-" = true → a ∈ RM_BENIGN_FLAGS.
Proof. intros Hne. by destruct (rm_downgrade_cases pn args r). Qed.

(** ** Where the label [user_rule] comes from *)

Lemma cached_rule_in_scope command r :
  cached_rule command = Some r →
  ∃ s, source = Some s ∧ find_base_risk s (tool_string toolName) command cwd = Some r ∧
    isScopeMatch r.(tr_scope) cwd = true.
Proof.
  unfold cached_rule. destruct source as [s|]; [|done]. simpl. intros Hr. exists s.
  split_and!; try done. by eapply find_base_risk_scoped.
Qed.

(** A rule the user authored, returned by the source for this tool and in scope. *)
Definition user_rule_witness : Prop :=
  ∃ s command r, source = Some s ∧
    find_base_risk s (tool_string toolName) command cwd = Some r ∧
    isUserRule (Some r) = true ∧ isScopeMatch r.(tr_scope) cwd = true.

Lemma base_override_witness pn spec args :
  isUserRule (base_override pn spec args) = true → user_rule_witness.
Proof.
  unfold base_override. set (p1 := subcommand_pattern _ _ _).
  set (p2 := positional_pattern _ _).
  intros Hu. destruct (cached_rule p2) as [r|] eqn:Hc.
  - apply cached_rule_in_scope in Hc as (s & ? & ? & ?). by exists s, p2, r.
  - destruct (String.eqb p1 p2); [done|]. destruct (cached_rule p1) as [r|] eqn:Hc1; [|done].
    apply cached_rule_in_scope in Hc1 as (s & ? & ? & ?). by exists s, p1, r.
Qed.

Lemma classify_command_user_rule pn spec segment :
  (classify_command pn spec segment).(sr_matchType) = user_rule → user_rule_witness.
Proof.
  unfold classify_command. intros Hm. apply (base_override_witness pn spec segment.(args)).
  destruct (isUserRule (base_override pn spec (args segment))) eqn:Hu; [done|]. exfalso.
  assert (∀ spec args base, base.(sr_matchType) = registry_match →
    (apply_arg_rules spec args base).(sr_matchType) = registry_match) as Happly.
  { intros ??? Hb. unfold apply_arg_rules. by repeat case_match. }
  assert (∀ p a e r, r.(sr_matchType) = registry_match →
    (escalate_variables p a e r).(sr_matchType) = registry_match) as Hesc.
  { intros ???? Hb. unfold escalate_variables. by repeat case_match. }
  assert (∀ p a r, r.(sr_matchType) = registry_match →
    (rm_downgrade p a r).(sr_matchType) = registry_match) as Hrm.
  { intros ??? Hb. unfold rm_downgrade. by repeat case_match. }
  rewrite Hrm in Hm; [done|]. apply Hesc, Happly. simpl. unfold override_matchType.
  by rewrite Hu.
Qed.

(** A segment is reported as decided by a user rule only when the rule source
    holds, for this tool, a rule the user authored whose directory scope covers
    the working directory. *)
Theorem user_rule_provenance (segment : CommandSegment) :
  (classifySegment segment).(sr_matchType) = user_rule → user_rule_witness.
Proof.
  remember (length segment.(args)) as n eqn:Hn. revert segment Hn.
  induction n as [n IH] using lt_wf_ind. intros segment ->.
  rewrite classifySegment_eq. unfold classify_body.
  destruct (user_rule_result _) as [r|] eqn:Hu.
  { intros _. unfold user_rule_result in Hu.
    destruct (cached_rule (command segment)) as [rule|] eqn:Hc; [|done].
    destruct (bool_decide _) eqn:Ho; [|done].
    apply cached_rule_in_scope in Hc as (s & ? & ? & ?). exists s, (command segment), rule.
    split_and!; try done. simpl. by rewrite Ho, orb_true_r. }
  destruct (lookup_spec _) as [pn [spec|]]; [|done].
  destruct (help_mode _ _); [done|]. destruct (_ && _).
  2: { apply classify_command_user_rule. }
  destruct (getWrappedProgramWithArgs _ _) as [inner|] eqn:Hw; [|done]. simpl.
  apply (IH (length inner.2)); [by eapply wrapped_shorter|done].
Qed.
End Segment.

Arguments classifySegment {Src RS} re_test registry toolName source cwd segment.
Arguments classify_command {Src RS} re_test registry toolName source cwd
  programName spec segment.
Arguments user_rule_witness {Src RS} toolName source cwd.

(** ** Checking the hypotheses by computation *)

Fixpoint spec_definedb (spec : CommandRiskSpec) : bool :=
  match spec with
  | Spec b subs _ _ _ _ _ _ _ _ =>
      bool_decide (is_Some b) &&
      match subs with
      | None => true
      | Some subs =>
          (fix go (subs : list (string * CommandRiskSpec)) :=
             match subs with
             | [] => true
             | (_, sub) :: subs => spec_definedb sub && go subs
             end) subs
      end
  end.

Lemma spec_definedb_sound : ∀ spec, spec_definedb spec = true → spec_defined spec.
Proof.
  fix IH 1. intros [b subs a1 a2 a3 a4 a5 a6 a7 a8].
  cbn [spec_definedb]. intros [Hb Hsubs]%andb_prop.
  apply bool_decide_eq_true in Hb as [r ->].
  apply (spec_defined_intro _ r); [done|]. cbn [subcommands].
  destruct subs as [subs|]; [|done]. intros subs' name sub Heq Hin.
  injection Heq as <-. revert Hsubs Hin.
  induction subs as [|[n s] subs IHs]; intros Hsubs Hin.
  - by apply elem_of_nil in Hin.
  - apply andb_prop in Hsubs as [Hs Hrest]. apply elem_of_cons in Hin as [Heq|Hin].
    + injection Heq as _ ->. exact (IH s Hs).
    + exact (IHs Hrest Hin).
Qed.

Lemma registry_definedb_sound registry :
  forallb (λ e, spec_definedb e.2) registry = true → registry_defined registry.
Proof.
  rewrite forallb_true. intros H name spec Hin.
  apply spec_definedb_sound, (H (name, spec) Hin).
Qed.


Lemma no_proto_argsb args :
  forallb (λ a, negb (mem a proto_names)) args = true → no_proto_args args.
Proof.
  rewrite forallb_true. intros H a Ha. by apply mem_false, negb_true_iff, H.
Qed.

(** ** Concrete instances *)

Definition sample_registry : list (string * CommandRiskSpec) :=
  [("sudo", cmd_sudo); ("git", cmd_git); ("curl", cmd_curl); ("rm", cmd_rm)].

Definition sample_test (pattern s : string) : bool :=
  String.eqb pattern "^https?://(localhost|127\.0\.0\.1|\[::1\])"
  && starts_with s "http://localhost".

Definition sample_segment (program : string) (args : list string) : CommandSegment :=
  {| command := join " " (program :: args); program := program; args := args;
     operator := OpNone; synthetic := None |}.

Definition no_source : option TrustRuleCache := None.

Lemma deescalation_needs_coverage_witness :
  let base := {| sr_risk := Some medium; sr_reason := ""; sr_matchType := registry_match |} in
  (apply_arg_rules sample_test cmd_curl ["http://localhost:3000"] base).(sr_risk) = Some low ∧
  covered sample_test (default [] cmd_curl.(argRules)) "http://localhost:3000".
Proof.
  split; [vm_compute; reflexivity|].
  eapply (deescalation_needs_coverage sample_test cmd_curl ["http://localhost:3000"]
    {| sr_risk := Some medium; sr_reason := ""; sr_matchType := registry_match |}
    medium low); [reflexivity|vm_compute; reflexivity|vm_compute; congruence|].
  vm_compute. left.
Defined.

Lemma classifySegment_defined_witness :
  ∃ r, (classifySegment sample_test sample_registry bash no_source None
          (sample_segment "sudo" ["git"; "push"; "origin"])).(sr_risk) = Some r.
Proof.
  apply (classifySegment_defined sample_test sample_registry bash no_source None).
  - apply registry_definedb_sound. vm_compute. reflexivity.
  - apply no_proto_argsb. vm_compute. reflexivity.
Defined.

Lemma wrapper_never_hides_witness :
  ∃ r, (classifySegment sample_test sample_registry bash no_source None
          (sample_segment "sudo" ["git"; "status"])).(sr_risk) = Some r ∧
       risk_le high r ∧ risk_le low r.
Proof.
  eapply (wrapper_never_hides sample_test sample_registry bash no_source None
    (sample_segment "sudo" ["git"; "status"]) "sudo" cmd_sudo ("git", ["status"]) high low);
    vm_compute; reflexivity.
Defined.

Lemma variable_expansion_escalates_witness :
  ∃ r, (classify_command sample_test sample_registry bash no_source None "git" cmd_git
          (sample_segment "git" ["status"; "$DIR"])).(sr_risk) = Some r ∧ risk_le medium r.
Proof.
  eapply (variable_expansion_escalates sample_test sample_registry bash no_source None
    "git" cmd_git (sample_segment "git" ["status"; "$DIR"]) "$DIR").
  - apply spec_definedb_sound. vm_compute. reflexivity.
  - apply no_proto_argsb. vm_compute. reflexivity.
  - right. left.
  - reflexivity.
Defined.

Lemma rm_downgrade_only_safe_file_witness :
  (rm_downgrade bash "rm" ["-f"; "BOOTSTRAP.md"]
     {| sr_risk := Some high; sr_reason := "rm"; sr_matchType := registry_match |}).(sr_risk)
  = Some medium.
Proof.
  apply (rm_downgrade_only_safe_file bash "rm" ["-f"; "BOOTSTRAP.md"]
    {| sr_risk := Some high; sr_reason := "rm"; sr_matchType := registry_match |}).
  vm_compute. discriminate.
Defined.

Lemma user_rule_provenance_witness :
  let cache := refresh [sample_rule "git push" (Some "/work/*")] in
  user_rule_witness bash (Some cache) (Some "/work/app").
Proof.
  simpl. eapply (user_rule_provenance sample_test sample_registry bash
    (Some (refresh [sample_rule "git push" (Some "/work/*")])) (Some "/work/app")
    (sample_segment "git" ["push"; "origin"])).
  vm_compute. reflexivity.
Defined.
