(* ===== verification/ShellIdentity.v ===== *)
(** Shell identity ([gateway/src/risk/shell-identity.ts]): the parse cache, the
    action keys that name the family of a command, and the allowlist options
    built from them. *)
From S2P Require Import Prelude JsString JsMap RiskTypes.

(** ** The parse cache

    [parse] is asynchronous: a call that misses suspends, other calls run, and the
    call resumes with [cache_insert]. The two halves are separate steps. *)
Section ParseCache.
Context (parse : string → ParsedCommand).

Abbreviation ParseCache := (list (string * ParsedCommand)).

Definition PARSE_CACHE_MAX : nat := 256.

(** The synchronous part of a call: a hit moves the entry to the end. *)
Definition cache_lookup (command : string) (cache : ParseCache)
    : option ParsedCommand * ParseCache :=
  match map_get command cache with
  | Some cached => (Some cached, map_set command cached (map_delete command cache))
  | None => (None, cache)
  end.

(** After the [await]: evict the oldest entry at capacity, then store. *)
Definition cache_insert (command : string) (result : ParsedCommand) (cache : ParseCache)
    : ParseCache :=
  let evicted :=
    if (PARSE_CACHE_MAX <=? map_size cache)%nat then
      match map_first_key cache with
      | Some oldest => map_delete oldest cache
      | None => cache
      end
    else cache in
  map_set command result evicted.

(** A call that is not interleaved. *)
Definition cachedParse (command : string) (cache : ParseCache) : ParsedCommand * ParseCache :=
  match cache_lookup command cache with
  | (Some cached, cache') => (cached, cache')
  | (None, cache') => let result := parse command in (result, cache_insert command result cache')
  end.

Inductive CacheStep := LookupStep (command : string) | InsertStep (command : string).

Definition run_cache_step (cache : ParseCache) (s : CacheStep) : ParseCache :=
  match s with
  | LookupStep c => (cache_lookup c cache).2
  | InsertStep c => cache_insert c (parse c) cache
  end.

Definition cache_ok (cache : ParseCache) : Prop :=
  map_wf cache ∧ map_size cache ≤ PARSE_CACHE_MAX ∧
  ∀ c p, map_get c cache = Some p → p = parse c.

Lemma cache_lookup_ok c cache : cache_ok cache → cache_ok (cache_lookup c cache).2.
Proof.
  intros (Hwf & Hsize & Hval). unfold cache_lookup.
  destruct (map_get c cache) as [p|] eqn:Hget; [|done]. simpl. split_and!.
  - by apply map_wf_set, map_wf_delete.
  - rewrite size_set.
    assert (c ∉ (map_delete c cache).*1) as Hc.
    { rewrite keys_delete, list_elem_of_filter. by intros [[] _]. }
    rewrite decide_False by done.
    assert (c ∈ cache.*1) as Hin.
    { destruct (decide (c ∈ cache.*1)) as [|Hn]; [done|].
      apply map_get_None in Hn. congruence. }
    unfold map_size in *. rewrite <- (length_fmap fst (map_delete c cache)), keys_delete.
    rewrite <- (length_fmap fst cache) in Hsize.
    assert (length (filter (λ k, k ≠ c) cache.*1) < length cache.*1); [|lia].
    apply (length_filter_lt _ _ c Hin). by intros [].
  - intros c' p'. rewrite map_get_set, map_get_delete. case_decide; subst; [|by apply Hval].
    intros [= <-]. by apply Hval.
Qed.

Lemma cache_insert_ok c cache : cache_ok cache → cache_ok (cache_insert c (parse c) cache).
Proof.
  intros (Hwf & Hsize & Hval). unfold cache_insert.
  set (evicted := if (PARSE_CACHE_MAX <=? map_size cache)%nat then _ else cache).
  assert (map_wf evicted ∧ S (map_size evicted) ≤ PARSE_CACHE_MAX ∧
          ∀ c p, map_get c evicted = Some p → p = parse c) as (Hwf' & Hsize' & Hval').
  { unfold evicted. destruct (PARSE_CACHE_MAX <=? map_size cache)%nat eqn:Hfull;
      bool_to_prop; [|by split_and!].
    destruct (map_first_key cache) as [k|] eqn:Hk.
    - split_and!; [by apply map_wf_delete|by rewrite (size_delete_first cache k)|].
      intros c' p. rewrite map_get_delete. case_decide; [done|]. apply Hval.
    - destruct cache as [|[k v] cache]; [|done]. unfold PARSE_CACHE_MAX in Hfull.
      simpl in Hfull. lia. }
  split_and!.
  - by apply map_wf_set.
  - rewrite size_set. case_decide; lia.
  - intros c' p'. rewrite map_get_set. case_decide; subst; [by intros [= <-]|apply Hval'].
Qed.

(** Under any interleaving of concurrent calls the parse cache is transparent
    and bounded: what a lookup answers is what the parser would answer, and the
    cache never holds more than 256 commands. *)
Theorem parse_cache_transparent (steps : list CacheStep) (command : string) :
  let cache := foldl run_cache_step [] steps in
  (cachedParse command cache).1 = parse command ∧ map_size cache ≤ PARSE_CACHE_MAX.
Proof.
  assert (∀ c, cache_ok c → cache_ok (foldl run_cache_step c steps)) as Hok.
  { induction steps as [|s steps IH]; intros c Hc; [done|]. simpl. apply IH.
    destruct s; [by apply cache_lookup_ok|by apply cache_insert_ok]. }
  destruct (Hok []) as (_ & Hsize & Hval).
  { split_and!; [constructor|unfold PARSE_CACHE_MAX; simpl; lia|done]. }
  simpl. split; [|done]. unfold cachedParse, cache_lookup.
  destruct (map_get command _) as [p|] eqn:Hget; [|done]. by apply Hval.
Qed.
End ParseCache.

(** ** Action keys *)

Definition SETUP_PREFIX_PROGRAMS : list string := ["cd"; "pushd"; "export"; "unset"; "set"].
Definition MAX_ACTION_KEY_DEPTH : nat := 3.

Record ShellActionKey := { key : string; depth : nat }.

Record ActionKeyResult := {
  keys : list ShellActionKey;
  isSimpleAction : bool;
  primarySegment : option CommandSegment }.

Definition no_keys : ActionKeyResult :=
  {| keys := []; isSimpleAction := false; primarySegment := None |}.

Definition is_digit (c : ascii) : bool :=
  let n := nat_of_ascii c in (48 <=? n) && (n <=? 57).

(** [/^\d+$/.test(arg)] *)
Definition all_digits (s : string) : bool :=
  truthy s && forallb is_digit (String.list_ascii_of_string s).

(** A word that may name a subcommand: not a flag, a path, a number, nor a word
    with an expansion or a quote. *)
Definition stable_token (arg : string) : bool :=
  negb (starts_with arg "-")
  && negb (includes_char arg "/" || starts_with arg ".")
  && negb (all_digits arg)
  && negb (includes_char arg "$" || includes_char arg (ascii_of_nat 34)
           || includes_char arg "'").

(** The loop over the arguments, stopping at the maximal depth. *)
Fixpoint collect_tokens (tokens args : list string) : list string :=
  match args with
  | [] => tokens
  | arg :: args =>
      if (MAX_ACTION_KEY_DEPTH <=? length tokens)%nat then tokens
      else if stable_token arg then collect_tokens (tokens ++ [arg]) args
      else collect_tokens tokens args
  end.

Definition action_tokens (seg : CommandSegment) : list string :=
  collect_tokens [seg.(program)] seg.(args).

(** [for (let depth = tokens.length; depth >= 1; depth--)] *)
Definition build_keys (tokens : list string) : list ShellActionKey :=
  (λ d, {| key := "action:" +:+ join " " (take d tokens); depth := d |})
    <$> rev (seq 1 (length tokens)).

Definition is_setup (seg : CommandSegment) : bool := mem seg.(program) SETUP_PREFIX_PROGRAMS.

Definition op_is (o : Operator) (seg : CommandSegment) : bool :=
  bool_decide (seg.(operator) = o).

(** A non-empty operator other than [&&] and [|]. *)
Definition complex_operator (seg : CommandSegment) : bool :=
  negb (op_is OpNone seg) && negb (op_is OpAnd seg) && negb (op_is OpPipe seg).

(** [segments.findIndex(s => s.operator === "|")] *)
Fixpoint first_pipe (segs : list CommandSegment) : option nat :=
  match segs with
  | [] => None
  | s :: segs => if op_is OpPipe s then Some 0 else S <$> first_pipe segs
  end.

Definition pipeline_keys (segs : list CommandSegment) : ActionKeyResult :=
  match first_pipe segs with
  | Some (S i) =>
      match List.filter (λ s, negb (is_setup s)) (take (S i) segs) with
      | [seg] => {| keys := build_keys (action_tokens seg); isSimpleAction := false;
                    primarySegment := Some seg |}
      | _ => no_keys
      end
  | _ => no_keys
  end.

(** Setup prefixes are skipped up to the first other segment. *)
Fixpoint action_segments (segs : list CommandSegment) : list CommandSegment :=
  match segs with
  | [] => []
  | seg :: rest => if is_setup seg then action_segments rest else segs
  end.

Definition simple_keys (segs : list CommandSegment) : ActionKeyResult :=
  match action_segments segs with
  | [seg] => {| keys := build_keys (action_tokens seg); isSimpleAction := true;
                primarySegment := Some seg |}
  | _ => no_keys
  end.

Definition deriveShellActionKeys (segs : list CommandSegment) : ActionKeyResult :=
  match segs with
  | [] => no_keys
  | [_] => simple_keys segs
  | _ :: rest =>
      if existsb complex_operator segs then no_keys
      else if existsb (op_is OpNone) rest then no_keys
      else if existsb (op_is OpPipe) segs then pipeline_keys segs
      else simple_keys segs
  end.

(** ** Allowlist options *)

(** [key.replace(/^action:/, "")] *)
Definition strip_action (k : string) : string :=
  if starts_with k "action:" then slice_from 7 k else k.

Definition quote : string := String (ascii_of_nat 34) "".

Definition key_option (k : ShellActionKey) : AllowlistOption :=
  let keyTokens := strip_action k.(key) in
  {| al_label := keyTokens +:+ " *";
     al_description := "Any " +:+ quote +:+ keyTokens +:+ quote +:+ " command";
     al_pattern := k.(key) |}.

(** [options.filter] with a [seen] set: the first option of each pattern stays. *)
Fixpoint dedup_options (seen : list string) (options : list AllowlistOption)
    : list AllowlistOption :=
  match options with
  | [] => []
  | o :: options =>
      if mem o.(al_pattern) seen then dedup_options seen options
      else o :: dedup_options (o.(al_pattern) :: seen) options
  end.

Definition buildShellAllowlistOptions (parse : string → ParsedCommand) (command : string)
    : list AllowlistOption :=
  let trimmed := trim command in
  if negb (truthy trimmed) then []
  else
    let actionResult := deriveShellActionKeys (parse trimmed).(segments) in
    match actionResult.(isSimpleAction), actionResult.(primarySegment) with
    | true, Some _ =>
        dedup_options []
          ({| al_label := trimmed; al_description := "This exact command";
              al_pattern := trimmed |} :: (key_option <$> actionResult.(keys)))
    | _, _ =>
        {| al_label := trimmed; al_description := "This exact compound command";
           al_pattern := trimmed |} :: (key_option <$> actionResult.(keys))
    end.

(** ** What the keys say about the command *)

Lemma collect_tokens_prefix tokens args :
  ∃ extra, collect_tokens tokens args = tokens ++ extra ∧
    extra `sublist_of` args ∧ Forall (λ a, stable_token a = true) extra ∧
    (length tokens ≤ MAX_ACTION_KEY_DEPTH →
     length (tokens ++ extra) ≤ MAX_ACTION_KEY_DEPTH).
Proof.
  revert tokens. induction args as [|a args IH]; intros tokens; cbn [collect_tokens].
  { exists []. rewrite app_nil_r. split_and!; done. }
  destruct (MAX_ACTION_KEY_DEPTH <=? length tokens)%nat eqn:Hd; bool_to_prop.
  { exists []. rewrite app_nil_r. split_and!; try done. apply sublist_nil_l. }
  destruct (stable_token a) eqn:Hs.
  - destruct (IH (tokens ++ [a])) as (extra & -> & Hsub & Hst & Hlen).
    exists (a :: extra). rewrite <- app_assoc in *. split_and!; try done.
    + by constructor.
    + by constructor.
    + intros _. apply Hlen. rewrite length_app. simpl. lia.
  - destruct (IH tokens) as (extra & -> & Hsub & Hst & Hlen). exists extra.
    split_and!; try done. by constructor.
Qed.

(** The result names a segment [seg]: every key is [action:] with a word prefix of
    the program and at most two of its stable arguments, narrowest first. *)
Definition keys_name (ks : list ShellActionKey) (seg : CommandSegment) : Prop :=
  ∃ extra, extra `sublist_of` seg.(args) ∧ Forall (λ a, stable_token a = true) extra ∧
    length (seg.(program) :: extra) ≤ MAX_ACTION_KEY_DEPTH ∧
    ks = build_keys (seg.(program) :: extra).

Lemma action_tokens_keys seg : keys_name (build_keys (action_tokens seg)) seg.
Proof.
  destruct (collect_tokens_prefix [seg.(program)] seg.(args)) as (extra & Heq & Hsub & Hst & Hlen).
  exists extra. split_and!; try done.
  - apply Hlen. unfold MAX_ACTION_KEY_DEPTH. simpl. lia.
  - unfold action_tokens. by rewrite Heq.
Qed.

Lemma first_pipe_Some segs i :
  first_pipe segs = Some i →
  ∃ pre s post, segs = pre ++ s :: post ∧ length pre = i ∧ op_is OpPipe s = true ∧
    Forall (λ s, op_is OpPipe s = false) pre.
Proof.
  revert i. induction segs as [|s segs IH]; intros i; simpl; [done|].
  destruct (op_is OpPipe s) eqn:Ho.
  - intros [= <-]. by exists [], s, segs.
  - destruct (first_pipe segs) as [j|] eqn:Hj; [|done]. intros [= <-].
    destruct (IH j eq_refl) as (pre & s' & post & -> & <- & ? & ?).
    exists (s :: pre), s', post. split_and!; try done. by constructor.
Qed.

Lemma action_segments_spec segs seg :
  action_segments segs = [seg] →
  ∃ pre, segs = pre ++ [seg] ∧ Forall (λ s, is_setup s = true) pre ∧ is_setup seg = false.
Proof.
  induction segs as [|s segs IH]; simpl; [done|]. destruct (is_setup s) eqn:Hs.
  - intros (pre & -> & ? & ?)%IH. exists (s :: pre). split_and!; try done. by constructor.
  - intros [= -> ->]. by exists [].
Qed.

Lemma filter_singleton {A} (f : A → bool) xs x :
  List.filter f xs = [x] →
  ∃ a b, xs = a ++ x :: b ∧ f x = true ∧ Forall (λ y, f y = false) (a ++ b).
Proof.
  induction xs as [|y xs IH]; simpl; [done|]. destruct (f y) eqn:Hy.
  - intros [= -> Hn]. exists [], xs. split_and!; try done.
    apply Forall_forall. intros z Hz. destruct (f z) eqn:Hfz; [|done].
    assert (z ∈ List.filter f xs) as Hz'.
    { apply list_elem_of_In, List.filter_In. by rewrite <- list_elem_of_In. }
    rewrite Hn in Hz'. by apply elem_of_nil in Hz'.
  - intros (a & b & -> & Hx & Hab)%IH. exists (y :: a), b. split_and!; try done.
    by constructor.
Qed.

Lemma no_complex_chain segs :
  existsb complex_operator segs = false → existsb (op_is OpNone) (tail segs) = false →
  Forall (λ s, s.(operator) = OpAnd ∨ s.(operator) = OpPipe) (tail segs).
Proof.
  intros Hc Hn. apply Forall_forall. intros s Hs.
  rewrite existsb_false in Hc, Hn. specialize (Hn s Hs).
  assert (s ∈ segs) as Hs'. { destruct segs; [done|]. by right. }
  specialize (Hc s Hs'). unfold complex_operator, op_is in *.
  destruct (operator s); vm_compute in Hc, Hn; try done; [by left|by right].
Qed.

(** Action keys are only derived for a command that is one action: the keys name
    a segment that is not a setup command; in a simple command everything before
    it is setup joined by [&&] and nothing follows, in a pipeline it is the only
    action before the first pipe; commands with [;], [||] or an uncaptured
    separator get no keys. *)
Theorem action_keys_single_action (segs : list CommandSegment) :
  let result := deriveShellActionKeys segs in
  match result.(primarySegment) with
  | None => result.(keys) = [] ∧ result.(isSimpleAction) = false
  | Some seg =>
      keys_name result.(keys) seg ∧ is_setup seg = false ∧
      Forall (λ s, s.(operator) = OpAnd ∨ s.(operator) = OpPipe) (tail segs) ∧
      if result.(isSimpleAction) then
        ∃ pre, segs = pre ++ [seg] ∧ Forall (λ s, is_setup s = true) pre ∧
          Forall (λ s, s.(operator) = OpAnd) (tail segs)
      else
        ∃ pre mid pipe post, segs = pre ++ seg :: mid ++ pipe :: post ∧
          Forall (λ s, is_setup s = true) (pre ++ mid) ∧
          pipe.(operator) = OpPipe ∧ Forall (λ s, s.(operator) ≠ OpPipe) (pre ++ seg :: mid)
  end.
Proof.
  cbv zeta. unfold deriveShellActionKeys. destruct segs as [|s0 [|s1 rest]]; [done| |].
  - unfold simple_keys. simpl. destruct (is_setup s0) eqn:Hs; [done|]. simpl.
    split_and!; [apply action_tokens_keys|done|constructor|]. exists []. by split_and!.
  - set (segs := s0 :: s1 :: rest).
    destruct (existsb complex_operator segs) eqn:Hc; [done|].
    destruct (existsb (op_is OpNone) (s1 :: rest)) eqn:Hn; [done|].
    pose proof (no_complex_chain segs Hc Hn) as Hops.
    destruct (existsb (op_is OpPipe) segs) eqn:Hp.
    + unfold pipeline_keys. destruct (first_pipe segs) as [[|i]|] eqn:Hfp; [done| |done].
      apply first_pipe_Some in Hfp as (pre & pipe & post & Heq & Hlen & Hpipe & Hpre).
      rewrite <- Hlen, Heq, take_app_length.
      destruct (List.filter _ pre) as [|seg [|]] eqn:Hf; [done| |done]. simpl.
      apply filter_singleton in Hf as (a & b & -> & Hseg%negb_true_iff & Hab).
      split_and!; [apply action_tokens_keys|done|by rewrite <- Heq|].
      exists a, b, pipe, post. rewrite <- app_assoc. split_and!; [done| | |].
      * eapply Forall_impl; [exact Hab|]. intros s Hs. by apply negb_false_iff in Hs.
      * by apply bool_decide_eq_true in Hpipe.
      * eapply Forall_impl; [exact Hpre|]. intros s Hs. by apply bool_decide_eq_false in Hs.
    + unfold simple_keys. destruct (action_segments segs) as [|seg [|]] eqn:Ha; [done| |done].
      simpl. apply action_segments_spec in Ha as (pre & Heq & Hpre & Hseg).
      split_and!; [apply action_tokens_keys|done|done|]. exists pre. split_and!; try done.
      apply Forall_forall. intros s Hs. rewrite Forall_forall in Hops.
      destruct (Hops s Hs) as [|Ho]; [done|]. rewrite existsb_false in Hp.
      specialize (Hp s). unfold op_is in Hp. rewrite bool_decide_eq_false in Hp.
      destruct Hp; [by right|done].
Qed.
