(* ===== verification/DirectoryScope.v ===== *)
(** The directory scope ladder of the permission prompt
    ([gateway/src/risk/directory-scope.ts], [gateway/src/risk/project-boundary.ts]).
    The file system is read through two predicates: a path exists, a path is an
    existing directory. *)
From S2P Require Import Prelude JsString JsMap NodePath TrustRules.

Record DirectoryScopeOption := { dir_scope : string; dir_label : string }.

Section DirectoryScope.
Context (homedir cwd : string).
Context (existsSync pathIsExistingDirectory : string → bool).

(** ** Project boundary *)

Definition PROJECT_MARKERS : list string :=
  [".git"; "package.json"; "Cargo.toml"; "go.mod"; "pyproject.toml"; "Makefile"].

Definition has_marker (dir : string) : bool :=
  existsb (λ marker, existsSync (dir +:+ "/" +:+ marker)) PROJECT_MARKERS.

(** The walk up: [dirname] shortens a path until it reaches a fixed point. *)
Fixpoint boundary_loop (fuel : nat) (current previous : string) (stopAt : option string)
    : option string :=
  match fuel with
  | O => None
  | S fuel =>
      if String.eqb current previous then None
      else if has_marker current then Some current
      else if match stopAt with
              | Some s => truthy s && String.eqb current s | None => false end
      then None
      else boundary_loop fuel (dirname current) current stopAt
  end.

Definition boundary_fuel (startDir : string) : nat := String.length startDir + 3.

Definition findProjectBoundary (startDir : string) (stopAt : option string)
    : option string :=
  boundary_loop (boundary_fuel startDir) startDir "" stopAt.

(** ** The ancestor of the targets *)

Definition isWithin (candidate root : string) : bool :=
  String.eqb candidate root || starts_with candidate (ensure_slash root).

Definition resolvePath (path workingDir : string) : string :=
  if String.eqb path "~" then homedir
  else if starts_with path "~/" then resolve cwd [homedir; slice_from 2 path]
  else if isAbsolute path then resolve cwd [path]
  else resolve cwd [workingDir; path].

(** The common prefix of two segment lists. *)
Fixpoint common_prefix (a b : list string) : list string :=
  match a, b with
  | x :: a, y :: b => if String.eqb x y then x :: common_prefix a b else []
  | _, _ => []
  end.

Definition common_all (splits : list (list string)) : list string :=
  match splits with
  | [] => []
  | s :: ss => foldl common_prefix s ss
  end.

(** [new Set(paths)] in insertion order. *)
Fixpoint unique (seen paths : list string) : list string :=
  match paths with
  | [] => []
  | p :: paths => if mem p seen then unique seen paths else p :: unique (p :: seen) paths
  end.

Definition commonAncestor (paths : list string) : string :=
  match unique [] paths with
  | [only] => if pathIsExistingDirectory only then only else dirname only
  | us =>
      let common := common_all (split_char "/" <$> us) in
      match common with
      | [] | [""] => "/"
      | _ => let joined := join "/" common in if truthy joined then joined else "/"
      end
  end.

(** ** The ladder *)

Definition push_option (options : list DirectoryScopeOption) (option : DirectoryScopeOption)
    : list DirectoryScopeOption :=
  if existsb (λ o, String.eqb o.(dir_scope) option.(dir_scope)) options then options
  else options ++ [option].

Definition dir_option (dir : string) : DirectoryScopeOption :=
  {| dir_scope := dir +:+ "/*"; dir_label := "In " +:+ basename dir +:+ "/" |}.

Definition scope_ancestor (pathArgs : list string) (workingDir : string) : string :=
  match pathArgs with
  | [] => workingDir
  | _ => commonAncestor ((λ p, resolvePath p workingDir) <$> pathArgs)
  end.

(** The ancestor lies in the workspace, when there is one. *)
Definition in_root (ancestor : string) (workspaceRoot : option string) : bool :=
  match workspaceRoot with Some root => isWithin ancestor root | None => true end.

(** Option 1: the exact directory. *)
Definition exact_options (ancestor : string) (workspaceRoot : option string)
    : list DirectoryScopeOption :=
  let skipExact :=
    String.eqb ancestor "/" || String.eqb ancestor homedir || isWithin homedir ancestor
    || negb (in_root ancestor workspaceRoot) in
  if skipExact then [] else push_option [] (dir_option ancestor).

(** Option 2: the nearest project boundary. *)
Definition boundary_options (ancestor : string) (workspaceRoot : option string)
    : list DirectoryScopeOption :=
  let options := exact_options ancestor workspaceRoot in
  if in_root ancestor workspaceRoot then
    match findProjectBoundary ancestor workspaceRoot with
    | Some boundary =>
        if negb (String.eqb boundary ancestor)
           && negb (bool_decide (workspaceRoot = Some boundary))
        then push_option options (dir_option boundary) else options
    | None => options
    end
  else options.

(** [generateDirectoryScopeOptions] after the ancestor is known. *)
Definition ladder_of (ancestor : string) (workspaceRoot : option string)
    : list DirectoryScopeOption :=
  push_option (boundary_options ancestor workspaceRoot)
    {| dir_scope := "everywhere"; dir_label := "Everywhere" |}.

Definition generateDirectoryScopeOptions (pathArgs : list string) (workingDir : string)
    (workspaceRoot : option string) : list DirectoryScopeOption :=
  ladder_of (scope_ancestor pathArgs workingDir) workspaceRoot.
(** ** The boundary walk ends, at the nearest marked directory *)

(** The loop on normalised paths, by recursion on the segments. *)
Lemma boundary_loop_abs fuel segs previous stopAt :
  Forall clean_seg segs → length segs + 2 ≤ fuel → previous ≠ abs_path segs →
  (∀ d, boundary_loop fuel (abs_path segs) previous stopAt = Some d →
     ∃ k, k ≤ length segs ∧ d = abs_path (take k segs) ∧ has_marker d = true ∧
       ∀ j, k < j ≤ length segs → has_marker (abs_path (take j segs)) = false) ∧
  (boundary_loop fuel (abs_path segs) previous stopAt = None → stopAt = None →
     ∀ j, j ≤ length segs → has_marker (abs_path (take j segs)) = false).
Proof.
  revert segs previous. induction fuel as [|fuel IH]; intros segs previous Hc Hf Hp; [lia|].
  cbn [boundary_loop].
  rewrite (proj2 (String.eqb_neq _ _)) by congruence.
  destruct (has_marker (abs_path segs)) eqn:Hm.
  { split; [|done]. intros d [= <-]. exists (length segs). rewrite firstn_all.
    split_and!; try done. lia. }
  set (stop := match stopAt with Some s => _ | None => false end).
  destruct stop eqn:Hstop.
  { split; [done|]. intros _ ->. done. }
  destruct segs as [|s segs _] using rev_ind.
  - rewrite dirname_root.
    assert (boundary_loop fuel (abs_path []) (abs_path []) stopAt = None) as ->.
    { destruct fuel; [done|]. cbn [boundary_loop]. by rewrite String.eqb_refl. }
    split; [done|]. intros _ _ j Hj. by destruct j.
  - apply Forall_app in Hc as [Hc Hs]. inversion Hs as [|? ? Hs' _]; subst.
    rewrite dirname_abs_path by done. rewrite length_app in *. simpl in *.
    destruct (IH segs (abs_path (segs ++ [s])) Hc) as [IH1 IH2]; [lia| |].
    { intros Heq. apply abs_path_inj in Heq; [|by apply Forall_app|done].
      apply (f_equal length) in Heq. rewrite length_app in Heq. simpl in Heq. lia. }
    split.
    + intros d (k & Hk & -> & Hmk & Hj)%IH1. exists k. rewrite take_app_le by lia.
      split_and!; [lia|done|done|]. intros j Hjk.
      destruct (decide (j = S (length segs))) as [->|].
      { rewrite take_ge; [done|]. rewrite length_app. simpl. lia. }
      rewrite take_app_le by lia. apply Hj. lia.
    + intros Hn Hst j Hj. destruct (decide (j = S (length segs))) as [->|].
      { rewrite take_ge; [done|]. rewrite length_app. simpl. lia. }
      rewrite take_app_le by lia. apply IH2; [done|done|lia].
Qed.

Lemma abs_path_length segs : Forall clean_seg segs → length segs ≤ String.length (abs_path segs).
Proof.
  intros Hc. unfold abs_path. rewrite append_length. simpl.
  induction Hc as [|s segs (Hs & _) _ IH]; simpl; [lia|].
  destruct s as [|c s]; [done|]. destruct segs as [|s' segs]; [simpl in *; lia|].
  rewrite append_length. simpl in *. lia.
Qed.

(** From a normalised directory the walk finds the nearest marked directory at
    or above it; without a stop it answers nothing only when there is none. *)
Theorem findProjectBoundary_nearest (segs : list string) (stopAt : option string) :
  Forall clean_seg segs →
  match findProjectBoundary (abs_path segs) stopAt with
  | Some d => ∃ k, k ≤ length segs ∧ d = abs_path (take k segs) ∧ has_marker d = true ∧
      ∀ j, k < j ≤ length segs → has_marker (abs_path (take j segs)) = false
  | None => stopAt = None →
      ∀ j, j ≤ length segs → has_marker (abs_path (take j segs)) = false
  end.
Proof.
  intros Hc. pose proof (abs_path_length segs Hc) as Hlen.
  destruct (boundary_loop_abs (boundary_fuel (abs_path segs)) segs "" stopAt Hc) as [H1 H2];
    [unfold boundary_fuel; lia|done|].
  unfold findProjectBoundary. destruct (boundary_loop _ _ _ _) as [d|]; [by apply H1|].
  intros Hs. by apply H2.
Qed.

(** ** The ancestor contains the targets *)

Lemma common_prefix_prefix a b : common_prefix a b `prefix_of` a ∧ common_prefix a b `prefix_of` b.
Proof.
  revert b. induction a as [|x a IH]; intros [|y b]; simpl; try (split; apply prefix_nil).
  destruct (String.eqb_spec x y) as [->|]; [|split; apply prefix_nil].
  destruct (IH b). split; by apply prefix_cons.
Qed.

Lemma foldl_common_prefix s ss :
  foldl common_prefix s ss `prefix_of` s ∧
  ∀ t, t ∈ ss → foldl common_prefix s ss `prefix_of` t.
Proof.
  revert s. induction ss as [|t ss IH]; intros s; simpl; [by split; [|intros ? ?%elem_of_nil]|].
  destruct (IH (common_prefix s t)) as [H1 H2], (common_prefix_prefix s t) as [H3 H4].
  split; [by etransitivity|]. intros u [->|Hu]%elem_of_cons; [by etransitivity|by apply H2].
Qed.

Lemma common_all_prefix splits t : t ∈ splits → common_all splits `prefix_of` t.
Proof.
  destruct splits as [|s ss]; [by intros ?%elem_of_nil|].
  destruct (foldl_common_prefix s ss) as [H1 H2].
  intros [->|Ht]%elem_of_cons; [done|by apply H2].
Qed.

Lemma foldl_common_prefix_cons x s ss :
  foldl common_prefix (x :: s) (cons x <$> ss) = x :: foldl common_prefix s ss.
Proof.
  revert s. induction ss as [|t ss IH]; intros s; simpl; [done|].
  by rewrite String.eqb_refl, IH.
Qed.

Lemma unique_spec seen paths p :
  p ∈ unique seen paths ↔ p ∈ paths ∧ p ∉ seen.
Proof.
  revert seen. induction paths as [|q paths IH]; intros seen; simpl; [set_solver|].
  destruct (mem q seen) eqn:Hq.
  - apply mem_true in Hq. rewrite IH, elem_of_cons. naive_solver.
  - apply mem_false in Hq. rewrite !elem_of_cons, IH, elem_of_cons.
    destruct (decide (p = q)); naive_solver.
Qed.

Lemma unique_NoDup seen paths : NoDup (unique seen paths).
Proof.
  revert seen. induction paths as [|q paths IH]; intros seen; simpl; [constructor|].
  destruct (mem q seen); [done|]. apply NoDup_cons. split; [|done].
  rewrite unique_spec, elem_of_cons. naive_solver.
Qed.

(** What [split] gives for an absolute path, without the leading empty segment. *)
Definition abs_split (segs : list string) : list string :=
  match segs with [] => [""] | _ => segs end.

Lemma common_of_abs (segss : list (list string)) :
  Forall (Forall clean_seg) segss → NoDup segss → 2 ≤ length segss →
  ∃ c, common_all (split_char "/" <$> (abs_path <$> segss)) = "" :: c ∧
    Forall clean_seg c ∧ ∀ segs, segs ∈ segss → c `prefix_of` segs.
Proof.
  intros Hc Hnd Hlen.
  assert (split_char "/" <$> (abs_path <$> segss) = cons "" <$> (abs_split <$> segss)) as ->.
  { clear Hnd Hlen. induction Hc as [|segs segss Hs _ IH]; [done|].
    rewrite !fmap_cons, split_abs_path, IH by done. done. }
  destruct segss as [|s0 [|s1 ss]]; simpl in Hlen; [lia..|].
  assert (common_all (cons "" <$> (abs_split <$> s0 :: s1 :: ss)) =
          "" :: common_all (abs_split <$> s0 :: s1 :: ss)) as ->.
  { csimpl. apply (foldl_common_prefix_cons "" (abs_split s0)
      (abs_split s1 :: (abs_split <$> ss))). }
  set (segss := s0 :: s1 :: ss) in *. set (c := common_all _). exists c. split; [done|].
  assert (∀ segs, segs ∈ segss → c `prefix_of` abs_split segs) as Hpre.
  { intros segs Hin. apply common_all_prefix. by apply list_elem_of_fmap_2. }
  assert (∃ segs, segs ∈ segss ∧ segs ≠ []) as (w & Hw & Hwne).
  { destruct s0 as [|x s0]; [|exists (x :: s0); split; [by left|done]].
    destruct s1 as [|x s1]; [|exists (x :: s1); split; [by right; left|done]].
    apply NoDup_cons in Hnd as [Hnd _]. by destruct Hnd; left. }
  assert (Forall clean_seg c) as Hcc.
  { rewrite Forall_forall in Hc. destruct (Hpre w Hw) as [r Hr].
    assert (Forall clean_seg (c ++ r)) as H%Forall_app; [|by destruct H].
    rewrite <- Hr. destruct w; [done|]. by apply Hc. }
  split; [done|]. intros segs Hin. specialize (Hpre segs Hin).
  destruct segs as [|x segs]; [|done].
  destruct Hpre as [r Hr]. destruct c as [|y c]; [done|].
  injection Hr as <- _. inversion Hcc as [|? ? (? & _)]; done.
Qed.

(** The common ancestor of normalised paths is a normalised path above them all. *)
Lemma commonAncestor_above (segss : list (list string)) :
  Forall (Forall clean_seg) segss → segss ≠ [] →
  ∃ c, commonAncestor (abs_path <$> segss) = abs_path c ∧ Forall clean_seg c ∧
    ∀ segs, segs ∈ segss → c `prefix_of` segs.
Proof.
  intros Hc Hne.
  assert (∃ us, unique [] (abs_path <$> segss) = abs_path <$> us ∧ NoDup us ∧
    (∀ segs, segs ∈ segss → segs ∈ us) ∧ (∀ segs, segs ∈ us → segs ∈ segss))
    as (us & Hus & Hnd & Hin & Hback).
  { assert (∀ l, Forall (λ p, ∃ segs, segs ∈ segss ∧ p = abs_path segs) l →
      ∃ us, l = abs_path <$> us ∧ ∀ segs, segs ∈ us → segs ∈ segss) as Hl.
    { induction 1 as [|p l (segs & Hs & ->) _ (us & -> & IH)].
      - exists []. split; [done|]. by intros ? ?%elem_of_nil.
      - exists (segs :: us). split; [done|]. intros s [->|H]%elem_of_cons; auto. }
    destruct (Hl (unique [] (abs_path <$> segss))) as (us & Hus & Hback).
    { apply Forall_forall. intros p [Hp _]%unique_spec.
      apply list_elem_of_fmap in Hp as (segs & -> & ?). by exists segs. }
    exists us. split; [done|]. split; [|split; [|done]].
    - apply (NoDup_fmap_1 abs_path). rewrite <- Hus. apply unique_NoDup.
    - intros segs Hs.
      assert (abs_path segs ∈ unique [] (abs_path <$> segss)) as Hu.
      { apply unique_spec. split; [by apply list_elem_of_fmap_2|by intros ?%elem_of_nil]. }
      rewrite Hus in Hu. apply list_elem_of_fmap in Hu as (segs' & Heq & Hs').
      rewrite Forall_forall in Hc. apply abs_path_inj in Heq; [by subst| |]; auto. }
  assert (Forall (Forall clean_seg) us) as Hcus.
  { apply Forall_forall. intros s Hs. rewrite Forall_forall in Hc. auto. }
  unfold commonAncestor. rewrite Hus.
  destruct us as [|u [|u' us]].
  - exfalso. destruct segss as [|s ss]; [done|].
    apply (not_elem_of_nil s). apply Hin. left.
  - csimpl. inversion Hcus as [|? ? Hu _]; subst.
    destruct (pathIsExistingDirectory (abs_path u)).
    + exists u. split_and!; [done|done|]. intros s ->%Hin%list_elem_of_singleton. done.
    + destruct u as [|x u _] using rev_ind.
      * exists []. split_and!; [apply dirname_root|done|]. intros. apply prefix_nil.
      * apply Forall_app in Hu as [Hu Hx]. inversion Hx; subst. exists u.
        split_and!; [by apply dirname_abs_path|done|].
        intros s ->%Hin%list_elem_of_singleton. by exists [x].
  - destruct (common_of_abs (u :: u' :: us) Hcus Hnd) as (c & Hcommon & Hcc & Hpre);
      [simpl; lia|].
    exists c. csimpl. csimpl in Hcommon. rewrite Hcommon. split_and!; [|done|].
    + destruct c as [|x c]; [done|]. rewrite join_cons. done.
    + intros segs Hs%Hin. by apply Hpre.
Qed.
(** ** Every offered scope covers every target *)

(** A directory scope matches the directory and what lies below it. *)
Lemma isScopeMatch_abs d t :
  Forall clean_seg d → Forall clean_seg t → d `prefix_of` t →
  isScopeMatch (Some (abs_path d +:+ "/*")) (Some (abs_path t)) = true.
Proof.
  intros Hd Ht [below ->]. destruct d as [|x d].
  - unfold isScopeMatch. change (ends_with (abs_path [] +:+ "/*") "/*") with true.
    change (slice_drop_last 2 (abs_path [] +:+ "/*")) with "/".
    cbn [truthy negb orb String.eqb]. apply orb_true_iff. right.
    apply starts_with_spec. unfold ensure_slash, abs_path.
    destruct (ends_with _ _); [by eexists|]. rewrite append_assoc. by eexists.
  - apply isScopeMatch_dir; [by apply ends_with_join|done|].
    destruct below as [|y below]; [left; by rewrite app_nil_r|]. right.
    exists (join "/" (y :: below)). unfold abs_path.
    by rewrite join_app, append_assoc.
Qed.

(** The paths the invocation is about. *)
Definition scope_targets (pathArgs : list string) (workingDir : string) : list string :=
  match pathArgs with
  | [] => [workingDir]
  | _ => (λ p, resolvePath p workingDir) <$> pathArgs
  end.

Lemma resolve_abs_form args : ∃ segs, resolve cwd args = abs_path segs ∧ Forall clean_seg segs.
Proof. exists (resolve_segments cwd args). split; [done|]. apply resolve_segments_clean. Qed.

Lemma targets_abs pathArgs w h :
  homedir = abs_path h → Forall clean_seg h → Forall clean_seg w →
  ∃ segss, scope_targets pathArgs (abs_path w) = abs_path <$> segss ∧
    Forall (Forall clean_seg) segss ∧ segss ≠ [].
Proof.
  intros Hhome Hh Hw. unfold scope_targets. destruct pathArgs as [|p ps].
  { exists [w]. by repeat constructor. }
  assert (∀ l, ∃ segss, (λ p, resolvePath p (abs_path w)) <$> l = abs_path <$> segss ∧
    Forall (Forall clean_seg) segss ∧ length segss = length l) as H.
  { induction l as [|q l (segss & Heq & Hc & Hlen)]; [by exists []|].
    assert (∃ segs, resolvePath q (abs_path w) = abs_path segs ∧ Forall clean_seg segs)
      as (segs & Hq & Hqc).
    { unfold resolvePath. destruct (String.eqb q "~"); [by exists h|].
      destruct (starts_with q "~/"); [apply resolve_abs_form|].
      destruct (isAbsolute q); apply resolve_abs_form. }
    exists (segs :: segss). rewrite !fmap_cons, Heq, Hq. simpl. rewrite Hlen.
    split_and!; [done|by constructor|done]. }
  destruct (H (p :: ps)) as (segss & Heq & Hc & Hlen). exists segss.
  split_and!; try done. by destruct segss.
Qed.

Lemma scope_ancestor_above pathArgs w h :
  homedir = abs_path h → Forall clean_seg h → Forall clean_seg w →
  ∃ c, scope_ancestor pathArgs (abs_path w) = abs_path c ∧ Forall clean_seg c ∧
    ∀ t, t ∈ scope_targets pathArgs (abs_path w) →
      ∃ segs, t = abs_path segs ∧ Forall clean_seg segs ∧ c `prefix_of` segs.
Proof.
  intros Hhome Hh Hw.
  destruct (targets_abs pathArgs w h Hhome Hh Hw) as (segss & Heq & Hc & Hne).
  unfold scope_ancestor. destruct pathArgs as [|p ps].
  - exists w. split_and!; [done|done|]. intros t ->%list_elem_of_singleton. by exists w.
  - unfold scope_targets in *. rewrite Heq.
    destruct (commonAncestor_above segss Hc Hne) as (c & Hca & Hcc & Hpre).
    exists c. split_and!; [done|done|]. intros t (segs & -> & Hs)%list_elem_of_fmap.
    exists segs. rewrite Forall_forall in Hc. split_and!; auto.
Qed.

(** The directory options are directories at or above the ancestor. *)
Lemma boundary_options_above c workspaceRoot :
  Forall clean_seg c →
  Forall (λ o, ∃ k, o.(dir_scope) = abs_path (take k c) +:+ "/*")
    (boundary_options (abs_path c) workspaceRoot).
Proof.
  intros Hc. unfold boundary_options.
  assert (Forall (λ o, ∃ k, o.(dir_scope) = abs_path (take k c) +:+ "/*")
    (exact_options (abs_path c) workspaceRoot)) as Hexact.
  { unfold exact_options. destruct (_ || _); [constructor|].
    constructor; [|constructor]. exists (length c). by rewrite firstn_all. }
  destruct (in_root _ _); [|done].
  destruct (findProjectBoundary (abs_path c) workspaceRoot) as [d|] eqn:Hd; [|done].
  destruct (_ && _); [|done]. unfold push_option. destruct (existsb _ _); [done|].
  apply Forall_app. split; [done|]. constructor; [|constructor].
  destruct (boundary_loop_abs (boundary_fuel (abs_path c)) c "" workspaceRoot Hc) as [H _];
    [unfold boundary_fuel; pose proof (abs_path_length c Hc); lia|done|].
  destruct (H d Hd) as (k & _ & -> & _). by exists k.
Qed.

(** Every option of the ladder covers every target of the invocation: a rule
    saved with any offered scope is in scope at each target path, and the last
    option is always [everywhere]. *)
Theorem scope_ladder_covers (pathArgs w h : list string) (workspaceRoot : option string) :
  homedir = abs_path h → Forall clean_seg h → Forall clean_seg w →
  let options := generateDirectoryScopeOptions pathArgs (abs_path w) workspaceRoot in
  dir_scope <$> last options = Some "everywhere" ∧
  ∀ o t, o ∈ options → t ∈ scope_targets pathArgs (abs_path w) →
    isScopeMatch (Some o.(dir_scope)) (Some t) = true.
Proof.
  intros Hhome Hh Hw. cbv zeta. unfold generateDirectoryScopeOptions, ladder_of.
  destruct (scope_ancestor_above pathArgs w h Hhome Hh Hw) as (c & -> & Hc & Habove).
  pose proof (boundary_options_above c workspaceRoot Hc) as Hopts.
  rewrite Forall_forall in Hopts. unfold push_option.
  rewrite (proj2 (existsb_false _ _)).
  2: { intros o Ho. by destruct (Hopts o Ho) as [k ->]. }
  split; [by rewrite last_snoc|].
  intros o t [Ho| ->%list_elem_of_singleton]%elem_of_app Ht; [|done].
  destruct (Hopts o Ho) as [k ->]. apply Habove in Ht as (segs & -> & Hs & Hpre).
  apply isScopeMatch_abs; [by apply Forall_take|done|].
  etransitivity; [|exact Hpre]. exists (drop k c). by rewrite take_drop.
Qed.
End DirectoryScope.

(** ** The scope a rule is saved with and the directory it is checked against *)

(** A rule is checked against the working directory of the command, not its
    targets: the ladder offers [/tmp/build/*] for [rm /tmp/build/x] run in [/work],
    and a rule saved with that scope does not apply when the same command is run
    again from [/work]. *)
Theorem target_scope_not_honoured (homedir cwd : string)
    (existsSync isDirectory : string → bool) :
  homedir = "/home/user" →
  isDirectory "/tmp/build/x" = false →
  "/tmp/build/*" ∈ dir_scope <$>
    generateDirectoryScopeOptions homedir cwd existsSync isDirectory
      ["/tmp/build/x"] "/work" None ∧
  isScopeMatch (Some "/tmp/build/*") (Some "/work") = false.
Proof.
  intros -> Hd. split; [|done].
  unfold generateDirectoryScopeOptions, scope_ancestor, ladder_of.
  assert (commonAncestor isDirectory
    ((λ p, resolvePath "/home/user" cwd p "/work") <$> ["/tmp/build/x"]) = "/tmp/build") as ->.
  { unfold commonAncestor.
    assert (unique [] ((λ p, resolvePath "/home/user" cwd p "/work") <$> ["/tmp/build/x"])
            = ["/tmp/build/x"]) as -> by (vm_compute; reflexivity).
    by rewrite Hd. }
  assert (∀ options o, "/tmp/build/*" ∈ dir_scope <$> options →
    "/tmp/build/*" ∈ dir_scope <$> push_option options o) as Hpush.
  { intros options o Ho. unfold push_option. destruct (existsb _ _); [done|].
    rewrite fmap_app. apply elem_of_app. by left. }
  apply Hpush. unfold boundary_options.
  assert ("/tmp/build/*" ∈ dir_scope <$> exact_options "/home/user" "/tmp/build" None) as He.
  { vm_compute. left. }
  destruct (in_root _ _); [|done]. destruct (findProjectBoundary _ _ _); [|done].
  destruct (_ && _); [by apply Hpush|done].
Qed.

(** ** Concrete instances *)

Definition sample_exists (p : string) : bool := String.eqb p "/work/app/.git".
Definition sample_is_dir (p : string) : bool := String.eqb p "/work/app/src".

Lemma findProjectBoundary_nearest_witness :
  findProjectBoundary sample_exists "/work/app/src/lib" None = Some "/work/app" ∧
  ∃ k, k ≤ 4 ∧ "/work/app" = abs_path (take k ["work"; "app"; "src"; "lib"]).
Proof.
  assert (findProjectBoundary sample_exists (abs_path ["work"; "app"; "src"; "lib"]) None
          = Some "/work/app") as E by (vm_compute; reflexivity).
  split; [exact E|].
  pose proof (findProjectBoundary_nearest sample_exists ["work"; "app"; "src"; "lib"] None)
    as H.
  rewrite E in H. destruct H as (k & Hk & Hd & _);
    [apply clean_segsb; vm_compute; reflexivity|].
  exists k. split; [exact Hk|exact Hd].
Defined.

Lemma scope_ladder_covers_witness :
  let options := generateDirectoryScopeOptions "/home/user" "/" sample_exists sample_is_dir
                   ["src"; "src/lib/a.ts"] "/work/app" None in
  dir_scope <$> options = ["/work/app/src/*"; "/work/app/*"; "everywhere"] ∧
  ∀ o, o ∈ options →
    isScopeMatch (Some o.(dir_scope)) (Some "/work/app/src/lib/a.ts") = true.
Proof.
  cbv zeta. split; [vm_compute; reflexivity|]. intros o Ho.
  eapply (scope_ladder_covers "/home/user" "/" sample_exists sample_is_dir
    ["src"; "src/lib/a.ts"] ["work"; "app"] ["home"; "user"] None).
  - reflexivity.
  - apply clean_segsb. vm_compute. reflexivity.
  - apply clean_segsb. vm_compute. reflexivity.
  - exact Ho.
  - vm_compute. right. left.
Defined.

Lemma target_scope_not_honoured_witness :
  isScopeMatch (Some "/tmp/build/*") (Some "/work") = false.
Proof.
  eapply (target_scope_not_honoured "/home/user" "/" sample_exists sample_is_dir);
    vm_compute; reflexivity.
Defined.
