(* ===== verification/SandboxApprove.v ===== *)
(** Sandbox auto-approval of bash commands
    ([computeSandboxAutoApprove] of
    [gateway/src/ipc/risk-classification-handlers.ts] and [isPathWithinRoot] of
    [gateway/src/risk/file-risk-classifier.ts]): the commands that run without a
    prompt because they only touch the workspace. *)
From S2P Require Import Prelude JsString JsMap NodePath RiskTypes ArgParser TrustRules.
From S2P Require Import BashArgs RegistrySyntax RegistryA RegistryB BashRisk.

Section Sandbox.
(** The home directory, [process.cwd()] and the command registry. *)
Context (homedir cwd : string).
Context (registry : list (string * CommandRiskSpec)).

Definition isPathWithinRoot (filePath root : string) : bool :=
  if negb (truthy filePath) || negb (truthy root) then false
  else
    let normalizedRoot := ensure_slash root in
    let normalizedPath := resolve cwd [filePath] in
    String.eqb normalizedPath
      (if ends_with root "/" then slice_drop_last 1 root else root)
    || starts_with normalizedPath normalizedRoot.

(** Own-property lookup by the base name of the program. *)
Definition lookupSpec (program : string) : option CommandRiskSpec :=
  map_get (default program (last (split_char "/" program))) registry.

Record SandboxAutoApproveResult := { approved : bool; sandboxPathArgs : list string }.

(** The path an argument names; [None] for another user's home directory. *)
Definition path_target (workingDir p : string) : option string :=
  if String.eqb p "~" || starts_with p "~/" then
    Some (if String.eqb p "~" then homedir else path_join [homedir; slice_from 2 p])
  else if starts_with p "~" then None
  else Some (if starts_with p "/" then p else resolve cwd [workingDir; p]).

(** [pathArgs.every(...)]: stops at the first failure; the paths looked at are
    collected. *)
Fixpoint every_path (workingDir root : string) (ps collected : list string)
    : bool * list string :=
  match ps with
  | [] => (true, collected)
  | p :: ps =>
      match path_target workingDir p with
      | None => (false, collected)
      | Some resolved =>
          let collected := collected ++ [resolved] in
          if isPathWithinRoot resolved root
          then every_path workingDir root ps collected else (false, collected)
      end
  end.

Definition approve_segment (workingDir root : string) (isContainerized : bool)
    (seg : CommandSegment) (collected : list string) : bool * list string :=
  match lookupSpec seg.(program) with
  | None => (false, collected)
  | Some spec =>
      if negb (default false spec.(sandboxAutoApprove)) then (false, collected)
      else if isContainerized then (true, collected)
      else
        let parsedArgs := parseArgs seg.(args) (default empty_schema spec.(argSchema)) in
        match parsedArgs.(pathArgs) with
        | [] => (true, collected)
        | ps => every_path workingDir root ps collected
        end
  end.

Fixpoint every_segment (workingDir root : string) (isContainerized : bool)
    (segs : list CommandSegment) (collected : list string) : bool * list string :=
  match segs with
  | [] => (true, collected)
  | seg :: segs =>
      let '(ok, collected) := approve_segment workingDir root isContainerized seg collected in
      if ok then every_segment workingDir root isContainerized segs collected
      else (false, collected)
  end.

Definition computeSandboxAutoApprove (parsed : ParsedCommand)
    (workingDir workspaceRoot : string) (isContainerized : bool)
    : SandboxAutoApproveResult :=
  match parsed.(segments), parsed.(hasOpaqueConstructs), parsed.(dangerousPatterns) with
  | [], _, _ | _, true, _ | _, _, _ :: _ => {| approved := false; sandboxPathArgs := [] |}
  | segs, false, [] =>
      let '(ok, collected) := every_segment workingDir workspaceRoot isContainerized segs [] in
      {| approved := ok; sandboxPathArgs := collected |}
  end.

(** ** Containment *)

(** [p] names the directory with segments [root] or something below it. *)
Definition within (root : list string) (p : string) : Prop :=
  p ≠ "" ∧ ∃ below, resolve_segments cwd [p] = root ++ below.

(** The lexical containment test is exact: for a normalised workspace root it
    accepts a path exactly when the path resolves to the root or below it, by
    whole segments; a sibling sharing a name prefix is outside. *)
Theorem isPathWithinRoot_spec (p : string) (root : list string) :
  root ≠ [] → Forall clean_seg root →
  isPathWithinRoot p (abs_path root) = true ↔ within root p.
Proof.
  intros Hne Hc. unfold isPathWithinRoot, within. destruct (truthy p) eqn:Hp.
  2: { destruct p; [|done]. naive_solver. }
  change (truthy (abs_path root)) with true. cbn [negb orb].
  rewrite (ends_with_join root Hne Hc), (ensure_slash_dir _ (ends_with_join root Hne Hc)).
  unfold resolve.
  pose proof (resolve_segments_clean cwd [p]) as Hr. rewrite orb_true_iff, String.eqb_eq.
  rewrite (abs_path_below _ _ Hr Hc Hne). split.
  - intros [H|(c & _ & H)]; (split; [by intros ->|]); [|by exists c].
    exists []. rewrite app_nil_r. by apply abs_path_inj.
  - intros [_ [below H]]. destruct below as [|b below].
    + left. by rewrite H, app_nil_r.
    + right. by exists (b :: below).
Qed.

(** ** What approval means *)

(** A path argument the check accepts, and the path it was resolved to. *)
Definition accepted_path (workingDir root p target : string) : Prop :=
  path_target workingDir p = Some target ∧ isPathWithinRoot target root = true.

Lemma every_path_spec workingDir root ps collected :
  (∃ c, every_path workingDir root ps collected = (true, c)) ↔
  ∃ ts, Forall2 (accepted_path workingDir root) ps ts.
Proof.
  revert collected. induction ps as [|p ps IH]; intros collected; simpl.
  { split; [|by eexists]. exists []. constructor. }
  split.
  - destruct (path_target workingDir p) as [t|] eqn:Ht; [|by intros []].
    destruct (isPathWithinRoot t root) eqn:Hin; [|by intros []].
    intros [ts Hts]%IH. exists (t :: ts). by constructor.
  - intros (ts & Hts). apply Forall2_cons_inv_l in Hts as (t & ts' & [Ht Hin] & Hts' & ->).
    rewrite Ht, Hin. apply IH. by exists ts'.
Qed.

Lemma every_path_collected workingDir root ps collected c :
  every_path workingDir root ps collected = (true, c) →
  ∃ ts, Forall2 (accepted_path workingDir root) ps ts ∧ c = collected ++ ts.
Proof.
  revert collected. induction ps as [|p ps IH]; intros collected; simpl.
  { intros [= <-]. exists []. by rewrite app_nil_r. }
  destruct (path_target workingDir p) as [t|] eqn:Ht; [|done].
  destruct (isPathWithinRoot t root) eqn:Hin; [|done].
  intros (ts & Hts & ->)%IH. exists (t :: ts). rewrite <- app_assoc. split; [|done].
  by constructor.
Qed.

(** The segment's program is registered for auto-approval and, outside a
    container, all its path arguments are accepted; [ts] are their targets. *)
Definition segment_confined (workingDir root : string) (isContainerized : bool)
    (seg : CommandSegment) (ts : list string) : Prop :=
  ∃ spec, lookupSpec seg.(program) = Some spec ∧ spec.(sandboxAutoApprove) = Some true ∧
    if isContainerized then ts = []
    else Forall2 (accepted_path workingDir root)
           (parseArgs seg.(args) (default empty_schema spec.(argSchema))).(pathArgs) ts.

Lemma approve_segment_true workingDir root isContainerized seg collected c :
  approve_segment workingDir root isContainerized seg collected = (true, c) →
  ∃ ts, segment_confined workingDir root isContainerized seg ts ∧ c = collected ++ ts.
Proof.
  unfold approve_segment, segment_confined. destruct (lookupSpec _) as [spec|]; [|done].
  destruct (sandboxAutoApprove spec) as [[]|] eqn:Hs; simpl; try done.
  destruct isContainerized.
  { intros [= <-]. exists []. rewrite app_nil_r. eauto. }
  destruct (pathArgs _) as [|p ps] eqn:Hp.
  { intros [= <-]. exists []. rewrite app_nil_r. split; [|done].
    exists spec. split_and!; try done. rewrite Hp. constructor. }
  intros (ts & Hts & ->)%(every_path_collected workingDir root (p :: ps)).
  exists ts. split; [|done]. exists spec. split_and!; try done. by rewrite Hp.
Qed.

Lemma approve_segment_complete workingDir root isContainerized seg ts collected :
  segment_confined workingDir root isContainerized seg ts →
  ∃ c, approve_segment workingDir root isContainerized seg collected = (true, c).
Proof.
  intros (spec & Hl & Hs & Hts). unfold approve_segment. rewrite Hl, Hs. simpl.
  destruct isContainerized; [by eexists|].
  destruct (pathArgs _) as [|p ps]; [by eexists|]. apply (every_path_spec workingDir root (p :: ps)). by exists ts.
Qed.

Lemma every_segment_true workingDir root isContainerized segs collected c :
  every_segment workingDir root isContainerized segs collected = (true, c) →
  ∃ tss, Forall2 (segment_confined workingDir root isContainerized) segs tss ∧
    c = collected ++ concat tss.
Proof.
  revert collected. induction segs as [|seg segs IH]; intros collected; simpl.
  { intros [= <-]. exists []. by rewrite app_nil_r. }
  destruct (approve_segment _ _ _ _ _) as [[] c1] eqn:Ha; [|done].
  apply approve_segment_true in Ha as (ts & Hts & ->).
  intros (tss & Htss & ->)%IH. exists (ts :: tss). simpl. rewrite <- app_assoc.
  split; [by constructor|done].
Qed.

Lemma every_segment_complete workingDir root isContainerized segs tss collected :
  Forall2 (segment_confined workingDir root isContainerized) segs tss →
  ∃ c, every_segment workingDir root isContainerized segs collected = (true, c).
Proof.
  intros H. revert collected. induction H as [|seg ts segs tss Hs _ IH]; intros collected.
  { by eexists. }
  simpl. destruct (approve_segment_complete _ _ _ _ _ collected Hs) as [c ->]. apply IH.
Qed.

Lemma computeSandbox_cases (parsed : ParsedCommand) (workingDir root : string)
    (isContainerized : bool) :
  let result := computeSandboxAutoApprove parsed workingDir root isContainerized in
  if result.(approved) then
    parsed.(segments) ≠ [] ∧ parsed.(hasOpaqueConstructs) = false ∧
    parsed.(dangerousPatterns) = [] ∧
    ∃ tss, Forall2 (segment_confined workingDir root isContainerized) parsed.(segments) tss ∧
      result.(sandboxPathArgs) = concat tss
  else
    parsed.(segments) = [] ∨ parsed.(hasOpaqueConstructs) = true ∨
    parsed.(dangerousPatterns) ≠ [] ∨
    ∀ tss, ¬ Forall2 (segment_confined workingDir root isContainerized) parsed.(segments) tss.
Proof.
  unfold computeSandboxAutoApprove. cbv zeta.
  destruct (segments parsed) as [|s segs]; [by left|].
  destruct (hasOpaqueConstructs parsed); [by right; left|].
  destruct (dangerousPatterns parsed); [|by right; right; left].
  destruct (every_segment _ _ _ _ _) as [[] c] eqn:He; cbn [approved sandboxPathArgs].
  - apply every_segment_true in He as (tss & Htss & ->). split_and!; try done. by exists tss.
  - right; right; right. intros tss Htss.
    destruct (every_segment_complete _ _ _ _ _ [] Htss) as [c' Hc']. congruence.
Qed.
(** How the shell's home notation is read: [~] and [~/x] are the user's home,
    another user's home names nothing, and the rest is an absolute path or is
    relative to the working directory. *)
Inductive names_target (workingDir : string) : string → string → Prop :=
  | names_home : names_target workingDir "~" homedir
  | names_below_home r : names_target workingDir ("~/" +:+ r) (path_join [homedir; r])
  | names_absolute r : names_target workingDir ("/" +:+ r) ("/" +:+ r)
  | names_relative p :
      starts_with p "~" = false → starts_with p "/" = false →
      names_target workingDir p (resolve cwd [workingDir; p]).

Lemma path_target_spec workingDir p t :
  path_target workingDir p = Some t ↔ names_target workingDir p t.
Proof.
  unfold path_target. split.
  - destruct (String.eqb_spec p "~") as [->|Hp]; simpl; [intros [= <-]; constructor|].
    destruct (starts_with p "~/") eqn:Hh.
    { intros [= <-]. apply starts_with_spec in Hh as [r ->]. apply names_below_home. }
    destruct (starts_with p "~") eqn:Ht; [done|].
    destruct (starts_with p "/") eqn:Ha; intros [= <-]; [|by constructor].
    apply starts_with_spec in Ha as [r ->]. constructor.
  - intros [|r|r|q Ht Ha]; [reflexivity| | |].
    + rewrite starts_with_app, orb_true_r. reflexivity.
    + rewrite starts_with_app. reflexivity.
    + destruct (String.eqb_spec q "~") as [->|_]; [discriminate|]. cbn [orb].
      assert (starts_with q "~/" = false) as ->.
      { apply starts_with_false. intros r ->. revert Ht.
        change ("~/" +:+ r) with ("~" +:+ String "/" r). by rewrite starts_with_app. }
      by rewrite Ht, Ha.
Qed.

(** Every path argument of the segment names something inside the workspace, and
    [ts] are what they name; nothing is asked of a containerised command. *)
Definition confined_to (workingDir : string) (root : list string)
    (isContainerized : bool) (seg : CommandSegment) (ts : list string) : Prop :=
  ∃ spec, lookupSpec seg.(program) = Some spec ∧ spec.(sandboxAutoApprove) = Some true ∧
    if isContainerized then ts = []
    else Forall2 (λ p t, names_target workingDir p t ∧ within root t)
           (parseArgs seg.(args) (default empty_schema spec.(argSchema))).(pathArgs) ts.

Lemma segment_confined_iff workingDir root isContainerized seg ts :
  root ≠ [] → Forall clean_seg root →
  segment_confined workingDir (abs_path root) isContainerized seg ts ↔
  confined_to workingDir root isContainerized seg ts.
Proof.
  intros Hne Hc. unfold segment_confined, confined_to.
  assert (∀ p t, accepted_path workingDir (abs_path root) p t ↔
            names_target workingDir p t ∧ within root t) as Hiff.
  { intros p t. unfold accepted_path.
    by rewrite path_target_spec, (isPathWithinRoot_spec _ _ Hne Hc). }
  destruct isContainerized; [done|].
  split; intros (spec & ? & ? & Hts); exists spec; (split_and!; [done|done|]);
    (eapply Forall2_impl; [exact Hts|intros; by apply Hiff]).
Qed.

(** C23: A command is auto-approved exactly when the parser found segments and
    nothing dangerous or opaque, and every segment's program is registered for
    it with, outside a container, all its path arguments naming something inside
    the workspace; the result then lists what every one of them names, in order,
    for the daemon's symlink check. *)
Theorem sandbox_approve_spec (parsed : ParsedCommand) (workingDir : string)
    (root : list string) (isContainerized : bool) :
  root ≠ [] → Forall clean_seg root →
  let result :=
    computeSandboxAutoApprove parsed workingDir (abs_path root) isContainerized in
  if result.(approved) then
    parsed.(segments) ≠ [] ∧ parsed.(hasOpaqueConstructs) = false ∧
    parsed.(dangerousPatterns) = [] ∧
    ∃ tss, Forall2 (confined_to workingDir root isContainerized) parsed.(segments) tss ∧
      result.(sandboxPathArgs) = concat tss
  else
    parsed.(segments) = [] ∨ parsed.(hasOpaqueConstructs) = true ∨
    parsed.(dangerousPatterns) ≠ [] ∨
    ∀ tss, ¬ Forall2 (confined_to workingDir root isContainerized) parsed.(segments) tss.
Proof.
  intros Hne Hc. pose proof (λ seg ts, segment_confined_iff workingDir root
    isContainerized seg ts Hne Hc) as Hiff.
  pose proof (computeSandbox_cases parsed workingDir (abs_path root) isContainerized) as H.
  cbv zeta in *. destruct (approved _).
  - destruct H as (? & ? & ? & tss & Htss & ?). split_and!; try done. exists tss.
    split; [|done]. eapply Forall2_impl; [exact Htss|intros; by apply Hiff].
  - destruct H as [?|[?|[?|H]]]; [by left|by right; left|by right; right; left|].
    right; right; right. intros tss Htss. apply (H tss).
    eapply Forall2_impl; [exact Htss|intros; by apply Hiff].
Qed.

(** ** The limits of the lexical check *)

(** The check looks at the text of an argument, not at what the shell makes of
    it: any argument whose text is a relative path of ordinary segments is
    accepted, and so are [$HOME/x] and quoted absolute paths. *)
Theorem relative_text_accepted (w root segs : list string) :
  Forall clean_seg w → root ≠ [] → Forall clean_seg root → root `prefix_of` w →
  segs ≠ [] → Forall clean_seg segs → starts_with (join "/" segs) "~" = false →
  accepted_path (abs_path w) (abs_path root) (join "/" segs) (abs_path (w ++ segs)).
Proof.
  intros Hw Hroot Hrc [below Hbelow] Hne Hc Htilde.
  destruct (join_clean_head segs Hne Hc) as [_ Habs]. split.
  - unfold path_target.
    assert (String.eqb (join "/" segs) "~" = false) as ->.
    { apply String.eqb_neq. intros Heq. by rewrite Heq in Htilde. }
    assert (starts_with (join "/" segs) "~/" = false) as ->.
    { apply starts_with_false. intros r Hr. revert Htilde. rewrite Hr.
      change ("~/" +:+ r) with ("~" +:+ String "/" r). by rewrite starts_with_app. }
    rewrite Htilde. cbn [orb]. change (starts_with ?x "/") with (isAbsolute x).
    rewrite Habs. unfold resolve. by rewrite resolve_relative.
  - apply isPathWithinRoot_spec; [done|done|]. split; [done|].
    exists (below ++ segs). rewrite app_assoc, <- Hbelow.
    apply (resolve_abs_path cwd []). by apply Forall_app.
Qed.
End Sandbox.

Arguments computeSandboxAutoApprove homedir cwd registry parsed workingDir workspaceRoot
  isContainerized.

(** ** Auto-approval and the argument rules *)

Definition single_parse (seg : CommandSegment) : ParsedCommand :=
  {| originalCommand := seg.(command); segments := [seg]; dangerousPatterns := [];
     hasOpaqueConstructs := false |}.

(** Auto-approval does not consult the argument rules: the shipped [tar] entry
    rates [--to-command] high because it runs an arbitrary command, and the same
    segment is auto-approved, inside a container or not. *)
Theorem tar_command_auto_approved (homedir cwd : string) (isContainerized : bool)
    (re_test : string → string → bool) :
  let registry := [("tar", cmd_tar)] in
  let seg := sample_segment "tar" ["-xf"; "a.tar"; "--to-command"; "sh -c evil"] in
  (computeSandboxAutoApprove homedir cwd registry (single_parse seg) "/work" "/work"
     isContainerized).(approved) = true ∧
  (classifySegment re_test registry bash no_source None seg).(sr_risk) = Some high.
Proof. by destruct isContainerized. Qed.

(** ** Concrete instances *)

Lemma isPathWithinRoot_spec_witness :
  isPathWithinRoot "/" "/work/app/../app/x" "/work/app" = true ∧
  isPathWithinRoot "/" "/work/app/../app2" "/work/app" = false.
Proof.
  split.
  - apply (isPathWithinRoot_spec "/" "/work/app/../app/x" ["work"; "app"]);
      [discriminate|apply clean_segsb; vm_compute; reflexivity|].
    split; [discriminate|]. exists ["x"]. vm_compute. reflexivity.
  - apply not_true_is_false.
    intros [_ [below H]]%(isPathWithinRoot_spec "/" "/work/app/../app2" ["work"; "app"]);
      [vm_compute in H; discriminate H|discriminate|apply clean_segsb; vm_compute; reflexivity].
Defined.

Lemma sandbox_approve_spec_witness :
  let seg := sample_segment "cat" ["~/notes"; "a.txt"] in
  ∃ tss, Forall2 (confined_to "/home/user" "/" [("cat", cmd_cat)] "/home/user/w"
                    ["home"; "user"] false) [seg] tss ∧
    ["/home/user/notes"; "/home/user/w/a.txt"] = concat tss.
Proof.
  pose proof (sandbox_approve_spec "/home/user" "/" [("cat", cmd_cat)]
    (single_parse (sample_segment "cat" ["~/notes"; "a.txt"])) "/home/user/w"
    ["home"; "user"] false) as H.
  destruct H as (_ & _ & _ & tss & Htss & Heq).
  - discriminate.
  - apply clean_segsb. vm_compute. reflexivity.
  - exists tss. split; [exact Htss|]. rewrite <- Heq. vm_compute. reflexivity.
Defined.

Lemma relative_text_accepted_witness :
  accepted_path "/home/user" "/" "/work/app" "/work" "$HOME/.ssh/id_rsa"
    "/work/app/$HOME/.ssh/id_rsa".
Proof.
  apply (relative_text_accepted "/home/user" "/" ["work"; "app"] ["work"]
    ["$HOME"; ".ssh"; "id_rsa"]); try discriminate; try (vm_compute; reflexivity);
    try (apply clean_segsb; vm_compute; reflexivity).
  exists ["app"]. reflexivity.
Defined.
