(* ===== verification/FileRisk.v ===== *)
(** The file tools' classifier ([gateway/src/risk/file-risk-classifier.ts]):
    path-based risk with escalation for the directories whose files the daemon
    later executes, and for targets outside the workspace. *)
From S2P Require Import Prelude JsString JsMap NodePath RiskTypes TrustRules ToolRisk.
From S2P Require Import RegistrySyntax ArgParser BashArgs RegistryA RegistryB BashRisk.
From S2P Require Import SandboxApprove.

Record FileClassificationContext := {
  protectedDir : string; deprecatedDir : string; hooksDir : string; pluginsDir : string;
  toolsDir : string; routesDir : string; workflowsDir : string; monitoringDir : string;
  skillSourceDirs : list string }.

Inductive FileTool :=
  | file_read | file_write | file_edit | host_file_read | host_file_write | host_file_edit
  | host_file_transfer.

#[export] Instance FileTool_eq_dec : EqDecision FileTool.
Proof. solve_decision. Defined.

Definition file_tool_string (t : FileTool) : string :=
  match t with
  | file_read => "file_read" | file_write => "file_write" | file_edit => "file_edit"
  | host_file_read => "host_file_read" | host_file_write => "host_file_write"
  | host_file_edit => "host_file_edit" | host_file_transfer => "host_file_transfer"
  end.

Record FileClassifierInput := {
  fi_toolName : FileTool; fi_filePath : string; fi_workingDir : string;
  fi_resolvedPath : option string; fi_resolvedWorkingDir : option string;
  fi_isContainerized : option bool;
  fi_transferSandboxDestPath : option string; fi_transferSandboxWorkingDir : option string;
  fi_resolvedTransferDestPath : option string }.

Definition CONTAINER_WORKSPACE_PREFIX : string := "/workspace/".
Definition CONTAINER_WORKSPACE_EXACT : string := "/workspace".

Section FileRisk.
Context {Src : Type} {TS : ToolRuleSource Src}.
Context (source : option Src).
(** [homedir()] and [process.cwd()]. *)
Context (homedir cwd : string).

(** The container's [/workspace] is the working directory. *)
Definition remapped (rawPath workingDir : string) : string :=
  if negb (starts_with rawPath (workingDir +:+ "/")) && negb (String.eqb rawPath workingDir)
  then
    if starts_with rawPath CONTAINER_WORKSPACE_PREFIX
    then slice_from (String.length CONTAINER_WORKSPACE_PREFIX) rawPath
    else if String.eqb rawPath CONTAINER_WORKSPACE_EXACT then "." else rawPath
  else rawPath.

Definition resolveSandboxPath (rawPath workingDir : string) : string :=
  resolve cwd [workingDir; remapped rawPath workingDir].

Definition is_set (o : option string) : bool := truthy (default "" o).

Definition isOutsideSandboxBoundary (input : FileClassifierInput) : bool :=
  if default false input.(fi_isContainerized) || negb (truthy input.(fi_filePath)) then false
  else if is_set input.(fi_resolvedPath) && is_set input.(fi_resolvedWorkingDir) then
    negb (isPathWithinRoot cwd (default "" input.(fi_resolvedPath))
            (default "" input.(fi_resolvedWorkingDir)))
  else
    negb (isPathWithinRoot cwd (resolveSandboxPath input.(fi_filePath) input.(fi_workingDir))
            input.(fi_workingDir)).

Definition isActorTokenSigningKeyPath (resolvedPath workingDir : string)
    (context : FileClassificationContext) : bool :=
  mem resolvedPath
    [path_join [homedir; ".vellum"; "protected"; "actor-token-signing-key"];
     path_join [context.(protectedDir); "actor-token-signing-key"];
     path_join [context.(deprecatedDir); "actor-token-signing-key"];
     resolve cwd [workingDir; "deprecated"; "actor-token-signing-key"]].

(** The directory itself or anything below it, read off the strings. *)
Definition in_directory (dir resolvedPath : string) : bool :=
  let normalizedDir := ensure_slash dir in
  String.eqb resolvedPath (slice_drop_last 1 normalizedDir)
  || starts_with resolvedPath normalizedDir.

Definition isHooksPath (p : string) (c : FileClassificationContext) : bool :=
  in_directory c.(hooksDir) p.
Definition isPluginsPath (p : string) (c : FileClassificationContext) : bool :=
  in_directory c.(pluginsDir) p.
Definition isToolsPath (p : string) (c : FileClassificationContext) : bool :=
  in_directory c.(toolsDir) p.
Definition isRoutesPath (p : string) (c : FileClassificationContext) : bool :=
  in_directory c.(routesDir) p.
Definition isWorkflowsPath (p : string) (c : FileClassificationContext) : bool :=
  in_directory c.(workflowsDir) p.
Definition isMonitoringPath (p : string) (c : FileClassificationContext) : bool :=
  in_directory c.(monitoringDir) p.

Definition isSkillSourcePath (p : string) (c : FileClassificationContext) : bool :=
  existsb (λ dir, starts_with p (ensure_slash dir)) c.(skillSourceDirs).

(** ** The allowlist ladder *)

Definition FILE_TOOL_DISPLAY_NAMES (t : FileTool) : string :=
  match t with
  | file_read => "file reads" | file_write => "file writes" | file_edit => "file edits"
  | host_file_read => "host file reads" | host_file_write => "host file writes"
  | host_file_edit => "host file edits" | host_file_transfer => "host file transfers"
  end.

Definition friendlyBasename (filePath : string) : string :=
  let base := default "" (last (split_char "/" filePath)) in
  if truthy base then base else filePath.

(** The upward walk, [levels] being how many are left. *)
Fixpoint ancestor_options (toolName dir : string) (levels : nat) : list AllowlistOption :=
  match levels with
  | O => []
  | S levels =>
      if negb (truthy dir) || String.eqb dir "/" || String.eqb dir "." then []
      else
        option_entry (dir +:+ "/**") ("Anything in " +:+ friendlyBasename dir +:+ "/")
          (toolName +:+ ":" +:+ dir +:+ "/**")
        :: (if String.eqb dir homedir then []
            else if String.eqb (dirname dir) dir then []
            else ancestor_options toolName (dirname dir) levels)
  end.

Definition buildFileAllowlistOptions (tool : FileTool) (filePath : string)
    : list AllowlistOption :=
  let toolName := file_tool_string tool in
  option_entry filePath "This file only" (toolName +:+ ":" +:+ filePath)
  :: ancestor_options toolName (dirname filePath) 3
  ++ [option_entry (toolName +:+ ":*") ("All " +:+ FILE_TOOL_DISPLAY_NAMES tool)
        (toolName +:+ ":*")].

(** ** Code-injection sinks *)

Definition sink_name (p : string) (c : FileClassificationContext) : option string :=
  if isSkillSourcePath p c then Some "skill source code"
  else if isHooksPath p c then Some "hooks directory"
  else if isPluginsPath p c then Some "plugins directory"
  else if isToolsPath p c then Some "tools directory"
  else if isRoutesPath p c then Some "routes directory"
  else if isWorkflowsPath p c then Some "workflows directory"
  else if isMonitoringPath p c then Some "monitoring directory"
  else None.

Definition classifyCodeInjectionSink (p : string) (c : FileClassificationContext)
    (verb : string) (options : list AllowlistOption) : option ToolAssessment :=
  target ← sink_name p c;
  Some (registry_assessment high (verb +:+ " to " +:+ target) (Some options)).

Definition classifyCodeInjectionSinkEither (lexicalPath realPath : string)
    (c : FileClassificationContext) (verb : string) (options : list AllowlistOption)
    : option ToolAssessment :=
  match classifyCodeInjectionSink lexicalPath c verb options with
  | Some sink => Some sink
  | None =>
      if String.eqb realPath lexicalPath then None
      else classifyCodeInjectionSink realPath c verb options
  end.

(** ** The classifier *)

Definition classify_read (input : FileClassifierInput) (c : FileClassificationContext)
    (options : list AllowlistOption) : ToolAssessment :=
  let lexicalPath := resolveSandboxPath input.(fi_filePath) input.(fi_workingDir) in
  let realPath := default lexicalPath input.(fi_resolvedPath) in
  if truthy input.(fi_filePath) &&
     (isActorTokenSigningKeyPath lexicalPath input.(fi_workingDir) c
      || isActorTokenSigningKeyPath realPath input.(fi_workingDir) c)
  then registry_assessment high "Reads actor token signing key" (Some options)
  else if truthy input.(fi_filePath) &&
     (isMonitoringPath lexicalPath c || isMonitoringPath realPath c)
  then registry_assessment high "Reads monitoring directory (snapshot data)" (Some options)
  else if isOutsideSandboxBoundary input
  then registry_assessment medium "File read outside the workspace" (Some options)
  else registry_assessment low "File read (default)" (Some options).

Definition write_word (t : FileTool) : string :=
  match t with file_write => "write" | _ => "edit" end.

Definition classify_write (input : FileClassifierInput) (c : FileClassificationContext)
    (options : list AllowlistOption) : ToolAssessment :=
  let lexicalPath := resolveSandboxPath input.(fi_filePath) input.(fi_workingDir) in
  let realPath := default lexicalPath input.(fi_resolvedPath) in
  let sink :=
    if truthy input.(fi_filePath)
    then classifyCodeInjectionSinkEither lexicalPath realPath c "Writes" options else None in
  match sink with
  | Some a => a
  | None =>
      let word := write_word input.(fi_toolName) in
      if isOutsideSandboxBoundary input
      then registry_assessment medium ("File " +:+ word +:+ " outside the workspace") (Some options)
      else registry_assessment low ("File " +:+ word +:+ " (default)") (Some options)
  end.

Definition host_word (t : FileTool) : string :=
  match t with
  | host_file_write => "write" | host_file_edit => "edit" | _ => "transfer"
  end.

Definition classify_host_write (input : FileClassifierInput) (c : FileClassificationContext)
    (options : list AllowlistOption) : ToolAssessment :=
  let actionVerb :=
    if bool_decide (input.(fi_toolName) = host_file_transfer) then "Transfers" else "Writes" in
  let destSink :=
    if is_set input.(fi_transferSandboxDestPath) then
      let lexicalDest := resolveSandboxPath (default "" input.(fi_transferSandboxDestPath))
                           (default cwd input.(fi_transferSandboxWorkingDir)) in
      classifyCodeInjectionSinkEither lexicalDest
        (default lexicalDest input.(fi_resolvedTransferDestPath)) c "Transfers" options
    else None in
  match destSink with
  | Some a => a
  | None =>
      let sink :=
        if truthy input.(fi_filePath) then
          let lexicalPath := resolve cwd [input.(fi_filePath)] in
          classifyCodeInjectionSinkEither lexicalPath
            (default lexicalPath input.(fi_resolvedPath)) c actionVerb options
        else None in
      match sink with
      | Some a => a
      | None =>
          registry_assessment medium
            ("Host file " +:+ host_word input.(fi_toolName) +:+ " (default)") (Some options)
      end
  end.

Definition file_options (input : FileClassifierInput) : list AllowlistOption :=
  if truthy input.(fi_filePath)
  then buildFileAllowlistOptions input.(fi_toolName) input.(fi_filePath) else [].

(** Before the user's rules. *)
Definition file_base (input : FileClassifierInput) (c : FileClassificationContext)
    : ToolAssessment :=
  let options := file_options input in
  match input.(fi_toolName) with
  | file_read => classify_read input c options
  | file_write | file_edit => classify_write input c options
  | host_file_read => registry_assessment medium "Host file read (default)" (Some options)
  | host_file_write | host_file_edit | host_file_transfer => classify_host_write input c options
  end.

Definition file_classify (input : FileClassifierInput) (c : FileClassificationContext)
    : ToolAssessment :=
  with_override
    (user_override source (file_tool_string input.(fi_toolName)) input.(fi_filePath)
       (Some (dirname input.(fi_filePath))))
    (file_base input c).

(** ** What the string tests mean *)

(** [d] is the normalised directory with segments [ds], not the root. *)
Definition directory (d : string) (ds : list string) : Prop :=
  d = abs_path ds ∧ ds ≠ [] ∧ Forall clean_seg ds.

Definition sink_dirs (c : FileClassificationContext) : list string :=
  [c.(hooksDir); c.(pluginsDir); c.(toolsDir); c.(routesDir); c.(workflowsDir);
   c.(monitoringDir)].

Definition canonical_context (c : FileClassificationContext) : Prop :=
  ∀ d, d ∈ sink_dirs c ++ c.(skillSourceDirs) → ∃ ds, directory d ds.

(** The path with segments [p] is one the daemon takes code from: a sink
    directory or something in it, or something in a skill source directory. *)
Definition plants_code (c : FileClassificationContext) (p : list string) : Prop :=
  (∃ d ds below, d ∈ sink_dirs c ∧ directory d ds ∧ p = ds ++ below) ∨
  (∃ d ds below, d ∈ c.(skillSourceDirs) ∧ directory d ds ∧ below ≠ [] ∧ p = ds ++ below).

Lemma directory_inj d ds ds' : directory d ds → directory d ds' → ds = ds'.
Proof. intros (-> & _ & H) (E & _ & H'). by apply abs_path_inj in E. Qed.

Lemma in_directory_spec d ds p :
  directory d ds → Forall clean_seg p →
  in_directory d (abs_path p) = true ↔ ∃ below, p = ds ++ below.
Proof.
  intros (-> & Hne & Hc) Hp. unfold in_directory.
  rewrite (ensure_slash_dir _ (ends_with_join ds Hne Hc)).
  change 1%nat with (String.length "/"). rewrite slice_drop_last_app.
  rewrite orb_true_iff, String.eqb_eq, (abs_path_below _ _ Hp Hc Hne). split.
  - intros [->%abs_path_inj|(b & _ & ->)]; [|done..|by eexists]. exists []. by rewrite app_nil_r.
  - intros [[|b below] ->]; [left; by rewrite app_nil_r|right; by exists (b :: below)].
Qed.

Lemma isSkillSourcePath_spec c p :
  canonical_context c → Forall clean_seg p →
  isSkillSourcePath (abs_path p) c = true ↔
  ∃ d ds below, d ∈ c.(skillSourceDirs) ∧ directory d ds ∧ below ≠ [] ∧ p = ds ++ below.
Proof.
  intros Hcan Hp. unfold isSkillSourcePath. rewrite existsb_true. split.
  - intros (d & Hd & Hs). destruct (Hcan d) as [ds Hds]; [apply elem_of_app; by right|].
    pose proof Hds as (-> & Hne & Hc).
    rewrite (ensure_slash_dir _ (ends_with_join ds Hne Hc)) in Hs.
    apply (abs_path_below _ _ Hp Hc Hne) in Hs as (b & Hb & Hpb).
    by exists (abs_path ds), ds, b.
  - intros (d & ds & below & Hd & Hds & Hb & Hpb). exists d. split; [done|].
    destruct Hds as (-> & Hne & Hc).
    rewrite (ensure_slash_dir _ (ends_with_join ds Hne Hc)).
    apply (abs_path_below _ _ Hp Hc Hne). by exists below.
Qed.

Lemma sink_name_in_directory c p :
  is_Some (sink_name p c) ↔
  isSkillSourcePath p c = true ∨ ∃ d, d ∈ sink_dirs c ∧ in_directory d p = true.
Proof.
  assert (is_Some (sink_name p c) ↔
    isSkillSourcePath p c || existsb (λ d, in_directory d p) (sink_dirs c) = true) as ->.
  { unfold sink_name, isHooksPath, isPluginsPath, isToolsPath, isRoutesPath, isWorkflowsPath,
      isMonitoringPath. cbn [sink_dirs existsb].
    destruct (isSkillSourcePath p c); [by split; [|eexists]|].
    do 6 (destruct (in_directory _ p); [by split; [|eexists]|]). by split; [intros []|]. }
  by rewrite orb_true_iff, existsb_true.
Qed.

Lemma sink_name_spec c p :
  canonical_context c → Forall clean_seg p →
  is_Some (sink_name (abs_path p) c) ↔ plants_code c p.
Proof.
  intros Hcan Hp. rewrite sink_name_in_directory, (isSkillSourcePath_spec c p Hcan Hp).
  unfold plants_code. split.
  - intros [Hs|(d & Hd & Hin)]; [by right|]. left.
    assert (d ∈ sink_dirs c ++ skillSourceDirs c) as Hin' by (apply elem_of_app; by left).
    destruct (Hcan d Hin') as [ds Hds].
    apply (in_directory_spec d ds p Hds Hp) in Hin as [b ->]. by exists d, ds, b.
  - intros [(d & ds & b & Hd & Hds & ->)|Hs]; [|by left]. right. exists d. split; [done|].
    apply (in_directory_spec d ds _ Hds Hp). by exists b.
Qed.

Lemma classifyCodeInjectionSink_spec p c verb options :
  classifyCodeInjectionSink p c verb options =
  (λ target, registry_assessment high (verb +:+ " to " +:+ target) (Some options)) <$>
    sink_name p c.
Proof. unfold classifyCodeInjectionSink. by destruct (sink_name p c). Qed.

(** Either path in a sink makes the answer high; neither gives no answer. *)
Lemma sink_either_spec c lex real verb options :
  canonical_context c → Forall clean_seg lex → Forall clean_seg real →
  let r := classifyCodeInjectionSinkEither (abs_path lex) (abs_path real) c verb options in
  (plants_code c lex ∨ plants_code c real → ∃ a, r = Some a ∧ a.(ta_risk) = high) ∧
  (¬ plants_code c lex → ¬ plants_code c real → r = None).
Proof.
  intros Hcan Hl Hr. cbv zeta. unfold classifyCodeInjectionSinkEither.
  rewrite !classifyCodeInjectionSink_spec, <- !(sink_name_spec c) by done.
  assert (∀ o : option string, ¬ is_Some o → o = None) as Hn.
  { intros [x|] Ho; [|done]. destruct Ho. by exists x. }
  destruct (sink_name (abs_path lex) c) as [x|] eqn:E; cbn [fmap option_fmap option_map].
  { split; [intros _; by eexists|]. intros Ho. by apply Hn in Ho. }
  destruct (String.eqb_spec (abs_path real) (abs_path lex)) as [->%abs_path_inj|]; try done.
  { rewrite E. split; [|done]. by intros [[]|[]]. }
  destruct (sink_name (abs_path real) c); cbn [fmap option_fmap option_map].
  - split; [intros _; by eexists|]. intros _ Ho. by apply Hn in Ho.
  - split; [|done]. by intros [[]|[]].
Qed.

(** A request of the assistant, whose directories are normalised and whose
    canonicalised paths, when it sends them, are [real] and [realRoot]. *)
Record canonical_request (input : FileClassifierInput) (w : list string)
    (real realRoot : option (list string)) : Prop := {
  cr_path : input.(fi_filePath) ≠ "";
  cr_dir : directory input.(fi_workingDir) w;
  cr_real : input.(fi_resolvedPath) = abs_path <$> real;
  cr_real_clean : ∀ r, real = Some r → Forall clean_seg r;
  cr_root : input.(fi_resolvedWorkingDir) = abs_path <$> realRoot;
  cr_root_dir : ∀ r, realRoot = Some r → r ≠ [] ∧ Forall clean_seg r }.

(** The segments the path of the request resolves to, by its text. *)
Definition lexical_segments (input : FileClassifierInput) : list string :=
  resolve_segments cwd [input.(fi_workingDir); remapped input.(fi_filePath) input.(fi_workingDir)].

Definition outside_workspace (input : FileClassifierInput) (w : list string)
    (real realRoot : option (list string)) : Prop :=
  input.(fi_isContainerized) ≠ Some true ∧
  match real, realRoot with
  | Some r, Some root => ¬ below_dir root r
  | _, _ => ¬ below_dir w (lexical_segments input)
  end.

Lemma isPathWithinRoot_abs p root :
  Forall clean_seg p → root ≠ [] → Forall clean_seg root →
  isPathWithinRoot cwd (abs_path p) (abs_path root) = true ↔ below_dir root p.
Proof.
  intros Hp Hne Hc. rewrite (isPathWithinRoot_spec cwd _ _ Hne Hc). unfold within, below_dir.
  pose proof (resolve_abs_path cwd [] p Hp) as E. cbn [app] in E. rewrite E. naive_solver.
Qed.

Lemma isOutsideSandboxBoundary_spec input w real realRoot :
  canonical_request input w real realRoot →
  isOutsideSandboxBoundary input = true ↔ outside_workspace input w real realRoot.
Proof.
  intros [Hp (Hw & Hne & Hc) Hr Hrc Hroot Hrd]. unfold isOutsideSandboxBoundary,
    outside_workspace, is_set. rewrite Hr, Hroot.
  assert (truthy (fi_filePath input) = true) as -> by (by destruct (fi_filePath input)).
  cbn [negb]. rewrite orb_false_r.
  assert (negb (isPathWithinRoot cwd (resolveSandboxPath (fi_filePath input)
    (fi_workingDir input)) (fi_workingDir input)) = true ↔ ¬ below_dir w (lexical_segments input))
    as Hlex.
  { rewrite negb_true_iff, <- not_true_iff_false. apply not_iff_compat. rewrite Hw at 2.
    apply isPathWithinRoot_abs; [apply resolve_segments_clean|done..]. }
  destruct (decide (fi_isContainerized input = Some true)) as [->|Hct].
  { cbn [from_option id orb]. split; [done|by intros []]. }
  assert (default false (fi_isContainerized input) = false) as ->
    by (by destruct (fi_isContainerized input) as [[]|]).
  destruct real as [r|], realRoot as [root|]; cbn [fmap option_fmap option_map from_option id orb];
    change (truthy "") with false; rewrite ?andb_false_r; cbn [andb]; try tauto.
  destruct (Hrd root eq_refl) as [Hrne Hrootc].
  change (truthy (abs_path r) && truthy (abs_path root)) with true. cbv iota.
  rewrite negb_true_iff, <- not_true_iff_false, (isPathWithinRoot_abs r root); try done.
  - tauto.
  - by apply Hrc.
Qed.

Lemma file_classify_no_rule input c :
  user_override source (file_tool_string input.(fi_toolName)) input.(fi_filePath)
    (Some (dirname input.(fi_filePath))) = None →
  file_classify input c = file_base input c.
Proof. intros H. unfold file_classify. by rewrite H. Qed.

(** A target the daemon takes code from, by the path's text or its canonical form. *)
Definition dangerous_target (input : FileClassifierInput) (c : FileClassificationContext)
    (real : option (list string)) : Prop :=
  plants_code c (lexical_segments input) ∨ ∃ r, real = Some r ∧ plants_code c r.

Lemma write_base_risk input c w real realRoot :
  canonical_context c → canonical_request input w real realRoot →
  input.(fi_toolName) = file_write ∨ input.(fi_toolName) = file_edit →
  let danger := dangerous_target input c real in
  let risk := (file_base input c).(ta_risk) in
  (danger → risk = high) ∧
  (¬ danger → outside_workspace input w real realRoot → risk = medium) ∧
  (¬ danger → ¬ outside_workspace input w real realRoot → risk = low).
Proof.
  intros Hcan Hreq Htool. cbv zeta. unfold dangerous_target.
  assert (file_base input c = classify_write input c (file_options input)) as ->.
  { unfold file_base. by destruct Htool as [-> | ->]. }
  unfold classify_write.
  rewrite <- (isOutsideSandboxBoundary_spec input w real realRoot Hreq).
  destruct Hreq as [Hp _ Hr Hrc _ _].
  assert (truthy (fi_filePath input) = true) as -> by (by destruct (fi_filePath input)).
  rewrite Hr.
  change (resolveSandboxPath (fi_filePath input) (fi_workingDir input))
    with (abs_path (lexical_segments input)).
  assert (default (abs_path (lexical_segments input)) (abs_path <$> real) =
    abs_path (default (lexical_segments input) real)) as -> by (by destruct real).
  assert (Forall clean_seg (default (lexical_segments input) real)) as Hrc'.
  { destruct real as [r|]; [by apply Hrc|apply resolve_segments_clean]. }
  destruct (sink_either_spec c (lexical_segments input)
    (default (lexical_segments input) real) "Writes" (file_options input) Hcan
    (resolve_segments_clean _ _) Hrc') as [Hhit Hmiss].
  assert (plants_code c (lexical_segments input) ∨
    plants_code c (default (lexical_segments input) real) ↔
    plants_code c (lexical_segments input) ∨ ∃ r, real = Some r ∧ plants_code c r) as Hd.
  { destruct real; naive_solver. }
  split.
  - intros (a & -> & Ha)%Hd%Hhit. done.
  - assert (¬ (plants_code c (lexical_segments input) ∨ ∃ r, real = Some r ∧ plants_code c r) →
      classifyCodeInjectionSinkEither (abs_path (lexical_segments input))
        (abs_path (default (lexical_segments input) real)) c "Writes" (file_options input) = None)
      as Hnone by (rewrite <- Hd; intros; apply Hmiss; tauto).
    split; intros Hnd Hout; rewrite (Hnone Hnd);
      destruct (isOutsideSandboxBoundary input); done.
Qed.

(** Sandboxed writes and edits: a rule the user saved for the path decides;
    without one, exactly the targets the daemon takes code from are high risk,
    whichever of the path's text and its canonicalised form names them, of the
    others exactly those outside the workspace are medium, and the rest is low. *)
Theorem sandbox_write_spec input c w real realRoot :
  canonical_context c → canonical_request input w real realRoot →
  input.(fi_toolName) = file_write ∨ input.(fi_toolName) = file_edit →
  let danger := dangerous_target input c real in
  let risk := (file_classify input c).(ta_risk) in
  match user_override source (file_tool_string input.(fi_toolName)) input.(fi_filePath)
          (Some (dirname input.(fi_filePath))) with
  | Some rule => risk = rule.(tr_risk)
  | None =>
      (danger → risk = high) ∧
      (¬ danger → outside_workspace input w real realRoot → risk = medium) ∧
      (¬ danger → ¬ outside_workspace input w real realRoot → risk = low)
  end.
Proof.
  intros Hcan Hreq Htool. cbv zeta. unfold file_classify.
  destruct (user_override _ _ _ _); [done|]. cbn [with_override].
  by apply write_base_risk.
Qed.

(** ** Spellings of a workspace path *)

(** The texts by which a tool with working directory [w] names the path [p]:
    relative to it, absolute, or through the container's mount point. *)
Inductive spelling (w : list string) : string → list string → Prop :=
  | by_relative segs :
      segs ≠ [] → Forall clean_seg segs → spelling w (join "/" segs) (w ++ segs)
  | by_absolute segs :
      Forall clean_seg segs → below_dir w segs ∨ head segs ≠ Some "workspace" →
      spelling w (abs_path segs) segs
  | by_container segs :
      segs ≠ [] → Forall clean_seg segs → ¬ below_dir w ("workspace" :: segs) →
      spelling w (abs_path ("workspace" :: segs)) (w ++ segs).

Lemma below_workdir wd w p :
  directory wd w → Forall clean_seg p →
  negb (starts_with (abs_path p) (wd +:+ "/")) && negb (String.eqb (abs_path p) wd) = false ↔
  below_dir w p.
Proof.
  intros (-> & Hne & Hw) Hp. unfold below_dir.
  rewrite andb_false_iff, !negb_false_iff, String.eqb_eq, (abs_path_below _ _ Hp Hw Hne). split.
  - intros [(b & _ & ->)|E]; [by eexists|].
    apply abs_path_inj in E as ->; [|done..].
    exists []. by rewrite app_nil_r.
  - intros [[|b below] ->]; [right; by rewrite app_nil_r|left; by exists (b :: below)].
Qed.

Lemma container_prefix segs :
  Forall clean_seg segs →
  starts_with (abs_path segs) CONTAINER_WORKSPACE_PREFIX = true →
  head segs = Some "workspace".
Proof.
  intros Hc Hs. assert (Forall clean_seg ["workspace"]) as Hw by (by apply clean_segsb).
  apply (abs_path_below segs ["workspace"] Hc Hw) in Hs as (b & _ & ->); done.
Qed.

Lemma spelling_resolves wd w raw p :
  directory wd w → spelling w raw p →
  resolve_segments cwd [wd; remapped raw wd] = p.
Proof.
  intros Hdir [segs Hne Hc|segs Hc Hor|segs Hne Hc Hnb]; unfold remapped.
  - assert (∀ r, starts_with (join "/" segs) ("/" +:+ r) = false) as Hrel.
    { intros r. apply starts_with_false. intros q Hq.
      destruct (join_clean_head segs Hne Hc) as [_ Ha]. rewrite Hq in Ha.
      unfold isAbsolute in Ha. rewrite append_assoc, starts_with_app in Ha. discriminate Ha. }
    pose proof Hdir as (-> & _ & Hw). 
    assert (starts_with (join "/" segs) (abs_path w +:+ "/") = false) as ->
      by (unfold abs_path; rewrite append_assoc; apply Hrel).
    assert (String.eqb (join "/" segs) (abs_path w) = false) as ->.
    { apply String.eqb_neq. intros E. specialize (Hrel (join "/" w)).
      rewrite E in Hrel. change ("/" +:+ join "/" w) with (abs_path w) in Hrel.
      assert (starts_with (abs_path w) (abs_path w) = true) as Ht
        by (apply starts_with_spec; exists ""; by rewrite append_nil_r).
      congruence. }
    cbn [negb andb]. pose proof (Hrel "workspace/") as E1.
    change ("/" +:+ "workspace/") with CONTAINER_WORKSPACE_PREFIX in E1. rewrite E1.
    assert (String.eqb (join "/" segs) CONTAINER_WORKSPACE_EXACT = false) as ->.
    { apply String.eqb_neq. intros E. specialize (Hrel "workspace"). by rewrite E in Hrel. }
    by apply resolve_relative.
  - pose proof (resolve_abs_path cwd [wd] segs Hc) as Hres. cbn [app] in Hres.
    destruct (negb _ && negb _) eqn:E; [|done].
    destruct Hor as [Hb|Hh]; [apply (below_workdir wd w segs Hdir Hc) in Hb; congruence|].
    destruct (starts_with (abs_path segs) CONTAINER_WORKSPACE_PREFIX) eqn:Hs; [by apply container_prefix in Hs|].
    destruct (String.eqb_spec (abs_path segs) CONTAINER_WORKSPACE_EXACT) as [Hx|]; [|done].
    change CONTAINER_WORKSPACE_EXACT with (abs_path ["workspace"]) in Hx.
    apply abs_path_inj in Hx as ->; [done|done|by apply clean_segsb].
  - assert (Forall clean_seg ("workspace" :: segs)) as Hc'.
    { constructor; [|done]. by apply (Forall_inv (clean_segsb ["workspace"] eq_refl)). }
    destruct (negb _ && negb _) eqn:E.
    2: { by apply (below_workdir wd w _ Hdir Hc') in E. }
    assert (abs_path ("workspace" :: segs) = CONTAINER_WORKSPACE_PREFIX +:+ join "/" segs) as ->.
    { destruct segs; [done|]. unfold abs_path. by rewrite join_cons. }
    rewrite starts_with_app, slice_from_app. destruct Hdir as (-> & _ & Hw).
    by apply resolve_relative.
Qed.

(** The file in the sandbox a tool call writes, and the directory its path is
    relative to. *)
Definition sandbox_target (input : FileClassifierInput) : option (string * string) :=
  match input.(fi_toolName) with
  | file_write | file_edit => Some (input.(fi_filePath), input.(fi_workingDir))
  | host_file_transfer =>
      dest ← input.(fi_transferSandboxDestPath);
      Some (dest, default cwd input.(fi_transferSandboxWorkingDir))
  | _ => None
  end.

Lemma sink_either_lexical lex real c verb options :
  is_Some (sink_name lex c) →
  ∃ a, classifyCodeInjectionSinkEither lex real c verb options = Some a ∧ a.(ta_risk) = high.
Proof.
  intros [x Hx]. unfold classifyCodeInjectionSinkEither.
  rewrite classifyCodeInjectionSink_spec, Hx. by eexists.
Qed.

Lemma spelling_truthy w raw p : spelling w raw p → truthy raw = true.
Proof.
  intros [segs Hne Hc|segs _ _|segs _ _ _]; [|done..]. by apply join_clean_head.
Qed.

(** Without a rule of the user no spelling hides a write from the check: a
    file the daemon would load is high risk to write, to edit and to transfer
    to, be its path relative, absolute or the container's, and whatever
    canonical path the caller sends along. *)
Theorem spelled_sink_high input c raw wd w p :
  canonical_context c → sandbox_target input = Some (raw, wd) → directory wd w →
  spelling w raw p → Forall clean_seg p → plants_code c p →
  user_override source (file_tool_string input.(fi_toolName)) input.(fi_filePath)
    (Some (dirname input.(fi_filePath))) = None →
  (file_classify input c).(ta_risk) = high.
Proof.
  intros Hcan Htgt Hdir Hsp Hp Hpc Hno. rewrite (file_classify_no_rule _ _ Hno).
  pose proof (spelling_resolves wd w raw p Hdir Hsp) as Hres.
  assert (resolveSandboxPath raw wd = abs_path p) as Hlex
    by (unfold resolveSandboxPath, resolve; by rewrite Hres).
  apply (sink_name_spec c p Hcan Hp) in Hpc. apply spelling_truthy in Hsp.
  unfold sandbox_target in Htgt. unfold file_base.
  destruct (fi_toolName input) eqn:Et; try discriminate Htgt.
  1-2: injection Htgt as <- <-; unfold classify_write; rewrite Hsp, Hlex;
    by destruct (sink_either_lexical (abs_path p) (default (abs_path p) (fi_resolvedPath input))
      c "Writes" (file_options input) Hpc) as (a & -> & Ha).
  destruct (fi_transferSandboxDestPath input) as [dest|] eqn:Ed; [|discriminate Htgt].
  injection Htgt as <- <-. unfold classify_host_write, is_set. rewrite Ed.
  cbn [from_option id]. rewrite Hsp, Hlex.
  by destruct (sink_either_lexical (abs_path p)
    (default (abs_path p) (fi_resolvedTransferDestPath input))
    c "Transfers" (file_options input) Hpc) as (a & -> & Ha).
Qed.

(** ** The rungs of the ladder and the lookup *)

Lemma ancestor_options_wild toolName dir n o :
  o ∈ ancestor_options toolName dir n → ∃ d, o.(al_pattern) = toolName +:+ ":" +:+ d +:+ "/**".
Proof.
  revert dir. induction n as [|n IH]; intros dir; cbn [ancestor_options]; [by intros ?%elem_of_nil|].
  destruct (_ || _ || _); [by intros ?%elem_of_nil|].
  intros [->|Ho]%elem_of_cons; [by eexists|].
  destruct (String.eqb dir homedir); [by apply elem_of_nil in Ho|].
  destruct (String.eqb _ dir); [by apply elem_of_nil in Ho|]. by apply IH in Ho.
Qed.
End FileRisk.

(** A rule saved under any of the offered directory or whole-tool patterns is
    never found again: the lookup compares whole strings. *)
Theorem wildcard_rung_ignored (homedir path : string) (tool : FileTool) (o : AllowlistOption)
    (r : TrustRule) (scope : option string) :
  o ∈ tail (buildFileAllowlistOptions homedir tool path) → no_char "*" path →
  findToolOverride [(file_tool_string tool, [(o.(al_pattern), r)])] (file_tool_string tool)
    path scope = None.
Proof.
  intros Ho Hstar.
  assert (∃ x y, o.(al_pattern) = x +:+ "*" +:+ y) as (x & y & Hp).
  { unfold buildFileAllowlistOptions in Ho. cbn [tail] in Ho.
    apply elem_of_app in Ho as [Ho|Ho].
    - apply ancestor_options_wild in Ho as [d ->].
      exists (file_tool_string tool +:+ ":" +:+ d +:+ "/"), "*". by rewrite !append_assoc.
    - apply elem_of_cons in Ho as [->|[]%elem_of_nil]. exists (file_tool_string tool +:+ ":"), "".
      unfold option_entry. cbn [al_pattern]. by rewrite !append_assoc. }
  assert (∀ z, no_char "*" z → o.(al_pattern) ≠ z) as Hneq.
  { intros z Hz <-. rewrite Hp in Hz. apply no_char_app in Hz as [_ Hz].
    by apply no_char_app in Hz as [Hz _]. }
  assert (no_char "*" (file_tool_string tool +:+ ":" +:+ path)) as Hkey.
  { apply no_char_app. split; [by destruct tool|]. by apply no_char_app. }
  unfold findToolOverride. cbn [map_get]. rewrite decide_True by done.
  cbn [map_get]. rewrite !decide_False by (intros E; symmetry in E; revert E; by apply Hneq). done.
Qed.

(** ** Concrete instances *)

Definition sample_context : FileClassificationContext :=
  {| protectedDir := "/home/user/.vellum/protected"; deprecatedDir := "/home/user/ws/deprecated";
     hooksDir := "/home/user/ws/hooks"; pluginsDir := "/home/user/ws/plugins";
     toolsDir := "/home/user/ws/tools"; routesDir := "/home/user/ws/routes";
     workflowsDir := "/home/user/ws/workflows";
     monitoringDir := "/home/user/ws/data/monitoring";
     skillSourceDirs := ["/home/user/ws/skills"] |}.

Definition directoryb (d : string) : bool :=
  let ds := tail (split_char "/" d) in
  String.eqb d (abs_path ds) && negb (bool_decide (ds = [])) && forallb clean_segb ds.

Lemma canonical_contextb c :
  forallb directoryb (sink_dirs c ++ c.(skillSourceDirs)) = true → canonical_context c.
Proof.
  rewrite forallb_true. intros H d Hd. specialize (H d Hd). unfold directoryb in H. bool_to_prop.
  exists (tail (split_char "/" d)). split_and!; [done..|by apply clean_segsb].
Qed.

Lemma sample_context_canonical : canonical_context sample_context.
Proof. by apply canonical_contextb. Qed.

Definition sample_input (tool : FileTool) (path : string) (real : option string)
    : FileClassifierInput :=
  {| fi_toolName := tool; fi_filePath := path; fi_workingDir := "/home/user/ws";
     fi_resolvedPath := real; fi_resolvedWorkingDir := Some "/home/user/ws";
     fi_isContainerized := None; fi_transferSandboxDestPath := Some path;
     fi_transferSandboxWorkingDir := Some "/home/user/ws"; fi_resolvedTransferDestPath := None |}.

Lemma sample_directory : directory "/home/user/ws" ["home"; "user"; "ws"].
Proof. split_and!; [done..|by apply clean_segsb]. Qed.

(** A harmless name that is a link to the tools directory. *)
Lemma sandbox_write_spec_witness :
  ((file_classify (Src := TrustRuleCache) None "/home/user" "/"
      (sample_input file_write "notes/x.ts" (Some "/home/user/ws/tools/x.ts"))
      sample_context).(ta_risk) = high).
Proof.
  destruct (sandbox_write_spec (Src := TrustRuleCache) None "/home/user" "/"
    (sample_input file_write "notes/x.ts" (Some "/home/user/ws/tools/x.ts")) sample_context
    ["home"; "user"; "ws"] (Some ["home"; "user"; "ws"; "tools"; "x.ts"])
    (Some ["home"; "user"; "ws"])) as (H & _ & _).
  - apply sample_context_canonical.
  - split; [done|apply sample_directory|done| |done|];
      intros r [= <-]; [by apply clean_segsb|split; [done|by apply clean_segsb]].
  - by left.
  - apply H. right. eexists. split; [reflexivity|]. left.
    exists "/home/user/ws/tools", ["home"; "user"; "ws"; "tools"], ["x.ts"].
    split; [by right; right; left|]. split; [|done]. split_and!; [done..|by apply clean_segsb].
Defined.

Lemma spelled_sink_high_witness :
  (file_classify (Src := TrustRuleCache) None "/home/user" "/"
     (sample_input host_file_transfer "/workspace/tools/x.ts" None) sample_context).(ta_risk)
  = high.
Proof.
  apply (spelled_sink_high (Src := TrustRuleCache) None "/home/user" "/"
    (sample_input host_file_transfer "/workspace/tools/x.ts" None) sample_context
    "/workspace/tools/x.ts" "/home/user/ws" ["home"; "user"; "ws"]
    ["home"; "user"; "ws"; "tools"; "x.ts"]).
  - apply sample_context_canonical.
  - reflexivity.
  - apply sample_directory.
  - apply (by_container ["home"; "user"; "ws"] ["tools"; "x.ts"]); [done|by apply clean_segsb|].
    intros [b Hb]. discriminate Hb.
  - by apply clean_segsb.
  - left. exists "/home/user/ws/tools", ["home"; "user"; "ws"; "tools"], ["x.ts"].
    split; [by right; right; left|]. split; [|done]. split_and!; [done..|by apply clean_segsb].
  - reflexivity.
Defined.
