(* ===== verification/PowerShell.v ===== *)
(** The PowerShell classifier ([gateway/src/risk/powershell-risk-classifier.ts]):
    the scanners that split a command line, the program's risk, and the
    assessment of the whole command.

    Arguments of the model: the engine of the regular expressions ([re_test] for
    [test], [re_match] for the text [match] matches), the Windows half of
    [node:path] ([win32]), the command registry and the rule source. Text is
    bytes; lower-casing is ASCII. *)
From S2P Require Import Prelude JsString JsMap RiskTypes ArgParser TrustRules BashArgs.
From S2P Require Import RegistrySyntax RegistryA RegistryB BashRisk DirectoryScope.

(** ** Characters *)

Definition newline : ascii := "010".
Definition double_quote : ascii := "034".
Definition backtick : ascii := "`".

Definition is_quote (c : ascii) : bool := Ascii.eqb c "'" || Ascii.eqb c double_quote.
Definition is_open (c : ascii) : bool :=
  Ascii.eqb c "(" || Ascii.eqb c "{" || Ascii.eqb c "[".
Definition is_close (c : ascii) : bool :=
  Ascii.eqb c ")" || Ascii.eqb c "}" || Ascii.eqb c "]".
Definition is_separator (c : ascii) : bool :=
  Ascii.eqb c ";" || Ascii.eqb c newline || Ascii.eqb c "|".

Definition add_char (s : string) (c : ascii) : string := s +:+ String c "".

(** The quote state after a character inside quotes [q]. *)
Definition after_quoted (q c : ascii) : option ascii := if Ascii.eqb c q then None else Some q.

(** ** Splitting into statements *)

Record SplitState := {
  sp_segments : list string; sp_current : string; sp_quote : option ascii;
  sp_escaped : bool; sp_depth : nat }.

Definition sp_push (c : ascii) (st : SplitState) : SplitState :=
  {| sp_segments := st.(sp_segments); sp_current := add_char st.(sp_current) c;
     sp_quote := st.(sp_quote); sp_escaped := false; sp_depth := st.(sp_depth) |}.

Definition sp_set_quote (q : option ascii) (st : SplitState) : SplitState :=
  {| sp_segments := st.(sp_segments); sp_current := st.(sp_current); sp_quote := q;
     sp_escaped := st.(sp_escaped); sp_depth := st.(sp_depth) |}.

Definition sp_set_escaped (st : SplitState) : SplitState :=
  {| sp_segments := st.(sp_segments); sp_current := st.(sp_current);
     sp_quote := st.(sp_quote); sp_escaped := true; sp_depth := st.(sp_depth) |}.

Definition sp_set_depth (d : nat) (st : SplitState) : SplitState :=
  {| sp_segments := st.(sp_segments); sp_current := st.(sp_current);
     sp_quote := st.(sp_quote); sp_escaped := st.(sp_escaped); sp_depth := d |}.

Definition sp_flush (st : SplitState) : SplitState :=
  let trimmed := trim st.(sp_current) in
  {| sp_segments := if truthy trimmed then st.(sp_segments) ++ [trimmed]
                    else st.(sp_segments);
     sp_current := ""; sp_quote := st.(sp_quote); sp_escaped := st.(sp_escaped);
     sp_depth := st.(sp_depth) |}.

(** [command] from the current index on; [||] and [&&] skip one more. *)
Fixpoint split_loop (command : string) (st : SplitState) : SplitState :=
  match command with
  | EmptyString => st
  | String c rest =>
      if st.(sp_escaped) then split_loop rest (sp_push c st)
      else if Ascii.eqb c backtick then split_loop rest (sp_set_escaped (sp_push c st))
      else match st.(sp_quote) with
      | Some q => split_loop rest (sp_set_quote (after_quoted q c) (sp_push c st))
      | None =>
          if is_quote c then split_loop rest (sp_set_quote (Some c) (sp_push c st))
          else if is_open c then split_loop rest (sp_set_depth (S st.(sp_depth)) (sp_push c st))
          else if is_close c then
            split_loop rest (sp_set_depth (pred st.(sp_depth)) (sp_push c st))
          else if (st.(sp_depth) =? 0)%nat && is_separator c then
            match rest with
            | String d rest' =>
                if Ascii.eqb c "|" && Ascii.eqb d c then split_loop rest' (sp_flush st)
                else split_loop rest (sp_flush st)
            | EmptyString => split_loop rest (sp_flush st)
            end
          else if (st.(sp_depth) =? 0)%nat && Ascii.eqb c "&" then
            match rest with
            | String d rest' =>
                if Ascii.eqb d "&" then split_loop rest' (sp_flush st)
                else split_loop rest (sp_push c st)
            | EmptyString => split_loop rest (sp_push c st)
            end
          else split_loop rest (sp_push c st)
      end
  end.

Definition split_start : SplitState :=
  {| sp_segments := []; sp_current := ""; sp_quote := None; sp_escaped := false;
     sp_depth := 0 |}.

Definition splitPowerShell (command : string) : list string :=
  (sp_flush (split_loop command split_start)).(sp_segments).

(** ** Tokens *)

Definition tk_flush (tokens : list string) (current : string) : list string :=
  if truthy current then tokens ++ [current] else tokens.

Fixpoint tokenize_loop (segment : string) (tokens : list string) (current : string)
    (quote : option ascii) (escaped : bool) : list string :=
  match segment with
  | EmptyString => tk_flush tokens current
  | String c rest =>
      if escaped then tokenize_loop rest tokens (add_char current c) quote false
      else if Ascii.eqb c backtick then tokenize_loop rest tokens current quote true
      else match quote with
      | Some q =>
          if Ascii.eqb c q then tokenize_loop rest tokens current None false
          else tokenize_loop rest tokens (add_char current c) quote false
      | None =>
          if is_quote c then tokenize_loop rest tokens current (Some c) false
          else if is_space c then tokenize_loop rest (tk_flush tokens current) "" None false
          else tokenize_loop rest tokens (add_char current c) None false
      end
  end.

Definition tokenizePowerShell (segment : string) : list string :=
  tokenize_loop segment [] "" None false.

(** ** Call operators and redirection *)

Record PowerShellSyntax := { callOperator : bool; outputRedirection : bool }.

(** [prev] is [command[index - 1]]. *)
Fixpoint scan_loop (command : string) (prev quote : option ascii) (escaped : bool)
    (st : PowerShellSyntax) : PowerShellSyntax :=
  match command with
  | EmptyString => st
  | String c rest =>
      let next := match rest with String d _ => Some d | EmptyString => None end in
      if escaped then scan_loop rest (Some c) quote false st
      else if Ascii.eqb c backtick then scan_loop rest (Some c) quote true st
      else match quote with
      | Some q => scan_loop rest (Some c) (after_quoted q c) false st
      | None =>
          if is_quote c then scan_loop rest (Some c) (Some c) false st
          else if Ascii.eqb c ">" then
            scan_loop rest (Some c) None false
              {| callOperator := st.(callOperator); outputRedirection := true |}
          else if Ascii.eqb c "&" && negb (bool_decide (prev = Some "&"%char))
                  && negb (bool_decide (next = Some "&"%char)) then
            scan_loop rest (Some c) None false
              {| callOperator := true; outputRedirection := st.(outputRedirection) |}
          else scan_loop rest (Some c) None false st
      end
  end.

Definition scanPowerShellSyntax (command : string) : PowerShellSyntax :=
  scan_loop command None None false {| callOperator := false; outputRedirection := false |}.

(** ** Tables *)

Definition ALIASES : list (string * string) :=
  [("cat", "get-content"); ("gc", "get-content"); ("type", "get-content");
   ("ls", "get-childitem"); ("dir", "get-childitem"); ("gci", "get-childitem");
   ("pwd", "get-location"); ("cd", "set-location"); ("sl", "set-location");
   ("cp", "copy-item"); ("copy", "copy-item"); ("cpi", "copy-item"); ("mv", "move-item");
   ("move", "move-item"); ("mi", "move-item"); ("ren", "rename-item");
   ("rni", "rename-item"); ("rm", "remove-item"); ("del", "remove-item");
   ("erase", "remove-item"); ("rd", "remove-item"); ("rmdir", "remove-item");
   ("ri", "remove-item"); ("sc", "set-content"); ("ac", "add-content");
   ("clc", "clear-content"); ("iwr", "invoke-webrequest"); ("curl", "invoke-webrequest");
   ("wget", "invoke-webrequest"); ("irm", "invoke-restmethod"); ("iex", "invoke-expression")].

Definition LOW_RISK_COMMANDS : list string :=
  ["get-alias"; "get-childitem"; "get-command"; "get-content"; "get-date"; "get-help";
   "get-item"; "get-itemproperty"; "get-location"; "get-member"; "get-process";
   "get-service"; "measure-object"; "out-string"; "select-object"; "sort-object";
   "test-connection"; "test-path"; "where-object"].

Definition MEDIUM_RISK_COMMANDS : list string :=
  ["add-content"; "copy-item"; "export-csv"; "import-csv"; "invoke-restmethod";
   "invoke-webrequest"; "move-item"; "new-item"; "rename-item"; "set-content"; "set-item";
   "set-itemproperty"; "set-location"; "start-service"; "stop-process"; "stop-service"].

Definition HIGH_RISK_COMMANDS : list string :=
  ["add-type"; "clear-content"; "clear-disk"; "disable-computerrestore"; "diskpart";
   "format"; "format.com"; "format-volume"; "initialize-disk"; "invoke-command";
   "invoke-expression"; "new-object"; "powershell-script"; "remove-item";
   "remove-itemproperty"; "restart-computer"; "set-executionpolicy"; "start-process";
   "stop-computer"; "uninstall-package"].

Definition FILESYSTEM_COMMANDS : list string :=
  ["add-content"; "clear-content"; "copy-item"; "get-childitem"; "get-content"; "get-item";
   "get-itemproperty"; "move-item"; "new-item"; "remove-item"; "remove-itemproperty";
   "rename-item"; "set-content"; "set-item"; "set-itemproperty"; "test-path"].

Definition PATH_PARAMETERS : list string :=
  ["-destination"; "-filepath"; "-literalpath"; "-path"; "-targetpath"].

Definition LOW_RISK_VERBS : list string :=
  ["compare"; "convertfrom"; "convertto"; "find"; "format"; "get"; "group"; "measure";
   "resolve"; "search"; "select"; "show"; "sort"; "test"].

Definition MEDIUM_RISK_VERBS : list string :=
  ["add"; "copy"; "enable"; "export"; "grant"; "import"; "install"; "move"; "new";
   "publish"; "register"; "rename"; "set"; "start"; "stop"; "update"; "write"].

Definition HIGH_RISK_VERBS : list string :=
  ["clear"; "disable"; "dismount"; "initialize"; "remove"; "reset"; "restart"; "revoke";
   "uninstall"; "unregister"].
(** Regular expressions are named by their literal, flags included. *)
Definition DANGEROUS_PATTERNS : list (string * string) :=
  [("/\b(?:invoke-expression|iex)\b/i", "PowerShell dynamic expression execution");
   ("/\b(?:add-type|scriptblock\s*::\s*create)\b/i", "PowerShell runtime code compilation");
   ("/\b(?:frombase64string|encodedcommand)\b/i", "Encoded PowerShell execution");
   ("/\b(?:downloadstring|reflection\.assembly)\b/i",
    "Remote or reflected PowerShell code loading");
   ("/\[[^\]\r\n]+\]\s*::\s*[A-Za-z_]\w*\s*\(/", "PowerShell .NET member invocation");
   ("/\$(?:[A-Za-z_][\w:]*|\{[^}]+\})(?:\.[A-Za-z_]\w*|\[[^\]]+\])*\.[A-Za-z_]\w*\s*\(/",
    "PowerShell object member invocation")].

Definition POWERSHELL_VARIABLE : string :=
  "\$(?:[A-Za-z_][\w:]*|\{[^}]+\})(?:\.[A-Za-z_]\w*|\[[^\]]+\])*".
Definition POWERSHELL_TYPE_CONSTRAINT : string := "(?:\[[^\]\r\n]+\]\s*)*".
Definition ASSIGNMENT_TARGET : string := POWERSHELL_TYPE_CONSTRAINT +:+ POWERSHELL_VARIABLE.
Definition LEADING_ASSIGNMENT : string :=
  "^\s*" +:+ ASSIGNMENT_TARGET +:+ "(?:\s*,\s*" +:+ ASSIGNMENT_TARGET +:+
  ")*\s*(?:(?:\?\?|[+*/%-])?=)\s*".

Definition OPAQUE_SYNTAX : string := "/\$\(|[{}]|(?:^|\s)\.(?:\s|$)/".
Definition OPAQUE_BLOCK : string := "/\b(?:foreach-object|where-object)\b[^\n]*\{/i".
Definition VARIABLE_EXPANSION : string := "/\$(?:env:)?[A-Za-z_][\w:]*/".

(** ** Segments *)

Record PowerShellSegment := { raw : string; ps_program : string; ps_args : list string }.

Definition strip_suffix (suffix s : string) : string :=
  if ends_with (to_lower s) suffix then slice_drop_last (String.length suffix) s else s.

(** [split(/[\\/]/).pop()] *)
Definition path_stripped (program : string) : string :=
  let after c s := default "" (last (split_char c s)) in after "\"%char (after "/"%char program).

Definition normalizeProgram (program : string) : string :=
  let stripped := path_stripped program in
  if existsb (λ ext, ends_with (to_lower stripped) ext) [".bat"; ".cmd"; ".ps1"; ".psm1"]
  then "powershell-script"
  else
    let normalized := to_lower (strip_suffix ".exe" stripped) in
    default normalized (map_get normalized ALIASES).

(** The functions of [node:path]'s [win32] the classifier calls; [w_root] is the
    [root] field of [parse]. *)
Record Win32 := {
  w_isAbsolute : string → bool; w_normalize : string → string; w_dirname : string → string;
  w_root : string → string; w_basename : string → string; w_join : list string → string }.

Definition win32_sep : string := "\".

Record PowerShellRiskAssessment := {
  pa_riskLevel : option Risk; pa_reason : string; pa_scopeOptions : list ScopeOption;
  pa_allowlistOptions : list AllowlistOption; pa_actionKeys : list string;
  pa_commandCandidates : list string; pa_dangerousPatterns : list DangerousPattern;
  pa_opaqueConstructs : bool; pa_isComplexSyntax : bool;
  pa_directoryScopeOptions : option (list DirectoryScopeOption);
  pa_resolvedPaths : option (list string); pa_matchType : MatchType }.

Definition buildActionKeys (segments : list PowerShellSegment) : list string :=
  (λ p, "action:" +:+ p) <$> set_of (ps_program <$> segments).

Definition key_program (key : string) : string := slice_from (String.length "action:") key.

Definition buildScopeOptions (command : string) (actionKeys : list string)
    : list ScopeOption :=
  {| so_pattern := command; so_label := command |}
  :: ((λ key, {| so_pattern := key; so_label := key_program key +:+ " *" |}) <$> actionKeys).

Definition buildAllowlistOptions (command : string) (actionKeys : list string)
    : list AllowlistOption :=
  {| al_label := command; al_description := "This exact PowerShell command";
     al_pattern := command |}
  :: ((λ key, {| al_label := key_program key +:+ " *";
                 al_description := "Any " +:+ key_program key +:+ " PowerShell command";
                 al_pattern := key |}) <$> actionKeys).

Section PowerShell.
Context {Src : Type} {RS : RuleSource Src}.
Context (re_test : string → string → bool).
(** The matched text of [s.match(pattern)]. *)
Context (re_match : string → string → option string).
Context (win32 : Win32).
Context (registry : list (string * CommandRiskSpec)).
Context (source : option Src).

(** The [while (true)] loop: every turn drops the matched text, so as many turns
    as there are characters suffice when no match is empty (lemma
    [strip_assignments_done]). *)
Fixpoint strip_assignments (fuel : nat) (segment : string) : string :=
  match fuel with
  | O => segment
  | S fuel =>
      match re_match LEADING_ASSIGNMENT segment with
      | None => segment
      | Some m => strip_assignments fuel (slice_from (String.length m) segment)
      end
  end.

Definition stripLeadingAssignments (segment : string) : string :=
  strip_assignments (S (String.length segment)) segment.

Definition parse_segment (raw : string) : list PowerShellSegment :=
  let executable := stripLeadingAssignments raw in
  match tokenizePowerShell executable with
  | [] => []
  | t :: ts => [{| raw := executable; ps_program := normalizeProgram t; ps_args := ts |}]
  end.

Definition parseSegments (command : string) : list PowerShellSegment :=
  mjoin (parse_segment <$> splitPowerShell command).

Definition host_rule (command : string) : option TrustRule :=
  cached_rule host_bash source None command.

Definition registry_risk (risk : Risk) (why : string) : SegmentRisk :=
  {| sr_risk := Some risk; sr_reason := why; sr_matchType := registry_match |}.

(** The family of a [Verb-Noun] name. *)
Definition verb_risk (program : string) : option SegmentRisk :=
  match index_of_char "-" program with
  | Some (S n) =>
      let verb := slice_to (S n) program in
      if mem verb HIGH_RISK_VERBS then
        Some (registry_risk high (program +:+ " belongs to a destructive PowerShell command family"))
      else if mem verb MEDIUM_RISK_VERBS then
        Some (registry_risk medium
          (program +:+ " belongs to a state-changing PowerShell command family"))
      else if mem verb LOW_RISK_VERBS then
        Some (registry_risk low (program +:+ " belongs to a read-only PowerShell command family"))
      else None
  | _ => None
  end.

Definition builtin_risk (program : string) : option SegmentRisk :=
  if mem program HIGH_RISK_COMMANDS then
    Some (registry_risk high
      (program +:+ " can execute code or perform destructive system changes"))
  else if mem program MEDIUM_RISK_COMMANDS then
    Some (registry_risk medium (program +:+ " changes host state"))
  else if mem program LOW_RISK_COMMANDS then
    Some (registry_risk low (program +:+ " reads or formats host state"))
  else if mem program ["cmd"; "powershell"; "pwsh"] then
    Some (registry_risk high (program +:+ " executes an arbitrary nested command"))
  else verb_risk program.

Definition classifyPowerShellProgram (segment : PowerShellSegment) : SegmentRisk :=
  match (match host_rule segment.(raw) with
         | Some r => Some r
         | None => host_rule segment.(ps_program)
         end) with
  | Some r =>
      {| sr_risk := Some r.(tr_risk); sr_reason := r.(tr_description);
         sr_matchType := if isUserRule (Some r) then user_rule else registry_match |}
  | None =>
      match builtin_risk segment.(ps_program) with
      | Some r => r
      | None =>
          classifySegment re_test registry host_bash source None
            {| command := segment.(raw); program := segment.(ps_program);
               args := segment.(ps_args); operator := OpNone; synthetic := None |}
      end
  end.

Definition detectDangerousPatterns (command : string) : list DangerousPattern :=
  omap (λ candidate : string * string,
    m ← re_match candidate.1 command;
    Some {| dp_type := dangerous_substitution; dp_description := candidate.2; dp_text := m |})
    DANGEROUS_PATTERNS.

(** ** Paths *)

Definition add_path (candidate : option string) (paths : list string) : list string :=
  match candidate with
  | Some p =>
      if negb (includes_char p "$") && negb (includes_char p ",") && win32.(w_isAbsolute) p
      then set_add (win32.(w_normalize) p) paths else paths
  | None => paths
  end.

(** The argument loop of one segment; a path parameter consumes the next one. *)
Fixpoint collect_args (args paths : list string) : list string :=
  match args with
  | [] => paths
  | arg :: rest =>
      let colon := match index_of_char ":" arg with Some (S n) => Some (S n) | _ => None end in
      let parameter :=
        to_lower (match colon with Some n => slice_to n arg | None => arg end) in
      if mem parameter PATH_PARAMETERS then
        match colon with
        | Some n => collect_args rest (add_path (Some (slice_from (S n) arg)) paths)
        | None =>
            match rest with
            | next :: rest' => collect_args rest' (add_path (Some next) paths)
            | [] => paths
            end
        end
      else if negb (starts_with arg "-") then collect_args rest (add_path (Some arg) paths)
      else collect_args rest paths
  end.

Definition collectWindowsPaths (segments : list PowerShellSegment) : list string :=
  foldl (λ paths s,
    if mem s.(ps_program) FILESYSTEM_COMMANDS then collect_args s.(ps_args) paths else paths)
    [] segments.

(** The parts all lists share, spelled as the first one has them. *)
Fixpoint shared_parts (first : list string) (others : list (list string)) : list string :=
  match first with
  | [] => []
  | p :: first =>
      if forallb (λ l, match l with
                       | x :: _ => String.eqb (to_lower x) (to_lower p)
                       | [] => false
                       end) others
      then p :: shared_parts first (tail <$> others) else []
  end.

Definition relative_parts (root directory : string) : list string :=
  List.filter truthy (split_char "\" (slice_from (String.length root) directory)).

Definition commonWindowsDirectory (paths : list string) : option string :=
  match win32.(w_dirname) <$> paths with
  | [] => None
  | d :: _ as directories =>
      let root := win32.(w_root) d in
      if existsb (λ directory,
           negb (String.eqb (to_lower (win32.(w_root) directory)) (to_lower root))) directories
      then None
      else
        let parts := relative_parts root <$> directories in
        Some (win32.(w_join) (root :: shared_parts (default [] (head parts)) parts))
  end.

Definition buildDirectoryScopeOptions (paths : list string)
    : option (list DirectoryScopeOption) :=
  match paths with
  | [] => None
  | _ =>
      let narrow :=
        match commonWindowsDirectory paths with
        | Some ancestor =>
            if String.eqb ancestor (win32.(w_root) ancestor) then []
            else [{| dir_scope := ancestor +:+ win32_sep +:+ "*";
                     dir_label := "In " +:+ win32.(w_basename) ancestor +:+ "/" |}]
        | None => []
        end in
      Some (narrow ++ [{| dir_scope := "everywhere"; dir_label := "Everywhere" |}])
  end.

(** ** The assessment *)

Record PsState := { ps_risk : option Risk; ps_reason : string; ps_matchType : MatchType }.

Definition ps_step (st : PsState) (c : SegmentRisk) : PsState :=
  if js_gt (riskOrd c.(sr_risk)) (riskOrd st.(ps_risk)) || negb (truthy st.(ps_reason)) then
    {| ps_risk := if js_gt (riskOrd c.(sr_risk)) (riskOrd st.(ps_risk))
                  then c.(sr_risk) else st.(ps_risk);
       ps_reason := c.(sr_reason); ps_matchType := c.(sr_matchType) |}
  else st.

Definition ps_start (segments : list PowerShellSegment) : PsState :=
  match segments with
  | [] => {| ps_risk := Some high; ps_reason := "No parseable command segments";
             ps_matchType := unknown_match |}
  | _ => {| ps_risk := Some low; ps_reason := ""; ps_matchType := registry_match |}
  end.

Definition is_opaque (trimmed : string) : bool :=
  re_test OPAQUE_SYNTAX trimmed || (scanPowerShellSyntax trimmed).(callOperator)
  || re_test OPAQUE_BLOCK trimmed.

(** The escalations that follow the segment loop. *)
Definition ps_escalate (trimmed : string) (st : PsState) : PsState :=
  match detectDangerousPatterns trimmed with
  | p :: _ =>
      {| ps_risk := Some high; ps_reason := p.(dp_description); ps_matchType := registry_match |}
  | [] =>
      if is_opaque trimmed then
        {| ps_risk := maxRisk st.(ps_risk) (Some high);
           ps_reason := "PowerShell command contains dynamic script execution";
           ps_matchType := registry_match |}
      else if (scanPowerShellSyntax trimmed).(outputRedirection) then
        {| ps_risk := maxRisk st.(ps_risk) (Some medium);
           ps_reason := "PowerShell command redirects output";
           ps_matchType := registry_match |}
      else if re_test VARIABLE_EXPANSION trimmed then
        {| ps_risk := maxRisk st.(ps_risk) (Some medium);
           ps_reason := "PowerShell command contains variable expansion";
           ps_matchType := st.(ps_matchType) |}
      else st
  end.

Definition ps_assess (trimmed : string) : PsState :=
  let segments := parseSegments trimmed in
  ps_escalate trimmed
    (foldl ps_step (ps_start segments) (classifyPowerShellProgram <$> segments)).

Definition ps_empty (risk : Risk) (why : string) (candidates : list string) (m : MatchType)
    : PowerShellRiskAssessment :=
  {| pa_riskLevel := Some risk; pa_reason := why; pa_scopeOptions := [];
     pa_allowlistOptions := []; pa_actionKeys := []; pa_commandCandidates := candidates;
     pa_dangerousPatterns := []; pa_opaqueConstructs := false; pa_isComplexSyntax := false;
     pa_directoryScopeOptions := None; pa_resolvedPaths := None; pa_matchType := m |}.

(** A rule the user wrote for the whole command. *)
Definition full_rule (trimmed : string) : option TrustRule :=
  match host_rule trimmed with
  | Some r => if bool_decide (r.(tr_origin) = user_defined) then Some r else None
  | None => None
  end.

Definition ps_classify (command : string) : PowerShellRiskAssessment :=
  let trimmed := trim command in
  if negb (truthy trimmed) then ps_empty low "Empty command" [] registry_match
  else match full_rule trimmed with
  | Some r => ps_empty r.(tr_risk) r.(tr_description) [trimmed] user_rule
  | None =>
      let segments := parseSegments trimmed in
      let resolvedPaths := collectWindowsPaths segments in
      let actionKeys := buildActionKeys segments in
      let syntax := scanPowerShellSyntax trimmed in
      let st := ps_assess trimmed in
      {| pa_riskLevel := st.(ps_risk); pa_reason := st.(ps_reason);
         pa_scopeOptions := buildScopeOptions trimmed actionKeys;
         pa_allowlistOptions := buildAllowlistOptions trimmed actionKeys;
         pa_actionKeys := actionKeys; pa_commandCandidates := trimmed :: actionKeys;
         pa_dangerousPatterns := detectDangerousPatterns trimmed;
         pa_opaqueConstructs := is_opaque trimmed;
         pa_isComplexSyntax := (1 <? length segments)%nat || syntax.(outputRedirection);
         pa_directoryScopeOptions := buildDirectoryScopeOptions resolvedPaths;
         pa_resolvedPaths := match resolvedPaths with [] => None | ps => Some ps end;
         pa_matchType := st.(ps_matchType) |}
  end.

(** ** Assignments *)

(** With an engine whose matches are non-empty prefixes, the loop ends and no
    assignment is left in front. *)
Lemma strip_assignments_done segment :
  (∀ s m, re_match LEADING_ASSIGNMENT s = Some m → m ≠ "" ∧ ∃ r, s = m +:+ r) →
  re_match LEADING_ASSIGNMENT (stripLeadingAssignments segment) = None.
Proof.
  intros Hre. unfold stripLeadingAssignments.
  assert (∀ fuel s, String.length s < fuel →
    re_match LEADING_ASSIGNMENT (strip_assignments fuel s) = None) as H; [|apply H; lia].
  induction fuel as [|fuel IH]; intros s Hs; [lia|]. cbn [strip_assignments].
  destruct (re_match LEADING_ASSIGNMENT s) as [m|] eqn:E; [|done].
  destruct (Hre s m E) as [Hm [r ->]]. rewrite slice_from_app. apply IH.
  rewrite append_length in Hs. destruct m; [done|]. cbn [String.length] in Hs. lia.
Qed.

(** ** The risk of a whole command *)

Definition at_least (r : Risk) (o : option Risk) : Prop := ∃ m, o = Some m ∧ risk_le r m.

Lemma at_least_high o : at_least high o → o = Some high.
Proof. intros (m & -> & H). f_equal. apply (anti_symm risk_le); [apply risk_le_high|done]. Qed.

Lemma maxRisk_at_least r a b :
  at_least r a → at_least r (maxRisk a (Some b)) ∧ at_least b (maxRisk a (Some b)).
Proof.
  intros (m & -> & H). destruct (maxRisk_Some m b) as (x & Hx & Ha & Hb & _).
  rewrite Hx. split; exists x; split; try done. by etrans.
Qed.

Lemma ps_step_risk st c m :
  st.(ps_risk) = Some m →
  ∃ m', (ps_step st c).(ps_risk) = Some m' ∧ risk_le m m' ∧
    (∀ r, c.(sr_risk) = Some r → risk_le r m') ∧ (m' = m ∨ c.(sr_risk) = Some m').
Proof.
  intros Hm.
  assert ((ps_step st c).(ps_risk) =
    if js_gt (riskOrd (sr_risk c)) (riskOrd (Some m)) then sr_risk c else Some m) as ->.
  { unfold ps_step. rewrite Hm. destruct (js_gt _ _); [done|].
    cbn [orb]. by destruct (negb _). }
  destruct (sr_risk c) as [r|].
  2: { exists m. split_and!; [done|reflexivity|done|by left]. }
  destruct (js_gt _ _) eqn:E.
  - exists r. split_and!; [done| |intros ? [= ->]; reflexivity|by right].
    destruct (risk_le_total m r) as [|H]; [done|]. apply js_gt_spec in H. congruence.
  - apply js_gt_spec in E. exists m. split_and!; [done|reflexivity| |by left].
    by intros ? [= <-].
Qed.

Lemma ps_fold_risk cs st m :
  st.(ps_risk) = Some m →
  ∃ m', (foldl ps_step st cs).(ps_risk) = Some m' ∧ risk_le m m' ∧
    (∀ c r, c ∈ cs → c.(sr_risk) = Some r → risk_le r m') ∧
    (m' = m ∨ ∃ c, c ∈ cs ∧ c.(sr_risk) = Some m').
Proof.
  revert st m. induction cs as [|c cs IH]; intros st m Hm; cbn [foldl].
  { exists m. split_and!; [done|reflexivity|by intros ?? ?%elem_of_nil|by left]. }
  destruct (ps_step_risk st c m Hm) as (m1 & H1 & Hle & Hc & Hor).
  destruct (IH _ _ H1) as (m2 & H2 & Hle2 & Hcs & Hor2). exists m2. split_and!; [done|by etrans| |].
  - intros x r [->|Hx]%elem_of_cons Hr; [etrans; [by apply Hc|done]|by eapply Hcs].
  - destruct Hor2 as [->|(x & Hx & Hr)]; [|right; exists x; split; [by right|done]].
    destruct Hor as [->|Hr]; [by left|]. right. exists c. split; [by left|done].
Qed.

(** What a command can do at worst, by its own text. *)
Definition escalation (trimmed : string) (segments : list PowerShellSegment) : Risk :=
  if decide (detectDangerousPatterns trimmed ≠ [] ∨ segments = []) then high
  else if is_opaque trimmed then high
  else if (scanPowerShellSyntax trimmed).(outputRedirection)
          || re_test VARIABLE_EXPANSION trimmed then medium
  else low.

(** Without a rule of the user for the whole command, the assessed risk is at
    least that of every statement and at least what the command's syntax demands
    (high for dangerous patterns, opaque constructs and commands without
    statements), and it is no more than the worst of these. *)
Theorem powershell_risk_exact (command : string) :
  trim command ≠ "" → full_rule (trim command) = None →
  let segments := parseSegments (trim command) in
  let floor := escalation (trim command) segments in
  ∃ m, (ps_classify command).(pa_riskLevel) = Some m ∧ risk_le floor m ∧
    (∀ s r, s ∈ segments → (classifyPowerShellProgram s).(sr_risk) = Some r → risk_le r m) ∧
    (m = floor ∨ ∃ s, s ∈ segments ∧ (classifyPowerShellProgram s).(sr_risk) = Some m).
Proof.
  intros Hne Hfull. cbv zeta. unfold ps_classify.
  assert (truthy (trim command) = true) as -> by (by destruct (trim command)).
  cbn [negb]. rewrite Hfull. cbn [pa_riskLevel]. unfold ps_assess, escalation.
  set (segs := parseSegments (trim command)). set (t := trim command).
  assert (∃ m0, (ps_start segs).(ps_risk) = Some m0 ∧
    m0 = if decide (segs = []) then high else low) as (m0 & Hm0 & Em0).
  { destruct segs; by eexists. }
  destruct (ps_fold_risk (classifyPowerShellProgram <$> segs) (ps_start segs) m0 Hm0)
    as (m & Hm & Hle & Hcs & Hor).
  assert (∀ s r, s ∈ segs → sr_risk (classifyPowerShellProgram s) = Some r → risk_le r m) as Hcov.
  { intros s r Hs Hr. eapply Hcs; [|exact Hr]. by apply list_elem_of_fmap_2. }
  assert (m = m0 ∨ ∃ s, s ∈ segs ∧ sr_risk (classifyPowerShellProgram s) = Some m) as Hex.
  { destruct Hor as [|(c & Hc & Hr)]; [by left|right].
    apply list_elem_of_fmap in Hc as (s & -> & Hs). by exists s. }
  clear Hcs Hor Hm0. unfold ps_escalate.
  destruct (detectDangerousPatterns t) as [|p ps].
  2: { rewrite decide_True by (by left). exists high. cbn [ps_risk].
       split_and!; [done|reflexivity| |by left]. intros. apply risk_le_high. }
  destruct (decide (segs = [])) as [Hnil|Hnil].
  { rewrite decide_True by (by right). subst m0.
    assert (m = high) as -> by (apply (anti_symm risk_le); [apply risk_le_high|done]).
    rewrite Hm. exists high.
    assert (∀ b, maxRisk (Some high) (Some b) = Some high) as Hmax by (by intros []).
    rewrite !Hmax, <- Hm.
    split_and!; [|reflexivity|intros; apply risk_le_high|by left].
    destruct (is_opaque t); [by rewrite Hm|].
    destruct (outputRedirection _); [by rewrite Hm|].
    by destruct (re_test VARIABLE_EXPANSION t); rewrite ?Hm. }
  rewrite decide_False by naive_solver. subst m0.
  destruct (is_opaque t).
  { cbn [ps_risk]. rewrite Hm. exists high.
    split_and!; [|reflexivity|intros; apply risk_le_high|by left]. by destruct m. }
  assert (∃ x, maxRisk (Some m) (Some medium) = Some x ∧ risk_le m x ∧ risk_le medium x ∧
    (x = m ∨ x = medium)) as (x & Hx & Hmx & Hmed & Hxor) by apply maxRisk_Some.
  assert (∃ m1, Some x = Some m1 ∧ risk_le medium m1 ∧
    (∀ s r, s ∈ segs → sr_risk (classifyPowerShellProgram s) = Some r → risk_le r m1) ∧
    (m1 = medium ∨ ∃ s, s ∈ segs ∧ sr_risk (classifyPowerShellProgram s) = Some m1)) as Hmedium.
  { exists x. split_and!; [done|done|intros s r Hs Hr; etrans; [by eapply Hcov|done]|].
    destruct Hxor as [->| ->]; [|by left]. destruct Hex as [->|]; [|by right].
    unfold risk_le in Hmed. simpl in Hmed. lia. }
  destruct (outputRedirection _); cbn [orb ps_risk]; [by rewrite Hm, Hx|].
  destruct (re_test VARIABLE_EXPANSION t); cbn [ps_risk]; [by rewrite Hm, Hx|].
  exists m. split_and!; [done|done|done|done].
Qed.
End PowerShell.

(** ** Statement boundaries *)

Fixpoint str_forall (f : ascii → bool) (s : string) : bool :=
  match s with EmptyString => true | String c s => f c && str_forall f s end.

(** Characters that neither quote, escape nor nest. *)
Definition inert (c : ascii) : bool :=
  negb (Ascii.eqb c backtick) && negb (is_quote c) && negb (is_open c) && negb (is_close c).

(** ... nor end a statement. *)
Definition plain (c : ascii) : bool :=
  inert c && negb (is_separator c) && negb (Ascii.eqb c "&").

Definition sp_append (w : string) (st : SplitState) : SplitState :=
  {| sp_segments := st.(sp_segments); sp_current := st.(sp_current) +:+ w;
     sp_quote := st.(sp_quote); sp_escaped := st.(sp_escaped); sp_depth := st.(sp_depth) |}.

Lemma sp_append_cons c w st :
  st.(sp_escaped) = false → sp_append w (sp_push c st) = sp_append (String c w) st.
Proof.
  destruct st as [segs cur q e d]. cbn. intros ->. unfold sp_append, sp_push, add_char. cbn.
  by rewrite append_assoc.
Qed.

Lemma split_loop_push c rest st :
  st.(sp_escaped) = false → st.(sp_quote) = None → inert c = true →
  st.(sp_depth) ≠ 0 ∨ plain c = true →
  split_loop (String c rest) st = split_loop rest (sp_push c st).
Proof.
  intros He Hq Hi Hor. cbn [split_loop]. rewrite He, Hq. unfold inert in Hi. bool_to_prop.
  repeat match goal with H : ?b = false |- context [if ?b then _ else _] => rewrite H end.
  destruct (Nat.eqb_spec (sp_depth st) 0) as [Hd|]; [|done]. cbn [andb].
  destruct Hor as [|Hp]; [done|]. unfold plain in Hp. bool_to_prop.
  by repeat match goal with H : ?b = false |- context [if ?b then _ else _] => rewrite H end.
Qed.

Lemma split_loop_text w rest st :
  st.(sp_escaped) = false → st.(sp_quote) = None → str_forall inert w = true →
  st.(sp_depth) ≠ 0 ∨ str_forall plain w = true →
  split_loop (w +:+ rest) st = split_loop rest (sp_append w st).
Proof.
  revert st. induction w as [|c w IH]; intros st He Hq Hi Hor.
  { destruct st. unfold sp_append. cbn. by rewrite append_nil_r. }
  cbn [str_forall] in Hi, Hor. apply andb_prop in Hi as [Hc Hw].
  change (String c w +:+ rest) with (String c (w +:+ rest)).
  rewrite split_loop_push; try done.
  2: { destruct Hor as [|[]%andb_prop]; auto. }
  rewrite IH; try done.
  - by rewrite sp_append_cons.
  - destruct Hor as [|[]%andb_prop]; auto.
Qed.

Lemma plain_inert w : str_forall plain w = true → str_forall inert w = true.
Proof.
  induction w as [|c w IH]; [done|]. cbn. intros [Hc Hw]%andb_prop.
  unfold plain in Hc. bool_to_prop. apply andb_true_intro. auto.
Qed.

(** Statements without quotes, brackets or separators of their own come apart
    exactly where they were put together. *)
Theorem split_statements (cmds : list string) :
  Forall (λ c, c ≠ "" ∧ trim c = c ∧ str_forall plain c = true) cmds →
  splitPowerShell (join "; " cmds) = cmds.
Proof.
  intros Hcmds. unfold splitPowerShell.
  assert (∀ pre st, st.(sp_escaped) = false → st.(sp_quote) = None → st.(sp_depth) = 0 →
    st.(sp_current) = "" ∨ st.(sp_current) = " " → st.(sp_segments) = pre →
    (sp_flush (split_loop (join "; " cmds) st)).(sp_segments) = pre ++ cmds) as H.
  2: { apply (H []); [done..|by left|done]. }
  induction Hcmds as [|c cmds (Hne & Ht & Hp) Hcmds IH]; intros pre st He Hq Hd Hcur <-.
  { cbn [join split_loop sp_flush sp_segments]. rewrite app_nil_r. by destruct Hcur as [-> | ->]. }
  assert (trim (sp_current st +:+ c) = c) as Htc by (by destruct Hcur as [-> | ->]).
  assert (truthy c = true) as Hcn by (by destruct c).
  destruct cmds as [|c' cmds].
  { cbn [join]. rewrite <- (append_nil_r c) at 1.
    rewrite split_loop_text; [|done|done|by apply plain_inert|by right].
    cbn [split_loop sp_flush sp_segments sp_append sp_current]. by rewrite Htc, Hcn. }
  rewrite join_cons, split_loop_text; [|done|done|by apply plain_inert|by right].
  change ("; " +:+ join "; " (c' :: cmds))
    with (String ";" (String " " (join "; " (c' :: cmds)))).
  set (st1 := sp_append c st).
  assert (split_loop (String ";" (String " " (join "; " (c' :: cmds)))) st1 =
    split_loop (join "; " (c' :: cmds)) (sp_push " " (sp_flush st1))) as ->.
  { cbn [split_loop]. unfold st1, sp_append. cbn [sp_escaped sp_quote sp_depth].
    rewrite He, Hq, Hd. cbn. by rewrite ?He, ?Hq, ?Hd. }
  rewrite (IH (sp_segments st ++ [c])); [by rewrite <- app_assoc|done|done|done|by right|].
  unfold st1. cbn [sp_push sp_flush sp_segments sp_append sp_current]. by rewrite Htc, Hcn.
Qed.

(** ** Commands inside parentheses *)

Lemma trim_end_closed s c : is_space c = false → trim_end (s +:+ String c "") = s +:+ String c "".
Proof.
  intros Hc. induction s as [|d s IH]; cbn; [by rewrite Hc|]. rewrite IH.
  by destruct (s +:+ String c "") eqn:E; [destruct s|].
Qed.

Lemma tokenize_keeps segment tokens current quote escaped :
  ∃ more, tokenize_loop segment tokens current quote escaped = tokens ++ more.
Proof.
  assert (∀ ts cur, ∃ more, tk_flush ts cur = ts ++ more) as Hflush.
  { intros ts cur. unfold tk_flush. destruct (truthy cur); [by eexists|].
    exists []. by rewrite app_nil_r. }
  revert tokens current quote escaped.
  induction segment as [|c s IH]; intros ts cur q e; [apply Hflush|]. cbn [tokenize_loop].
  destruct e; [apply IH|]. destruct (Ascii.eqb c backtick); [apply IH|].
  destruct q as [q|]; [destruct (Ascii.eqb c q); apply IH|].
  destruct (is_quote c); [apply IH|]. destruct (is_space c); [|apply IH].
  destruct (Hflush ts cur) as [m1 E1]. destruct (IH (tk_flush ts cur) "" None false) as [m2 ->].
  exists (m1 ++ m2). by rewrite E1, <- app_assoc.
Qed.

(** Characters the syntax scan passes over. *)
Definition unscanned (c : ascii) : bool :=
  negb (Ascii.eqb c backtick) && negb (is_quote c) && negb (Ascii.eqb c ">")
  && negb (Ascii.eqb c "&").

Lemma scan_loop_unscanned w prev st :
  str_forall unscanned w = true → scan_loop w prev None false st = st.
Proof.
  revert prev. induction w as [|c w IH]; intros prev; [done|]. cbn [str_forall scan_loop].
  intros [Hc Hw]%andb_prop. unfold unscanned in Hc. bool_to_prop.
  repeat match goal with H : ?b = false |- context [if ?b then _ else _] => rewrite H end.
  match goal with H : Ascii.eqb c "&" = false |- _ => rewrite H end. by apply IH.
Qed.

Lemma str_forall_app f a b : str_forall f (a +:+ b) = str_forall f a && str_forall f b.
Proof.
  induction a as [|c a IH]; [done|]. change (String c a +:+ b) with (String c (a +:+ b)).
  cbn [str_forall]. by rewrite IH, andb_assoc.
Qed.

Lemma str_forall_and f g s :
  str_forall (λ c, f c && g c) s = true → str_forall f s = true ∧ str_forall g s = true.
Proof. induction s as [|c s IH]; [done|]. cbn. intros [[-> ->]%andb_prop Hs]%andb_prop. by apply IH. Qed.

Definition parenthesised (inner : string) : string := "Get-Content (" +:+ inner +:+ ")".

Lemma trim_parenthesised inner : trim (parenthesised inner) = parenthesised inner.
Proof.
  unfold parenthesised. rewrite <- append_assoc. unfold trim.
  assert (trim_start (("Get-Content (" +:+ inner) +:+ ")") = ("Get-Content (" +:+ inner) +:+ ")")
    as -> by done.
  by apply trim_end_closed.
Qed.

Lemma split_parenthesised inner :
  str_forall inert inner = true →
  splitPowerShell (parenthesised inner) = [parenthesised inner].
Proof.
  intros Hi. unfold splitPowerShell.
  assert (split_loop (parenthesised inner) split_start = sp_append (parenthesised inner) split_start)
    as ->.
  { unfold parenthesised.
    change ("Get-Content (" +:+ inner +:+ ")") with
      ("Get-Content " +:+ String "(" (inner +:+ ")")).
    rewrite split_loop_text; [|done|done|done|by right].
    change (split_loop (String "(" (inner +:+ ")")) (sp_append "Get-Content " split_start))
      with (split_loop (inner +:+ ")")
        (sp_set_depth 1 (sp_push "(" (sp_append "Get-Content " split_start)))).
    rewrite split_loop_text; [|done|done|done|by left]. cbn.
    unfold sp_append, sp_set_depth, sp_push, add_char. cbn. f_equal. }
  unfold sp_flush, sp_append. cbn [sp_segments sp_current]. unfold split_start.
  cbn [sp_segments sp_current]. change ("" +:+ parenthesised inner) with (parenthesised inner).
  by rewrite trim_parenthesised.
Qed.

Section Finding.
Context {Src : Type} {RS : RuleSource Src}.
Context (re_test : string → string → bool) (re_match : string → string → option string).
Context (win32 : Win32) (registry : list (string * CommandRiskSpec)).

(** PowerShell evaluates a parenthesised command, but the splitter keeps it in
    the argument of the command around it: whatever is inside, the assessment is
    that of [Get-Content], unless one of the textual patterns matches. *)
Theorem parenthesised_command_low (inner : string) :
  str_forall (λ c, inert c && unscanned c) inner = true →
  (∀ p, re_match p (parenthesised inner) = None) →
  (∀ p, re_test p (parenthesised inner) = false) →
  (ps_classify re_test re_match win32 registry (None : option Src)
     (parenthesised inner)).(pa_riskLevel) = Some low.
Proof.
  intros Hin Hm Ht.
  destruct (str_forall_and inert unscanned inner Hin) as [Hi Hu].
  unfold ps_classify. rewrite trim_parenthesised. change (truthy (parenthesised inner)) with true.
  cbn [negb]. change (full_rule (None : option Src) (parenthesised inner)) with (@None TrustRule).
  cbn [pa_riskLevel]. unfold ps_assess, ps_escalate.
  assert (∀ t, (∀ p, re_match p t = None) → detectDangerousPatterns re_match t = []) as Hd.
  { intros t H. unfold detectDangerousPatterns. cbn. by rewrite !H. }
  rewrite (Hd _ Hm). unfold is_opaque. rewrite !Ht.
  assert (scanPowerShellSyntax (parenthesised inner) =
    {| callOperator := false; outputRedirection := false |}) as ->.
  { apply scan_loop_unscanned. unfold parenthesised. rewrite !str_forall_app. by rewrite Hu. }
  cbn [callOperator outputRedirection orb].
  assert (∃ ts, parseSegments re_match (parenthesised inner) =
    [{| raw := parenthesised inner; ps_program := "get-content"; ps_args := ts |}]) as [ts ->].
  { unfold parseSegments. rewrite (split_parenthesised _ Hi).
    change (mjoin (parse_segment re_match <$> [parenthesised inner])) with
      (parse_segment re_match (parenthesised inner) ++ []). rewrite app_nil_r.
    unfold parse_segment.
    assert (stripLeadingAssignments re_match (parenthesised inner) = parenthesised inner) as ->.
    { generalize (Hm LEADING_ASSIGNMENT). generalize (parenthesised inner) as t. intros t Hno.
      unfold stripLeadingAssignments. cbn [strip_assignments]. by rewrite Hno. }
    assert (∃ ts, tokenizePowerShell (parenthesised inner) = "Get-Content" :: ts) as [ts ->].
    { change (tokenizePowerShell (parenthesised inner)) with
        (tokenize_loop (String "(" (inner +:+ ")")) ["Get-Content"] "" None false).
      destruct (tokenize_keeps (String "(" (inner +:+ ")")) ["Get-Content"] "" None false)
        as [more ->]. by exists more. }
    by exists ts. }
  done.
Qed.
End Finding.

(** ** Concrete instances *)

Lemma split_statements_witness :
  splitPowerShell (join "; " ["Get-Process"; "Remove-Item notes.txt"]) =
  ["Get-Process"; "Remove-Item notes.txt"].
Proof.
  apply (split_statements ["Get-Process"; "Remove-Item notes.txt"]).
  repeat constructor; done.
Defined.

(** No regular expression matches; POSIX paths stand in for Windows ones. *)
Definition sample_win32 : Win32 :=
  {| w_isAbsolute := λ _, false; w_normalize := id; w_dirname := id; w_root := λ _, "";
     w_basename := id; w_join := join "\" |}.

Lemma powershell_risk_exact_witness :
  ∃ m, (ps_classify sample_test (λ _ _, None) sample_win32 sample_registry no_source
          "Get-Process; rm notes.txt").(pa_riskLevel) = Some m ∧ m = high.
Proof.
  destruct (powershell_risk_exact sample_test (λ _ _, None) sample_win32 sample_registry no_source
    "Get-Process; rm notes.txt") as (m & Hm & _ & Hcov & _).
  - vm_compute. discriminate.
  - vm_compute. reflexivity.
  - exists m. split; [exact Hm|]. apply (anti_symm risk_le); [apply risk_le_high|].
    eapply (Hcov {| raw := "rm notes.txt"; ps_program := "remove-item"; ps_args := ["notes.txt"] |}).
    + vm_compute. right. left.
    + vm_compute. reflexivity.
Defined.
