(* ===== verification/Registry.v ===== *)
(** The shipped command registry
    ([gateway/src/risk/command-registry/index.ts]) and what it guarantees to its two
    clients: every entry has a risk (the classifier), and seeding the trust rule
    table from it cannot fail (the store). *)
From S2P Require Import Prelude JsString JsMap RiskTypes RegistrySyntax RegistryA.
From S2P Require Import RegistryB AssistantSpec TrustRules TrustRuleStore BashRisk.

Definition command_registry_with (cmd_assistant : CommandRiskSpec)
    : list (string * CommandRiskSpec) :=
  [("7z", cmd__7z);
   ("7za", cmd__7za);
   ("ack", cmd_ack);
   ("adduser", cmd_adduser);
   ("ag", cmd_ag);
   ("alias", cmd_alias);
   ("ant", cmd_ant);
   ("apk", cmd_apk);
   ("apt", cmd_apt);
   ("apt-get", cmd_apt_get);
   ("assistant", cmd_assistant);
   ("at", cmd_at);
   ("awk", cmd_awk);
   ("aws", cmd_aws);
   ("az", cmd_az);
   ("b2sum", cmd_b2sum);
   ("base64", cmd_base64);
   ("basename", cmd_basename);
   ("bash", cmd_bash);
   ("bazel", cmd_bazel);
   ("brew", cmd_brew);
   ("bun", cmd_bun);
   ("bunx", cmd_bunx);
   ("bunzip2", cmd_bunzip2);
   ("bzip2", cmd_bzip2);
   ("cal", cmd_cal);
   ("cargo", cmd_cargo);
   ("cat", cmd_cat);
   ("cd", cmd_cd);
   ("chgrp", cmd_chgrp);
   ("chmod", cmd_chmod);
   ("chown", cmd_chown);
   ("chroot", cmd_chroot);
   ("cksum", cmd_cksum);
   ("cmake", cmd_cmake);
   ("cmp", cmd_cmp);
   ("column", cmd_column);
   ("comm", cmd_comm);
   ("command", cmd_command);
   ("composer", cmd_composer);
   ("cp", cmd_cp);
   ("crontab", cmd_crontab);
   ("csplit", cmd_csplit);
   ("curl", cmd_curl);
   ("cut", cmd_cut);
   ("dash", cmd_dash);
   ("date", cmd_date);
   ("dd", cmd_dd);
   ("declare", cmd_declare);
   ("defaults", cmd_defaults);
   ("deluser", cmd_deluser);
   ("deno", cmd_deno);
   ("df", cmd_df);
   ("diff", cmd_diff);
   ("dig", cmd_dig);
   ("dir", cmd_dir);
   ("dirname", cmd_dirname);
   ("dmesg", cmd_dmesg);
   ("dnf", cmd_dnf);
   ("doas", cmd_doas);
   ("docker", cmd_docker);
   ("dos2unix", cmd_dos2unix);
   ("du", cmd_du);
   ("echo", cmd_echo);
   ("egrep", cmd_egrep);
   ("env", cmd_env);
   ("eval", cmd_eval);
   ("exec", cmd_exec);
   ("expand", cmd_expand);
   ("export", cmd_export);
   ("fd", cmd_fd);
   ("fdisk", cmd_fdisk);
   ("fgrep", cmd_fgrep);
   ("file", cmd_file);
   ("find", cmd_find);
   ("firewall-cmd", cmd_firewall_cmd);
   ("fish", cmd_fish);
   ("fmt", cmd_fmt);
   ("fold", cmd_fold);
   ("free", cmd_free);
   ("ftp", cmd_ftp);
   ("gateway", cmd_gateway);
   ("gcloud", cmd_gcloud);
   ("gem", cmd_gem);
   ("gh", cmd_gh);
   ("git", cmd_git);
   ("go", cmd_go);
   ("gradle", cmd_gradle);
   ("grep", cmd_grep);
   ("groupadd", cmd_groupadd);
   ("groupdel", cmd_groupdel);
   ("groupmod", cmd_groupmod);
   ("groups", cmd_groups);
   ("gunzip", cmd_gunzip);
   ("gzip", cmd_gzip);
   ("halt", cmd_halt);
   ("head", cmd_head);
   ("helm", cmd_helm);
   ("help", cmd_help);
   ("hexdump", cmd_hexdump);
   ("hg", cmd_hg);
   ("history", cmd_history);
   ("host", cmd_host);
   ("hostname", cmd_hostname);
   ("htop", cmd_htop);
   ("http", cmd_http);
   ("iconv", cmd_iconv);
   ("id", cmd_id);
   ("ifconfig", cmd_ifconfig);
   ("info", cmd_info);
   ("install", cmd_install);
   ("ionice", cmd_ionice);
   ("iostat", cmd_iostat);
   ("ip", cmd_ip);
   ("ip6tables", cmd_ip6tables);
   ("iptables", cmd_iptables);
   ("java", cmd_java);
   ("javac", cmd_javac);
   ("join", cmd_join);
   ("jq", cmd_jq);
   ("kill", cmd_kill);
   ("killall", cmd_killall);
   ("ksh", cmd_ksh);
   ("kubectl", cmd_kubectl);
   ("last", cmd_last);
   ("launchctl", cmd_launchctl);
   ("less", cmd_less);
   ("ln", cmd_ln);
   ("locate", cmd_locate);
   ("loginctl", cmd_loginctl);
   ("ls", cmd_ls);
   ("lsof", cmd_lsof);
   ("ltrace", cmd_ltrace);
   ("lua", cmd_lua);
   ("make", cmd_make);
   ("man", cmd_man);
   ("md5", cmd_md5);
   ("md5sum", cmd_md5sum);
   ("meson", cmd_meson);
   ("mkdir", cmd_mkdir);
   ("mkfs", cmd_mkfs);
   ("mktemp", cmd_mktemp);
   ("more", cmd_more);
   ("mount", cmd_mount);
   ("mtr", cmd_mtr);
   ("mv", cmd_mv);
   ("mvn", cmd_mvn);
   ("nc", cmd_nc);
   ("netcat", cmd_netcat);
   ("netstat", cmd_netstat);
   ("networksetup", cmd_networksetup);
   ("nft", cmd_nft);
   ("nice", cmd_nice);
   ("ninja", cmd_ninja);
   ("nl", cmd_nl);
   ("nmap", cmd_nmap);
   ("nmcli", cmd_nmcli);
   ("node", cmd_node);
   ("nohup", cmd_nohup);
   ("npm", cmd_npm);
   ("npx", cmd_npx);
   ("nslookup", cmd_nslookup);
   ("od", cmd_od);
   ("openssl", cmd_openssl);
   ("pacman", cmd_pacman);
   ("parted", cmd_parted);
   ("passwd", cmd_passwd);
   ("paste", cmd_paste);
   ("perl", cmd_perl);
   ("pgrep", cmd_pgrep);
   ("php", cmd_php);
   ("ping", cmd_ping);
   ("pip", cmd_pip);
   ("pip3", cmd_pip3);
   ("pipx", cmd_pipx);
   ("pkill", cmd_pkill);
   ("plocate", cmd_plocate);
   ("pnpm", cmd_pnpm);
   ("pnpx", cmd_pnpx);
   ("poetry", cmd_poetry);
   ("popd", cmd_popd);
   ("port", cmd_port);
   ("poweroff", cmd_poweroff);
   ("powershell", cmd_powershell);
   ("pr", cmd_pr);
   ("printenv", cmd_printenv);
   ("printf", cmd_printf);
   ("ps", cmd_ps);
   ("pstree", cmd_pstree);
   ("pushd", cmd_pushd);
   ("pwd", cmd_pwd);
   ("pwsh", cmd_pwsh);
   ("python", cmd_python);
   ("python3", cmd_python3);
   ("R", cmd_R);
   ("readlink", cmd_readlink);
   ("readonly", cmd_readonly);
   ("realpath", cmd_realpath);
   ("reboot", cmd_reboot);
   ("renice", cmd_renice);
   ("rev", cmd_rev);
   ("rg", cmd_rg);
   ("rm", cmd_rm);
   ("rmdir", cmd_rmdir);
   ("route", cmd_route);
   ("Rscript", cmd_Rscript);
   ("rsync", cmd_rsync);
   ("ruby", cmd_ruby);
   ("scp", cmd_scp);
   ("screen", cmd_screen);
   ("sed", cmd_sed);
   ("seq", cmd_seq);
   ("service", cmd_service);
   ("set", cmd_set);
   ("sftp", cmd_sftp);
   ("sh", cmd_sh);
   ("sha1sum", cmd_sha1sum);
   ("sha256sum", cmd_sha256sum);
   ("sha512sum", cmd_sha512sum);
   ("shred", cmd_shred);
   ("shuf", cmd_shuf);
   ("shutdown", cmd_shutdown);
   ("sleep", cmd_sleep);
   ("sort", cmd_sort);
   ("source", cmd_source);
   ("split", cmd_split);
   ("ss", cmd_ss);
   ("ssh", cmd_ssh);
   ("ssh-add", cmd_ssh_add);
   ("ssh-copy-id", cmd_ssh_copy_id);
   ("ssh-keygen", cmd_ssh_keygen);
   ("stat", cmd_stat);
   ("strace", cmd_strace);
   ("strings", cmd_strings);
   ("su", cmd_su);
   ("sudo", cmd_sudo);
   ("svn", cmd_svn);
   ("sw_vers", cmd_sw_vers);
   ("swift", cmd_swift);
   ("sysctl", cmd_sysctl);
   ("systemctl", cmd_systemctl);
   ("tail", cmd_tail);
   ("tar", cmd_tar);
   ("taskset", cmd_taskset);
   ("tcsh", cmd_tcsh);
   ("tee", cmd_tee);
   ("telnet", cmd_telnet);
   ("terraform", cmd_terraform);
   ("time", cmd_time);
   ("timeout", cmd_timeout);
   ("tmux", cmd_tmux);
   ("top", cmd_top);
   ("touch", cmd_touch);
   ("tr", cmd_tr);
   ("tracepath", cmd_tracepath);
   ("traceroute", cmd_traceroute);
   ("tree", cmd_tree);
   ("truncate", cmd_truncate);
   ("ts-node", cmd_ts_node);
   ("tsx", cmd_tsx);
   ("type", cmd_type);
   ("typeset", cmd_typeset);
   ("ufw", cmd_ufw);
   ("umask", cmd_umask);
   ("umount", cmd_umount);
   ("uname", cmd_uname);
   ("unexpand", cmd_unexpand);
   ("uniq", cmd_uniq);
   ("unix2dos", cmd_unix2dos);
   ("unlink", cmd_unlink);
   ("unset", cmd_unset);
   ("unxz", cmd_unxz);
   ("unzip", cmd_unzip);
   ("unzstd", cmd_unzstd);
   ("uptime", cmd_uptime);
   ("useradd", cmd_useradd);
   ("userdel", cmd_userdel);
   ("usermod", cmd_usermod);
   ("users", cmd_users);
   ("uv", cmd_uv);
   ("vdir", cmd_vdir);
   ("visudo", cmd_visudo);
   ("vmstat", cmd_vmstat);
   ("w", cmd_w);
   ("watch", cmd_watch);
   ("wc", cmd_wc);
   ("wget", cmd_wget);
   ("where", cmd_where);
   ("whereis", cmd_whereis);
   ("which", cmd_which);
   ("who", cmd_who);
   ("whoami", cmd_whoami);
   ("wipefs", cmd_wipefs);
   ("xargs", cmd_xargs);
   ("xxd", cmd_xxd);
   ("xz", cmd_xz);
   ("yarn", cmd_yarn);
   ("yes", cmd_yes);
   ("yq", cmd_yq);
   ("yum", cmd_yum);
   ("zip", cmd_zip);
   ("zsh", cmd_zsh);
   ("zstd", cmd_zstd);
   ("zypper", cmd_zypper)].

(** [None]: loading the [assistant] entry throws. *)
Definition DEFAULT_COMMAND_REGISTRY : option (list (string * CommandRiskSpec)) :=
  command_registry_with <$> assistant_spec.

(** ** Every specification has a base risk *)

Lemma shipped_registry_loads : ∃ registry, DEFAULT_COMMAND_REGISTRY = Some registry.
Proof.
  assert (match DEFAULT_COMMAND_REGISTRY with Some _ => true | None => false end = true)
    as H by (vm_compute; reflexivity).
  destruct DEFAULT_COMMAND_REGISTRY as [registry|]; [by exists registry|done].
Qed.

(** The shipped registry loads, its commands are distinct, and every
    specification in it, at every depth, has a base risk. *)
Theorem shipped_registry_defined :
  ∃ registry, DEFAULT_COMMAND_REGISTRY = Some registry ∧ map_wf registry ∧
    registry_defined registry.
Proof.
  assert (match DEFAULT_COMMAND_REGISTRY with
          | Some reg => forallb (λ e, spec_definedb e.2) reg && distinctb (trie false []) reg.*1
          | None => false end = true) as H by (vm_compute; reflexivity).
  destruct DEFAULT_COMMAND_REGISTRY as [registry|]; [|done]. exists registry.
  apply andb_prop in H as [Hd [Hn _]%distinctb_sound].
  split_and!; [done|done|by apply registry_definedb_sound].
Qed.

(** ** Seeding from the shipped registry *)

Lemma shipped_ids_distinct registry :
  DEFAULT_COMMAND_REGISTRY = Some registry → NoDup (ud_id <$> registry_entries registry).
Proof.
  assert (match DEFAULT_COMMAND_REGISTRY with
          | Some reg => distinctb (trie false []) (ud_id <$> registry_entries reg)
          | None => false end = true) as H by vm_cast_no_check (eq_refl true).
  destruct DEFAULT_COMMAND_REGISTRY as [reg|]; [|done]. intros [= <-].
  by apply distinctb_sound in H as [? _].
Qed.

(** Seeding from the shipped registry never stops half way on a table where
    the default identifiers are used for the default patterns only: afterwards
    every entry has its row, with the registry's classification unless the user
    has changed or removed it. *)
Theorem shipped_seed_total (now : string) (t : Table)
    (registry : list (string * CommandRiskSpec)) :
  DEFAULT_COMMAND_REGISTRY = Some registry →
  seed_compatible (registry_entries registry) t →
  ∃ t', seedTrustRulesFromRegistry now registry t = (t', true) ∧
    ∀ e, e ∈ registry_entries registry → seeded t' e.
Proof.
  intros Hi%shipped_ids_distinct Hc. apply seed_entries_total; [done| |done].
  by apply registry_keys_distinct.
Qed.

Lemma shipped_seed_total_witness :
  ∃ registry t', DEFAULT_COMMAND_REGISTRY = Some registry ∧
    seedTrustRulesFromRegistry "now" registry [] = (t', true).
Proof.
  destruct shipped_registry_loads as [registry H].
  destruct (shipped_seed_total "now" [] registry H) as (t' & Ht & _).
  { intros row e Hrow. exfalso. exact (not_elem_of_nil row Hrow). }
  exists registry, t'. split; [exact H|exact Ht].
Defined.

(** ** A wrapper's option value taken for the command

    [nice -n 5 rm -rf /]: the unwrapping knows the value flags of [env] and
    [timeout] only, so the program it finds is [5], and the segment is not as
    risky as the command [nice] runs. *)
Lemma nice_value_hides_command :
  match DEFAULT_COMMAND_REGISTRY with
  | Some registry =>
      let risk_of program args :=
        (classifySegment sample_test registry bash no_source None
           (sample_segment program args)).(sr_risk) in
      risk_of "nice" ["-n"; "5"; "rm"; "-rf"; "/"] = Some unknown
      ∧ risk_of "nice" ["rm"; "-rf"; "/"] = Some high
      ∧ risk_of "rm" ["-rf"; "/"] = Some high
  | None => False
  end.
Proof. vm_compute. auto. Qed.
