(* ===== verification/BashClassifier.v ===== *)
(** [BashRiskClassifier.classify]
    ([gateway/src/risk/bash-risk-classifier.ts]): the assessment of a whole
    command. The shell parser is the argument [parse]. *)
From S2P Require Import Prelude JsString JsMap RiskTypes ArgParser TrustRules BashArgs.
From S2P Require Import ScopeOptions RegistrySyntax RegistryA RegistryB BashRisk.

(** The running maximum of the segment loop. *)
Record MaxState := {
  maxRiskLevel : option Risk; maxReason : string; maxMatchType : MatchType }.

Definition segment_step (st : MaxState) (result : SegmentRisk) : MaxState :=
  if js_gt (riskOrd result.(sr_risk)) (riskOrd st.(maxRiskLevel)) then
    {| maxRiskLevel := result.(sr_risk); maxReason := result.(sr_reason);
       maxMatchType := result.(sr_matchType) |}
  else if negb (truthy st.(maxReason)) && truthy result.(sr_reason) then
    {| maxRiskLevel := st.(maxRiskLevel); maxReason := result.(sr_reason);
       maxMatchType := result.(sr_matchType) |}
  else st.

Definition raise_to (target : Risk) (st : MaxState) : MaxState :=
  {| maxRiskLevel :=
       if js_gt (riskOrd (Some target)) (riskOrd st.(maxRiskLevel))
       then Some target else st.(maxRiskLevel);
     maxReason := st.(maxReason); maxMatchType := st.(maxMatchType) |}.

(** No segments: opaque. *)
Definition no_segments_step (parsed : ParsedCommand) (st : MaxState) : MaxState :=
  match parsed.(segments) with
  | [] => {| maxRiskLevel := Some high; maxReason := "No parseable command segments";
             maxMatchType := unknown_match |}
  | _ => st
  end.

Definition dangerous_step (parsed : ParsedCommand) (st : MaxState) : MaxState :=
  match parsed.(dangerousPatterns) with
  | [] => st
  | p :: _ =>
      {| maxRiskLevel := (raise_to high st).(maxRiskLevel);
         maxReason := p.(dp_description); maxMatchType := st.(maxMatchType) |}
  end.

Definition opaque_step (parsed : ParsedCommand) (st : MaxState) : MaxState :=
  if parsed.(hasOpaqueConstructs) then
    let opaqueTarget := match parsed.(dangerousPatterns) with [] => medium | _ => high end in
    let st' := raise_to opaqueTarget st in
    {| maxRiskLevel := st'.(maxRiskLevel);
       maxReason := if truthy st.(maxReason) then st.(maxReason)
                    else "Command contains opaque constructs";
       maxMatchType := st.(maxMatchType) |}
  else st.

Section Classify.
Context {Src : Type} {RS : RuleSource Src}.
Context (re_test : string → string → bool).
Context (registry : list (string * CommandRiskSpec)).
Context (parse : string → ParsedCommand).

Definition assess (toolName : ToolName) (source : option Src) (cwd : option string)
    (parsed : ParsedCommand) : MaxState :=
  let init := {| maxRiskLevel := Some low; maxReason := "";
                 maxMatchType := registry_match |} in
  opaque_step parsed (dangerous_step parsed (no_segments_step parsed
    (foldl segment_step init
      (classifySegment re_test registry toolName source cwd <$> parsed.(segments))))).

Definition classify (command : string) (toolName : ToolName) (source : option Src)
    (workingDir : option string) : RiskAssessment :=
  if negb (truthy (trim command)) then
    {| riskLevel := Some low; reason := "Empty command"; scopeOptions := [];
       matchType := registry_match; allowlistOptions := [] |}
  else
    match user_rule_result toolName source workingDir command with
    | Some r =>
        {| riskLevel := r.(sr_risk); reason := r.(sr_reason); scopeOptions := [];
           matchType := user_rule; allowlistOptions := [] |}
    | None =>
        let parsed := parse command in
        let st := assess toolName source workingDir parsed in
        let options := generateScopeOptions parsed registry in
        {| riskLevel := st.(maxRiskLevel); reason := st.(maxReason);
           scopeOptions := options; matchType := st.(maxMatchType);
           allowlistOptions := scopeOptionsToAllowlistOptions options |}
    end.

(** ** Monotonicity of the steps *)

(** [at_least r st]: the running maximum is at least [r]. *)
Definition at_least (r : Risk) (st : MaxState) : Prop :=
  ∃ m, st.(maxRiskLevel) = Some m ∧ risk_le r m.

Lemma at_least_segment_step r st result :
  at_least r st → at_least r (segment_step st result).
Proof.
  intros (m & Hm & Hle). unfold segment_step, at_least.
  destruct (js_gt _ _) eqn:Hgt; simpl; [|case_match; simpl; eauto].
  destruct (sr_risk result) as [x|]; [|done]. exists x. split; [done|].
  rewrite Hm in Hgt. destruct (decide (risk_le x m)) as [Hx|Hx].
  - apply js_gt_spec in Hx. congruence.
  - transitivity m; [done|]. by destruct (risk_le_total x m).
Qed.

Lemma segment_step_at_least r st result :
  is_Some st.(maxRiskLevel) → result.(sr_risk) = Some r →
  at_least r (segment_step st result).
Proof.
  intros [m Hm] Hr. unfold segment_step, at_least. rewrite Hr, Hm.
  destruct (js_gt _ _) eqn:Hgt; simpl; [exists r; split; [done|reflexivity]|].
  apply js_gt_spec in Hgt. exists m. case_match; simpl; eauto.
Qed.

Lemma raise_to_at_least r target st :
  at_least r st → at_least r (raise_to target st) ∧ at_least target (raise_to target st).
Proof.
  intros (m & Hm & Hle). unfold raise_to, at_least. cbn [maxRiskLevel]. rewrite Hm.
  destruct (js_gt (riskOrd (Some target)) (riskOrd (Some m))) eqn:Hgt.
  - destruct (risk_le_total target m) as [Hx|Hx].
    { apply js_gt_spec in Hx. congruence. }
    split; exists target; (split; [done|]); [by transitivity m|reflexivity].
  - apply js_gt_spec in Hgt. split; exists m; done.
Qed.

Lemma foldl_segment_step_at_least r results st :
  at_least r st → at_least r (foldl segment_step st results).
Proof.
  revert st. induction results as [|x results IH]; intros st H; [done|].
  by apply IH, at_least_segment_step.
Qed.

Lemma at_least_some r st : at_least r st → is_Some st.(maxRiskLevel).
Proof. intros (m & -> & _). eauto. Qed.

Lemma foldl_segment_step_covers r x results st :
  is_Some st.(maxRiskLevel) → x ∈ results → x.(sr_risk) = Some r →
  at_least r (foldl segment_step st results).
Proof.
  revert st. induction results as [|y results IH]; intros st Hst Hx Hr.
  { by apply elem_of_nil in Hx. }
  simpl. apply elem_of_cons in Hx as [<-|Hx].
  - by apply foldl_segment_step_at_least, segment_step_at_least.
  - apply IH; try done. destruct Hst as [m Hm].
    apply (at_least_some m), at_least_segment_step. exists m. split; [done|reflexivity].
Qed.

Lemma post_steps_at_least r parsed st :
  at_least r st → at_least r (opaque_step parsed (dangerous_step parsed
                               (no_segments_step parsed st))).
Proof.
  intros H. assert (at_least r (no_segments_step parsed st)) as H1.
  { unfold no_segments_step. destruct (segments parsed); [|done].
    exists high. split; [done|apply risk_le_high]. }
  assert (at_least r (dangerous_step parsed (no_segments_step parsed st))) as H2.
  { unfold dangerous_step. destruct (dangerousPatterns parsed); [done|].
    apply (raise_to_at_least _ high) in H1 as [H1 _]. exact H1. }
  unfold opaque_step. destruct (hasOpaqueConstructs parsed); [|done].
  by apply (raise_to_at_least _ (match dangerousPatterns parsed with
    [] => medium | _ => high end)) in H2 as [H2 _].
Qed.

Lemma assess_at_least toolName source cwd parsed r seg :
  seg ∈ parsed.(segments) →
  (classifySegment re_test registry toolName source cwd seg).(sr_risk) = Some r →
  at_least r (assess toolName source cwd parsed).
Proof.
  intros Hseg Hr. apply post_steps_at_least.
  eapply foldl_segment_step_covers; [by eexists| |exact Hr]. by apply list_elem_of_fmap_2.
Qed.

Lemma assess_low toolName source cwd parsed : at_least low (assess toolName source cwd parsed).
Proof.
  apply post_steps_at_least, foldl_segment_step_at_least. by exists low.
Qed.

Lemma opaque_step_at_least parsed st r :
  at_least r st → hasOpaqueConstructs parsed = true → at_least medium (opaque_step parsed st).
Proof.
  intros H Ho. unfold opaque_step. rewrite Ho.
  destruct (dangerousPatterns parsed).
  - by apply (raise_to_at_least r medium) in H as [_ H].
  - apply (raise_to_at_least r high) in H as [_ (m & Hm & Hle)]. exists m. split; [done|].
    by transitivity high.
Qed.

(** C32: Unless the command is blank or the user has a rule for the whole of it, the
    assessed risk is at least the risk of every segment; it is high when the
    parser reports a dangerous pattern or finds no segment, and at least medium
    when it reports an opaque construct. *)
Theorem classify_covers_segments (command : string) (toolName : ToolName)
    (source : option Src) (cwd : option string) :
  truthy (trim command) = true →
  user_rule_result toolName source cwd command = None →
  ∃ m, (classify command toolName source cwd).(riskLevel) = Some m ∧
    (∀ seg r, seg ∈ (parse command).(segments) →
       (classifySegment re_test registry toolName source cwd seg).(sr_risk) = Some r →
       risk_le r m) ∧
    ((parse command).(segments) = [] → m = high) ∧
    ((parse command).(dangerousPatterns) ≠ [] → m = high) ∧
    ((parse command).(hasOpaqueConstructs) = true → risk_le medium m).
Proof.
  intros Ht Hu. unfold classify. rewrite Ht, Hu. simpl.
  set (parsed := parse command).
  destruct (assess_low toolName source cwd parsed) as (m & Hm & _). exists m.
  assert (∀ r, at_least r (assess toolName source cwd parsed) → risk_le r m) as Hle.
  { intros r (m' & Hm' & ?). by simplify_eq. }
  assert (∀ x, risk_le high x → x = high) as Hhigh.
  { intros x Hx. apply (anti_symm risk_le); [apply risk_le_high|done]. }
  split; [done|]. split_and!.
  - intros seg r Hseg Hr. by eapply Hle, assess_at_least.
  - intros Hnil. apply Hhigh, Hle. unfold assess, no_segments_step. rewrite Hnil. simpl.
    pose proof (post_steps_at_least high {| originalCommand := originalCommand parsed;
      segments := []; dangerousPatterns := dangerousPatterns parsed;
      hasOpaqueConstructs := hasOpaqueConstructs parsed |}) as H.
    apply (H {| maxRiskLevel := Some high; maxReason := ""; maxMatchType := user_rule |}).
    by exists high.
  - intros Hd. apply Hhigh, Hle. unfold assess.
    set (st := no_segments_step _ _).
    assert (at_least low st) as Hst.
    { unfold st, no_segments_step. destruct (segments parsed) eqn:Hs; [by exists high|].
      apply foldl_segment_step_at_least. by exists low. }
    assert (at_least high (dangerous_step parsed st)) as Hdang.
    { unfold dangerous_step. destruct (dangerousPatterns parsed); [done|].
      by apply (raise_to_at_least low high). }
    unfold opaque_step. destruct (hasOpaqueConstructs parsed); [|done].
    by eapply raise_to_at_least in Hdang as [Hdang _].
  - intros Ho. apply Hle. unfold assess. apply (opaque_step_at_least _ _ low); [|done].
    apply (post_steps_at_least low {| originalCommand := ""; segments := segments parsed;
      dangerousPatterns := dangerousPatterns parsed; hasOpaqueConstructs := false |}).
    apply foldl_segment_step_at_least. by exists low.
Qed.

Lemma foldl_segment_step_attained results st :
  (foldl segment_step st results).(maxRiskLevel) = st.(maxRiskLevel) ∨
  ∃ x, x ∈ results ∧ x.(sr_risk) = (foldl segment_step st results).(maxRiskLevel).
Proof.
  revert st. induction results as [|x results IH]; intros st; [by left|]. simpl.
  destruct (IH (segment_step st x)) as [->|(y & Hy & <-)].
  - unfold segment_step. destruct (js_gt _ _).
    + right. exists x. split; [by left|done].
    + left. by case_match.
  - right. exists y. split; [by right|done].
Qed.

(** With no dangerous pattern and no opaque construct the assessed risk is
    exactly the highest risk among the segments: it bounds them all and, unless it
    is low, one of them has it. *)
Theorem classify_plain_maximum (command : string) (toolName : ToolName)
    (source : option Src) (cwd : option string) :
  truthy (trim command) = true →
  user_rule_result toolName source cwd command = None →
  (parse command).(segments) ≠ [] → (parse command).(dangerousPatterns) = [] →
  (parse command).(hasOpaqueConstructs) = false →
  ∃ m, (classify command toolName source cwd).(riskLevel) = Some m ∧
    (∀ seg r, seg ∈ (parse command).(segments) →
       (classifySegment re_test registry toolName source cwd seg).(sr_risk) = Some r →
       risk_le r m) ∧
    (m = low ∨ ∃ seg, seg ∈ (parse command).(segments) ∧
       (classifySegment re_test registry toolName source cwd seg).(sr_risk) = Some m).
Proof.
  intros Ht Hu Hs Hd Ho. unfold classify. rewrite Ht, Hu. simpl.
  set (parsed := parse command) in *.
  destruct (assess_low toolName source cwd parsed) as (m & Hm & _). exists m.
  split; [done|]. split.
  { intros seg r Hseg Hr.
    destruct (assess_at_least toolName source cwd _ _ _ Hseg Hr) as (m' & Hm' & ?).
    by simplify_eq. }
  revert Hm. unfold assess, opaque_step, dangerous_step, no_segments_step.
  rewrite Ho, Hd.
  assert (∀ st, match segments parsed with [] => {| maxRiskLevel := Some high;
    maxReason := "No parseable command segments"; maxMatchType := unknown_match |}
    | _ => st end = st) as -> by (by destruct (segments parsed)).
  set (results := _ <$> segments parsed). set (st := {| maxRiskLevel := _ |}).
  destruct (foldl_segment_step_attained results st) as [->|(x & Hx & <-)].
  - simpl. intros [= <-]. by left.
  - intros Hrisk. right. apply list_elem_of_fmap in Hx as (seg & -> & Hseg).
    by exists seg.
Qed.

(** A subcommand that is spelled like a property of [Object.prototype] is not
    looked up as an own property: with no cached rule its segment has no risk at
    all, and the command is assessed low whatever base risk the registry gives. *)
Theorem proto_subcommand_low (command program name : string) (spec : CommandRiskSpec)
    (subs : list (string * CommandRiskSpec)) (toolName : ToolName) (cwd : option string) :
  truthy (trim command) = true → (parse command).(segments) =
    [{| command := command; program := program; args := [name]; operator := OpNone;
        synthetic := None |}] →
  (parse command).(dangerousPatterns) = [] → (parse command).(hasOpaqueConstructs) = false →
  map_get program registry = Some spec → spec.(isWrapper) = None →
  spec.(subcommands) = Some subs →
  map_get name subs = None → name ∈ proto_names → starts_with name "-" = false →
  program ≠ "rm" → includes_char name "$" = false →
  (classify command toolName None cwd).(riskLevel) = Some low.
Proof.
  intros Ht Hseg Hd Ho Hreg Hwr Hsubs Hnone Hproto Hdash Hrm Hdollar.
  assert (truthy name = true ∧ String.eqb name "--" = false) as [Hname Hterm].
  { clear -Hproto Hdash. unfold proto_names in Hproto.
    repeat (apply elem_of_cons in Hproto as [->|Hproto]; [done|]).
    by apply elem_of_nil in Hproto. }
  unfold classify. rewrite Ht. simpl. unfold assess. rewrite Hseg. cbn [fmap list_fmap foldl].
  set (seg := {| command := command; program := program; args := [name];
                 operator := OpNone; synthetic := None |}).
  assert ((classifySegment re_test registry toolName None cwd seg).(sr_risk) = None) as Hnorisk.
  { rewrite classifySegment_eq. unfold classify_body, user_rule_result, cached_rule. simpl.
    unfold lookup_spec. rewrite Hreg. unfold help_mode. rewrite Hsubs, Hwr. simpl.
    unfold classify_command, resolveSubcommand, base_override. simpl.
    unfold subcommand_step. rewrite Hsubs.
    unfold firstPositionalArg, parseArgs. simpl. rewrite Hterm, Hdash. simpl.
    rewrite Hname. simpl. unfold obj_get. rewrite Hnone.
    rewrite (proj2 (mem_true _ _) Hproto). simpl.
    repeat case_match; unfold apply_arg_rules, escalate_variables, rm_downgrade; simpl;
      rewrite ?Hdollar, ?(proj2 (String.eqb_neq _ _) Hrm); done. }
  unfold segment_step. rewrite Hnorisk. simpl.
  unfold opaque_step, dangerous_step, no_segments_step. rewrite Ho, Hd, Hseg.
  by case_match.
Qed.
End Classify.

Arguments classify {Src RS} re_test registry parse command toolName source workingDir.

(** ** Concrete instances *)

(** What the shell parser reports for [git status && sudo git push]. *)
Definition sample_parse (command : string) : ParsedCommand :=
  {| originalCommand := command;
     segments := [sample_segment "git" ["status"]; sample_segment "sudo" ["git"; "push"]];
     dangerousPatterns := []; hasOpaqueConstructs := false |}.

Definition sample_command : string := "git status && sudo git push".

Lemma classify_covers_segments_witness :
  ∃ m, (classify sample_test sample_registry sample_parse sample_command bash no_source
          None).(riskLevel) = Some m ∧ risk_le high m.
Proof.
  edestruct (classify_covers_segments sample_test sample_registry sample_parse
    sample_command bash no_source None) as (m & Hm & Hsegs & _);
    [vm_compute; reflexivity|vm_compute; reflexivity|].
  exists m. split; [exact Hm|].
  apply (Hsegs (sample_segment "sudo" ["git"; "push"])); [right; left|].
  vm_compute. reflexivity.
Defined.

Lemma classify_plain_maximum_witness :
  ∃ m, (classify sample_test sample_registry sample_parse sample_command bash no_source
          None).(riskLevel) = Some m ∧
    (m = low ∨ ∃ seg, seg ∈ (sample_parse sample_command).(segments) ∧
       (classifySegment sample_test sample_registry bash no_source None seg).(sr_risk)
       = Some m).
Proof.
  edestruct (classify_plain_maximum sample_test sample_registry sample_parse
    sample_command bash no_source None) as (m & Hm & _ & Hmax);
    [vm_compute; reflexivity|vm_compute; reflexivity|vm_compute; discriminate
    |reflexivity|reflexivity|].
  exists m. split; [exact Hm|exact Hmax].
Defined.

Definition sample_proto_parse (command : string) : ParsedCommand :=
  {| originalCommand := command;
     segments := [{| command := command; program := "git"; args := ["constructor"];
                     operator := OpNone; synthetic := None |}];
     dangerousPatterns := []; hasOpaqueConstructs := false |}.

Lemma proto_subcommand_low_witness :
  cmd_git.(baseRisk) = Some medium ∧
  (classify sample_test sample_registry sample_proto_parse "git constructor" bash no_source
     None).(riskLevel) = Some low.
Proof.
  split; [reflexivity|].
  eapply (proto_subcommand_low sample_test sample_registry sample_proto_parse
    "git constructor" "git" "constructor" cmd_git (default [] cmd_git.(subcommands)) bash None);
    try reflexivity; try discriminate. left.
Defined.
