(* ===== verification/ClassifyHandler.v ===== *)
(** The [classify_risk] IPC handler
    ([handleClassifyRisk] of [gateway/src/ipc/risk-classification-handlers.ts]).
    For shell commands it runs the classifier, derives the action keys, decides
    sandbox auto-approval, collects the paths of filesystem commands while
    following [cd], and applies the proxied-session rules; every other tool goes
    to the classifier of its family. *)
From S2P Require Import Prelude JsString JsMap NodePath RiskTypes ArgParser TrustRules.
From S2P Require Import BashArgs RegistrySyntax RegistryA RegistryB BashRisk.
From S2P Require Import ToolRisk FileRisk PowerShell.
From S2P Require Import BashClassifier ShellIdentity DirectoryScope SandboxApprove.

(** ** Requests and responses *)

Record BashParams := {
  p_command : option string;
  p_workingDir : option string;
  p_workspaceRoot : option string;
  p_isContainerized : option bool;
  p_networkMode : option string;
  p_credentialRefCount : option nat;
  p_shell : option string }.

Record ClassifyResponse := {
  rs_risk : option Risk;
  rs_reason : string;
  rs_matchType : MatchType;
  rs_scopeOptions : list ScopeOption;
  rs_allowlistOptions : option (list AllowlistOption);
  rs_actionKeys : option (list string);
  rs_commandCandidates : option (list string);
  rs_dangerousPatterns : option (list DangerousPattern);
  rs_opaqueConstructs : option bool;
  rs_isComplexSyntax : option bool;
  rs_sandboxAutoApprove : option bool;
  rs_sandboxPathArgs : option (list string);
  rs_directoryScopeOptions : option (list DirectoryScopeOption);
  rs_resolvedPaths : option (list string) }.

Section Handler.
Context {Src : Type} {RS : RuleSource Src} {TS : ToolRuleSource Src}.
Context (re_test : string → string → bool).
Context (registry : list (string * CommandRiskSpec)).
Context (parse : string → ParsedCommand).
Context (homedir cwd : string).
Context (existsSync pathIsExistingDirectory : string → bool).
(** The engine of the PowerShell classifier's expressions, [node:path]'s [win32]
    and the URL parser. *)
Context (re_match : string → string → option string) (win32 : Win32).
Context (normalizeWebUrl : string → option WebUrl).

(** ** Filesystem targets *)

Definition MAX_WRAPPER_DEPTH : nat := 10.

(** The [while] loop that unwraps [sudo], [env], ... *)
Fixpoint unwrap_effective (depth : nat) (prog : string) (argv : list string)
    : string * list string * option CommandRiskSpec :=
  let spec := lookupSpec registry prog in
  match depth, spec with
  | O, _ | _, None => (prog, argv, spec)
  | S depth, Some s =>
      if negb (default false s.(isWrapper)) then (prog, argv, spec)
      else if non_exec_mode s argv then (prog, argv, spec)
      else match getWrappedProgramWithArgs prog argv with
      | None => (prog, argv, spec)
      | Some (p, a) => unwrap_effective depth p a
      end
  end.

Record FsState := {
  fs_complex : bool; fs_hasOp : bool; fs_paths : list string; fs_cwd : string }.

(** A path argument resolved against the tracked directory. *)
Definition fs_target (trackedCwd p : string) : string :=
  if String.eqb p "~" then homedir
  else if starts_with p "~/" then path_join [homedir; slice_from 2 p]
  else if isAbsolute p then resolve cwd [p]
  else resolve cwd [trackedCwd; p].

(** Where a simple [cd] leads. *)
Definition cd_target (trackedCwd : string) (argv : list string) : string :=
  match List.filter (λ a, negb (starts_with a "-")) argv with
  | [target] => if String.eqb target "-" then trackedCwd else fs_target trackedCwd target
  | _ => trackedCwd
  end.

Definition fs_step (st : FsState) (seg : CommandSegment) : FsState :=
  let '(prog, argv, spec) := unwrap_effective MAX_WRAPPER_DEPTH seg.(program) seg.(args) in
  let complex := fs_complex st || default false (spec ≫= complexSyntax) in
  let is_fs := default false (spec ≫= filesystemOp) in
  let paths :=
    match spec with
    | Some s =>
        if default false s.(filesystemOp) then
          match (parseArgs argv (default empty_schema s.(argSchema))).(pathArgs) with
          | [] => set_add st.(fs_cwd) st.(fs_paths)
          | ps => foldl (λ acc p, set_add (fs_target st.(fs_cwd) p) acc) st.(fs_paths) ps
          end
        else st.(fs_paths)
    | None => st.(fs_paths)
    end in
  {| fs_complex := complex; fs_hasOp := fs_hasOp st || is_fs; fs_paths := paths;
     fs_cwd := if String.eqb prog "cd" then cd_target st.(fs_cwd) argv else st.(fs_cwd) |}.

Definition fs_scan (workingDir : string) (segs : list CommandSegment) : FsState :=
  foldl fs_step
    {| fs_complex := false; fs_hasOp := false; fs_paths := []; fs_cwd := workingDir |} segs.

(** ** The response *)

Definition command_candidates (cmd : string) (actionResult : ActionKeyResult)
    (actionKeys : list string) : list string :=
  let c0 := if truthy (trim cmd) then [trim cmd] else [] in
  let c1 := match actionResult.(isSimpleAction), actionResult.(primarySegment) with
            | true, Some seg =>
                if String.eqb seg.(command) (trim cmd) then c0
                else set_add seg.(command) c0
            | _, _ => c0
            end in
  foldl (λ acc k, set_add k acc) c1 actionKeys.

(** The proxied-session rules. *)
Definition final_risk (tool : ToolName) (params : BashParams) (risk : option Risk)
    (why : string) : option Risk * string :=
  if bool_decide (tool = bash) && bool_decide (params.(p_networkMode) = Some "proxied") then
    if (0 <? default 0 params.(p_credentialRefCount))%nat then
      (Some high, "Proxied credential session — shell has access to injected credentials")
    else if bool_decide (risk = Some high) then (Some medium, why)
    else (risk, why)
  else (risk, why).

Definition sandbox_decision (tool : ToolName) (params : BashParams) (cmd workingDir : string)
    : bool * option (list string) :=
  let isContainerized := default false params.(p_isContainerized) in
  if bool_decide (tool = bash) then
    let r := computeSandboxAutoApprove homedir cwd registry (parse cmd) workingDir
               (default workingDir params.(p_workspaceRoot)) isContainerized in
    (r.(approved),
     if negb isContainerized && negb (bool_decide (r.(sandboxPathArgs) = []))
     then Some r.(sandboxPathArgs) else None)
  else (false, None).

Definition handle_powershell (source : option Src) (cmd : string) : ClassifyResponse :=
  let a := ps_classify re_test re_match win32 registry source cmd in
  {| rs_risk := a.(pa_riskLevel); rs_reason := a.(pa_reason);
     rs_matchType := a.(pa_matchType); rs_scopeOptions := a.(pa_scopeOptions);
     rs_allowlistOptions := Some a.(pa_allowlistOptions);
     rs_actionKeys := Some a.(pa_actionKeys);
     rs_commandCandidates := Some a.(pa_commandCandidates);
     rs_dangerousPatterns := Some a.(pa_dangerousPatterns);
     rs_opaqueConstructs := Some a.(pa_opaqueConstructs);
     rs_isComplexSyntax := Some a.(pa_isComplexSyntax);
     rs_sandboxAutoApprove := Some false; rs_sandboxPathArgs := None;
     rs_directoryScopeOptions := a.(pa_directoryScopeOptions);
     rs_resolvedPaths := a.(pa_resolvedPaths) |}.

Definition handle_bash (tool : ToolName) (source : option Src) (params : BashParams)
    : ClassifyResponse :=
  let cmd := default "" params.(p_command) in
  let workingDir := default cwd params.(p_workingDir) in
  if bool_decide (tool = host_bash) && bool_decide (params.(p_shell) = Some "powershell") then
    handle_powershell source cmd
  else
    let assessment := classify re_test registry parse cmd tool source (Some workingDir) in
    let parsed := parse cmd in
    let actionResult := deriveShellActionKeys parsed.(segments) in
    let actionKeys := key <$> actionResult.(keys) in
    let '(sandboxApproved, sandboxPaths) := sandbox_decision tool params cmd workingDir in
    let st := fs_scan workingDir parsed.(segments) in
    let '(finalRisk, finalReason) :=
      final_risk tool params assessment.(riskLevel) assessment.(reason) in
    {| rs_risk := finalRisk; rs_reason := finalReason;
       rs_matchType := assessment.(matchType);
       rs_scopeOptions := assessment.(scopeOptions);
       rs_allowlistOptions := Some assessment.(allowlistOptions);
       rs_actionKeys := Some actionKeys;
       rs_commandCandidates := Some (command_candidates cmd actionResult actionKeys);
       rs_dangerousPatterns := Some parsed.(dangerousPatterns);
       rs_opaqueConstructs := Some parsed.(hasOpaqueConstructs);
       rs_isComplexSyntax := Some st.(fs_complex);
       rs_sandboxAutoApprove := Some sandboxApproved;
       rs_sandboxPathArgs := sandboxPaths;
       rs_directoryScopeOptions :=
         if st.(fs_hasOp) then
           Some (generateDirectoryScopeOptions homedir cwd existsSync
                   pathIsExistingDirectory st.(fs_paths) workingDir params.(p_workspaceRoot))
         else None;
       rs_resolvedPaths :=
         if st.(fs_hasOp) && negb (bool_decide (st.(fs_paths) = []))
         then Some st.(fs_paths) else None |}.

(** The fallback for tools without a classifier. *)
Definition handle_default (tool : string) (registryDefaultRisk : option Risk)
    : ClassifyResponse :=
  {| rs_risk := Some (default medium registryDefaultRisk);
     rs_reason := match registryDefaultRisk with
                  | Some _ => "" | None => "Unknown tool: " +:+ tool end;
     rs_matchType := match registryDefaultRisk with
                     | Some _ => registry_match | None => unknown_match end;
     rs_scopeOptions := []; rs_allowlistOptions := None; rs_actionKeys := None;
     rs_commandCandidates := None; rs_dangerousPatterns := None;
     rs_opaqueConstructs := None; rs_isComplexSyntax := None;
     rs_sandboxAutoApprove := None; rs_sandboxPathArgs := None;
     rs_directoryScopeOptions := None; rs_resolvedPaths := None |}.

(** ** The other tools *)

(** What every answer without shell analysis has. *)
Definition tool_response (a : ToolAssessment) (scopes : option (list DirectoryScopeOption))
    (resolved : option (list string)) : ClassifyResponse :=
  {| rs_risk := Some a.(ta_risk); rs_reason := a.(ta_reason);
     rs_matchType := a.(ta_matchType); rs_scopeOptions := [];
     rs_allowlistOptions := a.(ta_allowlistOptions); rs_actionKeys := None;
     rs_commandCandidates := None; rs_dangerousPatterns := None;
     rs_opaqueConstructs := None; rs_isComplexSyntax := None;
     rs_sandboxAutoApprove := None; rs_sandboxPathArgs := None;
     rs_directoryScopeOptions := scopes; rs_resolvedPaths := resolved |}.

Record FileParams := {
  fp_path : option string; fp_workingDir : option string; fp_workspaceRoot : option string;
  fp_resolvedPath : option string; fp_resolvedWorkingDir : option string;
  fp_isContainerized : option bool; fp_fileContext : option FileClassificationContext;
  fp_transferSandboxDestPath : option string; fp_transferSandboxWorkingDir : option string;
  fp_resolvedTransferDestPath : option string }.

Definition SENTINEL : string := "/__vellum_no_context__".

(** The directories nothing is in, when the caller sent none. *)
Definition sentinel_context : FileClassificationContext :=
  {| protectedDir := SENTINEL; deprecatedDir := SENTINEL; hooksDir := SENTINEL;
     pluginsDir := SENTINEL; toolsDir := SENTINEL; routesDir := SENTINEL;
     workflowsDir := SENTINEL; monitoringDir := SENTINEL; skillSourceDirs := [] |}.

Definition file_input (tool : FileTool) (params : FileParams) : FileClassifierInput :=
  {| fi_toolName := tool; fi_filePath := default "" params.(fp_path);
     fi_workingDir := default cwd params.(fp_workingDir);
     fi_resolvedPath := params.(fp_resolvedPath);
     fi_resolvedWorkingDir := params.(fp_resolvedWorkingDir);
     fi_isContainerized := params.(fp_isContainerized);
     fi_transferSandboxDestPath := params.(fp_transferSandboxDestPath);
     fi_transferSandboxWorkingDir := params.(fp_transferSandboxWorkingDir);
     fi_resolvedTransferDestPath := params.(fp_resolvedTransferDestPath) |}.

Definition handle_file (tool : FileTool) (source : option Src) (params : FileParams)
    : ClassifyResponse :=
  let filePath := default "" params.(fp_path) in
  let workingDir := default cwd params.(fp_workingDir) in
  let context := default sentinel_context params.(fp_fileContext) in
  let assessment := file_classify source homedir cwd (file_input tool params) context in
  tool_response assessment
    (Some (generateDirectoryScopeOptions homedir cwd existsSync pathIsExistingDirectory
             (if truthy filePath then [filePath] else []) workingDir params.(fp_workspaceRoot)))
    (if truthy filePath then Some [fs_target workingDir filePath] else None).

Inductive ClassifyRequest :=
  | ShellRequest (tool : ToolName) (params : BashParams)
  | FileRequest (tool : FileTool) (params : FileParams)
  | WebRequest (tool : WebTool) (url : option string) (allowPrivateNetwork : option bool)
  | SkillRequest (tool : SkillTool) (skill : option string)
      (skillMetadata : option ResolvedSkillMetadata)
  | ScheduleRequest (tool : ScheduleTool) (mode script : option string)
  | OtherRequest (tool : string) (registryDefaultRisk : option Risk).

(** The [switch] on the tool. *)
Definition handleClassifyRisk (source : option Src) (request : ClassifyRequest)
    : ClassifyResponse :=
  match request with
  | ShellRequest tool params => handle_bash tool source params
  | FileRequest tool params => handle_file tool source params
  | WebRequest tool url priv =>
      tool_response (web_classify source normalizeWebUrl tool url priv) None None
  | SkillRequest tool skill md => tool_response (skill_classify source tool skill md) None None
  | ScheduleRequest tool mode script =>
      tool_response (schedule_classify source tool mode script) None None
  | OtherRequest tool risk => handle_default tool risk
  end.

(** ** Resolved paths are absolute *)

Definition abs_invariant (st : FsState) : Prop :=
  isAbsolute st.(fs_cwd) = true ∧ Forall (λ p, isAbsolute p = true) st.(fs_paths).

Lemma path_join_absolute a b : isAbsolute a = true → isAbsolute (path_join [a; b]) = true.
Proof.
  intros Ha. unfold path_join.
  assert (truthy a = true) as Ht by (by destruct a). simpl. rewrite Ht.
  assert (∀ p, isAbsolute p = true → isAbsolute (normalize p) = true) as Hn.
  { intros p Hp. unfold normalize. destruct (truthy p) eqn:Htp; [|by destruct p].
    rewrite Hp. cbn [negb]. destruct (negb (truthy _)); [done|]. apply starts_with_app. }
  destruct (truthy b); apply Hn; [|done]. simpl.
  destruct a as [|c a]; [done|]. apply starts_with_spec in Ha as [r Hr]. rewrite Hr.
  rewrite append_assoc. apply starts_with_app.
Qed.

Lemma fs_target_absolute trackedCwd p :
  isAbsolute homedir = true → isAbsolute (fs_target trackedCwd p) = true.
Proof.
  intros Hh. unfold fs_target. destruct (String.eqb p "~"); [done|].
  destruct (starts_with p "~/"); [by apply path_join_absolute|].
  destruct (isAbsolute p); apply isAbsolute_abs_path.
Qed.

Lemma fs_step_absolute st seg :
  isAbsolute homedir = true → abs_invariant st → abs_invariant (fs_step st seg).
Proof.
  intros Hh [Hc Hp]. unfold fs_step.
  destruct (unwrap_effective _ _ _) as [[prog argv] spec]. split; cbn [fs_cwd fs_paths].
  - destruct (String.eqb prog "cd"); [|done]. unfold cd_target.
    destruct (List.filter _ argv) as [|target [|]]; [done| |done].
    destruct (String.eqb target "-"); [done|]. by apply fs_target_absolute.
  - destruct spec as [s|]; [|done]. destruct (default false _); [|done].
    destruct (pathArgs _) as [|q qs]; [by apply set_add_Forall|].
    assert (∀ l acc, Forall (λ p, isAbsolute p = true) acc → Forall (λ p, isAbsolute p = true)
      (foldl (λ acc p, set_add (fs_target (fs_cwd st) p) acc) acc l)) as Hfold.
    { induction l as [|x l IH]; intros acc Hacc; [done|]. simpl. apply IH, set_add_Forall; [|done].
      by apply fs_target_absolute. }
    by apply Hfold.
Qed.

(** Every path the handler reports for directory scoping is absolute, whatever
    the segments, wrappers and [cd]s of the command. *)
Theorem resolved_paths_absolute (tool : ToolName) (source : option Src) (params : BashParams)
    (ps : list string) :
  isAbsolute homedir = true → isAbsolute (default cwd params.(p_workingDir)) = true →
  (bool_decide (tool = host_bash) && bool_decide (params.(p_shell) = Some "powershell")) = false →
  (handle_bash tool source params).(rs_resolvedPaths) = Some ps →
  ps ≠ [] ∧ Forall (λ p, isAbsolute p = true) ps.
Proof.
  intros Hh Hw Hps. unfold handle_bash. rewrite Hps.
  destruct (sandbox_decision _ _ _ _) as [ok paths], (final_risk _ _ _ _) as [r why].
  cbn [rs_resolvedPaths].
  assert (∀ segs st, abs_invariant st → abs_invariant (foldl fs_step st segs)) as Hfold.
  { induction segs as [|s segs IH]; intros st Hst; [done|]. by apply IH, fs_step_absolute. }
  destruct (_ && negb _) eqn:E; [|done]. intros [= <-].
  apply andb_prop in E as [_ E]. apply negb_true_iff, bool_decide_eq_false in E.
  split; [done|]. apply Hfold. split; [done|constructor].
Qed.

(** ** The risk of proxied sessions *)

(** A sandboxed session with injected credentials is always high risk; without
    credentials proxying only caps high at medium; everywhere else, and on the
    host in particular, the answer is the classifier's. *)
Theorem proxied_risk (tool : ToolName) (source : option Src) (params : BashParams) :
  (bool_decide (tool = host_bash) && bool_decide (params.(p_shell) = Some "powershell")) = false →
  let assessed := (classify re_test registry parse (default "" params.(p_command)) tool source
                     (Some (default cwd params.(p_workingDir)))).(riskLevel) in
  let answered := (handle_bash tool source params).(rs_risk) in
  if decide (tool = bash ∧ params.(p_networkMode) = Some "proxied") then
    if decide (0 < default 0 params.(p_credentialRefCount)) then answered = Some high
    else answered = assessed ∧ assessed ≠ Some high ∨
         answered = Some medium ∧ assessed = Some high
  else answered = assessed.
Proof.
  clear TS normalizeWebUrl.
  intros Hps. cbv zeta. unfold handle_bash. rewrite Hps. clear Hps.
  destruct (sandbox_decision _ _ _ _) as [ok paths].
  destruct (final_risk _ _ _ _) as [r why] eqn:E. cbn [rs_risk]. revert E. unfold final_risk.
  destruct (decide (tool = bash ∧ _)) as [[-> Hn]|Hno].
  - rewrite Hn. cbn [andb bool_decide]. rewrite !bool_decide_true by done. cbn [andb].
    destruct (decide (0 < _)) as [Hc|Hc].
    + rewrite (proj2 (Nat.ltb_lt _ _) Hc). by intros [= <- _].
    + rewrite (proj2 (Nat.ltb_ge _ _)) by lia.
      case_bool_decide as Hh; intros E%(f_equal fst); simpl in E; subst r; [by right|by left].
  - case_bool_decide; [case_bool_decide|]; cbn [andb]; intros E%(f_equal fst); simpl in E; subst r; tauto.
Qed.
End Handler.

Arguments handle_bash {Src RS} re_test registry parse homedir cwd existsSync
  pathIsExistingDirectory re_match win32 tool source params.

(** ** Concrete instances *)

Definition no_match (pattern s : string) : option string := None.

Definition sample_params (cmd : string) : BashParams :=
  {| p_command := Some cmd; p_workingDir := Some "/work"; p_workspaceRoot := Some "/work";
     p_isContainerized := None; p_networkMode := Some "proxied";
     p_credentialRefCount := Some 1; p_shell := None |}.

(** [cd src && sudo rm notes.txt] *)
Definition sample_fs_parse (cmd : string) : ParsedCommand :=
  {| originalCommand := cmd;
     segments := [sample_segment "cd" ["src"]; sample_segment "sudo" ["rm"; "notes.txt"]];
     dangerousPatterns := []; hasOpaqueConstructs := false |}.

Lemma resolved_paths_absolute_witness :
  let r := handle_bash sample_test sample_registry sample_fs_parse "/home/user" "/"
             sample_exists sample_is_dir no_match sample_win32 bash no_source
             (sample_params "cd src && sudo rm notes.txt") in
  r.(rs_resolvedPaths) = Some ["/work/src/notes.txt"] ∧
  Forall (λ p, isAbsolute p = true) ["/work/src/notes.txt"].
Proof.
  cbv zeta.
  assert (rs_resolvedPaths (handle_bash sample_test sample_registry sample_fs_parse
    "/home/user" "/" sample_exists sample_is_dir no_match sample_win32 bash no_source
    (sample_params "cd src && sudo rm notes.txt")) = Some ["/work/src/notes.txt"]) as E
    by (vm_compute; reflexivity).
  split; [exact E|].
  eapply (resolved_paths_absolute sample_test sample_registry sample_fs_parse "/home/user" "/"
    sample_exists sample_is_dir no_match sample_win32 bash no_source
    (sample_params "cd src && sudo rm notes.txt") ["/work/src/notes.txt"]);
    [reflexivity|reflexivity|reflexivity|exact E].
Defined.

Lemma proxied_risk_witness :
  (handle_bash sample_test sample_registry sample_fs_parse "/home/user" "/" sample_exists
     sample_is_dir no_match sample_win32 bash no_source (sample_params "ls")).(rs_risk) = Some high.
Proof.
  pose proof (proxied_risk sample_test sample_registry sample_fs_parse "/home/user" "/"
    sample_exists sample_is_dir no_match sample_win32 bash no_source (sample_params "ls") eq_refl) as H.
  cbv zeta in H. rewrite decide_True in H by (split; reflexivity).
  rewrite decide_True in H by (vm_compute; constructor). exact H.
Defined.
