(* ===== verification/ApprovalPolicy.v ===== *)
(** The daemon's permission decision
    ([assistant/src/permissions/approval-policy.ts],
    [assistant/src/permissions/checker.ts]): the approval policy, the symlink
    re-check of sandbox auto-approval, the stale-threshold re-evaluation, and their
    composition with the gateway's shell handler. *)
From S2P Require Import Prelude JsString JsMap NodePath RiskTypes ArgParser TrustRules.
From S2P Require Import BashArgs RegistrySyntax RegistryA RegistryB BashRisk.
From S2P Require Import BashClassifier ShellIdentity DirectoryScope SandboxApprove.
From S2P Require Import PowerShell ClassifyHandler.

(** ** The policy *)

Inductive Decision := allow | deny | prompt.
#[export] Instance Decision_eq_dec : EqDecision Decision.
Proof. solve_decision. Defined.

Record ApprovalDecision := { decision : Decision; decision_reason : string }.

Definition level_string (l : RiskLevel) : string :=
  match l with Low => "low" | Medium => "medium" | High => "high" end.

Record ApprovalContext := {
  ac_riskLevel : RiskLevel;
  ac_toolName : string;
  ac_isWorkspaceScoped : bool;
  ac_toolOrigin : option string;
  ac_isSkillBundled : option bool;
  ac_hasManifestOverride : option bool;
  ac_hasSandboxAutoApprove : option bool;
  ac_autoApproveUpTo : option string }.

(** [RISK_ORDINAL[risk] ?? 2] and [THRESHOLD_ORDINAL[threshold ?? "low"] ?? 0]. *)
Definition risk_ordinal (risk : string) : Z :=
  if String.eqb risk "low" then 0
  else if String.eqb risk "medium" then 1
  else 2.

Definition threshold_ordinal (threshold : option string) : Z :=
  let t := default "low" threshold in
  if String.eqb t "none" then -1
  else if String.eqb t "low" then 0
  else if String.eqb t "medium" then 1
  else if String.eqb t "high" then 2
  else 0.

Definition isRiskWithinThreshold (riskLevel : string) (autoApproveUpTo : option string)
    : bool :=
  (risk_ordinal riskLevel <=? threshold_ordinal autoApproveUpTo)%Z.

Definition SANDBOX_REASON : string := "Workspace filesystem operation (sandbox auto-approve)".

Definition sandbox_case (c : ApprovalContext) : bool :=
  String.eqb c.(ac_toolName) "bash" && bool_decide (c.(ac_hasSandboxAutoApprove) = Some true)
  && negb (bool_decide (c.(ac_autoApproveUpTo) = Some "none")).

Definition third_party_skill (c : ApprovalContext) : bool :=
  let isExtensionOwned :=
    bool_decide (c.(ac_toolOrigin) = Some "skill")
    || bool_decide (c.(ac_toolOrigin) = Some "plugin") in
  let isBuiltinOrigin :=
    bool_decide (c.(ac_toolOrigin) = None)
    || bool_decide (c.(ac_toolOrigin) = Some "default") in
  (isExtensionOwned && negb (default false c.(ac_isSkillBundled)))
  || (default false c.(ac_hasManifestOverride) && isBuiltinOrigin).

Definition evaluate (c : ApprovalContext) : ApprovalDecision :=
  let risk := level_string c.(ac_riskLevel) in
  let within := isRiskWithinThreshold risk c.(ac_autoApproveUpTo) in
  let is_low := bool_decide (c.(ac_riskLevel) = Low) in
  if sandbox_case c then {| decision := allow; decision_reason := SANDBOX_REASON |}
  else if third_party_skill c then
    if within then
      {| decision := allow;
         decision_reason := risk +:+ " risk: within auto-approve threshold (skill tool)" |}
    else
      {| decision := prompt; decision_reason := "Skill tool: requires approval by default" |}
  else if is_low && c.(ac_isWorkspaceScoped) && within then
    {| decision := allow;
       decision_reason := "Workspace-scoped low-risk operation auto-allowed" |}
  else if is_low && bool_decide (c.(ac_toolOrigin) = Some "skill")
          && default false c.(ac_isSkillBundled) && within then
    {| decision := allow; decision_reason := "Bundled skill tool: low risk, auto-allowed" |}
  else if within then
    {| decision := allow; decision_reason := risk +:+ " risk: within auto-approve threshold" |}
  else
    {| decision := prompt; decision_reason := risk +:+ " risk: above auto-approve threshold" |}.

Definition with_threshold (c : ApprovalContext) (t : option string) : ApprovalContext :=
  {| ac_riskLevel := c.(ac_riskLevel); ac_toolName := c.(ac_toolName);
     ac_isWorkspaceScoped := c.(ac_isWorkspaceScoped); ac_toolOrigin := c.(ac_toolOrigin);
     ac_isSkillBundled := c.(ac_isSkillBundled);
     ac_hasManifestOverride := c.(ac_hasManifestOverride);
     ac_hasSandboxAutoApprove := c.(ac_hasSandboxAutoApprove); ac_autoApproveUpTo := t |}.

Lemma evaluate_allow c :
  (evaluate c).(decision) =
  if sandbox_case c || isRiskWithinThreshold (level_string c.(ac_riskLevel)) c.(ac_autoApproveUpTo)
  then allow else prompt.
Proof.
  unfold evaluate. destruct (sandbox_case c); [done|].
  destruct (isRiskWithinThreshold _ _); rewrite ?andb_false_r; by repeat case_match.
Qed.

(** The policy allows exactly the sandbox auto-approved shell commands (unless
    the threshold is [none]) and the invocations whose risk is within the
    threshold; it prompts for everything else and never denies; and raising the
    threshold never turns an allow into a prompt. *)
Theorem evaluate_spec (c : ApprovalContext) :
  ((evaluate c).(decision) = allow ↔
     sandbox_case c = true ∨
     (risk_ordinal (level_string c.(ac_riskLevel)) <= threshold_ordinal c.(ac_autoApproveUpTo))%Z) ∧
  (evaluate c).(decision) ≠ deny ∧
  ∀ t, (threshold_ordinal c.(ac_autoApproveUpTo) <= threshold_ordinal t)%Z →
    t ≠ Some "none" →
    (evaluate c).(decision) = allow → (evaluate (with_threshold c t)).(decision) = allow.
Proof.
  rewrite !evaluate_allow. unfold isRiskWithinThreshold. rewrite <- Z.leb_le, <- orb_true_iff.
  split; [|split].
  - by destruct (_ || _).
  - by destruct (_ || _).
  - intros t Ht Hnone. rewrite evaluate_allow. unfold isRiskWithinThreshold.
    destruct (sandbox_case c) eqn:Hs; cbn [orb].
    + assert (sandbox_case (with_threshold c t) = true) as ->; [|done].
      unfold sandbox_case in *. cbn. apply andb_prop in Hs as [Hs _]. rewrite Hs.
      by rewrite bool_decide_false.
    + destruct (_ <=? _)%Z eqn:Hle; [|done]. intros _. cbn.
      rewrite (proj2 (Z.leb_le _ (threshold_ordinal t))); [by rewrite orb_true_r|].
      apply Z.leb_le in Hle. lia.
Qed.

(** ** The permission check *)

Definition riskStringToLevel (risk : Risk) : RiskLevel :=
  match risk with low => Low | medium => Medium | high => High | unknown => Medium end.

(** What [check] uses of the gateway's answer. *)
Record Classification := {
  cl_level : RiskLevel; cl_reason : string; cl_sandboxAutoApprove : option bool }.

(** The re-check with symlinks resolved; [realWithin p] is
    [isPathWithinWorkspaceRoot(p, getWorkspaceDir())]. *)
Definition applyBashSymlinkEscapeCheck (realWithin : string → bool)
    (sandboxPathArgs : option (list string)) (c : Classification) : Classification :=
  if negb (default false c.(cl_sandboxAutoApprove)) then c
  else match sandboxPathArgs with
  | None | Some [] => c
  | Some ps =>
      if existsb (λ p, negb (realWithin p)) ps then
        {| cl_level := c.(cl_level); cl_reason := c.(cl_reason);
           cl_sandboxAutoApprove := Some false |}
      else c
  end.

Lemma symlink_check_true realWithin paths c :
  (applyBashSymlinkEscapeCheck realWithin paths c).(cl_sandboxAutoApprove) = Some true →
  c.(cl_sandboxAutoApprove) = Some true ∧
  Forall (λ p, realWithin p = true) (default [] paths).
Proof.
  unfold applyBashSymlinkEscapeCheck.
  destruct (cl_sandboxAutoApprove c) as [[]|] eqn:Hc; cbn [default from_option id negb];
    try congruence.
  destruct paths as [[|p ps]|]; cbn [default from_option id]; [by repeat constructor| |done].
  destruct (existsb _ _) eqn:He; [done|]. intros _. split; [done|].
  rewrite existsb_false in He. apply Forall_forall. intros x Hx. by apply negb_false_iff, He.
Qed.

Lemma symlink_check_level realWithin paths c :
  (applyBashSymlinkEscapeCheck realWithin paths c).(cl_level) = c.(cl_level).
Proof. unfold applyBashSymlinkEscapeCheck. by repeat case_match. Qed.

(** [classifyRisk] after the IPC call; an answer without a risk is refused by the
    response schema and the call throws. *)
Definition classifyRisk (realWithin : string → bool) (response : ClassifyResponse)
    : option Classification :=
  risk ← response.(rs_risk);
  Some (applyBashSymlinkEscapeCheck realWithin response.(rs_sandboxPathArgs)
    {| cl_level := riskStringToLevel risk; cl_reason := response.(rs_reason);
       cl_sandboxAutoApprove := response.(rs_sandboxAutoApprove) |}).

Record PolicyContext := {
  pc_procToSkillsActive : option bool; pc_requestOrigin : option string;
  pc_trustClass : option string; pc_sourceChannel : option string }.

(** [skill] is the trimmed [skill] or [skill_id] field of the input. *)
Definition isRetrospectiveSkillAuthoringGrant (toolName skill : string)
    (policyContext : option PolicyContext) : bool :=
  match policyContext with
  | None => false
  | Some pc =>
      bool_decide (pc.(pc_procToSkillsActive) = Some true)
      && bool_decide (pc.(pc_requestOrigin) = Some "memory_retrospective")
      && bool_decide (pc.(pc_trustClass) = Some "guardian")
      && bool_decide (pc.(pc_sourceChannel) = Some "vellum")
      && (String.eqb toolName "scaffold_managed_skill"
          || String.eqb toolName "find_similar_skills"
          || (String.eqb toolName "skill_load" && String.eqb skill "skill-management"))
  end.

(** The registry facts [check] puts into the approval context. *)
Record ToolFacts := {
  tf_isWorkspaceScoped : bool; tf_origin : option string; tf_isSkillBundled : bool;
  tf_hasManifestOverride : bool }.

Definition approval_context (toolName : string) (facts : ToolFacts) (c : Classification)
    (threshold : option string) : ApprovalContext :=
  {| ac_riskLevel := c.(cl_level); ac_toolName := toolName;
     ac_isWorkspaceScoped :=
       if bool_decide (c.(cl_level) = Low) then facts.(tf_isWorkspaceScoped) else false;
     ac_toolOrigin := facts.(tf_origin); ac_isSkillBundled := Some facts.(tf_isSkillBundled);
     ac_hasManifestOverride := Some facts.(tf_hasManifestOverride);
     ac_hasSandboxAutoApprove := Some (default false c.(cl_sandboxAutoApprove));
     ac_autoApproveUpTo := threshold |}.

(** A prompt is reconsidered under a freshly read threshold; [None] is a failed
    read. *)
Definition decide_with_refresh (ctx : ApprovalContext) (threshold : option string)
    (freshThreshold : option string) : ApprovalDecision :=
  let d := evaluate ctx in
  match d.(decision), freshThreshold with
  | prompt, Some t =>
      if bool_decide (Some t = threshold) then d else evaluate (with_threshold ctx (Some t))
  | _, _ => d
  end.

(** [.] of a regular expression does not match a line break. *)
Fixpoint first_line (s : string) : string :=
  match s with
  | EmptyString => EmptyString
  | String c s =>
      if Ascii.eqb c (ascii_of_nat 10) || Ascii.eqb c (ascii_of_nat 13) then EmptyString
      else String c (first_line s)
  end.

(** The reason with the classifier's explanation worked in. *)
Definition enrich_reason (why riskReason : string) : string :=
  if negb (truthy riskReason) then why
  else
    match find_first (λ l, starts_with (to_lower why) (to_lower l +:+ " risk"))
            ["High"; "Medium"; "Low"] with
    | Some l =>
        l +:+ " risk (" +:+ riskReason +:+ ")"
          +:+ first_line (slice_from (String.length l + 5) why)
    | None => why
    end.

Record PermissionCheckResult := {
  pr_decision : Decision; pr_reason : string; pr_hasSandboxAutoApprove : option bool }.

Definition check (toolName skill : string) (policyContext : option PolicyContext)
    (facts : ToolFacts) (c : Classification) (threshold freshThreshold : option string)
    : PermissionCheckResult :=
  if isRetrospectiveSkillAuthoringGrant toolName skill policyContext then
    {| pr_decision := allow;
       pr_reason :=
         "Memory retrospective background session: skill authoring auto-approved";
       pr_hasSandboxAutoApprove := None |}
  else
    let d := decide_with_refresh (approval_context toolName facts c threshold)
               threshold freshThreshold in
    {| pr_decision := d.(decision);
       pr_reason := enrich_reason d.(decision_reason) c.(cl_reason);
       pr_hasSandboxAutoApprove :=
         if String.eqb d.(decision_reason) SANDBOX_REASON then Some true else None |}.

Example enrich_sample :
  enrich_reason "high risk: above auto-approve threshold" "Recursive force delete" =
  "High risk (Recursive force delete): above auto-approve threshold".
Proof. reflexivity. Qed.

Lemma check_allow toolName skill pc facts c threshold fresh :
  isRetrospectiveSkillAuthoringGrant toolName skill pc = false →
  (check toolName skill pc facts c threshold fresh).(pr_decision) = allow →
  ∃ t, (t = threshold ∨ ∃ f, fresh = Some f ∧ t = Some f) ∧
    (sandbox_case (approval_context toolName facts c t) = true ∨
     (risk_ordinal (level_string c.(cl_level)) <= threshold_ordinal t)%Z).
Proof.
  intros Hg. unfold check. rewrite Hg. cbn [pr_decision]. unfold decide_with_refresh.
  set (ctx := approval_context toolName facts c threshold).
  assert (∀ t, (evaluate (approval_context toolName facts c t)).(decision) = allow →
    sandbox_case (approval_context toolName facts c t) = true ∨
    (risk_ordinal (level_string c.(cl_level)) <= threshold_ordinal t)%Z) as Hev.
  { intros t. rewrite evaluate_allow. unfold isRiskWithinThreshold.
    destruct (sandbox_case _); [by left|]. cbn [orb].
    destruct (_ <=? _)%Z eqn:Hle; [|done]. right. by apply Z.leb_le in Hle. }
  destruct (decision (evaluate ctx)) eqn:Hd.
  - intros _. exists threshold. split; [by left|]. by apply Hev.
  - intros H. congruence.
  - destruct fresh as [f|]; [|congruence]. case_bool_decide; [congruence|].
    intros Hf. exists (Some f). split; [right; by exists f|]. by apply Hev.
Qed.

(** ** A shell command, end to end *)

Section EndToEnd.
Context {Src : Type} {RS : RuleSource Src}.
Context (re_test : string → string → bool).
Context (registry : list (string * CommandRiskSpec)).
Context (parse : string → ParsedCommand).
Context (homedir cwd : string).
Context (existsSync pathIsExistingDirectory : string → bool).
Context (re_match : string → string → option string) (win32 : Win32).
Context (realWithin : string → bool).

(** The decision on a sandboxed shell command; [None] when classification throws. *)
Definition bash_permission (source : option Src) (params : BashParams)
    (facts : ToolFacts) (pc : option PolicyContext) (threshold fresh : option string)
    : option Decision :=
  c ← classifyRisk realWithin
        (handle_bash re_test registry parse homedir cwd existsSync pathIsExistingDirectory
           re_match win32 bash source params);
  Some (check "bash" "" pc facts c threshold fresh).(pr_decision).

(** What confines an auto-approved command outside a container. *)
Definition confined (params : BashParams) : Prop :=
  let parsed := parse (default "" params.(p_command)) in
  let workingDir := default cwd params.(p_workingDir) in
  let root := default workingDir params.(p_workspaceRoot) in
  parsed.(segments) ≠ [] ∧ parsed.(hasOpaqueConstructs) = false ∧
  parsed.(dangerousPatterns) = [] ∧
  ∃ tss, Forall2 (segment_confined homedir cwd registry workingDir root false)
           parsed.(segments) tss ∧
    Forall (λ t, realWithin t = true) (concat tss).

(** Auto-approval in the gateway's answer. *)
Lemma handle_bash_sandbox source params :
  default false params.(p_isContainerized) = false →
  let response := handle_bash re_test registry parse homedir cwd existsSync
                    pathIsExistingDirectory re_match win32 bash source params in
  response.(rs_sandboxAutoApprove) = Some true →
  Forall (λ t, realWithin t = true) (default [] response.(rs_sandboxPathArgs)) →
  confined params.
Proof.
  intros Hcont. unfold handle_bash. rewrite bool_decide_false by done. cbn [andb].
  unfold sandbox_decision. rewrite bool_decide_true, Hcont by done.
  destruct (final_risk _ _ _ _) as [r why].
  cbn [rs_sandboxAutoApprove rs_sandboxPathArgs negb andb]. intros [= Hap] Hpaths.
  unfold confined.
  set (parsed := parse _) in *. set (wd := default cwd _) in *. set (root := default wd _) in *.
  pose proof (computeSandbox_cases homedir cwd registry parsed wd root false) as Hspec.
  cbv zeta in Hspec. rewrite Hap in Hspec.
  destruct Hspec as (Hseg & Hop & Hdang & tss & Htss & Heq).
  split_and!; try done. exists tss. split; [done|]. rewrite <- Heq.
  case_bool_decide as Hempty; [by rewrite Hempty|done].
Qed.

(** C1: Outside a container a shell command runs without asking only if, under the
    threshold in force, its final risk is within it, or (and the threshold is not
    [none]) the command is confined: nothing opaque or dangerous in it, every
    program registered for auto-approval, every path argument inside the
    workspace both lexically and after resolving symlinks. *)
Theorem bash_allow_sound (source : option Src) (params : BashParams) (facts : ToolFacts)
    (pc : option PolicyContext) (threshold fresh : option string) :
  default false params.(p_isContainerized) = false →
  bash_permission source params facts pc threshold fresh = Some allow →
  ∃ t risk, (t = threshold ∨ ∃ f, fresh = Some f ∧ t = Some f) ∧
    (handle_bash re_test registry parse homedir cwd existsSync pathIsExistingDirectory
       re_match win32 bash source params).(rs_risk) = Some risk ∧
    ((risk_ordinal (level_string (riskStringToLevel risk)) <= threshold_ordinal t)%Z ∨
     t ≠ Some "none" ∧ confined params).
Proof.
  intros Hcont. unfold bash_permission, classifyRisk.
  set (response := handle_bash _ _ _ _ _ _ _ _ _ _ _ _).
  destruct (rs_risk response) as [risk|] eqn:Hrisk; [|done]. cbn [mbind option_bind].
  intros [= Hcheck]. apply check_allow in Hcheck as (t & Ht & Hcase).
  2: { unfold isRetrospectiveSkillAuthoringGrant. destruct pc as [p|]; [|done].
       by rewrite andb_false_r. }
  exists t, risk. split; [done|]. split; [done|].
  destruct Hcase as [Hs|Hle]; [right|left; by rewrite symlink_check_level in Hle].
  unfold sandbox_case in Hs. cbn [ac_hasSandboxAutoApprove ac_autoApproveUpTo approval_context]
    in Hs.
  apply andb_prop in Hs as [Hs Hnone]. apply andb_prop in Hs as [_ Hs].
  apply negb_true_iff, bool_decide_eq_false in Hnone. apply bool_decide_eq_true in Hs.
  split; [done|]. injection Hs as Hs.
  destruct (cl_sandboxAutoApprove _) as [[]|] eqn:Hc in Hs; try done.
  apply symlink_check_true in Hc as [Hc Hpaths]. by eapply handle_bash_sandbox.
Qed.
End EndToEnd.

(** ** Concrete instances *)

(** [rm notes.txt] in the workspace, threshold [low]. *)
Definition rm_parse (cmd : string) : ParsedCommand :=
  single_parse (sample_segment "rm" ["notes.txt"]).

Definition rm_params : BashParams :=
  {| p_command := Some "rm notes.txt"; p_workingDir := Some "/work";
     p_workspaceRoot := Some "/work"; p_isContainerized := None; p_networkMode := None;
     p_credentialRefCount := None; p_shell := None |}.

Definition core_tool : ToolFacts :=
  {| tf_isWorkspaceScoped := false; tf_origin := None; tf_isSkillBundled := false;
     tf_hasManifestOverride := false |}.

Lemma bash_allow_sound_witness :
  confined sample_registry rm_parse "/home/user" "/" (λ p, starts_with p "/work/") rm_params.
Proof.
  destruct (bash_allow_sound sample_test sample_registry rm_parse "/home/user" "/"
    sample_exists sample_is_dir no_match sample_win32 (λ p, starts_with p "/work/") no_source
    rm_params core_tool None (Some "low") None) as (t & risk & Ht & Hrisk & Hcase).
  - reflexivity.
  - vm_compute. reflexivity.
  - destruct Ht as [Ht|[f [Hf _]]]; [|discriminate Hf].
    vm_compute in Hrisk. injection Hrisk as Hrisk. subst t risk.
    destruct Hcase as [Hle|[_ Hc]]; [|exact Hc].
    exfalso. vm_compute in Hle. apply Hle. reflexivity.
Defined.
