(* ===== verification/PermissionRequest.v ===== *)
(** The request the daemon sends to the classifier for a tool call
    ([buildClassifyRiskParams] and its helpers in
    [assistant/src/permissions/checker.ts]), and the permission check for a whole
    tool call: request, gateway handler, symlink re-check, policy.

    The skill catalog, the tool registry and the configured directories are
    arguments. *)
From S2P Require Import Prelude JsString JsMap NodePath PathPolicy WorkspacePolicy RiskTypes.
From S2P Require Import ArgParser TrustRules BashArgs RegistrySyntax RegistryA RegistryB BashRisk.
From S2P Require Import ToolRisk FileRisk PowerShell.
From S2P Require Import BashClassifier ShellIdentity DirectoryScope SandboxApprove.
From S2P Require Import ClassifyHandler ApprovalPolicy.

(** The skill catalog: the identifier a selector names, the version hashes
    ([None] where the computation throws) and inline command expansions. *)
Record SkillCatalog := {
  sc_resolve : string → option string;
  sc_versionHash : string → option string;
  sc_transitiveHash : string → option string;
  sc_inline : string → bool }.

(** The daemon's own directories and settings. *)
Record Platform := {
  pf_protected : string; pf_deprecated : string; pf_dirs : WorkspaceDirs;
  pf_skillRoots : list string; pf_workspace : string; pf_containerized : bool }.

Section Request.
Context (fs : FileSystem) (cwd : string) (platform : Platform) (catalog : SkillCatalog).
(** [getTool(name)?.defaultRiskLevel] *)
Context (registered : string → option RiskLevel).

Definition resolveSkillIdAndHash (sel : string) : option (string * option string) :=
  id ← catalog.(sc_resolve) sel; Some (id, catalog.(sc_versionHash) id).

Definition buildFileContext : FileClassificationContext :=
  let real := resolveRealPath fs cwd in
  {| protectedDir := real platform.(pf_protected);
     deprecatedDir := real platform.(pf_deprecated);
     hooksDir := real platform.(pf_dirs).(wd_hooks);
     pluginsDir := real platform.(pf_dirs).(wd_plugins);
     toolsDir := real platform.(pf_dirs).(wd_tools);
     routesDir := real platform.(pf_dirs).(wd_routes);
     workflowsDir := real platform.(pf_dirs).(wd_workflows);
     monitoringDir := real platform.(pf_dirs).(wd_monitoring);
     skillSourceDirs := real <$> platform.(pf_skillRoots) |}.

Definition resolveClassificationPath (filePath workingDir : string) (isHostTool : bool)
    : option string :=
  if negb (truthy filePath) then None
  else
    let base := if isHostTool then resolve cwd [filePath]
                else resolveSandboxBase cwd filePath workingDir in
    Some (resolveRealPath fs cwd base).

Definition file_tools : list FileTool :=
  [file_read; file_write; file_edit; host_file_read; host_file_write; host_file_edit;
   host_file_transfer].

Definition file_tool_of (toolName : string) : option FileTool :=
  find_first (λ t, String.eqb (file_tool_string t) toolName) file_tools.

(** The path the classification is about, and the sandbox side of a transfer. *)
Definition file_paths (toolName : string) (input : ToolInput) (workingDir : option string)
    : string * option string * option string :=
  if String.eqb toolName "host_file_transfer" then
    if String.eqb (getStringField input ["direction"]) "to_sandbox" then
      (getStringField input ["source_path"], Some (getStringField input ["dest_path"]),
       Some (default cwd workingDir))
    else (getStringField input ["dest_path"], None, None)
  else (getStringField input ["path"; "file_path"], None, None).

(** [resolveFileToolPaths] and the request made of it. *)
Definition resolveFileToolPaths (toolName : string) (input : ToolInput)
    (workingDir : option string) : FileParams :=
  let isHostTool := starts_with toolName "host_" in
  let '(filePath, dest, destDir) := file_paths toolName input workingDir in
  let effectiveWorkingDir := if isHostTool then "/" else default cwd workingDir in
  {| fp_path := Some filePath; fp_workingDir := Some effectiveWorkingDir;
     fp_workspaceRoot := None;
     fp_resolvedPath := resolveClassificationPath filePath effectiveWorkingDir isHostTool;
     fp_resolvedWorkingDir :=
       if isHostTool then None else Some (resolveRealPath fs cwd effectiveWorkingDir);
     fp_isContainerized := Some platform.(pf_containerized);
     fp_fileContext := Some buildFileContext;
     fp_transferSandboxDestPath := dest; fp_transferSandboxWorkingDir := destDir;
     fp_resolvedTransferDestPath :=
       d ← dest; resolveClassificationPath d (default cwd destDir) false |}.

Definition resolveSkillMetadata (sel : string) : option ResolvedSkillMetadata :=
  '(id, hash) ← resolveSkillIdAndHash sel;
  let inline := catalog.(sc_inline) id in
  Some {| skillId := id; selector := sel; versionHash := default "" hash;
          transitiveHash := if inline then catalog.(sc_transitiveHash) id else None;
          hasInlineExpansions := inline; isDynamic := inline |}.

Definition credential_count (input : ToolInput) : option nat :=
  match map_get "credential_ids" input with
  | Some (JsArr ids) =>
      match length (List.filter (λ v, match v with JsStr s => truthy s | _ => false end) ids) with
      | O => None
      | n => Some n
      end
  | _ => None
  end.

Definition shell_tool_of (toolName : string) : option ToolName :=
  if String.eqb toolName "bash" then Some bash
  else if String.eqb toolName "host_bash" then Some host_bash else None.

Definition web_tool_of (toolName : string) : option WebTool :=
  find_first (λ t, String.eqb (web_tool_string t) toolName)
    [web_fetch; network_request; web_search].

Definition skill_tool_of (toolName : string) : option SkillTool :=
  find_first (λ t, String.eqb (skill_tool_string t) toolName)
    [skill_load; scaffold_managed_skill; delete_managed_skill].

Definition schedule_tool_of (toolName : string) : option ScheduleTool :=
  find_first (λ t, String.eqb (schedule_tool_string t) toolName)
    [schedule_create; schedule_update].

(** [s || undefined] *)
Definition or_undefined (s : string) : option string := if truthy s then Some s else None.

Definition level_risk (l : RiskLevel) : Risk :=
  match l with Low => low | Medium => medium | High => high end.

Definition default_risk (toolName : string) (manifestRisk : option RiskLevel) : option Risk :=
  level_risk <$> match registered toolName with
                 | Some l => Some l
                 | None => manifestRisk
                 end.

Definition buildClassifyRiskParams (toolName : string) (input : ToolInput)
    (workingDir : option string) (manifestRisk : option RiskLevel) (shell : option string)
    : ClassifyRequest :=
  match shell_tool_of toolName with
  | Some t =>
      ShellRequest t
        {| p_command := Some (getStringField input ["command"]);
           p_workingDir := workingDir; p_workspaceRoot := Some platform.(pf_workspace);
           p_isContainerized := Some platform.(pf_containerized);
           p_networkMode := input_string input "network_mode";
           p_credentialRefCount := credential_count input; p_shell := shell |}
  | None =>
  match file_tool_of toolName with
  | Some t => FileRequest t (resolveFileToolPaths toolName input workingDir)
  | None =>
  match web_tool_of toolName with
  | Some t =>
      WebRequest t (Some (getStringField input ["url"]))
        (Some (match map_get "allow_private_network" input with
               | Some (JsBool true) => true | _ => false end))
  | None =>
  match skill_tool_of toolName with
  | Some t =>
      let sel := trim (getStringField input ["skill"; "skill_id"]) in
      SkillRequest t (Some sel) (if truthy sel then resolveSkillMetadata sel else None)
  | None =>
  match schedule_tool_of toolName with
  | Some t =>
      ScheduleRequest t (or_undefined (getStringField input ["mode"]))
        (or_undefined (getStringField input ["script"]))
  | None => OtherRequest toolName (default_risk toolName manifestRisk)
  end end end end end.
End Request.

(** ** Scope options of the daemon's prompt *)

Definition SCOPE_AWARE_TOOLS : list string :=
  ["bash"; "host_bash"; "file_read"; "file_write"; "file_edit"; "host_file_read";
   "host_file_write"; "host_file_edit"; "host_file_transfer"].

(** [label] and [scope]. *)
Definition generateScopeOptions (homedir workingDir : string) (toolName : option string)
    : list (string * string) :=
  if match toolName with
     | Some t => truthy t && negb (mem t SCOPE_AWARE_TOOLS)
     | None => false
     end then []
  else
    let display p :=
      if starts_with p homedir then "~" +:+ slice_from (String.length homedir) p else p in
    let parentDir := dirname workingDir in
    (display workingDir, workingDir)
    :: (if String.eqb parentDir workingDir then []
        else [(display parentDir +:+ "/*", parentDir)])
    ++ [("everywhere", "everywhere")].

(** ** A tool call, end to end *)

Section ToolCall.
Context {Src : Type} {RS : RuleSource Src} {TS : ToolRuleSource Src}.
Context (re_test : string → string → bool).
Context (registry : list (string * CommandRiskSpec)).
Context (parse : string → ParsedCommand).
Context (homedir cwd : string).
Context (existsSync pathIsExistingDirectory : string → bool).
Context (re_match : string → string → option string) (win32 : Win32).
Context (normalizeWebUrl : string → option WebUrl).
Context (fs : FileSystem) (platform : Platform) (catalog : SkillCatalog).
Context (registered : string → option RiskLevel).

(** [classifyRisk]; the gateway and the daemon see the same home and working
    directory here. *)
Definition classify_call (source : option Src) (toolName : string) (input : ToolInput)
    (workingDir : option string) (manifestRisk : option RiskLevel) (shell : option string)
    : option Classification :=
  classifyRisk
    (λ p, isPathWithinWorkspaceRoot fs cwd p platform.(pf_workspace))
    (handleClassifyRisk re_test registry parse homedir cwd existsSync pathIsExistingDirectory
       re_match win32 normalizeWebUrl source
       (buildClassifyRiskParams fs cwd platform catalog registered toolName input workingDir
          manifestRisk shell)).

(** [check] for a caller without a classification of its own. *)
Definition check_call (source : option Src) (toolName : string) (input : ToolInput)
    (workingDir : string) (pc : option PolicyContext) (facts : ToolFacts)
    (manifestRisk : option RiskLevel) (threshold fresh : option string)
    : option PermissionCheckResult :=
  c ← classify_call source toolName input (Some workingDir) manifestRisk None;
  Some (check toolName (trim (getStringField input ["skill"; "skill_id"])) pc
    {| tf_isWorkspaceScoped :=
         isWorkspaceScopedInvocation fs cwd platform.(pf_containerized) toolName input workingDir;
       tf_origin := facts.(tf_origin); tf_isSkillBundled := facts.(tf_isSkillBundled);
       tf_hasManifestOverride := facts.(tf_hasManifestOverride) |} c threshold fresh).

(** The classifier's input for a sandbox write. *)
Definition write_input (toolName : FileTool) (input : ToolInput) (wd : string)
    : FileClassifierInput :=
  file_input cwd toolName
    (resolveFileToolPaths fs cwd platform (file_tool_string toolName) input (Some wd)).

Definition is_write (t : FileTool) : Prop := t = file_write ∨ t = file_edit.

Lemma classify_write_call source t input wd manifestRisk :
  is_write t →
  classify_call source (file_tool_string t) input (Some wd) manifestRisk None =
  let a := file_classify source homedir cwd (write_input t input wd)
             (buildFileContext fs cwd platform) in
  Some {| cl_level := riskStringToLevel a.(ta_risk); cl_reason := a.(ta_reason);
          cl_sandboxAutoApprove := None |}.
Proof. intros [-> | ->]; reflexivity. Qed.

(** The request carries the canonical form of the path the tool opens. *)
Lemma write_input_canonical t input wd w raw existing rest rs rootE rootRest root :
  is_write t → input_string input "path" = Some raw → raw ≠ "" → directory wd w →
  anchored fs cwd (resolveSandboxBase cwd raw wd) existing rest rs →
  anchored fs cwd wd rootE rootRest root →
  canonical_request (write_input t input wd) w (Some (rs ++ rest)) (Some (root ++ rootRest)).
Proof.
  intros Ht Hraw Hne Hdir Ha Hr.
  assert (getStringField input ["path"; "file_path"] = raw) as Hpath.
  { unfold getStringField. cbn [first_some]. by rewrite Hraw. }
  assert (truthy raw = true) as Htr by (by destruct raw).
  assert (write_input t input wd =
    {| fi_toolName := t; fi_filePath := raw; fi_workingDir := wd;
       fi_resolvedPath := Some (resolveRealPath fs cwd (resolveSandboxBase cwd raw wd));
       fi_resolvedWorkingDir := Some (resolveRealPath fs cwd wd);
       fi_isContainerized := Some platform.(pf_containerized);
       fi_transferSandboxDestPath := None; fi_transferSandboxWorkingDir := None;
       fi_resolvedTransferDestPath := None |}) as ->.
  { assert (file_paths cwd (file_tool_string t) input (Some wd) = (raw, None, None)) as Hfp
      by (rewrite <- Hpath; by destruct Ht as [-> | ->]).
    assert (starts_with (file_tool_string t) "host_" = false) as Hh
      by (by destruct Ht as [-> | ->]).
    unfold write_input, file_input, resolveFileToolPaths. rewrite Hfp, Hh.
    unfold resolveClassificationPath. rewrite Htr. reflexivity. }
  rewrite (resolveRealPath_anchored fs cwd _ _ _ _ Ha), (resolveRealPath_anchored fs cwd _ _ _ _ Hr).
  destruct Ha as (_ & _ & Hrest & _ & _ & Hrs & _). destruct Hr as (_ & _ & Hrr & _ & _ & Hroot & _ & Hn).
  split; cbn [fi_filePath fi_workingDir fi_resolvedPath fi_resolvedWorkingDir]; try done.
  - intros r [= <-]. by apply Forall_app.
  - intros r [= <-]. split; [by destruct root|by apply Forall_app].
Qed.

(** What the write tool opens: the lexical path and the file it leads to. *)
Lemma policy_target raw wd mustExist existing rest rs :
  anchored fs cwd (resolveSandboxBase cwd raw wd) existing rest rs →
  fs.(link) (resolveTrailingLinkTarget fs cwd (resolveSandboxBase cwd raw wd)) = None →
  mustExist = false ∨ rest = [] →
  let target := resolveSandboxTarget fs cwd raw wd mustExist in
  target.(resolved) = resolveSandboxBase cwd raw wd ∧ target.(realResolved) = abs_path (rs ++ rest).
Proof.
  intros Ha Hl Hm. cbv zeta. unfold resolveSandboxTarget. cbn [resolved realResolved].
  change (resolve cwd [wd; effective_path raw wd]) with (resolveSandboxBase cwd raw wd).
  split; [done|]. destruct mustExist.
  - destruct Hm as [Hm|Hm]; [done|subst rest]. destruct Ha as (E & _ & _ & _ & Hreal & _).
    rewrite app_nil_r in E. by rewrite E, Hreal, app_nil_r.
  - by rewrite (resolveRealPath_trailing fs cwd _ _ _ _ Ha Hl),
      (resolveRealPath_anchored fs cwd _ _ _ _ Ha).
Qed.

Lemma write_input_fields t input wd raw :
  is_write t → input_string input "path" = Some raw →
  fi_toolName (write_input t input wd) = t ∧ fi_filePath (write_input t input wd) = raw ∧
  fi_workingDir (write_input t input wd) = wd ∧
  fi_isContainerized (write_input t input wd) = Some platform.(pf_containerized).
Proof.
  intros Ht Hraw. unfold write_input, file_input, resolveFileToolPaths.
  assert (file_paths cwd (file_tool_string t) input (Some wd) = (raw, None, None)) as ->.
  { assert (getStringField input ["path"; "file_path"] = raw) as <-
      by (unfold getStringField; cbn [first_some]; by rewrite Hraw).
    by destruct Ht as [-> | ->]. }
  by destruct Ht as [-> | ->].
Qed.

(** A write's classification against a threshold it is within. *)
Lemma write_within_threshold t input wd w raw real root limit :
  is_write t → input_string input "path" = Some raw →
  canonical_context (buildFileContext fs cwd platform) →
  canonical_request (write_input t input wd) w (Some real) (Some root) →
  let risk := (file_base homedir cwd (write_input t input wd)
                 (buildFileContext fs cwd platform)).(ta_risk) in
  (risk_ordinal (level_string (riskStringToLevel risk)) <= threshold_ordinal limit)%Z →
  ((threshold_ordinal limit < 2)%Z →
     ¬ plants_code (buildFileContext fs cwd platform) (lexical_segments cwd (write_input t input wd)) ∧
     ¬ plants_code (buildFileContext fs cwd platform) real) ∧
  ((threshold_ordinal limit < 1)%Z → platform.(pf_containerized) = false → below_dir root real).
Proof.
  intros Ht Hraw Hcan Hreq. cbv zeta. intros Hle.
  destruct (write_input_fields t input wd raw Ht Hraw) as (Htool & _ & _ & Hcont).
  destruct (write_base_risk homedir cwd (write_input t input wd) (buildFileContext fs cwd platform)
    w (Some real) (Some root) Hcan Hreq) as (Hhigh & Hmed & _).
  { by rewrite Htool. }
  assert ((threshold_ordinal limit < 2)%Z → ¬ dangerous_target cwd (write_input t input wd)
    (buildFileContext fs cwd platform) (Some real)) as Hsafe.
  { intros Hlim Hd. rewrite (Hhigh Hd) in Hle. cbn in Hle. lia. }
  split.
  - intros Hlim. specialize (Hsafe Hlim). split; intros Hp; apply Hsafe; [by left|right; by exists real].
  - intros Hlim Hc. assert (threshold_ordinal limit < 2)%Z as Hlim2 by lia.
    destruct (isPathWithinRoot cwd (abs_path real) (abs_path root)) eqn:Hin.
    + destruct Hreq as [_ _ _ Hrc _ Hrd]. destruct (Hrd root eq_refl) as [Hrne Hroot].
      by apply (isPathWithinRoot_abs cwd real root (Hrc real eq_refl) Hrne Hroot).
    + exfalso. rewrite (Hmed (Hsafe Hlim2)) in Hle; [cbn in Hle; lia|]. split; [by rewrite Hcont, Hc|].
      destruct Hreq as [_ _ _ Hrc _ Hrd]. destruct (Hrd root eq_refl) as [Hrne Hroot].
      intros Hb. apply (isPathWithinRoot_abs cwd real root (Hrc real eq_refl) Hrne Hroot) in Hb.
      congruence.
Qed.

(** C2: A write or edit that is allowed without asking is one that a rule the user saved
    for the path rates within the threshold in force, or there is no such rule and it is
    confined to what the threshold covers: below the high setting the file it opens, by
    name and through links, is none the daemon takes code from; below the medium setting
    it is, outside a container, really inside the workspace. *)
Theorem approved_write_confined source t input wd w raw mustExist existing rest rs
    rootE rootRest root pc facts manifestRisk threshold fresh result :
  is_write t → input_string input "path" = Some raw → raw ≠ "" → directory wd w →
  anchored fs cwd (resolveSandboxBase cwd raw wd) existing rest rs →
  fs.(link) (resolveTrailingLinkTarget fs cwd (resolveSandboxBase cwd raw wd)) = None →
  anchored fs cwd wd rootE rootRest root → mustExist = false ∨ rest = [] →
  canonical_context (buildFileContext fs cwd platform) →
  check_call source (file_tool_string t) input wd pc facts manifestRisk threshold fresh
    = Some result →
  result.(pr_decision) = allow →
  let target := resolveSandboxTarget fs cwd raw wd mustExist in
  ∃ limit lex real,
    (limit = threshold ∨ ∃ f, fresh = Some f ∧ limit = Some f) ∧
    target.(resolved) = abs_path lex ∧ target.(realResolved) = abs_path real ∧
    match user_override source (file_tool_string t) raw (Some (dirname raw)) with
    | Some rule =>
        (risk_ordinal (level_string (riskStringToLevel rule.(tr_risk))) <= threshold_ordinal limit)%Z
    | None =>
        ((threshold_ordinal limit < 2)%Z →
           ¬ plants_code (buildFileContext fs cwd platform) lex ∧
           ¬ plants_code (buildFileContext fs cwd platform) real) ∧
        ((threshold_ordinal limit < 1)%Z → platform.(pf_containerized) = false →
           below_dir (root ++ rootRest) real)
    end.
Proof.
  intros Ht Hraw Hne Hdir Ha Hl Hr Hm Hcan Hcheck Hallow.
  destruct (policy_target raw wd mustExist existing rest rs Ha Hl Hm) as [Hlex Hreal].
  pose proof (write_input_canonical t input wd w raw _ _ _ _ _ _ Ht Hraw Hne Hdir Ha Hr) as Hreq.
  unfold check_call in Hcheck. rewrite (classify_write_call source t input wd manifestRisk Ht) in Hcheck.
  cbn [mbind option_bind] in Hcheck. injection Hcheck as <-.
  apply check_allow in Hallow as (limit & Hlim & Hcase).
  2: { unfold isRetrospectiveSkillAuthoringGrant. destruct pc; [|done].
       destruct Ht as [-> | ->]; by rewrite andb_false_r. }
  destruct (write_input_fields t input wd raw Ht Hraw) as (Htool & Hfp & Hwd & _).
  exists limit, (lexical_segments cwd (write_input t input wd)), (rs ++ rest).
  split; [done|]. split.
  { rewrite Hlex. unfold lexical_segments. by rewrite Hfp, Hwd. }
  split; [done|]. destruct Hcase as [Hs|Hle].
  { unfold sandbox_case in Hs. by destruct Ht as [-> | ->]. }
  cbn [cl_level] in Hle. unfold file_classify in Hle. rewrite Htool, Hfp in Hle.
  destruct (user_override _ _ _ _) as [rule|]; [done|].
  by apply (write_within_threshold t input wd w raw).
Qed.
End ToolCall.

(** ** Concrete instances *)

Definition sample_platform : Platform :=
  {| pf_protected := "/home/u/.vellum/protected"; pf_deprecated := "/ws/deprecated";
     pf_dirs := sample_dirs; pf_skillRoots := ["/ws/skills"]; pf_workspace := "/ws";
     pf_containerized := false |}.

Definition empty_catalog : SkillCatalog :=
  {| sc_resolve := λ _, None; sc_versionHash := λ _, None; sc_transitiveHash := λ _, None;
     sc_inline := λ _, false |}.

Definition sample_facts : ToolFacts :=
  {| tf_isWorkspaceScoped := true; tf_origin := None; tf_isSkillBundled := false;
     tf_hasManifestOverride := false |}.

Lemma sample_anchored_root : anchored sample_fs "/" "/ws" ["ws"] [] ["ws"].
Proof.
  split_and!; try done; try (by apply clean_segsb). intros pre suf E Hpre. by destruct pre.
Qed.

Lemma approved_write_confined_witness :
  let input := [("path", JsStr "notes.txt")] in
  ∃ result, check_call sample_test sample_registry sample_fs_parse "/home/u" "/" sample_exists
      sample_is_dir no_match sample_win32 (λ _, None) sample_fs sample_platform empty_catalog
      (λ _, None) no_source "file_write" input "/ws" None sample_facts None (Some "low") None
    = Some result ∧ result.(pr_decision) = allow ∧
  ∃ real, (resolveSandboxTarget sample_fs "/" "notes.txt" "/ws" false).(realResolved)
            = abs_path real ∧ below_dir ["ws"] real.
Proof.
  cbv zeta. eexists. split; [vm_compute; reflexivity|]. split; [reflexivity|].
  edestruct (approved_write_confined sample_test sample_registry sample_fs_parse "/home/u" "/"
    sample_exists sample_is_dir no_match sample_win32 (λ _, None) sample_fs sample_platform
    empty_catalog (λ _, None) no_source file_write [("path", JsStr "notes.txt")] "/ws" ["ws"]
    "notes.txt" false ["ws"] ["notes.txt"] ["ws"] ["ws"] [] ["ws"] None sample_facts None
    (Some "low") None) as (limit & lex & real & Hlim & _ & Hreal & (_ & Hin)).
  - by left.
  - reflexivity.
  - discriminate.
  - split_and!; [reflexivity|discriminate|by apply clean_segsb].
  - exact sample_anchored_notes.
  - reflexivity.
  - exact sample_anchored_root.
  - by left.
  - apply canonical_contextb. vm_compute. reflexivity.
  - vm_compute. reflexivity.
  - reflexivity.
  - exists real. split; [exact Hreal|]. apply Hin; [|reflexivity].
    destruct Hlim as [->|(f & Hf & _)]; [reflexivity|discriminate Hf].
Defined.
