(* ===== verification/BashLadder.v ===== *)
(** The allowlist ladder of a bash command against the rule lookup: which of the
    offered patterns, once saved as trust rules, the lookup honours. *)
From S2P Require Import Prelude JsString JsMap RiskTypes ArgParser TrustRules BashArgs.
From S2P Require Import RegistrySyntax RegistryA RegistryB ScopeOptions BashRisk.

Lemma join_snoc ws x : ws ≠ [] → join " " (ws ++ [x]) = join " " ws +:+ " " +:+ x.
Proof.
  intros Hne. induction ws as [|w ws IH]; [done|]. destruct ws as [|w' ws]; [done|].
  change ((w :: w' :: ws) ++ [x]) with (w :: w' :: (ws ++ [x])).
  rewrite !join_cons. change (w' :: ws ++ [x]) with ((w' :: ws) ++ [x]).
  rewrite IH by done. by rewrite !append_assoc.
Qed.

Lemma includes_char_join w w' ws : includes_char (join " " (w :: w' :: ws)) " " = true.
Proof.
  rewrite join_cons. unfold includes_char.
  destruct (index_of_char " " _) eqn:H; [done|]. exfalso.
  change (no_char " " (w +:+ " " +:+ join " " (w' :: ws))) in H.
  apply no_char_app in H as [_ H]. by apply no_char_cons in H as [[] _].
Qed.

(** Tokens that [labelToActionPattern] keeps. *)
Definition kept_token (t : string) : bool :=
  negb (starts_with t "-") && negb (String.eqb t "*").

Lemma star_not_kept : kept_token "*" = false.
Proof. done. Qed.

Lemma detect_subcommand_inv sp ps s :
  detect_subcommand sp ps = Some s → ∃ rest, ps = s :: rest.
Proof.
  unfold detect_subcommand. destruct (sp ≫= subcommands); [|done].
  destruct ps as [|p rest]; [done|]. destruct (obj_get p _); [|done].
  intros [= ->]. by exists rest.
Qed.

Section Ladder.
Context (registry : list (string * CommandRiskSpec)) (seg : CommandSegment).
Let spec := obj_get seg.(program) registry.
Let schema := spec ≫= argSchema.
Let flags := scope_flags schema seg.(args).
Let positionals := scope_positionals schema seg.(args).

(** The label of a rung: the program, some words, and a final star; the words
    that are kept are the first positionals. *)
Definition rung_label (l : string) : Prop :=
  ∃ mid, l = join " " (seg.(program) :: mid ++ ["*"]) ∧
    Forall (λ w, is_word w = true) mid ∧
    List.filter kept_token mid `prefix_of` positionals.

Definition rung_pattern (p : string) : Prop :=
  ∃ pre, pre `prefix_of` (seg.(program) :: positionals) ∧ pre ≠ [] ∧
    p = "action:" +:+ join " " pre.

Context (program_word : is_word seg.(program) = true)
        (program_kept : kept_token seg.(program) = true)
        (flags_words : Forall (λ f, is_word f = true ∧ starts_with f "-" = true) flags)
        (positionals_words :
           Forall (λ p, is_word p = true ∧ kept_token p = true) positionals).

Lemma rung_label_pattern l i :
  rung_label l → rung_pattern (allowlist_entry (S i) {| so_pattern := ""; so_label := l |}).(al_pattern).
Proof.
  intros (mid & -> & Hmid & [post Hpre]). unfold allowlist_entry. cbn [so_label].
  assert (join " " (program seg :: mid ++ ["*"]) =
          join " " (program seg :: mid) +:+ " *") as Hlabel.
  { change (program seg :: mid ++ ["*"]) with ((program seg :: mid) ++ ["*"]).
    by rewrite join_snoc. }
  rewrite Hlabel, ends_with_app.
  rewrite (slice_drop_last_app (join " " (program seg :: mid)) " *"
    : slice_drop_last 2 _ = _).
  destruct mid as [|w mid].
  - simpl. assert (includes_char (program seg) " " = false) as ->.
    { unfold includes_char. apply andb_true_iff in program_word as [_ Hp].
      apply no_space_no_char in Hp. by rewrite Hp. }
    exists [program seg]. split_and!; [by exists positionals|done|done].
  - rewrite includes_char_join. cbn [andb negb al_pattern]. rewrite <- Hlabel.
    unfold labelToActionPattern. rewrite split_ws_join; [|done|].
    2: { apply Forall_cons. split; [done|]. apply Forall_app. split; [done|].
         by repeat constructor. }
    fold kept_token.
    exists (program seg :: List.filter kept_token (w :: mid)). split_and!; [|done|].
    + exists post. by rewrite Hpre.
    + change (program seg :: (w :: mid) ++ ["*"]) with ([program seg] ++ (w :: mid) ++ ["*"]).
      rewrite !List.filter_app. cbn [List.filter app].
      change (λ t, negb (starts_with t "-") && negb (String.eqb t "*")) with kept_token.
      rewrite program_kept, star_not_kept, app_nil_r. done.
Qed.

(** Option lists made of the exact command and of rungs. *)
Definition ladder_ok (opts : list ScopeOption) : Prop :=
  ∃ first rungs, opts = first :: rungs ∧ first.(so_label) = seg.(command) ∧
    Forall (λ o, rung_label o.(so_label)) rungs.

Lemma ladder_ok_addOption opts pattern label :
  ladder_ok opts → rung_label label → ladder_ok (addOption opts pattern label).
Proof.
  intros (f & rungs & -> & Hf & Hr) Hl. unfold addOption.
  destruct (existsb _ _); [by exists f, rungs|].
  exists f, (rungs ++ [{| so_pattern := pattern; so_label := label |}]).
  split_and!; try done. apply Forall_app. split; [done|]. by repeat constructor.
Qed.

Lemma filter_flags fl :
  Forall (λ f, is_word f = true ∧ starts_with f "-" = true) fl →
  List.filter kept_token fl = [].
Proof.
  induction 1 as [|f fl [_ Hd] _ IH]; [done|]. simpl. unfold kept_token at 1.
  by rewrite Hd.
Qed.

Lemma filter_kept ps :
  Forall (λ p, is_word p = true ∧ kept_token p = true) ps → List.filter kept_token ps = ps.
Proof. induction 1 as [|p ps [_ Hk] _ IH]; [done|]. simpl. by rewrite Hk, IH. Qed.

Lemma rung_mid sub fl kept rest :
  positionals = (sub ++ kept) ++ rest →
  Forall (λ f, is_word f = true ∧ starts_with f "-" = true) fl →
  rung_label (join " " (program seg :: sub ++ fl ++ kept ++ ["*"])).
Proof.
  intros Hpos Hfl. exists (sub ++ fl ++ kept).
  pose proof positionals_words as Hw. rewrite Hpos, !Forall_app in Hw.
  destruct Hw as [[Hsub Hkept] _]. rewrite <- !app_assoc. split; [done|]. split.
  - rewrite !Forall_app. split_and!;
      [eapply Forall_impl; [exact Hsub|by intros ? []]
      |eapply Forall_impl; [exact Hfl|by intros ? []]
      |eapply Forall_impl; [exact Hkept|by intros ? []]].
  - rewrite !List.filter_app, (filter_flags fl Hfl), (filter_kept sub Hsub),
      (filter_kept kept Hkept). by exists rest.
Qed.

Lemma ladder_ok_wildcard opts :
  ladder_ok opts → ladder_ok (command_wildcard opts seg.(program)).
Proof.
  intros H. apply ladder_ok_addOption; [done|].
  apply (rung_mid [] [] [] positionals); [done|by constructor].
Qed.

Lemma ladder_ok_drops sub fl rest opts ns :
  positionals = sub ++ rest →
  Forall (λ f, is_word f = true ∧ starts_with f "-" = true) fl → ladder_ok opts →
  ladder_ok (foldl (drop_positional seg.(program) sub fl rest) opts ns).
Proof.
  intros Hpos Hfl. revert opts. induction ns as [|n ns IH]; intros opts Hopts; [done|].
  simpl. apply IH, ladder_ok_addOption; [done|].
  apply (rung_mid sub fl _ (drop (length rest - n) rest)); [|done].
  by rewrite <- app_assoc, take_drop.
Qed.

Lemma single_segment_ladder_ok : ladder_ok (single_segment_options seg registry).
Proof.
  unfold single_segment_options. fold spec. fold schema. fold flags. fold positionals.
  set (exact := addOption [] _ _).
  assert (ladder_ok exact) as Hexact by (by eexists _, []).
  destruct (bool_decide _); [by apply ladder_ok_wildcard|].
  set (subcommand := match detect_subcommand spec positionals with
                     | Some s => if truthy s then Some s else None | None => None end).
  apply ladder_ok_wildcard.
  assert (match subcommand with
          | Some s => ∃ rest, positionals = s :: rest | None => True end) as Hsub.
  { unfold subcommand. destruct (detect_subcommand spec positionals) eqn:Hd; [|done].
    destruct (truthy s); [|done]. by eapply detect_subcommand_inv. }
  destruct subcommand as [s|].
  - destruct Hsub as [rest Hrest].
    assert (rung_label (join " " ((program seg :: [s]) ++ ["*"]))) as Hrung.
    { apply (rung_mid [s] [] [] rest); [exact Hrest|constructor]. }
    apply ladder_ok_addOption; [|exact Hrung]. rewrite Hrest. cbn [drop].
    destruct flags as [|f fl] eqn:Hfl; [|apply ladder_ok_addOption; [|exact Hrung]];
      (apply (ladder_ok_drops [s]); [exact Hrest|first [exact flags_words|by rewrite <- Hfl|by constructor]|done]).
  - assert (rung_label (join " " ((program seg :: []) ++ ["*"]))) as Hrung.
    { apply (rung_mid [] [] [] positionals); [done|constructor]. }
    destruct flags as [|f fl] eqn:Hfl; [|apply ladder_ok_addOption; [|exact Hrung]];
      (apply ladder_ok_drops; [done|first [exact flags_words|by rewrite <- Hfl|by constructor]|done]).
Qed.

Lemma allowlist_loop_patterns (P : AllowlistOption → Prop) i opts results :
  Forall P results → (∀ j o, o ∈ opts → P (allowlist_entry (i + j) o)) →
  Forall P (allowlist_loop i opts results).
Proof.
  revert i results. induction opts as [|o opts IH]; intros i results Hr Ho; [done|]. simpl.
  assert (∀ j o', o' ∈ opts → P (allowlist_entry (S i + j) o')) as Hrest.
  { intros j o' Hin. replace (S i + j) with (i + S j) by lia. apply Ho. by right. }
  destruct (existsb _ _); apply IH; try done.
  apply Forall_app. split; [done|]. constructor; [|constructor].
  specialize (Ho 0 o). rewrite Nat.add_0_r in Ho. apply Ho. by left.
Qed.

(** Every offered pattern is the command itself or a prefix of the program and
    its positionals in the [action:] dialect. *)
Lemma offered_patterns :
  Forall (λ o, o.(al_pattern) = seg.(command) ∨ rung_pattern o.(al_pattern))
    (scopeOptionsToAllowlistOptions (single_segment_options seg registry)).
Proof.
  destruct single_segment_ladder_ok as (first & rungs & -> & Hfirst & Hrungs).
  unfold scopeOptionsToAllowlistOptions. simpl. apply allowlist_loop_patterns.
  - constructor; [|constructor]. left. done.
  - intros j [pat l] Ho. right. rewrite Forall_forall in Hrungs.
    apply (rung_label_pattern l j), (Hrungs {| so_pattern := pat; so_label := l |} Ho).
Qed.
End Ladder.

(** When no flag of the command takes a separate value, every generalised
    pattern the permission prompt offers is honoured: a rule saved under it is
    found, or shadowed by a more specific one, when the same program is
    classified with the same positionals from any directory in scope. *)
Theorem offered_rules_apply (registry : list (string * CommandRiskSpec))
    (seg : CommandSegment) (o : AllowlistOption) (cache : TrustRuleCache)
    (tool : string) (cwd : option string) (r : TrustRule) :
  let schema := obj_get seg.(program) registry ≫= argSchema in
  let positionals := scope_positionals schema seg.(args) in
  is_word seg.(program) = true → kept_token seg.(program) = true →
  no_char "/" seg.(program) →
  Forall (λ f, is_word f = true ∧ starts_with f "-" = true)
    (scope_flags schema seg.(args)) →
  Forall (λ p, is_word p = true ∧ kept_token p = true) positionals →
  o ∈ scopeOptionsToAllowlistOptions (single_segment_options seg registry) →
  o.(al_pattern) ≠ seg.(command) → r.(tr_pattern) = o.(al_pattern) →
  cache_at cache tool r → isScopeMatch r.(tr_scope) cwd = true →
  ∃ r', findBaseRisk cache tool
          (positional_pattern registry seg.(program) seg.(args)) cwd = Some r'.
Proof.
  intros schema positionals Hpw Hpk Hslash Hfl Hpos Ho Hexact Hpat (tm & Htool & Htm) Hscope.
  pose proof (offered_patterns registry seg Hpw Hpk Hfl Hpos) as Hall.
  rewrite Forall_forall in Hall.
  destruct (Hall o Ho) as [|(pre & Hpre & Hne & Hpre_pat)]; [done|].
  assert (positional_pattern registry seg.(program) seg.(args) =
          join " " (seg.(program) :: positionals)) as ->.
  { unfold positional_pattern, positionals, scope_positionals, schema.
    destruct (obj_get (program seg) registry ≫= argSchema); by destruct (_ : list string). }
  apply (saved_rule_found cache tool cwd "" seg.(program) positionals pre r);
    try done; [by left| |].
  - constructor; [done|]. eapply Forall_impl; [exact Hpos|by intros ? []].
  - exists tm. split; [done|]. split; [right|done]. by rewrite <- Hpre_pat, <- Hpat.
Qed.

(** ** Rungs the lookup does not honour *)

Lemma includes_char_false w : includes_char w " " = false ↔ no_char " " w.
Proof.
  unfold includes_char, no_char. by destruct (index_of_char " " w).
Qed.

Lemma join_take_space w ws j :
  2 ≤ j → ws ≠ [] → includes_char (join " " (take j (w :: ws))) " " = true.
Proof.
  intros Hj Hws. destruct j as [|[|j]]; [lia..|]. destruct ws as [|w' ws]; [done|].
  apply includes_char_join.
Qed.

Lemma slash_not_no_char d w : ¬ no_char "/" (d +:+ "/" +:+ w).
Proof.
  intros [_ H]%no_char_app. by apply no_char_cons in H as [[] _].
Qed.

Lemma includes_char_app_r a b : includes_char b " " = true → includes_char (a +:+ b) " " = true.
Proof.
  intros Hb. apply not_false_is_true. intros H%includes_char_false.
  apply no_char_app in H as [_ H%includes_char_false]. congruence.
Qed.

(** A key with a slash and no space is never tried for a command with arguments. *)
Lemma candidate_keys_no_path key d w ws :
  no_char " " key → ¬ no_char "/" key →
  no_char " " d → is_word w = true → no_char "/" w →
  Forall (λ w, is_word w = true) ws → ws ≠ [] →
  key ∉ candidate_keys (d +:+ "/" +:+ join " " (w :: ws)).
Proof.
  intros Hkey%includes_char_false Hpath Hd Hw Hslash Hws Hne.
  assert (stripPath (d +:+ "/" +:+ join " " (w :: ws)) = join " " (w :: ws)) as Hstrip.
  { destruct ws as [|w' ws']; [done|]. rewrite join_cons, <- append_assoc.
    apply (stripPath_first (d +:+ "/") w (" " +:+ join " " (w' :: ws'))); try done.
    - right. by exists d.
    - right. by eexists. }
  unfold candidate_keys. rewrite Hstrip, split_ws_join; [|done|by constructor].
  assert (∀ s, includes_char s " " = true → key ≠ s) as Hneq by (intros s Hs <-; congruence).
  assert (includes_char (join " " (w :: ws)) " " = true) as Hcmd.
  { destruct ws; [done|]. apply includes_char_join. }
  rewrite elem_of_cons, elem_of_app. intros [H|[H|H]].
  - revert H. by apply Hneq, includes_char_app_r, includes_char_app_r.
  - destruct (String.eqb _ _); [by apply elem_of_nil in H|].
    apply list_elem_of_singleton in H. by apply Hneq in H.
  - apply list_elem_of_fmap in H as (j & H & Hj%list_elem_of_In%in_rev%in_seq).
    destruct (decide (j = 1)) as [->|Hj1].
    + simpl in H. by rewrite H in Hpath.
    + revert H. apply Hneq, join_take_space; [lia|done].
Qed.

(** For a program called by its path the prompt's "any such command" pattern is
    dead: a rule saved under the path alone never applies to the program called
    with arguments. *)
Theorem path_wildcard_ignored (cache : TrustRuleCache) (tool : string)
    (cwd : option string) (d w : string) (ws : list string) :
  let path := d +:+ "/" +:+ w in
  no_char " " d → is_word w = true → no_char "/" w →
  Forall (λ w, is_word w = true) ws → ws ≠ [] →
  (∀ key r, applicable cache tool cwd key r → key = path ∨ key = "action:" +:+ path) →
  findBaseRisk cache tool (d +:+ "/" +:+ join " " (w :: ws)) cwd = None.
Proof.
  intros path Hd Hw Hslash Hws Hne Honly.
  destruct (findBaseRisk _ _ _ _) as [r|] eqn:H; [|done].
  apply findBaseRisk_some in H as (pre & key & post & Hkeys & Happ & _). exfalso.
  assert (no_char " " path) as Hpath.
  { pose proof Hw as Hw'. apply andb_true_iff in Hw' as [_ Hw'%no_space_no_char].
    apply no_char_app. split; [done|]. by apply no_char_cons. }
  apply (candidate_keys_no_path key d w ws); try done.
  - destruct (Honly _ _ Happ) as [->| ->]; [done|]. by apply no_char_app.
  - destruct (Honly _ _ Happ) as [->| ->]; [apply slash_not_no_char|].
    intros [_ H]%no_char_app. by apply slash_not_no_char in H.
  - rewrite Hkeys. apply elem_of_app. right. left.
Qed.

(** A flag that takes a separate value puts that value into the generalised
    patterns of the prompt: for [git -C dir push origin main] the pattern
    [git push dir origin] is offered, and a rule saved under it is not found when
    the same command is classified again. *)
Theorem flag_value_rung_ignored :
  let seg := sample_segment "git" ["-C"; "dir"; "push"; "origin"; "main"] in
  let pattern := "action:git push dir origin" in
  let cache := refresh [sample_rule pattern None] in
  pattern ∈ al_pattern <$>
    scopeOptionsToAllowlistOptions (single_segment_options seg sample_registry) ∧
  findBaseRisk cache "bash" seg.(command) None = None ∧
  base_override sample_registry bash (Some cache) None "git" cmd_git seg.(args) = None.
Proof.
  simpl. split; [vm_compute; right; left|]. split; vm_compute; reflexivity.
Qed.

(** ** Concrete instances *)

Lemma path_wildcard_ignored_witness :
  let cache := refresh [sample_rule "action:./deploy.sh" None] in
  "action:./deploy.sh" ∈ al_pattern <$> scopeOptionsToAllowlistOptions
    (single_segment_options (sample_segment "./deploy.sh" ["prod"]) sample_registry) ∧
  findBaseRisk cache "bash" "./deploy.sh prod" None = None.
Proof.
  cbv zeta. split; [vm_compute; right; left|].
  apply (path_wildcard_ignored _ "bash" None "." "deploy.sh" ["prod"]);
    try reflexivity; try discriminate; [repeat constructor|].
  intros key r (tm & Htm & Hr & _). vm_compute in Htm. injection Htm as <-.
  destruct Hr as [Hr|Hr]; cbn [map_get] in Hr; case_decide as Hk; try discriminate Hr.
  - by right.
  - left. exact (append_inj_l "action:" key "./deploy.sh" Hk).
Defined.

Lemma offered_rules_apply_witness :
  let cache := refresh [sample_rule "action:git push origin" (Some "/work/*")] in
  ∃ r, findBaseRisk cache "bash"
         (positional_pattern sample_registry "git" ["push"; "origin"; "main"])
         (Some "/work/app") = Some r.
Proof.
  cbv zeta.
  eapply (offered_rules_apply sample_registry (sample_segment "git" ["push"; "origin"; "main"])
    {| al_label := "git push origin *"; al_description := "Commands matching this pattern";
       al_pattern := "action:git push origin" |} _ "bash" (Some "/work/app")
    (sample_rule "action:git push origin" (Some "/work/*"))).
  all: try (vm_compute; reflexivity).
  - vm_compute. constructor.
  - vm_compute. repeat constructor.
  - vm_compute. right. left.
  - vm_compute. discriminate.
  - eexists. split; vm_compute; reflexivity.
Defined.
