(* ===== verification/EdgeTokens.v ===== *)
(** The tokens of the gateway's edge ([gateway/src/auth/token-service.ts],
    [token-exchange.ts], [subject.ts], [scopes.ts], [policy.ts] and the hashing of
    [actor-token-revocation.ts]).

    A token is three base64url segments: the header, the claims as JSON and the
    HMAC of the two. Buffers are strings of bytes. The HMAC under the gateway's key,
    [JSON.parse] and the hash are arguments; the key is loaded at start-up. *)
From stdpp Require Import pretty.
From S2P Require Import Prelude JsString NodePath CanonicalJson.

(** ** Base64url *)

Definition sextet_char (n : N) : ascii :=
  ascii_of_N (if n <? 26 then 65 + n else if n <? 52 then 71 + n else if n <? 62 then n - 4
              else if n =? 62 then 45 else 95)%N.

(** Both alphabets are read; [None]: not a character of either. *)
Definition char_sextet (c : ascii) : option N :=
  let n := N_of_ascii c in
  (if (65 <=? n) && (n <=? 90) then Some (n - 65)
   else if (97 <=? n) && (n <=? 122) then Some (n - 71)
   else if (48 <=? n) && (n <=? 57) then Some (n + 4)
   else if (n =? 45) || (n =? 43) then Some 62
   else if (n =? 95) || (n =? 47) then Some 63
   else None)%N.

Fixpoint to_sextets (bs : list N) : list N :=
  match bs with
  | [] => []
  | [a] => [a / 4; (a mod 4) * 16]
  | [a; b] => [a / 4; (a mod 4) * 16 + b / 16; (b mod 16) * 4]
  | a :: b :: c :: bs =>
      a / 4 :: (a mod 4) * 16 + b / 16 :: (b mod 16) * 4 + c / 64 :: c mod 64 :: to_sextets bs
  end%N.

Fixpoint from_sextets (ss : list N) : list N :=
  match ss with
  | [] | [_] => []
  | [a; b] => [a * 4 + b / 16]
  | [a; b; c] => [a * 4 + b / 16; (b mod 16) * 16 + c / 4]
  | a :: b :: c :: d :: ss =>
      a * 4 + b / 16 :: (b mod 16) * 16 + c / 4 :: (c mod 4) * 64 + d :: from_sextets ss
  end%N.

Definition chars (s : string) : list ascii := String.list_ascii_of_string s.

(** [data.toString("base64url")] *)
Definition base64urlEncode (data : string) : string :=
  String.string_of_list_ascii (sextet_char <$> to_sextets (N_of_ascii <$> chars data)).

(** [Buffer.from(str, "base64url")]: other characters are skipped. *)
Definition base64urlDecode (str : string) : string :=
  String.string_of_list_ascii (ascii_of_N <$> from_sextets (omap char_sextet (chars str))).

#[global] Arguments base64urlEncode : simpl never.
#[global] Arguments base64urlDecode : simpl never.

(** ** Subjects *)

Inductive PrincipalType := actor | svc_gateway | svc_daemon | local.

Record Subject := {
  sub_principalType : PrincipalType;
  sub_assistantId : string;
  sub_actorPrincipalId : option string;
  sub_conversationId : option string
}.

Definition service (t : PrincipalType) (assistant : string) : Subject :=
  {| sub_principalType := t; sub_assistantId := assistant;
     sub_actorPrincipalId := None; sub_conversationId := None |}.

(** [inl]: the reason of the refusal. *)
Definition parseSub (sub : string) : string + Subject :=
  if negb (truthy sub) then inl "sub is empty or not a string"
  else
    let unrecognized := inl ("unrecognized sub pattern: " +:+ sub) in
    match split_char ":" sub with
    | [kind; a; b] =>
        if String.eqb kind "actor" then
          if negb (truthy a) || negb (truthy b)
          then inl "actor sub has empty assistantId or actorPrincipalId"
          else inr {| sub_principalType := actor; sub_assistantId := a;
                      sub_actorPrincipalId := Some b; sub_conversationId := None |}
        else if String.eqb kind "svc" && String.eqb a "gateway" then
          if negb (truthy b) then inl "svc:gateway sub has empty assistantId"
          else inr (service svc_gateway b)
        else if String.eqb kind "svc" && String.eqb a "daemon" then
          if negb (truthy b) then inl "svc:daemon sub has empty identifier"
          else inr (service svc_daemon b)
        else if String.eqb kind "local" then
          if negb (truthy a) || negb (truthy b)
          then inl "local sub has empty assistantId or conversationId"
          else inr {| sub_principalType := local; sub_assistantId := a;
                      sub_actorPrincipalId := None; sub_conversationId := Some b |}
        else unrecognized
    | _ => unrecognized
    end.

(** ** Scopes *)

Inductive ScopeProfile :=
  | actor_client_v1 | gateway_ingress_v1 | gateway_service_v1 | local_v1 | oauth_proxy_v1
  | speech_relay_v1 | ui_page_v1.

Inductive Scope :=
  | chat_read | chat_write | approval_read | approval_write | settings_read | settings_write
  | attachments_read | attachments_write | calls_read | calls_write | ingress_write
  | internal_write | admin_write | feature_flags_read | feature_flags_write | speech_relay
  | local_all | oauth_proxy.

#[export] Instance Scope_eq_dec : EqDecision Scope.
Proof. solve_decision. Defined.
#[export] Instance PrincipalType_eq_dec : EqDecision PrincipalType.
Proof. solve_decision. Defined.

Definition profile_name (p : ScopeProfile) : string :=
  match p with
  | actor_client_v1 => "actor_client_v1" | gateway_ingress_v1 => "gateway_ingress_v1"
  | gateway_service_v1 => "gateway_service_v1" | local_v1 => "local_v1"
  | oauth_proxy_v1 => "oauth_proxy_v1" | speech_relay_v1 => "speech_relay_v1"
  | ui_page_v1 => "ui_page_v1"
  end.

Definition PROFILES : list ScopeProfile :=
  [actor_client_v1; gateway_ingress_v1; gateway_service_v1; local_v1; oauth_proxy_v1;
   speech_relay_v1; ui_page_v1].

(** The own property of the tables with that name. *)
Definition profile_of (name : string) : option ScopeProfile :=
  find_first (λ p, String.eqb (profile_name p) name) PROFILES.

Definition PROFILE_SCOPES (p : ScopeProfile) : list Scope :=
  match p with
  | actor_client_v1 =>
      [admin_write; chat_read; chat_write; approval_read; approval_write; settings_read;
       settings_write; attachments_read; attachments_write; calls_read; calls_write;
       feature_flags_read; feature_flags_write]
  | gateway_ingress_v1 => [ingress_write; internal_write]
  | gateway_service_v1 =>
      [chat_read; chat_write; settings_read; settings_write; attachments_read;
       attachments_write; internal_write]
  | local_v1 => [local_all]
  | oauth_proxy_v1 => [oauth_proxy]
  | speech_relay_v1 => [speech_relay]
  | ui_page_v1 => [settings_read]
  end.

Definition resolveScopeProfile (profile : string) : list Scope :=
  match profile_of profile with Some p => PROFILE_SCOPES p | None => [] end.

Definition BROAD_SCOPE_PROFILES (p : ScopeProfile) : bool :=
  match p with oauth_proxy_v1 | speech_relay_v1 => false | _ => true end.

(** An inherited property is an object, never [true]. *)
Definition isNarrowScopeProfile (profile : string) : bool :=
  match profile_of profile with Some p => negb (BROAD_SCOPE_PROFILES p) | None => true end.

(** ** Tokens *)

Definition CURRENT_POLICY_EPOCH : Z := 1.

Definition isStaleEpoch (epoch : Z) : bool := (epoch <? CURRENT_POLICY_EPOCH)%Z.

Record TokenClaims := {
  iss : string;
  aud : string;
  sub : string;
  scope_profile : string;
  exp : Z;
  policy_epoch : Z;
  iat : option Z;
  jti : option string
}.

Record TokenParams := {
  tp_aud : string;
  tp_sub : string;
  tp_scope_profile : ScopeProfile;
  tp_policy_epoch : Z;
  tp_ttlSeconds : Z
}.

Definition minted_claims (nowMs : Z) (nonce : string) (p : TokenParams) : TokenClaims :=
  let now := (nowMs / 1000)%Z in
  {| iss := "vellum-auth"; aud := p.(tp_aud); sub := p.(tp_sub);
     scope_profile := profile_name p.(tp_scope_profile); exp := (now + p.(tp_ttlSeconds))%Z;
     policy_epoch := p.(tp_policy_epoch); iat := Some now; jti := Some nonce |}.

Definition member (key : string) (value : option Json) : list (string * Json) :=
  match value with Some v => [(key, v)] | None => [] end.

Definition claims_json (c : TokenClaims) : Json :=
  JObj ([("iss", JStr c.(iss)); ("aud", JStr c.(aud)); ("sub", JStr c.(sub));
         ("scope_profile", JStr c.(scope_profile)); ("exp", JNum (pretty c.(exp)));
         ("policy_epoch", JNum (pretty c.(policy_epoch)))]
        ++ member "iat" ((λ n, JNum (pretty n)) <$> c.(iat)) ++ member "jti" (JStr <$> c.(jti))).

Section Tokens.
(** The HMAC under the gateway's key; the claims in a JSON text. *)
Context (hmac : string → string) (JSON_parse : string → option TokenClaims).

Definition JWT_HEADER : string :=
  base64urlEncode (stringify (JObj [("alg", JStr "HS256"); ("typ", JStr "JWT")])).

#[local] Arguments JWT_HEADER : simpl never.
#[local] Arguments stringify : simpl never.

Definition sign (claims : TokenClaims) : string :=
  let sigInput := JWT_HEADER +:+ "." +:+ base64urlEncode (stringify (claims_json claims)) in
  sigInput +:+ "." +:+ base64urlEncode (hmac sigInput).

Definition mintToken (nowMs : Z) (nonce : string) (p : TokenParams) : string :=
  sign (minted_claims nowMs nonce p).

Inductive VerifyFailure :=
  | malformed_token | invalid_signature | malformed_claims
  | audience_mismatch (expected got : string) | token_expired | stale_policy_epoch.

Definition check_claims (expectedAud : string) (allowExpired : bool) (nowMs : Z)
    (claims : TokenClaims) : VerifyFailure + TokenClaims :=
  if negb (String.eqb claims.(aud) expectedAud)
  then inl (audience_mismatch expectedAud claims.(aud))
  else if negb allowExpired && (claims.(exp) <=? nowMs / 1000)%Z then inl token_expired
  else if isStaleEpoch claims.(policy_epoch) then inl stale_policy_epoch
  else inr claims.

Definition verifyToken (token expectedAud : string) (allowExpired : bool) (nowMs : Z)
    : VerifyFailure + TokenClaims :=
  match split_char "." token with
  | [headerPart; payloadPart; sigPart] =>
      let expectedSig := hmac (headerPart +:+ "." +:+ payloadPart) in
      let actualSig := base64urlDecode sigPart in
      if negb (String.length expectedSig =? String.length actualSig) then inl invalid_signature
      else if negb (String.eqb expectedSig actualSig) then inl invalid_signature
      else match JSON_parse (base64urlDecode payloadPart) with
           | Some claims => check_claims expectedAud allowExpired nowMs claims
           | None => inl malformed_claims
           end
  | _ => inl malformed_token
  end.

Definition validateEdgeToken (token : string) (allowExpired : bool) (nowMs : Z)
    : VerifyFailure + TokenClaims :=
  verifyToken token "vellum-gateway" allowExpired nowMs.

(** ** Exchange *)

Definition EXCHANGE_TOKEN_TTL_SECONDS : Z := 60.

Definition toDaemonSubject (edgeSub : string) : string :=
  match parseSub edgeSub with
  | inl _ => "svc:gateway:self"
  | inr s =>
      match s.(sub_principalType) with
      | actor => "actor:self:" +:+ default "undefined" s.(sub_actorPrincipalId)
      | local => "local:self:" +:+ default "undefined" s.(sub_conversationId)
      | _ => "svc:gateway:self"
      end
  end.

Definition daemon_params (subject : string) (profile : ScopeProfile) : TokenParams :=
  {| tp_aud := "vellum-daemon"; tp_sub := subject; tp_scope_profile := profile;
     tp_policy_epoch := CURRENT_POLICY_EPOCH; tp_ttlSeconds := EXCHANGE_TOKEN_TTL_SECONDS |}.

Definition mintExchangeToken (nowMs : Z) (nonce : string) (edge : TokenClaims)
    (profile : ScopeProfile) : string :=
  mintToken nowMs nonce (daemon_params (toDaemonSubject edge.(sub)) profile).

Definition mintIngressToken (nowMs : Z) (nonce : string) : string :=
  mintToken nowMs nonce (daemon_params "svc:gateway:self" gateway_ingress_v1).

Definition mintServiceToken (nowMs : Z) (nonce : string) : string :=
  mintToken nowMs nonce (daemon_params "svc:gateway:self" gateway_service_v1).

Definition edge_params (profile : ScopeProfile) (ttl : Z) : TokenParams :=
  {| tp_aud := "vellum-gateway"; tp_sub := "svc:gateway:self"; tp_scope_profile := profile;
     tp_policy_epoch := CURRENT_POLICY_EPOCH; tp_ttlSeconds := ttl |}.

Definition mintRelayToken (nowMs : Z) (nonce : string) : string :=
  mintToken nowMs nonce (edge_params gateway_service_v1 EXCHANGE_TOKEN_TTL_SECONDS).

Definition mintUiPageToken (nowMs : Z) (nonce : string) : string :=
  mintToken nowMs nonce (edge_params ui_page_v1 3600).

(** ** The hash of a token's record *)

Context (sha256 : string → string).

Definition hashToken (token : string) : string := sha256 token.

Definition canonicalizeTokenForHash (rawToken : string) : string :=
  let trimmed := trim rawToken in
  match split_char "." trimmed with
  | [a; b; c] => join "." ((λ seg, base64urlEncode (base64urlDecode seg)) <$> [a; b; c])
  | _ => trimmed
  end.

Definition actorTokenRecordHash (rawToken : string) : string :=
  hashToken (canonicalizeTokenForHash rawToken).
End Tokens.

(** ** Facts: base64url *)

Lemma list_ascii_forall (P : ascii → bool) :
  forallb P ((λ n, ascii_of_nat n) <$> seq 0 256) = true → ∀ c, P c = true.
Proof.
  intros H c. rewrite forallb_true in H. apply H. apply list_elem_of_fmap.
  exists (nat_of_ascii c). split; [by rewrite ascii_nat_embedding|].
  apply elem_of_seq. pose proof (nat_ascii_bounded c). lia.
Qed.

Definition is_sextet (c : ascii) : bool :=
  match char_sextet c with Some _ => true | None => false end.

Lemma sextet_tokenchar n :
  (n < 64)%N → char_sextet (sextet_char n) = Some n
               ∧ Ascii.eqb (sextet_char n) "." = false ∧ is_space (sextet_char n) = false.
Proof.
  intros Hn.
  assert (forallb (λ n, bool_decide (char_sextet (sextet_char n) = Some n)
            && negb (Ascii.eqb (sextet_char n) ".") && negb (is_space (sextet_char n)))
            (N.of_nat <$> seq 0 64) = true) as H by (vm_compute; reflexivity).
  rewrite forallb_true in H.
  assert (n ∈ N.of_nat <$> seq 0 64) as Hin.
  { apply list_elem_of_fmap. exists (N.to_nat n). split; [lia|]. apply elem_of_seq. lia. }
  specialize (H n Hin). bool_to_prop. auto.
Qed.

Lemma list_ind3 {A} (P : list A → Prop) :
  P [] → (∀ a, P [a]) → (∀ a b, P [a; b]) → (∀ a b c l, P l → P (a :: b :: c :: l)) → ∀ l, P l.
Proof.
  intros H0 H1 H2 H3. fix IH 1. intros [|a [|b [|c l]]]; [done|apply H1|apply H2|].
  apply H3, IH.
Qed.

Lemma to_sextets_lt bs : Forall (λ b, b < 256)%N bs → Forall (λ s, s < 64)%N (to_sextets bs).
Proof.
  induction bs as [| | |a b c bs IH] using list_ind3; intros H; simpl; [done| | |].
  all: repeat match goal with H : Forall _ (_ :: _) |- _ => apply Forall_cons in H as [? H] end.
  all: repeat (apply Forall_cons; split); try apply Forall_nil; try (by apply IH).
  all: zify; Z.to_euclidean_division_equations; lia.
Qed.

Lemma from_to_sextets bs : Forall (λ b, b < 256)%N bs → from_sextets (to_sextets bs) = bs.
Proof.
  induction bs as [| | |a b c bs IH] using list_ind3; intros H; simpl; [done| | |].
  all: repeat match goal with H : Forall _ (_ :: _) |- _ => apply Forall_cons in H as [? H] end.
  all: rewrite ?IH by done; repeat f_equal; zify; Z.to_euclidean_division_equations; lia.
Qed.

Lemma omap_sextets ss :
  Forall (λ s, s < 64)%N ss → omap char_sextet (sextet_char <$> ss) = ss.
Proof.
  induction 1 as [|s ss Hs _ IH]; [done|]. csimpl.
  destruct (sextet_tokenchar s Hs) as [-> _]. simpl. by rewrite IH.
Qed.

Lemma ascii_of_chars s : ascii_of_N <$> (N_of_ascii <$> chars s) = chars s.
Proof.
  rewrite <- list_fmap_compose. etrans; [|apply list_fmap_id]. apply list_fmap_ext.
  intros ? c _. apply ascii_N_embedding.
Qed.

Lemma chars_lt s : Forall (λ b, b < 256)%N (N_of_ascii <$> chars s).
Proof.
  apply Forall_fmap, Forall_forall. intros c _. apply N_ascii_bounded.
Qed.

Lemma decode_encode s : base64urlDecode (base64urlEncode s) = s.
Proof.
  unfold base64urlDecode, base64urlEncode, chars at 1.
  rewrite String.list_ascii_of_string_of_list_ascii, omap_sextets by apply to_sextets_lt, chars_lt.
  rewrite from_to_sextets by apply chars_lt. rewrite ascii_of_chars.
  apply String.string_of_list_ascii_of_string.
Qed.

(** The encoding is a run of token characters. *)
Definition token_char (c : ascii) : Prop := Ascii.eqb c "." = false ∧ is_space c = false.

Lemma encode_chars s : Forall token_char (chars (base64urlEncode s)).
Proof.
  unfold base64urlEncode, chars at 1. rewrite String.list_ascii_of_string_of_list_ascii.
  apply Forall_fmap. eapply Forall_impl; [apply to_sextets_lt, chars_lt|].
  intros n Hn. by apply sextet_tokenchar.
Qed.

Lemma no_char_chars s : Forall token_char (chars s) → no_char "." s.
Proof.
  induction s as [|c s IH]; [done|]. intros [[Hc _] Hs]%Forall_cons. apply no_char_cons.
  split; [|by apply IH]. apply Ascii.eqb_neq in Hc. congruence.
Qed.

Lemma encode_no_dot s : no_char "." (base64urlEncode s).
Proof. apply no_char_chars, encode_chars. Qed.

(** Trailing white space decodes to nothing. *)
Lemma space_no_sextet c : is_space c = true → char_sextet c = None.
Proof.
  intros H.
  assert (negb (is_space c) || negb (is_sextet c) = true) as Hc.
  { revert c H. intros c _.
    exact (list_ascii_forall (λ c, negb (is_space c) || negb (is_sextet c))
             ltac:(vm_compute; reflexivity) c). }
  rewrite H in Hc. unfold is_sextet in Hc. by destruct (char_sextet c).
Qed.

Lemma omap_tail {A B} (f : A → option B) c l l' : omap f l = omap f l' → omap f (c :: l) = omap f (c :: l').
Proof.
  intros H. change (match f c with Some y => y :: omap f l | None => omap f l end
                    = match f c with Some y => y :: omap f l' | None => omap f l' end).
  by rewrite H.
Qed.

Lemma sextets_trim_end s : omap char_sextet (chars (trim_end s)) = omap char_sextet (chars s).
Proof.
  induction s as [|c s IH]; [done|]. simpl. destruct (trim_end s) as [|d t].
  - transitivity (omap char_sextet (chars (String c ""))).
    + destruct (is_space c) eqn:Hc; [|done]. csimpl. by rewrite space_no_sextet.
    + by apply omap_tail.
  - by apply omap_tail.
Qed.

Lemma decode_trim_end s : base64urlDecode (trim_end s) = base64urlDecode s.
Proof. unfold base64urlDecode. by rewrite sextets_trim_end. Qed.

(** Trimming a token only touches the tail of its last segment. *)
Lemma trim_start_char s c r : Forall token_char (chars s) → trim_start (s +:+ String c r) = s +:+ String c r ∨ s = "".
Proof.
  destruct s as [|d s]; [by right|]. intros [[_ Hd] _]%Forall_cons. left. simpl. by rewrite Hd.
Qed.

Lemma trim_end_app s c r :
  is_space c = false → trim_end (s +:+ String c r) = s +:+ String c (trim_end r).
Proof.
  intros Hc. induction s as [|d s IH]; simpl.
  - destruct (trim_end r); [by rewrite Hc|done].
  - rewrite IH. by destruct s.
Qed.

(** ** Facts: splitting *)

Lemma split_three c a b d :
  no_char c a → no_char c b → no_char c d →
  split_char c (a +:+ String c (b +:+ String c d)) = [a; b; d].
Proof. intros. by rewrite !split_char_app, !split_char_no_char. Qed.

Lemma split_char_join c s : join (String c "") (split_char c s) = s.
Proof.
  induction s as [|d s IH]; [done|]. simpl. destruct (Ascii.eqb_spec c d) as [->|_].
  - rewrite <- IH at 2. by destruct (split_char d s) eqn:E; [by apply split_char_nonempty in E|].
  - pose proof (split_char_nonempty c s). destruct (split_char c s) as [|w [|w' ws]]; [done| |].
    + simpl in *. congruence.
    + simpl in *. congruence.
Qed.

Lemma split_three_inv c s a b d :
  split_char c s = [a; b; d] →
  s = a +:+ String c (b +:+ String c d) ∧ no_char c a ∧ no_char c b ∧ no_char c d.
Proof.
  intros H. assert (∀ w, w ∈ [a; b; d] → no_char c w) as Hw.
  { intros w Hin. rewrite <- H in Hin. by eapply split_char_elem. }
  split; [|split_and!; apply Hw; set_solver]. rewrite <- (split_char_join c s), H. done.
Qed.

Lemma header_chars : Forall token_char (chars JWT_HEADER) ∧ JWT_HEADER ≠ "".
Proof. split; [apply encode_chars|]. vm_compute. discriminate. Qed.

(** ** Minting and verifying *)

Section Facts.
Context (hmac sha256 : string → string) (JSON_parse : string → option TokenClaims).

(** [JSON.parse] reads the text of these claims back. *)
Definition reads_claims (c : TokenClaims) : Prop :=
  JSON_parse (stringify (claims_json c)) = Some c.

Lemma split_sign claims :
  split_char "." (sign hmac claims)
  = [JWT_HEADER; base64urlEncode (stringify (claims_json claims));
     base64urlEncode (hmac (JWT_HEADER +:+ "." +:+ base64urlEncode (stringify (claims_json claims))))].
Proof.
  unfold sign. rewrite append_assoc. apply split_three; [|apply encode_no_dot..].
  apply encode_no_dot.
Qed.

(** Verifying a signed token is checking its claims: neither the encoding nor the
    signature loses or adds anything. *)
Lemma verify_sign claims expectedAud allowExpired nowMs :
  reads_claims claims →
  verifyToken hmac JSON_parse (sign hmac claims) expectedAud allowExpired nowMs
  = check_claims expectedAud allowExpired nowMs claims.
Proof.
  intros Hread. unfold verifyToken. rewrite split_sign, !decode_encode, Nat.eqb_refl, String.eqb_refl.
  cbn [negb]. by rewrite Hread.
Qed.

(** C20: A minted token is accepted by the service it was minted for, with the claims it
    was minted from, exactly until its time to live is over; every other service
    refuses it. *)
Theorem minted_token_accepted nowMs nonce p expectedAud later :
  p.(tp_policy_epoch) = CURRENT_POLICY_EPOCH → reads_claims (minted_claims nowMs nonce p) →
  verifyToken hmac JSON_parse (mintToken hmac nowMs nonce p) expectedAud false later
  = inr (minted_claims nowMs nonce p)
  ↔ expectedAud = p.(tp_aud) ∧ (later / 1000 < nowMs / 1000 + p.(tp_ttlSeconds))%Z.
Proof.
  intros He Hread. unfold mintToken. rewrite verify_sign by done. unfold check_claims, isStaleEpoch. simpl.
  rewrite He. destruct (String.eqb_spec (tp_aud p) expectedAud) as [<-|Hne]; simpl.
  - destruct (Z.leb_spec (nowMs / 1000 + tp_ttlSeconds p) (later / 1000)); simpl.
    + split; [done|]. intros [_ ?]. lia.
    + split; [|done]. intros _. split; [done|lia].
  - split; [done|]. intros [-> _]. done.
Qed.

(** ** The hash of a record *)

(** What the signature of a token is over. *)
Definition signing_input (token : string) : option (string * string) :=
  match split_char "." token with [h; p; _] => Some (h, p) | _ => None end.

Lemma trim_token raw h p s :
  split_char "." raw = [h; p; s] → Forall token_char (chars h) → h ≠ "" →
  split_char "." (trim raw) = [h; p; trim_end s].
Proof.
  intros (-> & Hh & Hp & Hs)%split_three_inv Hth Hne. unfold trim.
  destruct (trim_start_char h "." (p +:+ String "." s) Hth) as [-> | ?]; [|done].
  rewrite !trim_end_app by done. apply split_three; [done..|].
  clear -Hs. induction s as [|c s IH]; [done|]. apply no_char_cons in Hs as [Hc Hs].
  specialize (IH Hs). simpl. destruct (trim_end s) eqn:E.
  - destruct (is_space c); [done|]. by apply no_char_cons.
  - by apply no_char_cons.
Qed.

Lemma canonical_sign claims : canonicalizeTokenForHash (sign hmac claims) = sign hmac claims.
Proof.
  unfold canonicalizeTokenForHash.
  destruct header_chars as [Hh Hne]. rewrite (trim_token _ _ _ _ (split_sign claims) Hh Hne).
  cbn [fmap list_fmap join]. rewrite decode_trim_end. unfold JWT_HEADER. rewrite !decode_encode.
  unfold sign, JWT_HEADER. by rewrite append_assoc.
Qed.

(** C19: However a token is spelled: if it verifies and what it signs is what a minted
    token signs, it is looked up under the record of that token. *)
Theorem respelled_token_same_record raw expectedAud allowExpired nowMs c claims :
  reads_claims claims →
  verifyToken hmac JSON_parse raw expectedAud allowExpired nowMs = inr c →
  signing_input raw = signing_input (sign hmac claims) →
  c = claims ∧ actorTokenRecordHash sha256 raw = hashToken sha256 (sign hmac claims).
Proof.
  intros Hread Hv Hs. unfold verifyToken in Hv. cbv zeta in Hv. unfold signing_input in Hs. rewrite split_sign in Hs.
  destruct (split_char "." raw) as [|h [|p [|s [|]]]] eqn:E; try done.
  assert (h = JWT_HEADER) as -> by congruence.
  assert (p = base64urlEncode (stringify (claims_json claims))) as -> by congruence. clear Hs.
  destruct (negb (_ =? _)); [done|]. destruct (String.eqb_spec
    (hmac (JWT_HEADER +:+ "." +:+ base64urlEncode (stringify (claims_json claims))))
    (base64urlDecode s)) as [Hsig|]; [|done]. cbn [negb] in Hv.
  rewrite decode_encode, Hread in Hv. split.
  { unfold check_claims in Hv. by repeat (case_match; simplify_eq). }
  unfold actorTokenRecordHash, canonicalizeTokenForHash.
  destruct header_chars as [Hh Hne]. rewrite (trim_token _ _ _ _ E Hh Hne).
  cbn [fmap list_fmap join]. rewrite decode_trim_end, <- Hsig. unfold JWT_HEADER. rewrite !decode_encode.
  unfold hashToken, sign, JWT_HEADER. by rewrite append_assoc.
Qed.

(** ** Exchange *)

Lemma parsed_parts sub s :
  parseSub sub = inr s →
  match s.(sub_principalType) with
  | actor => ∃ b, s.(sub_actorPrincipalId) = Some b ∧ no_char ":" b ∧ truthy b = true
  | local => ∃ b, s.(sub_conversationId) = Some b ∧ no_char ":" b ∧ truthy b = true
  | _ => True
  end.
Proof.
  unfold parseSub. destruct (negb (truthy sub)); [done|].
  destruct (split_char ":" sub) as [|k [|a [|b [|]]]] eqn:E; try done.
  apply split_three_inv in E as (_ & _ & _ & Hb).
  destruct (String.eqb k "actor").
  { destruct (truthy a); [|done]. destruct (truthy b) eqn:Tb; [|done]. intros [= <-]. simpl. eauto. }
  destruct (_ && _); [destruct (truthy b); [|done]; by intros [= <-]|].
  destruct (_ && _); [destruct (truthy b); [|done]; by intros [= <-]|].
  destruct (String.eqb k "local"); [|done].
  destruct (truthy a); [|done]. destruct (truthy b) eqn:Tb; [|done]. intros [= <-]. simpl. eauto.
Qed.

(** The subject the daemon reads off an exchanged token. *)
Definition daemon_subject (edgeSub : string) : Subject :=
  match parseSub edgeSub with
  | inr {| sub_principalType := actor; sub_actorPrincipalId := a |} =>
      {| sub_principalType := actor; sub_assistantId := "self";
         sub_actorPrincipalId := a; sub_conversationId := None |}
  | inr {| sub_principalType := local; sub_conversationId := c |} =>
      {| sub_principalType := local; sub_assistantId := "self";
         sub_actorPrincipalId := None; sub_conversationId := c |}
  | _ => service svc_gateway "self"
  end.

Lemma parse_toDaemonSubject edgeSub : parseSub (toDaemonSubject edgeSub) = inr (daemon_subject edgeSub).
Proof.
  unfold toDaemonSubject, daemon_subject. destruct (parseSub edgeSub) as [e|s] eqn:E; [done|].
  pose proof (parsed_parts _ _ E) as H. destruct s as [t a p c]; simpl in *. destruct t; try done.
  - destruct H as (b & -> & Hb & Tb). simpl default. unfold parseSub. simpl.
    rewrite (split_char_no_char _ b) by done. simpl. by rewrite Tb.
  - destruct H as (b & -> & Hb & Tb). simpl default. unfold parseSub. simpl.
    rewrite (split_char_no_char _ b) by done. simpl. by rewrite Tb.
Qed.

(** An exchanged token says no more than the edge token it stands for: the daemon
    reads the same actor or conversation off it, in its own scope, and a gateway
    service when the subject is a service or unreadable, for a minute; the edge
    itself refuses it. *)
Theorem exchange_keeps_principal edge profile nowMs nonce later :
  let p := daemon_params (toDaemonSubject edge.(sub)) profile in
  reads_claims (minted_claims nowMs nonce p) →
  (later / 1000 < nowMs / 1000 + 60)%Z →
  ∃ c, verifyToken hmac JSON_parse (mintExchangeToken hmac nowMs nonce edge profile)
         "vellum-daemon" false later = inr c
    ∧ parseSub c.(sub) = inr (daemon_subject edge.(sub))
    ∧ resolveScopeProfile c.(scope_profile) = PROFILE_SCOPES profile
    ∧ validateEdgeToken hmac JSON_parse (mintExchangeToken hmac nowMs nonce edge profile) true later
      = inl (audience_mismatch "vellum-gateway" "vellum-daemon").
Proof.
  intros p Hread Hl. unfold mintExchangeToken, validateEdgeToken, mintToken.
  rewrite !verify_sign by done.
  exists (minted_claims nowMs nonce p). split; [|split; [apply parse_toDaemonSubject|]].
  - unfold check_claims. simpl. unfold EXCHANGE_TOKEN_TTL_SECONDS.
    by rewrite (proj2 (Z.leb_gt _ _) Hl).
  - split; [by destruct profile|done].
Qed.
End Facts.

(** ** Witnesses *)

(** A toy MAC, and a reader that only knows one text. *)
Definition sample_hmac (s : string) : string := "mac" +:+ slice_from 40 s.

Definition reader_of (c : TokenClaims) (text : string) : option TokenClaims :=
  if String.eqb text (stringify (claims_json c)) then Some c else None.

Lemma reader_reads c : reads_claims (reader_of c) c.
Proof. unfold reads_claims, reader_of. by rewrite String.eqb_refl. Qed.

Definition sample_params : TokenParams :=
  {| tp_aud := "vellum-gateway"; tp_sub := "actor:self:p1"; tp_scope_profile := actor_client_v1;
     tp_policy_epoch := CURRENT_POLICY_EPOCH; tp_ttlSeconds := 60 |}.

Definition sample_claims : TokenClaims := minted_claims 5000 "n" sample_params.

Lemma minted_token_accepted_witness :
  verifyToken sample_hmac (reader_of sample_claims) (mintToken sample_hmac 5000 "n" sample_params)
    "vellum-gateway" false 64999 = inr sample_claims.
Proof.
  apply (minted_token_accepted sample_hmac (reader_of sample_claims) 5000 "n" sample_params);
    [reflexivity|apply reader_reads|split; reflexivity].
Defined.

(** Padding and white space after the signature. *)
Lemma respelled_token_same_record_witness :
  let raw := mintToken sample_hmac 5000 "n" sample_params +:+ "= " in
  raw ≠ sign sample_hmac sample_claims
  ∧ actorTokenRecordHash id raw = hashToken id (sign sample_hmac sample_claims).
Proof.
  split; [vm_compute; discriminate|].
  apply (respelled_token_same_record sample_hmac id (reader_of sample_claims) _ "vellum-gateway" false
           5000 sample_claims sample_claims); [apply reader_reads|vm_compute; reflexivity..].
Defined.

Definition exchanged_params : TokenParams := daemon_params "actor:self:p1" actor_client_v1.

Lemma exchange_keeps_principal_witness :
  ∃ c, verifyToken sample_hmac (reader_of (minted_claims 5000 "m" exchanged_params))
         (mintExchangeToken sample_hmac 5000 "m" sample_claims actor_client_v1)
         "vellum-daemon" false 6000 = inr c
  ∧ parseSub c.(sub) = inr (daemon_subject "actor:self:p1").
Proof.
  destruct (exchange_keeps_principal sample_hmac (reader_of (minted_claims 5000 "m" exchanged_params))
    sample_claims actor_client_v1 5000 "m" 6000) as (c & H1 & H2 & _);
    [apply reader_reads|reflexivity|].
  exists c. split; [exact H1|exact H2].
Defined.
