(* ===== verification/DeviceTokens.v ===== *)
(** The credentials of paired devices: the token tables with
    [gateway/src/auth/guardian-bootstrap.ts] (minting and revocation),
    [auth/guardian-refresh.ts] (rotation), [auth/actor-token-revocation.ts]
    (admission) and the recording of derived tokens in [http/routes/auth-token.ts].

    A table is the list of its rows, in insertion order, under the constraints of
    [db/schema.ts]. Identifiers, random bytes and the clock are arguments. *)
From S2P Require Import DedupCache.
From S2P Require Import Prelude JsString JsMap EdgeTokens.

#[local] Open Scope Z_scope.

(** ** Tables *)

Inductive ActorStatus := at_active | at_derived | at_revoked.
Inductive RefreshStatus := rf_active | rf_rotated | rf_revoked.

#[export] Instance ActorStatus_eq_dec : EqDecision ActorStatus.
Proof. solve_decision. Defined.
#[export] Instance RefreshStatus_eq_dec : EqDecision RefreshStatus.
Proof. solve_decision. Defined.

Record ActorToken := {
  at_id : string;
  at_tokenHash : string;
  at_guardianPrincipalId : string;
  at_hashedDeviceId : string;
  at_platform : string;
  at_pairingUserAgent : option string;
  at_clientReportedName : option string;
  at_status : ActorStatus;
  at_issuedAt : Z;
  at_expiresAt : option Z;
  at_lastUsedAt : option Z;
  at_createdAt : Z;
  at_updatedAt : Z
}.

Record RefreshToken := {
  rf_id : string;
  rf_tokenHash : string;
  rf_familyId : string;
  rf_guardianPrincipalId : string;
  rf_hashedDeviceId : string;
  rf_platform : string;
  rf_pairingUserAgent : option string;
  rf_clientReportedName : option string;
  rf_status : RefreshStatus;
  rf_issuedAt : Z;
  rf_absoluteExpiresAt : Z;
  rf_inactivityExpiresAt : Z;
  rf_lastUsedAt : option Z;
  rf_browserRefreshCookiePath : option string;
  rf_createdAt : Z;
  rf_updatedAt : Z
}.

Record TokenTables := {
  actorTokens : list ActorToken;
  refreshTokens : list RefreshToken
}.

Definition on_actor (ts : list ActorToken) (t : TokenTables) : TokenTables :=
  {| actorTokens := ts; refreshTokens := t.(refreshTokens) |}.
Definition on_refresh (ts : list RefreshToken) (t : TokenTables) : TokenTables :=
  {| actorTokens := t.(actorTokens); refreshTokens := ts |}.

(** [SET status = ?, updated_at = ?] *)
Definition set_at_status (s : ActorStatus) (now : Z) (r : ActorToken) : ActorToken :=
  {| at_id := r.(at_id); at_tokenHash := r.(at_tokenHash);
     at_guardianPrincipalId := r.(at_guardianPrincipalId);
     at_hashedDeviceId := r.(at_hashedDeviceId); at_platform := r.(at_platform);
     at_pairingUserAgent := r.(at_pairingUserAgent);
     at_clientReportedName := r.(at_clientReportedName); at_status := s;
     at_issuedAt := r.(at_issuedAt); at_expiresAt := r.(at_expiresAt);
     at_lastUsedAt := r.(at_lastUsedAt); at_createdAt := r.(at_createdAt); at_updatedAt := now |}.

(** [SET last_used_at = ?] *)
Definition set_at_lastUsed (v : option Z) (r : ActorToken) : ActorToken :=
  {| at_id := r.(at_id); at_tokenHash := r.(at_tokenHash);
     at_guardianPrincipalId := r.(at_guardianPrincipalId);
     at_hashedDeviceId := r.(at_hashedDeviceId); at_platform := r.(at_platform);
     at_pairingUserAgent := r.(at_pairingUserAgent);
     at_clientReportedName := r.(at_clientReportedName); at_status := r.(at_status);
     at_issuedAt := r.(at_issuedAt); at_expiresAt := r.(at_expiresAt);
     at_lastUsedAt := v; at_createdAt := r.(at_createdAt); at_updatedAt := r.(at_updatedAt) |}.

Definition set_rf_status (s : RefreshStatus) (used : bool) (now : Z) (r : RefreshToken) : RefreshToken :=
  {| rf_id := r.(rf_id); rf_tokenHash := r.(rf_tokenHash); rf_familyId := r.(rf_familyId);
     rf_guardianPrincipalId := r.(rf_guardianPrincipalId);
     rf_hashedDeviceId := r.(rf_hashedDeviceId); rf_platform := r.(rf_platform);
     rf_pairingUserAgent := r.(rf_pairingUserAgent);
     rf_clientReportedName := r.(rf_clientReportedName); rf_status := s;
     rf_issuedAt := r.(rf_issuedAt); rf_absoluteExpiresAt := r.(rf_absoluteExpiresAt);
     rf_inactivityExpiresAt := r.(rf_inactivityExpiresAt);
     rf_lastUsedAt := if used then Some now else r.(rf_lastUsedAt);
     rf_browserRefreshCookiePath := r.(rf_browserRefreshCookiePath);
     rf_createdAt := r.(rf_createdAt); rf_updatedAt := now |}.

Definition update_actor (w : ActorToken → bool) (f : ActorToken → ActorToken) (t : TokenTables)
    : TokenTables :=
  on_actor ((λ r, if w r then f r else r) <$> t.(actorTokens)) t.

Definition update_refresh (w : RefreshToken → bool) (f : RefreshToken → RefreshToken)
    (t : TokenTables) : TokenTables :=
  on_refresh ((λ r, if w r then f r else r) <$> t.(refreshTokens)) t.

Definition at_device (principal device : string) (r : ActorToken) : bool :=
  String.eqb r.(at_guardianPrincipalId) principal && String.eqb r.(at_hashedDeviceId) device.

Definition rf_device (principal device : string) (r : RefreshToken) : bool :=
  String.eqb r.(rf_guardianPrincipalId) principal && String.eqb r.(rf_hashedDeviceId) device.

Definition at_in (ss : list ActorStatus) (r : ActorToken) : bool := mem r.(at_status) ss.
Definition rf_is (s : RefreshStatus) (r : RefreshToken) : bool := bool_decide (r.(rf_status) = s).

(** The primary key, and one active row per (principal, device). [None]: the insert throws. *)
Definition insert_actor (r : ActorToken) (t : TokenTables) : option TokenTables :=
  if existsb (λ x, String.eqb x.(at_id) r.(at_id)
                   || at_in [at_active] r && at_in [at_active] x
                      && at_device r.(at_guardianPrincipalId) r.(at_hashedDeviceId) x)
       t.(actorTokens)
  then None else Some (on_actor (t.(actorTokens) ++ [r]) t).

Definition insert_refresh (r : RefreshToken) (t : TokenTables) : option TokenTables :=
  if existsb (λ x, String.eqb x.(rf_id) r.(rf_id)
                   || rf_is rf_active r && rf_is rf_active x
                      && rf_device r.(rf_guardianPrincipalId) r.(rf_hashedDeviceId) x)
       t.(refreshTokens)
  then None else Some (on_refresh (t.(refreshTokens) ++ [r]) t).

(** ** Constants *)

Definition ACCESS_TOKEN_TTL_SECONDS : Z := 30 * 24 * 60 * 60.
Definition ACCESS_TOKEN_TTL_MS : Z := ACCESS_TOKEN_TTL_SECONDS * 1000.
Definition REFRESH_ABSOLUTE_TTL_MS : Z := 365 * 24 * 60 * 60 * 1000.
Definition REFRESH_INACTIVITY_TTL_MS : Z := 90 * 24 * 60 * 60 * 1000.

(** [Math.floor(ACCESS_TOKEN_TTL_MS * REFRESH_AFTER_FRACTION)] with the fraction 0.8 *)
Definition REFRESH_AFTER_MS : Z := ACCESS_TOKEN_TTL_MS * 8 / 10.

(** ** The text a device names itself by *)

Definition MAX_PAIRING_USER_AGENT_CHARS : nat := 512.
Definition MAX_CLIENT_REPORTED_NAME_CHARS : nat := 64.

Fixpoint stripControlChars (value : string) : string :=
  match value with
  | EmptyString => ""
  | String c s =>
      let code := nat_of_ascii c in
      if ((code <=? 31) || (code =? 127))%nat then stripControlChars s
      else String c (stripControlChars s)
  end.

Definition capDeviceIdentityText (value : option string) (maxChars : nat) : option string :=
  v ← value;
  let trimmed := trim (stripControlChars v) in
  if truthy trimmed then Some (slice_to maxChars trimmed) else None.

Record DeviceIdentityInput := {
  di_pairingUserAgent : option string;
  di_clientReportedName : option string
}.

Definition capIdentity (identity : DeviceIdentityInput) : DeviceIdentityInput :=
  {| di_pairingUserAgent :=
       capDeviceIdentityText identity.(di_pairingUserAgent) MAX_PAIRING_USER_AGENT_CHARS;
     di_clientReportedName :=
       capDeviceIdentityText identity.(di_clientReportedName) MAX_CLIENT_REPORTED_NAME_CHARS |}.

(** ** Revocation *)

Section Tables.
Context (now : Z).

Definition clearDeviceActivityStamp (principal device : string) (t : TokenTables) : TokenTables :=
  update_actor (at_device principal device) (set_at_lastUsed None) t.

Definition revokeActorTokensByDevice (principal device : string) (t : TokenTables) : TokenTables :=
  clearDeviceActivityStamp principal device
    (update_actor (λ r, at_device principal device r && at_in [at_active; at_derived] r)
       (set_at_status at_revoked now) t).

Definition revokeRefreshTokensByDevice (principal device : string) (t : TokenTables) : TokenTables :=
  update_refresh (λ r, rf_device principal device r && rf_is rf_active r)
    (set_rf_status rf_revoked false now) t.

Definition findRefreshByHash (tokenHash : string) (t : TokenTables) : option RefreshToken :=
  find_first (λ r, String.eqb r.(rf_tokenHash) tokenHash) t.(refreshTokens).

Definition markRotated (tokenHash : string) (t : TokenTables) : bool * TokenTables :=
  let w r := String.eqb r.(rf_tokenHash) tokenHash && rf_is rf_active r in
  (existsb w t.(refreshTokens), update_refresh w (set_rf_status rf_rotated true now) t).

Definition revokeFamily (familyId : string) (t : TokenTables) : TokenTables :=
  update_refresh (λ r, String.eqb r.(rf_familyId) familyId) (set_rf_status rf_revoked false now) t.

Definition revokeActiveActorTokensByDevice (principal device : string) (t : TokenTables)
    : TokenTables :=
  update_actor (λ r, at_device principal device r && at_in [at_active] r)
    (set_at_status at_revoked now) t.

Definition revokeAllActorTokensByDevice (principal device : string) (t : TokenTables) : TokenTables :=
  clearDeviceActivityStamp principal device
    (update_actor (λ r, at_device principal device r && at_in [at_active; at_derived] r)
       (set_at_status at_revoked now) t).

(** [ORDER BY issued_at DESC LIMIT 1] *)
Definition latest {A} (issuedAt : A → Z) (xs : list A) : option A :=
  foldl (λ best x, match best with
                   | Some b => if issuedAt b <? issuedAt x then Some x else best
                   | None => Some x
                   end) None xs.

Definition nonempty (s : option string) : option string :=
  v ← s; if truthy v then Some v else None.

Definition recoverGuardianPrincipalFromActorTokens (t : TokenTables) : option string :=
  match nonempty (at_guardianPrincipalId
          <$> latest at_issuedAt (List.filter (at_in [at_active]) t.(actorTokens))) with
  | Some p => Some p
  | None => rf_guardianPrincipalId
              <$> latest rf_issuedAt (List.filter (rf_is rf_active) t.(refreshTokens))
  end.

(** ** Minting *)

(** What a mint takes from outside: row identifiers, the token's nonce and the random
    bytes of the refresh token, its family and the browser's binding. *)
Record MintSource := {
  ms_accessId : string;
  ms_nonce : string;
  ms_refreshId : string;
  ms_refreshToken : string;
  ms_familyId : string;
  ms_internalBinding : string
}.

Context (hmac sha256 : string → string) (assistantId : string).

Definition access_token (principal nonce : string) (ttlSeconds : Z) : string :=
  mintToken hmac now nonce
    {| tp_aud := "vellum-gateway"; tp_sub := "actor:" +:+ assistantId +:+ ":" +:+ principal;
       tp_scope_profile := actor_client_v1; tp_policy_epoch := CURRENT_POLICY_EPOCH;
       tp_ttlSeconds := ttlSeconds |}.

Definition access_row (id tokenHash principal device platform : string)
    (identity : DeviceIdentityInput) (status : ActorStatus) (expiresAt : Z) : ActorToken :=
  {| at_id := id; at_tokenHash := tokenHash; at_guardianPrincipalId := principal;
     at_hashedDeviceId := device; at_platform := platform;
     at_pairingUserAgent := identity.(di_pairingUserAgent);
     at_clientReportedName := identity.(di_clientReportedName); at_status := status;
     at_issuedAt := now; at_expiresAt := Some expiresAt; at_lastUsedAt := None;
     at_createdAt := now; at_updatedAt := now |}.

(** The access token with its expiry; [None]: the insert throws. *)
Definition mintAccessToken (src : MintSource) (principal device platform : string)
    (ttlSeconds : Z) (identity : DeviceIdentityInput) (t : TokenTables)
    : option (string * Z) * TokenTables :=
  let token := access_token principal src.(ms_nonce) ttlSeconds in
  let expiresAt := now + ttlSeconds * 1000 in
  match insert_actor (access_row src.(ms_accessId) (hashToken sha256 token) principal device
                        platform (capIdentity identity) at_active expiresAt) t with
  | Some t => (Some (token, expiresAt), t)
  | None => (None, t)
  end.

Definition refresh_row (src : MintSource) (family principal device platform : string)
    (identity : DeviceIdentityInput) (absolute : Z) (cookiePath : option string) : RefreshToken :=
  {| rf_id := src.(ms_refreshId); rf_tokenHash := hashToken sha256 src.(ms_refreshToken);
     rf_familyId := family; rf_guardianPrincipalId := principal; rf_hashedDeviceId := device;
     rf_platform := platform; rf_pairingUserAgent := identity.(di_pairingUserAgent);
     rf_clientReportedName := identity.(di_clientReportedName); rf_status := rf_active;
     rf_issuedAt := now; rf_absoluteExpiresAt := absolute;
     rf_inactivityExpiresAt := now + REFRESH_INACTIVITY_TTL_MS; rf_lastUsedAt := None;
     rf_browserRefreshCookiePath := cookiePath; rf_createdAt := now; rf_updatedAt := now |}.

Record TokenPair := {
  pair_principal : string;
  pair_accessToken : string;
  pair_accessTokenExpiresAt : Z;
  pair_refreshToken : string;
  pair_refreshTokenExpiresAt : Z;
  pair_refreshAfter : Z;
  pair_cookiePath : option string
}.

Definition token_pair (src : MintSource) (principal : string) (access : string * Z)
    (absolute : Z) (cookiePath : option string) : TokenPair :=
  {| pair_principal := principal; pair_accessToken := access.1;
     pair_accessTokenExpiresAt := access.2; pair_refreshToken := src.(ms_refreshToken);
     pair_refreshTokenExpiresAt := Z.min absolute (now + REFRESH_INACTIVITY_TTL_MS);
     pair_refreshAfter := now + REFRESH_AFTER_MS; pair_cookiePath := cookiePath |}.

Definition mintRefreshToken (src : MintSource) (principal device platform : string)
    (cookiePath : option string) (identity : DeviceIdentityInput) (t : TokenTables)
    : option TokenTables :=
  insert_refresh (refresh_row src src.(ms_familyId) principal device platform
                    (capIdentity identity) (now + REFRESH_ABSOLUTE_TTL_MS) cookiePath) t.

(** The access token, then the refresh token. A throw keeps what was written before. *)
Definition mint_pair (src : MintSource) (principal device platform : string)
    (cookiePath : option string) (identity : DeviceIdentityInput) (t : TokenTables)
    : option TokenPair * TokenTables :=
  match mintAccessToken src principal device platform ACCESS_TOKEN_TTL_SECONDS identity t with
  | (None, t) => (None, t)
  | (Some access, t) =>
      match mintRefreshToken src principal device platform cookiePath identity t with
      | None => (None, t)
      | Some t =>
          (Some (token_pair src principal access (now + REFRESH_ABSOLUTE_TTL_MS) cookiePath), t)
      end
  end.

Definition hashDeviceId (deviceId : string) : string := hashToken sha256 (trim deviceId).

Definition mintAndRecordDeviceBoundTokenPair (src : MintSource)
    (principal deviceId platform : string) (identity : DeviceIdentityInput) (t : TokenTables)
    : option TokenPair * TokenTables :=
  if negb (truthy (trim deviceId)) then (None, t)
  else
    let device := hashDeviceId deviceId in
    mint_pair src principal device platform None identity
      (revokeRefreshTokensByDevice principal device (revokeActorTokensByDevice principal device t)).

Definition mintAndRecordBrowserTokenPair (src : MintSource) (principal platform cookiePath : string)
    (identity : DeviceIdentityInput) (t : TokenTables) : option TokenPair * TokenTables :=
  mint_pair src principal (hashToken sha256 src.(ms_internalBinding)) platform (Some cookiePath)
    identity t.

(** ** Rotation *)

Inductive RefreshErrorCode :=
  | refresh_invalid | refresh_expired | refresh_reuse_detected | device_binding_mismatch
  | refresh_revoked | guardian_repair_required.

Inductive RotateOutcome :=
  | rotated (pair : TokenPair)
  | refused (code : RefreshErrorCode)
  | rotate_throws.

(** The inserts of a rotation take the identity and the expiry of the old row. *)
Definition rotated_access (src : MintSource) (record : RefreshToken) (t : TokenTables)
    : option (string * Z * TokenTables) :=
  let token := access_token record.(rf_guardianPrincipalId) src.(ms_nonce) ACCESS_TOKEN_TTL_SECONDS in
  let expiresAt := now + ACCESS_TOKEN_TTL_MS in
  let identity := {| di_pairingUserAgent := record.(rf_pairingUserAgent);
                     di_clientReportedName := record.(rf_clientReportedName) |} in
  t ← insert_actor (access_row src.(ms_accessId) (hashToken sha256 token)
                      record.(rf_guardianPrincipalId) record.(rf_hashedDeviceId)
                      record.(rf_platform) identity at_active expiresAt) t;
  Some (token, expiresAt, t).

Definition mintRefreshTokenInFamily (src : MintSource) (record : RefreshToken) (t : TokenTables)
    : option TokenTables :=
  insert_refresh
    (refresh_row src record.(rf_familyId) record.(rf_guardianPrincipalId)
       record.(rf_hashedDeviceId) record.(rf_platform)
       {| di_pairingUserAgent := record.(rf_pairingUserAgent);
          di_clientReportedName := record.(rf_clientReportedName) |}
       record.(rf_absoluteExpiresAt) record.(rf_browserRefreshCookiePath)) t.

(** The transaction; a throw rolls it back. *)
Definition rotate_txn (src : MintSource) (refreshTokenHash : string) (record : RefreshToken)
    (t : TokenTables) : RotateOutcome * TokenTables :=
  let '(didRotate, t1) := markRotated refreshTokenHash t in
  if negb didRotate then (refused refresh_reuse_detected, t1)
  else
    let t2 := revokeActiveActorTokensByDevice record.(rf_guardianPrincipalId)
                record.(rf_hashedDeviceId) t1 in
    match rotated_access src record t2 with
    | None => (rotate_throws, t)
    | Some (token, expiresAt, t3) =>
        match mintRefreshTokenInFamily src record t3 with
        | None => (rotate_throws, t)
        | Some t4 =>
            (rotated (token_pair src record.(rf_guardianPrincipalId) (token, expiresAt)
                        record.(rf_absoluteExpiresAt) record.(rf_browserRefreshCookiePath)), t4)
        end
    end.

(** [missing]: what the integrity check answers; a check that throws counts as healthy. *)
Definition rotateRefreshTokenRecord (src : MintSource) (missing : bool) (refreshTokenHash : string)
    (record : RefreshToken) (t : TokenTables) : RotateOutcome * TokenTables :=
  match record.(rf_status) with
  | rf_rotated =>
      (refused refresh_reuse_detected,
       revokeAllActorTokensByDevice record.(rf_guardianPrincipalId) record.(rf_hashedDeviceId)
         (revokeFamily record.(rf_familyId) t))
  | rf_revoked => (refused refresh_revoked, t)
  | rf_active =>
      if record.(rf_absoluteExpiresAt) <? now then (refused refresh_expired, t)
      else if record.(rf_inactivityExpiresAt) <? now then (refused refresh_expired, t)
      else if missing then (refused guardian_repair_required, t)
      else rotate_txn src refreshTokenHash record t
  end.

Definition rotateCredentials (src : MintSource) (missing : bool) (refreshToken device : string)
    (t : TokenTables) : RotateOutcome * TokenTables :=
  let h := hashToken sha256 refreshToken in
  match findRefreshByHash h t with
  | None => (refused refresh_invalid, t)
  | Some record =>
      if negb (String.eqb record.(rf_hashedDeviceId) device)
      then (refused device_binding_mismatch, t)
      else rotateRefreshTokenRecord src missing h record t
  end.

Definition rotateBrowserCredentialsByRefreshToken (src : MintSource) (missing : bool)
    (refreshToken : string) (t : TokenTables) : RotateOutcome * TokenTables :=
  let h := hashToken sha256 refreshToken in
  match findRefreshByHash h t with
  | None => (refused refresh_invalid, t)
  | Some record =>
      if truthy (default "" record.(rf_browserRefreshCookiePath))
      then rotateRefreshTokenRecord src missing h record t
      else (refused refresh_invalid, t)
  end.

(** ** Admission *)

Definition STAMP_DEBOUNCE_MS : Z := 5 * 60 * 1000.
Definition MAX_TRACKED_TOKENS : Z := 5000.

Record TokenState := {
  tables : TokenTables;
  stampDebounce : DedupCache.StringDedupCache
}.

Definition findActorByHash (tokenHash : string) (t : TokenTables) : option ActorToken :=
  find_first (λ r, String.eqb r.(at_tokenHash) tokenHash) t.(actorTokens).

Definition stamp_device (r : ActorToken) (t : TokenTables) : TokenTables :=
  update_actor (λ x, at_device r.(at_guardianPrincipalId) r.(at_hashedDeviceId) x
                     && at_in [at_active] x) (set_at_lastUsed (Some now)) t.

Definition admitActorToken (rawToken : string) (claims : TokenClaims) (st : TokenState)
    : bool * TokenState :=
  let pass :=
    let tokenHash := actorTokenRecordHash sha256 rawToken in
    let record := findActorByHash tokenHash st.(tables) in
    if bool_decide (at_status <$> record = Some at_revoked) then (false, st)
    else
      let '(debounce, known) := DedupCache.has tokenHash now st.(stampDebounce) in
      if known : bool then (true, {| tables := st.(tables); stampDebounce := debounce |})
      else
        (true, {| tables := match record with
                            | Some r => stamp_device r st.(tables)
                            | None => st.(tables)
                            end;
                  stampDebounce := DedupCache.mark tokenHash now debounce |}) in
  match parseSub claims.(sub) with
  | inl _ => (true, st)
  | inr s => if bool_decide (s.(sub_principalType) = actor) then pass else (true, st)
  end.

(** ** Derived tokens *)

Definition TOKEN_TTL_SECONDS : Z := 30 * 24 * 60 * 60.

Definition findSourceActorTokenRecord (sourceToken : string) (t : TokenTables) : option ActorToken :=
  findActorByHash (actorTokenRecordHash sha256 sourceToken) t.

(** Best-effort: a throwing insert is logged. *)
Definition recordDerivedActorToken (rowId : string) (source : option ActorToken)
    (derivedToken : string) (t : TokenTables) : TokenTables :=
  match source with
  | None => t
  | Some s =>
      default t
        (insert_actor
           (access_row rowId (actorTokenRecordHash sha256 derivedToken)
              s.(at_guardianPrincipalId) s.(at_hashedDeviceId) s.(at_platform)
              {| di_pairingUserAgent := s.(at_pairingUserAgent);
                 di_clientReportedName := s.(at_clientReportedName) |}
              at_derived (now + TOKEN_TTL_SECONDS * 1000)) t)
  end.

Definition derived_token (principal nonce : string) : string :=
  mintToken hmac now nonce
    {| tp_aud := "vellum-gateway"; tp_sub := "actor:self:" +:+ principal;
       tp_scope_profile := actor_client_v1; tp_policy_epoch := CURRENT_POLICY_EPOCH;
       tp_ttlSeconds := TOKEN_TTL_SECONDS |}.
End Tables.

(** ** Runs *)

Inductive TokenCall :=
  | PairDevice (src : MintSource) (principal deviceId platform : string)
      (identity : DeviceIdentityInput) (now : Z)
  | PairBrowser (src : MintSource) (principal platform cookiePath : string)
      (identity : DeviceIdentityInput) (now : Z)
  | Rotate (src : MintSource) (missing : bool) (refreshToken device : string) (now : Z)
  | RotateBrowser (src : MintSource) (missing : bool) (refreshToken : string) (now : Z)
  | Derive (rowId sourceToken derivedToken : string) (now : Z)
  | RevokeDevice (principal device : string) (now : Z)
  | Admit (rawToken : string) (claims : TokenClaims) (now : Z).

Definition on_tables (t : TokenTables) (st : TokenState) : TokenState :=
  {| tables := t; stampDebounce := st.(stampDebounce) |}.

Section Runs.
Context (hmac sha256 : string → string) (assistantId : string).

Definition token_step (st : TokenState) (call : TokenCall) : TokenState :=
  let t := st.(tables) in
  match call with
  | PairDevice src principal deviceId platform identity now =>
      on_tables (mintAndRecordDeviceBoundTokenPair now hmac sha256 assistantId src principal
                   deviceId platform identity t).2 st
  | PairBrowser src principal platform cookiePath identity now =>
      on_tables (mintAndRecordBrowserTokenPair now hmac sha256 assistantId src principal platform
                   cookiePath identity t).2 st
  | Rotate src missing refreshToken device now =>
      on_tables (rotateCredentials now hmac sha256 assistantId src missing refreshToken device t).2 st
  | RotateBrowser src missing refreshToken now =>
      on_tables (rotateBrowserCredentialsByRefreshToken now hmac sha256 assistantId src missing
                   refreshToken t).2 st
  | Derive rowId sourceToken derivedToken now =>
      on_tables (recordDerivedActorToken now sha256 rowId
                   (findSourceActorTokenRecord sha256 sourceToken t) derivedToken t) st
  | RevokeDevice principal device now =>
      on_tables (revokeRefreshTokensByDevice now principal device
                   (revokeActorTokensByDevice now principal device t)) st
  | Admit rawToken claims now => (admitActorToken now sha256 rawToken claims st).2
  end.
End Runs.

(** ** Rows only move towards revocation *)

Record at_le (r r' : ActorToken) : Prop := {
  ale_id : r'.(at_id) = r.(at_id);
  ale_hash : r'.(at_tokenHash) = r.(at_tokenHash);
  ale_principal : r'.(at_guardianPrincipalId) = r.(at_guardianPrincipalId);
  ale_device : r'.(at_hashedDeviceId) = r.(at_hashedDeviceId);
  ale_status : r'.(at_status) = r.(at_status) ∨ r'.(at_status) = at_revoked
}.

Record rf_le (r r' : RefreshToken) : Prop := {
  rle_id : r'.(rf_id) = r.(rf_id);
  rle_hash : r'.(rf_tokenHash) = r.(rf_tokenHash);
  rle_family : r'.(rf_familyId) = r.(rf_familyId);
  rle_principal : r'.(rf_guardianPrincipalId) = r.(rf_guardianPrincipalId);
  rle_device : r'.(rf_hashedDeviceId) = r.(rf_hashedDeviceId);
  rle_issued : r'.(rf_issuedAt) = r.(rf_issuedAt);
  rle_absolute : r'.(rf_absoluteExpiresAt) = r.(rf_absoluteExpiresAt);
  rle_status : r'.(rf_status) = r.(rf_status)
               ∨ r'.(rf_status) = rf_revoked
               ∨ r.(rf_status) = rf_active ∧ r'.(rf_status) = rf_rotated
}.

#[export] Instance at_le_preorder : PreOrder at_le.
Proof.
  split; [by intros r; constructor; auto|].
  intros r1 r2 r3 [????[H|H]] [????[H'|H']]; constructor; try congruence; auto.
  - left. congruence.
  - right. congruence.
Qed.

#[export] Instance rf_le_preorder : PreOrder rf_le.
Proof.
  split; [by intros r; constructor; auto|].
  intros r1 r2 r3 [?????? ? H] [?????? ? H']; constructor; try congruence.
  destruct H' as [H'|[H'|[H1 H2]]]; [|by auto|].
  - rewrite H'. done.
  - right. right. destruct H as [H|[H|[? H]]]; split; congruence.
Qed.

(** The rows of a table live on, in place, in a later one. *)
Definition extends {A} (le : A → A → Prop) (xs ys : list A) : Prop :=
  ∃ old new, ys = old ++ new ∧ Forall2 le xs old.

#[export] Instance extends_preorder {A} (le : A → A → Prop) `{!PreOrder le} : PreOrder (extends le).
Proof.
  split.
  - intros xs. exists xs, []. split; [by rewrite app_nil_r|]. by apply Forall_Forall2_diag, Forall_forall.
  - intros xs ys zs (o1 & n1 & -> & H1) (o2 & n2 & -> & H2).
    apply Forall2_app_inv_l in H2 as (o & n & Ho & Hn & ->).
    exists o, (n ++ n2). split; [by rewrite app_assoc|]. by etrans.
Qed.

Record evolves (t t' : TokenTables) : Prop := {
  ev_actor : extends at_le t.(actorTokens) t'.(actorTokens);
  ev_refresh : extends rf_le t.(refreshTokens) t'.(refreshTokens)
}.

#[export] Instance evolves_preorder : PreOrder evolves.
Proof.
  split; [by intros t; split|]. intros t1 t2 t3 [A1 R1] [A2 R2]. split; by etrans.
Qed.

Lemma extends_snoc {A} (le : A → A → Prop) `{!PreOrder le} xs x : extends le xs (xs ++ [x]).
Proof. by exists xs, [x]. Qed.

(** No row is new. *)
Record shrinks (t t' : TokenTables) : Prop := {
  sh_actor : Forall2 at_le t.(actorTokens) t'.(actorTokens);
  sh_refresh : Forall2 rf_le t.(refreshTokens) t'.(refreshTokens)
}.

#[export] Instance shrinks_preorder : PreOrder shrinks.
Proof.
  split; [intros t; split; by apply Forall_Forall2_diag, Forall_forall|].
  intros t1 t2 t3 [A1 R1] [A2 R2]. split; by etrans.
Qed.

Lemma shrinks_evolves t t' : shrinks t t' → evolves t t'.
Proof.
  intros [HA HR]. split; eexists _, []; (split; [by rewrite app_nil_r|done]).
Qed.

Lemma Forall2_map_where {A} (le : A → A → Prop) (w : A → bool) f xs `{!PreOrder le} :
  (∀ x, w x = true → le x (f x)) → Forall2 le xs ((λ x, if w x then f x else x) <$> xs).
Proof.
  intros H. apply Forall2_fmap_r, Forall_Forall2_diag, Forall_forall.
  intros x _. simpl. destruct (w x) eqn:E; [by apply H|done].
Qed.

Lemma shrinks_update_actor w f t :
  (∀ r, w r = true → at_le r (f r)) → shrinks t (update_actor w f t).
Proof.
  intros H. split; [by apply Forall2_map_where; [apply _|]|].
  by apply Forall_Forall2_diag, Forall_forall.
Qed.

Lemma shrinks_update_refresh w f t :
  (∀ r, w r = true → rf_le r (f r)) → shrinks t (update_refresh w f t).
Proof.
  intros H. split; [by apply Forall_Forall2_diag, Forall_forall|].
  by apply Forall2_map_where; [apply _|].
Qed.

Lemma evolves_insert_actor r t t' : insert_actor r t = Some t' → evolves t t'.
Proof. unfold insert_actor. case_match; [done|]. intros [= <-]. split; [apply extends_snoc, _|done]. Qed.

Lemma evolves_insert_refresh r t t' : insert_refresh r t = Some t' → evolves t t'.
Proof. unfold insert_refresh. case_match; [done|]. intros [= <-]. split; [done|apply extends_snoc, _]. Qed.

Lemma le_lastUsed v r : at_le r (set_at_lastUsed v r).
Proof. constructor; auto. Qed.

Lemma le_revoked now r : at_le r (set_at_status at_revoked now r).
Proof. constructor; auto. Qed.

Lemma le_rf_revoked b now r : rf_le r (set_rf_status rf_revoked b now r).
Proof. constructor; auto. Qed.

Lemma le_rf_rotated b now r : rf_is rf_active r = true → rf_le r (set_rf_status rf_rotated b now r).
Proof. intros H%bool_decide_eq_true. constructor; simpl; auto. Qed.

Lemma shrinks_rotated h now t : shrinks t (markRotated now h t).2.
Proof.
  apply shrinks_update_refresh. intros r [_ Hr]%andb_prop. by apply le_rf_rotated.
Qed.

Lemma shrinks_revoke_family f now t : shrinks t (revokeFamily now f t).
Proof. apply shrinks_update_refresh. intros. apply le_rf_revoked. Qed.

Lemma shrinks_clear p d t : shrinks t (clearDeviceActivityStamp p d t).
Proof. apply shrinks_update_actor. intros. apply le_lastUsed. Qed.

Lemma shrinks_revoke_where w now t : shrinks t (update_actor w (set_at_status at_revoked now) t).
Proof. apply shrinks_update_actor. intros. apply le_revoked. Qed.

Lemma shrinks_revoke_all p d now t : shrinks t (revokeActorTokensByDevice now p d t).
Proof. etrans; [apply shrinks_revoke_where|apply shrinks_clear]. Qed.

Lemma shrinks_end_pairing now p d t :
  shrinks t (revokeRefreshTokensByDevice now p d (revokeActorTokensByDevice now p d t)).
Proof.
  etrans; [apply shrinks_revoke_all|]. apply shrinks_update_refresh. intros. apply le_rf_revoked.
Qed.

Lemma shrinks_stamp now r t : shrinks t (stamp_device now r t).
Proof. apply shrinks_update_actor. intros. apply le_lastUsed. Qed.

Lemma shrinks_replay now p d f t :
  shrinks t (revokeAllActorTokensByDevice now p d (revokeFamily now f t)).
Proof. etrans; [apply shrinks_revoke_family|apply shrinks_revoke_all]. Qed.

Section Evolution.
Context (hmac sha256 : string → string) (assistantId : string).

Lemma evolves_mint_pair now src p d platform path identity t :
  evolves t (mint_pair now hmac sha256 assistantId src p d platform path identity t).2.
Proof.
  unfold mint_pair, mintAccessToken, mintRefreshToken.
  destruct (insert_actor _ t) as [t1|] eqn:E1; [|done]. simpl.
  destruct (insert_refresh _ t1) as [t2|] eqn:E2; simpl;
    [etrans; [by eapply evolves_insert_actor|by eapply evolves_insert_refresh]
    |by eapply evolves_insert_actor].
Qed.

Lemma evolves_rotate now src missing h record t :
  evolves t (rotateRefreshTokenRecord now hmac sha256 assistantId src missing h record t).2.
Proof.
  unfold rotateRefreshTokenRecord. destruct (rf_status record); [|simpl|done].
  - repeat (case_match; [done|]). unfold rotate_txn.
    pose proof (shrinks_evolves _ _ (shrinks_rotated h now t)) as Ht. destruct (markRotated now h t) as [b t1]. simpl in Ht.
    destruct (negb b); [done|]. unfold rotated_access, mintRefreshTokenInFamily.
    destruct (insert_actor _ _) as [t3|] eqn:E3; [|done]. simpl.
    destruct (insert_refresh _ t3) as [t4|] eqn:E4; [|done]. simpl.
    etrans; [|by eapply evolves_insert_refresh]. etrans; [|by eapply evolves_insert_actor].
    etrans; [exact Ht|apply shrinks_evolves, shrinks_revoke_where].
  - apply shrinks_evolves, shrinks_replay.
Qed.

Lemma evolves_step st call :
  evolves st.(tables) (token_step hmac sha256 assistantId st call).(tables).
Proof.
  destruct call as [src p d pl i now|src p pl c i now|src m tok d now|src m tok now
    |rowId srcTok der now|p d now|raw claims now]; simpl.
  - unfold mintAndRecordDeviceBoundTokenPair. destruct (negb _); [done|].
    etrans; [|apply evolves_mint_pair]. apply shrinks_evolves, shrinks_end_pairing.
  - apply evolves_mint_pair.
  - unfold rotateCredentials. destruct (findRefreshByHash _ _); [|done].
    destruct (negb _); [done|apply evolves_rotate].
  - unfold rotateBrowserCredentialsByRefreshToken. destruct (findRefreshByHash _ _); [|done].
    destruct (truthy _); [apply evolves_rotate|done].
  - unfold recordDerivedActorToken. destruct (findSourceActorTokenRecord _ _ _); [|done].
    destruct (insert_actor _ _) eqn:E; [by eapply evolves_insert_actor|done].
  - apply shrinks_evolves, shrinks_end_pairing.
  - unfold admitActorToken. destruct (parseSub _) as [|s]; [done|].
    destruct (bool_decide (sub_principalType s = actor)); [|done].
    destruct (bool_decide _); [done|]. destruct (has _ _ _) as [de []]; [done|]. simpl.
    destruct (findActorByHash _ _); [|done]. apply shrinks_evolves, shrinks_stamp.
Qed.

Lemma evolves_steps calls st :
  evolves st.(tables) (foldl (token_step hmac sha256 assistantId) st calls).(tables).
Proof.
  revert st. induction calls as [|call calls IH]; intros st; [done|].
  etrans; [apply (evolves_step st call)|apply IH].
Qed.
End Evolution.

Lemma extends_find {A} (le : A → A → Prop) (w : A → bool) xs ys x :
  (∀ a b, le a b → w b = w a) → extends le xs ys → find_first w xs = Some x →
  ∃ y, find_first w ys = Some y ∧ le x y.
Proof.
  intros Hw (old & new & -> & H) Hf. induction H as [|a b xs old Hab H IH]; [done|]. simpl in *.
  rewrite (Hw a b Hab). destruct (w a); [|by apply IH]. injection Hf as ->. eauto.
Qed.

Lemma evolves_find_actor t t' h r :
  evolves t t' → findActorByHash h t = Some r → ∃ r', findActorByHash h t' = Some r' ∧ at_le r r'.
Proof.
  intros [He _]. apply extends_find; [|done]. intros a b []. congruence.
Qed.

Lemma evolves_find_refresh t t' h r :
  evolves t t' → findRefreshByHash h t = Some r → ∃ r', findRefreshByHash h t' = Some r' ∧ rf_le r r'.
Proof.
  intros [_ He]. apply extends_find; [|done]. intros a b []. congruence.
Qed.

(** ** Spent and ended credentials *)

Definition is_refused (o : RotateOutcome) : Prop := ∃ code, o = refused code.

Lemma find_first_fmap_where {A} (p w : A → bool) (f : A → A) xs x :
  (∀ a, p (f a) = p a) → find_first p xs = Some x →
  find_first p ((λ a, if w a then f a else a) <$> xs) = Some (if w x then f x else x).
Proof.
  intros Hp. induction xs as [|a xs IH]; [done|]. simpl.
  assert (p (if w a then f a else a) = p a) as -> by by destruct (w a).
  destruct (p a); [|done]. by intros [= <-].
Qed.

Lemma revoke_all_status now p d t h r :
  findActorByHash h t = Some r → at_device p d r = true →
  ∃ r', findActorByHash h (revokeActorTokensByDevice now p d t) = Some r'
        ∧ r'.(at_status) = at_revoked.
Proof.
  intros Hf Hd. unfold revokeActorTokensByDevice, clearDeviceActivityStamp, findActorByHash. simpl.
  erewrite (find_first_fmap_where _ (at_device p d)); [|done|by erewrite find_first_fmap_where].
  eexists. split; [done|]. rewrite Hd. simpl.
  assert (at_in [at_active; at_derived] r = true ∨ r.(at_status) = at_revoked) as [Hi|Hi].
  { unfold at_in. rewrite mem_true. destruct (at_status r); set_solver. }
  - rewrite Hi. change (at_device p d (set_at_status at_revoked now r)) with (at_device p d r).
    by rewrite Hd.
  - destruct (at_in _ r); case_match; done.
Qed.

Lemma elem_update_actor w f t r :
  r ∈ (update_actor w f t).(actorTokens) ↔
  ∃ x, x ∈ t.(actorTokens) ∧ r = if w x then f x else x.
Proof. simpl. rewrite list_elem_of_fmap. naive_solver. Qed.

Lemma revoked_rows now p d t r :
  r ∈ (revokeActorTokensByDevice now p d t).(actorTokens) → at_device p d r = true →
  r.(at_status) = at_revoked.
Proof.
  intros (x & (y & Hy & ->)%elem_update_actor & ->)%elem_update_actor Hd.
  assert (at_device p d y = true) as Hy'.
  { revert Hd. unfold at_device. by repeat case_match. }
  assert (∀ b : bool, at_status (if b then set_at_lastUsed None
    (if at_device p d y && at_in [at_active; at_derived] y then set_at_status at_revoked now y else y)
    else if at_device p d y && at_in [at_active; at_derived] y then set_at_status at_revoked now y else y)
    = at_revoked) as H; [|apply H].
  rewrite Hy'. simpl. unfold at_in. intros b.
  destruct (mem (at_status y) [at_active; at_derived]) eqn:Hi; [by destruct b|].
  apply mem_false in Hi. destruct b, (at_status y) eqn:E; simpl; rewrite ?E; try done.
  all: exfalso; apply Hi; rewrite !elem_of_cons; auto.
Qed.

Section Ended.
Context (hmac sha256 : string → string) (assistantId : string).

(** Neither way of refreshing gets anything out of the token. *)
Definition never_rotates (refreshToken : string) (t : TokenTables) : Prop :=
  ∀ now src missing device,
    is_refused (rotateCredentials now hmac sha256 assistantId src missing refreshToken device t).1
    ∧ is_refused (rotateBrowserCredentialsByRefreshToken now hmac sha256 assistantId src missing
                    refreshToken t).1.

Lemma spent_never_rotates refreshToken t r :
  findRefreshByHash (hashToken sha256 refreshToken) t = Some r → r.(rf_status) ≠ rf_active →
  never_rotates refreshToken t.
Proof.
  intros Hf Hr now src missing device. unfold rotateCredentials, rotateBrowserCredentialsByRefreshToken.
  rewrite Hf. unfold rotateRefreshTokenRecord.
  split; [destruct (negb _)|destruct (truthy _)]; try (by eexists).
  all: destruct (rf_status r); [done|by eexists..].
Qed.

(** What an unspent token becomes. *)
Lemma spent_stays refreshToken t t' r :
  evolves t t' → findRefreshByHash (hashToken sha256 refreshToken) t = Some r →
  r.(rf_status) ≠ rf_active → never_rotates refreshToken t'.
Proof.
  intros He Hf Hr. destruct (evolves_find_refresh _ _ _ _ He Hf) as (r' & Hf' & Hle).
  eapply spent_never_rotates; [exact Hf'|]. destruct (rle_status _ _ Hle) as [->|[->|[? ->]]]; done.
Qed.

Lemma rotate_txn_spends now src h record t pair t' :
  rotate_txn now hmac sha256 assistantId src h record t = (rotated pair, t') →
  findRefreshByHash h t = Some record →
  ∃ r, findRefreshByHash h t' = Some r ∧ r.(rf_status) ≠ rf_active.
Proof.
  unfold rotate_txn. destruct (markRotated now h t) as [b t1] eqn:Em. destruct b; [|done]. simpl.
  unfold rotated_access, mintRefreshTokenInFamily. intros H Hf.
  destruct (insert_actor _ _) as [t3|] eqn:E3; [|done]. simpl in H.
  destruct (insert_refresh _ t3) as [t4|] eqn:E4; [|done]. injection H as <- <-.
  assert (evolves t1 t4) as He.
  { etrans; [apply shrinks_evolves, shrinks_revoke_where|].
    etrans; [by eapply evolves_insert_actor|by eapply evolves_insert_refresh]. }
  unfold markRotated in Em. injection Em as _ <-.
  assert (∃ r, findRefreshByHash h (update_refresh
      (λ r, String.eqb (rf_tokenHash r) h && rf_is rf_active r) (set_rf_status rf_rotated true now) t)
      = Some r ∧ r.(rf_status) ≠ rf_active) as (r & Hr & Hs).
  { unfold findRefreshByHash in *. simpl. erewrite find_first_fmap_where by done. eexists. split; [done|].
    apply find_first_Some in Hf as [_ ->]. simpl. unfold rf_is. by case_bool_decide. }
  destruct (evolves_find_refresh _ _ _ _ He Hr) as (r' & Hf' & Hle). exists r'. split; [done|].
  destruct (rle_status _ _ Hle) as [->|[->|[? ->]]]; done.
Qed.

(** A refresh token is good for one rotation: once one went through, no later one
    with the same token does, by either route and whatever calls come between. *)
Theorem refresh_token_spent_once now src missing refreshToken device st pair t' calls :
  rotateCredentials now hmac sha256 assistantId src missing refreshToken device st.(tables)
    = (rotated pair, t')
  ∨ rotateBrowserCredentialsByRefreshToken now hmac sha256 assistantId src missing refreshToken
      st.(tables) = (rotated pair, t') →
  never_rotates refreshToken
    (foldl (token_step hmac sha256 assistantId) (on_tables t' st) calls).(tables).
Proof.
  intros H. set (h := hashToken sha256 refreshToken).
  assert (∃ record, findRefreshByHash h st.(tables) = Some record
    ∧ rotateRefreshTokenRecord now hmac sha256 assistantId src missing h record st.(tables)
      = (rotated pair, t')) as (record & Hf & Hr).
  { unfold rotateCredentials, rotateBrowserCredentialsByRefreshToken in H. fold h in H.
    destruct (findRefreshByHash h (tables st)) as [record|]; [|by destruct H].
    exists record. split; [done|]. destruct H as [H|H].
    - by destruct (negb _).
    - by destruct (truthy _). }
  unfold rotateRefreshTokenRecord in Hr. destruct (rf_status record); [|done..].
  repeat (case_match; [done|]). apply rotate_txn_spends in Hr as (r & Hr & Hs); [|done].
  eapply spent_stays; [apply (evolves_steps hmac sha256 assistantId calls (on_tables t' st))|done..].
Qed.

(** ** Unpairing *)

(** Admission refuses a token whatever else it is presented with. *)
Definition locked_out (rawToken : string) (st : TokenState) : Prop :=
  ∀ claims s now, parseSub claims.(sub) = inr s → s.(sub_principalType) = actor →
    (admitActorToken now sha256 rawToken claims st).1 = false.

Lemma revoked_locked_out rawToken st st' r :
  evolves st.(tables) st'.(tables) →
  findActorByHash (actorTokenRecordHash sha256 rawToken) st.(tables) = Some r →
  r.(at_status) = at_revoked → locked_out rawToken st'.
Proof.
  intros He Hf Hr claims s now Hp Hs. destruct (evolves_find_actor _ _ _ _ He Hf) as (r' & Hf' & Hle).
  unfold admitActorToken. rewrite Hp, Hs. simpl. rewrite Hf'. simpl.
  by destruct (ale_status _ _ Hle) as [-> | ->]; rewrite ?Hr.
Qed.

(** One row of the list of devices. *)
Record Device := {
  dev_hashedDeviceId : string;
  dev_platform : string;
  dev_pairingUserAgent : option string;
  dev_clientReportedName : option string;
  dev_issuedAt : Z;
  dev_expiresAt : option Z;
  dev_lastUsedAt : option Z
}.

(** [MAX(last_used_at)]; nulls do not count *)
Definition max_lastUsed (rs : list ActorToken) : option Z :=
  foldl (λ best r, match best, r.(at_lastUsedAt) with
                   | Some b, Some v => Some (Z.max b v)
                   | None, v => v
                   | _, None => best
                   end) None rs.

Definition listDevices (principal : string) (t : TokenTables) : list Device :=
  (λ r, {| dev_hashedDeviceId := r.(at_hashedDeviceId); dev_platform := r.(at_platform);
           dev_pairingUserAgent := r.(at_pairingUserAgent);
           dev_clientReportedName := r.(at_clientReportedName); dev_issuedAt := r.(at_issuedAt);
           dev_expiresAt := r.(at_expiresAt);
           dev_lastUsedAt := max_lastUsed (List.filter (at_device principal r.(at_hashedDeviceId))
                                             t.(actorTokens)) |})
  <$> List.filter (λ r, String.eqb r.(at_guardianPrincipalId) principal && at_in [at_active] r)
        t.(actorTokens).

Lemma revoked_not_listed now principal device t :
  device ∉ dev_hashedDeviceId <$> listDevices principal
    (revokeRefreshTokensByDevice now principal device (revokeActorTokensByDevice now principal device t)).
Proof.
  rewrite list_elem_of_fmap. intros (dv & Hdv & Hin). apply list_elem_of_fmap in Hin as (r & -> & Hr).
  apply elem_of_lfilter in Hr as [Hr [Hp Ha]%andb_prop]. simpl in Hdv, Hr.
  apply (revoked_rows now principal device) in Hr.
  + unfold at_in in Ha. rewrite Hr in Ha. done.
  + unfold at_device. by rewrite Hp, Hdv, String.eqb_refl.
Qed.

(** A token recorded for a device stays locked out after the device is revoked. *)
Lemma revoked_device_locked_out now principal device st calls rawToken r :
  findActorByHash (actorTokenRecordHash sha256 rawToken) st.(tables) = Some r →
  at_device principal device r = true →
  locked_out rawToken (foldl (token_step hmac sha256 assistantId)
    (token_step hmac sha256 assistantId st (RevokeDevice principal device now)) calls).
Proof.
  intros Hf Hd. destruct (revoke_all_status now principal device _ _ _ Hf Hd) as (r' & Hf' & Hs).
  eapply (revoked_locked_out _ (token_step hmac sha256 assistantId st (RevokeDevice principal device now)));
    [apply evolves_steps|exact Hf'|exact Hs].
Qed.

(** Revoking a device ends it for good: at once it is off the list, and whatever is
    called afterwards, every access or derived token recorded for it is refused at
    admission and every refresh token of it is refused. *)
Theorem unpaired_device_locked_out now principal device st calls :
  let st1 := token_step hmac sha256 assistantId st (RevokeDevice principal device now) in
  let st2 := foldl (token_step hmac sha256 assistantId) st1 calls in
  device ∉ dev_hashedDeviceId <$> listDevices principal st1.(tables)
  ∧ (∀ rawToken r,
       findActorByHash (actorTokenRecordHash sha256 rawToken) st.(tables) = Some r →
       at_device principal device r = true → locked_out rawToken st2)
  ∧ ∀ refreshToken r,
       findRefreshByHash (hashToken sha256 refreshToken) st.(tables) = Some r →
       rf_device principal device r = true → never_rotates refreshToken st2.(tables).
Proof.
  intros st1 st2. assert (evolves st1.(tables) st2.(tables)) as He by apply evolves_steps. split_and!.
  - apply revoked_not_listed.
  - intros rawToken r. apply revoked_device_locked_out.
  - intros refreshToken r Hf Hd. eapply (spent_stays _ st1.(tables)); [done|..].
    + simpl. unfold findRefreshByHash. simpl. by erewrite find_first_fmap_where.
    + rewrite Hd. simpl. destruct (rf_is rf_active r) eqn:Hi; [done|].
      by apply bool_decide_eq_false in Hi.
Qed.
(** ** Replay *)

Definition family_dead (f : string) (t : TokenTables) : Prop :=
  ∀ r, r ∈ t.(refreshTokens) → r.(rf_familyId) = f → r.(rf_status) = rf_revoked.

(** The calls that start a family. *)
Definition opens_family (f : string) (call : TokenCall) : bool :=
  match call with
  | PairDevice src _ _ _ _ _ | PairBrowser src _ _ _ _ _ => String.eqb src.(ms_familyId) f
  | _ => false
  end.

Lemma dead_shrinks f t t' : shrinks t t' → family_dead f t → family_dead f t'.
Proof.
  intros [_ HR] Hd r' Hr' Hf. apply list_elem_of_lookup in Hr' as [i Hi].
  destruct (Forall2_lookup_r _ _ _ _ _ HR Hi) as (r & Hr & Hle).
  apply list_elem_of_lookup_2 in Hr. specialize (Hd r Hr). rewrite <- (rle_family _ _ Hle) in Hd.
  specialize (Hd Hf). destruct (rle_status _ _ Hle) as [->|[->|[? ->]]]; congruence.
Qed.

Lemma dead_insert_actor f r t t' : insert_actor r t = Some t' → family_dead f t → family_dead f t'.
Proof. unfold insert_actor. case_match; [done|]. by intros [= <-]. Qed.

Lemma dead_insert_refresh f r t t' :
  insert_refresh r t = Some t' → r.(rf_familyId) ≠ f → family_dead f t → family_dead f t'.
Proof.
  unfold insert_refresh. case_match; [done|]. intros [= <-] Hr Hd x Hx Hf. simpl in Hx.
  apply elem_of_app in Hx as [Hx| ->%list_elem_of_singleton]; [by apply Hd|done].
Qed.

Lemma dead_mint_pair f now src p d pl path i t :
  String.eqb src.(ms_familyId) f = false → family_dead f t →
  family_dead f (mint_pair now hmac sha256 assistantId src p d pl path i t).2.
Proof.
  intros Hf%String.eqb_neq Hd. unfold mint_pair, mintAccessToken, mintRefreshToken.
  destruct (insert_actor _ t) as [t1|] eqn:E1; [|done]. simpl.
  apply dead_insert_actor with (f := f) in E1; [|done].
  destruct (insert_refresh _ t1) as [t2|] eqn:E2; [|done]. simpl.
  by eapply dead_insert_refresh.
Qed.

Lemma dead_rotate f now src missing h record t :
  record ∈ t.(refreshTokens) → family_dead f t →
  family_dead f (rotateRefreshTokenRecord now hmac sha256 assistantId src missing h record t).2.
Proof.
  intros Hin Hd. unfold rotateRefreshTokenRecord. destruct (rf_status record) eqn:Es; [|simpl|done].
  - assert (rf_familyId record ≠ f) as Hf by (intros E; specialize (Hd record Hin E); congruence).
    repeat (case_match; [done|]). unfold rotate_txn.
    pose proof (dead_shrinks f _ _ (shrinks_rotated h now t) Hd) as Hd1.
    destruct (markRotated now h t) as [b t1]. simpl in Hd1. destruct (negb b); [done|].
    pose proof (dead_shrinks f _ _ (shrinks_revoke_where (λ r, at_device (rf_guardianPrincipalId record)
      (rf_hashedDeviceId record) r && at_in [at_active] r) now t1) Hd1) as Hd2.
    unfold rotated_access, mintRefreshTokenInFamily.
    destruct (insert_actor _ _) as [t3|] eqn:E3; [|done]. simpl.
    apply dead_insert_actor with (f := f) in E3; [|done].
    destruct (insert_refresh _ t3) as [t4|] eqn:E4; [|done]. simpl. by eapply dead_insert_refresh.
  - by eapply dead_shrinks; [apply shrinks_replay|].
Qed.

Lemma dead_step f st call :
  opens_family f call = false → family_dead f st.(tables) →
  family_dead f (token_step hmac sha256 assistantId st call).(tables).
Proof.
  intros Ho Hd. destruct call as [src p d pl i now|src p pl c i now|src m tok d now|src m tok now
    |rowId srcTok der now|p d now|raw claims now]; simpl in *.
  - unfold mintAndRecordDeviceBoundTokenPair. destruct (negb _); [done|].
    apply dead_mint_pair; [done|]. by eapply dead_shrinks; [apply shrinks_end_pairing|].
  - by apply dead_mint_pair.
  - unfold rotateCredentials. destruct (findRefreshByHash _ _) eqn:Hf; [|done].
    apply find_first_Some in Hf as [Hin _]. destruct (negb _); [done|by apply dead_rotate].
  - unfold rotateBrowserCredentialsByRefreshToken. destruct (findRefreshByHash _ _) eqn:Hf; [|done].
    apply find_first_Some in Hf as [Hin _]. destruct (truthy _); [by apply dead_rotate|done].
  - unfold recordDerivedActorToken. destruct (findSourceActorTokenRecord _ _ _); [|done].
    destruct (insert_actor _ _) eqn:E; [by eapply dead_insert_actor|done].
  - by eapply dead_shrinks; [apply shrinks_end_pairing|].
  - unfold admitActorToken. destruct (parseSub _) as [|s]; [done|].
    destruct (bool_decide (sub_principalType s = actor)); [|done].
    destruct (bool_decide _); [done|]. destruct (has _ _ _) as [de []]; [done|]. simpl.
    destruct (findActorByHash _ _); [|done]. by eapply dead_shrinks; [apply shrinks_stamp|].
Qed.

Lemma dead_steps f calls st :
  Forall (λ call, opens_family f call = false) calls → family_dead f st.(tables) →
  family_dead f (foldl (token_step hmac sha256 assistantId) st calls).(tables).
Proof.
  intros H. revert st. induction H as [|call calls Hc _ IH]; intros st Hd; [done|].
  apply IH. by apply dead_step.
Qed.

Lemma revoke_family_dead f now t : family_dead f (revokeFamily now f t).
Proof.
  intros r (x & -> & Hx)%list_elem_of_fmap. case_match eqn:E; [done|].
  intros Hf. by apply String.eqb_neq in E.
Qed.

(** C16: Presenting a spent refresh token again, from the device it was issued to, ends
    the session it belongs to for good: no refresh token of the family, whoever got
    it, ever rotates again, and every access or derived token recorded for the
    device is refused at admission. From another device the token is refused for the
    device, and nothing else happens. *)
Theorem replay_ends_family now src missing refreshToken device record st calls :
  findRefreshByHash (hashToken sha256 refreshToken) st.(tables) = Some record →
  record.(rf_status) = rf_rotated →
  Forall (λ call, opens_family record.(rf_familyId) call = false) calls →
  let '(o, t1) := rotateCredentials now hmac sha256 assistantId src missing refreshToken
                    device st.(tables) in
  let st2 := foldl (token_step hmac sha256 assistantId) (on_tables t1 st) calls in
  if decide (device = record.(rf_hashedDeviceId)) then
    o = refused refresh_reuse_detected
    ∧ (∀ tok r, findRefreshByHash (hashToken sha256 tok) st2.(tables) = Some r →
         r.(rf_familyId) = record.(rf_familyId) → never_rotates tok st2.(tables))
    ∧ ∀ rawToken r, findActorByHash (actorTokenRecordHash sha256 rawToken) st.(tables) = Some r →
         at_device record.(rf_guardianPrincipalId) record.(rf_hashedDeviceId) r = true →
         locked_out rawToken st2
  else o = refused device_binding_mismatch ∧ t1 = st.(tables).
Proof.
  intros Hf Hs Hcalls. unfold rotateCredentials. rewrite Hf.
  destruct (decide (device = record.(rf_hashedDeviceId))) as [->|Hne];
    [rewrite String.eqb_refl; cbn [negb]|by rewrite (proj2 (String.eqb_neq _ _)) by congruence].
  unfold rotateRefreshTokenRecord. rewrite Hs. cbv beta iota. set (t1 := revokeAllActorTokensByDevice _ _ _ _).
  set (st2 := foldl _ (on_tables t1 st) calls). split_and!; [done|..].
  - intros tok r Hr Hfam. eapply spent_never_rotates; [exact Hr|].
    assert (family_dead record.(rf_familyId) st2.(tables)) as Hd.
    { apply dead_steps; [done|]. simpl. eapply dead_shrinks; [apply shrinks_revoke_all|].
      apply revoke_family_dead. }
    apply find_first_Some in Hr as [Hin _]. by rewrite (Hd r Hin Hfam).
  - intros rawToken r Hr Hd.
    destruct (revoke_all_status now (rf_guardianPrincipalId record) (rf_hashedDeviceId record)
      (revokeFamily now (rf_familyId record) st.(tables)) _ r Hr Hd) as (r' & Hf' & Hs').
    eapply (revoked_locked_out _ (on_tables t1 st)); [apply evolves_steps|exact Hf'|done].
Qed.
End Ended.

(** ** One session per device *)

(** What holds of the tables whatever was called: keys are unique, a device has at
    most one active row in each table, and all tokens of a family belong to one device
    and end when its first one does. *)
Record tokens_wf (t : TokenTables) : Prop := {
  twf_at_ids : NoDup (at_id <$> t.(actorTokens));
  twf_rf_ids : NoDup (rf_id <$> t.(refreshTokens));
  twf_at_active : ∀ x y, x ∈ t.(actorTokens) → y ∈ t.(actorTokens) →
    x.(at_status) = at_active → y.(at_status) = at_active →
    at_device x.(at_guardianPrincipalId) x.(at_hashedDeviceId) y = true → at_id x = at_id y;
  twf_rf_active : ∀ x y, x ∈ t.(refreshTokens) → y ∈ t.(refreshTokens) →
    x.(rf_status) = rf_active → y.(rf_status) = rf_active →
    rf_device x.(rf_guardianPrincipalId) x.(rf_hashedDeviceId) y = true → rf_id x = rf_id y;
  twf_family : ∀ x y, x ∈ t.(refreshTokens) → y ∈ t.(refreshTokens) →
    x.(rf_familyId) = y.(rf_familyId) →
    x.(rf_absoluteExpiresAt) = y.(rf_absoluteExpiresAt)
    ∧ rf_device x.(rf_guardianPrincipalId) x.(rf_hashedDeviceId) y = true;
  twf_root : ∀ x, x ∈ t.(refreshTokens) → ∃ r, r ∈ t.(refreshTokens)
    ∧ r.(rf_familyId) = x.(rf_familyId)
    ∧ x.(rf_absoluteExpiresAt) = r.(rf_issuedAt) + REFRESH_ABSOLUTE_TTL_MS
}.

Lemma Forall2_fmap_eq {A B} (R : A → A → Prop) (f : A → B) xs ys :
  (∀ x y, R x y → f y = f x) → Forall2 R xs ys → f <$> ys = f <$> xs.
Proof. intros Hf. induction 1 as [|x y xs ys Hxy _ IH]; [done|]. csimpl. by rewrite (Hf x y), IH. Qed.

Lemma Forall2_elem_r {A} (R : A → A → Prop) xs ys y :
  Forall2 R xs ys → y ∈ ys → ∃ x, x ∈ xs ∧ R x y.
Proof.
  intros H [i Hi]%list_elem_of_lookup. destruct (Forall2_lookup_r _ _ _ _ _ H Hi) as (x & Hx & ?).
  exists x. split; [by eapply list_elem_of_lookup_2|done].
Qed.

Lemma Forall2_elem_l {A} (R : A → A → Prop) xs ys x :
  Forall2 R xs ys → x ∈ xs → ∃ y, y ∈ ys ∧ R x y.
Proof.
  intros H [i Hi]%list_elem_of_lookup. destruct (Forall2_lookup_l _ _ _ _ _ H Hi) as (y & Hy & ?).
  exists y. split; [by eapply list_elem_of_lookup_2|done].
Qed.

Lemma at_le_active r r' : at_le r r' → r'.(at_status) = at_active → r.(at_status) = at_active.
Proof. intros [????[H|H]]; congruence. Qed.

Lemma rf_le_active r r' : rf_le r r' → r'.(rf_status) = rf_active → r.(rf_status) = rf_active.
Proof. intros [??????? H] ?. destruct H as [H|[H|[? H]]]; congruence. Qed.

Lemma wf_shrinks t t' : shrinks t t' → tokens_wf t → tokens_wf t'.
Proof.
  intros [HA HR] [W1 W2 W3 W4 W5 W6]. constructor.
  - by rewrite (Forall2_fmap_eq at_le at_id _ _ ale_id HA).
  - by rewrite (Forall2_fmap_eq rf_le rf_id _ _ rle_id HR).
  - intros x' y' Hx Hy Ax Ay Hd.
    destruct (Forall2_elem_r _ _ _ _ HA Hx) as (x & Hx0 & Lx), (Forall2_elem_r _ _ _ _ HA Hy) as (y & Hy0 & Ly).
    rewrite (ale_id _ _ Lx), (ale_id _ _ Ly). apply W3; try done; [by eapply at_le_active..|].
    unfold at_device in *. by rewrite <- (ale_principal _ _ Lx), <- (ale_device _ _ Lx),
      <- (ale_principal _ _ Ly), <- (ale_device _ _ Ly).
  - intros x' y' Hx Hy Ax Ay Hd.
    destruct (Forall2_elem_r _ _ _ _ HR Hx) as (x & Hx0 & Lx), (Forall2_elem_r _ _ _ _ HR Hy) as (y & Hy0 & Ly).
    rewrite (rle_id _ _ Lx), (rle_id _ _ Ly). apply W4; try done; [by eapply rf_le_active..|].
    unfold rf_device in *. by rewrite <- (rle_principal _ _ Lx), <- (rle_device _ _ Lx),
      <- (rle_principal _ _ Ly), <- (rle_device _ _ Ly).
  - intros x' y' Hx Hy Hf.
    destruct (Forall2_elem_r _ _ _ _ HR Hx) as (x & Hx0 & Lx), (Forall2_elem_r _ _ _ _ HR Hy) as (y & Hy0 & Ly).
    rewrite (rle_family _ _ Lx), (rle_family _ _ Ly) in Hf. unfold rf_device in *.
    rewrite (rle_absolute _ _ Lx), (rle_absolute _ _ Ly), (rle_principal _ _ Lx),
      (rle_device _ _ Lx), (rle_principal _ _ Ly), (rle_device _ _ Ly). by apply W5.
  - intros x' Hx. destruct (Forall2_elem_r _ _ _ _ HR Hx) as (x & Hx0 & Lx).
    destruct (W6 x Hx0) as (r & Hr & Hf & Ha). destruct (Forall2_elem_l _ _ _ _ HR Hr) as (r' & Hr' & Lr).
    exists r'. by rewrite (rle_family _ _ Lr), (rle_family _ _ Lx), (rle_absolute _ _ Lx), (rle_issued _ _ Lr).
Qed.

Lemma device_sym_at x y :
  at_device x.(at_guardianPrincipalId) x.(at_hashedDeviceId) y
  = at_device y.(at_guardianPrincipalId) y.(at_hashedDeviceId) x.
Proof. unfold at_device. f_equal; apply String.eqb_sym. Qed.

Lemma device_sym_rf x y :
  rf_device x.(rf_guardianPrincipalId) x.(rf_hashedDeviceId) y
  = rf_device y.(rf_guardianPrincipalId) y.(rf_hashedDeviceId) x.
Proof. unfold rf_device. f_equal; apply String.eqb_sym. Qed.

Lemma wf_insert_actor r t t' : insert_actor r t = Some t' → tokens_wf t → tokens_wf t'.
Proof.
  unfold insert_actor. destruct (existsb _ _) eqn:E; [done|]. rewrite existsb_false in E.
  intros [= <-] [W1 W2 W3 W4 W5 W6].
  assert (∀ y, y ∈ t.(actorTokens) → at_id y ≠ at_id r ∧ ¬ (r.(at_status) = at_active
            ∧ y.(at_status) = at_active
            ∧ at_device r.(at_guardianPrincipalId) r.(at_hashedDeviceId) y = true)) as Hr.
  { intros y Hy. specialize (E y Hy). apply orb_false_elim in E as [E1%String.eqb_neq E2].
    split; [done|]. intros (H1 & H2 & H3). unfold at_in in E2. by rewrite H1, H2, H3 in E2. }
  constructor; simpl; try done.
  - apply NoDup_fmap_snoc; [done|]. intros y Hy. by apply Hr.
  - intros x y. rewrite !elem_of_app, !list_elem_of_singleton.
    intros [Hx| ->] [Hy| ->] Ax Ay Hd; [by apply W3| | |done].
    + exfalso. apply (Hr x Hx). rewrite device_sym_at in Hd. auto.
    + exfalso. apply (Hr y Hy). auto.
Qed.

(** The row starts a family, or continues one. *)
Definition family_ok (r : RefreshToken) (t : TokenTables) : Prop :=
  (∀ y, y ∈ t.(refreshTokens) → rf_familyId y ≠ rf_familyId r)
  ∧ r.(rf_absoluteExpiresAt) = r.(rf_issuedAt) + REFRESH_ABSOLUTE_TTL_MS
  ∨ ∃ y, y ∈ t.(refreshTokens) ∧ rf_familyId y = rf_familyId r
         ∧ rf_absoluteExpiresAt y = rf_absoluteExpiresAt r
         ∧ rf_device r.(rf_guardianPrincipalId) r.(rf_hashedDeviceId) y = true.

Lemma device_trans_rf r x y :
  rf_device r.(rf_guardianPrincipalId) r.(rf_hashedDeviceId) x = true →
  rf_device x.(rf_guardianPrincipalId) x.(rf_hashedDeviceId) y = true →
  rf_device r.(rf_guardianPrincipalId) r.(rf_hashedDeviceId) y = true.
Proof.
  unfold rf_device. rewrite !andb_true_iff, !String.eqb_eq. intuition congruence.
Qed.

Lemma wf_insert_refresh r t t' :
  insert_refresh r t = Some t' → family_ok r t → tokens_wf t → tokens_wf t'.
Proof.
  unfold insert_refresh. destruct (existsb _ _) eqn:E; [done|]. rewrite existsb_false in E.
  intros [= <-] Hfam [W1 W2 W3 W4 W5 W6].
  assert (∀ y, y ∈ t.(refreshTokens) → rf_id y ≠ rf_id r ∧ ¬ (r.(rf_status) = rf_active
            ∧ y.(rf_status) = rf_active
            ∧ rf_device r.(rf_guardianPrincipalId) r.(rf_hashedDeviceId) y = true)) as Hr.
  { intros y Hy. specialize (E y Hy). apply orb_false_elim in E as [E1%String.eqb_neq E2].
    split; [done|]. intros (H1 & H2 & H3). unfold rf_is in E2. by rewrite H1, H2, H3 in E2. }
  assert (∀ y, y ∈ t.(refreshTokens) → rf_familyId r = rf_familyId y →
    rf_absoluteExpiresAt r = rf_absoluteExpiresAt y
    ∧ rf_device r.(rf_guardianPrincipalId) r.(rf_hashedDeviceId) y = true) as Hf.
  { intros y Hy E'. destruct Hfam as [[Hn _]|(z & Hz & F & Ab & D)]; [by edestruct (Hn y)|].
    destruct (W5 z y Hz Hy) as [A' D']; [congruence|]. split; [congruence|by eapply device_trans_rf]. }
  constructor; simpl; try done.
  - apply NoDup_fmap_snoc; [done|]. intros y Hy. by apply Hr.
  - intros x y. rewrite !elem_of_app, !list_elem_of_singleton.
    intros [Hx| ->] [Hy| ->] Ax Ay Hd; [by apply W4| | |done].
    + exfalso. apply (Hr x Hx). rewrite device_sym_rf in Hd. auto.
    + exfalso. apply (Hr y Hy). auto.
  - intros x y. rewrite !elem_of_app, !list_elem_of_singleton.
    intros [Hx| ->] [Hy| ->] E'; [by apply W5| |by apply Hf|].
    + destruct (Hf x Hx) as [A D]; [done|]. rewrite device_sym_rf. done.
    + split; [done|]. unfold rf_device. by rewrite !String.eqb_refl.
  - intros x. rewrite elem_of_app, list_elem_of_singleton. setoid_rewrite elem_of_app.
    intros [Hx| ->].
    + destruct (W6 x Hx) as (z & ? & ? & ?). eauto.
    + destruct Hfam as [[_ A]|(y & Hy & F & A & _)].
      * exists r. split; [right; by left|done].
      * destruct (W6 y Hy) as (z & ? & ? & ?). exists z. split; [by left|]. split; congruence.
Qed.

Lemma insert_actor_fresh r t :
  r.(at_id) ∉ at_id <$> t.(actorTokens) →
  (∀ x, x ∈ t.(actorTokens) → x.(at_status) = at_active →
     at_device r.(at_guardianPrincipalId) r.(at_hashedDeviceId) x = true → r.(at_status) ≠ at_active) →
  insert_actor r t = Some (on_actor (t.(actorTokens) ++ [r]) t).
Proof.
  intros Hid Hdev. unfold insert_actor. rewrite (proj2 (existsb_false _ _)); [done|].
  intros x Hx. apply orb_false_iff. split.
  - apply String.eqb_neq. intros E. apply Hid, list_elem_of_fmap. eauto.
  - apply not_true_is_false. rewrite !andb_true_iff. unfold at_in.
    rewrite !mem_true, !list_elem_of_singleton. intros [[H1 H2] H3]. by apply (Hdev x).
Qed.

Lemma insert_refresh_fresh r t :
  r.(rf_id) ∉ rf_id <$> t.(refreshTokens) →
  (∀ x, x ∈ t.(refreshTokens) → x.(rf_status) = rf_active →
     rf_device r.(rf_guardianPrincipalId) r.(rf_hashedDeviceId) x = false) →
  insert_refresh r t = Some (on_refresh (t.(refreshTokens) ++ [r]) t).
Proof.
  intros Hid Hdev. unfold insert_refresh. rewrite (proj2 (existsb_false _ _)); [done|].
  intros x Hx. apply orb_false_iff. split.
  - apply String.eqb_neq. intros E. apply Hid, list_elem_of_fmap. eauto.
  - apply not_true_is_false. rewrite !andb_true_iff. unfold rf_is.
    rewrite !bool_decide_eq_true. intros [[H1 H2] H3]. by rewrite (Hdev x) in H3.
Qed.

(** New row identifiers. *)
Definition ids_fresh (t : TokenTables) (src : MintSource) : Prop :=
  src.(ms_accessId) ∉ at_id <$> t.(actorTokens) ∧ src.(ms_refreshId) ∉ rf_id <$> t.(refreshTokens).

Definition family_fresh (t : TokenTables) (src : MintSource) : Prop :=
  src.(ms_familyId) ∉ rf_familyId <$> t.(refreshTokens).

(** No active row of the device. *)
Definition no_session (p d : string) (t : TokenTables) : Prop :=
  (∀ x, x ∈ t.(actorTokens) → at_device p d x = true → x.(at_status) ≠ at_active)
  ∧ ∀ x, x ∈ t.(refreshTokens) → rf_device p d x = true → x.(rf_status) ≠ rf_active.

Lemma ids_fresh_shrinks t t' src : shrinks t t' → ids_fresh t src → ids_fresh t' src.
Proof.
  intros [HA HR] [H1 H2]. split.
  - by rewrite (Forall2_fmap_eq at_le at_id _ _ ale_id HA).
  - by rewrite (Forall2_fmap_eq rf_le rf_id _ _ rle_id HR).
Qed.

Lemma family_fresh_shrinks t t' src : shrinks t t' → family_fresh t src → family_fresh t' src.
Proof.
  intros [HA HR] H. unfold family_fresh. by rewrite (Forall2_fmap_eq rf_le rf_familyId _ _ rle_family HR).
Qed.

Section Mints.
Context (hmac sha256 : string → string) (assistantId : string).

Lemma end_pairing_no_session now p d t :
  no_session p d (revokeRefreshTokensByDevice now p d (revokeActorTokensByDevice now p d t)).
Proof.
  split.
  - intros x Hx Hd. by rewrite (revoked_rows now p d t x Hx Hd).
  - intros x (y & -> & Hy)%list_elem_of_fmap Hd Ha. case_match eqn:E; [done|].
    unfold rf_is in E. rewrite Hd, Ha in E. done.
Qed.

(** The rows a pairing writes. *)
Definition paired_access (now : Z) (src : MintSource) (p d pl : string) (i : DeviceIdentityInput)
    : ActorToken :=
  access_row now src.(ms_accessId)
    (hashToken sha256 (access_token now hmac assistantId p src.(ms_nonce) ACCESS_TOKEN_TTL_SECONDS))
    p d pl (capIdentity i) at_active (now + ACCESS_TOKEN_TTL_SECONDS * 1000).

Definition paired_refresh (now : Z) (src : MintSource) (p d pl : string) (path : option string)
    (i : DeviceIdentityInput) : RefreshToken :=
  refresh_row now sha256 src src.(ms_familyId) p d pl (capIdentity i)
    (now + REFRESH_ABSOLUTE_TTL_MS) path.

Lemma mint_pair_fresh now src p d pl path i t :
  ids_fresh t src → no_session p d t →
  mint_pair now hmac sha256 assistantId src p d pl path i t
  = (Some (token_pair now src p
             (access_token now hmac assistantId p src.(ms_nonce) ACCESS_TOKEN_TTL_SECONDS,
              now + ACCESS_TOKEN_TTL_SECONDS * 1000) (now + REFRESH_ABSOLUTE_TTL_MS) path),
     {| actorTokens := t.(actorTokens) ++ [paired_access now src p d pl i];
        refreshTokens := t.(refreshTokens) ++ [paired_refresh now src p d pl path i] |}).
Proof.
  intros [H1 H2] [N1 N2]. unfold mint_pair, mintAccessToken, mintRefreshToken.
  rewrite insert_actor_fresh; [|done|by intros x Hx Ha Hd; destruct (N1 x Hx Hd)].
  cbv beta iota. rewrite insert_refresh_fresh; [done|done|].
  intros x Hx Ha. apply not_true_is_false. intros Hd. by destruct (N2 x Hx Hd).
Qed.

Lemma wf_mint_pair now src p d pl path i t :
  family_fresh t src → tokens_wf t →
  tokens_wf (mint_pair now hmac sha256 assistantId src p d pl path i t).2.
Proof.
  intros Hf Hwf. unfold mint_pair, mintAccessToken, mintRefreshToken.
  destruct (insert_actor _ t) as [t1|] eqn:E1; [|done].
  pose proof (wf_insert_actor _ _ _ E1 Hwf) as W1.
  assert (refreshTokens t1 = refreshTokens t) as Er.
  { unfold insert_actor in E1. case_match; [done|]. by injection E1 as <-. }
  cbv beta iota. destruct (insert_refresh _ t1) as [t2|] eqn:E2; [|done]. simpl.
  eapply wf_insert_refresh; [exact E2| |done]. left. split; [|done].
  intros y Hy E. apply Hf, list_elem_of_fmap. exists y. rewrite <- Er. split; [|done].
  simpl in E. congruence.
Qed.

(** Rotating the active token of a device leaves it without a session. *)
Lemma rotated_no_session now h record t :
  tokens_wf t → record ∈ t.(refreshTokens) → record.(rf_status) = rf_active →
  record.(rf_tokenHash) = h →
  no_session record.(rf_guardianPrincipalId) record.(rf_hashedDeviceId)
    (revokeActiveActorTokensByDevice now record.(rf_guardianPrincipalId)
       record.(rf_hashedDeviceId) (markRotated now h t).2).
Proof.
  intros Hwf Hin Ha Hh. split.
  - intros x (y & Hy & ->)%elem_update_actor Hd Hx. unfold at_in in *. revert Hd Hx.
    case_match eqn:E; [done|]. intros Hd Hx. rewrite Hd, Hx in E. done.
  - intros x (y & -> & Hy)%list_elem_of_fmap Hd Hx. revert Hd Hx. case_match eqn:E; [done|].
    intros Hd Hx. assert (rf_id record = rf_id y) as Eid.
    { by apply (twf_rf_active _ Hwf). }
    assert (record = y) as <-.
    { apply (NoDup_fmap_inv rf_id t.(refreshTokens)); [apply Hwf|done..]. }
    unfold rf_is in E. by rewrite Hh, Hx, String.eqb_refl in E.
Qed.

Lemma rotate_fresh now src h record t :
  tokens_wf t → ids_fresh t src → record ∈ t.(refreshTokens) → record.(rf_status) = rf_active →
  record.(rf_tokenHash) = h →
  ∃ t', rotate_txn now hmac sha256 assistantId src h record t
        = (rotated (token_pair now src record.(rf_guardianPrincipalId)
             (access_token now hmac assistantId record.(rf_guardianPrincipalId) src.(ms_nonce)
                ACCESS_TOKEN_TTL_SECONDS, now + ACCESS_TOKEN_TTL_MS)
             record.(rf_absoluteExpiresAt) record.(rf_browserRefreshCookiePath)), t').
Proof.
  intros Hwf Hids Hin Ha Hh.
  pose proof (rotated_no_session now h record t Hwf Hin Ha Hh) as [N1 N2].
  pose proof (shrinks_rotated h now t) as Hsh. unfold rotate_txn.
  assert ((markRotated now h t).1 = true) as Em.
  { simpl. apply existsb_true. exists record. unfold rf_is. by rewrite Ha, Hh, String.eqb_refl. }
  destruct (markRotated now h t) as [b t1]. simpl in Em, Hsh, N1, N2. subst b. cbn [negb].
  pose proof (ids_fresh_shrinks _ _ _ (shrinks_revoke_where (λ r, at_device (rf_guardianPrincipalId record)
    (rf_hashedDeviceId record) r && at_in [at_active] r) now t1)
    (ids_fresh_shrinks _ _ _ Hsh Hids)) as [F1 F2].
  unfold rotated_access, mintRefreshTokenInFamily.
  rewrite insert_actor_fresh; [|done|by intros x Hx Hs Hd; destruct (N1 x Hx Hd)].
  cbn [mbind option_bind]. rewrite insert_refresh_fresh; [by eexists|done|].
  intros x Hx Hs. apply not_true_is_false. intros Hd. by destruct (N2 x Hx Hd).
Qed.

Lemma wf_rotate now src missing h record t :
  tokens_wf t → record ∈ t.(refreshTokens) →
  tokens_wf (rotateRefreshTokenRecord now hmac sha256 assistantId src missing h record t).2.
Proof.
  intros Hwf Hin. unfold rotateRefreshTokenRecord. destruct (rf_status record) eqn:Es; [|simpl|done].
  - repeat (case_match; [done|]). unfold rotate_txn.
    pose proof (shrinks_rotated h now t) as Hsh. destruct (markRotated now h t) as [b t1]. simpl in Hsh.
    pose proof (wf_shrinks _ _ Hsh Hwf) as W1. destruct (negb b); [done|].
    pose proof (shrinks_revoke_where (λ r, at_device (rf_guardianPrincipalId record)
      (rf_hashedDeviceId record) r && at_in [at_active] r) now t1) as Hsh2.
    pose proof (wf_shrinks _ _ Hsh2 W1) as W2.
    assert (∃ y, y ∈ refreshTokens t1 ∧ rf_le record y) as (y & Hy & Ly).
    { by eapply Forall2_elem_l; [apply Hsh|]. }
    unfold rotated_access, mintRefreshTokenInFamily.
    destruct (insert_actor _ _) as [t3|] eqn:E3; [|done]. cbn [mbind option_bind].
    pose proof (wf_insert_actor _ _ _ E3 W2) as W3.
    assert (refreshTokens t3 = refreshTokens t1) as Er.
    { unfold insert_actor in E3. case_match; [done|]. by injection E3 as <-. }
    destruct (insert_refresh _ t3) as [t4|] eqn:E4; [|done]. simpl.
    eapply wf_insert_refresh; [exact E4| |done]. right. exists y. rewrite Er. simpl.
    rewrite (rle_family _ _ Ly), (rle_absolute _ _ Ly). split_and!; [done..|].
    unfold rf_device. by rewrite (rle_principal _ _ Ly), (rle_device _ _ Ly), !String.eqb_refl.
  - by eapply wf_shrinks; [apply shrinks_replay|].
Qed.

Definition fresh_call (t : TokenTables) (call : TokenCall) : Prop :=
  match call with
  | PairDevice src _ _ _ _ _ | PairBrowser src _ _ _ _ _ => family_fresh t src
  | _ => True
  end.

(** The states reached from empty tables, when families have new names. *)
Inductive token_run : TokenState → Prop :=
  | run_start d : token_run {| tables := {| actorTokens := []; refreshTokens := [] |}; stampDebounce := d |}
  | run_call st call : token_run st → fresh_call st.(tables) call →
      token_run (token_step hmac sha256 assistantId st call).

Lemma wf_step st call :
  fresh_call st.(tables) call → tokens_wf st.(tables) →
  tokens_wf (token_step hmac sha256 assistantId st call).(tables).
Proof.
  intros Hc Hwf. destruct call as [src p d pl i now|src p pl c i now|src m tok d now|src m tok now
    |rowId srcTok der now|p d now|raw claims now]; simpl in *.
  - unfold mintAndRecordDeviceBoundTokenPair. destruct (negb _); [done|]. apply wf_mint_pair.
    + by eapply family_fresh_shrinks; [apply shrinks_end_pairing|].
    + by eapply wf_shrinks; [apply shrinks_end_pairing|].
  - by apply wf_mint_pair.
  - unfold rotateCredentials. destruct (findRefreshByHash _ _) eqn:Hf; [|done].
    apply find_first_Some in Hf as [Hin _]. destruct (negb _); [done|by apply wf_rotate].
  - unfold rotateBrowserCredentialsByRefreshToken. destruct (findRefreshByHash _ _) eqn:Hf; [|done].
    apply find_first_Some in Hf as [Hin _]. destruct (truthy _); [by apply wf_rotate|done].
  - unfold recordDerivedActorToken. destruct (findSourceActorTokenRecord _ _ _); [|done].
    destruct (insert_actor _ _) eqn:E; [by eapply wf_insert_actor|done].
  - by eapply wf_shrinks; [apply shrinks_end_pairing|].
  - unfold admitActorToken. destruct (parseSub _) as [|s]; [done|].
    destruct (bool_decide (sub_principalType s = actor)); [|done].
    destruct (bool_decide _); [done|]. destruct (has _ _ _) as [de []]; [done|]. simpl.
    destruct (findActorByHash _ _); [|done]. by eapply wf_shrinks; [apply shrinks_stamp|].
Qed.

Lemma run_wf st : token_run st → tokens_wf st.(tables).
Proof.
  induction 1 as [d|st call _ IH Hc]; [|by apply wf_step].
  constructor; simpl; try apply NoDup_nil_2; intros; exfalso; by eapply not_elem_of_nil.
Qed.

(** C18: Whatever was paired, rotated, derived, revoked and admitted before: a device has
    at most one active access and one active refresh token, and with new identifiers
    neither pairing nor refreshing ever runs into the constraints that enforce it. *)
Theorem one_session_per_device st now src :
  token_run st → ids_fresh st.(tables) src →
  tokens_wf st.(tables)
  ∧ (∀ p deviceId pl i, truthy (trim deviceId) = true →
       is_Some (mintAndRecordDeviceBoundTokenPair now hmac sha256 assistantId src p deviceId pl i
                  st.(tables)).1)
  ∧ ∀ missing tok d,
      (rotateCredentials now hmac sha256 assistantId src missing tok d st.(tables)).1 ≠ rotate_throws
      ∧ (rotateBrowserCredentialsByRefreshToken now hmac sha256 assistantId src missing tok
           st.(tables)).1 ≠ rotate_throws.
Proof.
  intros Hrun Hids. pose proof (run_wf st Hrun) as Hwf. split_and!; [done|..].
  - intros p deviceId pl i Hd. unfold mintAndRecordDeviceBoundTokenPair. rewrite Hd. cbn [negb].
    rewrite mint_pair_fresh; [by eexists| |apply end_pairing_no_session].
    by eapply ids_fresh_shrinks; [apply shrinks_end_pairing|].
  - intros missing tok d.
    assert (∀ h record, findRefreshByHash h st.(tables) = Some record →
      (rotateRefreshTokenRecord now hmac sha256 assistantId src missing h record st.(tables)).1
      ≠ rotate_throws) as H.
    { intros h record [Hin Hh%String.eqb_eq]%find_first_Some. unfold rotateRefreshTokenRecord.
      destruct (rf_status record) eqn:Es; [|done..]. repeat (case_match; [done|]).
      by destruct (rotate_fresh now src h record _ Hwf Hids Hin Es Hh) as (t' & ->). }
    unfold rotateCredentials, rotateBrowserCredentialsByRefreshToken.
    destruct (findRefreshByHash _ _) as [record|] eqn:Hf; [|done]. apply H in Hf.
    split; [by destruct (negb _)|by destruct (truthy _)].
Qed.

(** A session ends: a refresh token can be rotated at most until a year after its
    device was paired, however often it was rotated before, and no token handed out
    on the way outlives that year by more than the life of an access token. *)
Theorem session_bounded st now src missing tok d pair t' :
  token_run st →
  rotateCredentials now hmac sha256 assistantId src missing tok d st.(tables) = (rotated pair, t')
  ∨ rotateBrowserCredentialsByRefreshToken now hmac sha256 assistantId src missing tok st.(tables)
    = (rotated pair, t') →
  ∃ record root, findRefreshByHash (hashToken sha256 tok) st.(tables) = Some record
    ∧ root ∈ st.(tables).(refreshTokens) ∧ root.(rf_familyId) = record.(rf_familyId)
    ∧ let deadline := root.(rf_issuedAt) + REFRESH_ABSOLUTE_TTL_MS in
      now <= deadline ∧ pair.(pair_refreshTokenExpiresAt) <= deadline
      ∧ pair.(pair_accessTokenExpiresAt) <= deadline + ACCESS_TOKEN_TTL_MS.
Proof.
  intros Hrun H. pose proof (run_wf st Hrun) as Hwf. set (h := hashToken sha256 tok) in *.
  assert (∃ record, findRefreshByHash h st.(tables) = Some record
    ∧ rotateRefreshTokenRecord now hmac sha256 assistantId src missing h record st.(tables)
      = (rotated pair, t')) as (record & Hf & Hr).
  { unfold rotateCredentials, rotateBrowserCredentialsByRefreshToken in H. fold h in H.
    destruct (findRefreshByHash h (tables st)) as [record|]; [|by destruct H].
    exists record. split; [done|]. destruct H as [H|H]; [by destruct (negb _)|by destruct (truthy _)]. }
  apply find_first_Some in Hf as Hin. destruct Hin as [Hin _].
  destruct (twf_root _ Hwf record Hin) as (root & Hroot & Hfam & Habs).
  exists record, root. split_and!; [done..|].
  unfold rotateRefreshTokenRecord in Hr. destruct (rf_status record); [|done..].
  destruct (Z.ltb_spec (rf_absoluteExpiresAt record) now); [done|].
  repeat (case_match; [done|]). unfold rotate_txn in Hr.
  destruct (markRotated now h _) as [[] t1]; [|done]. simpl in Hr.
  destruct (rotated_access _ _ _ _ _ _ _) as [[[token expiresAt] t3]|] eqn:Ea; [|done].
  destruct (mintRefreshTokenInFamily _ _ _ _ _); [|done]. injection Hr as <- _.
  unfold rotated_access in Ea. destruct (insert_actor _ _); [|done]. injection Ea as <- <- _.
  unfold token_pair. simpl. lia.
Qed.
Lemma find_first_snoc {A} (w : A → bool) xs x :
  (∀ y, y ∈ xs → w y = false) → w x = true → find_first w (xs ++ [x]) = Some x.
Proof.
  intros Hxs Hx. rewrite find_first_app. rewrite (proj2 (find_first_None _ _)) by done. simpl. by rewrite Hx.
Qed.

(** A pairing with new identifiers succeeds, and its access token is on record. *)
Lemma pair_device_recorded now src p deviceId pl i t :
  let access := access_token now hmac assistantId p src.(ms_nonce) ACCESS_TOKEN_TTL_SECONDS in
  ids_fresh t src → hashToken sha256 access ∉ at_tokenHash <$> t.(actorTokens) →
  truthy (trim deviceId) = true →
  ∃ pr t', mintAndRecordDeviceBoundTokenPair now hmac sha256 assistantId src p deviceId pl i t
           = (Some pr, t')
    ∧ pr.(pair_principal) = p ∧ pr.(pair_accessToken) = access
    ∧ findActorByHash (hashToken sha256 access) t'
      = Some (paired_access now src p (hashDeviceId sha256 deviceId) pl i).
Proof.
  intros access Hids Hah Hd. unfold mintAndRecordDeviceBoundTokenPair. rewrite Hd. cbn [negb].
  set (t0 := revokeRefreshTokensByDevice _ _ _ _).
  assert (shrinks t t0) as Hsh by apply shrinks_end_pairing.
  rewrite mint_pair_fresh; [|by eapply ids_fresh_shrinks|apply end_pairing_no_session].
  eexists _, _. split; [done|]. split_and!; [done..|].
  apply find_first_snoc; [|apply String.eqb_refl]. intros y Hy. apply String.eqb_neq. intros E.
  apply Hah. rewrite <- (Forall2_fmap_eq at_le at_tokenHash _ _ ale_hash (sh_actor _ _ Hsh)).
  apply list_elem_of_fmap. eauto.
Qed.

(** A recorded token that is not revoked is admitted, and stays on record. *)
Lemma recorded_admitted now claims claims' st r :
  let token := sign hmac claims in
  findActorByHash (hashToken sha256 token) st.(tables) = Some r → r.(at_status) ≠ at_revoked →
  ∃ st' r', admitActorToken now sha256 token claims' st = (true, st')
    ∧ findSourceActorTokenRecord sha256 token st'.(tables) = Some r'
    ∧ r'.(at_guardianPrincipalId) = r.(at_guardianPrincipalId).
Proof.
  intros token Hf Hs.
  pose proof (evolves_step hmac sha256 assistantId st (Admit token claims' now)) as Hev. simpl in Hev.
  destruct (evolves_find_actor _ _ _ _ Hev Hf) as (r' & Hf' & Hle).
  unfold findSourceActorTokenRecord, actorTokenRecordHash, token in *. rewrite canonical_sign in *.
  assert ((admitActorToken now sha256 (sign hmac claims) claims' st).1 = true) as Ha.
  { unfold admitActorToken. destruct (parseSub _) as [|s]; [done|].
    destruct (bool_decide (sub_principalType s = actor)); [|done].
    unfold actorTokenRecordHash. rewrite canonical_sign, Hf. simpl.
    rewrite bool_decide_false by congruence. by destruct (has _ _ _) as [de []]. }
  destruct (admitActorToken _ _ _ _ _) as [b st']. simpl in *. subst b.
  exists st', r'. split_and!; [done..|]. apply Hle.
Qed.

(** A device that pairs is in: with new random values its access token is admitted
    whatever it claims, the device is on the list, and for ninety days without use
    its refresh token rotates when the device presents it. *)
Theorem paired_device_works st now src p deviceId pl i now' src' debounce :
  let access := access_token now hmac assistantId p src.(ms_nonce) ACCESS_TOKEN_TTL_SECONDS in
  let device := hashDeviceId sha256 deviceId in
  token_run st → ids_fresh st.(tables) src → family_fresh st.(tables) src →
  hashToken sha256 access ∉ at_tokenHash <$> st.(tables).(actorTokens) →
  hashToken sha256 src.(ms_refreshToken) ∉ rf_tokenHash <$> st.(tables).(refreshTokens) →
  truthy (trim deviceId) = true →
  now <= now' <= now + REFRESH_INACTIVITY_TTL_MS →
  let '(r, t) := mintAndRecordDeviceBoundTokenPair now hmac sha256 assistantId src p deviceId pl i
                   st.(tables) in
  ids_fresh t src' →
  ∃ pr, r = Some pr ∧ pr.(pair_accessToken) = access
    ∧ (∀ claims, (admitActorToken now' sha256 access claims
                    {| tables := t; stampDebounce := debounce |}).1 = true)
    ∧ device ∈ dev_hashedDeviceId <$> listDevices p t
    ∧ ∃ pr', (rotateCredentials now' hmac sha256 assistantId src' false pr.(pair_refreshToken)
                device t).1 = rotated pr'.
Proof.
  intros access device Hrun Hids Hfam Hah Hrh Hd Hnow.
  pose proof (wf_step st (PairDevice src p deviceId pl i now) Hfam (run_wf st Hrun)) as Hwf.
  simpl in Hwf. revert Hwf. unfold mintAndRecordDeviceBoundTokenPair. rewrite Hd. cbn [negb].
  fold device. set (t0 := revokeRefreshTokensByDevice _ _ _ _).
  assert (shrinks st.(tables) t0) as Hsh by apply shrinks_end_pairing.
  rewrite mint_pair_fresh;
    [|by eapply ids_fresh_shrinks|apply end_pairing_no_session].
  cbv beta iota. cbn [snd]. set (t := Build_TokenTables _ _). intros Hwf Hids'.
  eexists. split; [done|]. split; [done|].
  assert (findActorByHash (hashToken sha256 access) t = Some (paired_access now src p device pl i)) as Hfa.
  { apply find_first_snoc; [|apply String.eqb_refl]. intros y Hy. apply String.eqb_neq. intros E.
    apply Hah. rewrite <- (Forall2_fmap_eq at_le at_tokenHash _ _ ale_hash (sh_actor _ _ Hsh)).
    apply list_elem_of_fmap. eauto. }
  set (row := paired_refresh now src p device pl None i) in *.
  assert (findRefreshByHash (hashToken sha256 src.(ms_refreshToken)) t = Some row) as Hfr.
  { apply find_first_snoc; [|apply String.eqb_refl]. intros y Hy. apply String.eqb_neq. intros E.
    apply Hrh. rewrite <- (Forall2_fmap_eq rf_le rf_tokenHash _ _ rle_hash (sh_refresh _ _ Hsh)).
    apply list_elem_of_fmap. eauto. }
  split_and!.
  - intros claims. unfold admitActorToken. destruct (parseSub _) as [|s]; [done|].
    destruct (bool_decide (sub_principalType s = actor)); [|done].
    unfold actorTokenRecordHash, access, access_token, mintToken. rewrite canonical_sign.
    fold (mintToken hmac now (ms_nonce src)). simpl tables.
    change (findActorByHash _ t) with (findActorByHash (hashToken sha256 access) t). rewrite Hfa.
    simpl. by destruct (has _ _ _) as [de []].
  - apply list_elem_of_fmap. unfold listDevices. setoid_rewrite list_elem_of_fmap.
    eexists. split; [|exists (paired_access now src p device pl i); split; [done|]]; [done|].
    apply elem_of_lfilter. split; [apply elem_of_app; right; by left|].
    simpl. by rewrite String.eqb_refl.
  - unfold rotateCredentials. simpl pair_refreshToken. rewrite Hfr. simpl rf_hashedDeviceId.
    rewrite String.eqb_refl. cbn [negb]. unfold rotateRefreshTokenRecord. simpl rf_status. cbv iota.
    simpl rf_absoluteExpiresAt. simpl rf_inactivityExpiresAt.
    unfold REFRESH_ABSOLUTE_TTL_MS, REFRESH_INACTIVITY_TTL_MS in *.
    rewrite (proj2 (Z.ltb_ge _ _)), (proj2 (Z.ltb_ge _ _)) by lia.
    destruct (rotate_fresh now' src' (hashToken sha256 src.(ms_refreshToken)) row t Hwf Hids')
      as (t' & ->); [|done..|by eexists].
    apply elem_of_app. right. by left.
Qed.
End Mints.

(** ** Witnesses *)

Definition toy_sha (s : string) : string := "#" +:+ s.

Definition sample_source (n : string) : MintSource :=
  {| ms_accessId := "a" +:+ n; ms_nonce := n; ms_refreshId := "r" +:+ n;
     ms_refreshToken := "refresh" +:+ n; ms_familyId := "f" +:+ n; ms_internalBinding := "b" +:+ n |}.

Definition sample_identity : DeviceIdentityInput :=
  {| di_pairingUserAgent := None; di_clientReportedName := Some " Laptop " |}.

Definition no_debounce : StringDedupCache :=
  {| seen_until := []; processing := []; s_ttlMs := STAMP_DEBOUNCE_MS; s_maxSize := MAX_TRACKED_TOKENS |}.

Definition unpaired_state : TokenState :=
  {| tables := {| actorTokens := []; refreshTokens := [] |}; stampDebounce := no_debounce |}.

Definition sample_pair_call : TokenCall := PairDevice (sample_source "1") "p" "dev" "cli" sample_identity 5.

Definition paired_state : TokenState :=
  token_step sample_hmac toy_sha "self" unpaired_state sample_pair_call.

Definition sample_device : string := hashDeviceId toy_sha "dev".

Definition rotated_state : TokenState :=
  token_step sample_hmac toy_sha "self" paired_state
    (Rotate (sample_source "2") false "refresh1" sample_device 10).

Lemma paired_run : token_run sample_hmac toy_sha "self" paired_state.
Proof.
  apply (run_call sample_hmac toy_sha "self" unpaired_state sample_pair_call); [constructor|].
  unfold fresh_call, family_fresh. simpl. by intros ?%elem_of_nil.
Qed.

Lemma sample_ids_fresh n st :
  forallb (λ r, negb (String.eqb r.(at_id) ("a" +:+ n))) st.(tables).(actorTokens) = true →
  forallb (λ r, negb (String.eqb r.(rf_id) ("r" +:+ n))) st.(tables).(refreshTokens) = true →
  ids_fresh st.(tables) (sample_source n).
Proof.
  rewrite !forallb_true. intros H1 H2. split; rewrite list_elem_of_fmap; intros (x & E & Hx).
  - specialize (H1 x Hx). apply negb_true_iff, String.eqb_neq in H1. by destruct H1.
  - specialize (H2 x Hx). apply negb_true_iff, String.eqb_neq in H2. by destruct H2.
Qed.

(** Spent by the rotation, refused from then on. *)
Lemma refresh_token_spent_once_witness :
  never_rotates sample_hmac toy_sha "self" "refresh1" rotated_state.(tables).
Proof.
  destruct (rotateCredentials 10 sample_hmac toy_sha "self" (sample_source "2") false "refresh1"
              sample_device paired_state.(tables)) as [o t'] eqn:E.
  assert (∃ pr, o = rotated pr) as [pr ->].
  { vm_compute in E. injection E as <- _. eexists. reflexivity. }
  assert (rotated_state = on_tables t' paired_state) as ->.
  { unfold rotated_state, token_step. rewrite E. reflexivity. }
  exact (refresh_token_spent_once sample_hmac toy_sha "self" 10 (sample_source "2") false "refresh1"
           sample_device paired_state pr t' [] (or_introl E)).
Defined.

Definition sample_access : string :=
  access_token 5 sample_hmac "self" "p" "1" ACCESS_TOKEN_TTL_SECONDS.

Lemma unpaired_device_locked_out_witness :
  locked_out toy_sha sample_access
    (token_step sample_hmac toy_sha "self" paired_state (RevokeDevice "p" sample_device 20))
  ∧ never_rotates sample_hmac toy_sha "self" "refresh1"
      (token_step sample_hmac toy_sha "self" paired_state (RevokeDevice "p" sample_device 20)).(tables).
Proof.
  destruct (unpaired_device_locked_out sample_hmac toy_sha "self" 20 "p" sample_device paired_state [])
    as (_ & H1 & H2).
  split; [eapply H1|eapply H2]; vm_compute; reflexivity.
Defined.

Lemma replay_ends_family_witness :
  let '(o, t1) := rotateCredentials 30 sample_hmac toy_sha "self" (sample_source "3") false "refresh1"
                    sample_device rotated_state.(tables) in
  o = refused refresh_reuse_detected ∧ never_rotates sample_hmac toy_sha "self" "refresh2" t1.
Proof.
  destruct (findRefreshByHash (hashToken toy_sha "refresh1") rotated_state.(tables)) as [record|] eqn:E;
    [|vm_compute in E; discriminate E].
  assert (record.(rf_status) = rf_rotated ∧ record.(rf_hashedDeviceId) = sample_device
          ∧ record.(rf_familyId) = "f1") as (H1 & H2 & H3).
  { vm_compute in E. injection E as <-. repeat split; reflexivity. }
  pose proof (replay_ends_family sample_hmac toy_sha "self" 30 (sample_source "3") false "refresh1"
    sample_device record rotated_state [] E H1 (@List.Forall_nil _ _)) as H.
  destruct (rotateCredentials _ _ _ _ _ _ _ _ _) as [o t1] eqn:Er.
  rewrite decide_True in H by (symmetry; exact H2). destruct H as (Ho & Hf & _). split; [exact Ho|].
  destruct (findRefreshByHash (hashToken toy_sha "refresh2") t1) as [r|] eqn:Ef.
  - apply (Hf "refresh2" r); [exact Ef|]. rewrite H3. vm_compute in Er. injection Er as _ <-.
    vm_compute in Ef. injection Ef as <-. reflexivity.
  - exfalso. vm_compute in Er. injection Er as _ <-. vm_compute in Ef. discriminate Ef.
Defined.

Lemma one_session_per_device_witness :
  is_Some (mintAndRecordDeviceBoundTokenPair 30 sample_hmac toy_sha "self" (sample_source "2") "p"
             "dev" "cli" sample_identity paired_state.(tables)).1.
Proof.
  destruct (one_session_per_device sample_hmac toy_sha "self" paired_state 30 (sample_source "2")
    paired_run) as (_ & H & _).
  - apply sample_ids_fresh; vm_compute; reflexivity.
  - apply H. reflexivity.
Defined.

Lemma session_bounded_witness :
  ∃ root, root ∈ paired_state.(tables).(refreshTokens)
          ∧ 10 <= root.(rf_issuedAt) + REFRESH_ABSOLUTE_TTL_MS.
Proof.
  destruct (rotateCredentials 10 sample_hmac toy_sha "self" (sample_source "2") false "refresh1"
              sample_device paired_state.(tables)) as [o t'] eqn:E.
  assert (∃ pr, o = rotated pr) as [pr ->].
  { vm_compute in E. injection E as <- _. eexists. reflexivity. }
  destruct (session_bounded sample_hmac toy_sha "self" paired_state 10 (sample_source "2") false
    "refresh1" sample_device pr t' paired_run (or_introl E)) as (_ & root & _ & Hr & _ & Hn & _).
  exists root. split; [exact Hr|exact Hn].
Defined.

Lemma paired_device_works_witness :
  sample_device ∈ dev_hashedDeviceId <$> listDevices "p" paired_state.(tables).
Proof.
  pose proof (paired_device_works sample_hmac toy_sha "self" unpaired_state 5 (sample_source "1") "p"
    "dev" "cli" sample_identity 10 (sample_source "2") no_debounce) as H.
  destruct (mintAndRecordDeviceBoundTokenPair _ _ _ _ _ _ _ _ _ _) as [r t] eqn:E.
  assert (paired_state.(tables) = t) as ->.
  { unfold paired_state, token_step, sample_pair_call. rewrite E. reflexivity. }
  destruct H as (pr & _ & _ & _ & H & _); [constructor|..|exact H].
  - apply sample_ids_fresh; reflexivity.
  - unfold family_fresh. simpl. intros H%elem_of_nil. exact H.
  - simpl. intros H%elem_of_nil. exact H.
  - simpl. intros H%elem_of_nil. exact H.
  - reflexivity.
  - split; vm_compute; discriminate.
  - replace t with paired_state.(tables).
    + apply sample_ids_fresh; vm_compute; reflexivity.
    + unfold paired_state, token_step, sample_pair_call. rewrite E. reflexivity.
Defined.

(** ** A late replay *)

(** The spent token of an earlier pairing, presented after the device paired again,
    ends the access token of the new pairing, but not its refresh token. *)
Lemma stale_replay_hits_new_pairing :
  let st := foldl (token_step sample_hmac toy_sha "self") rotated_state
    [PairDevice (sample_source "4") "p" "dev" "cli" sample_identity 20;
     Rotate (sample_source "5") false "refresh1" sample_device 30] in
  at_status <$> findActorByHash
    (toy_sha (access_token 20 sample_hmac "self" "p" "4" ACCESS_TOKEN_TTL_SECONDS)) st.(tables)
  = Some at_revoked
  ∧ rf_status <$> findRefreshByHash (toy_sha "refresh4") st.(tables) = Some rf_active.
Proof. vm_compute. split; reflexivity. Qed.
