(* ===== verification/GuardianBootstrap.v ===== *)
(** The desktop guardian: who it is, how its principal comes into being, and the
    credentials handed to its devices
    ([gateway/src/auth/guardian-bootstrap.ts], [auth/guardian-integrity.ts],
    [http/routes/auth-token.ts], and the principal of [http/routes/pair.ts]).

    The gateway's state is its contact database, its token tables and the cached
    integrity state. [be_fetching] is what other requests do while the platform is
    asked for the owner's name, [be_mirroring] and [be_probing] what they write while
    the assistant is; failing reads of the database are not modelled. *)
From S2P Require Import DedupCache.
From S2P Require Import Prelude JsString VerificationSessions VerificationFlow SenderTrust.
From S2P Require Import ContactStore ContactWrites ContactSafety GuardianBinding.
From S2P Require Import EdgeTokens DeviceTokens.

(** ** State *)

Record BootState := {
  boot_db : GatewayDb;
  boot_tokens : TokenState;
  boot_integrity : IntegrityCache
}.

Definition on_boot_db (db : GatewayDb) (st : BootState) : BootState :=
  {| boot_db := db; boot_tokens := st.(boot_tokens); boot_integrity := st.(boot_integrity) |}.
Definition on_boot_tokens (t : TokenTables) (st : BootState) : BootState :=
  {| boot_db := st.(boot_db); boot_tokens := on_tables t st.(boot_tokens);
     boot_integrity := st.(boot_integrity) |}.
Definition on_integrity (c : IntegrityCache) (st : BootState) : BootState :=
  {| boot_db := st.(boot_db); boot_tokens := st.(boot_tokens); boot_integrity := c |}.

(** ** Integrity *)

Definition hasActorTokens (t : TokenTables) : bool :=
  negb (length t.(actorTokens) =? 0) || negb (length t.(refreshTokens) =? 0).

Definition hasEvidenceOfPriorGuardian (st : BootState) : bool :=
  negb (length (contacts st.(boot_db)) =? 0) || hasActorTokens st.(boot_tokens).(tables).

Definition hasGuardianContactWithPrincipal (db : GatewayDb) : bool :=
  existsb (λ c, String.eqb c.(contact_role) "guardian" && bool_decide (is_Some c.(principalId)))
    (contacts db).

Definition integrity_state (now : Z) (st : BootState) : BootState * GuardianIntegrityState :=
  let '(cached, s) := guardianIntegrityState (hasActorTokens st.(boot_tokens).(tables)) now
                        st.(boot_db).(acl) st.(boot_integrity) in
  (on_integrity cached st, s).

(** ** Lookups *)

Definition findVellumGuardian (db : GatewayDb) : option string :=
  row ← guardianRow "vellum" db.(acl); DeviceTokens.nonempty row.1.(principalId).

Definition findGuardianForChannelActor (channelType externalUserId : string) (db : GatewayDb)
    : option string :=
  if negb (truthy channelType) || negb (truthy externalUserId) then None
  else
    row ← find_first (λ row, active_guardian_on channelType row
                             && nocase_eq row.2.(channel_address) externalUserId) (joined db.(acl));
    DeviceTokens.nonempty row.1.(principalId).

(** The principal a locally paired device gets ([LIMIT 1] without an order). *)
Definition resolveLocalGuardianPrincipalId (db : GatewayDb) : string :=
  default "local"
    (row ← find_first (active_guardian_on "vellum") (joined db.(acl));
     DeviceTokens.nonempty row.1.(principalId)).

(** ** Creating the guardian *)

Record BootEnv := {
  be_now : Z;
  be_uuid : string;
  be_newContact : string;
  be_newChannel : string;
  be_displayName : option string;
  be_fetching : BootState → BootState;
  be_answer : MirrorAnswer;
  be_mirroring : GatewayDb → GatewayDb;
  be_probing : GatewayDb → GatewayDb;
  be_hostname : option string;
  be_source : MintSource
}.

Inductive BootError := mint_refused | binding_throws (e : StoreError) | device_mint_throws.

Definition vellum_binding (principal : string) (name : option string) (reactivate : bool)
    : BindingParams :=
  {| bp_channel := "vellum"; bp_externalUserId := principal; bp_deliveryChatId := "local";
     bp_guardianPrincipalId := principal; bp_displayName := name;
     bp_verifiedVia := Some "bootstrap"; bp_reactivateRevoked := reactivate |}.

Definition bind_guardian (env : BootEnv) (p : BindingParams) (st : BootState)
    : (BootError + BindingWrites) * BootState :=
  match createGuardianBinding env.(be_now) env.(be_newContact) env.(be_newChannel) env.(be_answer)
          env.(be_mirroring) env.(be_probing) p st.(boot_db) with
  | (inl e, db) => (inl (binding_throws e), on_boot_db db st)
  | (inr w, db) => (inr w, on_integrity None (on_boot_db db st))
  end.

(** [inr None]: nothing to recover. *)
Definition recoverAbsentVellumGuardianFromActorTokens (env : BootEnv) (st : BootState)
    : (BootError + option string) * BootState :=
  if hasGuardianContactWithPrincipal st.(boot_db) then (inr None, st)
  else
    match DeviceTokens.nonempty (recoverGuardianPrincipalFromActorTokens st.(boot_tokens).(tables)) with
    | None => (inr None, st)
    | Some principal =>
        match bind_guardian env (vellum_binding principal None false) st with
        | (inl e, st) => (inl e, st)
        | (inr _, st) => (inr (Some principal), st)
        end
    end.

Record ResolvedGuardian := {
  rg_principal : string;
  rg_isNew : bool;
  rg_mintedOverPriorEvidence : bool
}.

Definition known_guardian (principal : string) : ResolvedGuardian :=
  {| rg_principal := principal; rg_isNew := false; rg_mintedOverPriorEvidence := false |}.

Definition fresh_principal (env : BootEnv) : string := "vellum-principal-" +:+ env.(be_uuid).
#[global] Arguments fresh_principal : simpl never.

Definition mint_guardian (env : BootEnv) (priorEvidence : bool) (st : BootState)
    : (BootError + ResolvedGuardian) * BootState :=
  let st := env.(be_fetching) st in
  let principal := fresh_principal env in
  match bind_guardian env (vellum_binding principal env.(be_displayName) true) st with
  | (inl e, st) => (inl e, st)
  | (inr _, st) =>
      (inr {| rg_principal := principal; rg_isNew := true;
              rg_mintedOverPriorEvidence := priorEvidence |}, st)
  end.

Definition resolveOrCreateVellumGuardian (env : BootEnv) (allowMintWithEvidence recover : bool)
    (st : BootState) : (BootError + ResolvedGuardian) * BootState :=
  match findVellumGuardian st.(boot_db) with
  | Some principal => (inr (known_guardian principal), st)
  | None =>
      let '(recovered, st) :=
        if recover then recoverAbsentVellumGuardianFromActorTokens env st else (inr None, st) in
      match recovered with
      | inl e => (inl e, st)
      | inr (Some principal) => (inr (known_guardian principal), st)
      | inr None =>
          let priorEvidence := hasEvidenceOfPriorGuardian st in
          if priorEvidence && negb allowMintWithEvidence
          then (inl mint_refused, (integrity_state env.(be_now) st).1)
          else mint_guardian env priorEvidence st
      end
  end.

Definition ensureVellumGuardianBinding (env : BootEnv) (recoverFromActorTokens : bool)
    (st : BootState) : (BootError + string) * BootState :=
  match resolveOrCreateVellumGuardian env false recoverFromActorTokens st with
  | (inl e, st) => (inl e, st)
  | (inr r, st) => (inr r.(rg_principal), st)
  end.

(** ** Credentials for the guardian's devices *)

Section Credentials.
Context (hmac sha256 : string → string) (assistantId : string).
Context (JSON_parse : string → option TokenClaims).

Definition bootstrapGuardian (env : BootEnv) (platform deviceId : string)
    (clientReportedName : option string) (st : BootState)
    : (BootError + (ResolvedGuardian * TokenPair)) * BootState :=
  match resolveOrCreateVellumGuardian env true false st with
  | (inl e, st) => (inl e, st)
  | (inr r, st) =>
      let identity :=
        {| di_pairingUserAgent := None;
           di_clientReportedName := or_else clientReportedName env.(be_hostname) |} in
      match mintAndRecordDeviceBoundTokenPair env.(be_now) hmac sha256 assistantId env.(be_source)
              r.(rg_principal) deviceId platform identity st.(boot_tokens).(tables) with
      | (None, t) => (inl device_mint_throws, on_boot_tokens t st)
      | (Some pr, t) => (inr (r, pr), on_boot_tokens t st)
      end
  end.

(** A loopback pairing that names a device. *)
Definition mintDeviceBoundPairResponse (env : BootEnv) (principal platform deviceId : string)
    (clientReportedName : option string) (st : BootState) : option TokenPair * BootState :=
  let '(r, t) := mintAndRecordDeviceBoundTokenPair env.(be_now) hmac sha256 assistantId
                   env.(be_source) principal deviceId platform
                   {| di_pairingUserAgent := None; di_clientReportedName := clientReportedName |}
                   st.(boot_tokens).(tables) in
  (r, on_boot_tokens t st).

(** *** [POST /auth/token] *)

Fixpoint port_digits (s : string) : bool :=
  match s with
  | EmptyString => true
  | String c s => ((48 <=? nat_of_ascii c) && (nat_of_ascii c <=? 57))%nat && port_digits s
  end.

Definition after (p s : string) : option string :=
  if starts_with s p then Some (slice_from (String.length p) s) else None.

(** [/^https?:\/\/(localhost|127\.0\.0\.1)(:\d+)?$/] *)
Definition WEB_ORIGIN_RE (origin : string) : bool :=
  let port rest := match rest with
                   | EmptyString => true
                   | String c ds => Ascii.eqb c ":" && truthy ds && port_digits ds
                   end in
  match or_else (after "http://" origin) (after "https://" origin) with
  | None => false
  | Some host =>
      match or_else (after "localhost" host) (after "127.0.0.1" host) with
      | Some rest => port rest
      | None => false
      end
  end.

Record TokenRequest := {
  tr_loopback : bool;              (** [server && isLoopbackPeer(...)] *)
  tr_origin : option string;
  tr_authorization : option string
}.

Inductive TokenResponse :=
  | token_forbidden                                  (** 403 *)
  | token_unauthorized                               (** 401 *)
  | token_repair_required                            (** 401, [guardian_repair_required] *)
  | token_created (token : string) (expiresAt : Z)
  | token_throws.

Definition bearer (authorization : option string) : option string :=
  match authorization with
  | Some h => if starts_with (to_lower h) "bearer " then Some (slice_from 7 h) else None
  | None => None
  end.

Definition create_token (env : BootEnv) (principal : string) (source : option ActorToken)
    (st : BootState) : TokenResponse * BootState :=
  let token := derived_token env.(be_now) hmac principal env.(be_source).(ms_nonce) in
  (token_created token (env.(be_now) / 1000 + TOKEN_TTL_SECONDS)%Z,
   on_boot_tokens (recordDerivedActorToken env.(be_now) sha256 env.(be_source).(ms_accessId) source
                     token st.(boot_tokens).(tables)) st).

Definition handleCreateToken (env : BootEnv) (req : TokenRequest) (st : BootState)
    : TokenResponse * BootState :=
  if negb req.(tr_loopback) then (token_forbidden, st)
  else if negb (match req.(tr_origin) with Some o => truthy o && WEB_ORIGIN_RE o | None => false end)
  then (token_forbidden, st)
  else
    match bearer req.(tr_authorization) with
    | None => (token_unauthorized, st)
    | Some bearerToken =>
        match verifyToken hmac JSON_parse bearerToken "vellum-gateway" false env.(be_now) with
        | inl _ => (token_unauthorized, st)
        | inr claims =>
            if negb (String.eqb claims.(scope_profile) "actor_client_v1")
            then (token_unauthorized, st)
            else
              match admitActorToken env.(be_now) sha256 bearerToken claims st.(boot_tokens) with
              | (false, _) => (token_unauthorized, st)
              | (true, ts) =>
                  let st := {| boot_db := st.(boot_db); boot_tokens := ts;
                               boot_integrity := st.(boot_integrity) |} in
                  let source := findSourceActorTokenRecord sha256 bearerToken ts.(tables) in
                  match DeviceTokens.nonempty (at_guardianPrincipalId <$> source) with
                  | Some principal =>
                      let '(st, integrity) := integrity_state env.(be_now) st in
                      if bool_decide (integrity = missing_guardian) then (token_repair_required, st)
                      else create_token env principal source st
                  | None =>
                      match ensureVellumGuardianBinding env false st with
                      | (inl mint_refused, st) => (token_repair_required, st)
                      | (inl _, st) => (token_throws, st)
                      | (inr principal, st) => create_token env principal source st
                      end
                  end
              end
        end
    end.
End Credentials.


(** ** Whose principal it is *)

Lemma hasGuardian_false db :
  hasGuardianContactWithPrincipal db = false →
  ∀ c, c ∈ contacts db → c.(contact_role) = "guardian" → c.(principalId) = None.
Proof.
  intros H c Hc Hr. unfold hasGuardianContactWithPrincipal in H. rewrite existsb_false in H.
  specialize (H c Hc). rewrite Hr in H. simpl in H. apply bool_decide_eq_false in H.
  by apply eq_None_not_Some.
Qed.

Lemma latest_elem {A} (at_ : A → Z) xs x : latest at_ xs = Some x → x ∈ xs.
Proof.
  unfold latest.
  assert (∀ best, foldl (λ best x, match best with
                   | Some b => if (at_ b <? at_ x)%Z then Some x else best
                   | None => Some x
                   end) best xs = Some x → best = Some x ∨ x ∈ xs) as H.
  { induction xs as [|y xs IH]; intros best; simpl; [by left|].
    intros [Hb|Hx]%IH; [|right; by right]. destruct best as [b|]; [|simplify_eq; right; by left].
    destruct (_ <? _)%Z; simplify_eq; [right; by left|by left]. }
  by intros [?|?]%H.
Qed.

(** A live token names the principal. *)
Definition vouched (t : TokenTables) (principal : string) : Prop :=
  (∃ r, r ∈ t.(actorTokens) ∧ r.(at_status) = at_active ∧ r.(at_guardianPrincipalId) = principal)
  ∨ ∃ r, r ∈ t.(refreshTokens) ∧ r.(rf_status) = rf_active ∧ r.(rf_guardianPrincipalId) = principal.

Lemma recovered_vouched t p : recoverGuardianPrincipalFromActorTokens t = Some p → vouched t p.
Proof.
  unfold recoverGuardianPrincipalFromActorTokens.
  destruct (DeviceTokens.nonempty _) as [q|] eqn:E.
  - intros [= <-]. left. destruct (latest at_issuedAt _) as [r|] eqn:El; [|done].
    apply latest_elem, elem_of_lfilter in El as [Hin Hs]. exists r. split; [done|].
    unfold at_in in Hs. apply mem_true, list_elem_of_singleton in Hs. split; [done|].
    simpl in E. unfold DeviceTokens.nonempty in E. simpl in E. by destruct (truthy _); simplify_eq.
  - intros H. right. destruct (latest rf_issuedAt _) as [r|] eqn:El; [|done].
    apply latest_elem, elem_of_lfilter in El as [Hin Hs]. exists r. split; [done|].
    unfold rf_is in Hs. apply bool_decide_eq_true in Hs. split; [done|]. by injection H.
Qed.

Lemma nonempty_Some o p : DeviceTokens.nonempty o = Some p → o = Some p ∧ truthy p = true.
Proof. destruct o as [q|]; [|done]. simpl. destruct (truthy q) eqn:E; [|done]. by intros [= <-]. Qed.

(** C15: Outside the operator's guardian init, by what the gateway holds when the call
    enters, the principal answered is that of the guardian bound; or, at start-up, one
    that a live token names while no guardian has a principal; or a new one, and then
    the gateway held no contact and no token. A refusal changes neither the contacts nor
    the tokens. What other calls do while the owner's name is awaited is not looked at
    again: see [concurrent_bootstraps_diverge]. *)
Theorem principal_minted_on_traceless_entry env recover st r st' :
  ensureVellumGuardianBinding env recover st = (r, st') →
  match r with
  | inr p =>
      findVellumGuardian st.(boot_db) = Some p ∧ st' = st
      ∨ findVellumGuardian st.(boot_db) = None
        ∧ ((recover = true ∧ vouched st.(boot_tokens).(tables) p
            ∧ ∀ c, c ∈ contacts st.(boot_db) → c.(contact_role) = "guardian" → c.(principalId) = None)
           ∨ (p = fresh_principal env ∧ contacts st.(boot_db) = []
              ∧ st.(boot_tokens).(tables) = {| actorTokens := []; refreshTokens := [] |}))
  | inl mint_refused =>
      findVellumGuardian st.(boot_db) = None ∧ st'.(boot_db) = st.(boot_db)
      ∧ st'.(boot_tokens) = st.(boot_tokens)
  | inl _ => True
  end.
Proof.
  unfold ensureVellumGuardianBinding, resolveOrCreateVellumGuardian.
  destruct (findVellumGuardian (boot_db st)) as [p|] eqn:Ef.
  { intros [= <- <-]. auto. }
  assert (∀ st0, st0 = st →
    (let priorEvidence := hasEvidenceOfPriorGuardian st0 in
     match (if priorEvidence && negb false
            then (inl mint_refused, (integrity_state env.(be_now) st0).1)
            else mint_guardian env priorEvidence st0) with
     | (inl e, st) => (inl e, st)
     | (inr r, st) => (inr r.(rg_principal), st)
     end) = (r, st') →
    match r with
    | inr p => p = fresh_principal env ∧ contacts st.(boot_db) = []
               ∧ st.(boot_tokens).(tables) = {| actorTokens := []; refreshTokens := [] |}
    | inl mint_refused => st'.(boot_db) = st.(boot_db) ∧ st'.(boot_tokens) = st.(boot_tokens)
    | inl _ => True
    end) as Hmint.
  { intros st0 -> . cbv zeta. rewrite andb_true_r.
    destruct (hasEvidenceOfPriorGuardian st) eqn:Eh.
    - intros [= <- <-]. unfold integrity_state. by destruct (guardianIntegrityState _ _ _ _).
    - unfold mint_guardian, bind_guardian.
      destruct (createGuardianBinding _ _ _ _ _ _ _ _) as [[e|w] db]; intros [= <- <-]; [done|].
      simpl. split; [done|]. unfold hasEvidenceOfPriorGuardian, hasActorTokens in Eh.
      apply orb_false_iff in Eh as [H1 [H2 H3]%orb_false_iff].
      apply negb_false_iff, Nat.eqb_eq, nil_length_inv in H1, H2, H3.
      split; [done|]. destruct (tables (boot_tokens st)); simpl in *. congruence. }
  destruct recover.
  - unfold recoverAbsentVellumGuardianFromActorTokens.
    destruct (hasGuardianContactWithPrincipal (boot_db st)) eqn:Eg.
    { intros H. specialize (Hmint st eq_refl H). destruct r as [[]|]; auto. }
    destruct (DeviceTokens.nonempty _) as [p|] eqn:Ep.
    + unfold bind_guardian.
      destruct (createGuardianBinding _ _ _ _ _ _ _ _) as [[e|w] db]; intros [= <- <-]; [done|].
      right. split; [done|]. left. split; [done|]. split; [|by apply hasGuardian_false].
      apply nonempty_Some in Ep as [Ep _]. by apply recovered_vouched.
    + intros H. specialize (Hmint st eq_refl H). destruct r as [[]|]; auto.
  - intros H. specialize (Hmint st eq_refl H). destruct r as [[]|]; auto.
Qed.

(** ** The guardian is bound *)

Lemma upsert_guardian_role now g name principal db :
  db_wf db →
  ∃ db', upsert_guardian now g name principal db = (inr (), db') ∧ db_wf db'
    ∧ channels db' = channels db ∧ has_contact db' g = true
    ∧ (∀ c, c ∈ contacts db' → c.(contact_id) = g →
         c.(contact_role) = "guardian" ∧ c.(principalId) = Some principal)
    ∧ ∀ c, c ∈ contacts db' → c.(contact_id) ≠ g → c ∈ contacts db.
Proof.
  intros Hwf. unfold upsert_guardian. erewrite bind_inr by done.
  destruct (has_contact db g) eqn:Hg.
  - set (f := λ c, {| contact_id := _ |}).
    destruct (update_contacts_ok (λ c, String.eqb c.(contact_id) g) f db Hwf) as [E Hwf']; [done|].
    rewrite E. eexists. split; [done|]. split_and!; try done.
    + apply has_contact_elem. cbn. apply has_contact_elem in Hg.
      apply list_elem_of_fmap in Hg as (c & -> & Hc). apply list_elem_of_fmap.
      exists (f c). split; [done|]. apply list_elem_of_fmap. exists c. by rewrite String.eqb_refl.
    + intros c' (c & -> & Hc)%list_elem_of_fmap. by destruct (String.eqb_spec c.(contact_id) g).
    + intros c' (c & -> & Hc)%list_elem_of_fmap. by destruct (String.eqb_spec c.(contact_id) g).
  - set (row := {| contact_id := g |}). pose proof (insert_contact_wf row db Hwf Hg) as Hwf'.
    eexists. split; [unfold insert_contact, commit; by rewrite (constraints_wf _ Hwf')|].
    split_and!; try done.
    + apply has_contact_elem. cbn. rewrite fmap_app, elem_of_app. right. by left.
    + intros c [Hc| ->%list_elem_of_singleton]%elem_of_app Hi; [|done].
      assert (has_contact db g = true) as Hg'; [|congruence].
      apply has_contact_elem. rewrite <- Hi. by apply list_elem_of_fmap_2.
    + intros c [Hc| ->%list_elem_of_singleton]%elem_of_app Hi; [done|]. by destruct Hi.
Qed.

(** What a binding without an earlier guardian needs: a free identifier, and no row
    at its address that it must not revive. *)
Record bindable (newChannel : string) (p : BindingParams) (db : GatewayDb) : Prop := {
  bd_fresh : newChannel ∉ channel_id <$> channels db;
  bd_free : ∀ ch, ch ∈ channels db → by_key p.(bp_channel) p.(bp_externalUserId) ch = true →
            protected_from_reactivation p ch = false;
  bd_unbound : ∀ row, ¬ bound_row p.(bp_channel) db row
}.

Lemma new_guardian_bound now newContact newChannel p db :
  db_wf db → existingGuardianContact p db = None → bindable newChannel p db →
  ∃ w db', applyGuardianBindingGatewayWrites now newContact newChannel p db = (inr w, db')
    ∧ db_wf db' ∧ w.(bw_claimedFromContactId) = None
    ∧ (∃ row, bound_row p.(bp_channel) db' row)
    ∧ ∀ row, bound_row p.(bp_channel) db' row →
        row.1.(principalId) = Some p.(bp_guardianPrincipalId).
Proof.
  intros Hwf Hg [Hfresh Hfree Hnone]. unfold applyGuardianBindingGatewayWrites.
  do 2 erewrite bind_inr by done. rewrite Hg. set (claim := claimableChannel p None db).
  erewrite bind_inr by done.
  set (g := match claim with Some ch => ch.(channel_contactId) | None => newContact end).
  change (match claim with Some ch => channel_contactId ch | None => newContact end) with g.
  set (channelId := match claim with Some ch => ch.(channel_id) | None => _ end).
  destruct (upsert_guardian_role now g (default p.(bp_externalUserId) p.(bp_displayName))
              p.(bp_guardianPrincipalId) db Hwf) as (db1 & E1 & Hwf1 & Ech & Hhas & Hrole & Hrest).
  erewrite bind_inr by exact E1. unfold select_channel. erewrite bind_inr by done.
  destruct (binding_channel_ok now p channelId g db1 Hwf1 Hhas) as
    (db2 & E2 & Hwf2 & _ & Econt & (ch & Hch & Hb) & Hold).
  - rewrite Ech. intros ch [Hin Hk]%find_first_Some. by apply Hfree.
  - rewrite Ech. intros ch Hin Hi. subst channelId. destruct claim as [cl|] eqn:Ecl.
    + apply claimed_elem in Ecl as [Hcl [Hk _]%andb_true_iff].
      pose proof (channel_by_id db ch cl Hwf Hin Hcl Hi) as ->. by apply by_key_true in Hk as [= -> _].
    + exfalso. apply Hfresh. rewrite <- Hi. by apply list_elem_of_fmap_2.
  - erewrite bind_inr by exact E2. eexists _, db2. rewrite Ech in Hold. split; [done|].
    split; [done|]. split.
    { unfold g. simpl. destruct claim; [|done]. by rewrite String.eqb_refl. }
    split.
    + destruct Hb as (Ht & _ & Hs & _ & Ho & _).
      pose proof (wf_owners _ Hwf2 ch Hch) as (c & Ec & Hc)%has_contact_elem%list_elem_of_fmap.
      exists (c, ch). split; [by apply joined_elem|]. apply guardian_on_active. simpl.
      split_and!; [|done..]. rewrite Econt in Hc. apply Hrole; [done|congruence].
    + intros [c x] [[Hx [Hc Hid]]%(joined_elem _ _ _ Hwf2) [Hr [Ht Hs]]%guardian_on_active].
      simpl in *. rewrite Econt in Hc.
      destruct (decide (contact_id c = g)) as [Hcg|Hcg]; [by apply Hrole|].
      destruct (Hold _ Hx) as [(_ & _ & _ & _ & ? & _)|Hxo]; [congruence|].
      exfalso. apply (Hnone (c, x)). split; [apply joined_elem; auto|].
      by apply guardian_on_active.
Qed.

Lemma later_verified_Some rows b : is_Some (foldl later_verified (Some b) rows).
Proof.
  revert b. induction rows as [|row rows IH]; intros b; [done|]. simpl. repeat case_match; apply IH.
Qed.

Lemma found_when_bound db p :
  (∃ row, bound_row "vellum" db row) →
  (∀ row, bound_row "vellum" db row → row.1.(principalId) = Some p) →
  truthy p = true → findVellumGuardian db = Some p.
Proof.
  intros (row & Hj & Hg) Hall Hp.
  assert (∀ r, active_guardian_on "vellum" r = true ↔ guardian_on "vellum" ["active"] r = true) as Hiff.
  { intros r. rewrite guardian_on_active. unfold active_guardian_on.
    rewrite !andb_true_iff, !String.eqb_eq. naive_solver. }
  unfold findVellumGuardian. destruct (guardianRow "vellum" (acl db)) as [r|] eqn:E.
  - apply guardianRow_Some in E as [Hr Ha]. cbn. rewrite (Hall r) by (split; [done|by apply Hiff]).
    simpl. by rewrite Hp.
  - exfalso. unfold guardianRow in E. apply Hiff in Hg.
    assert (row ∈ List.filter (active_guardian_on "vellum") (joined (acl db))) as Hin
      by by apply elem_of_lfilter.
    destruct (List.filter _ _) as [|x xs]; [by apply elem_of_nil in Hin|]. simpl in E.
    destruct (later_verified_Some xs x) as [y Hy]. congruence.
Qed.

(** Nothing else writes while the call waits. *)
Definition quiet (env : BootEnv) : Prop :=
  (∀ st, env.(be_fetching) st = st) ∧ ∀ db, env.(be_mirroring) db = db.

Lemma bind_guardian_ok env p st :
  quiet env → db_wf st.(boot_db) → existingGuardianContact p st.(boot_db) = None →
  p.(bp_channel) = "vellum" → truthy p.(bp_guardianPrincipalId) = true →
  bindable env.(be_newChannel) p st.(boot_db) →
  ∃ w st', bind_guardian env p st = (inr w, st') ∧ db_wf st'.(boot_db)
    ∧ findVellumGuardian st'.(boot_db) = Some p.(bp_guardianPrincipalId)
    ∧ st'.(boot_tokens) = st.(boot_tokens) ∧ st'.(boot_integrity) = None.
Proof.
  intros [_ Hm] Hwf Hg Hv Ht Hb. unfold bind_guardian, createGuardianBinding.
  destruct (new_guardian_bound env.(be_now) env.(be_newContact) _ p _ Hwf Hg Hb)
    as (w & db' & E & Hwf' & Hw & Hex & Hall).
  rewrite (bind_inr _ _ _ db' w) by (unfold transaction; by rewrite E).
  erewrite bind_inr by done. unfold mirrorGuardianBinding. rewrite Hw, Hm.
  erewrite bind_inr by done. exists w. eexists. split; [done|]. split; [done|].
  split; [|done]. rewrite Hv in *. by apply found_when_bound.
Qed.

(** *** Finding or creating *)

Definition new_binding (principal : string) (isNew : bool) : BindingParams :=
  vellum_binding principal None isNew.

(** The call can bind [principal]: nobody else writes, and nothing stands in the way. *)
Record can_bind (env : BootEnv) (principal : string) (isNew : bool) (st : BootState) : Prop := {
  cb_quiet : quiet env;
  cb_wf : db_wf st.(boot_db);
  cb_new : existingGuardianContact (new_binding principal isNew) st.(boot_db) = None;
  cb_bindable : bindable env.(be_newChannel) (new_binding principal isNew) st.(boot_db)
}.

Lemma bind_vellum_ok env principal name isNew st :
  can_bind env principal isNew st → truthy principal = true →
  ∃ w st', bind_guardian env (vellum_binding principal name isNew) st = (inr w, st')
    ∧ findVellumGuardian st'.(boot_db) = Some principal
    ∧ st'.(boot_tokens) = st.(boot_tokens) ∧ st'.(boot_integrity) = None.
Proof.
  intros [Hq Hwf Hg [B1 B2 B3]] Ht.
  destruct (bind_guardian_ok env (vellum_binding principal name isNew) st) as (w & st' & E & _ & H);
    [done|done|exact Hg|done|done|by constructor|].
  exists w, st'. by split.
Qed.

(** Asking again. *)
Lemma found_again env allow recover st principal :
  findVellumGuardian st.(boot_db) = Some principal →
  resolveOrCreateVellumGuardian env allow recover st = (inr (known_guardian principal), st).
Proof. intros H. unfold resolveOrCreateVellumGuardian. by rewrite H. Qed.

(** The principal that is answered is bound: it is the guardian of the desktop from
    then on, and every later call, whatever it may do, answers it and writes nothing. *)
Theorem ensured_guardian_stays env allow recover st r st' :
  resolveOrCreateVellumGuardian env allow recover st = (inr r, st') →
  (findVellumGuardian st.(boot_db) = None → can_bind env r.(rg_principal) r.(rg_isNew) st) →
  findVellumGuardian st'.(boot_db) = Some r.(rg_principal)
  ∧ st'.(boot_tokens) = st.(boot_tokens)
  ∧ ∀ env' allow' recover',
      resolveOrCreateVellumGuardian env' allow' recover' st'
      = (inr (known_guardian r.(rg_principal)), st').
Proof.
  intros H Hcan.
  assert (findVellumGuardian st'.(boot_db) = Some r.(rg_principal)
          ∧ st'.(boot_tokens) = st.(boot_tokens)) as [Hf Ht];
    [|split_and!; [done|done|intros; by apply found_again]].
  unfold resolveOrCreateVellumGuardian in H.
  destruct (findVellumGuardian (boot_db st)) as [p|] eqn:Ef; [by injection H as <- <-|].
  specialize (Hcan eq_refl).
  assert (∀ prior, mint_guardian env prior st = (inr r, st') →
    findVellumGuardian st'.(boot_db) = Some r.(rg_principal)
    ∧ st'.(boot_tokens) = st.(boot_tokens)) as Hmint.
  { intros prior Hm. unfold mint_guardian in Hm. pose proof (cb_quiet _ _ _ _ Hcan) as [Hq _].
    rewrite Hq in Hm. destruct (bind_guardian _ _ st) as [[e|w] st1] eqn:Eb; [done|].
    injection Hm as <- <-. cbn [rg_principal rg_isNew] in Hcan.
    destruct (bind_vellum_ok env _ env.(be_displayName) true st Hcan eq_refl)
      as (w2 & st2 & E2 & Hfv & Htk & _). rewrite E2 in Eb. by injection Eb as _ <-. }
  assert (∀ st0 : BootState, st0 = st →
    (if hasEvidenceOfPriorGuardian st0 && negb allow
     then (inl mint_refused, (integrity_state env.(be_now) st0).1)
     else mint_guardian env (hasEvidenceOfPriorGuardian st0) st0) = (inr r, st') →
    findVellumGuardian st'.(boot_db) = Some r.(rg_principal)
    ∧ st'.(boot_tokens) = st.(boot_tokens)) as Hrest.
  { intros st0 ->. destruct (_ && _); [done|apply Hmint]. }
  destruct recover; [|by eapply Hrest].
  unfold recoverAbsentVellumGuardianFromActorTokens in H.
  destruct (hasGuardianContactWithPrincipal (boot_db st)); [by eapply Hrest|].
  destruct (DeviceTokens.nonempty _) as [p|] eqn:Ep; [|by eapply Hrest].
  destruct (bind_guardian _ _ st) as [[e|w] st1] eqn:Eb; [done|].
  injection H as <- <-. cbn [rg_principal rg_isNew] in Hcan. apply nonempty_Some in Ep as [_ Ep].
  destruct (bind_vellum_ok env p None false st Hcan Ep) as (w2 & st2 & E2 & Hfv & Htk & _).
  rewrite E2 in Eb. by injection Eb as _ <-.
Qed.

Lemma found_guardian_healthy env st principal :
  findVellumGuardian st.(boot_db) = Some principal →
  (∀ t, st.(boot_integrity) ≠ Some (missing_guardian, t)) →
  ∃ st', integrity_state env.(be_now) st = (st', integrity_ok) ∧ st'.(boot_tokens) = st.(boot_tokens)
         ∧ st'.(boot_db) = st.(boot_db).
Proof.
  intros Hf Hc. unfold integrity_state, guardianIntegrityState.
  assert (∀ b, computeState b st.(boot_db).(acl) = integrity_ok) as Hok.
  { intros b. unfold computeState. unfold findVellumGuardian in Hf.
    destruct (guardianRow "vellum" (acl (boot_db st))) as [[c ch]|] eqn:E; [|done].
    apply guardianRow_Some in E as [Hj Ha]. unfold joined in Hj. apply list_elem_of_omap in Hj
      as (x & _ & Hx). destruct (find_first _ _) as [d|] eqn:Ed; [|done]. injection Hx as -> ->.
    apply find_first_Some in Ed as [Hin _]. unfold active_guardian_on in Ha.
    apply andb_true_iff in Ha as [[Hr _]%andb_true_iff _].
    assert (hasGuardianContactRow (acl (boot_db st)) = true) as ->; [|done].
    apply existsb_true. eauto. }
  rewrite !Hok. destruct (boot_integrity st) as [[s at_]|] eqn:Eb.
  - destruct s; [|by destruct (Hc at_)]. destruct (_ <? _)%Z; eexists; by split_and!.
  - eexists. by split_and!.
Qed.

Lemma bearer_of token : bearer (Some ("Bearer " +:+ token)) = Some token.
Proof.
  unfold bearer. assert (starts_with (to_lower ("Bearer " +:+ token)) "bearer " = true) as ->.
  { simpl. by destruct (to_lower token). }
  done.
Qed.

Section Bootstrapped.
Context (hmac sha256 : string → string) (assistantId : string).
Context (JSON_parse : string → option TokenClaims).

Definition guardian_access_claims (env : BootEnv) (principal : string) : TokenClaims :=
  minted_claims env.(be_now) env.(be_source).(ms_nonce)
    {| tp_aud := "vellum-gateway"; tp_sub := "actor:" +:+ assistantId +:+ ":" +:+ principal;
       tp_scope_profile := actor_client_v1; tp_policy_epoch := CURRENT_POLICY_EPOCH;
       tp_ttlSeconds := ACCESS_TOKEN_TTL_SECONDS |}.

Definition bootstrap_principal (env : BootEnv) (st : BootState) : string :=
  default (fresh_principal env) (findVellumGuardian st.(boot_db)).

Definition local_request (origin token : string) : TokenRequest :=
  {| tr_loopback := true; tr_origin := Some origin;
     tr_authorization := Some ("Bearer " +:+ token) |}.

(** The operator's bootstrap is never refused. *)
Lemma bootstrap_resolves env st :
  let principal := bootstrap_principal env st in
  (findVellumGuardian st.(boot_db) = None → can_bind env principal true st) →
  (findVellumGuardian st.(boot_db) ≠ None → ∀ t, st.(boot_integrity) ≠ Some (missing_guardian, t)) →
  ∃ r st1, resolveOrCreateVellumGuardian env true false st = (inr r, st1)
    ∧ r.(rg_principal) = principal ∧ findVellumGuardian st1.(boot_db) = Some principal
    ∧ st1.(boot_tokens) = st.(boot_tokens)
    ∧ (∀ t, st1.(boot_integrity) ≠ Some (missing_guardian, t)) ∧ truthy principal = true.
Proof.
  unfold bootstrap_principal, resolveOrCreateVellumGuardian. intros Hcan Hint.
  destruct (findVellumGuardian (boot_db st)) as [p|] eqn:Ef; simpl in *.
  - eexists _, st. split_and!; [done..|by apply Hint|].
    unfold findVellumGuardian in Ef. destruct (guardianRow _ _); [|done].
    by apply nonempty_Some in Ef as [_ Ef].
  - rewrite andb_false_r. unfold mint_guardian. destruct (cb_quiet _ _ _ _ (Hcan eq_refl)) as [Hq _].
    rewrite Hq.
    destruct (bind_vellum_ok env _ env.(be_displayName) true st (Hcan eq_refl)) as
      (w & st1 & E & ? & ? & Ei); [done|]. rewrite E. eexists _, st1.
    split_and!; [done..| |done]. by rewrite Ei.
Qed.

(** What a bootstrap needs of the state it finds and of its random values. *)
Record bootstrappable (env : BootEnv) (deviceId : string) (st : BootState) : Prop := {
  bs_bind : findVellumGuardian st.(boot_db) = None → can_bind env (bootstrap_principal env st) true st;
  bs_healthy : findVellumGuardian st.(boot_db) ≠ None →
               ∀ t, st.(boot_integrity) ≠ Some (missing_guardian, t);
  bs_ids : ids_fresh st.(boot_tokens).(tables) env.(be_source);
  bs_token : hashToken sha256 (sign hmac (guardian_access_claims env (bootstrap_principal env st)))
             ∉ at_tokenHash <$> st.(boot_tokens).(tables).(actorTokens);
  bs_device : truthy (trim deviceId) = true
}.

(** The guardian and the record of its access token after a bootstrap. *)
Lemma bootstrap_outcome env platform deviceId name st :
  let principal := bootstrap_principal env st in
  let token := sign hmac (guardian_access_claims env principal) in
  bootstrappable env deviceId st →
  ∃ r pr st' row, bootstrapGuardian hmac sha256 assistantId env platform deviceId name st
                  = (inr (r, pr), st')
    ∧ findVellumGuardian st'.(boot_db) = Some principal ∧ truthy principal = true
    ∧ (∀ t, st'.(boot_integrity) ≠ Some (missing_guardian, t))
    ∧ pr.(pair_principal) = principal ∧ pr.(pair_accessToken) = token
    ∧ findActorByHash (hashToken sha256 token) st'.(boot_tokens).(tables) = Some row
    ∧ row.(at_status) = at_active ∧ row.(at_guardianPrincipalId) = principal.
Proof.
  intros principal token [Hcan Hint Hids Hhash Hdev].
  destruct (bootstrap_resolves env st Hcan Hint) as (r & st1 & Er & Hrp & Hf & Htk & Hi & Hp).
  unfold bootstrapGuardian. rewrite Er, Hrp, Htk.
  edestruct (pair_device_recorded hmac sha256 assistantId env.(be_now) env.(be_source) principal
    deviceId platform) as (pr & t & Ep & Hpp & Hpa & Hfa); [exact Hids|exact Hhash|exact Hdev|].
  fold principal. rewrite Ep. eexists _, pr, _, _. by split_and!.
Qed.

(** A bootstrap ends with a guardian that holds working credentials: its principal is
    the one that is bound from then on, and as long as its access token lives, a page
    on this machine trades the token for one of the same guardian. *)
Theorem bootstrapped_guardian_signs_in env platform deviceId name st :
  let principal := bootstrap_principal env st in
  bootstrappable env deviceId st →
  reads_claims JSON_parse (guardian_access_claims env principal) →
  ∃ r pr st', bootstrapGuardian hmac sha256 assistantId env platform deviceId name st
              = (inr (r, pr), st')
    ∧ findVellumGuardian st'.(boot_db) = Some principal ∧ pr.(pair_principal) = principal
    ∧ ∀ env' origin, WEB_ORIGIN_RE origin = true →
        (env'.(be_now) / 1000 < env.(be_now) / 1000 + ACCESS_TOKEN_TTL_SECONDS)%Z →
        (handleCreateToken hmac sha256 JSON_parse env'
           (local_request origin pr.(pair_accessToken)) st').1
        = token_created (derived_token env'.(be_now) hmac principal env'.(be_source).(ms_nonce))
            (env'.(be_now) / 1000 + TOKEN_TTL_SECONDS)%Z.
Proof.
  intros principal Hb Hread.
  destruct (bootstrap_outcome env platform deviceId name st Hb) as
    (r & pr & st' & row & E & Hf & Hp & Hi & Hpp & Hpa & Hfa & Hs & Hg).
  fold principal in Hf, Hp, Hpp, Hpa, Hfa, Hg.
  set (claims := guardian_access_claims env principal) in *.
  exists r, pr, st'. split; [done|]. split; [done|]. split; [done|].
  intros env' origin Ho Hlive. unfold handleCreateToken, local_request.
  cbn [tr_loopback tr_origin tr_authorization negb]. rewrite Ho, bearer_of, Hpa.
  assert (truthy origin = true) as -> by by destruct origin.
  cbn [andb negb]. rewrite verify_sign by done. unfold check_claims. cbn [aud claims
    guardian_access_claims minted_claims tp_aud exp tp_ttlSeconds policy_epoch tp_policy_epoch
    isStaleEpoch]. rewrite (proj2 (Z.leb_gt _ _) Hlive). cbn.
  destruct (recorded_admitted hmac sha256 assistantId env'.(be_now) claims claims
              st'.(boot_tokens) row Hfa) as (ts & r' & Ea & Hsrc & Hg'); [by rewrite Hs|].
  setoid_rewrite Ea. rewrite Hsrc. cbn. rewrite Hg', Hg. simpl. rewrite Hp.
  destruct (found_guardian_healthy env'
    {| boot_db := boot_db st'; boot_tokens := ts; boot_integrity := boot_integrity st' |} principal
    Hf Hi) as (st2 & E2 & _). by rewrite E2.
Qed.
End Bootstrapped.

(** ** Concrete instances *)

Definition empty_boot : BootState :=
  {| boot_db := {| acl := {| acl_contacts := []; acl_channels := [] |}; invites := [] |};
     boot_tokens := unpaired_state; boot_integrity := None |}.

Definition sample_env (n : string) (now : Z) (fetching : BootState → BootState) : BootEnv :=
  {| be_now := now; be_uuid := n; be_newContact := "contact" +:+ n; be_newChannel := "channel" +:+ n;
     be_displayName := None; be_fetching := fetching; be_answer := mirror_unreachable;
     be_mirroring := λ db, db; be_probing := λ db, db; be_hostname := Some "host";
     be_source := sample_source n |}.

Definition quiet_env (n : string) (now : Z) : BootEnv := sample_env n now (λ st, st).

Lemma empty_can_bind n now principal isNew : can_bind (quiet_env n now) principal isNew empty_boot.
Proof.
  constructor; [by split|by apply constraints_all_wf; vm_compute|done|]. constructor.
  - by intros ?%elem_of_nil.
  - by intros ch ?%elem_of_nil.
  - by intros row [?%elem_of_nil _].
Qed.

(** A start on an empty gateway creates a guardian; a start that lost it refuses. *)
Lemma principal_minted_on_traceless_entry_witness :
  ∃ st', ensureVellumGuardianBinding (quiet_env "1" 5) true empty_boot
         = (inr "vellum-principal-1", st')
    ∧ (vouched empty_boot.(boot_tokens).(tables) "vellum-principal-1"
       ∨ "vellum-principal-1" = fresh_principal (quiet_env "1" 5)).
Proof.
  eexists. split; [vm_compute; reflexivity|].
  edestruct (principal_minted_on_traceless_entry (quiet_env "1" 5) true empty_boot (inr "vellum-principal-1"))
    as [[H _]|[_ [(_ & H & _)|[H _]]]].
  - vm_compute. reflexivity.
  - vm_compute in H. discriminate H.
  - left. exact H.
  - right. exact H.
Defined.

Lemma ensured_guardian_stays_witness :
  ∃ st', resolveOrCreateVellumGuardian (quiet_env "2" 9) false true st'
         = (inr (known_guardian "vellum-principal-1"), st')
    ∧ findVellumGuardian st'.(boot_db) = Some "vellum-principal-1".
Proof.
  destruct (resolveOrCreateVellumGuardian (quiet_env "1" 5) false true empty_boot) as [[e|r] st'] eqn:E;
    [vm_compute in E; discriminate E|].
  destruct (ensured_guardian_stays (quiet_env "1" 5) false true empty_boot r st' E) as (H1 & _ & H2).
  { intros _. apply empty_can_bind. }
  assert (r.(rg_principal) = "vellum-principal-1") as Hr.
  { vm_compute in E. injection E as <- _. reflexivity. }
  rewrite Hr in *. exists st'. split; [apply H2|exact H1].
Defined.

Lemma empty_bootstrappable :
  bootstrappable sample_hmac toy_sha "self" (quiet_env "1" 5) "dev" empty_boot.
Proof.
  constructor.
  - intros _. apply empty_can_bind.
  - intros H. by destruct H.
  - split; by intros ?%elem_of_nil.
  - by intros ?%elem_of_nil.
  - done.
Qed.

Lemma bootstrapped_guardian_signs_in_witness :
  let env := quiet_env "1" 5 in
  let claims := guardian_access_claims "self" env (bootstrap_principal env empty_boot) in
  ∃ pr st', (handleCreateToken sample_hmac toy_sha (reader_of claims) (quiet_env "2" 9)
               (local_request "http://localhost:3000" pr.(pair_accessToken)) st').1
            = token_created (derived_token 9 sample_hmac "vellum-principal-1" "2") 2592000.
Proof.
  intros env claims.
  destruct (bootstrapped_guardian_signs_in sample_hmac toy_sha "self" (reader_of claims) env "cli" "dev"
    None empty_boot) as (r & pr & st' & _ & _ & _ & Hweb).
  - exact empty_bootstrappable.
  - apply reader_reads.
  - exists pr, st'. exact (Hweb (quiet_env "2" 9) "http://localhost:3000" eq_refl eq_refl).
Defined.

(** ** Two guardians *)

(** The evidence of an earlier guardian is read before the owner's name is fetched:
    of two calls that wait for it at once each makes up a principal, both are bound,
    and one caller's principal is not the guardian's. *)
Lemma concurrent_bootstraps_diverge :
  let second := quiet_env "2" 5 in
  let racing := sample_env "1" 6 (λ st, (ensureVellumGuardianBinding second false st).2) in
  (ensureVellumGuardianBinding second false empty_boot).1 = inr "vellum-principal-2"
  ∧ ∃ st', ensureVellumGuardianBinding racing false empty_boot = (inr "vellum-principal-1", st')
    ∧ findVellumGuardian st'.(boot_db) = Some "vellum-principal-1"
    ∧ principalId <$> contacts st'.(boot_db)
      = [Some "vellum-principal-2"; Some "vellum-principal-1"].
Proof. split; [vm_compute; reflexivity|]. eexists. split_and!; vm_compute; reflexivity. Qed.

(** ** A guardian called local *)

(** A device paired before there is a guardian gets tokens of the principal [local],
    which is no guardian's; the next start recovers the guardian from them. *)
Lemma paired_fallback_recovered :
  let '(_, st) := mintDeviceBoundPairResponse sample_hmac toy_sha "self" (quiet_env "1" 5)
                    (resolveLocalGuardianPrincipalId empty_boot.(boot_db)) "cli" "dev" None empty_boot in
  findVellumGuardian st.(boot_db) = None
  ∧ ∃ st', ensureVellumGuardianBinding (quiet_env "2" 9) true st = (inr "local", st')
    ∧ findVellumGuardian st'.(boot_db) = Some "local".
Proof. vm_compute. split; [reflexivity|]. eexists. split; reflexivity. Qed.
