(* ===== verification/AuthRateLimit.v ===== *)
(** The limit on failed authentications and what is local to the machine
    ([gateway/src/auth-rate-limiter.ts], [http/middleware/rate-limit.ts],
    [util/is-loopback-address.ts], the client address of [index.ts]).

    The limiter holds, per address, the times of its failures in the window. Every
    operation takes the time it reads. *)
From Stdlib Require Import Sorted.
From S2P Require Import DedupCache.
From S2P Require Import Prelude JsString JsMap.

#[local] Open Scope Z_scope.

(** ** The limiter *)

Definition DEFAULT_MAX_FAILURES : nat := 10.
Definition DEFAULT_WINDOW_MS : Z := 60000.
Definition MAX_TRACKED_IPS : Z := 50000.

Definition Failures : Type := list (string * list Z).

(** Expired timestamps leave from the front. *)
Fixpoint prune (cutoff : Z) (ts : list Z) : list Z :=
  match ts with
  | t :: ts' => if t <=? cutoff then prune cutoff ts' else ts
  | [] => []
  end.

Section Limiter.
Context (maxFailures : nat) (windowMs : Z).

Definition evictStale (now : Z) (failures : Failures) : Failures :=
  omap (λ e : string * list Z, match prune (now - windowMs) e.2 with
                               | [] => None
                               | ts => Some (e.1, ts)
                               end) failures.

Definition recordFailure (ip : string) (now : Z) (failures : Failures) : Failures :=
  match map_get ip failures with
  | Some timestamps => map_set ip (timestamps ++ [now]) failures
  | None =>
      let failures :=
        if MAX_TRACKED_IPS <=? Z.of_nat (map_size failures) then
          let failures := evictStale now failures in
          if MAX_TRACKED_IPS <=? Z.of_nat (map_size failures) then DedupCache.drop_oldest failures
          else failures
        else failures in
      map_set ip [now] failures
  end.

Definition isBlocked (ip : string) (now : Z) (failures : Failures) : bool * Failures :=
  match map_get ip failures with
  | None => (false, failures)
  | Some timestamps =>
      match prune (now - windowMs) timestamps with
      | [] => (false, map_delete ip failures)
      | ts => ((maxFailures <=? length ts)%nat, map_set ip ts failures)
      end
  end.

Definition clearIp (ip : string) (failures : Failures) : Failures := map_delete ip failures.
End Limiter.

(** ** Numbers as [Number] reads them

    A part of a dotted address has no dot, so a decimal literal is an integer with an
    exponent. The comparisons are those of the nearest double. *)

Inductive JsNumber := js_NaN | js_infinity (negative : bool) | js_scaled (mantissa exponent : Z).

Definition digit_value (c : ascii) : option Z :=
  let n := Z.of_N (N_of_ascii c) in
  if (48 <=? n) && (n <=? 57) then Some (n - 48)
  else if (97 <=? n) && (n <=? 122) then Some (n - 87)
  else if (65 <=? n) && (n <=? 90) then Some (n - 55)
  else None.

(** The longest run of digits of the base: what it adds to [acc], how long it is, and the rest. *)
Fixpoint read_digits (base acc : Z) (s : string) : Z * nat * string :=
  match s with
  | String c s' =>
      match digit_value c with
      | Some d =>
          if d <? base then
            let '(v, n, rest) := read_digits base (acc * base + d) s' in (v, S n, rest)
          else (acc, O, s)
      | None => (acc, O, s)
      end
  | EmptyString => (acc, O, s)
  end.

(** All of [s], at least one digit. *)
Definition whole_number (base : Z) (s : string) : option Z :=
  match read_digits base 0 s with (v, S _, EmptyString) => Some v | _ => None end.

Definition sign_of (s : string) : Z * string :=
  match s with
  | String "-" s => (-1, s)
  | String "+" s => (1, s)
  | _ => (1, s)
  end.

Definition decimal (s : string) : JsNumber :=
  let '(sign, body) := sign_of s in
  if String.eqb body "Infinity" then js_infinity (sign <? 0)
  else
    match read_digits 10 0 body with
    | (v, S _, EmptyString) => js_scaled (sign * v) 0
    | (v, S _, String c rest) =>
        if Ascii.eqb c "e" || Ascii.eqb c "E" then
          let '(esign, digits) := sign_of rest in
          match whole_number 10 digits with
          | Some e => js_scaled (sign * v) (esign * e)
          | None => js_NaN
          end
        else js_NaN
    | _ => js_NaN
    end.

Definition Number (part : string) : JsNumber :=
  let in_base base s := match whole_number base s with Some v => js_scaled v 0 | None => js_NaN end in
  match trim part with
  | EmptyString => js_scaled 0 0
  | String "0" (String "x" s) | String "0" (String "X" s) => in_base 16 s
  | String "0" (String "o" s) | String "0" (String "O" s) => in_base 8 s
  | String "0" (String "b" s) | String "0" (String "B" s) => in_base 2 s
  | s => decimal s
  end.

(** [mantissa * 10^exponent] against [n / 2^k]. *)
Definition compare_scaled (mantissa exponent n k : Z) : comparison :=
  if 0 <=? exponent then (mantissa * 10 ^ exponent * 2 ^ k) ?= n
  else (mantissa * 2 ^ k) ?= (n * 10 ^ (- exponent)).

(** [n < 0]: below half of the least double it rounds to [-0]. *)
Definition js_negative (n : JsNumber) : bool :=
  match n with
  | js_NaN => false
  | js_infinity negative => negative
  | js_scaled m e => match compare_scaled m e (-1) 1075 with Lt => true | _ => false end
  end.

(** [n > 255]: the doubles at 255 are 2^-45 apart, and a tie goes to 255. *)
Definition js_above_255 (n : JsNumber) : bool :=
  match n with
  | js_NaN => false
  | js_infinity negative => negb negative
  | js_scaled m e => match compare_scaled m e (255 * 2 ^ 46 + 1) 46 with Gt => true | _ => false end
  end.

(** [n === 127]: the doubles at 127 are 2^-46 apart, and ties go to 127. *)
Definition js_is_127 (n : JsNumber) : bool :=
  match n with
  | js_scaled m e =>
      match compare_scaled m e (127 * 2 ^ 47 - 1) 47, compare_scaled m e (127 * 2 ^ 47 + 1) 47 with
      | Lt, _ | _, Gt => false
      | _, _ => true
      end
  | _ => false
  end.

(** ** Loopback *)

Definition is_digits (s : string) : bool :=
  forallb (λ c, match digit_value c with Some d => d <? 10 | None => false end)
    (String.list_ascii_of_string s).

(** [\d{1,3}\.\d{1,3}\.\d{1,3}\.\d{1,3}] *)
Definition dotted_quad (s : string) : bool :=
  let parts := split_char "." s in
  (length parts =? 4)%nat
  && forallb (λ p, is_digits p && (1 <=? String.length p)%nat && (String.length p <=? 3)%nat) parts.

Definition isLoopbackAddress (addr : string) : bool :=
  let mapped := slice_from 7 addr in
  let normalized := if starts_with (to_lower addr) "::ffff:" && dotted_quad mapped
                    then mapped else addr in
  if includes_char normalized "." then
    let parts := Number <$> split_char "." normalized in
    if negb (length parts =? 4)%nat
       || existsb (λ p, match p with js_NaN => true | _ => js_negative p || js_above_255 p end) parts
    then false
    else match parts with first :: _ => js_is_127 first | [] => false end
  else String.eqb (to_lower normalized) "::1".

(** What the loopback checks read off a request: [server.requestIP(req)?.address] and
    the forwarding header. *)
Record PeerInfo := {
  peer_address : option string;
  peer_forwardedFor : option string
}.

Definition first_forwarded (forwarded : string) : string :=
  match split_char "," forwarded with first :: _ => trim first | [] => "" end.

Definition isLoopbackPeer (trustProxy : bool) (peer : PeerInfo) : bool :=
  let peerIsLoopback := match peer.(peer_address) with
                        | Some a => isLoopbackAddress a
                        | None => false
                        end in
  if trustProxy then
    if negb peerIsLoopback then false
    else
      let forwarded := default "" peer.(peer_forwardedFor) in
      if truthy forwarded then
        let first := first_forwarded forwarded in
        if negb (truthy first) then false else isLoopbackAddress first
      else true
  else peerIsLoopback.

Definition getClientIp (trustProxy : bool) (peer : PeerInfo) : string :=
  let raw := default "unknown" peer.(peer_address) in
  if trustProxy then
    let forwarded := default "" peer.(peer_forwardedFor) in
    if truthy forwarded then
      let first := first_forwarded forwarded in
      if truthy first then first else raw
    else raw
  else raw.

(** ** The check of a request *)

Definition isRateLimitedRoute (pathname : string) : bool :=
  String.eqb pathname "/integrations/status"
  || String.eqb pathname "/webhooks/oauth/callback" || starts_with pathname "/v1/".

(** [true]: the request is answered 429. *)
Definition checkAuthRateLimit (maxFailures : nat) (windowMs : Z) (pathname clientIp : string)
    (now : Z) (failures : Failures) : bool * Failures :=
  if negb (isRateLimitedRoute pathname) then (false, failures)
  else if isLoopbackAddress clientIp then (false, clearIp clientIp failures)
  else isBlocked maxFailures windowMs clientIp now failures.

Example loopback_spellings :
  isLoopbackAddress <$> ["127.0.0.1"; "::1"; "::FFFF:127.9.8.7"; "127.0.0.0x1"; "0x7f.. .1e1";
                         "127.0.0.256"; "127.0.1"; "10.0.0.1"; "12700e-2.0.0.0"]
  = [true; true; true; true; true; false; false; false; true].
Proof. reflexivity. Qed.

(** ** What the limiter counts *)

Definition since (cutoff : Z) (ts : list Z) : nat := length (List.filter (λ t, cutoff <? t) ts).

Lemma since_app c ts ts' : since c (ts ++ ts') = (since c ts + since c ts')%nat.
Proof. unfold since. by rewrite List.filter_app, length_app. Qed.

Lemma prune_sorted c ts : StronglySorted Z.le ts → prune c ts = List.filter (λ t, c <? t) ts.
Proof.
  induction 1 as [|t ts Hs IH Ht]; [done|]. simpl. destruct (Z.leb_spec t c).
  - by rewrite (proj2 (Z.ltb_ge _ _)).
  - rewrite (proj2 (Z.ltb_lt _ _)) by done. f_equal. symmetry. apply filter_all.
    intros x Hx. apply Z.ltb_lt. rewrite Forall_forall in Ht. specialize (Ht x Hx). lia.
Qed.

Lemma since_prune c c' ts : StronglySorted Z.le ts → c <= c' → since c' (prune c ts) = since c' ts.
Proof.
  intros Hs Hc. induction Hs as [|t ts Hs IH Ht]; [done|]. simpl.
  destruct (Z.leb_spec t c); [|done]. rewrite IH. unfold since. simpl.
  by rewrite (proj2 (Z.ltb_ge _ _)) by lia.
Qed.

Lemma prune_keeps (P : Z → Prop) c ts : Forall P ts → Forall P (prune c ts).
Proof. induction 1; simpl; [done|]. case_match; [done|by constructor]. Qed.

Lemma prune_sorted_keeps c ts : StronglySorted Z.le ts → StronglySorted Z.le (prune c ts).
Proof. induction 1; simpl; [constructor|]. case_match; [done|by constructor]. Qed.

Lemma sorted_snoc now ts :
  StronglySorted Z.le ts → Forall (λ t, t <= now) ts → StronglySorted Z.le (ts ++ [now]).
Proof.
  induction 1 as [|t ts Hs IH Ht]; intros H; simpl; [repeat constructor|].
  apply Forall_cons in H as [H1 H2]. constructor; [by apply IH|]. apply Forall_app. split; [done|].
  by constructor.
Qed.

Section Counting.
Context (maxFailures : nat) (windowMs : Z).

Inductive LimiterCall := Failed (ip : string) | Asked (ip : string) | Cleared (ip : string).

Definition call_ip (call : LimiterCall) : string :=
  match call with Failed ip | Asked ip | Cleared ip => ip end.

Definition limiter_step (m : Failures) (e : Z * LimiterCall) : Failures :=
  match e.2 with
  | Failed ip => recordFailure windowMs ip e.1 m
  | Asked ip => (isBlocked maxFailures windowMs ip e.1 m).2
  | Cleared ip => clearIp ip m
  end.

(** The reference: every failure of an address since it was cleared last. *)
Definition log_step (log : string → list Z) (e : Z * LimiterCall) : string → list Z := λ ip,
  match e.2 with
  | Failed i => if String.eqb i ip then log ip ++ [e.1] else log ip
  | Asked _ => log ip
  | Cleared i => if String.eqb i ip then [] else log ip
  end.

Definition limiter_run (trace : list (Z * LimiterCall)) : Failures := foldl limiter_step [] trace.
Definition limiter_log (trace : list (Z * LimiterCall)) : string → list Z :=
  foldl log_step (λ _, []) trace.

Definition count (c : Z) (ip : string) (m : Failures) : nat := since c (default [] (map_get ip m)).

(** [exact]: nothing was dropped for want of room. *)
Record limiter_inv (exact : bool) (last : Z) (log : string → list Z) (m : Failures) : Prop := {
  li_wf : map_wf m;
  li_size : Z.of_nat (map_size m) <= MAX_TRACKED_IPS;
  li_sorted : ∀ ip ts, map_get ip m = Some ts →
              StronglySorted Z.le ts ∧ Forall (λ t, t <= last) ts;
  li_counts : ∀ ip c, last - windowMs <= c →
              (count c ip m <= since c (log ip))%nat
              ∧ (exact = true → count c ip m = since c (log ip))
}.

Lemma inv_later exact last now log m :
  limiter_inv exact last log m → last <= now → limiter_inv exact now log m.
Proof.
  intros [H1 H2 H3 H4] Hle. constructor; [done|done| |].
  - intros ip ts [Hs Hf]%H3. split; [done|]. eapply Forall_impl; [exact Hf|]. simpl. lia.
  - intros ip c Hc. apply H4. lia.
Qed.

(** Replacing what an address has by what counts the same. *)
Lemma inv_replace exact now log m ip ts ts' :
  limiter_inv exact now log m → map_get ip m = Some ts → ts' = prune (now - windowMs) ts →
  limiter_inv exact now log (match ts' with [] => map_delete ip m | _ => map_set ip ts' m end).
Proof.
  intros [H1 H2 H3 H4] Hg Ht. destruct (H3 _ _ Hg) as [Hs Hf].
  set (m' := match ts' with [] => _ | _ => _ end).
  assert (∀ ip', map_get ip' m' = if decide (ip' = ip)
            then match ts' with [] => None | _ => Some ts' end else map_get ip' m) as Hget.
  { intros ip'. unfold m'. destruct ts'; [apply map_get_delete|apply map_get_set]. }
  constructor.
  - unfold m'. destruct ts'; [by apply map_wf_delete|by apply map_wf_set].
  - unfold m'. destruct ts'; [pose proof (size_delete_le m ip); lia|]. rewrite size_set.
    rewrite decide_True; [done|]. apply map_get_elem in Hg. by apply (list_elem_of_fmap_2 fst) in Hg.
  - intros ip' us. rewrite Hget. case_decide; [|apply H3]. intros E.
    assert (us = prune (now - windowMs) ts) as -> by (destruct ts'; congruence).
    split; [by apply prune_sorted_keeps|by apply prune_keeps].
  - intros ip' c Hc. assert (count c ip' m' = count c ip' m) as ->; [|by apply H4].
    unfold count. rewrite Hget. case_decide; [|done]. subst ip'. rewrite Hg. simpl.
    rewrite <- (since_prune (now - windowMs) c ts) by (done || lia). rewrite <- Ht. by destruct ts'.
Qed.

Lemma inv_asked exact now log m ip :
  limiter_inv exact now log m →
  limiter_inv exact now log (isBlocked maxFailures windowMs ip now m).2.
Proof.
  intros H. unfold isBlocked. destruct (map_get ip m) as [ts|] eqn:Hg; [|done].
  pose proof (inv_replace _ _ _ _ _ _ _ H Hg eq_refl) as H'. by destruct (prune _ ts).
Qed.

(** The answer counts the window. *)
Lemma blocked_counts exact now log m ip :
  limiter_inv exact now log m → (0 < maxFailures)%nat →
  (isBlocked maxFailures windowMs ip now m).1 = (maxFailures <=? count (now - windowMs) ip m)%nat.
Proof.
  intros [_ _ H3 _] Hpos. unfold isBlocked, count. destruct (map_get ip m) as [ts|] eqn:Hg; simpl.
  - destruct (H3 _ _ Hg) as [Hs _]. unfold since. rewrite <- prune_sorted by done.
    destruct (prune _ ts); [|done]. symmetry. by apply Nat.leb_gt.
  - symmetry. by apply Nat.leb_gt.
Qed.

Lemma evict_stale_cons now k ts m :
  evictStale windowMs now ((k, ts) :: m)
  = match prune (now - windowMs) ts with
    | [] => evictStale windowMs now m
    | us => (k, us) :: evictStale windowMs now m
    end.
Proof. unfold evictStale. simpl. by destruct (prune _ ts). Qed.

Lemma evict_stale_get now m ip :
  map_wf m → map_get ip (evictStale windowMs now m)
  = ts ← map_get ip m; match prune (now - windowMs) ts with [] => None | us => Some us end.
Proof.
  unfold map_wf. induction m as [|[k ts] m IH]; [done|]. rewrite evict_stale_cons. csimpl.
  intros [Hk Hwf]%NoDup_cons. specialize (IH Hwf).
  destruct (prune _ ts) as [|u us] eqn:Ep; simpl; case_decide as Hd; try done.
  - subst. rewrite IH. simpl. rewrite Ep. by rewrite (proj2 (map_get_None m k) Hk).
  - simpl. by rewrite Ep.
Qed.

Lemma evict_stale_keys now m ip ts : (ip, ts) ∈ evictStale windowMs now m → ip ∈ m.*1.
Proof.
  unfold evictStale. rewrite list_elem_of_omap. intros ([k us] & Hin & E). simpl in E.
  apply (list_elem_of_fmap_2 fst) in Hin. destruct (prune _ us); simplify_eq. done.
Qed.

Lemma evict_stale_wf now m : map_wf m → map_wf (evictStale windowMs now m).
Proof.
  unfold map_wf. induction m as [|[k ts] m IH]; [done|]. rewrite evict_stale_cons. csimpl.
  intros [Hk Hwf]%NoDup_cons. specialize (IH Hwf). destruct (prune _ ts); [done|].
  csimpl. apply NoDup_cons. split; [|done]. intros ([k' us] & E & Hin)%list_elem_of_fmap.
  simpl in E. subst. by apply evict_stale_keys in Hin.
Qed.

Lemma evict_stale_size now m : (map_size (evictStale windowMs now m) <= map_size m)%nat.
Proof.
  unfold map_size. induction m as [|[k ts] m IH]; [done|]. rewrite evict_stale_cons.
  destruct (prune _ ts); simpl; lia.
Qed.

Lemma inv_evict exact now log m :
  limiter_inv exact now log m → limiter_inv exact now log (evictStale windowMs now m).
Proof.
  intros [H1 H2 H3 H4]. constructor.
  - by apply evict_stale_wf.
  - pose proof (evict_stale_size now m). lia.
  - intros ip ts. rewrite evict_stale_get by done. destruct (map_get ip m) as [us|] eqn:Hg; [|done].
    destruct (H3 _ _ Hg) as [Hs Hf]. simpl. destruct (prune _ us) eqn:Ep; [done|]. intros [= <-].
    rewrite <- Ep. split; [by apply prune_sorted_keeps|by apply prune_keeps].
  - intros ip c Hc. assert (count c ip (evictStale windowMs now m) = count c ip m) as ->; [|by apply H4].
    unfold count. rewrite evict_stale_get by done. destruct (map_get ip m) as [us|] eqn:Hg; [|done].
    destruct (H3 _ _ Hg) as [Hs _]. simpl.
    rewrite <- (since_prune (now - windowMs) c us) by (done || lia). by destruct (prune _ us).
Qed.

Lemma inv_drop now log m :
  limiter_inv false now log m → limiter_inv false now log (DedupCache.drop_oldest m).
Proof.
  intros [H1 H2 H3 H4]. unfold DedupCache.drop_oldest.
  destruct (map_first_key m) as [k|]; [|by constructor]. constructor.
  - by apply map_wf_delete.
  - pose proof (size_delete_le m k). lia.
  - intros ip ts. rewrite map_get_delete. case_decide; [done|apply H3].
  - intros ip c Hc. split; [|done]. unfold count. rewrite map_get_delete.
    case_decide; [simpl; unfold since at 1; simpl; lia|by apply H4].
Qed.

Lemma inv_inexact exact now log m : limiter_inv exact now log m → limiter_inv false now log m.
Proof. intros [H1 H2 H3 H4]. constructor; try done. intros ip c Hc. split; [by apply H4|done]. Qed.

(** Adding a failure once there is room for it. *)
Lemma inv_add exact now log m ip :
  limiter_inv exact now log m →
  (is_Some (map_get ip m) ∨ Z.of_nat (map_size m) < MAX_TRACKED_IPS) →
  limiter_inv exact now (log_step log (now, Failed ip))
    (map_set ip (default [] (map_get ip m) ++ [now]) m).
Proof.
  intros [H1 H2 H3 H4] Hroom. constructor.
  - by apply map_wf_set.
  - rewrite size_set. case_decide as Hk; [done|]. destruct Hroom as [[ts Hg]|]; [|lia].
    exfalso. apply Hk. apply map_get_elem in Hg. by apply (list_elem_of_fmap_2 fst) in Hg.
  - intros ip' ts. rewrite map_get_set. case_decide; [|apply H3]. intros [= <-].
    destruct (map_get ip m) as [us|] eqn:Hg; simpl; [|by repeat constructor].
    destruct (H3 _ _ Hg) as [Hs Hf]. split; [by apply sorted_snoc|].
    apply Forall_app. split; [done|by repeat constructor].
  - intros ip' c Hc. unfold count, log_step. rewrite map_get_set. simpl.
    destruct (String.eqb_spec ip ip') as [<-|Hne].
    + rewrite decide_True by done. simpl. rewrite !since_app. destruct (H4 ip c Hc) as [Hle Heq].
      unfold count in *. split; [lia|]. intros He. by rewrite Heq.
    + rewrite decide_False by congruence. by apply H4.
Qed.
Lemma inv_record exact now log m ip :
  limiter_inv exact now log m →
  (exact = true → is_Some (map_get ip m) ∨ Z.of_nat (map_size m) < MAX_TRACKED_IPS) →
  limiter_inv exact now (log_step log (now, Failed ip)) (recordFailure windowMs ip now m).
Proof.
  intros H Hroom. unfold recordFailure. destruct (map_get ip m) as [ts|] eqn:Hg.
  { pose proof (inv_add _ _ _ _ ip H) as Ha. rewrite Hg in Ha. by apply Ha; left. }
  assert (∀ m1, limiter_inv exact now log m1 → map_get ip m1 = None →
    Z.of_nat (map_size m1) < MAX_TRACKED_IPS →
    limiter_inv exact now (log_step log (now, Failed ip)) (map_set ip [now] m1)) as Hadd.
  { intros m1 H1 Hg1 Hs. pose proof (inv_add _ _ _ _ ip H1) as Ha. rewrite Hg1 in Ha. by apply Ha; right. }
  destruct (Z.leb_spec MAX_TRACKED_IPS (Z.of_nat (map_size m))) as [Hfull|]; [|by apply Hadd].
  destruct exact; [by destruct (Hroom eq_refl) as [[? ?]|?]; [done|lia]|].
  pose proof (inv_evict _ _ _ _ H) as He. set (m1 := evictStale windowMs now m) in *.
  assert (map_get ip m1 = None) as Hg1.
  { unfold m1. rewrite evict_stale_get by apply H. by rewrite Hg. }
  destruct (Z.leb_spec MAX_TRACKED_IPS (Z.of_nat (map_size m1))) as [Hfull1|]; [|by apply Hadd].
  apply Hadd; [by apply inv_drop| |].
  - unfold DedupCache.drop_oldest. destruct (map_first_key m1); [|done]. rewrite map_get_delete.
    by case_decide.
  - assert (m1 ≠ []) as Hne by (intros E; rewrite E in Hfull1; done).
    pose proof (DedupCache.drop_oldest_size m1 (li_wf _ _ _ _ He) Hne).
    pose proof (li_size _ _ _ _ He). lia.
Qed.

Lemma inv_cleared exact now log m ip :
  limiter_inv exact now log m → limiter_inv exact now (log_step log (now, Cleared ip)) (clearIp ip m).
Proof.
  intros [H1 H2 H3 H4]. unfold clearIp. constructor.
  - by apply map_wf_delete.
  - pose proof (size_delete_le m ip). lia.
  - intros ip' ts. rewrite map_get_delete. case_decide; [done|apply H3].
  - intros ip' c Hc. unfold count, log_step. rewrite map_get_delete. simpl.
    destruct (String.eqb_spec ip ip') as [<-|Hne].
    + by rewrite decide_True.
    + rewrite decide_False by congruence. by apply H4.
Qed.

(** The addresses that are tracked have failed. *)
Lemma step_keys m e k : k ∈ (limiter_step m e).*1 → k ∈ m.*1 ∨ k = call_ip e.2.
Proof.
  assert (∀ ip v (m' : Failures), k ∈ (map_set ip v m').*1 → k ∈ m'.*1 ∨ k = ip) as Hset.
  { intros ip v m'. rewrite keys_set. case_decide; [by left|].
    rewrite elem_of_app, list_elem_of_singleton. tauto. }
  assert (∀ ip (m' : Failures), k ∈ (map_delete ip m').*1 → k ∈ m'.*1) as Hdel.
  { intros ip m'. rewrite keys_delete. by intros [_ ?]%list_elem_of_filter. }
  destruct e as [now []]; unfold limiter_step; simpl.
  - unfold recordFailure. destruct (map_get ip m); [apply Hset|]. intros [H| ->]%Hset; [left|by right].
    destruct (_ <=? _); [|done]. assert (k ∈ (evictStale windowMs now m).*1) as He.
    { destruct (_ <=? _); [|done]. unfold DedupCache.drop_oldest in H.
      destruct (map_first_key _); [by eapply Hdel|done]. }
    apply list_elem_of_fmap in He as ([k' ts] & -> & Hin). by eapply evict_stale_keys.
  - unfold isBlocked. destruct (map_get ip m); [|by left].
    destruct (prune _ _); [left; by eapply Hdel|apply Hset].
  - left. by eapply Hdel.
Qed.

Definition few_addresses (trace : list (Z * LimiterCall)) : Prop :=
  ∃ ips, (∀ e, e ∈ trace → call_ip e.2 ∈ ips) ∧ Z.of_nat (length ips) <= MAX_TRACKED_IPS.

Lemma room_among (ips : list string) (m : Failures) ip :
  map_wf m → (∀ k, k ∈ m.*1 → k ∈ ips) → ip ∈ ips → Z.of_nat (length ips) <= MAX_TRACKED_IPS →
  is_Some (map_get ip m) ∨ Z.of_nat (map_size m) < MAX_TRACKED_IPS.
Proof.
  intros Hwf Hk Hip Hlen. destruct (map_get ip m) as [ts|] eqn:Hg; [by left|right].
  apply map_get_None in Hg.
  assert (length (ip :: m.*1) <= length ips)%nat as Hle.
  { apply submseteq_length, NoDup_submseteq; [apply NoDup_cons; by split|].
    intros x [->|Hx]%elem_of_cons; [done|by apply Hk]. }
  simpl in Hle. rewrite length_fmap in Hle. unfold map_size. lia.
Qed.

Lemma run_inv exact ips trace last log m now :
  limiter_inv exact last log m → StronglySorted Z.le (last :: trace.*1 ++ [now]) →
  (exact = true → (∀ k, k ∈ m.*1 → k ∈ ips) ∧ (∀ e, e ∈ trace → call_ip e.2 ∈ ips)
                  ∧ Z.of_nat (length ips) <= MAX_TRACKED_IPS) →
  limiter_inv exact now (foldl log_step log trace) (foldl limiter_step m trace).
Proof.
  revert last log m. induction trace as [|[t call] trace IH]; intros last log m H Hs Hips; simpl in *.
  - apply StronglySorted_inv in Hs as [_ [Hle _]%Forall_cons]. by eapply inv_later.
  - apply StronglySorted_inv in Hs as [Hs [Hle _]%Forall_cons].
    pose proof (inv_later _ _ _ _ _ H Hle) as Ht.
    apply (IH t); [|done|].
    + destruct call.
      * apply inv_record; [done|]. intros He. destruct (Hips He) as (H1 & H2 & H3).
        apply (room_among ips); [apply Ht|done| |done]. apply (H2 (t, Failed ip)). by left.
      * by apply inv_asked.
      * by apply inv_cleared.
    + intros He. destruct (Hips He) as (H1 & H2 & H3). split_and!; [|intros; apply H2; by right|done].
      intros k [Hk| ->]%step_keys; [by apply H1|]. apply (H2 (t, call)). by left.
Qed.

(** The limiter blocks an address when its failures of the last window reach the
    threshold, and while no more than fifty thousand addresses fail exactly then,
    although it forgets the expired failures, the addresses without a recent one, and
    the oldest address when it is full; it never tracks more addresses than that. *)
Theorem limiter_counts_failures trace ip now :
  (0 < maxFailures)%nat → StronglySorted Z.le (trace.*1 ++ [now]) →
  let m := limiter_run trace in
  let recent := since (now - windowMs) (limiter_log trace ip) in
  let blocked := (isBlocked maxFailures windowMs ip now m).1 in
  Z.of_nat (map_size m) <= MAX_TRACKED_IPS
  ∧ (blocked = true → (maxFailures <= recent)%nat)
  ∧ (few_addresses trace → blocked = (maxFailures <=? recent)%nat).
Proof.
  intros Hpos Hs m recent blocked.
  assert (∀ exact last, limiter_inv exact last (λ _, []) []) as H0.
  { intros. constructor; [by apply NoDup_nil|done|done|done]. }
  assert (∃ first, StronglySorted Z.le (first :: trace.*1 ++ [now])) as [first Hf].
  { destruct trace as [|[t call] trace]; simpl in *.
    - exists now. repeat constructor. lia.
    - exists t. constructor; [done|]. constructor; [lia|]. by apply StronglySorted_inv in Hs as [_ ?]. }
  assert (limiter_inv false now (limiter_log trace) m) as Hi by by eapply (run_inv false []).
  destruct (li_counts _ _ _ _ Hi ip (now - windowMs)) as [Hle _]; [lia|].
  unfold blocked, recent. split_and!; [apply Hi| |].
  - rewrite (blocked_counts _ _ _ _ _ Hi Hpos). intros ?%Nat.leb_le. lia.
  - intros (ips & H1 & H2).
    assert (limiter_inv true now (limiter_log trace) m) as He.
    { apply (run_inv true ips _ first); [done|done|]. intros _. split_and!; [|done|done].
      by intros k ?%elem_of_nil. }
    rewrite (blocked_counts _ _ _ _ _ He Hpos).
    destruct (li_counts _ _ _ _ He ip (now - windowMs)) as [_ ->]; [lia|done|done].
Qed.
End Counting.

(** ** Concrete instances *)

Lemma limiter_counts_failures_witness :
  let trace := [(0, Failed "a"); (5, Asked "a"); (9, Failed "a")] in
  (isBlocked 2 60000 "a" 10 (limiter_run 2 60000 trace)).1
  = (2 <=? since (10 - 60000) (limiter_log trace "a"))%nat.
Proof.
  intros trace. apply (limiter_counts_failures 2 60000 trace "a" 10).
  - lia.
  - vm_compute. repeat constructor; discriminate.
  - exists ["a"]. split; [|vm_compute; discriminate]. intros e He. vm_compute in He.
    repeat (apply elem_of_cons in He as [->|He]; [left|]). by apply elem_of_nil in He.
Defined.

(** ** A loopback address in a header *)

(** Behind a declared proxy the loopback checks trust the forwarding header only when
    the socket is local; the limiter's client address trusts it from anyone, so a peer
    that reaches the port directly and names a loopback address is never limited. *)
Lemma forwarded_loopback_exempt :
  let spoof := {| peer_address := Some "203.0.113.7"; peer_forwardedFor := Some "127.0.0.1" |} in
  isLoopbackPeer true spoof = false
  ∧ ∀ maxFailures windowMs pathname now m,
      (checkAuthRateLimit maxFailures windowMs pathname (getClientIp true spoof) now m).1 = false.
Proof.
  split; [reflexivity|]. intros. unfold checkAuthRateLimit. by destruct (negb _).
Qed.
