(* ===== verification/AuthFallback.v ===== *)
(** The record of requests let in by the loopback fallback
    ([gateway/src/auth-fallback-count-tracker.ts], [auth-fallback-log-throttle.ts] and
    the flush of [auth-fallback-reporter.ts]): exact counts, drained into batches that
    are posted to the daemon and folded back when that fails, and a throttled log.

    A post takes time: the flush is two steps, and anything may happen between. *)
From S2P Require Import Prelude JsString JsMap.

#[local] Open Scope Z_scope.

Definition MAX_TRACKED_KEYS : Z := 10000.

(** ** Counts *)

Record AuthFallbackCount := {
  guard : string;
  path : string;
  failureKind : string;
  fallback_count : Z
}.

Definition composite_key (g p k : string) : string := g +:+ " " +:+ p +:+ " " +:+ k.

Definition key_of (c : AuthFallbackCount) : string := composite_key c.(guard) c.(path) c.(failureKind).

Record CountTracker := {
  counts : list (string * AuthFallbackCount);
  windowStartedAt : Z;
  warnedAtCap : bool
}.

Definition new_tracker (now : Z) : CountTracker :=
  {| counts := []; windowStartedAt := now; warnedAtCap := false |}.

Definition with_counts (m : list (string * AuthFallbackCount)) (t : CountTracker) : CountTracker :=
  {| counts := m; windowStartedAt := t.(windowStartedAt); warnedAtCap := t.(warnedAtCap) |}.

Definition add (g p k : string) (delta : Z) (t : CountTracker) : CountTracker :=
  let key := composite_key g p k in
  match map_get key t.(counts) with
  | Some e =>
      with_counts (map_set key {| guard := e.(guard); path := e.(path);
                                  failureKind := e.(failureKind);
                                  fallback_count := e.(fallback_count) + delta |} t.(counts)) t
  | None =>
      if MAX_TRACKED_KEYS <=? Z.of_nat (map_size t.(counts)) then
        {| counts := t.(counts); windowStartedAt := t.(windowStartedAt); warnedAtCap := true |}
      else
        with_counts (map_set key {| guard := g; path := p; failureKind := k;
                                    fallback_count := delta |} t.(counts)) t
  end.

Definition increment (g p k : string) (t : CountTracker) : CountTracker := add g p k 1 t.

Record AuthFallbackBatch := {
  windowStart : Z;
  windowEnd : Z;
  batch_counts : list AuthFallbackCount
}.

Definition drain (now : Z) (t : CountTracker) : AuthFallbackBatch * CountTracker :=
  let counts := t.(counts).*2 in
  ({| windowStart := t.(windowStartedAt); windowEnd := now; batch_counts := counts |},
   match counts with [] => t | _ => new_tracker now end).

Definition merge (cs : list AuthFallbackCount) (t : CountTracker) : CountTracker :=
  foldl (λ t c, add c.(guard) c.(path) c.(failureKind) c.(fallback_count) t) t cs.

(** ** The flush *)

(** The tracker, the batches being posted and those the daemon took. *)
Record ReporterState := {
  tracker : CountTracker;
  posting : list AuthFallbackBatch;
  shipped : list AuthFallbackBatch
}.

Inductive ReporterStep :=
  | Count (g p k : string)
  | FlushStarts (now : Z)
  | FlushEnds (n : nat) (accepted : bool).

Definition reporter_step (st : ReporterState) (s : ReporterStep) : ReporterState :=
  match s with
  | Count g p k =>
      {| tracker := increment g p k st.(tracker); posting := st.(posting); shipped := st.(shipped) |}
  | FlushStarts now =>
      let '(batch, t) := drain now st.(tracker) in
      match batch.(batch_counts) with
      | [] => {| tracker := t; posting := st.(posting); shipped := st.(shipped) |}
      | _ => {| tracker := t; posting := st.(posting) ++ [batch]; shipped := st.(shipped) |}
      end
  | FlushEnds n accepted =>
      match st.(posting) !! n with
      | None => st
      | Some batch =>
          let posting := delete n st.(posting) in
          if accepted then
            {| tracker := st.(tracker); posting := posting; shipped := st.(shipped) ++ [batch] |}
          else
            {| tracker := merge batch.(batch_counts) st.(tracker); posting := posting;
               shipped := st.(shipped) |}
      end
  end.

Definition reporter_run (now : Z) (steps : list ReporterStep) : ReporterState :=
  foldl reporter_step {| tracker := new_tracker now; posting := []; shipped := [] |} steps.

(** ** The throttled log *)

Definition DEFAULT_COOLDOWN_MS : Z := 60 * 60 * 1000.

(** The stable sort of the entries by time. *)
Fixpoint insert_by_time (e : string * Z) (es : list (string * Z)) : list (string * Z) :=
  match es with
  | [] => [e]
  | x :: es' => if e.2 <=? x.2 then e :: es else x :: insert_by_time e es'
  end.

Definition sort_by_time (es : list (string * Z)) : list (string * Z) := foldr insert_by_time [] es.

Definition throttle_room (cooldownMs now : Z) (m : list (string * Z)) : list (string * Z) :=
  if MAX_TRACKED_KEYS <=? Z.of_nat (map_size m) then
    let m := List.filter (λ e : string * Z, negb (cooldownMs <=? now - e.2)) m in
    if MAX_TRACKED_KEYS <=? Z.of_nat (map_size m) then
      let sorted := sort_by_time m in
      let toRemove := Z.of_nat (length sorted) - MAX_TRACKED_KEYS + 1 in
      foldl (λ m (e : string * Z), map_delete e.1 m) m (take (Z.to_nat toRemove) sorted)
    else m
  else m.

Definition shouldLog (cooldownMs : Z) (key : string) (now : Z) (m : list (string * Z))
    : bool * list (string * Z) :=
  match map_get key m with
  | Some last =>
      if now - last <? cooldownMs then (false, m)
      else (true, map_set key now (throttle_room cooldownMs now (map_delete key m)))
  | None => (true, map_set key now (throttle_room cooldownMs now m))
  end.

(** ** No count is lost *)

Definition sum_of (key : string) (cs : list AuthFallbackCount) : Z :=
  foldr (λ c n, (if String.eqb (key_of c) key then c.(fallback_count) else 0) + n) 0 cs.

Definition sum_batches (key : string) (bs : list AuthFallbackBatch) : Z :=
  foldr (λ b n, sum_of key b.(batch_counts) + n) 0 bs.

Definition tracked (key : string) (t : CountTracker) : Z :=
  match map_get key t.(counts) with Some c => c.(fallback_count) | None => 0 end.

(** What was counted. *)
Definition counted (key : string) (steps : list ReporterStep) : Z :=
  foldr (λ s n, match s with
                | Count g p k => (if String.eqb (composite_key g p k) key then 1 else 0) + n
                | _ => n
                end) 0 steps.

Lemma sum_batches_app key bs bs' : sum_batches key (bs ++ bs') = sum_batches key bs + sum_batches key bs'.
Proof. induction bs as [|b bs IH]; simpl; [done|]. rewrite IH. lia. Qed.

Lemma sum_batches_delete key bs n b :
  bs !! n = Some b → sum_batches key (delete n bs) = sum_batches key bs - sum_of key b.(batch_counts).
Proof.
  revert n. induction bs as [|c bs IH]; intros [|n] H; simplify_eq/=; [lia|]. rewrite (IH n) by done. lia.
Qed.

Lemma counted_snoc key steps s :
  counted key (steps ++ [s]) = counted key steps + counted key [s].
Proof.
  induction steps as [|x xs IH]; [done|]. simpl in *. rewrite IH.
  destruct x; lia.
Qed.

(** Entries stand under their own key, positive. *)
Record tracker_wf (ks : list string) (t : CountTracker) : Prop := {
  tw_wf : map_wf t.(counts);
  tw_keys : ∀ k c, (k, c) ∈ t.(counts) → key_of c = k ∧ 0 <= c.(fallback_count) ∧ k ∈ ks
}.

Lemma sum_tracked key ks t : tracker_wf ks t → sum_of key t.(counts).*2 = tracked key t.
Proof.
  intros [Hwf Hk]. unfold tracked. revert Hwf Hk. generalize t.(counts). intros m.
  unfold map_wf. induction m as [|[k c] m IH]; [done|]. csimpl. intros [Hn Hwf]%NoDup_cons Hk.
  rewrite IH; [|done|intros; apply Hk; by right].
  destruct (Hk k c) as (-> & _ & _); [by left|].
  destruct (String.eqb_spec k key) as [->|Hne].
  - rewrite decide_True by done. rewrite (proj2 (map_get_None m key) Hn). lia.
  - by rewrite decide_False by congruence.
Qed.

Lemma add_spec ks g p k delta t :
  tracker_wf ks t → composite_key g p k ∈ ks → 0 <= delta →
  tracker_wf ks (add g p k delta t)
  ∧ ∀ key, let d := if String.eqb (composite_key g p k) key then delta else 0 in
      tracked key (add g p k delta t) <= tracked key t + d
      ∧ (Z.of_nat (length ks) <= MAX_TRACKED_KEYS →
         tracked key (add g p k delta t) = tracked key t + d).
Proof.
  intros Hw Hin Hd. destruct Hw as [Hwf Hk]. unfold add. set (ck := composite_key g p k) in *.
  assert (∀ c, key_of c = ck → 0 <= c.(fallback_count) →
    tracker_wf ks (with_counts (map_set ck c (counts t)) t)) as Hset.
  { intros c Hc Hc0. constructor; [by apply map_wf_set|]. simpl. intros k' c' H.
    assert (map_get k' (map_set ck c (counts t)) = Some c') as Hg
      by (apply elem_map_get; [by apply map_wf_set|done]).
    rewrite map_get_set in Hg. case_decide; simplify_eq; [done|]. by apply Hk, map_get_elem. }
  destruct (map_get ck (counts t)) as [e|] eqn:Hg.
  - destruct (Hk ck e) as (He & He0 & _); [by apply map_get_elem|]. split.
    { apply Hset; [by destruct e|]. simpl. lia. }
    intros key. simpl. unfold tracked. simpl. rewrite map_get_set.
    destruct (String.eqb_spec ck key) as [<-|Hne].
    + rewrite decide_True, Hg by done. simpl. lia.
    + rewrite decide_False by congruence. lia.
  - destruct (Z.leb_spec MAX_TRACKED_KEYS (Z.of_nat (map_size (counts t)))) as [Hfull|Hroom].
    + split; [by constructor|]. intros key. unfold tracked. simpl.
      assert (¬ Z.of_nat (length ks) <= MAX_TRACKED_KEYS) as Hmany.
      { intros Hle. apply map_get_None in Hg.
        assert (length (ck :: (counts t).*1) <= length ks)%nat as Hl.
        { apply submseteq_length, NoDup_submseteq; [by apply NoDup_cons|].
          intros x [->|([k' c'] & -> & Hx)%list_elem_of_fmap]%elem_of_cons; [done|].
          by destruct (Hk _ _ Hx) as (_ & _ & ?). }
        simpl in Hl. rewrite length_fmap in Hl. unfold map_size in Hfull. lia. }
      split; [|done]. destruct (String.eqb ck key); lia.
    + split; [by apply Hset|]. intros key. simpl. unfold tracked. simpl. rewrite map_get_set.
      destruct (String.eqb_spec ck key) as [<-|Hne].
      * rewrite decide_True, Hg by done. simpl. lia.
      * rewrite decide_False by congruence. lia.
Qed.

Definition batch_wf (ks : list string) (cs : list AuthFallbackCount) : Prop :=
  Forall (λ c, key_of c ∈ ks ∧ 0 <= c.(fallback_count)) cs.

Lemma merge_spec ks cs t :
  tracker_wf ks t → batch_wf ks cs →
  tracker_wf ks (merge cs t)
  ∧ ∀ key, tracked key (merge cs t) <= tracked key t + sum_of key cs
      ∧ (Z.of_nat (length ks) <= MAX_TRACKED_KEYS →
         tracked key (merge cs t) = tracked key t + sum_of key cs).
Proof.
  intros Hw Hb. revert t Hw. induction Hb as [|c cs [Hc1 Hc2] Hb IH]; intros t Hw; simpl.
  { split; [done|]. intros key. lia. }
  destruct (add_spec ks c.(guard) c.(path) c.(failureKind) c.(fallback_count) t) as [Hw1 H1]; [done..|].
  destruct (IH _ Hw1) as [Hw2 H2]. split; [done|]. intros key.
  specialize (H1 key). specialize (H2 key). cbv zeta in H1. fold (key_of c) in H1.
  unfold merge in *. destruct H1, H2. split; [lia|]. intros Hs. rewrite H2 by done. rewrite H0 by done. lia.
Qed.

(** The keys that are counted. *)
Definition step_key (s : ReporterStep) : option string :=
  match s with Count g p k => Some (composite_key g p k) | _ => None end.

Record reporter_inv (ks : list string) (st : ReporterState) (n : string → Z) : Prop := {
  ri_tracker : tracker_wf ks st.(tracker);
  ri_posting : Forall (λ b, batch_wf ks b.(batch_counts)) st.(posting);
  ri_sum : ∀ key,
    let total := tracked key st.(tracker) + sum_batches key st.(posting)
                 + sum_batches key st.(shipped) in
    total <= n key ∧ (Z.of_nat (length ks) <= MAX_TRACKED_KEYS → total = n key)
}.

Lemma drained_wf ks t : tracker_wf ks t → batch_wf ks t.(counts).*2.
Proof.
  intros [_ Hk]. apply Forall_forall. intros c ([k c'] & -> & Hin)%list_elem_of_fmap. simpl.
  destruct (Hk k c') as (-> & ? & ?); done.
Qed.

Lemma inv_reporter_step ks st s n :
  reporter_inv ks st n → (∀ k, step_key s = Some k → k ∈ ks) →
  reporter_inv ks (reporter_step st s) (λ key, n key + counted key [s]).
Proof.
  intros [Ht Hp Hs] Hk. destruct s as [g p k|now|i accepted]; simpl.
  - destruct (add_spec ks g p k 1 st.(tracker)) as [Hw H]; [done|by apply Hk|done|].
    constructor; [done|done|]. intros key. specialize (H key). specialize (Hs key).
    cbv zeta in H, Hs |- *. unfold increment. simpl. destruct H, Hs. split; [lia|].
    intros Hl. rewrite H0 by done. specialize (H2 Hl). lia.
  - assert (∀ key, sum_of key (counts st.(tracker)).*2 = tracked key st.(tracker)) as Hsum
      by (intros; by eapply sum_tracked).
    pose proof (drained_wf _ _ Ht) as Hd. unfold drain. cbn [fst snd batch_counts].
    destruct ((counts st.(tracker)).*2) as [|c cs] eqn:E.
    + constructor; [done|done|]. intros key. specialize (Hs key). simpl. by rewrite Z.add_0_r.
    + constructor; simpl.
      * constructor; [by apply NoDup_nil|]. by intros ? ? ?%elem_of_nil.
      * apply Forall_app. split; [done|]. by constructor.
      * intros key. specialize (Hs key). specialize (Hsum key). rewrite sum_batches_app. simpl in *.
        unfold tracked at 1 2. simpl. rewrite !Z.add_0_r. lia.
  - destruct (posting st !! i) as [b|] eqn:Hi.
    + pose proof (sum_batches_delete) as Hdel. rewrite Forall_forall in Hp.
      assert (batch_wf ks b.(batch_counts)) as Hb by by eapply Hp, list_elem_of_lookup_2.
      assert (Forall (λ b, batch_wf ks b.(batch_counts)) (delete i (posting st))) as Hp'.
      { apply Forall_forall. intros x Hx. apply Hp. rewrite delete_take_drop in Hx.
        apply elem_of_app in Hx as [Hx|Hx]; [by eapply elem_of_take in Hx as (? & ? & _);
          eapply list_elem_of_lookup_2|].
        apply list_elem_of_lookup in Hx as (j & Hj). rewrite lookup_drop in Hj.
        by eapply list_elem_of_lookup_2. }
      destruct accepted.
      * constructor; [done|done|]. intros key. specialize (Hs key). simpl.
        rewrite (Hdel key _ _ _ Hi), sum_batches_app. simpl in *. rewrite !Z.add_0_r. lia.
      * destruct (merge_spec ks b.(batch_counts) st.(tracker)) as [Hw H]; [done|done|].
        constructor; [done|done|]. intros key. specialize (Hs key). specialize (H key). simpl in *.
        rewrite (Hdel key _ _ _ Hi), !Z.add_0_r. destruct H, Hs. split; [lia|]. intros Hl.
        rewrite H0 by done. specialize (H2 Hl). lia.
    + constructor; [done|done|]. intros key. specialize (Hs key). simpl. by rewrite Z.add_0_r.
Qed.

(** Flushing neither loses nor repeats a count, whatever of it fails and overlaps:
    what waits, what is being posted and what the daemon took add up to what was
    counted, when at most ten thousand keys are in use, and never to more. *)
Theorem fallback_counts_conserved now steps key :
  let st := reporter_run now steps in
  let total := tracked key st.(tracker) + sum_batches key st.(posting) + sum_batches key st.(shipped) in
  total <= counted key steps
  ∧ (Z.of_nat (length (remove_dups (omap step_key steps))) <= MAX_TRACKED_KEYS →
     total = counted key steps).
Proof.
  intros st total. set (ks := remove_dups (omap step_key steps)).
  assert (∀ xs, (∀ s k, s ∈ xs → step_key s = Some k → k ∈ ks) →
    reporter_inv ks (reporter_run now xs) (λ key, counted key xs)) as H.
  { intros xs. induction xs as [|s xs IH] using rev_ind; intros Hk.
    - constructor; [constructor; [by apply NoDup_nil|by intros ? ? ?%elem_of_nil]|done|].
      intros k. done.
    - assert (reporter_inv ks (reporter_step (reporter_run now xs) s)
               (λ key, counted key xs + counted key [s])) as Hi.
      { apply inv_reporter_step.
        - apply IH. intros s' k Hs. apply Hk. apply elem_of_app. by left.
        - intros k. apply Hk. apply elem_of_app. right. by left. }
      unfold reporter_run in *. rewrite foldl_app. simpl. destruct Hi as [H1 H2 H3].
      constructor; [done|done|]. intros k. rewrite counted_snoc. apply H3. }
  apply (ri_sum ks _ _ (H steps ltac:(intros s k Hs E; unfold ks; apply elem_of_remove_dups,
    list_elem_of_omap; eauto)) key).
Qed.

Lemma fallback_counts_conserved_witness :
  let steps := [Count "edge" "/v1/a" "x"; FlushStarts 1; Count "edge" "/v1/a" "x"; FlushEnds 0 false] in
  tracked "edge /v1/a x" (reporter_run 0 steps).(tracker) = 2.
Proof.
  intros steps.
  destruct (fallback_counts_conserved 0 steps "edge /v1/a x") as [_ H].
  specialize (H ltac:(vm_compute; discriminate)).
  assert (sum_batches "edge /v1/a x" (reporter_run 0 steps).(posting) = 0
          ∧ sum_batches "edge /v1/a x" (reporter_run 0 steps).(shipped) = 0) as [E1 E2]
    by (split; vm_compute; reflexivity).
  rewrite E1, E2 in H. rewrite !Z.add_0_r in H. exact H.
Defined.

(** ** The log stays small *)

Lemma size_delete_in {V} (m : list (string * V)) k :
  map_wf m → k ∈ m.*1 → S (map_size (map_delete k m)) = map_size m.
Proof.
  unfold map_wf. induction m as [|[k1 v] m IH]; csimpl; [by intros _ ?%elem_of_nil|].
  intros [Hn Hwf]%NoDup_cons [->|Hk]%elem_of_cons.
  - by rewrite decide_True, map_delete_notin.
  - rewrite decide_False by congruence. unfold map_size in *. simpl. f_equal. by apply IH.
Qed.

Lemma insert_by_time_perm e es : insert_by_time e es ≡ₚ e :: es.
Proof.
  induction es as [|x es IH]; [done|]. simpl. destruct (_ <=? _); [done|]. rewrite IH. apply Permutation_swap.
Qed.

Lemma sort_by_time_perm es : sort_by_time es ≡ₚ es.
Proof. induction es as [|e es IH]; [done|]. simpl. by rewrite insert_by_time_perm, IH. Qed.

Lemma throttle_room_spec cooldownMs now m :
  map_wf m → Z.of_nat (map_size m) <= MAX_TRACKED_KEYS →
  map_wf (throttle_room cooldownMs now m)
  ∧ Z.of_nat (map_size (throttle_room cooldownMs now m)) < MAX_TRACKED_KEYS.
Proof.
  intros Hwf Hle. unfold throttle_room.
  destruct (Z.leb_spec MAX_TRACKED_KEYS (Z.of_nat (map_size m))) as [Hfull|]; [|done].
  set (m1 := List.filter _ m).
  assert (map_wf m1) as Hwf1.
  { unfold map_wf, m1 in *. clear Hle Hfull. induction m as [|e m IH]; [constructor|]. csimpl in *.
    apply NoDup_cons in Hwf as [Hn Hwf]. specialize (IH Hwf). destruct (negb _); [|done]. csimpl.
    apply NoDup_cons. split; [|done]. intros (x & E & [Hx _]%elem_of_lfilter)%list_elem_of_fmap.
    apply Hn. rewrite E. by apply list_elem_of_fmap_2. }
  assert (map_size m1 <= map_size m)%nat as Hsz by apply List.filter_length_le.
  destruct (Z.leb_spec MAX_TRACKED_KEYS (Z.of_nat (map_size m1))) as [Hfull1|]; [|done].
  pose proof (sort_by_time_perm m1) as Hp.
  assert (length (sort_by_time m1) = map_size m1) as Hlen by by rewrite Hp.
  replace (Z.to_nat _) with 1%nat by (rewrite Hlen; lia).
  destruct (sort_by_time m1) as [|e es] eqn:Es.
  { simpl in Hlen. unfold MAX_TRACKED_KEYS in *. lia. }
  simpl. split; [by apply map_wf_delete|].
  assert (e ∈ m1) as He by (rewrite <- Hp; by left).
  pose proof (size_delete_in m1 e.1 Hwf1 (list_elem_of_fmap_2 fst _ _ He)). lia.
Qed.

(** At most ten thousand keys are remembered, and a key is logged again only when the
    cooldown is over. *)
Lemma log_throttled cooldownMs key now m :
  map_wf m → Z.of_nat (map_size m) <= MAX_TRACKED_KEYS →
  let '(logged, m') := shouldLog cooldownMs key now m in
  map_wf m' ∧ Z.of_nat (map_size m') <= MAX_TRACKED_KEYS
  ∧ (logged = false ↔ ∃ last, map_get key m = Some last ∧ now - last < cooldownMs)
  ∧ (logged = true → map_get key m' = Some now).
Proof.
  intros Hwf Hle. unfold shouldLog.
  assert (∀ m, map_wf m → Z.of_nat (map_size m) <= MAX_TRACKED_KEYS →
    let m' := map_set key now (throttle_room cooldownMs now m) in
    map_wf m' ∧ Z.of_nat (map_size m') <= MAX_TRACKED_KEYS ∧ map_get key m' = Some now) as H.
  { intros m0 H1 H2. destruct (throttle_room_spec cooldownMs now m0 H1 H2) as [H3 H4].
    split_and!; [by apply map_wf_set| |].
    - rewrite size_set. case_decide; lia.
    - by rewrite map_get_set, decide_True. }
  destruct (map_get key m) as [last|] eqn:Hg.
  - destruct (Z.ltb_spec (now - last) cooldownMs).
    + split_and!; [done..| |done]. split; [eauto|done].
    + destruct (H (map_delete key m)) as (H1 & H2 & H3);
        [by apply map_wf_delete|pose proof (size_delete_le m key); lia|].
      split_and!; [done..| |done]. split; [done|]. intros (? & [= <-] & ?). lia.
  - destruct (H m Hwf Hle) as (H1 & H2 & H3). split_and!; [done..| |done].
    split; [done|]. by intros (? & ? & _).
Qed.
