(* ===== verification/EdgeAuth.v ===== *)
(** The guards of the gateway's edge ([gateway/src/http/middleware/auth.ts]) and the
    dispatch of a request to a route ([http/router.ts]), behind the limit on failures.

    A guard reads the request's headers and its peer, the token tables and the
    contacts; it writes the tokens' activity, the failures of the address, and the
    counts and the log of the loopback fallback. The platform's answer on the bound
    user, and whether the lookup of the guardian throws, are arguments. *)
From Stdlib Require Import Sorted.
From S2P Require Import DedupCache.
From S2P Require Import Prelude JsString JsMap SenderTrust ContactStore.
From S2P Require Import AuthRateLimit AuthFallback EdgeTokens DeviceTokens GuardianBootstrap.

(** ** Requests and state *)

Record EdgeRequest := {
  er_method : string;
  er_path : string;
  er_authorization : option string;
  er_platformUserId : option string;      (** [x-vellum-user-id] *)
  er_viaEdgeProxy : bool;                 (** the marker of the edge proxy is there *)
  er_hasServer : bool;
  er_peer : PeerInfo
}.

Definition requestArrivedViaEdgeProxy (req : EdgeRequest) : bool := req.(er_viaEdgeProxy).

Inductive PlatformLookup := lookup_throws | lookup_result (userId : option string) (unreachable : bool).

Record EdgeEnv := {
  ee_now : Z;
  ee_DISABLE_HTTP_AUTH : option string;
  ee_IS_PLATFORM : option string;
  ee_platformUser : PlatformLookup;
  ee_guardianThrows : bool
}.

Record EdgeState := {
  edge_db : GatewayDb;
  edge_tokens : TokenState;
  edge_failures : Failures;
  edge_fallbacks : CountTracker;
  edge_logged : list (string * Z)
}.

Definition on_failures (m : Failures) (st : EdgeState) : EdgeState :=
  {| edge_db := st.(edge_db); edge_tokens := st.(edge_tokens); edge_failures := m;
     edge_fallbacks := st.(edge_fallbacks); edge_logged := st.(edge_logged) |}.
Definition on_tokens (ts : TokenState) (st : EdgeState) : EdgeState :=
  {| edge_db := st.(edge_db); edge_tokens := ts; edge_failures := st.(edge_failures);
     edge_fallbacks := st.(edge_fallbacks); edge_logged := st.(edge_logged) |}.
Definition on_fallback (t : CountTracker) (l : list (string * Z)) (st : EdgeState) : EdgeState :=
  {| edge_db := st.(edge_db); edge_tokens := st.(edge_tokens);
     edge_failures := st.(edge_failures); edge_fallbacks := t; edge_logged := l |}.

(** ** Modes and headers *)

Definition isHttpAuthDisabled (env : EdgeEnv) : bool :=
  match env.(ee_DISABLE_HTTP_AUTH) with
  | Some v => String.eqb (to_lower (trim v)) "true"
  | None => false
  end.

Definition isPlatformManaged (env : EdgeEnv) : bool :=
  match env.(ee_IS_PLATFORM) with
  | Some v => String.eqb (trim v) "1" || String.eqb (to_lower (trim v)) "true"
  | None => false
  end.

Definition isPlatformAuthBypassActive (env : EdgeEnv) : bool :=
  isHttpAuthDisabled env && isPlatformManaged env.

(** The token, when it is not empty. *)
Definition extractBearerToken (req : EdgeRequest) : option string :=
  DeviceTokens.nonempty (bearer req.(er_authorization)).

Definition hasAuthorizationHeader (req : EdgeRequest) : bool :=
  match req.(er_authorization) with Some h => truthy (trim h) | None => false end.

Definition OAUTH_PROXY_SUBJECT_PREFIX : string := "oauth-proxy.".

Definition isSingleRouteGrant (claims : TokenClaims) : bool :=
  isNarrowScopeProfile claims.(scope_profile)
  || match parseSub claims.(sub) with
     | inr s => bool_decide (s.(sub_principalType) = EdgeTokens.local)
                && starts_with (default "" s.(sub_conversationId)) OAUTH_PROXY_SUBJECT_PREFIX
     | inl _ => false
     end.

(** ** Guards *)

(** [null], or the status of the refusal. *)
Inductive GuardOutcome := admitted | rejected (status : Z).

#[export] Instance GuardOutcome_eq_dec : EqDecision GuardOutcome.
Proof. solve_decision. Defined.

Section Guards.
Context (windowMs : Z) (trustProxy : bool).
Context (hmac sha256 : string → string) (JSON_parse : string → option TokenClaims).
Context (env : EdgeEnv) (req : EdgeRequest).

Definition requirePlatformUserHeader : GuardOutcome :=
  let header := default "" req.(er_platformUserId) in
  if negb (truthy header) then rejected 401
  else
    match env.(ee_platformUser) with
    | lookup_throws => rejected 503
    | lookup_result userId unreachable =>
        if unreachable then rejected 503
        else
          match DeviceTokens.nonempty userId with
          | None => rejected 403
          | Some stored => if String.eqb stored header then admitted else rejected 403
          end
    end.

Definition client_ip : string := getClientIp trustProxy req.(er_peer).

Definition fail_with (status : Z) (st : EdgeState) : GuardOutcome * EdgeState :=
  (rejected status,
   on_failures (recordFailure windowMs client_ip env.(ee_now) st.(edge_failures)) st).

Definition allowLegacyLoopbackFallback (guard failureKind : string) (st : EdgeState)
    : bool * EdgeState :=
  if requestArrivedViaEdgeProxy req then (false, st)
  else if negb req.(er_hasServer) || negb (isLoopbackPeer trustProxy req.(er_peer)) then (false, st)
  else
    let tracker := increment guard req.(er_path) failureKind st.(edge_fallbacks) in
    let '(_, logged) := shouldLog DEFAULT_COOLDOWN_MS (composite_key guard req.(er_path) failureKind)
                          env.(ee_now) st.(edge_logged) in
    (true, on_fallback tracker logged st).

Definition fallback_or (guard failureKind : string)
    (reject : EdgeState → GuardOutcome * EdgeState) (st : EdgeState) : GuardOutcome * EdgeState :=
  match allowLegacyLoopbackFallback guard failureKind st with
  | (true, st) => (admitted, st)
  | (false, st) => reject st
  end.

Definition rejectMissingAuthorization (guard : string) : EdgeState → GuardOutcome * EdgeState :=
  fallback_or guard "missing_authorization" (fail_with 401).

Definition rejectMalformedAuthorization (guard : string) : EdgeState → GuardOutcome * EdgeState :=
  fallback_or guard "malformed_authorization" (fail_with 401).

(** [None]: no objection. *)
Definition rejectSingleRouteGrant (claims : TokenClaims) (st : EdgeState)
    : option (GuardOutcome * EdgeState) :=
  if isSingleRouteGrant claims then Some (fail_with 401 st) else None.

Definition rejectIfActorTokenRevoked (token : string) (claims : TokenClaims) (st : EdgeState)
    : GuardOutcome * EdgeState :=
  match admitActorToken env.(ee_now) sha256 token claims st.(edge_tokens) with
  | (true, ts) => (admitted, on_tokens ts st)
  | (false, ts) => fail_with 401 (on_tokens ts st)
  end.

(** What all guards do with a token; [continue] is what the guard asks beyond that. *)
Definition check_bearer (guard token : string)
    (continue : TokenClaims → EdgeState → GuardOutcome * EdgeState) (st : EdgeState)
    : GuardOutcome * EdgeState :=
  match validateEdgeToken hmac JSON_parse token false env.(ee_now) with
  | inl _ => fallback_or guard "token_validation_failed" (fail_with 401) st
  | inr claims =>
      match rejectSingleRouteGrant claims st with
      | Some refusal => refusal
      | None =>
          match rejectIfActorTokenRevoked token claims st with
          | (admitted, st) => continue claims st
          | refusal => refusal
          end
      end
  end.

Definition validateEdgeBearer (token : string) : EdgeState → GuardOutcome * EdgeState :=
  check_bearer "edge" token (λ _ st, (admitted, st)).

(** [route.scope!]: a route without a scope asks for [undefined]. *)
Definition validateScopedEdgeBearer (token : string) (scope : option Scope)
    : EdgeState → GuardOutcome * EdgeState :=
  check_bearer "edge-scoped" token (λ claims st,
    if match scope with Some s => mem s (resolveScopeProfile claims.(scope_profile)) | None => false end
    then (admitted, st)
    else fallback_or "edge-scoped" "insufficient_scope" (λ st, (rejected 403, st)) st).

Definition by_header (guard : string) (st : EdgeState) : GuardOutcome * EdgeState :=
  if hasAuthorizationHeader req then rejectMalformedAuthorization guard st
  else rejectMissingAuthorization guard st.

Definition requireEdgeAuth (st : EdgeState) : GuardOutcome * EdgeState :=
  if isPlatformAuthBypassActive env then (requirePlatformUserHeader, st)
  else match extractBearerToken req with
       | Some token => validateEdgeBearer token st
       | None => by_header "edge" st
       end.

Definition requireEdgeAuthWithScope (scope : option Scope) (st : EdgeState)
    : GuardOutcome * EdgeState :=
  if isPlatformAuthBypassActive env then (requirePlatformUserHeader, st)
  else match extractBearerToken req with
       | Some token => validateScopedEdgeBearer token scope st
       | None => by_header "edge-scoped" st
       end.

Definition requireEdgeGuardianAuthByActorPrincipal (st : EdgeState) : GuardOutcome * EdgeState :=
  match extractBearerToken req with
  | None => by_header "edge-guardian" st
  | Some token =>
      check_bearer "edge-guardian" token (λ claims st,
        let actor_of := match parseSub claims.(sub) with
                        | inr s => if bool_decide (s.(sub_principalType) = actor)
                                   then DeviceTokens.nonempty s.(sub_actorPrincipalId) else None
                        | inl _ => None
                        end in
        match actor_of with
        | None => fallback_or "edge-guardian" "non_actor_principal" (λ st, (rejected 403, st)) st
        | Some principal =>
            if env.(ee_guardianThrows) then (rejected 503, st)
            else if bool_decide (findVellumGuardian st.(edge_db) = Some principal)
            then (admitted, st)
            else fallback_or "edge-guardian" "guardian_mismatch" (λ st, (rejected 403, st)) st
        end) st
  end.

Definition requireEdgeGuardianAuth (st : EdgeState) : GuardOutcome * EdgeState :=
  if isPlatformAuthBypassActive env then (requirePlatformUserHeader, st)
  else requireEdgeGuardianAuthByActorPrincipal st.
End Guards.

(** ** Routes *)

Inductive AuthStrategy :=
  | auth_none | auth_custom | auth_edge | auth_edge_scoped | auth_edge_guardian
  | auth_track_failures.

(** A regular expression is the function of its capture groups. *)
Inductive RoutePath := path_is (path : string) | path_matches (groups : string → option (list string)).

(** The handler answers a status; what it does besides is not modelled. *)
Record RouteDefinition := {
  route_path : RoutePath;
  route_method : option string;
  route_auth : option AuthStrategy;
  route_scope : option Scope;
  route_trackFailureStatuses : option (list Z);
  route_precondition : option (unit → option Z);
  route_handler : EdgeRequest → list string → Z
}.

Definition matchRoute (route : RouteDefinition) (pathname method : string) : option (list string) :=
  if match route.(route_method) with
     | Some m => truthy m && negb (String.eqb m method)
     | None => false
     end then None
  else
    match route.(route_path) with
    | path_is p =>
        let normalized := if (1 <? String.length pathname)%nat && ends_with pathname "/"
                          then slice_drop_last 1 pathname else pathname in
        if String.eqb normalized p then Some [] else None
    | path_matches groups => groups pathname
    end.

Inductive Guard := guard_edge | guard_scoped (scope : option Scope) | guard_guardian.

(** [no_route]: the router answers [null]. *)
Inductive Routed :=
  | no_route
  | short_circuited (status : Z)
  | denied (g : Guard) (status : Z)
  | handled (route : RouteDefinition) (status : Z)
  | tracked_response (status : Z) (failed : bool)
  | rate_limited.

Section Routing.
Context (maxFailures : nat) (windowMs : Z) (trustProxy : bool).
Context (hmac sha256 : string → string) (JSON_parse : string → option TokenClaims).

Definition require (g : Guard) (env : EdgeEnv) (req : EdgeRequest) (st : EdgeState)
    : GuardOutcome * EdgeState :=
  match g with
  | guard_edge => requireEdgeAuth windowMs trustProxy hmac sha256 JSON_parse env req st
  | guard_scoped scope =>
      requireEdgeAuthWithScope windowMs trustProxy hmac sha256 JSON_parse env req scope st
  | guard_guardian => requireEdgeGuardianAuth windowMs trustProxy hmac sha256 JSON_parse env req st
  end.

Definition wrapWithAuthFailureTracking (env : EdgeEnv) (req : EdgeRequest) (failureStatuses : list Z)
    (status : Z) (st : EdgeState) : Routed * EdgeState :=
  if mem status failureStatuses
  then (tracked_response status true, (fail_with windowMs trustProxy env req status st).2)
  else (tracked_response status false, st).

Definition guarded (g : Guard) (env : EdgeEnv) (req : EdgeRequest) (route : RouteDefinition)
    (params : list string) (st : EdgeState) : Routed * EdgeState :=
  match require g env req st with
  | (admitted, st) => (handled route (route.(route_handler) req params), st)
  | (rejected status, st) => (denied g status, st)
  end.

Definition dispatch (env : EdgeEnv) (req : EdgeRequest) (route : RouteDefinition)
    (params : list string) (st : EdgeState) : Routed * EdgeState :=
  match match route.(route_precondition) with Some p => p () | None => None end with
  | Some status => (short_circuited status, st)
  | None =>
      match default auth_none route.(route_auth) with
      | auth_none | auth_custom => (handled route (route.(route_handler) req params), st)
      | auth_edge => guarded guard_edge env req route params st
      | auth_edge_scoped => guarded (guard_scoped route.(route_scope)) env req route params st
      | auth_edge_guardian => guarded guard_guardian env req route params st
      | auth_track_failures =>
          wrapWithAuthFailureTracking env req (default [401%Z] route.(route_trackFailureStatuses))
            (route.(route_handler) req params) st
      end
  end.

Fixpoint createRouter (routes : list RouteDefinition) (env : EdgeEnv) (req : EdgeRequest)
    (st : EdgeState) : Routed * EdgeState :=
  match routes with
  | [] => (no_route, st)
  | route :: routes =>
      match matchRoute route req.(er_path) req.(er_method) with
      | Some params => dispatch env req route params st
      | None => createRouter routes env req st
      end
  end.

(** A request: the limit first, then the route. *)
Definition serve (routes : list RouteDefinition) (env : EdgeEnv) (req : EdgeRequest) (st : EdgeState)
    : Routed * EdgeState :=
  match checkAuthRateLimit maxFailures windowMs req.(er_path) (client_ip trustProxy req)
          env.(ee_now) st.(edge_failures) with
  | (true, m) => (rate_limited, on_failures m st)
  | (false, m) => createRouter routes env req (on_failures m st)
  end.
End Routing.

(** ** Who is let in *)

Section Admission.
Context (windowMs : Z) (trustProxy : bool).
Context (hmac sha256 : string → string) (JSON_parse : string → option TokenClaims).
Context (env : EdgeEnv) (req : EdgeRequest).

Notation outcome g := (require windowMs trustProxy hmac sha256 JSON_parse g env req).

(** The request carries the token, and it verifies. *)
Definition presents (token : string) (claims : TokenClaims) : Prop :=
  extractBearerToken req = Some token
  ∧ validateEdgeToken hmac JSON_parse token false env.(ee_now) = inr claims.

(** The record of the token is revoked. *)
Definition is_revoked (st : EdgeState) (token : string) (claims : TokenClaims) : Prop :=
  (admitActorToken env.(ee_now) sha256 token claims st.(edge_tokens)).1 = false.

Definition contained (st : EdgeState) (token : string) (claims : TokenClaims) : Prop :=
  isSingleRouteGrant claims = true ∨ is_revoked st token claims.

(** The claims are what the guard asks for. *)
Definition speaks_for (g : Guard) (st : EdgeState) (claims : TokenClaims) : Prop :=
  match g with
  | guard_edge => True
  | guard_scoped scope => ∃ s, scope = Some s ∧ s ∈ resolveScopeProfile claims.(scope_profile)
  | guard_guardian =>
      ∃ s p, parseSub claims.(sub) = inr s ∧ s.(sub_principalType) = actor
             ∧ s.(sub_actorPrincipalId) = Some p ∧ truthy p = true
             ∧ findVellumGuardian st.(edge_db) = Some p
  end.

(** A caller on this machine that did not come through the edge proxy. *)
Definition local_caller : Prop :=
  req.(er_viaEdgeProxy) = false ∧ req.(er_hasServer) = true
  ∧ isLoopbackPeer trustProxy req.(er_peer) = true.

Lemma fallback_spec guard kind st :
  let r := allowLegacyLoopbackFallback trustProxy env req guard kind st in
  (r.1 = true ↔ local_caller) ∧ r.2.(edge_failures) = st.(edge_failures)
  ∧ r.2.(edge_db) = st.(edge_db) ∧ (r.1 = false → r.2 = st).
Proof.
  unfold allowLegacyLoopbackFallback, requestArrivedViaEdgeProxy, local_caller.
  destruct (er_viaEdgeProxy req); [split_and!; try done; split; [done|by intros (? & _)]|].
  destruct (er_hasServer req); [|split_and!; try done; split; [done|by intros (_ & ? & _)]].
  destruct (isLoopbackPeer _ _); [|split_and!; try done; split; [done|by intros (_ & _ & ?)]].
  simpl. destruct (shouldLog _ _ _ _). by split_and!.
Qed.

Lemma fallback_or_admits guard kind reject st :
  (∀ st, (reject st).1 ≠ admitted) →
  (fallback_or trustProxy env req guard kind reject st).1 = admitted ↔ local_caller.
Proof.
  intros Hr. destruct (fallback_spec guard kind st) as (H & _ & _ & _). unfold fallback_or.
  destruct (allowLegacyLoopbackFallback _ _ _ _ _ _) as [[] st']; simpl in *.
  - split; [intros _; by apply H|done].
  - split; [intros Ha; by destruct (Hr st')|]. intros Hl. by apply H in Hl.
Qed.

Lemma fail_with_refuses st : (fail_with windowMs trustProxy env req 401 st).1 ≠ admitted.
Proof. done. Qed.

Lemma by_header_admits guard st :
  (by_header windowMs trustProxy env req guard st).1 = admitted ↔ local_caller.
Proof.
  unfold by_header, rejectMalformedAuthorization, rejectMissingAuthorization.
  destruct (hasAuthorizationHeader req); by apply fallback_or_admits.
Qed.

(** What a guard does with a token, before what it asks beyond that. *)
Lemma check_bearer_spec guard token continue st :
  match validateEdgeToken hmac JSON_parse token false env.(ee_now) with
  | inl _ => True
  | inr claims =>
      (contained st token claims → ∃ ts,
         check_bearer windowMs trustProxy hmac sha256 JSON_parse env req guard token continue st
         = fail_with windowMs trustProxy env req 401 (on_tokens ts st))
      ∧ (¬ contained st token claims → ∃ ts,
         check_bearer windowMs trustProxy hmac sha256 JSON_parse env req guard token continue st
         = continue claims (on_tokens ts st))
  end.
Proof.
  destruct (validateEdgeToken _ _ _ _ _) as [e|claims] eqn:Ev; [done|]. unfold check_bearer. rewrite Ev.
  unfold contained, is_revoked, rejectSingleRouteGrant, rejectIfActorTokenRevoked.
  destruct (isSingleRouteGrant claims).
  { split; [intros _; exists (edge_tokens st); by destruct st|]. intros H. destruct H. by left. }
  destruct (admitActorToken _ _ _ _ _) as [[] ts]; simpl; split.
  - by intros [?|?].
  - by eexists.
  - by eexists.
  - intros H. destruct H. by right.
Qed.

Lemma require_default g st :
  isPlatformAuthBypassActive env = false →
  outcome g st =
  match extractBearerToken req with
  | None => by_header windowMs trustProxy env req
              (match g with guard_edge => "edge" | guard_scoped _ => "edge-scoped"
                          | guard_guardian => "edge-guardian" end) st
  | Some token =>
      match g with
      | guard_edge => validateEdgeBearer windowMs trustProxy hmac sha256 JSON_parse env req token st
      | guard_scoped scope =>
          validateScopedEdgeBearer windowMs trustProxy hmac sha256 JSON_parse env req token scope st
      | guard_guardian =>
          requireEdgeGuardianAuthByActorPrincipal windowMs trustProxy hmac sha256 JSON_parse env req st
      end
  end.
Proof.
  intros Hd. destruct g; unfold require, requireEdgeAuth, requireEdgeAuthWithScope,
    requireEdgeGuardianAuth; rewrite Hd; [done..|].
  unfold requireEdgeGuardianAuthByActorPrincipal. by destruct (extractBearerToken req).
Qed.

(** A verified token that is made for one route, or whose record is revoked, gets
    nobody in, not even from this machine, and counts as a failure of the address. *)
Lemma contained_refused g token claims st :
  isPlatformAuthBypassActive env = false → presents token claims → contained st token claims →
  (outcome g st).1 = rejected 401
  ∧ (outcome g st).2.(edge_failures)
    = recordFailure windowMs (client_ip trustProxy req) env.(ee_now) st.(edge_failures).
Proof.
  intros Hd [Hp Hv] Hc. rewrite require_default, Hp by done.
  unfold requireEdgeGuardianAuthByActorPrincipal. rewrite Hp.
  destruct g; unfold validateEdgeBearer, validateScopedEdgeBearer;
    match goal with |- context [check_bearer _ _ _ _ _ _ _ ?gd ?tk ?k ?s] =>
      pose proof (check_bearer_spec gd tk k s) as H end;
    rewrite Hv in H; destruct H as [H _]; destruct (H Hc) as [ts E]; rewrite E; done.
Qed.

(** The actor of a guardian's check. *)
Definition actor_of (claims : TokenClaims) : option string :=
  match parseSub claims.(sub) with
  | inr s => if bool_decide (s.(sub_principalType) = actor)
             then DeviceTokens.nonempty s.(sub_actorPrincipalId) else None
  | inl _ => None
  end.

Lemma speaks_for_guardian st claims :
  speaks_for guard_guardian st claims
  ↔ ∃ p, actor_of claims = Some p ∧ findVellumGuardian st.(edge_db) = Some p.
Proof.
  unfold actor_of. simpl. split.
  - intros (s & p & -> & Ht & Hp & Hn & Hf). exists p. rewrite bool_decide_true by done.
    rewrite Hp. simpl. by rewrite Hn.
  - intros (p & Ha & Hf). destruct (parseSub _) as [|s]; [done|].
    case_bool_decide; [|done]. apply nonempty_Some in Ha as [Ha Hn]. by exists s, p.
Qed.

(** A guard lets a bearer in for what its token [own]s of the guard's demand, or as a
    local caller, unless the token is contained. *)
Lemma check_bearer_admits guard token continue (own : TokenClaims → Prop) st :
  extractBearerToken req = Some token →
  (∀ claims ts, (continue claims (on_tokens ts st)).1 = admitted ↔ own claims ∨ local_caller) →
  (check_bearer windowMs trustProxy hmac sha256 JSON_parse env req guard token continue st).1 = admitted
  ↔ (∃ token claims, presents token claims ∧ ¬ contained st token claims ∧ own claims)
    ∨ (local_caller ∧ ∀ token claims, presents token claims → ¬ contained st token claims).
Proof.
  intros Et Hk. pose proof (check_bearer_spec guard token continue st) as H. unfold presents.
  rewrite Et. destruct (validateEdgeToken hmac JSON_parse token false (ee_now env)) as [e|claims] eqn:Ev.
  { unfold check_bearer. rewrite Ev, fallback_or_admits by done.
    split; [intros Hl; right; split; [done|]; intros ? ? [[= <-] ?]; congruence|].
    intros [(? & ? & [[= <-] ?] & _)|[? _]]; [congruence|done]. }
  assert (∀ token' c, Some token = Some token'
      ∧ validateEdgeToken hmac JSON_parse token' false (ee_now env) = inr c →
    token' = token ∧ c = claims) as Honly.
  { intros token' c [[= <-] Hv]. rewrite Ev in Hv. by injection Hv as <-. }
  destruct H as [Hc Hn]. destruct (decide (isSingleRouteGrant claims = true
      ∨ (admitActorToken env.(ee_now) sha256 token claims st.(edge_tokens)).1 = false)) as [Hcon|Hcon].
  - destruct (Hc Hcon) as [ts ->]. split; [done|].
    intros [(? & c & Hp & Hx & _)|[_ Hx]]; [destruct (Honly _ _ Hp) as [-> ->]; by destruct Hx|].
    by destruct (Hx token claims).
  - destruct (Hn Hcon) as [ts ->]. rewrite Hk. split.
    + intros [Hs|Hl]; [left; by exists token, claims|right].
      split; [done|]. intros ? ? Hp. by destruct (Honly _ _ Hp) as [-> ->].
    + intros [(? & c & Hp & _ & Hs)|[Hl _]]; [|by right].
      left. by destruct (Honly _ _ Hp) as [-> ->].
Qed.

(** C6: Exactly who passes a guard when the platform does not vouch for its callers: the
    holder of a verified token that is neither made for one route nor revoked and is
    what the guard asks for, and, until the fallback goes, a caller on this machine,
    unless the token it carries is one of those two. *)
Theorem edge_admission g st :
  isPlatformAuthBypassActive env = false →
  (g = guard_guardian → env.(ee_guardianThrows) = false) →
  (outcome g st).1 = admitted
  ↔ (∃ token claims, presents token claims ∧ ¬ contained st token claims ∧ speaks_for g st claims)
    ∨ (local_caller ∧ ∀ token claims, presents token claims → ¬ contained st token claims).
Proof.
  intros Hd Hthrow. rewrite require_default by done.
  destruct (extractBearerToken req) as [token|] eqn:Et.
  2: { unfold presents. rewrite Et, by_header_admits. split; [intros H; right; split; [done|by intros ? ? []]|].
       intros [(? & ? & [? _] & _)|[? _]]; done. }
  unfold requireEdgeGuardianAuthByActorPrincipal. rewrite Et.
  destruct g as [|scope|]; apply check_bearer_admits; try done; intros claims ts; simpl.
  - tauto.
  - destruct (match scope with Some s => _ | None => false end) eqn:Es.
    + split; [intros _; left|done]. destruct scope as [s|]; [|done]. apply mem_true in Es. eauto.
    + rewrite fallback_or_admits by done. split; [by right|]. intros [(s & -> & Hs)|?]; [|done].
      apply mem_true in Hs. congruence.
  - fold (actor_of claims). change (edge_db (on_tokens ts st)) with (edge_db st).
    pose proof (speaks_for_guardian st claims) as Hs. simpl in Hs. rewrite Hs.
    destruct (actor_of claims) as [p|].
    + rewrite Hthrow by done. case_bool_decide as Hf.
      * split; [intros _; left; eauto|done].
      * rewrite fallback_or_admits by done. split; [by right|].
        intros [(q & [= <-] & ?)|?]; done.
    + rewrite fallback_or_admits by done. split; [by right|]. by intros [(q & ? & _)|?].
Qed.
End Admission.

(** ** Devices at the edge *)

Section Devices.
Context (windowMs : Z) (trustProxy : bool).
Context (hmac sha256 : string → string) (assistantId : string).
Context (JSON_parse : string → option TokenClaims).

(** C10: A device that was revoked is out: whatever was called since, no guard of the edge
    lets a request through with a token recorded for it, however the token is spelled
    and even from this machine, and each attempt counts as a failure. *)
Theorem unpaired_device_refused_at_edge now principal device ts calls g env req st token claims r s :
  st.(edge_tokens) = foldl (token_step hmac sha256 assistantId)
    (token_step hmac sha256 assistantId ts (RevokeDevice principal device now)) calls →
  findActorByHash (actorTokenRecordHash sha256 token) ts.(tables) = Some r →
  at_device principal device r = true →
  isPlatformAuthBypassActive env = false → presents hmac JSON_parse env req token claims →
  parseSub claims.(sub) = inr s → s.(sub_principalType) = actor →
  let '(o, st') := require windowMs trustProxy hmac sha256 JSON_parse g env req st in
  o = rejected 401
  ∧ st'.(edge_failures)
    = recordFailure windowMs (client_ip trustProxy req) env.(ee_now) st.(edge_failures).
Proof.
  intros Hts Hf Hdev Hd Hpres Hsub Hactor.
  assert (locked_out sha256 token st.(edge_tokens)) as Hl
    by (rewrite Hts; by eapply revoked_device_locked_out).
  assert (contained sha256 env st token claims) as Hc by (right; by apply (Hl claims s)).
  destruct (contained_refused windowMs trustProxy hmac sha256 JSON_parse env req g token claims st
    Hd Hpres Hc) as [H1 H2]. by destruct (require _ _ _ _ _ _ _ _ _).
Qed.

Lemma parse_actor a p :
  no_char ":" a → no_char ":" p → truthy a = true → truthy p = true →
  parseSub ("actor:" +:+ a +:+ ":" +:+ p)
  = inr {| sub_principalType := actor; sub_assistantId := a; sub_actorPrincipalId := Some p;
           sub_conversationId := None |}.
Proof.
  intros Ha Hp Ta Tp. unfold parseSub.
  change ("actor:" +:+ a +:+ ":" +:+ p) with ("actor" +:+ String ":" (a +:+ String ":" p)).
  assert (negb (truthy ("actor" +:+ String ":" (a +:+ String ":" p))) = false) as -> by done.
  rewrite (split_three ":" "actor" a p) by done. cbn. by rewrite Ta, Tp.
Qed.

(** The guardian's access token, once it is on record, passes every guard whose scope its
    profile has, from any address, as long as it lives. *)
Lemma recorded_guardian_admitted benv principal db ts row g env req st :
  let claims := guardian_access_claims assistantId benv principal in
  findActorByHash (hashToken sha256 (sign hmac claims)) ts.(tables) = Some row →
  row.(at_status) = at_active → findVellumGuardian db = Some principal → truthy principal = true →
  reads_claims JSON_parse claims →
  no_char ":" assistantId → truthy assistantId = true → no_char ":" principal →
  isPlatformAuthBypassActive env = false → env.(ee_guardianThrows) = false →
  (∀ scope, g = guard_scoped scope → ∃ s, scope = Some s ∧ s ∈ PROFILE_SCOPES actor_client_v1) →
  st.(edge_db) = db → st.(edge_tokens) = ts →
  req.(er_authorization) = Some ("Bearer " +:+ sign hmac claims) →
  (env.(ee_now) / 1000 < benv.(be_now) / 1000 + ACCESS_TOKEN_TTL_SECONDS)%Z →
  (require windowMs trustProxy hmac sha256 JSON_parse g env req st).1 = admitted.
Proof.
  intros claims Hfa Hs Hf Hp Hread Ha Ta Hcolon Hd Hth Hscope Hdb Htk Hauth Hlive.
  assert (extractBearerToken req = Some (sign hmac claims)) as Het.
  { unfold extractBearerToken. rewrite Hauth, bearer_of. done. }
  assert (validateEdgeToken hmac JSON_parse (sign hmac claims) false env.(ee_now) = inr claims) as Hv.
  { unfold validateEdgeToken. rewrite verify_sign by done. unfold check_claims. cbn.
    by rewrite (proj2 (Z.leb_gt _ _) Hlive). }
  pose proof (parse_actor assistantId principal Ha Hcolon Ta Hp) as Hsub.
  assert (¬ contained sha256 env st (sign hmac claims) claims) as Hnc.
  { unfold contained, isSingleRouteGrant, is_revoked. change (sub claims) with
      ("actor:" +:+ assistantId +:+ ":" +:+ principal). rewrite Hsub, Htk.
    destruct (recorded_admitted hmac sha256 assistantId env.(ee_now) claims claims
                ts row Hfa) as (ts' & r' & Ea & _); [by rewrite Hs|].
    rewrite Ea. by intros [?|?]. }
  rewrite require_default, Het by done. unfold requireEdgeGuardianAuthByActorPrincipal. rewrite Het.
  destruct g as [|scope|]; unfold validateEdgeBearer, validateScopedEdgeBearer;
    match goal with |- context [check_bearer _ _ _ _ _ _ _ ?gd ?tk ?k ?s] =>
      pose proof (check_bearer_spec windowMs trustProxy hmac sha256 JSON_parse env req gd tk k s) as H
    end; rewrite Hv in H; destruct H as [_ H]; destruct (H Hnc) as [ts' ->]; [done|..].
  - destruct (Hscope scope eq_refl) as (sc & -> & Hin). cbn [scope_profile claims
      guardian_access_claims minted_claims tp_scope_profile].
    change (resolveScopeProfile (profile_name actor_client_v1)) with (PROFILE_SCOPES actor_client_v1).
    rewrite (proj2 (mem_true _ _)); done.
  - change (sub claims) with ("actor:" +:+ assistantId +:+ ":" +:+ principal). rewrite Hsub. cbn.
    rewrite Hp, Hth, Hdb, Hf. do 2 (case_bool_decide; [|done]). done.
Qed.

(** The guardian gets in: from any address, past every guard but those for a scope its
    profile lacks, with the access token of its bootstrap, for the thirty days it lives. *)
Theorem bootstrapped_guardian_admitted benv platform deviceId name bst :
  let principal := bootstrap_principal benv bst in
  let claims := guardian_access_claims assistantId benv principal in
  bootstrappable hmac sha256 assistantId benv deviceId bst → reads_claims JSON_parse claims →
  no_char ":" assistantId → truthy assistantId = true → no_char ":" principal →
  ∃ r pr bst', bootstrapGuardian hmac sha256 assistantId benv platform deviceId name bst
               = (inr (r, pr), bst')
    ∧ ∀ g env req st,
        isPlatformAuthBypassActive env = false → env.(ee_guardianThrows) = false →
        (∀ scope, g = guard_scoped scope →
           ∃ s, scope = Some s ∧ s ∈ PROFILE_SCOPES actor_client_v1) →
        st.(edge_db) = bst'.(boot_db) → st.(edge_tokens) = bst'.(boot_tokens) →
        req.(er_authorization) = Some ("Bearer " +:+ pr.(pair_accessToken)) →
        (env.(ee_now) / 1000 < benv.(be_now) / 1000 + ACCESS_TOKEN_TTL_SECONDS)%Z →
        (require windowMs trustProxy hmac sha256 JSON_parse g env req st).1 = admitted.
Proof.
  intros principal claims Hb Hread Ha Ta Hcolon.
  destruct (bootstrap_outcome hmac sha256 assistantId benv platform deviceId name bst Hb) as
    (r & pr & bst' & row & E & Hf & Hp & _ & _ & Hpa & Hfa & Hs & _).
  fold principal claims in Hf, Hp, Hpa, Hfa.
  exists r, pr, bst'. split; [done|]. intros g env req st Hd Hth Hscope Hdb Htk Hauth Hlive.
  eapply (recorded_guardian_admitted benv principal); try done. by rewrite Hauth, Hpa.
Qed.
End Devices.

(** ** How many may fail *)

(** The outcomes that the limiter hears of. *)
Definition counted_failure (o : Routed) : bool :=
  match o with
  | denied _ status => (status =? 401)%Z
  | tracked_response _ failed => failed
  | _ => false
  end.

Definition EdgeCall : Type := EdgeEnv * EdgeRequest.

Section Bounded.
Context (maxFailures : nat) (windowMs : Z) (trustProxy : bool).
Context (hmac sha256 : string → string) (JSON_parse : string → option TokenClaims).
Context (routes : list RouteDefinition).

Definition attempt_ip (a : EdgeCall) : string := client_ip trustProxy a.2.

(** The requests one after the other. *)
Fixpoint serve_all (attempts : list EdgeCall) (st : EdgeState) : list (EdgeCall * Routed) :=
  match attempts with
  | [] => []
  | a :: attempts =>
      let '(o, st) := serve maxFailures windowMs trustProxy hmac sha256 JSON_parse routes a.1 a.2 st in
      (a, o) :: serve_all attempts st
  end.

(** Under the limit. *)
Definition limited_path (a : EdgeCall) : bool := isRateLimitedRoute a.2.(er_path).

(** When the requests of an address to paths under the limit failed. *)
Definition failed_at (ip : string) (served : list (EdgeCall * Routed)) : list Z :=
  omap (λ s : EdgeCall * Routed,
          if String.eqb (attempt_ip s.1) ip && limited_path s.1 && counted_failure s.2
          then Some s.1.1.(ee_now) else None)
    served.

(** The times in a window that opens after [c]. *)
Definition within (c : Z) (ts : list Z) : nat :=
  length (List.filter (λ t, (c <? t) && (t <=? c + windowMs))%Z ts).

(** The guards are on. *)
Definition ordinary (a : EdgeCall) : Prop := isPlatformAuthBypassActive a.1 = false.

(** A guard tells the limiter of the refusals that are its caller's failures, once. *)
Lemma require_failures g env req st :
  isPlatformAuthBypassActive env = false →
  let r := require windowMs trustProxy hmac sha256 JSON_parse g env req st in
  r.2.(edge_failures)
  = if bool_decide (r.1 = rejected 401)
    then recordFailure windowMs (client_ip trustProxy req) env.(ee_now) st.(edge_failures)
    else st.(edge_failures).
Proof.
  intros Hd. cbv zeta.
  set (P := λ (st : EdgeState) (r : GuardOutcome * EdgeState), r.2.(edge_failures) =
    if bool_decide (r.1 = rejected 401)
    then recordFailure windowMs (client_ip trustProxy req) env.(ee_now) st.(edge_failures)
    else st.(edge_failures)).
  assert (∀ guard kind reject st, (∀ st, P st (reject st)) →
    P st (fallback_or trustProxy env req guard kind reject st)) as Hfall.
  { intros guard kind reject st0 Hr. unfold fallback_or.
    pose proof (fallback_spec trustProxy env req guard kind st0) as (_ & H & _ & _).
    destruct (allowLegacyLoopbackFallback _ _ _ _ _ _) as [[] st1]; simpl in H; [done|].
    specialize (Hr st1). unfold P in *. by rewrite H in Hr. }
  assert (∀ status, status ≠ 401%Z → ∀ st, P st (rejected status, st)) as Hrej.
  { intros status Hs st0. unfold P. case_bool_decide; [|done]. simplify_eq/=. }
  assert (∀ st, P st (fail_with windowMs trustProxy env req 401 st)) as Hfail.
  { intros st0. unfold P. by case_bool_decide. }
  assert (∀ guard token continue st, (∀ claims st, P st (continue claims st)) →
    P st (check_bearer windowMs trustProxy hmac sha256 JSON_parse env req guard token continue st))
    as Hcheck.
  { intros guard token continue st0 Hk.
    pose proof (check_bearer_spec windowMs trustProxy hmac sha256 JSON_parse env req guard token
      continue st0) as H.
    destruct (validateEdgeToken _ _ _ _ _) as [e|claims] eqn:Ev.
    - unfold check_bearer. rewrite Ev. by apply Hfall.
    - destruct H as [H1 H2]. destruct (decide (isSingleRouteGrant claims = true
        ∨ (admitActorToken env.(ee_now) sha256 token claims st0.(edge_tokens)).1 = false)) as [Hc|Hc].
      + destruct (H1 Hc) as [ts ->]. apply (Hfail (on_tokens ts st0)).
      + destruct (H2 Hc) as [ts ->]. apply (Hk claims (on_tokens ts st0)). }
  fold (P st (require windowMs trustProxy hmac sha256 JSON_parse g env req st)).
  rewrite require_default by done. destruct (extractBearerToken req) as [token|] eqn:Et.
  2: { unfold by_header, rejectMalformedAuthorization, rejectMissingAuthorization.
       destruct (hasAuthorizationHeader req); by apply Hfall. }
  destruct g as [|scope|]; [apply Hcheck; done|apply Hcheck; intros claims st0..|].
  - destruct (match scope with Some s => _ | None => false end); [done|]. apply Hfall. by apply Hrej.
  - unfold requireEdgeGuardianAuthByActorPrincipal. rewrite Et. apply Hcheck. intros claims st0.
    fold (actor_of claims). destruct (actor_of claims); [|apply Hfall; by apply Hrej].
    destruct (ee_guardianThrows env); [by apply Hrej|].
    case_bool_decide; [done|]. apply Hfall. by apply Hrej.
Qed.

Lemma route_failures env req st rs :
  isPlatformAuthBypassActive env = false →
  let r := createRouter windowMs trustProxy hmac sha256 JSON_parse rs env req st in
  r.2.(edge_failures)
  = if counted_failure r.1
    then recordFailure windowMs (client_ip trustProxy req) env.(ee_now) st.(edge_failures)
    else st.(edge_failures).
Proof.
  intros Hd. cbv zeta. induction rs as [|route rs IH]; [done|]. simpl.
  destruct (matchRoute route _ _) as [params|]; [|apply IH]. unfold dispatch.
  destruct (match route_precondition route with Some p => p () | None => None end); [done|].
  assert (∀ g, let r := guarded windowMs trustProxy hmac sha256 JSON_parse g env req route params st in
    r.2.(edge_failures) = if counted_failure r.1
      then recordFailure windowMs (client_ip trustProxy req) env.(ee_now) st.(edge_failures)
      else st.(edge_failures)) as Hg.
  { intros g. unfold guarded. pose proof (require_failures g env req st Hd) as H.
    destruct (require _ _ _ _ _ _ _ _ _) as [[|status] st1]; simpl in *; [done|].
    destruct (Z.eqb_spec status 401) as [->|Hne]; [by rewrite bool_decide_true in H|].
    rewrite bool_decide_false in H by congruence. done. }
  destruct (default auth_none (route_auth route)); try done; try apply Hg.
  unfold wrapWithAuthFailureTracking. by destruct (mem _ _).
Qed.

Lemma within_since c c' ts : (c' <= c)%Z → (within c ts <= since c' ts)%nat.
Proof.
  intros Hc. unfold within, since. induction ts as [|t ts IH]; simpl; [done|].
  destruct (Z.ltb_spec c t); simpl; [rewrite (proj2 (Z.ltb_lt c' t)) by lia|].
  - simpl. destruct (_ <=? _)%Z; simpl; lia.
  - destruct (_ <? _)%Z; simpl; lia.
Qed.

Lemma within_app c ts ts' : within c (ts ++ ts') = (within c ts + within c ts')%nat.
Proof. unfold within. by rewrite List.filter_app, length_app. Qed.

(** One more failure after less than the threshold in the window before it. *)
Lemma within_snoc ts t :
  (∀ c, (within c ts <= maxFailures)%nat) → (since (t - windowMs) ts < maxFailures)%nat →
  ∀ c, (within c (ts ++ [t]) <= maxFailures)%nat.
Proof.
  intros Hts Hlt c. rewrite within_app. unfold within at 2. simpl.
  destruct (Z.ltb_spec c t), (Z.leb_spec t (c + windowMs)); simpl; specialize (Hts c); try lia.
  pose proof (within_since c (t - windowMs) ts). lia.
Qed.

Definition serve_log (log : string → list Z) (a : EdgeCall) (failed : bool) : string → list Z :=
  let i := attempt_ip a in
  let log := if limited_path a && isLoopbackAddress i
             then log_step log (a.1.(ee_now), Cleared i) else log in
  if failed then log_step log (a.1.(ee_now), Failed i) else log.

Lemma serve_log_other ip log a failed :
  isLoopbackAddress ip = false →
  serve_log log a failed ip
  = log ip ++ (if String.eqb (attempt_ip a) ip && failed then [a.1.(ee_now)] else []).
Proof.
  intros Hl. unfold serve_log, log_step. simpl.
  destruct (String.eqb_spec (attempt_ip a) ip) as [<-|Hne]; simpl.
  - rewrite Hl, andb_false_r. destruct failed; [by rewrite String.eqb_refl|by rewrite app_nil_r].
  - rewrite app_nil_r. apply String.eqb_neq in Hne.
    destruct (limited_path a && isLoopbackAddress (attempt_ip a)), failed; simpl; by rewrite ?Hne.
Qed.

(** Few enough addresses that none is dropped. *)
Definition among (ips : list string) (m : Failures) : Prop :=
  (∀ k, k ∈ m.*1 → k ∈ ips) ∧ (Z.of_nat (length ips) <= MAX_TRACKED_IPS)%Z.

Lemma serve_step ips last log st a :
  ordinary a → (0 < maxFailures)%nat → attempt_ip a ∈ ips → among ips st.(edge_failures) →
  limiter_inv windowMs true last log st.(edge_failures) → (last <= a.1.(ee_now))%Z →
  let r := serve maxFailures windowMs trustProxy hmac sha256 JSON_parse routes a.1 a.2 st in
  limiter_inv windowMs true a.1.(ee_now) (serve_log log a (counted_failure r.1)) r.2.(edge_failures)
  ∧ among ips r.2.(edge_failures)
  ∧ (counted_failure r.1 = true → limited_path a = true → isLoopbackAddress (attempt_ip a) = false →
     (since (a.1.(ee_now) - windowMs) (log (attempt_ip a)) < maxFailures)%nat).
Proof.
  intros Hd Hpos Hip [Hk Hlen] Hinv Hle. apply (inv_later _ _ _ _ _ _ Hinv) in Hle as Hnow.
  set (now := ee_now a.1) in *. set (i := attempt_ip a) in *.
  assert (∀ call k, k ∈ (limiter_step maxFailures windowMs st.(edge_failures) (now, call)).*1 →
    call_ip call = i → k ∈ ips) as Hstep.
  { intros call k Hin E. apply step_keys in Hin as [?|Ek]; [by apply Hk|]. simpl in Ek. congruence. }
  assert (∀ m' log', limiter_inv windowMs true now log' m' → among ips m' →
    let r := createRouter windowMs trustProxy hmac sha256 JSON_parse routes a.1 a.2 (on_failures m' st) in
    limiter_inv windowMs true now
      (if counted_failure r.1 then log_step log' (now, Failed i) else log') r.2.(edge_failures)
    ∧ among ips r.2.(edge_failures)) as Hroute.
  { intros m' log' H' [Hk' _]. pose proof (route_failures a.1 a.2 (on_failures m' st) routes Hd) as Hf.
    cbv zeta in *. rewrite Hf. destruct (counted_failure _); [|by split].
    change (client_ip trustProxy a.2) with i. simpl. split.
    - apply inv_record; [done|]. intros _. apply (room_among ips); [apply H'|done..].
    - split; [|done]. intros k Hin.
      apply (step_keys maxFailures windowMs m' (now, Failed i)) in Hin as [?| ->]; [by apply Hk'|done]. }
  unfold serve, checkAuthRateLimit, serve_log, limited_path.
  destruct (isRateLimitedRoute (er_path a.2)); cbn [negb].
  2: { destruct (Hroute st.(edge_failures) log) as [H1 H2]; [done|done|].
       destruct st. split_and!; [exact H1|exact H2|done]. }
  change (client_ip trustProxy a.2) with i.
  change (client_ip trustProxy (snd a)) with i. fold i now.
  destruct (isLoopbackAddress i) eqn:El.
  - destruct (Hroute (clearIp i st.(edge_failures)) (log_step log (now, Cleared i))) as [H1 H2].
    + by apply inv_cleared.
    + split; [|done]. intros k Hin. by apply (Hstep (Cleared i)).
    + split_and!; [done..|]. by intros _ _ ?.
  - pose proof (blocked_counts maxFailures windowMs _ _ _ _ i Hnow Hpos) as Hb.
    pose proof (inv_asked maxFailures windowMs _ _ _ _ i Hnow) as Ha.
    assert (among ips (isBlocked maxFailures windowMs i now st.(edge_failures)).2) as Hm.
    { split; [|done]. intros k Hin. by apply (Hstep (Asked i)). }
    destruct (isBlocked _ _ _ _ _) as [b m'] eqn:E. simpl in *. destruct b.
    { split_and!; try done. }
    destruct (Hroute m' log) as [H1 H2]; [done..|]. split_and!; [done..|]. intros _ _ _.
    symmetry in Hb. apply Nat.leb_gt in Hb.
    destruct (li_counts _ _ _ _ _ Hnow i (now - windowMs)) as [_ <-]; [lia|done|done].
Qed.

(** A failure more under the limit, or not, against all of the address. *)
Lemma limited_snoc c ip log times a failed :
  isLoopbackAddress ip = false → (since c times <= since c (log ip))%nat →
  (since c (times ++ (if String.eqb (attempt_ip a) ip && limited_path a && failed
                      then [a.1.(ee_now)] else []))
   <= since c (serve_log log a failed ip))%nat.
Proof.
  intros Hl H. rewrite serve_log_other by done. rewrite !since_app.
  destruct (String.eqb _ _), (limited_path a), failed; simpl; unfold since in *; simpl; lia.
Qed.

(** C8: However it goes about it, one request after the other and to whatever paths, an
    address that is not this machine's gets no more than the threshold of failed
    authentications on the paths under the limit into any window: the requests beyond
    are turned away before a guard looks at them. The guards are on, the platform vouches
    for nobody, and there are no more addresses than the fifty thousand the limiter
    keeps. *)
Theorem failures_bounded attempts st ip c :
  (0 < maxFailures)%nat → Forall ordinary attempts →
  StronglySorted Z.le ((λ a : EdgeCall, a.1.(ee_now)) <$> attempts) →
  (∃ ips, (∀ a, a ∈ attempts → attempt_ip a ∈ ips) ∧ (Z.of_nat (length ips) <= MAX_TRACKED_IPS)%Z) →
  isLoopbackAddress ip = false → st.(edge_failures) = [] →
  (within c (failed_at ip (serve_all attempts st)) <= maxFailures)%nat.
Proof.
  intros Hpos Hord Hs (ips & Hips & Hlen) Hl Hst.
  assert (∀ attempts st last log times, Forall ordinary attempts →
    StronglySorted Z.le (last :: ((λ a : EdgeCall, a.1.(ee_now)) <$> attempts)) →
    (∀ a, a ∈ attempts → attempt_ip a ∈ ips) → among ips st.(edge_failures) →
    limiter_inv windowMs true last log st.(edge_failures) →
    (∀ c, (since c times <= since c (log ip))%nat) → (∀ c, (within c times <= maxFailures)%nat) →
    ∀ c, (within c (times ++ failed_at ip (serve_all attempts st)) <= maxFailures)%nat) as Hall.
  { clear attempts st Hord Hs Hips Hst. induction attempts as [|a attempts IH];
      intros st last log times Hord Hs Hips Ham Hinv Hsub Hlog c'; simpl.
    { by rewrite app_nil_r. }
    apply Forall_cons in Hord as [Ho Hord]. csimpl in Hs.
    apply StronglySorted_inv in Hs as [Hs [Hle _]%Forall_cons].
    assert (attempt_ip a ∈ ips) as Hip by (apply Hips; by left).
    destruct (serve_step ips last log st a Ho Hpos Hip Ham Hinv Hle) as (Hinv' & Ham' & Hlt).
    destruct (serve _ _ _ _ _ _ _ _ _ _) as [o st'] eqn:E. simpl in Hinv', Ham', Hlt.
    set (more := if String.eqb (attempt_ip a) ip && limited_path a && counted_failure o
                 then [a.1.(ee_now)] else []).
    assert (failed_at ip ((a, o) :: serve_all attempts st')
            = more ++ failed_at ip (serve_all attempts st')) as ->.
    { unfold failed_at, more. simpl. by destruct (_ && _). }
    rewrite app_assoc. apply (IH st' a.1.(ee_now) (serve_log log a (counted_failure o))); [done|done| |done|done|..].
    - intros b Hb. apply Hips. by right.
    - intros c''. by apply limited_snoc.
    - intros c''. unfold more. destruct (String.eqb_spec (attempt_ip a) ip) as [<-|]; simpl;
        [|by rewrite app_nil_r]. destruct (limited_path a); [|by rewrite app_nil_r].
      destruct (counted_failure o); [|by rewrite app_nil_r].
      apply within_snoc; [done|]. eapply Nat.le_lt_trans; [apply Hsub|by apply Hlt]. }
  assert (∃ first, StronglySorted Z.le (first :: ((λ a : EdgeCall, a.1.(ee_now)) <$> attempts)))
    as [first Hf].
  { destruct attempts as [|a attempts]; [exists 0%Z; by repeat constructor|]. exists a.1.(ee_now).
    csimpl in *. constructor; [done|]. constructor; [lia|]. by apply StronglySorted_inv in Hs as [_ ?]. }
  apply (Hall attempts st first (λ _, []) []); try done; rewrite ?Hst.
  - split; [by intros ? ?%elem_of_nil|done].
  - constructor; [by apply NoDup_nil|done|done|done].
  - intros. unfold within. simpl. lia.
Qed.
End Bounded.

(** ** Concrete instances *)

Definition plain_env (now : Z) : EdgeEnv :=
  {| ee_now := now; ee_DISABLE_HTTP_AUTH := None; ee_IS_PLATFORM := None;
     ee_platformUser := lookup_throws; ee_guardianThrows := false |}.

Definition sample_request (address : string) (authorization : option string) : EdgeRequest :=
  {| er_method := "GET"; er_path := "/v1/devices"; er_authorization := authorization;
     er_platformUserId := None; er_viaEdgeProxy := false; er_hasServer := true;
     er_peer := {| peer_address := Some address; peer_forwardedFor := None |} |}.

Definition edge_of (db : GatewayDb) (ts : TokenState) : EdgeState :=
  {| edge_db := db; edge_tokens := ts; edge_failures := []; edge_fallbacks := new_tracker 0;
     edge_logged := [] |}.

Definition sample_access_claims : TokenClaims :=
  minted_claims 5 "1"
    {| tp_aud := "vellum-gateway"; tp_sub := "actor:self:p"; tp_scope_profile := actor_client_v1;
       tp_policy_epoch := CURRENT_POLICY_EPOCH; tp_ttlSeconds := ACCESS_TOKEN_TTL_SECONDS |}.

Definition unpaired_edge : EdgeState :=
  edge_of empty_boot.(boot_db)
    (token_step sample_hmac toy_sha "self" paired_state (RevokeDevice "p" sample_device 20)).

Definition sample_subject : Subject :=
  {| sub_principalType := actor; sub_assistantId := "self"; sub_actorPrincipalId := Some "p";
     sub_conversationId := None |}.

(** From this machine, where no token at all would do. *)
Lemma unpaired_device_refused_at_edge_witness :
  let req := sample_request "127.0.0.1" (Some ("Bearer " +:+ sample_access)) in
  (require 60000 false sample_hmac toy_sha (reader_of sample_access_claims) guard_edge (plain_env 30)
     req unpaired_edge).1 = rejected 401.
Proof.
  intros req.
  destruct (findActorByHash (actorTokenRecordHash toy_sha sample_access) paired_state.(tables)) as [r|] eqn:Er;
    [|vm_compute in Er; discriminate Er].
  assert (at_device "p" sample_device r = true) as Hd.
  { vm_compute in Er. injection Er as <-. vm_compute. reflexivity. }
  assert (presents sample_hmac (reader_of sample_access_claims) (plain_env 30) req sample_access
            sample_access_claims) as Hp by (split; vm_compute; reflexivity).
  pose proof (unpaired_device_refused_at_edge 60000 false sample_hmac toy_sha "self"
    (reader_of sample_access_claims) 20 "p" sample_device paired_state [] guard_edge (plain_env 30)
    req unpaired_edge sample_access sample_access_claims r sample_subject eq_refl Er Hd eq_refl Hp
    eq_refl eq_refl) as H.
  destruct (require _ _ _ _ _ _ _ _ _) as [o st']. apply H.
Defined.

Lemma bootstrapped_guardian_admitted_witness :
  let benv := quiet_env "1" 5 in
  let claims := guardian_access_claims "self" benv (bootstrap_principal benv empty_boot) in
  ∃ pr bst', (require 60000 false sample_hmac toy_sha (reader_of claims) guard_guardian (plain_env 9)
     (sample_request "203.0.113.7" (Some ("Bearer " +:+ pr.(pair_accessToken))))
     (edge_of bst'.(boot_db) bst'.(boot_tokens))).1 = admitted.
Proof.
  intros benv claims.
  destruct (bootstrapped_guardian_admitted 60000 false sample_hmac toy_sha "self" (reader_of claims)
    benv "cli" "dev" None empty_boot) as (r & pr & bst' & _ & H).
  - exact empty_bootstrappable.
  - apply reader_reads.
  - reflexivity.
  - reflexivity.
  - reflexivity.
  - exists pr, bst'. apply H; [reflexivity|reflexivity| |reflexivity|reflexivity|reflexivity|reflexivity].
    intros scope Hs. discriminate Hs.
Defined.

(** On this machine, without a token. *)
Lemma edge_admission_witness :
  (require 60000 false sample_hmac toy_sha (λ _, None) guard_guardian (plain_env 9)
     (sample_request "::1" None) (edge_of empty_boot.(boot_db) unpaired_state)).1 = admitted.
Proof.
  apply (edge_admission 60000 false sample_hmac toy_sha (λ _, None) (plain_env 9)
    (sample_request "::1" None) guard_guardian).
  - reflexivity.
  - reflexivity.
  - right. split; [repeat split; reflexivity|]. intros token claims [Hp _]. discriminate Hp.
Defined.

Definition devices_route : RouteDefinition :=
  {| route_path := path_is "/v1/devices"; route_method := Some "GET"; route_auth := Some auth_edge;
     route_scope := None; route_trackFailureStatuses := None; route_precondition := None;
     route_handler := λ _ _, 200%Z |}.

Definition sample_attempt (now : Z) : EdgeCall := (plain_env now, sample_request "203.0.113.7" None).

(** Four tries against a limit of two: two are heard, two are turned away. *)
Lemma failures_bounded_witness :
  let served := serve_all 2 60000 false sample_hmac toy_sha (λ _, None) [devices_route]
                  (sample_attempt <$> [1; 2; 3; 4]%Z) (edge_of empty_boot.(boot_db) unpaired_state) in
  (within 60000 0 (failed_at false "203.0.113.7" served) <= 2)%nat
  ∧ served.*2 = [denied guard_edge 401; denied guard_edge 401; rate_limited; rate_limited].
Proof.
  intros served. split; [|vm_compute; reflexivity].
  apply (failures_bounded 2 60000 false sample_hmac toy_sha (λ _, None) [devices_route]).
  - lia.
  - repeat constructor; reflexivity.
  - vm_compute. repeat constructor; discriminate.
  - exists ["203.0.113.7"]. split; [|vm_compute; discriminate].
    intros a (n & -> & _)%list_elem_of_fmap. left.
  - reflexivity.
  - reflexivity.
Defined.

(** ** Where the code falls short of its comments *)

Definition register_route : RouteDefinition :=
  {| route_path := path_is "/inbound/register"; route_method := Some "POST";
     route_auth := Some auth_edge_scoped; route_scope := Some internal_write;
     route_trackFailureStatuses := None; route_precondition := None;
     route_handler := λ _ _, 200%Z |}.

(** The limit is for authenticated endpoints, but leaves one out: whoever failed there as
    often as the limit allows is heard again. *)
Lemma register_not_limited :
  let attempt now : EdgeCall := (plain_env now,
    {| er_method := "POST"; er_path := "/inbound/register"; er_authorization := None;
       er_platformUserId := None; er_viaEdgeProxy := false; er_hasServer := true;
       er_peer := {| peer_address := Some "203.0.113.7"; peer_forwardedFor := None |} |}) in
  let served := serve_all 2 60000 false sample_hmac toy_sha (λ _, None) [register_route; devices_route]
    (attempt <$> [1; 2; 3; 4]%Z) (edge_of empty_boot.(boot_db) unpaired_state) in
  served.*2 = replicate 4 (denied (guard_scoped (Some internal_write)) 401).
Proof. vm_compute. reflexivity. Qed.
