(* ===== verification/LoopbackGuard.v ===== *)
(** What stands between the network and the endpoints of the local machine: the guard
    of [gateway/src/http/loopback-guard.ts], and the bodies its clients read
    ([http/route-helpers.ts]).

    A request is its method, the headers these routes look at, and its body. The bytes
    of a body are read by the runtime; what the read answers is part of the request. *)
From S2P Require Import Prelude JsString JsMap CanonicalJson AuthRateLimit.

(** ** Requests *)

(** What reading a body under its cap answers; [parsed] is [JSON.parse] of the text. *)
Inductive BodyRead := body_too_large | body_unreadable | body_text (parsed : option Json).

Record LocalRequest := {
  lq_method : string;
  lq_peer : PeerInfo;                    (** the peer and [x-forwarded-for] *)
  lq_velay : option string;              (** [x-velay-forwarded] *)
  lq_viaEdgeProxy : bool;                (** [requestArrivedViaEdgeProxy] *)
  lq_edgeClientIp : option string;       (** [x-vellum-client-ip] *)
  lq_host : option string;
  lq_origin : option string;
  lq_userAgent : option string;
  lq_contentType : option string;
  lq_interfaceId : option string;        (** [x-vellum-interface-id] *)
  lq_body : BodyRead
}.

(** ** The guard *)

Definition parseHostHeader (raw : string) : option string :=
  if (String.length raw =? 0)%nat then None
  else if starts_with raw "[" then
    match index_of_char "]" raw with
    | None => None
    | Some end_ =>
        let after := slice_from (end_ + 1) raw in
        if (0 <? String.length after)%nat && negb (starts_with after ":") then None
        else Some (slice_from 1 (slice_to end_ raw))
    end
  else
    match index_of_char ":" raw with
    | None => Some raw
    | Some firstColon =>
        match index_of_char ":" (slice_from (firstColon + 1) raw) with
        | Some _ => Some raw
        | None => Some (slice_to firstColon raw)
        end
    end.

Definition isLoopbackHostHeader (host : option string) : bool :=
  match host with
  | None | Some EmptyString => true
  | Some h =>
      match parseHostHeader h with
      | None => false
      | Some parsed =>
          let hostname := to_lower parsed in
          String.eqb hostname "localhost" || isLoopbackAddress hostname
      end
  end.

(** A header that is there and not empty. *)
Definition header_set (h : option string) : bool :=
  match h with Some v => truthy v | None => false end.

Inductive LocalRefusal :=
  | velay_bridged | edge_proxy_forwarded | non_loopback_peer | non_loopback_host_header
  | x_forwarded_for_present | browser_origin.

(** The reason of the 403, or [null]. *)
Definition enforceLoopbackOnly (req : LocalRequest) (clientIp : string) : option LocalRefusal :=
  if header_set req.(lq_velay) then Some velay_bridged
  else if req.(lq_viaEdgeProxy) then Some edge_proxy_forwarded
  else if negb (truthy clientIp) || negb (isLoopbackAddress clientIp) then Some non_loopback_peer
  else if negb (isLoopbackHostHeader req.(lq_host)) then Some non_loopback_host_header
  else if header_set req.(lq_peer).(peer_forwardedFor) then Some x_forwarded_for_present
  else None.

Definition rejectBrowserOrigin (req : LocalRequest) : option LocalRefusal :=
  if header_set req.(lq_origin) then Some browser_origin else None.

(** ** Bodies *)

(** The object, or the status of the refusal. *)
Definition readJsonObjectBody (req : LocalRequest) : Z + list (string * Json) :=
  match req.(lq_body) with
  | body_too_large => inl 413%Z
  | body_unreadable => inl 400%Z
  | body_text (Some (JObj fields)) => inr fields
  | body_text _ => inl 400%Z
  end.

(** A string that is not blank, as it was sent. *)
Definition jsonStringField (body : list (string * Json)) (field : string) : option string :=
  match map_get field body with
  | Some (JStr raw) => if truthy (trim raw) then Some raw else None
  | _ => None
  end.

Definition readJsonStringField (req : LocalRequest) (field : string) : Z + string :=
  match readJsonObjectBody req with
  | inl status => inl status
  | inr body => match jsonStringField body field with Some v => inr v | None => inl 400%Z end
  end.

(** ** Who passes *)

(** A caller on this machine, straight to the gateway: no tunnel, no proxy and no
    declared forwarder in between, under a local name. *)
Definition on_this_machine (req : LocalRequest) : Prop :=
  req.(lq_viaEdgeProxy) = false
  ∧ header_set req.(lq_velay) = false
  ∧ header_set req.(lq_peer).(peer_forwardedFor) = false
  ∧ (∃ address, req.(lq_peer).(peer_address) = Some address ∧ isLoopbackAddress address = true)
  ∧ isLoopbackHostHeader req.(lq_host) = true.

(** The guard lets in exactly the callers on this machine, whatever is declared about
    proxies: without the forwarding header the client address is the peer's. *)
Lemma loopback_guard_spec trustProxy req :
  enforceLoopbackOnly req (getClientIp trustProxy req.(lq_peer)) = None
  ↔ on_this_machine req.
Proof.
  unfold enforceLoopbackOnly, on_this_machine.
  destruct (header_set (lq_velay req)); [split; [done|by intros (? & ? & _)]|].
  destruct (lq_viaEdgeProxy req); [split; [done|by intros (? & _)]|].
  destruct (header_set (peer_forwardedFor (lq_peer req))) eqn:Ef.
  { split; [by repeat case_match|by intros (_ & _ & ? & _)]. }
  assert (getClientIp trustProxy (lq_peer req) = default "unknown" (peer_address (lq_peer req))) as ->.
  { unfold getClientIp. destruct trustProxy; [|done].
    destruct (peer_forwardedFor (lq_peer req)) as [f|]; [|done]. simpl in *. by rewrite Ef. }
  destruct (peer_address (lq_peer req)) as [a|]; simpl.
  - destruct (truthy a) eqn:Ea; simpl.
    + destruct (isLoopbackAddress a) eqn:El; simpl.
      * destruct (isLoopbackHostHeader _) eqn:Eh; simpl; [|split; [done|by intros (_ & _ & _ & _ & ?)]].
        split; [intros _; split_and!; eauto|done].
      * split; [done|]. intros (_ & _ & _ & (? & [= <-] & ?) & _). congruence.
    + split; [done|]. intros (_ & _ & _ & (? & [= <-] & Hl) & _).
      destruct a; [vm_compute in Hl|]; done.
  - split; [done|]. by intros (_ & _ & _ & (? & ? & _) & _).
Qed.

Example host_headers :
  isLoopbackHostHeader <$> [None; Some "localhost:7821"; Some "LOCALHOST"; Some "[::1]:80";
    Some "127.0.0.1"; Some "evil.example"; Some "localhost.evil.example"; Some "[::1]x"; Some "::1"]
  = [true; true; true; true; true; false; false; false; true].
Proof. reflexivity. Qed.
