(* ===== verification/RemotePairing.v ===== *)
(** Pairing a remote browser or host: a device-code exchange that the owner approves
    on the machine itself ([gateway/src/remote-web/pairing-challenge-store.ts], its two
    rate limits, and the routes [http/routes/remote-web-pairing-*.ts]).

    Both maps of the store hold the same objects, so a challenge is a cell of a heap
    and the maps hold references. A handler is atomic between its awaits: the
    verification is split where the body is read, the token exchange where the
    guardian is ensured, and what waits there is part of the state. Times are
    milliseconds; the responses carry them as ISO strings. *)
From S2P Require Import Prelude JsString JsMap CanonicalJson SenderTrust ContactStore.
From S2P Require Import AuthRateLimit EdgeTokens DeviceTokens GuardianBootstrap EdgeAuth.
From S2P Require Import LoopbackGuard.

#[local] Open Scope Z_scope.

(** ** Challenges *)

Definition CODE_TTL_MS : Z := 10 * 60 * 1000.
Definition MAX_ACTIVE_CHALLENGES : nat := 200.
Definition USER_CODE_ALPHABET : string := "ABCDEFGHJKLMNPQRSTUVWXYZ23456789".
Definition USER_CODE_LENGTH : nat := 8.
Definition POLL_INTERVAL_SECONDS : Z := 5.

Inductive ChallengeStatus := ch_pending | ch_approved | ch_exchanging | ch_consumed.

#[export] Instance ChallengeStatus_eq_dec : EqDecision ChallengeStatus.
Proof. solve_decision. Defined.

Record PairingChallenge := {
  pc_id : string;
  pc_deviceCodeHash : string;
  pc_userCodeHash : string;
  pc_userCode : string;
  pc_publicBaseUrl : string;
  pc_verificationUri : string;
  pc_status : ChallengeStatus;
  pc_createdAtMs : Z;
  pc_expiresAtMs : Z;
  pc_requesterIp : string;
  pc_requesterUserAgent : option string;
  pc_viaEdgeProxy : bool;
  pc_approvedAtMs : option Z;
  pc_exchangeStartedAtMs : option Z;
  pc_consumedAtMs : option Z
}.

(** [challenge.status = s], with the time it sets. *)
Definition with_status (s : ChallengeStatus) (approved started consumed : option Z)
    (c : PairingChallenge) : PairingChallenge :=
  {| pc_id := c.(pc_id); pc_deviceCodeHash := c.(pc_deviceCodeHash);
     pc_userCodeHash := c.(pc_userCodeHash); pc_userCode := c.(pc_userCode);
     pc_publicBaseUrl := c.(pc_publicBaseUrl); pc_verificationUri := c.(pc_verificationUri);
     pc_status := s; pc_createdAtMs := c.(pc_createdAtMs); pc_expiresAtMs := c.(pc_expiresAtMs);
     pc_requesterIp := c.(pc_requesterIp); pc_requesterUserAgent := c.(pc_requesterUserAgent);
     pc_viaEdgeProxy := c.(pc_viaEdgeProxy); pc_approvedAtMs := approved;
     pc_exchangeStartedAtMs := started; pc_consumedAtMs := consumed |}.

Definition set_approved (now : Z) (c : PairingChallenge) : PairingChallenge :=
  with_status ch_approved (Some now) c.(pc_exchangeStartedAtMs) c.(pc_consumedAtMs) c.
Definition set_exchanging (now : Z) (c : PairingChallenge) : PairingChallenge :=
  with_status ch_exchanging c.(pc_approvedAtMs) (Some now) c.(pc_consumedAtMs) c.
Definition set_consumed (now : Z) (c : PairingChallenge) : PairingChallenge :=
  with_status ch_consumed c.(pc_approvedAtMs) c.(pc_exchangeStartedAtMs) (Some now) c.
Definition set_released (c : PairingChallenge) : PairingChallenge :=
  with_status ch_approved c.(pc_approvedAtMs) None c.(pc_consumedAtMs) c.

Notation Ref := nat (only parsing).

Record ChallengeStore := {
  heap : list PairingChallenge;
  challengesByUserCodeHash : list (string * Ref);
  challengesByDeviceCodeHash : list (string * Ref)
}.

Definition no_challenges : ChallengeStore :=
  {| heap := []; challengesByUserCodeHash := []; challengesByDeviceCodeHash := [] |}.

(** An assignment to the fields of the object, seen through both maps. *)
Definition mutate (r : Ref) (f : PairingChallenge → PairingChallenge) (s : ChallengeStore)
    : ChallengeStore :=
  {| heap := alter f r s.(heap); challengesByUserCodeHash := s.(challengesByUserCodeHash);
     challengesByDeviceCodeHash := s.(challengesByDeviceCodeHash) |}.

(** The objects of [challengesByUserCodeHash.values()], in order. *)
Definition by_user_values (s : ChallengeStore) : list (Ref * PairingChallenge) :=
  omap (λ e : string * Ref, (λ c, (e.2, c)) <$> s.(heap) !! e.2) s.(challengesByUserCodeHash).

Definition deleteChallenge (c : PairingChallenge) (s : ChallengeStore) : ChallengeStore :=
  {| heap := s.(heap);
     challengesByUserCodeHash := map_delete c.(pc_userCodeHash) s.(challengesByUserCodeHash);
     challengesByDeviceCodeHash := map_delete c.(pc_deviceCodeHash) s.(challengesByDeviceCodeHash) |}.

Definition cleanupExpiredChallenges (now : Z) (s : ChallengeStore) : ChallengeStore :=
  foldl (λ s e, if e.2.(pc_expiresAtMs) <=? now then deleteChallenge e.2 s else s) s
    (by_user_values s).

(** [Math.ceil(ms / 1000)] *)
Definition ceil_seconds (ms : Z) : Z := - (- ms / 1000).

(** [Some s]: full, retry after [s] seconds. *)
Definition checkRemoteWebPairingChallengeCapacity (now : Z) (s : ChallengeStore)
    : option Z * ChallengeStore :=
  let s := cleanupExpiredChallenges now s in
  if (map_size s.(challengesByUserCodeHash) <? MAX_ACTIVE_CHALLENGES)%nat then (None, s)
  else
    let earliest := foldl (λ m e, match m with
                                  | None => Some e.2.(pc_expiresAtMs)
                                  | Some m => Some (Z.min m e.2.(pc_expiresAtMs))
                                  end) None (by_user_values s) in
    (Some (match earliest with Some e => Z.max 1 (ceil_seconds (e - now)) | None => 1 end), s).

(** ** Codes *)

(** [draws] are the answers of [randomInt(USER_CODE_ALPHABET.length)]. *)
Definition randomUserCode (draws : list nat) : string :=
  let code := String.string_of_list_ascii
                (omap (λ i, String.get i USER_CODE_ALPHABET) (take USER_CODE_LENGTH draws)) in
  slice_to 4 code +:+ "-" +:+ slice_from 4 code.

Definition to_upper_char (c : ascii) : ascii :=
  let n := nat_of_ascii c in
  if ((97 <=? n) && (n <=? 122))%nat then ascii_of_nat (n - 32) else c.

Definition is_alphanumeric (c : ascii) : bool :=
  let n := nat_of_ascii (to_upper_char c) in
  (((48 <=? n) && (n <=? 57)) || ((65 <=? n) && (n <=? 90)))%nat.

Fixpoint normalizeUserCode (code : string) : string :=
  match code with
  | EmptyString => ""
  | String c s => if is_alphanumeric c then String (to_upper_char c) (normalizeUserCode s)
                  else normalizeUserCode s
  end.

(** ** The store *)

(** What a challenge takes from the random source; [src_draws] has one list of draws per
    user code tried. *)
Record ChallengeSource := {
  src_deviceCode : string;
  src_draws : list (list nat);
  src_id : string
}.

Record Requester := { rq_ip : string; rq_userAgent : option string; rq_viaEdgeProxy : bool }.

Inductive ApproveResult := approve_ok (verificationUri : string) (expiresAt : Z)
                         | approve_expired | approve_invalid.
Inductive DenyResult := deny_ok | deny_already_approved | deny_invalid.
Inductive ClaimResult :=
  | claim_approved (publicBaseUrl verificationUri : string) (expiresAt : Z)
  | claim_pending (expiresAt : Z)
  | claim_expired | claim_consumed | claim_invalid.

(** The newest first; requests of the same time keep their order. *)
Fixpoint insert_newest (c : PairingChallenge) (cs : list PairingChallenge) : list PairingChallenge :=
  match cs with
  | [] => [c]
  | x :: cs' => if x.(pc_createdAtMs) <=? c.(pc_createdAtMs) then c :: cs
                else x :: insert_newest c cs'
  end.

Section Store.
Context (sha256 : string → string) (now : Z).

Definition hashSecret (value : string) : string := sha256 value.

Definition userCodeHash (userCode : string) : string := hashSecret (normalizeUserCode userCode).

(** [None]: none of the codes drawn is free yet, and the loop goes on drawing. *)
Definition createRemoteWebPairingChallenge (src : ChallengeSource) (publicBaseUrl : string)
    (requester : Requester) (s : ChallengeStore) : option (PairingChallenge * ChallengeStore) :=
  let s := cleanupExpiredChallenges now s in
  let deviceCodeHash := hashSecret src.(src_deviceCode) in
  userCode ← find_first (λ c, negb (map_has (userCodeHash c) s.(challengesByUserCodeHash)))
               (randomUserCode <$> src.(src_draws));
  let challenge :=
    {| pc_id := src.(src_id); pc_deviceCodeHash := deviceCodeHash;
       pc_userCodeHash := userCodeHash userCode; pc_userCode := userCode;
       pc_publicBaseUrl := publicBaseUrl;
       pc_verificationUri := publicBaseUrl +:+ "/assistant/pair"; pc_status := ch_pending;
       pc_createdAtMs := now; pc_expiresAtMs := now + CODE_TTL_MS;
       pc_requesterIp := requester.(rq_ip); pc_requesterUserAgent := requester.(rq_userAgent);
       pc_viaEdgeProxy := requester.(rq_viaEdgeProxy); pc_approvedAtMs := None;
       pc_exchangeStartedAtMs := None; pc_consumedAtMs := None |} in
  let r := length s.(heap) in
  Some (challenge,
        {| heap := s.(heap) ++ [challenge];
           challengesByUserCodeHash :=
             map_set challenge.(pc_userCodeHash) r s.(challengesByUserCodeHash);
           challengesByDeviceCodeHash := map_set deviceCodeHash r s.(challengesByDeviceCodeHash) |}).

Definition lookup_challenge (k : string) (m : list (string * Ref)) (s : ChallengeStore)
    : option (Ref * PairingChallenge) :=
  r ← map_get k m; c ← s.(heap) !! r; Some (r, c).

Definition approveChallenge (r : Ref) (c : PairingChallenge) (s : ChallengeStore)
    : ApproveResult * ChallengeStore :=
  if bool_decide (c.(pc_status) = ch_exchanging) || bool_decide (c.(pc_status) = ch_consumed)
  then (approve_invalid, s)
  else if c.(pc_expiresAtMs) <=? now then (approve_expired, deleteChallenge c s)
  else (approve_ok c.(pc_verificationUri) c.(pc_expiresAtMs), mutate r (set_approved now) s).

Definition approveRemoteWebPairingChallenge (userCode : string) (s : ChallengeStore)
    : ApproveResult * ChallengeStore :=
  match lookup_challenge (userCodeHash userCode) s.(challengesByUserCodeHash) s with
  | None => (approve_invalid, s)
  | Some (r, c) => approveChallenge r c s
  end.

Definition findChallengeById (id : string) (s : ChallengeStore) : option (Ref * PairingChallenge) :=
  find_first (λ e, String.eqb e.2.(pc_id) id) (by_user_values s).

Definition listPendingRemoteWebPairingChallenges (s : ChallengeStore)
    : list PairingChallenge * ChallengeStore :=
  let s := cleanupExpiredChallenges now s in
  (foldr insert_newest []
     (List.filter (λ c, bool_decide (c.(pc_status) = ch_pending)) (by_user_values s).*2), s).

Definition approveRemoteWebPairingChallengeById (id : string) (s : ChallengeStore)
    : ApproveResult * ChallengeStore :=
  match findChallengeById id s with
  | None => (approve_invalid, s)
  | Some (r, c) => approveChallenge r c s
  end.

Definition denyRemoteWebPairingChallengeById (id : string) (s : ChallengeStore)
    : DenyResult * ChallengeStore :=
  match findChallengeById id s with
  | None => (deny_invalid, s)
  | Some (_, c) =>
      if negb (bool_decide (c.(pc_status) = ch_pending)) then (deny_already_approved, s)
      else (deny_ok, deleteChallenge c s)
  end.

Definition claimRemoteWebPairingChallengeExchange (deviceCode : string) (s : ChallengeStore)
    : ClaimResult * ChallengeStore :=
  match lookup_challenge (hashSecret deviceCode) s.(challengesByDeviceCodeHash) s with
  | None => (claim_invalid, s)
  | Some (r, c) =>
      if c.(pc_expiresAtMs) <=? now then (claim_expired, deleteChallenge c s)
      else
        match c.(pc_status) with
        | ch_pending | ch_exchanging => (claim_pending c.(pc_expiresAtMs), s)
        | ch_consumed => (claim_consumed, s)
        | ch_approved =>
            (claim_approved c.(pc_publicBaseUrl) c.(pc_verificationUri) c.(pc_expiresAtMs),
             mutate r (set_exchanging now) s)
        end
  end.

(** What both ends of an exchange do to a challenge that is being exchanged. *)
Definition end_exchange (f : PairingChallenge → PairingChallenge) (deviceCode : string)
    (s : ChallengeStore) : ChallengeStore :=
  match lookup_challenge (hashSecret deviceCode) s.(challengesByDeviceCodeHash) s with
  | Some (r, c) => if bool_decide (c.(pc_status) = ch_exchanging) then mutate r f s else s
  | None => s
  end.

Definition completeRemoteWebPairingChallengeExchange : string → ChallengeStore → ChallengeStore :=
  end_exchange (set_consumed now).
Definition releaseRemoteWebPairingChallengeExchange : string → ChallengeStore → ChallengeStore :=
  end_exchange set_released.
End Store.

(** ** The limits on creations and on wrong codes *)

Definition RATE_LIMIT_WINDOW_MS : Z := 60000.
Definition RATE_LIMIT_MAX_CHALLENGES : nat := 20.
Definition RATE_LIMIT_MAX_FAILURES : nat := 10.

(** The times of creations; [prune] is the loop that shifts expired ones. *)
Definition recordRemoteWebPairingChallengeCreation (now : Z) (timestamps : list Z)
    : option Z * list Z :=
  let ts := prune (now - RATE_LIMIT_WINDOW_MS) timestamps in
  if (RATE_LIMIT_MAX_CHALLENGES <=? length ts)%nat
  then (Some (Z.max 1 (ceil_seconds (hd now ts + RATE_LIMIT_WINDOW_MS - now))), ts)
  else (None, ts ++ [now]).

Definition in_window (now : Z) : list Z → list Z :=
  List.filter (λ t, now - RATE_LIMIT_WINDOW_MS <? t).

Definition checkRemoteWebPairingVerificationRateLimit (clientIp : string) (now : Z) (m : Failures)
    : option Z * Failures :=
  match map_get clientIp m with
  | None => (None, m)
  | Some timestamps =>
      match in_window now timestamps with
      | [] => (None, map_delete clientIp m)
      | t :: ts =>
          let m := map_set clientIp (t :: ts) m in
          if (length (t :: ts) <? RATE_LIMIT_MAX_FAILURES)%nat then (None, m)
          else (Some (Z.max 1 (ceil_seconds (t + RATE_LIMIT_WINDOW_MS - now))), m)
      end
  end.

Definition recordRemoteWebPairingVerificationFailure (clientIp : string) (now : Z) (m : Failures)
    : Failures :=
  map_set clientIp (in_window now (default [] (map_get clientIp m)) ++ [now]) m.

Definition clearRemoteWebPairingVerificationFailures (clientIp : string) (m : Failures) : Failures :=
  map_delete clientIp m.

(** ** URLs *)

(** What the code reads off [new URL(value)]. *)
Record UrlParts := {
  up_protocol : string; up_host : string; up_hostname : string; up_origin : string;
  up_pathname : string
}.

(** [s.replace(/\/+$/, '')] *)
Fixpoint strip_trailing_slashes (s : string) : string :=
  match s with
  | EmptyString => ""
  | String c s' =>
      match strip_trailing_slashes s' with
      | EmptyString => if Ascii.eqb c "/" then "" else String c ""
      | r => String c r
      end
  end.

Definition BROWSER_REFRESH_PATH : string := "/v1/guardian/refresh".

Definition normalizeCookiePath (value : string) : string :=
  if negb (truthy value) || negb (starts_with value "/")
     || existsb (includes_char value) [";"%char; "013"%char; "010"%char]
  then BROWSER_REFRESH_PATH else value.

Section Urls.
Context (URL_parse : string → option UrlParts).

Definition parsePublicBaseUrl (value : string) : option string :=
  if negb (truthy (trim value)) then None
  else
    url ← URL_parse value;
    if negb (String.eqb url.(up_protocol) "https:") && negb (String.eqb url.(up_protocol) "http:")
    then None
    else if negb (truthy url.(up_host)) then None
    else Some (url.(up_origin) +:+ strip_trailing_slashes url.(up_pathname)).

(** [None]: [new URL] throws. *)
Definition publicBaseUrlMatchesRequestHost (req : LocalRequest) (publicBaseUrl : string)
    : option bool :=
  match DeviceTokens.nonempty req.(lq_host) with
  | None => Some false
  | Some host =>
      match DeviceTokens.nonempty (parseHostHeader host) with
      | None => Some false
      | Some parsedHost =>
          publicUrl ← URL_parse publicBaseUrl;
          Some (String.eqb (to_lower publicUrl.(up_hostname)) (to_lower parsedHost))
      end
  end.

Definition remoteWebRefreshCookiePathForPublicBaseUrl (publicBaseUrl : string) : option string :=
  url ← URL_parse publicBaseUrl;
  Some (normalizeCookiePath (strip_trailing_slashes url.(up_pathname) +:+ BROWSER_REFRESH_PATH)).
End Urls.

(** ** Routes *)

Definition REMOTE_WEB_PLATFORM : string := "web".
Definition REMOTE_WEB_PAIRING_PLATFORMS : list string := ["cli"; "desktop"; "ios"; "android"].
Definition DEFAULT_REMOTE_WEB_PAIRING_PLATFORM : string := "desktop".

Definition resolveRemoteWebPairingPlatform (raw : option Json) : string :=
  match raw with
  | Some (JStr p) => default DEFAULT_REMOTE_WEB_PAIRING_PLATFORM
                       (find_first (λ platform, String.eqb platform p) REMOTE_WEB_PAIRING_PLATFORMS)
  | _ => DEFAULT_REMOTE_WEB_PAIRING_PLATFORM
  end.

(** An exchange between its claim and its end. *)
Record Exchange := {
  ex_deviceCode : string;
  ex_deviceId : option string;
  ex_platform : string;
  ex_userAgent : option string;
  ex_clientReportedName : option string;
  ex_publicBaseUrl : string
}.

(** A handler at its await. *)
Inductive Awaiting := awaiting_body (req : LocalRequest) | awaiting_guardian (ex : Exchange).

Inductive PairingResponse :=
  | pr_status (status : Z)                               (** an error, or the method *)
  | pr_rate_limited (retryAfterSeconds : Z)              (** 429 *)
  | pr_challenge (deviceCode : string) (challenge : PairingChallenge)
  | pr_drawing                                           (** still looking for a free code *)
  | pr_approved (verificationUri : string) (expiresAt : Z)
  | pr_denied
  | pr_listed (pending : list PairingChallenge)
  | pr_token_pending (expiresAt : Z)                     (** 202 *)
  | pr_token (deviceBound : bool) (pair : TokenPair)
  | pr_repair_required                                   (** 503 *)
  | pr_throws
  | pr_waits (k : Awaiting).                             (** the handler awaits *)

Record PairingState := {
  ps_store : ChallengeStore;
  ps_creations : list Z;
  ps_failures : Failures;
  ps_boot : BootState;
  ps_awaiting : list Awaiting
}.

Definition on_store (s : ChallengeStore) (st : PairingState) : PairingState :=
  {| ps_store := s; ps_creations := st.(ps_creations); ps_failures := st.(ps_failures);
     ps_boot := st.(ps_boot); ps_awaiting := st.(ps_awaiting) |}.
Definition on_creations (ts : list Z) (st : PairingState) : PairingState :=
  {| ps_store := st.(ps_store); ps_creations := ts; ps_failures := st.(ps_failures);
     ps_boot := st.(ps_boot); ps_awaiting := st.(ps_awaiting) |}.
Definition on_wrong_codes (m : Failures) (st : PairingState) : PairingState :=
  {| ps_store := st.(ps_store); ps_creations := st.(ps_creations); ps_failures := m;
     ps_boot := st.(ps_boot); ps_awaiting := st.(ps_awaiting) |}.
Definition on_boot (b : BootState) (st : PairingState) : PairingState :=
  {| ps_store := st.(ps_store); ps_creations := st.(ps_creations); ps_failures := st.(ps_failures);
     ps_boot := b; ps_awaiting := st.(ps_awaiting) |}.
Definition on_awaiting (ks : list Awaiting) (st : PairingState) : PairingState :=
  {| ps_store := st.(ps_store); ps_creations := st.(ps_creations); ps_failures := st.(ps_failures);
     ps_boot := st.(ps_boot); ps_awaiting := ks |}.

Section Routes.
Context (trustProxy : bool) (URL_parse : string → option UrlParts).
Context (hmac sha256 : string → string) (assistantId : string).

Definition clientIp (req : LocalRequest) : string := getClientIp trustProxy req.(lq_peer).
Definition rawPeerIp (req : LocalRequest) : string :=
  default "unknown" req.(lq_peer).(peer_address).

Definition handleCreateRemoteWebPairingChallenge (now : Z) (src : ChallengeSource)
    (req : LocalRequest) (st : PairingState) : PairingResponse * PairingState :=
  let arrivedViaTrustedEdgeProxy := req.(lq_viaEdgeProxy) && isLoopbackAddress (rawPeerIp req) in
  if negb (String.eqb req.(lq_method) "POST") then (pr_status 405, st)
  else if negb arrivedViaTrustedEdgeProxy && bool_decide (enforceLoopbackOnly req (clientIp req) ≠ None)
  then (pr_status 403, st)
  else
    match readJsonStringField req "publicBaseUrl" with
    | inl status => (pr_status status, st)
    | inr rawPublicBaseUrl =>
        match parsePublicBaseUrl URL_parse rawPublicBaseUrl with
        | None => (pr_status 400, st)
        | Some publicBaseUrl =>
            if negb (truthy publicBaseUrl) then (pr_status 400, st)
            else
              match (if arrivedViaTrustedEdgeProxy
                     then publicBaseUrlMatchesRequestHost URL_parse req publicBaseUrl
                     else Some true) with
              | None => (pr_throws, st)
              | Some false => (pr_status 400, st)
              | Some true =>
                  let '(limited, ts) :=
                    recordRemoteWebPairingChallengeCreation now st.(ps_creations) in
                  let st := on_creations ts st in
                  match limited with
                  | Some retry => (pr_rate_limited retry, st)
                  | None =>
                      let '(full, s) :=
                        checkRemoteWebPairingChallengeCapacity now st.(ps_store) in
                      let st := on_store s st in
                      match full with
                      | Some retry => (pr_rate_limited retry, st)
                      | None =>
                          let edgeClientIp := if arrivedViaTrustedEdgeProxy
                                              then trim (default "" req.(lq_edgeClientIp)) else "" in
                          let requester :=
                            {| rq_ip := if truthy edgeClientIp then edgeClientIp else clientIp req;
                               rq_userAgent := req.(lq_userAgent);
                               rq_viaEdgeProxy := arrivedViaTrustedEdgeProxy |} in
                          match createRemoteWebPairingChallenge sha256 now src publicBaseUrl
                                  requester st.(ps_store) with
                          | None => (pr_drawing, st)
                          | Some (challenge, s) =>
                              (pr_challenge src.(src_deviceCode) challenge, on_store s st)
                          end
                      end
                  end
              end
        end
    end.

(** *** Approval by code, up to and from the read of the body *)

Definition verify_before_body (now : Z) (req : LocalRequest) (st : PairingState)
    : PairingResponse * PairingState :=
  if negb (String.eqb req.(lq_method) "POST") then (pr_status 405, st)
  else if bool_decide (enforceLoopbackOnly req (clientIp req) ≠ None) then (pr_status 403, st)
  else
    let '(limited, m) :=
      checkRemoteWebPairingVerificationRateLimit (clientIp req) now st.(ps_failures) in
    let st := on_wrong_codes m st in
    match limited with
    | Some retry => (pr_rate_limited retry, st)
    | None => (pr_waits (awaiting_body req), st)
    end.

Definition failedAttemptResponse (now : Z) (ip : string) (status : Z) (st : PairingState)
    : PairingResponse * PairingState :=
  let '(limited, m) := checkRemoteWebPairingVerificationRateLimit ip now st.(ps_failures) in
  match limited with
  | Some retry => (pr_rate_limited retry, on_wrong_codes m st)
  | None => (pr_status status,
             on_wrong_codes (recordRemoteWebPairingVerificationFailure ip now m) st)
  end.

Definition verify_after_body (now : Z) (req : LocalRequest) (st : PairingState)
    : PairingResponse * PairingState :=
  match readJsonStringField req "userCode" with
  | inl status => failedAttemptResponse now (clientIp req) status st
  | inr userCode =>
      let '(limited, m) :=
        checkRemoteWebPairingVerificationRateLimit (clientIp req) now st.(ps_failures) in
      let st := on_wrong_codes m st in
      match limited with
      | Some retry => (pr_rate_limited retry, st)
      | None =>
          let '(result, s) := approveRemoteWebPairingChallenge sha256 now userCode st.(ps_store) in
          let st := on_store s st in
          match result with
          | approve_invalid => failedAttemptResponse now (clientIp req) 404 st
          | approve_expired => failedAttemptResponse now (clientIp req) 410 st
          | approve_ok uri expiresAt =>
              (pr_approved uri expiresAt,
               on_wrong_codes (clearRemoteWebPairingVerificationFailures (clientIp req)
                                 st.(ps_failures)) st)
          end
      end
  end.

(** *** The list, and approval or denial by its identifiers *)

Definition handleListRemoteWebPairingRequests (now : Z) (req : LocalRequest) (st : PairingState)
    : PairingResponse * PairingState :=
  if negb (String.eqb req.(lq_method) "GET") then (pr_status 405, st)
  else if bool_decide (enforceLoopbackOnly req (clientIp req) ≠ None) then (pr_status 403, st)
  else let '(pending, s) := listPendingRemoteWebPairingChallenges now st.(ps_store) in
       (pr_listed pending, on_store s st).

(** The status of a refusal, or [null]. *)
Definition guardPostLoopback (req : LocalRequest) : option Z :=
  if negb (String.eqb req.(lq_method) "POST") then Some 405
  else if bool_decide (enforceLoopbackOnly req (clientIp req) ≠ None) then Some 403
  else None.

(** A route that acts on a request identifier. *)
Definition on_request_id (req : LocalRequest)
    (act : string → PairingState → PairingResponse * PairingState) (st : PairingState)
    : PairingResponse * PairingState :=
  match guardPostLoopback req with
  | Some status => (pr_status status, st)
  | None =>
      match readJsonStringField req "requestId" with
      | inl status => (pr_status status, st)
      | inr requestId => act requestId st
      end
  end.

Definition handleApproveRemoteWebPairingRequest (now : Z) (req : LocalRequest)
    : PairingState → PairingResponse * PairingState :=
  on_request_id req (λ requestId st,
    let '(result, s) := approveRemoteWebPairingChallengeById now requestId st.(ps_store) in
    let st := on_store s st in
    match result with
    | approve_invalid => (pr_status 404, st)
    | approve_expired => (pr_status 410, st)
    | approve_ok uri expiresAt => (pr_approved uri expiresAt, st)
    end).

Definition handleDenyRemoteWebPairingRequest (req : LocalRequest)
    : PairingState → PairingResponse * PairingState :=
  on_request_id req (λ requestId st,
    let '(result, s) := denyRemoteWebPairingChallengeById requestId st.(ps_store) in
    let st := on_store s st in
    match result with
    | deny_invalid => (pr_status 404, st)
    | deny_already_approved => (pr_status 409, st)
    | deny_ok => (pr_denied, st)
    end).

(** *** The exchange, up to and from the guardian *)

Definition token_before_guardian (now : Z) (req : LocalRequest) (st : PairingState)
    : PairingResponse * PairingState :=
  if negb (String.eqb req.(lq_method) "POST") then (pr_status 405, st)
  else
    match readJsonObjectBody req with
    | inl status => (pr_status status, st)
    | inr body =>
        match jsonStringField body "deviceCode" with
        | None => (pr_status 400, st)
        | Some deviceCode =>
            let deviceId := jsonStringField body "deviceId" in
            let blank := match deviceId, map_get "deviceId" body with
                         | None, Some (JStr _) => true
                         | _, _ => false
                         end in
            if blank then (pr_status 400, st)
            else
              let '(challenge, s) :=
                claimRemoteWebPairingChallengeExchange sha256 now deviceCode st.(ps_store) in
              let st := on_store s st in
              match challenge with
              | claim_pending expiresAt => (pr_token_pending expiresAt, st)
              | claim_invalid | claim_expired | claim_consumed => (pr_status 401, st)
              | claim_approved publicBaseUrl _ _ =>
                  (pr_waits (awaiting_guardian
                     {| ex_deviceCode := deviceCode; ex_deviceId := deviceId;
                        ex_platform := resolveRemoteWebPairingPlatform (map_get "platform" body);
                        ex_userAgent := req.(lq_userAgent);
                        ex_clientReportedName := jsonStringField body "clientReportedName";
                        ex_publicBaseUrl := publicBaseUrl |}), st)
              end
        end
    end.

(** The credentials of an exchange; [None]: the mint throws, or the address has no path. *)
Definition mint_for_exchange (env : BootEnv) (ex : Exchange) (principal : string) (b : BootState)
    : option TokenPair * BootState :=
  let identity := {| di_pairingUserAgent := ex.(ex_userAgent);
                     di_clientReportedName := ex.(ex_clientReportedName) |} in
  match ex.(ex_deviceId) with
  | Some deviceId =>
      let '(pr, t) :=
        mintAndRecordDeviceBoundTokenPair env.(be_now) hmac sha256 assistantId env.(be_source)
          principal deviceId ex.(ex_platform) identity b.(boot_tokens).(tables) in
      (pr, on_boot_tokens t b)
  | None =>
      match remoteWebRefreshCookiePathForPublicBaseUrl URL_parse ex.(ex_publicBaseUrl) with
      | None => (None, b)
      | Some refreshCookiePath =>
          let '(pr, t) :=
            mintAndRecordBrowserTokenPair env.(be_now) hmac sha256 assistantId env.(be_source)
              principal REMOTE_WEB_PLATFORM refreshCookiePath identity b.(boot_tokens).(tables) in
          (pr, on_boot_tokens t b)
      end
  end.

Definition token_after_guardian (env : BootEnv) (ex : Exchange) (st : PairingState)
    : PairingResponse * PairingState :=
  let release st :=
    on_store (releaseRemoteWebPairingChallengeExchange sha256 ex.(ex_deviceCode) st.(ps_store)) st in
  match ensureVellumGuardianBinding env false st.(ps_boot) with
  | (inl mint_refused, b) => (pr_repair_required, release (on_boot b st))
  | (inl _, b) => (pr_throws, release (on_boot b st))
  | (inr principal, b) =>
      match mint_for_exchange env ex principal b with
      | (None, b) => (pr_throws, release (on_boot b st))
      | (Some pr, b) =>
          (pr_token (bool_decide (is_Some ex.(ex_deviceId))) pr,
           on_store (completeRemoteWebPairingChallengeExchange sha256 env.(be_now)
                       ex.(ex_deviceCode) st.(ps_store)) (on_boot b st))
      end
  end.

(** ** The event loop *)

Inductive PairingCall :=
  | CreateChallenge (src : ChallengeSource) (req : LocalRequest)
  | VerifyCode (req : LocalRequest)
  | ListRequests (req : LocalRequest)
  | ApproveRequest (req : LocalRequest)
  | DenyRequest (req : LocalRequest)
  | ExchangeToken (req : LocalRequest)
  | Resume (i : nat) (env : BootEnv)               (** the [i]-th handler that waits goes on *)
  | Elsewhere (f : BootState → BootState).         (** what the rest of the gateway does *)

Definition resume (now : Z) (env : BootEnv) (k : Awaiting) : PairingState → PairingResponse * PairingState :=
  match k with
  | awaiting_body req => verify_after_body now req
  | awaiting_guardian ex => token_after_guardian env ex
  end.

(** What a call was answered, and which handler went on. *)
Record Served := {
  sv_time : Z;
  sv_call : PairingCall;
  sv_resumed : option Awaiting;
  sv_response : PairingResponse
}.

(** A call at its time. A handler that awaits is queued. *)
Definition pairing_step (st : PairingState) (e : Z * PairingCall) : option Served * PairingState :=
  let '(now, call) := e in
  let run (resumed : option Awaiting) (r : PairingResponse * PairingState) :=
    (Some {| sv_time := now; sv_call := call; sv_resumed := resumed; sv_response := r.1 |},
     match r.1 with pr_waits k => on_awaiting (r.2.(ps_awaiting) ++ [k]) r.2 | _ => r.2 end) in
  match call with
  | CreateChallenge src req => run None (handleCreateRemoteWebPairingChallenge now src req st)
  | VerifyCode req => run None (verify_before_body now req st)
  | ListRequests req => run None (handleListRemoteWebPairingRequests now req st)
  | ApproveRequest req => run None (handleApproveRemoteWebPairingRequest now req st)
  | DenyRequest req => run None (handleDenyRemoteWebPairingRequest req st)
  | ExchangeToken req => run None (token_before_guardian now req st)
  | Resume i env =>
      match st.(ps_awaiting) !! i with
      | None => (None, st)
      | Some k => run (Some k) (resume now env k (on_awaiting (delete i st.(ps_awaiting)) st))
      end
  | Elsewhere f => (None, on_boot (f st.(ps_boot)) st)
  end.

(** The calls in turn, with the log of what was served. *)
Definition pairing_run (st : PairingState) (trace : list (Z * PairingCall))
    : list Served * PairingState :=
  foldl (λ a e, let '(served, st) := pairing_step a.2 e in (a.1 ++ option_list served, st))
    ([], st) trace.
End Routes.

(** The gateway just started. *)
Definition pairing_start (b : BootState) : PairingState :=
  {| ps_store := no_challenges; ps_creations := []; ps_failures := []; ps_boot := b;
     ps_awaiting := [] |}.
