(* ===== verification/PairingSafety.v ===== *)
(** What the pairing of remote devices ([RemotePairing]) promises, over every trace of
    requests and of handlers that go on: credentials need an approval on this machine and
    are handed out once per code; codes cannot be guessed at will; a device whose owner
    approves it gets in; an exchange that fails can be repeated. *)
From Stdlib Require Import Sorted.
From S2P Require Import Prelude JsString JsMap CanonicalJson SenderTrust ContactStore.
From S2P Require Import AuthRateLimit EdgeTokens DeviceTokens GuardianBootstrap EdgeAuth.
From S2P Require Import LoopbackGuard RemotePairing.

#[local] Open Scope Z_scope.

(** ** Who gets credentials *)

(** What stays of a challenge. *)
Definition ident (c : PairingChallenge) : string * string * string * Z * Z :=
  (c.(pc_id), c.(pc_deviceCodeHash), c.(pc_userCodeHash), c.(pc_createdAtMs), c.(pc_expiresAtMs)).

Definition created (e : Served) : option PairingChallenge :=
  match e.(sv_response) with pr_challenge _ c => Some c | _ => None end.

Section Approval.
Context (sha256 : string → string).

(** The served call approved the challenge: from this machine, by its identifier or its
    code, before it expired. *)
Definition approves (c : PairingChallenge) (e : Served) : Prop :=
  (∃ uri expiresAt, e.(sv_response) = pr_approved uri expiresAt)
  ∧ e.(sv_time) < c.(pc_expiresAtMs)
  ∧ ∃ req, on_this_machine req
    ∧ (e.(sv_call) = ApproveRequest req ∧ readJsonStringField req "requestId" = inr c.(pc_id)
       ∨ e.(sv_resumed) = Some (awaiting_body req)
         ∧ ∃ userCode, readJsonStringField req "userCode" = inr userCode
                       ∧ userCodeHash sha256 userCode = c.(pc_userCodeHash)).

(** It was created, and approved later. *)
Definition approved_in (log : list Served) (c : PairingChallenge) : Prop :=
  ∃ l1 e1 l2 e2 l3 c0, log = l1 ++ e1 :: l2 ++ e2 :: l3
    ∧ created e1 = Some c0 ∧ ident c0 = ident c ∧ approves c0 e2.

(** The exchange waits, or the call handed out credentials, for this device code. *)
Definition waits_for (h : string) (k : Awaiting) : bool :=
  match k with
  | awaiting_guardian ex => String.eqb (hashSecret sha256 ex.(ex_deviceCode)) h
  | awaiting_body _ => false
  end.

Definition grants (h : string) (e : Served) : bool :=
  match e.(sv_resumed), e.(sv_response) with
  | Some k, pr_token _ _ => waits_for h k
  | _, _ => false
  end.

(** The code may still be exchanged. *)
Definition redeemable (h : string) (s : ChallengeStore) : nat :=
  match lookup_challenge h s.(challengesByDeviceCodeHash) s with
  | Some (_, c) => if mem c.(pc_status) [ch_pending; ch_approved] then 1 else 0
  | None => 0
  end.

Record pairing_inv (log : list Served) (s : ChallengeStore) (waiting : list Awaiting) : Prop := {
  pi_created : ident <$> s.(heap) = ident <$> omap created log;
  pi_user : ∀ k r, map_get k s.(challengesByUserCodeHash) = Some r →
            ∃ c, s.(heap) !! r = Some c ∧ c.(pc_userCodeHash) = k;
  pi_device : ∀ k r, map_get k s.(challengesByDeviceCodeHash) = Some r →
              ∃ c, s.(heap) !! r = Some c ∧ c.(pc_deviceCodeHash) = k;
  pi_approved : ∀ r c, s.(heap) !! r = Some c → c.(pc_status) ≠ ch_pending → approved_in log c;
  pi_once : ∀ h, (tally (grants h) log + tally (waits_for h) waiting + redeemable h s <= 1)%nat;
  pi_waiting : ∀ ex, awaiting_guardian ex ∈ waiting →
               ∃ c, c.(pc_deviceCodeHash) = hashSecret sha256 ex.(ex_deviceCode) ∧ approved_in log c;
  pi_granted : ∀ pre e post h, log = pre ++ e :: post → grants h e = true →
               ∃ c, c.(pc_deviceCodeHash) = h ∧ approved_in pre c;
  pi_local : ∀ req, awaiting_body req ∈ waiting → on_this_machine req
}.
End Approval.

(** ** How the store changes *)

(** Challenges were dropped. *)
Record dropped (s s' : ChallengeStore) : Prop := {
  dr_heap : s'.(heap) = s.(heap);
  dr_user : ∀ k r, map_get k s'.(challengesByUserCodeHash) = Some r →
            map_get k s.(challengesByUserCodeHash) = Some r;
  dr_device : ∀ k r, map_get k s'.(challengesByDeviceCodeHash) = Some r →
              map_get k s.(challengesByDeviceCodeHash) = Some r
}.

#[export] Instance dropped_preorder : PreOrder dropped.
Proof.
  split; [by intros s|]. intros s1 s2 s3 [H1 H2 H3] [H1' H2' H3'].
  split; [congruence|eauto..].
Qed.

Lemma dropped_delete c s : dropped s (deleteChallenge c s).
Proof. split; [done|..]; intros k r; simpl; rewrite map_get_delete; by case_decide. Qed.

Lemma dropped_cleanup now s : dropped s (cleanupExpiredChallenges now s).
Proof.
  unfold cleanupExpiredChallenges. generalize (by_user_values s). intros es. revert s.
  induction es as [|e es IH]; intros s; simpl; [done|]. rewrite <- IH.
  case_match; [apply dropped_delete|done].
Qed.

Lemma dropped_capacity now s : dropped s (checkRemoteWebPairingChallengeCapacity now s).2.
Proof.
  unfold checkRemoteWebPairingChallengeCapacity. case_match; simpl; apply dropped_cleanup.
Qed.

Lemma lookup_challenge_Some k m s r c :
  lookup_challenge k m s = Some (r, c) ↔ map_get k m = Some r ∧ s.(heap) !! r = Some c.
Proof.
  unfold lookup_challenge. destruct (map_get k m) as [r'|]; simpl; [|split; [done|by intros []]].
  destruct (heap s !! r') eqn:E; simpl; split; try done; naive_solver congruence.
Qed.

Lemma by_user_elem s r c :
  (r, c) ∈ by_user_values s → s.(heap) !! r = Some c.
Proof.
  unfold by_user_values. rewrite list_elem_of_omap. intros ([k r'] & _ & H). simpl in H.
  destruct (heap s !! r') eqn:E; simpl in H; [|done]. by injection H as <- <-.
Qed.

Section Approval.
Context (sha256 : string → string).
Notation approved_in := (approved_in sha256).
Notation grants := (grants sha256).
Notation waits_for := (waits_for sha256).
Notation pairing_inv := (pairing_inv sha256).

Lemma redeemable_le1 h s : (redeemable h s <= 1)%nat.
Proof. unfold redeemable. repeat case_match; lia. Qed.

Lemma redeemable_dropped h s s' : dropped s s' → (redeemable h s' <= redeemable h s)%nat.
Proof.
  intros [Hh _ Hd]. unfold redeemable.
  destruct (lookup_challenge h (challengesByDeviceCodeHash s') s') as [[r c]|] eqn:E; [|lia].
  apply lookup_challenge_Some in E as [E1 E2]. rewrite Hh in E2.
  rewrite (proj2 (lookup_challenge_Some h (challengesByDeviceCodeHash s) s r c)); [done|auto].
Qed.

Lemma approved_in_app log log' c : approved_in log c → approved_in (log ++ log') c.
Proof.
  intros (l1 & e1 & l2 & e2 & l3 & c0 & -> & H). exists l1, e1, l2, e2, (l3 ++ log'), c0.
  split; [|done]. by rewrite <- !app_assoc, <- app_comm_cons, <- app_assoc, <- app_comm_cons.
Qed.

Lemma approves_ident c c' e : ident c = ident c' → approves sha256 c e → approves sha256 c' e.
Proof. unfold ident, approves. intros [= -> _ -> _ ->]. done. Qed.

Lemma approved_in_ident log c c' : ident c = ident c' → approved_in log c → approved_in log c'.
Proof.
  intros Hi (l1 & e1 & l2 & e2 & l3 & c0 & -> & H1 & H2 & H3). exists l1, e1, l2, e2, l3, c0.
  split_and!; [done|done|congruence|done].
Qed.

Lemma inv_dropped log s s' waiting : dropped s s' → pairing_inv log s waiting → pairing_inv log s' waiting.
Proof.
  intros Hd [H1 H2 H3 H4 H5 H6 H7 H8]. pose proof Hd as [Hh Hu Hv]. split; try done; rewrite ?Hh; eauto.
  intros h. pose proof (redeemable_dropped h _ _ Hd). specialize (H5 h). lia.
Qed.

(** Neither a challenge nor credentials. *)
Definition quiet (e : Served) : bool :=
  match e.(sv_response) with pr_challenge _ _ | pr_token _ _ => false | _ => true end.

Lemma quiet_created e : quiet e = true → created e = None.
Proof. unfold quiet, created. by destruct (sv_response e). Qed.

Lemma quiet_grants e h : quiet e = true → grants h e = false.
Proof. unfold quiet, PairingSafety.grants. destruct (sv_resumed e), (sv_response e); done. Qed.

Lemma granted_snoc log e :
  (∀ pre e post h, log = pre ++ e :: post → grants h e = true →
     ∃ c, c.(pc_deviceCodeHash) = h ∧ approved_in pre c) →
  (∀ h, grants h e = true → ∃ c, c.(pc_deviceCodeHash) = h ∧ approved_in log c) →
  ∀ pre e' post h, log ++ [e] = pre ++ e' :: post → grants h e' = true →
     ∃ c, c.(pc_deviceCodeHash) = h ∧ approved_in pre c.
Proof.
  intros Hold Hnew pre e' post h Heq Hge. destruct post as [|x post _] using rev_ind.
  - apply app_inj_tail in Heq as [-> ->]. eauto.
  - rewrite app_comm_cons, app_assoc in Heq. apply app_inj_tail in Heq as [-> _]. eauto.
Qed.

Lemma waiting_app log log' (waiting : list Awaiting) :
  (∀ ex, awaiting_guardian ex ∈ waiting → ∃ c, c.(pc_deviceCodeHash) = hashSecret sha256 ex.(ex_deviceCode)
                                             ∧ approved_in log c) →
  ∀ ex, awaiting_guardian ex ∈ waiting → ∃ c, c.(pc_deviceCodeHash) = hashSecret sha256 ex.(ex_deviceCode)
                                            ∧ approved_in (log ++ log') c.
Proof. intros H ex (c & ? & ?)%H. exists c. split; [done|]. by apply approved_in_app. Qed.

(** The log grows by a quiet call. *)
Lemma inv_quiet log s waiting e :
  quiet e = true → pairing_inv log s waiting → pairing_inv (log ++ [e]) s waiting.
Proof.
  intros Hq [H1 H2 H3 H4 H5 H6 H7 H8]. split; try done.
  - rewrite omap_app. simpl. rewrite quiet_created by done. by rewrite app_nil_r.
  - intros r c ??. eapply approved_in_app, H4; done.
  - intros h. rewrite tally_app, tally_one, quiet_grants by done. specialize (H5 h). lia.
  - by apply waiting_app.
  - apply granted_snoc; [done|]. intros h. by rewrite quiet_grants.
Qed.

(** A waiting handler leaves, or a body is read on this machine. *)
Lemma inv_leave log s waiting i : pairing_inv log s waiting → pairing_inv log s (delete i waiting).
Proof.
  intros [H1 H2 H3 H4 H5 H6 H7 H8].
  assert (∀ k, k ∈ delete i waiting → k ∈ waiting) as Hin.
  { intros k Hk. eapply elem_of_sublist; [exact Hk|apply sublist_delete]. }
  split; try done; eauto. intros h. specialize (H5 h).
  destruct (waiting !! i) as [k|] eqn:E.
  - rewrite (tally_delete _ _ _ _ E) in H5. lia.
  - apply lookup_ge_None in E. rewrite delete_take_drop, take_ge, drop_ge, app_nil_r by lia. done.
Qed.

Lemma inv_reading log s waiting req :
  on_this_machine req → pairing_inv log s waiting →
  pairing_inv log s (waiting ++ [awaiting_body req]).
Proof.
  intros Hl [H1 H2 H3 H4 H5 H6 H7 H8]. split; try done.
  - intros h. rewrite tally_app, tally_one. specialize (H5 h). simpl. lia.
  - intros ex [?|Hx%list_elem_of_singleton]%elem_of_app; [eauto|done].
  - intros req' [?|Hx%list_elem_of_singleton]%elem_of_app; [eauto|]. by injection Hx as ->.
Qed.

(** *** Assignments *)

Lemma mutate_lookup r f s r' c' :
  (mutate r f s).(heap) !! r' = Some c' →
  ∃ c, s.(heap) !! r' = Some c ∧ c' = if decide (r' = r) then f c else c.
Proof.
  simpl. intros H. case_decide as E.
  - subst. rewrite list_lookup_alter_eq in H. destruct (heap s !! r) as [p|]; simplify_eq/=; eauto.
  - rewrite list_lookup_alter_ne in H by done. eauto.
Qed.

(** An assignment keeps the identities, and changes what can be redeemed for one device only. *)
Lemma inv_mutate log s waiting r c f :
  s.(heap) !! r = Some c → (∀ c, ident (f c) = ident c) →
  ((f c).(pc_status) ≠ ch_pending → approved_in log c) →
  (∀ h, (tally (grants h) log + tally (waits_for h) waiting + redeemable h (mutate r f s) <= 1)%nat) →
  (∀ ex, awaiting_guardian ex ∈ waiting → ∃ c, c.(pc_deviceCodeHash) = hashSecret sha256 ex.(ex_deviceCode)
                                              ∧ approved_in log c) →
  (∀ req, awaiting_body req ∈ waiting → on_this_machine req) →
  ∀ w, pairing_inv log s w → pairing_inv log (mutate r f s) waiting.
Proof.
  intros Hr Hf Ha Hn Hw Hl w [H1 H2 H3 H4 H5 H6 H7 H8]. split; try done.
  - rewrite <- H1. simpl. apply list_eq. intros r'. rewrite !list_lookup_fmap.
    destruct (decide (r = r')) as [<-|Hne].
    + rewrite list_lookup_alter_eq, Hr. simpl. by rewrite Hf.
    + by rewrite list_lookup_alter_ne.
  - intros k r' (c0 & Hc0 & Hk)%H2. simpl. destruct (decide (r = r')) as [<-|Hne].
    + rewrite list_lookup_alter_eq, Hc0. eexists. split; [done|]. pose proof (Hf c0) as E.
      unfold ident in E. by simplify_eq.
    + rewrite list_lookup_alter_ne by done. eauto.
  - intros k r' (c0 & Hc0 & Hk)%H3. simpl. destruct (decide (r = r')) as [<-|Hne].
    + rewrite list_lookup_alter_eq, Hc0. eexists. split; [done|]. pose proof (Hf c0) as E.
      unfold ident in E. by simplify_eq.
    + rewrite list_lookup_alter_ne by done. eauto.
  - intros r' c' (c0 & Hc0 & ->)%mutate_lookup Hs. case_decide as E; [subst|by eapply H4].
    rewrite Hr in Hc0. injection Hc0 as <-. eapply approved_in_ident, Ha, Hs. by rewrite Hf.
Qed.

Lemma redeemable_mutate h r f s c :
  s.(heap) !! r = Some c →
  redeemable h (mutate r f s)
  = if decide (map_get h s.(challengesByDeviceCodeHash) = Some r)
    then if mem (f c).(pc_status) [ch_pending; ch_approved] then 1%nat else 0%nat
    else redeemable h s.
Proof.
  intros Hr. unfold redeemable, lookup_challenge. simpl.
  destruct (map_get h (challengesByDeviceCodeHash s)) as [r'|]; simpl; [|done].
  destruct (decide (r' = r)) as [->|Hne].
  - rewrite decide_True by done. by rewrite list_lookup_alter_eq, Hr.
  - rewrite decide_False by congruence. by rewrite list_lookup_alter_ne by done.
Qed.

Lemma redeemable_at h r s c :
  map_get h s.(challengesByDeviceCodeHash) = Some r → s.(heap) !! r = Some c →
  redeemable h s = if mem c.(pc_status) [ch_pending; ch_approved] then 1%nat else 0%nat.
Proof.
  intros Hm Hr. unfold redeemable.
  by rewrite (proj2 (lookup_challenge_Some h (challengesByDeviceCodeHash s) s r c)).
Qed.

(** Approval of a challenge that is neither exchanged nor spent. *)
Lemma inv_approve log s waiting e r c now :
  s.(heap) !! r = Some c → c.(pc_status) ≠ ch_exchanging → c.(pc_status) ≠ ch_consumed →
  approves sha256 c e → quiet e = true →
  pairing_inv log s waiting → pairing_inv (log ++ [e]) (mutate r (set_approved now) s) waiting.
Proof.
  intros Hr He Hc Happ Hq Hinv. pose proof (inv_quiet _ _ _ _ Hq Hinv) as Hinv'.
  eapply inv_mutate; [exact Hr|done|..|exact Hinv'].
  - intros _. destruct Hinv as [H1 _ _ _ _ _ _ _].
    assert (ident c ∈ ident <$> omap created log) as (c0 & Hc0 & Hin)%list_elem_of_fmap.
    { rewrite <- H1. apply list_elem_of_fmap. exists c. split; [done|]. by eapply list_elem_of_lookup_2. }
    apply list_elem_of_omap in Hin as (e0 & He0 & Hcr0). apply list_elem_of_split in He0 as (l1 & l2 & ->).
    exists l1, e0, l2, e, [], c0. split_and!; [by rewrite <- app_assoc|done..|by eapply approves_ident].
  - intros h. pose proof (pi_once _ _ _ _ Hinv' h) as Hh. rewrite (redeemable_mutate _ _ _ _ _ Hr).
    case_decide as E; [|done]. rewrite (redeemable_at _ _ _ _ E Hr) in Hh. simpl.
    destruct (pc_status c); simpl in *; done.
  - apply Hinv'.
  - apply Hinv'.
Qed.

(** *** Exchanges *)

Lemma inv_claim log s waiting ex r c now :
  lookup_challenge (hashSecret sha256 ex.(ex_deviceCode)) s.(challengesByDeviceCodeHash) s = Some (r, c) →
  c.(pc_status) = ch_approved → pairing_inv log s waiting →
  pairing_inv log (mutate r (set_exchanging now) s) (waiting ++ [awaiting_guardian ex]).
Proof.
  intros [Hm Hr]%lookup_challenge_Some Hs Hinv.
  assert (approved_in log c) as Happ by (eapply pi_approved; [done..|by rewrite Hs]).
  assert (pc_deviceCodeHash c = hashSecret sha256 (ex_deviceCode ex)) as Hh.
  { destruct (pi_device _ _ _ _ Hinv _ _ Hm) as (c' & Hc' & <-). by simplify_eq. }
  eapply inv_mutate; [exact Hr|done|done|..|exact Hinv].
  - intros h. pose proof (pi_once _ _ _ _ Hinv h) as H. rewrite (redeemable_mutate _ _ _ _ _ Hr), tally_app, tally_one.
    simpl. case_decide as E.
    + rewrite (redeemable_at _ _ _ _ E Hr), Hs in H. simpl in *. case_match; lia.
    + destruct (String.eqb_spec (hashSecret sha256 (ex_deviceCode ex)) h); [congruence|lia].
  - intros ex' [?|Hx%list_elem_of_singleton]%elem_of_app; [by eapply pi_waiting|].
    injection Hx as ->. eauto.
  - intros req [?|Hx%list_elem_of_singleton]%elem_of_app; [by eapply pi_local|done].
Qed.

(** The tally of a device code when its exchange ends. *)
Lemma tally_ended log s waiting i ex h :
  waiting !! i = Some (awaiting_guardian ex) → pairing_inv log s waiting →
  (tally (grants h) log + tally (waits_for h) (delete i waiting)
   + (if String.eqb (hashSecret sha256 ex.(ex_deviceCode)) h then 1 else redeemable h s) <= 1)%nat.
Proof.
  intros Hi Hinv. pose proof (pi_once _ _ _ _ Hinv h) as H.
  rewrite (tally_delete _ _ _ _ Hi), tally_one in H. simpl in H. case_match; lia.
Qed.

Lemma inv_release log s waiting i ex :
  waiting !! i = Some (awaiting_guardian ex) → pairing_inv log s waiting →
  pairing_inv log (releaseRemoteWebPairingChallengeExchange sha256 ex.(ex_deviceCode) s)
    (delete i waiting).
Proof.
  intros Hi Hinv. pose proof (inv_leave _ _ _ i Hinv) as Hinv'.
  unfold releaseRemoteWebPairingChallengeExchange, end_exchange.
  destruct (lookup_challenge _ _ _) as [[r c]|] eqn:E; [|done]. case_bool_decide as Hs; [|done].
  apply lookup_challenge_Some in E as [Hm Hr].
  eapply inv_mutate; [exact Hr|done|..|exact Hinv']; [|intros h|apply Hinv'..].
  - intros _. eapply pi_approved; [exact Hinv|done|]. by rewrite Hs.
  - pose proof (tally_ended _ _ _ _ _ h Hi Hinv) as H. rewrite (redeemable_mutate _ _ _ _ _ Hr).
    case_decide as Eh; [|by case_match; pose proof (redeemable_le1 h s); lia].
    rewrite (redeemable_at _ _ _ _ Eh Hr), Hs in H. simpl in *.
    destruct (pi_device _ _ _ _ Hinv _ _ Hm) as (c1 & Hc1 & H1).
    destruct (pi_device _ _ _ _ Hinv _ _ Eh) as (c2 & Hc2 & H2). simplify_eq.
    by rewrite <- H1, String.eqb_refl in H.
Qed.

Lemma inv_complete log s waiting i ex e now :
  waiting !! i = Some (awaiting_guardian ex) → created e = None →
  e.(sv_resumed) = Some (awaiting_guardian ex) → pairing_inv log s waiting →
  pairing_inv (log ++ [e]) (completeRemoteWebPairingChallengeExchange sha256 now ex.(ex_deviceCode) s)
    (delete i waiting).
Proof.
  intros Hi Hc He Hinv.
  assert (∀ h, grants h e = true → hashSecret sha256 (ex_deviceCode ex) = h) as Hgr.
  { intros h. unfold PairingSafety.grants. rewrite He. destruct (sv_response e); try done.
    simpl. by intros ->%String.eqb_eq. }
  assert (pairing_inv (log ++ [e]) s (delete i waiting)) as Hinv'.
  { pose proof (inv_leave _ _ _ i Hinv) as [H1 H2 H3 H4 H5 H6 H7 H8]. split; try done.
    - rewrite omap_app. simpl. rewrite Hc. by rewrite app_nil_r.
    - intros r c ??. eapply approved_in_app, H4; done.
    - intros h. rewrite tally_app, tally_one.
      pose proof (pi_once _ _ _ _ Hinv h) as H. rewrite (tally_delete _ _ _ _ Hi), tally_one in H.
      simpl in H. destruct (grants h e) eqn:Eg; [|case_match; lia].
      rewrite (Hgr h Eg), String.eqb_refl in H. lia.
    - by apply waiting_app.
    - apply granted_snoc; [done|]. intros h Hge. rewrite <- (Hgr h Hge).
      eapply pi_waiting; [done|]. by eapply list_elem_of_lookup_2. }
  unfold completeRemoteWebPairingChallengeExchange, end_exchange.
  destruct (lookup_challenge _ _ _) as [[r c]|] eqn:E; [|done]. case_bool_decide as Hs; [|done].
  apply lookup_challenge_Some in E as [Hm Hr].
  eapply inv_mutate; [exact Hr|done|..|exact Hinv']; [|intros h|apply Hinv'..].
  - intros _. eapply approved_in_app, pi_approved; [exact Hinv|done|]. by rewrite Hs.
  - pose proof (pi_once _ _ _ _ Hinv' h) as H. rewrite (redeemable_mutate _ _ _ _ _ Hr).
    case_decide as Eh; [|done]. simpl. lia.
Qed.

(** ** Creation *)

Lemma create_shape now src url rq s c s' :
  createRemoteWebPairingChallenge sha256 now src url rq s = Some (c, s') →
  let s1 := cleanupExpiredChallenges now s in
  let r := length s1.(heap) in
  s'.(heap) = s1.(heap) ++ [c]
  ∧ s'.(challengesByUserCodeHash) = map_set c.(pc_userCodeHash) r s1.(challengesByUserCodeHash)
  ∧ s'.(challengesByDeviceCodeHash) = map_set c.(pc_deviceCodeHash) r s1.(challengesByDeviceCodeHash)
  ∧ c.(pc_status) = ch_pending ∧ c.(pc_deviceCodeHash) = hashSecret sha256 src.(src_deviceCode).
Proof.
  unfold createRemoteWebPairingChallenge. destruct (find_first _ _) as [uc|]; [|done].
  simpl. by intros [= <- <-].
Qed.

Lemma approved_created log c : approved_in log c → ident c ∈ ident <$> omap created log.
Proof.
  intros (l1 & e1 & l2 & e2 & l3 & c0 & -> & Hc & Hi & _). rewrite omap_app, fmap_app, elem_of_app. right.
  simpl. rewrite Hc. rewrite <- Hi. by left.
Qed.

(** No code that is new has been approved, exchanged or waited for. *)
Lemma new_code_unused log s waiting h :
  h ∉ pc_deviceCodeHash <$> omap created log → pairing_inv log s waiting →
  tally (grants h) log = 0%nat ∧ tally (waits_for h) waiting = 0%nat.
Proof.
  intros Hn Hinv.
  assert (∀ c, pc_deviceCodeHash c = h → ¬ approved_in log c) as Hno.
  { intros c Hc Ha%approved_created. apply Hn.
    apply list_elem_of_fmap in Ha as (c0 & Hi & Hin). apply list_elem_of_fmap. exists c0. split; [|done].
    unfold ident in Hi. by simplify_eq. }
  split; apply tally_zero.
  - intros e (pre & post & ->)%list_elem_of_split. destruct (grants h e) eqn:E; [|done].
    destruct (pi_granted _ _ _ _ Hinv pre e post h eq_refl E) as (c & Hc & Ha).
    destruct (Hno c Hc). by apply approved_in_app.
  - intros k Hk. destruct k as [req|ex]; [done|]. simpl.
    destruct (String.eqb_spec (hashSecret sha256 (ex_deviceCode ex)) h) as [E|]; [|done].
    destruct (pi_waiting _ _ _ _ Hinv ex Hk) as (c & Hc & Ha). destruct (Hno c); congruence.
Qed.

(** The maps after a challenge was stored under its codes. *)
Lemma stored_refs (key : PairingChallenge → string) (m : list (string * nat)) objs c :
  (∀ k r, map_get k m = Some r → ∃ c, objs !! r = Some c ∧ key c = k) →
  ∀ k r, map_get k (map_set (key c) (length objs) m) = Some r →
         ∃ c', (objs ++ [c]) !! r = Some c' ∧ key c' = k.
Proof.
  intros H k r. rewrite map_get_set. case_decide as E.
  - intros [= <-]. exists c. split; [|done]. by rewrite lookup_app_r, Nat.sub_diag by done.
  - intros (c' & Hc' & <-)%H. exists c'. split; [|done]. by apply lookup_app_l_Some.
Qed.

Lemma inv_create log s waiting e c s' now src url rq :
  createRemoteWebPairingChallenge sha256 now src url rq s = Some (c, s') →
  created e = Some c → NoDup (pc_deviceCodeHash <$> omap created (log ++ [e])) →
  pairing_inv log s waiting → pairing_inv (log ++ [e]) s' waiting.
Proof.
  intros (Hh & Hu & Hd & Hs & _)%create_shape Hc Hnd Hinv0.
  pose proof (inv_dropped _ _ _ _ (dropped_cleanup now s) Hinv0) as Hinv.
  set (s1 := cleanupExpiredChallenges now s) in *. clearbody s1. clear Hinv0 s.
  rewrite omap_app in Hnd. simpl in Hnd. rewrite Hc, fmap_app in Hnd.
  assert (pc_deviceCodeHash c ∉ pc_deviceCodeHash <$> omap created log) as Hnew.
  { apply NoDup_app in Hnd as (_ & Hx & _). intros Hin. apply (Hx _ Hin). by left. }
  pose proof (λ h Hn, new_code_unused log s1 waiting h Hn Hinv) as Hunused.
  destruct Hinv as [H1 H2 H3 H4 H5 H6 H7 H8].
  assert (∀ h, grants h e = false) as Hg.
  { intros h. unfold PairingSafety.grants. unfold created in Hc.
    by destruct (sv_response e); try done; destruct (sv_resumed e). }
  split; [..|done].
  - rewrite Hh, fmap_app, omap_app, fmap_app, H1. simpl. by rewrite Hc.
  - rewrite Hh, Hu. by apply stored_refs.
  - rewrite Hh, Hd. by apply stored_refs.
  - intros r c'. rewrite Hh. intros [Hr|[_ Hr]]%lookup_app_Some Hp.
    + eapply approved_in_app, H4; done.
    + apply list_lookup_singleton_Some in Hr as [_ <-]. done.
  - intros h. rewrite tally_app, tally_one, Hg. destruct (decide (pc_deviceCodeHash c = h)) as [<-|Hne].
    + destruct (Hunused _ Hnew) as [-> ->]. pose proof (redeemable_le1 (pc_deviceCodeHash c) s'). lia.
    + assert (redeemable h s' = redeemable h s1) as ->; [|specialize (H5 h); lia].
      unfold redeemable, lookup_challenge. rewrite Hd, Hh, map_get_set, decide_False by done.
      destruct (map_get h (challengesByDeviceCodeHash s1)) as [r|] eqn:E; [|done]. simpl.
      destruct (H3 _ _ E) as (c' & Hc' & _). by rewrite Hc', (lookup_app_l_Some _ _ _ _ Hc').
  - by apply waiting_app.
  - apply granted_snoc; [done|]. intros h. by rewrite Hg.
Qed.

(** ** Handlers *)

(** An approval that the store answers. *)
Lemma approve_cases now r c s :
  let '(result, s') := approveChallenge now r c s in
  match result with
  | approve_ok _ _ => now < c.(pc_expiresAtMs) ∧ c.(pc_status) ≠ ch_exchanging
                      ∧ c.(pc_status) ≠ ch_consumed ∧ s' = mutate r (set_approved now) s
  | _ => dropped s s'
  end.
Proof.
  unfold approveChallenge. repeat case_bool_decide; simpl; try done.
  destruct (Z.leb_spec (pc_expiresAtMs c) now); [apply dropped_delete|]. by split_and!.
Qed.

Section Handlers.
Context (trustProxy : bool) (URL_parse : string → option UrlParts).
Context (hmac : string → string) (assistantId : string).

(** The invariant after a call, with a handler that awaits in the queue. *)
Definition served_inv (log : list Served) (r : PairingResponse * PairingState) (e : Served) : Prop :=
  pairing_inv (log ++ [e]) r.2.(ps_store)
    (match r.1 with pr_waits k => r.2.(ps_awaiting) ++ [k] | _ => r.2.(ps_awaiting) end).

(** Most calls only drop challenges. *)
Lemma served_quiet log st e r :
  quiet e = true → (∀ k, r.1 ≠ pr_waits k) → dropped st.(ps_store) r.2.(ps_store) →
  r.2.(ps_awaiting) = st.(ps_awaiting) → pairing_inv log st.(ps_store) st.(ps_awaiting) →
  served_inv log r e.
Proof.
  intros Hq Hk Hd Ha Hinv. unfold served_inv. destruct r as [r st']. simpl in *. rewrite <- Ha in Hinv.
  destruct r; try (apply inv_quiet; [done|]; by eapply inv_dropped). by destruct (Hk k).
Qed.

Lemma failed_attempt now ip status st :
  let r := failedAttemptResponse now ip status st in
  r.2.(ps_store) = st.(ps_store) ∧ r.2.(ps_awaiting) = st.(ps_awaiting)
  ∧ match r.1 with pr_status _ | pr_rate_limited _ => True | _ => False end.
Proof.
  unfold failedAttemptResponse.
  by destruct (checkRemoteWebPairingVerificationRateLimit _ _ _) as [[] m].
Qed.

Ltac refused := simpl; split; [done|left; by split].

(** A creation is refused, or stores a challenge. *)
Lemma create_cases now src req st :
  let r := handleCreateRemoteWebPairingChallenge trustProxy URL_parse sha256 now src req st in
  r.2.(ps_awaiting) = st.(ps_awaiting)
  ∧ (dropped st.(ps_store) r.2.(ps_store)
     ∧ match r.1 with pr_challenge _ _ | pr_token _ _ | pr_waits _ => False | _ => True end
     ∨ ∃ c s1 url rq, dropped st.(ps_store) s1
         ∧ createRemoteWebPairingChallenge sha256 now src url rq s1 = Some (c, r.2.(ps_store))
         ∧ r.1 = pr_challenge src.(src_deviceCode) c).
Proof.
  unfold handleCreateRemoteWebPairingChallenge.
  destruct (negb (String.eqb _ _)); [refused|]. destruct (_ && bool_decide _); [refused|].
  destruct (readJsonStringField _ _) as [|raw]; [refused|].
  destruct (parsePublicBaseUrl _ _) as [url|]; [|refused].
  destruct (negb (truthy url)); [refused|].
  destruct (if (_ : bool) then _ else _) as [[]|]; [|refused..].
  destruct (recordRemoteWebPairingChallengeCreation _ _) as [[] ts]; [refused|]. simpl.
  pose proof (dropped_capacity now (ps_store st)) as Hd.
  destruct (checkRemoteWebPairingChallengeCapacity _ _) as [[] s1]; simpl in *; [by split; [|left]|].
  destruct (createRemoteWebPairingChallenge _ _ _ _ _ _) as [[c s2]|] eqn:E; simpl; [|by split; [|left]].
  split; [done|]. right. exists c, s1, url. eexists. split_and!; [done|exact E|done].
Qed.

Lemma create_served log st e now src req :
  let r := handleCreateRemoteWebPairingChallenge trustProxy URL_parse sha256 now src req st in
  e.(sv_response) = r.1 → NoDup (pc_deviceCodeHash <$> omap created (log ++ [e])) →
  pairing_inv log st.(ps_store) st.(ps_awaiting) → served_inv log r e.
Proof.
  intros r He Hnd Hinv. destruct (create_cases now src req st) as [Ha H]. fold r in Ha, H.
  destruct H as [[Hd Hr]|(c & s1 & url & rq & Hd & Hc & Hr)].
  - eapply served_quiet; try done; [unfold quiet; rewrite He|intros k Hk; rewrite Hk in Hr];
      by destruct r.1.
  - unfold served_inv. rewrite Ha, Hr. eapply inv_create; [done| |done|by eapply inv_dropped].
    unfold created. by rewrite He, Hr.
Qed.

(** A call whose answer is no success. *)
Definition plain_response (r : PairingResponse) : bool :=
  match r with
  | pr_challenge _ _ | pr_token _ _ | pr_approved _ _ | pr_waits _ => false
  | _ => true
  end.

Lemma served_plain log st e r :
  e.(sv_response) = r.1 → plain_response r.1 = true → dropped st.(ps_store) r.2.(ps_store) →
  r.2.(ps_awaiting) = st.(ps_awaiting) → pairing_inv log st.(ps_store) st.(ps_awaiting) →
  served_inv log r e.
Proof.
  intros He Hp ???. eapply served_quiet; try done.
  - unfold quiet. rewrite He. by destruct r.1.
  - intros k Hk. by rewrite Hk in Hp.
Qed.

Lemma guarded_local req : enforceLoopbackOnly req (clientIp trustProxy req) = None → on_this_machine req.
Proof. apply (loopback_guard_spec trustProxy). Qed.

(** A verification before its body: it waits only when the guard let it in. *)
Lemma verify_before_served log st e now req :
  let r := verify_before_body trustProxy now req st in
  e.(sv_response) = r.1 → pairing_inv log st.(ps_store) st.(ps_awaiting) → served_inv log r e.
Proof.
  intros r. subst r. unfold verify_before_body.
  destruct (negb (String.eqb _ _)); [by intros; eapply served_plain|].
  case_bool_decide as Hg; [by intros; eapply served_plain|].
  destruct (checkRemoteWebPairingVerificationRateLimit _ _ _) as [[] m]; [by intros; eapply served_plain|].
  intros He Hinv. apply inv_reading; simpl; [|by apply inv_quiet; [unfold quiet; rewrite He|]].
  by apply guarded_local.
Qed.

Lemma failed_attempt_served log st e now ip status :
  let r := failedAttemptResponse now ip status st in
  e.(sv_response) = r.1 → pairing_inv log st.(ps_store) st.(ps_awaiting) → served_inv log r e.
Proof.
  intros r. subst r. unfold failedAttemptResponse.
  destruct (checkRemoteWebPairingVerificationRateLimit _ _ _) as [[] m]; by intros; eapply served_plain.
Qed.

(** The call approved a challenge that the store held. *)
Lemma served_approved log st st' e r c now uri ex :
  st.(ps_store).(heap) !! r = Some c → e.(sv_response) = pr_approved uri ex →
  approves sha256 c e → c.(pc_status) ≠ ch_exchanging → c.(pc_status) ≠ ch_consumed →
  st'.(ps_store) = mutate r (set_approved now) st.(ps_store) →
  st'.(ps_awaiting) = st.(ps_awaiting) →
  pairing_inv log st.(ps_store) st.(ps_awaiting) → served_inv log (pr_approved uri ex, st') e.
Proof.
  intros Hr He Ha ?? Hs Hw Hinv. unfold served_inv. simpl. rewrite Hs, Hw.
  eapply inv_approve; try done. unfold quiet. by rewrite He.
Qed.

Lemma verify_after_served log st e now req :
  let r := verify_after_body trustProxy sha256 now req st in
  on_this_machine req → e.(sv_time) = now → e.(sv_resumed) = Some (awaiting_body req) →
  e.(sv_response) = r.1 → pairing_inv log st.(ps_store) st.(ps_awaiting) → served_inv log r e.
Proof.
  intros r Hl Ht Hres. subst r. unfold verify_after_body.
  destruct (readJsonStringField _ _) as [|userCode] eqn:Eb; [apply failed_attempt_served|].
  destruct (checkRemoteWebPairingVerificationRateLimit _ _ _) as [[] m]; [by intros; eapply served_plain|].
  unfold approveRemoteWebPairingChallenge. simpl.
  destruct (lookup_challenge _ _ _) as [[r c]|] eqn:E;
    [|intros He Hinv; by apply failed_attempt_served].
  pose proof (approve_cases now r c (ps_store st)) as H.
  destruct (approveChallenge now r c (ps_store st)) as [[uri exp| |] s'].
  - destruct H as (Hlt & H1 & H2 & ->). simpl. intros He Hinv.
    apply lookup_challenge_Some in E as [Hm Hr].
    eapply served_approved; try done. split_and!; [by eauto|by rewrite Ht|].
    exists req. split; [done|]. right. split; [done|]. exists userCode. split; [done|].
    by destruct (pi_user _ _ _ _ Hinv _ _ Hm) as (c' & Hc' & <-); simplify_eq.
  - intros He Hinv. apply failed_attempt_served; [done|]. by eapply inv_dropped.
  - intros He Hinv. apply failed_attempt_served; [done|]. by eapply inv_dropped.
Qed.

Lemma find_by_id id s r c :
  findChallengeById id s = Some (r, c) → s.(heap) !! r = Some c ∧ c.(pc_id) = id.
Proof.
  intros [Hin Hid%String.eqb_eq]%find_first_Some. split; [by apply by_user_elem|done].
Qed.

Lemma approve_served log st e now req :
  let r := handleApproveRemoteWebPairingRequest trustProxy now req st in
  e.(sv_time) = now → e.(sv_call) = ApproveRequest req → e.(sv_response) = r.1 →
  pairing_inv log st.(ps_store) st.(ps_awaiting) → served_inv log r e.
Proof.
  intros r Ht Hcall. subst r. unfold handleApproveRemoteWebPairingRequest, on_request_id, guardPostLoopback.
  destruct (negb (String.eqb _ _)); [by intros; eapply served_plain|].
  case_bool_decide as Hg; [by intros; eapply served_plain|].
  apply guarded_local in Hg.
  destruct (readJsonStringField _ _) as [|id] eqn:Eb; [by intros; eapply served_plain|].
  unfold approveRemoteWebPairingChallengeById.
  destruct (findChallengeById _ _) as [[r c]|] eqn:E; [|by intros; eapply served_plain].
  apply find_by_id in E as [Hr Hid]. pose proof (approve_cases now r c (ps_store st)) as H.
  destruct (approveChallenge now r c (ps_store st)) as [[uri exp| |] s'];
    [|by intros; eapply served_plain..].
  destruct H as (Hlt & H1 & H2 & ->). intros He Hinv. eapply served_approved; try done.
  split_and!; [by eauto|by rewrite Ht|]. exists req. split; [done|]. left. by rewrite Hid.
Qed.

Lemma deny_served log st e req :
  let r := handleDenyRemoteWebPairingRequest trustProxy req st in
  e.(sv_response) = r.1 → pairing_inv log st.(ps_store) st.(ps_awaiting) → served_inv log r e.
Proof.
  intros r. subst r. unfold handleDenyRemoteWebPairingRequest, on_request_id, guardPostLoopback.
  destruct (negb (String.eqb _ _)); [by intros; eapply served_plain|].
  case_bool_decide; [by intros; eapply served_plain|].
  destruct (readJsonStringField _ _) as [|id]; [by intros; eapply served_plain|].
  unfold denyRemoteWebPairingChallengeById.
  destruct (findChallengeById _ _) as [[r c]|]; [|by intros; eapply served_plain].
  case_bool_decide; intros; apply (served_plain log st); try done. apply dropped_delete.
Qed.

Lemma list_served log st e now req :
  let r := handleListRemoteWebPairingRequests trustProxy now req st in
  e.(sv_response) = r.1 → pairing_inv log st.(ps_store) st.(ps_awaiting) → served_inv log r e.
Proof.
  intros r. subst r. unfold handleListRemoteWebPairingRequests.
  destruct (negb (String.eqb _ _)); [by intros; eapply served_plain|].
  case_bool_decide; intros; apply (served_plain log st); try done. apply dropped_cleanup.
Qed.

Lemma token_before_served log st e now req :
  let r := token_before_guardian sha256 now req st in
  e.(sv_response) = r.1 → pairing_inv log st.(ps_store) st.(ps_awaiting) → served_inv log r e.
Proof.
  intros r. subst r. unfold token_before_guardian.
  destruct (negb (String.eqb _ _)); [by intros; eapply served_plain|].
  destruct (readJsonObjectBody _) as [|body]; [by intros; eapply served_plain|].
  destruct (jsonStringField _ _) as [code|]; [|by intros; eapply served_plain].
  match goal with |- context [if ?b then (pr_status 400, _) else _] => destruct b end;
    [by intros; eapply served_plain|].
  unfold claimRemoteWebPairingChallengeExchange.
  destruct (lookup_challenge _ _ _) as [[r c]|] eqn:E; [|by intros; eapply served_plain].
  destruct (pc_expiresAtMs c <=? now).
  { intros; apply (served_plain log st); try done. apply dropped_delete. }
  destruct (pc_status c) eqn:Es; try by intros; eapply served_plain.
  intros He Hinv. unfold served_inv. simpl. apply inv_quiet; [by unfold quiet; rewrite He|].
  by eapply inv_claim.
Qed.

Lemma token_after_served log st e env ex i :
  let r := token_after_guardian URL_parse hmac sha256 assistantId env ex
             (on_awaiting (delete i st.(ps_awaiting)) st) in
  st.(ps_awaiting) !! i = Some (awaiting_guardian ex) →
  e.(sv_resumed) = Some (awaiting_guardian ex) → e.(sv_response) = r.1 →
  pairing_inv log st.(ps_store) st.(ps_awaiting) → served_inv log r e.
Proof.
  intros r Hi Hres. subst r. unfold token_after_guardian.
  assert (∀ b r, plain_response r = true → e.(sv_response) = r →
    pairing_inv log st.(ps_store) st.(ps_awaiting) →
    served_inv log (r, on_store (releaseRemoteWebPairingChallengeExchange sha256 ex.(ex_deviceCode)
      st.(ps_store)) (on_boot b (on_awaiting (delete i st.(ps_awaiting)) st))) e) as Hrel.
  { intros b r Hp He Hinv. unfold served_inv. simpl. destruct r; try done;
      (apply inv_quiet; [by unfold quiet; rewrite He|by apply inv_release]). }
  destruct (ensureVellumGuardianBinding _ _ _) as [[[]|p] b]; try by apply Hrel.
  destruct (mint_for_exchange _ _ _ _ _ _ _ _) as [[pr|] b']; [|by apply Hrel].
  intros He Hinv. unfold served_inv. simpl. apply inv_complete; try done. unfold created. by rewrite He.
Qed.

Notation step := (pairing_step trustProxy URL_parse hmac sha256 assistantId).
Notation run := (pairing_run trustProxy URL_parse hmac sha256 assistantId).

(** What a call leaves, with the handler it queued. *)
Lemma served_queued log r e :
  served_inv log r e →
  let st := match r.1 with pr_waits k => on_awaiting (r.2.(ps_awaiting) ++ [k]) r.2 | _ => r.2 end in
  pairing_inv (log ++ [e]) st.(ps_store) st.(ps_awaiting).
Proof. unfold served_inv. by destruct r.1. Qed.

Lemma step_inv log st e :
  let '(served, st') := step st e in
  NoDup (pc_deviceCodeHash <$> omap created (log ++ option_list served)) →
  pairing_inv log st.(ps_store) st.(ps_awaiting) →
  pairing_inv (log ++ option_list served) st'.(ps_store) st'.(ps_awaiting).
Proof.
  destruct e as [now call]. unfold pairing_step.
  destruct call as [src req|req|req|req|req|req|i env|f]; cbn [option_list];
    try (intros Hnd Hinv; apply served_queued; first
      [ by apply create_served | by apply verify_before_served | by apply list_served
      | by apply approve_served | by apply deny_served | by apply token_before_served ]).
  - destruct (ps_awaiting st !! i) as [k|] eqn:Hk; simpl; [|by rewrite app_nil_r].
    intros _ Hinv. apply (served_queued log (resume trustProxy URL_parse hmac sha256 assistantId now env k _)).
    destruct k as [req|ex]; simpl.
    + apply verify_after_served; try done; simpl; [|by apply inv_leave].
      eapply pi_local; [done|]. by eapply list_elem_of_lookup_2.
    + by eapply token_after_served.
  - simpl. by rewrite app_nil_r.
Qed.

Lemma run_snoc st trace e :
  run st (trace ++ [e])
  = let '(served, st') := step (run st trace).2 e in
    ((run st trace).1 ++ option_list served, st').
Proof. unfold pairing_run. by rewrite foldl_app. Qed.

Lemma pairing_run_inv b trace :
  let '(log, st) := run (pairing_start b) trace in
  NoDup (pc_deviceCodeHash <$> omap created log) →
  pairing_inv log st.(ps_store) st.(ps_awaiting).
Proof.
  induction trace as [|e trace IH] using rev_ind.
  - intros _. split; simpl; try done; try by intros ? ?%elem_of_nil.
    + intros h. vm_compute. lia.
    + intros pre e post h Heq. by destruct pre.
  - rewrite run_snoc. destruct (run (pairing_start b) trace) as [log st]. simpl.
    pose proof (step_inv log st e) as Hs. destruct (step st e) as [served st'].
    intros Hnd. apply Hs; [done|]. apply IH.
    rewrite omap_app, fmap_app in Hnd. by apply NoDup_app in Hnd as [? _].
Qed.

(** C7: Whatever requests arrive and however they interleave, a device code buys credentials
    once, and only after its challenge was created and then approved, by the code it
    shows or by its identifier, by a caller on this machine, before it expired. *)
Theorem pairing_needs_approval b trace :
  let log := (run (pairing_start b) trace).1 in
  NoDup (pc_deviceCodeHash <$> omap created log) →
  ∀ pre e post h, log = pre ++ e :: post → grants h e = true →
    (∃ c, c.(pc_deviceCodeHash) = h ∧ approved_in pre c)
    ∧ ∀ e', e' ∈ pre ++ post → grants h e' = false.
Proof.
  intros log Hnd pre e post h Heq Hg. pose proof (pairing_run_inv b trace) as H.
  unfold log in *. clear log. destruct (run (pairing_start b) trace) as [log st]. simpl in *.
  specialize (H Hnd). split; [by eapply pi_granted|]. apply tally_zero.
  pose proof (pi_once _ _ _ _ H h) as H1. rewrite Heq, cons_middle, !tally_app, tally_one, Hg in H1.
  rewrite tally_app. lia.
Qed.
End Handlers.
End Approval.

(** ** How many codes may be tried *)

Section Guesses.
Context (trustProxy : bool) (URL_parse : string → option UrlParts).
Context (hmac sha256 : string → string) (assistantId : string).
Notation step := (pairing_step trustProxy URL_parse hmac sha256 assistantId).
Notation run := (pairing_run trustProxy URL_parse hmac sha256 assistantId).

(** The answer to a code that was sent from the address. *)
Definition code_answer (ip : string) (e : Served) : option PairingResponse :=
  match e.(sv_resumed) with
  | Some (awaiting_body req) =>
      if String.eqb (clientIp trustProxy req) ip then Some e.(sv_response) else None
  | _ => None
  end.

(** When codes of the address were refused, since it sent a right one. *)
Definition wrong_times (ip : string) : list Served → list Z :=
  foldl (λ ts e, match code_answer ip e with
                 | Some (pr_status _) => ts ++ [e.(sv_time)]
                 | Some (pr_approved _ _) => []
                 | _ => ts
                 end) [].

Lemma wrong_times_snoc ip log e :
  wrong_times ip (log ++ [e])
  = match code_answer ip e with
    | Some (pr_status _) => wrong_times ip log ++ [e.(sv_time)]
    | Some (pr_approved _ _) => []
    | _ => wrong_times ip log
    end.
Proof. unfold wrong_times. by rewrite foldl_app. Qed.

(** What the limiter remembers of an address. *)
Definition failures_of (ip : string) (m : Failures) : list Z := default [] (map_get ip m).

(** Both count the same for every window that ends now. *)
Definition same_count (now : Z) (m m' : Failures) : Prop :=
  ∀ ip c, now - RATE_LIMIT_WINDOW_MS <= c → since c (failures_of ip m') = since c (failures_of ip m).

Lemma since_in_window now c ts :
  now - RATE_LIMIT_WINDOW_MS <= c → since c (in_window now ts) = since c ts.
Proof.
  intros Hc. unfold since, in_window. f_equal. induction ts as [|t ts IH]; [done|]. simpl.
  destruct (Z.ltb_spec (now - RATE_LIMIT_WINDOW_MS) t); simpl; [by rewrite IH|].
  by rewrite (proj2 (Z.ltb_ge c t)) by lia.
Qed.

Lemma failures_of_set ip ip' ts m :
  failures_of ip' (map_set ip ts m) = if decide (ip' = ip) then ts else failures_of ip' m.
Proof. unfold failures_of. rewrite map_get_set. by case_decide. Qed.

Lemma failures_of_delete ip ip' m :
  failures_of ip' (map_delete ip m) = if decide (ip' = ip) then [] else failures_of ip' m.
Proof. unfold failures_of. rewrite map_get_delete. by case_decide. Qed.

Lemma check_counts ip now m :
  let '(limited, m') := checkRemoteWebPairingVerificationRateLimit ip now m in
  same_count now m m'
  ∧ (limited = None → (since (now - RATE_LIMIT_WINDOW_MS) (failures_of ip m') < 10)%nat).
Proof.
  unfold checkRemoteWebPairingVerificationRateLimit.
  destruct (map_get ip m) as [ts|] eqn:E; [|unfold failures_of; rewrite E; by split; [|unfold since; simpl; lia]].
  assert (failures_of ip m = ts) as Ef by (unfold failures_of; by rewrite E).
  pose proof (λ c, since_in_window now c ts) as Hw.
  destruct (in_window now ts) as [|t ts'] eqn:Ew.
  - split; [|rewrite failures_of_delete, decide_True by done; unfold since; simpl; lia].
    intros ip' c Hc. rewrite failures_of_delete. case_decide; [|done]. subst ip'. by rewrite Ef, <- Hw.
  - assert (same_count now m (map_set ip (t :: ts') m)) as Hs.
    { intros ip' c Hc. rewrite failures_of_set. case_decide; [|done]. subst ip'. by rewrite Ef, <- Hw. }
    destruct (Nat.ltb_spec (length (t :: ts')) RATE_LIMIT_MAX_FAILURES) as [Hl|Hl]; [|by split].
    split; [done|]. intros _. rewrite failures_of_set, decide_True by done. unfold since.
    pose proof (filter_length_le (λ t, now - RATE_LIMIT_WINDOW_MS <? t) (t :: ts')). 
    unfold RATE_LIMIT_MAX_FAILURES in Hl. lia.
Qed.

Lemma record_counts ip now m c ip' :
  now - RATE_LIMIT_WINDOW_MS <= c →
  since c (failures_of ip' (recordRemoteWebPairingVerificationFailure ip now m))
  = since c (failures_of ip' m ++ (if decide (ip' = ip) then [now] else [])).
Proof.
  intros Hc. unfold recordRemoteWebPairingVerificationFailure. rewrite failures_of_set.
  case_decide; [|by rewrite app_nil_r]. subst ip'. rewrite !since_app, since_in_window; done.
Qed.

(** Times of an address, and what a limiter has of them. *)
Record window_inv (last : Z) (times : string → list Z) (m : Failures) : Prop := {
  wi_known : ∀ ip c, last - RATE_LIMIT_WINDOW_MS <= c →
             (since c (times ip) <= since c (failures_of ip m))%nat;
  wi_bounded : ∀ ip c, (within RATE_LIMIT_WINDOW_MS c (times ip) <= RATE_LIMIT_MAX_FAILURES)%nat
}.

Lemma window_start last m : window_inv last (λ _, []) m.
Proof. split; intros; unfold since, within; simpl; lia. Qed.

Lemma window_ext last times times' m :
  (∀ ip, times' ip = times ip) → window_inv last times m → window_inv last times' m.
Proof. intros He [H1 H2]. split; intros ip; rewrite He; eauto. Qed.

Lemma window_later last now times m m' :
  last <= now → same_count now m m' → window_inv last times m → window_inv now times m'.
Proof. intros Hle Hs [H1 H2]. split; [|done]. intros ip c Hc. rewrite Hs by done. apply H1. lia. Qed.

(** One more time of an address that had fewer than ten in the window. *)
Lemma window_recorded now times times' m m' i :
  window_inv now times m →
  (since (now - RATE_LIMIT_WINDOW_MS) (failures_of i m) < RATE_LIMIT_MAX_FAILURES)%nat →
  (∀ ip, times' ip = times ip ++ (if decide (ip = i) then [now] else [])) →
  (∀ ip c, now - RATE_LIMIT_WINDOW_MS <= c →
     since c (failures_of ip m')
     = since c (failures_of ip m ++ (if decide (ip = i) then [now] else []))) →
  window_inv now times' m'.
Proof.
  intros [H1 H2] Hlt Ht Hm. split; intros ip c; rewrite Ht.
  - intros Hc. rewrite Hm, !since_app by done. by apply Nat.add_le_mono_r, H1.
  - case_decide; subst; [|rewrite app_nil_r; apply H2]. apply within_snoc; [apply H2|].
    eapply Nat.le_lt_trans; [apply H1|exact Hlt]. done.
Qed.

(** The times of an address are forgotten on both sides. *)
Lemma window_cleared now times times' m i :
  window_inv now times m →
  (∀ ip, times' ip = if decide (ip = i) then [] else times ip) →
  window_inv now times' (map_delete i m).
Proof.
  intros [H1 H2] Ht. split; intros ip c; rewrite Ht, ?failures_of_delete; case_decide; eauto;
    unfold since, within; simpl; lia.
Qed.

(** The limiter's map after an answer. *)
Definition answered (now : Z) (ip : string) (r : PairingResponse) (m m' : Failures) : Prop :=
  match r with
  | pr_status _ => ∃ m1, same_count now m m1
      ∧ (since (now - RATE_LIMIT_WINDOW_MS) (failures_of ip m1) < 10)%nat
      ∧ m' = recordRemoteWebPairingVerificationFailure ip now m1
  | pr_approved _ _ => ∃ m1, same_count now m m1 ∧ m' = map_delete ip m1
  | _ => same_count now m m'
  end.

#[export] Instance same_count_refl now : Reflexive (same_count now).
Proof. by intros m ip c. Qed.

Lemma same_count_trans now m1 m2 m3 : same_count now m1 m2 → same_count now m2 m3 → same_count now m1 m3.
Proof. intros H1 H2 ip c Hc. by rewrite H2, H1. Qed.

Lemma failed_answered now ip status st m :
  same_count now m st.(ps_failures) →
  let r := failedAttemptResponse now ip status st in answered now ip r.1 m r.2.(ps_failures).
Proof.
  intros Hs. unfold failedAttemptResponse. pose proof (check_counts ip now (ps_failures st)) as H.
  destruct (checkRemoteWebPairingVerificationRateLimit _ _ _) as [[] m1]; simpl; destruct H as [H1 H2].
  - by eapply same_count_trans.
  - exists m1. split_and!; [by eapply same_count_trans|by apply H2|done].
Qed.

Lemma verify_answered now req st :
  let r := verify_after_body trustProxy sha256 now req st in
  answered now (clientIp trustProxy req) r.1 st.(ps_failures) r.2.(ps_failures).
Proof.
  unfold verify_after_body. destruct (readJsonStringField _ _) as [|code]; [by apply failed_answered|].
  pose proof (check_counts (clientIp trustProxy req) now (ps_failures st)) as H.
  destruct (checkRemoteWebPairingVerificationRateLimit _ _ _) as [[] m1]; simpl; destruct H as [H1 _]; [done|].
  destruct (approveRemoteWebPairingChallenge _ _ _ _) as [[] s]; simpl; try by apply failed_answered.
  by exists m1.
Qed.

(** A call that leaves the limiter alone. *)
Ltac untouched := repeat case_match; simplify_eq/=; done.

Lemma create_failures now src req st :
  (handleCreateRemoteWebPairingChallenge trustProxy URL_parse sha256 now src req st).2.(ps_failures)
  = st.(ps_failures).
Proof. unfold handleCreateRemoteWebPairingChallenge. untouched. Qed.

Lemma list_failures now req st :
  (handleListRemoteWebPairingRequests trustProxy now req st).2.(ps_failures) = st.(ps_failures).
Proof. unfold handleListRemoteWebPairingRequests. untouched. Qed.

Lemma approve_failures now req st :
  (handleApproveRemoteWebPairingRequest trustProxy now req st).2.(ps_failures) = st.(ps_failures).
Proof. unfold handleApproveRemoteWebPairingRequest, on_request_id. untouched. Qed.

Lemma deny_failures req st :
  (handleDenyRemoteWebPairingRequest trustProxy req st).2.(ps_failures) = st.(ps_failures).
Proof. unfold handleDenyRemoteWebPairingRequest, on_request_id. untouched. Qed.

Lemma token_before_failures now req st :
  (token_before_guardian sha256 now req st).2.(ps_failures) = st.(ps_failures).
Proof. unfold token_before_guardian. untouched. Qed.

Lemma token_after_failures env ex st :
  (token_after_guardian URL_parse hmac sha256 assistantId env ex st).2.(ps_failures) = st.(ps_failures).
Proof. unfold token_after_guardian. untouched. Qed.

Lemma verify_before_failures now req st :
  same_count now st.(ps_failures) (verify_before_body trustProxy now req st).2.(ps_failures).
Proof.
  unfold verify_before_body. case_match; [done|]. case_match; [done|].
  pose proof (check_counts (clientIp trustProxy req) now (ps_failures st)) as Hc.
  by destruct (checkRemoteWebPairingVerificationRateLimit _ _ _) as [[] m]; destruct Hc.
Qed.

Lemma queued_failures (r : PairingResponse * PairingState) :
  ps_failures (match r.1 with pr_waits k => on_awaiting (ps_awaiting r.2 ++ [k]) r.2 | _ => r.2 end)
  = r.2.(ps_failures).
Proof. by destruct r.1. Qed.

(** Between the verifications nothing forgets a failure. *)
Lemma step_failures st now call :
  let '(served, st') := step st (now, call) in
  match served with
  | Some e => e.(sv_time) = now
      ∧ match e.(sv_resumed) with
        | Some (awaiting_body req) =>
            answered now (clientIp trustProxy req) e.(sv_response) st.(ps_failures) st'.(ps_failures)
        | _ => same_count now st.(ps_failures) st'.(ps_failures)
        end
  | None => st'.(ps_failures) = st.(ps_failures)
  end.
Proof.
  unfold pairing_step. destruct call as [src req|req|req|req|req|req|i env|f];
    try (cbn [sv_time sv_resumed]; split; [done|]; rewrite queued_failures; unfold same_count).
  - by rewrite create_failures.
  - apply verify_before_failures.
  - by rewrite list_failures.
  - by rewrite approve_failures.
  - by rewrite deny_failures.
  - by rewrite token_before_failures.
  - destruct (ps_awaiting st !! i) as [[req|ex]|]; [..|done];
      cbn [sv_time sv_resumed sv_response]; (split; [done|]); rewrite queued_failures; simpl.
    + exact (verify_answered now req (on_awaiting _ st)).
    + by rewrite token_after_failures.
  - done.
Qed.

(** The address of an answer. *)
Lemma code_answer_other ip e : code_answer ip e = None ∨ ∃ req, e.(sv_resumed) = Some (awaiting_body req)
  ∧ clientIp trustProxy req = ip ∧ code_answer ip e = Some e.(sv_response).
Proof.
  unfold code_answer. destruct (sv_resumed e) as [[req|]|]; try by left.
  destruct (String.eqb_spec (clientIp trustProxy req) ip); [right; by eauto|by left].
Qed.

Notation guesses_inv last log m := (window_inv last (λ ip, wrong_times ip log) m).

Lemma guesses_quiet now log m e :
  (∀ ip, match code_answer ip e with Some (pr_status _) | Some (pr_approved _ _) => False | _ => True end) →
  guesses_inv now log m → guesses_inv now (log ++ [e]) m.
Proof.
  intros Hq. apply window_ext. intros ip. rewrite wrong_times_snoc. specialize (Hq ip).
  by repeat case_match.
Qed.

Lemma guesses_answered last log m m' e req :
  e.(sv_resumed) = Some (awaiting_body req) → last <= e.(sv_time) →
  answered e.(sv_time) (clientIp trustProxy req) e.(sv_response) m m' →
  guesses_inv last log m → guesses_inv e.(sv_time) (log ++ [e]) m'.
Proof.
  intros Hr Hle Ha Hinv. set (now := sv_time e) in *. set (i := clientIp trustProxy req) in *.
  assert (∀ ip, code_answer ip e = if decide (ip = i) then Some e.(sv_response) else None) as Hca.
  { intros ip. unfold code_answer. rewrite Hr. fold i. case_decide; destruct (String.eqb_spec i ip); congruence. }
  destruct (sv_response e) as [status| | | |uri exp| | | | | | |] eqn:Er; try
    (apply guesses_quiet; [intros ip; rewrite Hca; by case_decide|by eapply window_later]).
  - destruct Ha as (m1 & Hs & Hlt & ->).
    eapply window_recorded; [by eapply window_later|exact Hlt|..].
    + intros ip. rewrite wrong_times_snoc, Hca. case_decide; [done|by rewrite app_nil_r].
    + intros ip c Hc. by apply record_counts.
  - destruct Ha as (m1 & Hs & ->). eapply window_cleared; [by eapply window_later|].
    intros ip. rewrite wrong_times_snoc, Hca. by case_decide.
Qed.

Lemma sorted_before ts now :
  StronglySorted Z.le (ts ++ [now]) → StronglySorted Z.le ts ∧ Forall (λ t, t <= now) ts.
Proof.
  induction ts as [|t ts IH]; simpl; [repeat constructor|].
  intros [[? ?]%IH Ht]%StronglySorted_inv. apply Forall_app in Ht as [? Hn].
  apply Forall_cons in Hn as [Hn _].
  split; by constructor.
Qed.

Lemma times_bounded ts : ∃ last, Forall (λ t, t <= last) ts.
Proof.
  induction ts as [|t ts [last H]]; [by exists 0|]. exists (Z.max t last).
  constructor; [lia|]. eapply Forall_impl; [exact H|]. simpl. lia.
Qed.

(** C9: However the requests interleave, no address has more than ten codes refused in a
    minute without a right one in between: the limit is checked again, and the failure
    recorded, in the step that looks at the code. *)
Theorem code_guesses_bounded b trace :
  StronglySorted Z.le trace.*1 →
  let log := (run (pairing_start b) trace).1 in
  ∀ ip c, (within RATE_LIMIT_WINDOW_MS c (wrong_times ip log) <= RATE_LIMIT_MAX_FAILURES)%nat.
Proof.
  intros Hs log.
  assert (∀ last, Forall (λ t, t <= last) trace.*1 →
    guesses_inv last log (run (pairing_start b) trace).2.(ps_failures)) as H.
  { unfold log. clear log. induction trace as [|[now call] trace IH] using rev_ind; intros last Hl.
    { apply window_start. }
    rewrite fmap_app in Hs, Hl. apply Forall_app in Hl as [Hl Hn].
    apply Forall_cons in Hn as [Hn _]. simpl in Hn.
    apply sorted_before in Hs as [Hs Hbefore]. specialize (IH Hs now Hbefore).
    rewrite run_snoc. destruct (run (pairing_start b) trace) as [log st]. cbn [fst snd] in *.
    pose proof (step_failures st now call) as Hstep.
    destruct (step st (now, call)) as [[e|] st']; cbn [fst snd option_list].
    - destruct Hstep as [Ht Ha].
      assert (guesses_inv now (log ++ [e]) st'.(ps_failures)); [|by eapply (window_later now last)].
      destruct (sv_resumed e) as [[req|ex]|] eqn:Er;
        [rewrite <- Ht in IH |- *; eapply guesses_answered; [done|reflexivity|by rewrite Ht|done]|..];
        (apply guesses_quiet; [intros ip; unfold code_answer; by rewrite Er|by eapply window_later]).
    - rewrite app_nil_r, Hstep. by eapply (window_later now last). }
  destruct (times_bounded trace.*1) as [last Hl]. apply (H last Hl).
Qed.
End Guesses.

(** ** A device that pairs gets in *)

Section Pairing.
Context (trustProxy : bool) (URL_parse : string → option UrlParts).
Context (hmac sha256 : string → string) (assistantId : string).
Context (JSON_parse : string → option TokenClaims).
Notation run := (pairing_run trustProxy URL_parse hmac sha256 assistantId).
Notation step := (pairing_step trustProxy URL_parse hmac sha256 assistantId).

Lemma run_app st tr tr' :
  run st (tr ++ tr') = let '(log, st) := run st tr in let '(log', st) := run st tr' in (log ++ log', st).
Proof.
  assert (∀ log st, foldl (λ a e, let '(served, st) := step a.2 e in (a.1 ++ option_list served, st))
                      (log, st) tr' = (log ++ (run st tr').1, (run st tr').2)) as H.
  { unfold pairing_run. induction tr' as [|e tr' IH] using rev_ind; intros log st'; simpl.
    - by rewrite app_nil_r.
    - rewrite !foldl_app, (IH log st'). simpl. destruct (step _ e). simpl.
      by rewrite app_assoc. }
  unfold pairing_run at 1. rewrite foldl_app. fold (run st tr).
  destruct (run st tr) as [log st']. rewrite H. by destruct (run st' tr').
Qed.

Lemma check_room ip now m :
  (length (failures_of ip m) < RATE_LIMIT_MAX_FAILURES)%nat →
  ∃ m', checkRemoteWebPairingVerificationRateLimit ip now m = (None, m')
        ∧ (length (failures_of ip m') < RATE_LIMIT_MAX_FAILURES)%nat.
Proof.
  intros H. unfold checkRemoteWebPairingVerificationRateLimit.
  assert (∀ ts, map_get ip m = Some ts → (length (in_window now ts) < RATE_LIMIT_MAX_FAILURES)%nat) as Hw.
  { intros ts E. unfold failures_of in H. rewrite E in H. simpl in H.
    eapply Nat.le_lt_trans; [apply filter_length_le|exact H]. }
  destruct (map_get ip m) as [ts|]; [|by exists m]. specialize (Hw ts eq_refl).
  destruct (in_window now ts) as [|t ts'].
  - eexists. split; [done|]. rewrite failures_of_delete, decide_True by done. simpl.
    unfold RATE_LIMIT_MAX_FAILURES. lia.
  - rewrite (proj2 (Nat.ltb_lt _ _) Hw). eexists. split; [done|].
    by rewrite failures_of_set, decide_True.
Qed.

(** The owner approves a stored challenge by its code, however it is spelled. *)
Lemma owner_approves st t1 t2 env req code r c :
  st.(ps_awaiting) = [] → req.(lq_method) = "POST" → on_this_machine req →
  readJsonStringField req "userCode" = inr code →
  userCodeHash sha256 code = c.(pc_userCodeHash) →
  (length (failures_of (clientIp trustProxy req) st.(ps_failures)) < RATE_LIMIT_MAX_FAILURES)%nat →
  map_get c.(pc_userCodeHash) st.(ps_store).(challengesByUserCodeHash) = Some r →
  st.(ps_store).(heap) !! r = Some c → c.(pc_status) = ch_pending → t2 < c.(pc_expiresAtMs) →
  let '(log, st') := run st [(t1, VerifyCode req); (t2, Resume 0 env)] in
  sv_response <$> log = [pr_waits (awaiting_body req);
                         pr_approved c.(pc_verificationUri) c.(pc_expiresAtMs)]
  ∧ st'.(ps_store) = mutate r (set_approved t2) st.(ps_store)
  ∧ st'.(ps_boot) = st.(ps_boot) ∧ st'.(ps_awaiting) = [].
Proof.
  intros Hw Hm Hl Hb Hcode Hroom Hk Hr Hp Ht. apply (loopback_guard_spec trustProxy) in Hl.
  destruct (check_room _ t1 _ Hroom) as (m1 & E1 & Hroom1).
  destruct (check_room _ t2 _ Hroom1) as (m2 & E2 & _).
  unfold pairing_run. cbn [foldl fst snd pairing_step]. unfold verify_before_body.
  rewrite Hm. cbn [negb String.eqb Ascii.eqb Bool.eqb]. unfold clientIp in *.
  rewrite Hl, bool_decide_false, E1 by auto. cbn. rewrite Hw. cbn.
  unfold verify_after_body. rewrite Hb. unfold clientIp. cbn. rewrite E2.
  unfold approveRemoteWebPairingChallenge. rewrite Hcode. cbn.
  rewrite (proj2 (lookup_challenge_Some _ _ _ _ _) (conj Hk Hr)).
  unfold approveChallenge. rewrite !bool_decide_false by (by rewrite Hp). cbn.
  rewrite (proj2 (Z.leb_gt _ _) Ht). by cbn.
Qed.

(** The device's exchange of a challenge that was approved. *)
Lemma device_exchanges st t3 env req body deviceId principal r c :
  st.(ps_awaiting) = [] → req.(lq_method) = "POST" →
  readJsonObjectBody req = inr body → jsonStringField body "deviceId" = Some deviceId →
  (∃ code, jsonStringField body "deviceCode" = Some code ∧ hashSecret sha256 code = c.(pc_deviceCodeHash)) →
  map_get c.(pc_deviceCodeHash) st.(ps_store).(challengesByDeviceCodeHash) = Some r →
  st.(ps_store).(heap) !! r = Some c → c.(pc_status) = ch_approved → t3 < c.(pc_expiresAtMs) →
  findVellumGuardian st.(ps_boot).(boot_db) = Some principal →
  ids_fresh st.(ps_boot).(boot_tokens).(tables) env.(be_source) →
  hashToken sha256 (sign hmac (guardian_access_claims assistantId env principal))
    ∉ at_tokenHash <$> st.(ps_boot).(boot_tokens).(tables).(actorTokens) →
  let '(log, st') := run st [(t3, ExchangeToken req); (t3, Resume 0 env)] in
  ∃ waiting pr row, sv_response <$> log = [pr_waits waiting; pr_token true pr]
    ∧ pr.(pair_accessToken) = sign hmac (guardian_access_claims assistantId env principal)
    ∧ st'.(ps_boot).(boot_db) = st.(ps_boot).(boot_db)
    ∧ findActorByHash (hashToken sha256 (sign hmac (guardian_access_claims assistantId env principal)))
        st'.(ps_boot).(boot_tokens).(tables) = Some row
    ∧ row.(at_status) = at_active.
Proof.
  intros Hw Hm Hb Hid (code & Hc & Hh) Hk Hr Hs Ht Hg Hfresh Hnew.
  assert (truthy (trim deviceId) = true) as Hdev.
  { unfold jsonStringField in Hid. repeat case_match; try done. by injection Hid as <-. }
  unfold pairing_run. cbn [foldl fst snd pairing_step]. unfold token_before_guardian.
  rewrite Hm, Hb, Hc, Hid. cbn. unfold claimRemoteWebPairingChallengeExchange. rewrite Hh.
  rewrite (proj2 (lookup_challenge_Some _ _ _ _ _) (conj Hk Hr)), (proj2 (Z.leb_gt _ _) Ht), Hs.
  cbn. rewrite Hw. cbn. unfold token_after_guardian. cbn.
  assert (ensureVellumGuardianBinding env false (ps_boot st) = (inr principal, ps_boot st)) as ->.
  { unfold ensureVellumGuardianBinding, resolveOrCreateVellumGuardian. by rewrite Hg. }
  unfold mint_for_exchange. cbn.
  edestruct (pair_device_recorded hmac sha256 assistantId env.(be_now) env.(be_source) principal
    deviceId) as (pr & t & Ep & _ & Hpa & Hfa); [exact Hfresh|exact Hnew|exact Hdev|].
  rewrite Ep. cbn. eexists _, pr, _. split_and!; [done|exact Hpa|done|exact Hfa|done].
Qed.

(** The state after a creation that was answered with a challenge. *)
Lemma challenge_stored t0 src req st c st1 dc :
  handleCreateRemoteWebPairingChallenge trustProxy URL_parse sha256 t0 src req st
    = (pr_challenge dc c, st1) →
  dc = src.(src_deviceCode)
  ∧ c.(pc_deviceCodeHash) = hashSecret sha256 dc ∧ c.(pc_userCodeHash) = userCodeHash sha256 c.(pc_userCode)
  ∧ c.(pc_status) = ch_pending ∧ c.(pc_expiresAtMs) = t0 + CODE_TTL_MS
  ∧ (∃ r, map_get c.(pc_userCodeHash) st1.(ps_store).(challengesByUserCodeHash) = Some r
     ∧ map_get c.(pc_deviceCodeHash) st1.(ps_store).(challengesByDeviceCodeHash) = Some r
     ∧ st1.(ps_store).(heap) !! r = Some c)
  ∧ st1.(ps_failures) = st.(ps_failures) ∧ st1.(ps_boot) = st.(ps_boot)
  ∧ st1.(ps_awaiting) = st.(ps_awaiting).
Proof.
  intros E. destruct (create_cases sha256 trustProxy URL_parse t0 src req st) as [Hw H].
  pose proof (create_failures trustProxy URL_parse sha256 t0 src req st) as Hf.
  assert ((handleCreateRemoteWebPairingChallenge trustProxy URL_parse sha256 t0 src req st).2.(ps_boot)
          = st.(ps_boot)) as Hbt.
  { unfold handleCreateRemoteWebPairingChallenge. repeat case_match; simplify_eq/=; done. }
  rewrite E in *. cbn [fst snd] in *.
  destruct H as [[_ H]|(c' & s1 & url & rq & _ & Hcr & Heq)]; [done|]. injection Heq as -> <-.
  pose proof (create_shape _ _ _ _ _ _ _ _ Hcr) as (Hh & Hu & Hd & Hs & Hdc).
  unfold createRemoteWebPairingChallenge in Hcr. destruct (find_first _ _) as [uc|]; [|done].
  injection Hcr as Hc _. split_and!; try done; try by rewrite <- Hc.
  eexists. rewrite Hh, Hu, Hd, !map_get_set, !decide_True by done. split_and!; [done|done|].
  by rewrite lookup_app_r, Nat.sub_diag by done.
Qed.

(** C14: A device that shows a code, whose owner types it on the machine in time however it
    is spelled, gets credentials of the guardian for its code, and with them passes the
    gateway's guards from anywhere. *)
Theorem paired_device_gets_in st st1 t0 t1 t2 t3 src creq vreq treq env env' code body deviceId principal c :
  st.(ps_awaiting) = [] →
  handleCreateRemoteWebPairingChallenge trustProxy URL_parse sha256 t0 src creq st
    = (pr_challenge src.(src_deviceCode) c, st1) →
  vreq.(lq_method) = "POST" → on_this_machine vreq →
  readJsonStringField vreq "userCode" = inr code →
  normalizeUserCode code = normalizeUserCode c.(pc_userCode) →
  (length (failures_of (clientIp trustProxy vreq) st.(ps_failures)) < RATE_LIMIT_MAX_FAILURES)%nat →
  treq.(lq_method) = "POST" → readJsonObjectBody treq = inr body →
  jsonStringField body "deviceCode" = Some src.(src_deviceCode) →
  jsonStringField body "deviceId" = Some deviceId →
  t2 < t0 + CODE_TTL_MS → t3 < t0 + CODE_TTL_MS →
  findVellumGuardian st.(ps_boot).(boot_db) = Some principal →
  ids_fresh st.(ps_boot).(boot_tokens).(tables) env.(be_source) →
  hashToken sha256 (sign hmac (guardian_access_claims assistantId env principal))
    ∉ at_tokenHash <$> st.(ps_boot).(boot_tokens).(tables).(actorTokens) →
  reads_claims JSON_parse (guardian_access_claims assistantId env principal) →
  no_char ":" assistantId → truthy assistantId = true → no_char ":" principal →
  let '(log, st2) := run st [(t0, CreateChallenge src creq); (t1, VerifyCode vreq); (t2, Resume 0 env');
                             (t3, ExchangeToken treq); (t3, Resume 0 env)] in
  ∃ pr, sv_response <$> last log = Some (pr_token true pr)
    ∧ ∀ windowMs g eenv req est,
        isPlatformAuthBypassActive eenv = false → eenv.(ee_guardianThrows) = false →
        (∀ scope, g = guard_scoped scope → ∃ s, scope = Some s ∧ s ∈ PROFILE_SCOPES actor_client_v1) →
        est.(edge_db) = st2.(ps_boot).(boot_db) → est.(edge_tokens) = st2.(ps_boot).(boot_tokens) →
        req.(er_authorization) = Some ("Bearer " +:+ pr.(pair_accessToken)) →
        (eenv.(ee_now) / 1000 < env.(be_now) / 1000 + ACCESS_TOKEN_TTL_SECONDS)%Z →
        (require windowMs trustProxy hmac sha256 JSON_parse g eenv req est).1 = admitted.
Proof.
  intros Hw Hcr Hm Hl Hb Hcode Hroom Hm' Hb' Hdc Hid Ht2 Ht3 Hg Hids Hnew Hread Ha Ta Hcolon.
  destruct (challenge_stored _ _ _ _ _ _ _ Hcr) as
    (_ & Hdch & Huch & Hs & Hexp & (r & Hku & Hkd & Hr) & Hf & Hbt & Hw1).
  change (run st _) with (run st ([(t0, CreateChallenge src creq)]
    ++ [(t1, VerifyCode vreq); (t2, Resume 0 env')] ++ [(t3, ExchangeToken treq); (t3, Resume 0 env)])).
  rewrite run_app. unfold pairing_run at 1. cbn [foldl fst snd pairing_step]. rewrite Hcr. cbn [fst snd].
  rewrite run_app.
  assert (userCodeHash sha256 code = pc_userCodeHash c) as Hcode'.
  { rewrite Huch. unfold userCodeHash. by rewrite Hcode. }
  pose proof (owner_approves st1 t1 t2 env' vreq code r c) as Hv.
  rewrite Hw1, Hf, Hexp in Hv. specialize (Hv Hw Hm Hl Hb Hcode' Hroom Hku Hr Hs Ht2).
  destruct (run st1 [(t1, VerifyCode vreq); (t2, Resume 0 env')]) as [log2 st2].
  destruct Hv as (_ & Hst2 & Hbt2 & Hw2).
  assert (heap (ps_store st2) !! r = Some (set_approved t2 c)) as Hr2.
  { rewrite Hst2. simpl. by rewrite list_lookup_alter_eq, Hr. }
  pose proof (device_exchanges st2 t3 env treq body deviceId principal r (set_approved t2 c)) as Hx.
  rewrite Hbt2, Hbt, Hst2 in Hx. rewrite Hst2 in Hr2.
  specialize (Hx Hw2 Hm' Hb' Hid (ex_intro _ _ (conj Hdc (eq_sym Hdch))) Hkd Hr2 eq_refl).
  cbn [set_approved with_status pc_expiresAtMs] in Hx. rewrite Hexp in Hx.
  specialize (Hx Ht3 Hg Hids Hnew).
  destruct (run st2 [(t3, ExchangeToken treq); (t3, Resume 0 env)]) as [log3 st3].
  destruct Hx as (k & pr & row & Hlog & Hpa & Hdb & Hrow & Hact). exists pr. split.
  - rewrite !last_app. destruct (last log3) as [e|] eqn:El.
    + simpl. assert (last (sv_response <$> log3) = Some (pr_token true pr)) as H by by rewrite Hlog.
      by rewrite fmap_last, El in H.
    + apply last_None in El as ->. done.
  - intros windowMs g eenv req est Hd Hth Hscope Hedb Hetk Hauth Hlive. rewrite Hdb in Hedb. rewrite Hpa in Hauth.
    assert (truthy principal = true) as Hp.
    { unfold findVellumGuardian in Hg. apply bind_Some in Hg as (row' & _ & Hn). by apply nonempty_Some in Hn as [_ ?]. }
    by eapply (recorded_guardian_admitted windowMs trustProxy hmac sha256 assistantId JSON_parse env principal).
Qed.
End Pairing.

(** An exchange that could not hand out credentials leaves the code good until it expires. *)
Theorem failed_exchange_retryable URL_parse hmac sha256 assistantId env ex st r c later :
  map_get (hashSecret sha256 ex.(ex_deviceCode)) st.(ps_store).(challengesByDeviceCodeHash) = Some r →
  st.(ps_store).(heap) !! r = Some c → c.(pc_status) = ch_exchanging → later < c.(pc_expiresAtMs) →
  let '(response, st') := token_after_guardian URL_parse hmac sha256 assistantId env ex st in
  (∃ bound pr, response = pr_token bound pr)
  ∨ (claimRemoteWebPairingChallengeExchange sha256 later ex.(ex_deviceCode) st'.(ps_store)).1
    = claim_approved c.(pc_publicBaseUrl) c.(pc_verificationUri) c.(pc_expiresAtMs).
Proof.
  intros Hm Hr Hs Hl.
  assert (∀ b, (claimRemoteWebPairingChallengeExchange sha256 later ex.(ex_deviceCode)
    (ps_store (on_store (releaseRemoteWebPairingChallengeExchange sha256 ex.(ex_deviceCode) st.(ps_store))
       (on_boot b st)))).1
    = claim_approved c.(pc_publicBaseUrl) c.(pc_verificationUri) c.(pc_expiresAtMs)) as Hrel.
  { intros b. simpl. unfold releaseRemoteWebPairingChallengeExchange, end_exchange.
    rewrite (proj2 (lookup_challenge_Some _ _ _ _ _) (conj Hm Hr)), bool_decide_true by done.
    unfold claimRemoteWebPairingChallengeExchange. erewrite (proj2 (lookup_challenge_Some _ _ _ r _));
      [|split; [exact Hm|simpl; by rewrite list_lookup_alter_eq, Hr]].
    cbn. by rewrite (proj2 (Z.leb_gt _ _) Hl). }
  unfold token_after_guardian.
  destruct (ensureVellumGuardianBinding _ _ _) as [[[]|p] b]; try (right; apply Hrel).
  destruct (mint_for_exchange _ _ _ _ _ _ _ _) as [[pr|] b']; [left; by eauto|right; apply Hrel].
Qed.

(** ** Concrete instances *)

Definition local_post (fields : list (string * Json)) : LocalRequest :=
  {| lq_method := "POST"; lq_peer := {| peer_address := Some "127.0.0.1"; peer_forwardedFor := None |};
     lq_velay := None; lq_viaEdgeProxy := false; lq_edgeClientIp := None; lq_host := Some "localhost:7830";
     lq_origin := None; lq_userAgent := None;
     lq_contentType := None; lq_interfaceId := None; lq_body := body_text (Some (JObj fields)) |}.

Definition sample_URL (_ : string) : option UrlParts :=
  Some {| up_protocol := "https:"; up_host := "a.example"; up_hostname := "a.example";
          up_origin := "https://a.example"; up_pathname := "/" |}.

Definition sample_code : ChallengeSource :=
  {| src_deviceCode := "dc"; src_draws := [[0; 1; 2; 3; 4; 5; 6; 7]]%nat; src_id := "id" |}.

Definition create_request : LocalRequest := local_post [("publicBaseUrl", JStr "https://a.example/")].
Definition typed (code : string) : LocalRequest := local_post [("userCode", JStr code)].
Definition token_request : LocalRequest :=
  local_post [("deviceCode", JStr "dc"); ("deviceId", JStr "dev")].

(** The gateway after its first start. *)
Definition owned : BootState := (ensureVellumGuardianBinding (quiet_env "1" 5) true empty_boot).2.

(** The owner approves while the device polls; the exchange that comes back late gets nothing. *)
Definition sample_trace : list (Z * PairingCall) :=
  [(10, CreateChallenge sample_code create_request); (20, ExchangeToken token_request);
   (30, VerifyCode (typed "abcd efgh")); (40, Resume 0 (quiet_env "1" 40));
   (50, ExchangeToken token_request); (55, ExchangeToken token_request);
   (60, Resume 0 (quiet_env "2" 60)); (70, ExchangeToken token_request)].

#[local] Notation sample_log :=
  ((pairing_run false sample_URL sample_hmac toy_sha "self" (pairing_start owned) sample_trace).1).

Example sample_responses :
  match sv_response <$> sample_log with
  | [pr_challenge "dc" c; pr_token_pending _; pr_waits _; pr_approved _ _; pr_waits _;
     pr_token_pending _; pr_token true _; pr_status 401] => c.(pc_userCode) = "ABCD-EFGH"
  | _ => False
  end.
Proof. vm_compute. reflexivity. Qed.

Lemma pairing_needs_approval_witness :
  (∃ c, c.(pc_deviceCodeHash) = toy_sha "dc" ∧ approved_in toy_sha (take 6 sample_log) c)
  ∧ ∀ e, e ∈ take 6 sample_log ++ drop 7 sample_log → grants toy_sha (toy_sha "dc") e = false.
Proof.
  assert (NoDup (pc_deviceCodeHash <$> omap created sample_log)) as Hnd.
  { vm_compute. constructor; [apply not_elem_of_nil|constructor]. }
  pose proof (pairing_needs_approval toy_sha false sample_URL sample_hmac "self" owned sample_trace Hnd
    (take 6 sample_log)) as H. cbv zeta in H.
  destruct (sample_log !! 6%nat) as [e|] eqn:E; [|vm_compute in E; discriminate E].
  apply (H e (drop 7 sample_log)).
  - exact (eq_sym (take_drop_middle sample_log 6 e E)).
  - vm_compute in E. injection E as <-. vm_compute. reflexivity.
Defined.

(** Eleven guesses: the last one is not looked at. *)
Definition guess_trace : list (Z * PairingCall) :=
  List.concat ((λ t : nat, [(Z.of_nat t, VerifyCode (typed "AAAA-AAAA"));
                            (Z.of_nat t, Resume 0 (quiet_env "1" 1))]) <$> seq 1 11).

Lemma code_guesses_bounded_witness :
  let log := (pairing_run false sample_URL sample_hmac toy_sha "self" (pairing_start owned) guess_trace).1 in
  (within RATE_LIMIT_WINDOW_MS 0 (wrong_times false "127.0.0.1" log) <= RATE_LIMIT_MAX_FAILURES)%nat
  ∧ length (wrong_times false "127.0.0.1" log) = 10%nat.
Proof.
  intros log. split; [|vm_compute; reflexivity].
  apply (code_guesses_bounded false sample_URL sample_hmac toy_sha "self" owned guess_trace).
  vm_compute. repeat constructor; discriminate.
Defined.

(** The guardian's rows are gone, but not the tokens of a device. *)
Definition lost : BootState :=
  {| boot_db := empty_boot.(boot_db); boot_tokens := paired_state; boot_integrity := None |}.

Definition sample_exchange : Exchange :=
  {| ex_deviceCode := "dc"; ex_deviceId := Some "dev"; ex_platform := "desktop";
     ex_userAgent := None; ex_clientReportedName := None; ex_publicBaseUrl := "https://a.example" |}.

Definition exchanging : PairingState :=
  (pairing_run false sample_URL sample_hmac toy_sha "self" (pairing_start lost) (take 5 sample_trace)).2.

Lemma failed_exchange_retryable_witness :
  let '(response, st) := token_after_guardian sample_URL sample_hmac toy_sha "self" (quiet_env "2" 60)
                           sample_exchange exchanging in
  response = pr_repair_required
  ∧ (claimRemoteWebPairingChallengeExchange toy_sha 70 "dc" st.(ps_store)).1
    = claim_approved "https://a.example" "https://a.example/assistant/pair" 600010.
Proof.
  destruct (exchanging.(ps_store).(heap) !! 0%nat) as [c|] eqn:E; [|vm_compute in E; discriminate E].
  pose proof (failed_exchange_retryable sample_URL sample_hmac toy_sha "self" (quiet_env "2" 60)
    sample_exchange exchanging 0%nat c 70) as H.
  specialize (H ltac:(vm_compute; reflexivity) E).
  vm_compute in E. injection E as <-. specialize (H eq_refl eq_refl).
  assert ((token_after_guardian sample_URL sample_hmac toy_sha "self" (quiet_env "2" 60)
    sample_exchange exchanging).1 = pr_repair_required) as Hr by (vm_compute; reflexivity).
  destruct (token_after_guardian _ _ _ _ _ _ _) as [response st]. simpl in Hr. subst response.
  split; [reflexivity|]. destruct H as [(bound & pr & Hx)|H]; [discriminate Hx|exact H].
Defined.

Definition pairing_calls : list (Z * PairingCall) :=
  [(10, CreateChallenge sample_code create_request); (20, VerifyCode (typed "abcd efgh"));
   (30, Resume 0 (quiet_env "1" 30)); (40, ExchangeToken token_request); (40, Resume 0 (quiet_env "2" 40))].

Lemma paired_device_gets_in_witness :
  let claims := guardian_access_claims "self" (quiet_env "2" 40) "vellum-principal-1" in
  let '(log, st) := pairing_run false sample_URL sample_hmac toy_sha "self" (pairing_start owned) pairing_calls in
  ∃ pr, sv_response <$> last log = Some (pr_token true pr)
    ∧ (require 60000 false sample_hmac toy_sha (reader_of claims) guard_guardian (plain_env 50)
         (sample_request "203.0.113.7" (Some ("Bearer " +:+ pr.(pair_accessToken))))
         (edge_of st.(ps_boot).(boot_db) st.(ps_boot).(boot_tokens))).1 = admitted.
Proof.
  intros claims.
  destruct (handleCreateRemoteWebPairingChallenge false sample_URL toy_sha 10 sample_code create_request
    (pairing_start owned)) as [response st1] eqn:E.
  destruct response as [| |dc c| | | | | | | | |];
    try (exfalso; vm_compute in E; discriminate E).
  assert (dc = "dc" ∧ c.(pc_userCode) = "ABCD-EFGH") as [-> Hc]
    by (vm_compute in E; injection E as <- <- _; split; reflexivity).
  pose proof (paired_device_gets_in false sample_URL sample_hmac toy_sha "self" (reader_of claims)
    (pairing_start owned) st1 10 20 30 40 sample_code create_request (typed "abcd efgh") token_request
    (quiet_env "2" 40) (quiet_env "1" 30) "abcd efgh" [("deviceCode", JStr "dc"); ("deviceId", JStr "dev")]
    "dev" "vellum-principal-1" c) as H.
  fold pairing_calls in H.
  destruct (pairing_run false sample_URL sample_hmac toy_sha "self" (pairing_start owned) pairing_calls)
    as [log st].
  destruct H as (pr & Hl & H); try reflexivity; try exact E.
  - repeat split; try reflexivity. exists "127.0.0.1". split; reflexivity.
  - rewrite Hc. reflexivity.
  - vm_compute. lia.
  - apply (sample_ids_fresh "2" owned.(boot_tokens)); vm_compute; reflexivity.
  - vm_compute. intros Hin. by apply elem_of_nil in Hin.
  - exists pr. split; [exact Hl|]. apply H; [reflexivity|reflexivity| |reflexivity|reflexivity|reflexivity|reflexivity].
    intros scope Hs. discriminate Hs.
Defined.
