(* ===== verification/LocalRoutes.v ===== *)
(** The routes for callers on the machine and for the browser's own refresh: pairing
    ([gateway/src/http/routes/pair.ts]), the list of devices and their revocation
    ([http/routes/devices.ts]), and the rotation of credentials
    ([http/routes/guardian-refresh.ts], [http/browser-auth-cookies.ts]).

    [reading] is what the rest of the gateway does while a handler reads its body. The
    runtime's URL parser and [decodeURIComponent] are arguments. *)
From Stdlib Require Import Sorted.
From stdpp Require Import pretty.
From S2P Require Import Prelude JsString JsMap CanonicalJson SenderTrust ContactStore.
From S2P Require Import AuthRateLimit EdgeTokens DeviceTokens GuardianBootstrap EdgeAuth.
From S2P Require Import LoopbackGuard RemotePairing.

#[local] Open Scope Z_scope.

(** ** The limit on pairings *)

Definition RATE_LIMIT_MAX_REQUESTS : nat := 10.
Definition PAIR_TOKEN_TTL_SECONDS : Z := 86400.

(** [Some resetAt]: not allowed before that second. *)
Definition checkRateLimit (peerIp : string) (now : Z) (m : Failures) : option Z * Failures :=
  let timestamps := in_window now (default [] (map_get peerIp m)) in
  if (RATE_LIMIT_MAX_REQUESTS <=? length timestamps)%nat
  then (Some (ceil_seconds (hd now timestamps + RATE_LIMIT_WINDOW_MS)),
        map_set peerIp timestamps m)
  else (None, map_set peerIp (timestamps ++ [now]) m).

(** ** Pairing *)

Definition KNOWN_EXTENSION_ORIGINS : list string :=
  ["chrome-extension://hphbdmpffeigpcdjkckleobjmhhokpne";
   "chrome-extension://kajfcoaefacmjgdaloeafnpcfaeahcio";
   "chrome-extension://idpcnibfinmkdhlpenkglianflkbhfim";
   "chrome-extension://gfcldmjjhcginboeldmknclbjilohcbn"].

Inductive PairResponse :=
  | pair_status (status : Z)
  | pair_rate_limited (resetAt : Z)                                   (** 429 *)
  | pair_stateless (token : string) (expiresAt : Z) (principal : string)
  | pair_device (principal : string) (pr : TokenPair)
  | pair_throws.

(** What [req.json()] gives the route: no fields when it throws or is no object. *)
Definition json_fields (req : LocalRequest) : list (string * Json) :=
  match req.(lq_body) with body_text (Some (JObj fields)) => fields | _ => [] end.

(** A string that is not blank, trimmed. *)
Definition trimmed_field (fields : list (string * Json)) (field : string) : option string :=
  trim <$> jsonStringField fields field.

(** Whether [s] contains [p]. *)
Fixpoint includes (s p : string) : bool :=
  starts_with s p || match s with EmptyString => false | String _ s' => includes s' p end.

Record LocalState := { ls_pairings : Failures; ls_boot : BootState }.

Section Pair.
Context (trustProxy : bool) (hmac sha256 : string → string) (assistantId : string).

(** The response for the principal and the body that were read. *)
Definition pair_after_body (env : BootEnv) (req : LocalRequest) (interfaceId principal : string)
    (b : BootState) : PairResponse * BootState :=
  let fields := if includes (default "" req.(lq_contentType)) "json" then json_fields req else [] in
  let deviceId := trimmed_field fields "deviceId" in
  let device platform :=
    match deviceId with
    | Some d =>
        match mintDeviceBoundPairResponse hmac sha256 assistantId env principal
                (default platform (trimmed_field fields "platform")) d
                (trimmed_field fields "clientReportedName") b with
        | (Some pr, b) => (pair_device principal pr, b)
        | (None, b) => (pair_throws, b)
        end
    | None => (pair_status 400, b)
    end in
  if String.eqb interfaceId "chrome-extension" then
    if match req.(lq_origin) with Some o => truthy o && mem o KNOWN_EXTENSION_ORIGINS | None => false end
    then
      match deviceId with
      | Some _ => device interfaceId
      | None =>
          (pair_stateless (access_token env.(be_now) hmac assistantId principal env.(be_source).(ms_nonce)
                             PAIR_TOKEN_TTL_SECONDS)
             (env.(be_now) + PAIR_TOKEN_TTL_SECONDS * 1000) principal, b)
      end
    else (pair_status 403, b)
  else if String.eqb interfaceId "cli" then
    if header_set req.(lq_origin) then (pair_status 403, b) else device "cli"
  else (pair_status 400, b).

Definition handlePair (now : Z) (env : BootEnv) (reading : BootState → BootState) (req : LocalRequest)
    (st : LocalState) : PairResponse * LocalState :=
  if negb (String.eqb req.(lq_method) "POST") then (pair_status 405, st)
  else if bool_decide (enforceLoopbackOnly req (clientIp trustProxy req) ≠ None)
  then (pair_status 403, st)
  else
    let '(limited, m) := checkRateLimit (clientIp trustProxy req) now st.(ls_pairings) in
    let st := {| ls_pairings := m; ls_boot := st.(ls_boot) |} in
    match limited with
    | Some resetAt => (pair_rate_limited resetAt, st)
    | None =>
        match DeviceTokens.nonempty req.(lq_interfaceId) with
        | None => (pair_status 400, st)
        | Some interfaceId =>
            let principal := resolveLocalGuardianPrincipalId st.(ls_boot).(boot_db) in
            let '(response, b) :=
              pair_after_body env req interfaceId principal (reading st.(ls_boot)) in
            (response, {| ls_pairings := m; ls_boot := b |})
        end
    end.

(** ** Devices *)

Inductive DevicesResponse :=
  | dev_status (status : Z) | dev_listed (devices : list Device) | dev_revoked (hashedDeviceId : string).

(** The refusal of a request that is not a local terminal's. *)
Definition terminal_only (method : string) (req : LocalRequest) : option Z :=
  if negb (String.eqb req.(lq_method) method) then Some 405
  else if bool_decide (enforceLoopbackOnly req (clientIp trustProxy req) ≠ None) then Some 403
  else if bool_decide (rejectBrowserOrigin req ≠ None) then Some 403
  else None.

Definition handleListDevices (req : LocalRequest) (b : BootState) : DevicesResponse :=
  match terminal_only "GET" req with
  | Some status => dev_status status
  | None => dev_listed (listDevices (resolveLocalGuardianPrincipalId b.(boot_db)) b.(boot_tokens).(tables))
  end.

(** A body that is no object has no [hashedDeviceId]; [null] makes the handler throw (500). *)
Definition handleRevokeDevice (now : Z) (req : LocalRequest) (b : BootState)
    : DevicesResponse * BootState :=
  match terminal_only "POST" req with
  | Some status => (dev_status status, b)
  | None =>
      match req.(lq_body) with
      | body_text (Some JNull) => (dev_status 500, b)
      | _ =>
          match trimmed_field (json_fields req) "hashedDeviceId" with
          | None => (dev_status 400, b)
          | Some hashedDeviceId =>
              let principal := resolveLocalGuardianPrincipalId b.(boot_db) in
              (dev_revoked hashedDeviceId,
               on_boot_tokens
                 (revokeRefreshTokensByDevice now principal hashedDeviceId
                    (revokeActorTokensByDevice now principal hashedDeviceId b.(boot_tokens).(tables))) b)
          end
      end
  end.
End Pair.

(** ** The refresh cookie *)

Definition BROWSER_REFRESH_COOKIE : string := "vellum_web_refresh".

Section Refresh.
Context (URL_parse : string → option UrlParts) (encodeURIComponent : string → string)
        (decodeURIComponent : string → option string).

Definition browserAuthCookie (name value : string) (maxAgeSeconds : Z) (path : option string) : string :=
  join "; " [name +:+ "=" +:+ encodeURIComponent value; "HttpOnly"; "Secure"; "SameSite=Strict";
             "Path=" +:+ normalizeCookiePath (default "" path);
             "Max-Age=" +:+ pretty (Z.max 0 maxAgeSeconds)].

Definition buildRemoteWebBrowserAuthCookies (now : Z) (refreshToken : string)
    (refreshTokenExpiresAtMs : Z) (refreshCookiePath : option string) : list string :=
  [browserAuthCookie BROWSER_REFRESH_COOKIE refreshToken (ceil_seconds (refreshTokenExpiresAtMs - now))
     refreshCookiePath].

(** The first cookie of the name; [decodeURIComponent] may throw. *)
Definition getRemoteWebRefreshCookie (header : option string) : string :=
  match DeviceTokens.nonempty header with
  | None => ""
  | Some h =>
      default ""
        (first_some (λ part,
           match split_char "=" (trim part) with
           | rawName :: rawValue =>
               if String.eqb rawName BROWSER_REFRESH_COOKIE
               then let value := join "=" rawValue in Some (default value (decodeURIComponent value))
               else None
           | [] => None
           end) (split_char ";" h))
  end.

(** ** [POST /v1/guardian/refresh] *)

Record RefreshRequest := {
  rr_url : UrlParts;
  rr_cookie : option string;
  rr_fetchSite : option string;
  rr_origin : option string;
  rr_referer : option string;
  rr_authorization : option string;
  rr_peer : PeerInfo;
  rr_body : option Json                    (** [None]: [req.json()] throws *)
}.

Definition parseHttpUrl (value : option string) : option UrlParts :=
  v ← DeviceTokens.nonempty value;
  url ← URL_parse v;
  if negb (String.eqb url.(up_protocol) "http:") && negb (String.eqb url.(up_protocol) "https:")
  then None else Some url.

Definition sameEffectiveOrigin (target url : UrlParts) : bool :=
  if negb (String.eqb url.(up_host) target.(up_host)) then false
  else if String.eqb url.(up_protocol) target.(up_protocol) then true
  else String.eqb target.(up_protocol) "http:" && String.eqb url.(up_protocol) "https:".

Definition browserRefreshOriginFallbackAllows (req : RefreshRequest) : bool :=
  let allows v := match parseHttpUrl v with
                  | Some url => sameEffectiveOrigin req.(rr_url) url
                  | None => false
                  end in
  allows req.(rr_origin) || allows req.(rr_referer).

(** [true]: no objection. *)
Definition browserRefreshFetchMetadataGuard (req : RefreshRequest) : bool :=
  match DeviceTokens.nonempty req.(rr_fetchSite) with
  | Some fetchSite => String.eqb fetchSite "same-origin"
  | None => browserRefreshOriginFallbackAllows req
  end.

Inductive RefreshResponse :=
  | refresh_status (status : Z)
  | refresh_error (code : RefreshErrorCode) (status : Z)
  | refresh_cookie (pr : TokenPair) (cookies : list string)   (** the refresh token is in the cookie *)
  | refresh_body (pr : TokenPair).                            (** both tokens are in the body *)

#[export] Instance RefreshErrorCode_eq_dec : EqDecision RefreshErrorCode.
Proof. solve_decision. Defined.

Definition refreshFailureResponse (error : RefreshErrorCode) : RefreshResponse :=
  refresh_error error
    (if mem error [refresh_reuse_detected; device_binding_mismatch; refresh_revoked] then 403 else 401).

Context (hmac sha256 : string → string) (assistantId : string).
Context (JSON_parse : string → option TokenClaims) (windowMs : Z) (trustProxy : bool).

(** A string field of the body; any other value is absent. *)
Definition string_field (fields : list (string * Json)) (field : string) : string :=
  match map_get field fields with Some (JStr v) => v | _ => "" end.

(** [missing] is the integrity check of a rotation, read when it gets that far. *)
Definition rotation_result (ok : TokenPair → RefreshResponse) (r : RotateOutcome * TokenTables)
    (b : BootState) : RefreshResponse * BootState :=
  (match r.1 with
   | rotated pr => ok pr
   | refused code => refreshFailureResponse code
   | rotate_throws => refresh_status 500
   end, on_boot_tokens r.2 b).

Definition handleGuardianRefresh (now : Z) (src : MintSource) (missing : bool) (req : RefreshRequest)
    (b : BootState) : RefreshResponse * BootState :=
  let t := b.(boot_tokens).(tables) in
  let browserRefreshToken := getRemoteWebRefreshCookie req.(rr_cookie) in
  if truthy browserRefreshToken then
    if negb (browserRefreshFetchMetadataGuard req) then (refresh_status 403, b)
    else
      rotation_result
        (λ pr, refresh_cookie pr (buildRemoteWebBrowserAuthCookies now pr.(pair_refreshToken)
                                    pr.(pair_refreshTokenExpiresAt) pr.(pair_cookiePath)))
        (rotateBrowserCredentialsByRefreshToken now hmac sha256 assistantId src missing
           browserRefreshToken t) b
  else
    match req.(rr_body) with
    | None | Some JNull => (refresh_status 500, b)
    | Some body =>
        let fields := match body with JObj fields => fields | _ => [] end in
        let refreshToken := string_field fields "refreshToken" in
        let deviceId := trim (string_field fields "deviceId") in
        if negb (truthy refreshToken) then (refresh_status 400, b)
        else if negb (truthy deviceId) then (refresh_status 400, b)
        else rotation_result refresh_body
               (rotateCredentials now hmac sha256 assistantId src missing refreshToken
                  (hashDeviceId sha256 deviceId) t) b
    end.

(** The route in front of it ([index.ts]): without the cookie a token of this gateway is
    asked for, which may have expired; a refusal counts as a failure of the caller. *)
Definition refresh_route (now : Z) (src : MintSource) (missing : bool) (req : RefreshRequest)
    (b : BootState) (failures : Failures) : RefreshResponse * BootState * Failures :=
  let refused := (refresh_status 401, b,
                  recordFailure windowMs (getClientIp trustProxy req.(rr_peer)) now failures) in
  if truthy (getRemoteWebRefreshCookie req.(rr_cookie))
  then (handleGuardianRefresh now src missing req b, failures)
  else
    match bearer req.(rr_authorization) with
    | None => refused
    | Some token =>
        match validateEdgeToken hmac JSON_parse token true now with
        | inl _ => refused
        | inr _ => (handleGuardianRefresh now src missing req b, failures)
        end
    end.
End Refresh.
