(* ===== verification/RouteSafety.v ===== *)
(** What the routes of the machine and of the browser's refresh promise.

    Pairing stays on the machine and within its limit; a device that the list shows can be
    revoked through the route, and then stays out; a browser that sends back the cookie it
    was given gets the next one. *)
From Stdlib Require Import Sorted.
From stdpp Require Import pretty.
From S2P Require Import DedupCache.
From S2P Require Import Prelude JsString JsMap NodePath CanonicalJson SenderTrust ContactStore.
From S2P Require Import AuthRateLimit EdgeTokens DeviceTokens GuardianBootstrap EdgeAuth.
From S2P Require Import LoopbackGuard RemotePairing PairingSafety LocalRoutes.

#[local] Open Scope Z_scope.

(** ** Pairing *)

Section Contained.
Context (trustProxy : bool) (hmac sha256 : string → string) (assistantId : string).

(** The principal of the credentials that were handed out. *)
Definition paired_principal (r : PairResponse) : option string :=
  match r with
  | pair_stateless _ _ p | pair_device p _ => Some p
  | _ => None
  end.

(** A page or an extension of someone else's does not pair: the extension's own origin,
    or a terminal that names its device. *)
Definition may_pair (req : LocalRequest) : Prop :=
  req.(lq_interfaceId) = Some "chrome-extension"
    ∧ (∃ o, req.(lq_origin) = Some o ∧ o ∈ KNOWN_EXTENSION_ORIGINS)
  ∨ req.(lq_interfaceId) = Some "cli" ∧ header_set req.(lq_origin) = false.

Lemma pair_after_body_contained env req interfaceId principal b p :
  let r := pair_after_body hmac sha256 assistantId env req interfaceId principal b in
  paired_principal r.1 = Some p →
  p = principal ∧ (req.(lq_interfaceId) = Some interfaceId → may_pair req).
Proof.
  unfold pair_after_body, may_pair. simpl. set (fields := if includes _ _ then _ else _).
  assert (∀ platform, let r := match trimmed_field fields "deviceId" with
    | Some d => match mintDeviceBoundPairResponse hmac sha256 assistantId env principal
                  (default platform (trimmed_field fields "platform")) d
                  (trimmed_field fields "clientReportedName") b with
                | (Some pr, b) => (pair_device principal pr, b)
                | (None, b) => (pair_throws, b)
                end
    | None => (pair_status 400, b)
    end in paired_principal r.1 = Some p → p = principal) as Hd.
  { intros platform. destruct (trimmed_field fields "deviceId") as [d|]; [|done].
    destruct (mintDeviceBoundPairResponse _ _ _ _ _ _ _ _ _) as [[pr|] b']; simpl; [by intros [= ->]|done]. }
  destruct (String.eqb_spec interfaceId "chrome-extension") as [->|].
  - destruct (lq_origin req) as [o|]; [|done]. destruct (truthy o && _) eqn:Eo; [|done].
    apply andb_prop in Eo as [_ Ho%mem_true]. intros H. split; [|intros ->; left; by eauto].
    destruct (trimmed_field fields "deviceId") as [d|] eqn:Ef; [|by injection H].
    specialize (Hd "chrome-extension"). simpl in Hd. by apply Hd.
  - destruct (String.eqb_spec interfaceId "cli") as [->|]; [|done].
    destruct (header_set (lq_origin req)) eqn:Eo; [done|]. intros H%Hd. split; [done|].
    intros ->. by right.
Qed.

(** Pairing on the machine: credentials go to callers on it, to Vellum's own extension or
    a terminal that names its device, for the principal that was the guardian's when the
    request arrived, and only after fewer than ten requests in the last minute. *)
Theorem pairing_contained now env reading req st p :
  let r := handlePair trustProxy hmac sha256 assistantId now env reading req st in
  paired_principal r.1 = Some p →
  on_this_machine req ∧ may_pair req
  ∧ p = resolveLocalGuardianPrincipalId st.(ls_boot).(boot_db)
  ∧ (since (now - RATE_LIMIT_WINDOW_MS) (failures_of (clientIp trustProxy req) st.(ls_pairings)) < 10)%nat.
Proof.
  unfold handlePair. destruct (negb (String.eqb _ _)); [done|].
  case_bool_decide as Hg; [done|]. apply (loopback_guard_spec trustProxy) in Hg.
  unfold checkRateLimit. fold (failures_of (clientIp trustProxy req) (ls_pairings st)).
  destruct (Nat.leb_spec RATE_LIMIT_MAX_REQUESTS (length (in_window now
    (failures_of (clientIp trustProxy req) (ls_pairings st))))) as [|Hl]; [done|].
  destruct (DeviceTokens.nonempty (lq_interfaceId req)) as [i|] eqn:Ei; [|done]. simpl.
  pose proof (pair_after_body_contained env req i (resolveLocalGuardianPrincipalId (boot_db (ls_boot st)))
    (reading (ls_boot st)) p) as H.
  destruct (pair_after_body _ _ _ _ _ _ _ _) as [response b]. simpl in *. intros Hp.
  destruct (H Hp) as [-> Hm]. apply nonempty_Some in Ei as [Ei _]. split_and!; [done|by apply Hm|done|].
  exact Hl.
Qed.

(** *** The limit over any sequence of requests *)

(** [pl_before]: what the rest of the gateway did since the request before. *)
Record PairCall := {
  pl_now : Z;
  pl_env : BootEnv;
  pl_before : BootState → BootState;
  pl_reading : BootState → BootState;
  pl_request : LocalRequest
}.

Definition pair_step (a : list (PairCall * PairResponse) * LocalState) (call : PairCall)
    : list (PairCall * PairResponse) * LocalState :=
  let st := {| ls_pairings := a.2.(ls_pairings); ls_boot := call.(pl_before) a.2.(ls_boot) |} in
  let '(r, st) := handlePair trustProxy hmac sha256 assistantId call.(pl_now) call.(pl_env)
                    call.(pl_reading) call.(pl_request) st in
  (a.1 ++ [(call, r)], st).

Definition pair_run (calls : list PairCall) (b : BootState)
    : list (PairCall * PairResponse) * LocalState :=
  foldl pair_step ([], {| ls_pairings := []; ls_boot := b |}) calls.

Definition address (call : PairCall) : string := clientIp trustProxy call.(pl_request).

(** When an address was given credentials. *)
Definition paired_times (ip : string) (log : list (PairCall * PairResponse)) : list Z :=
  omap (λ e : PairCall * PairResponse,
          if String.eqb (address e.1) ip && bool_decide (is_Some (paired_principal e.2))
          then Some e.1.(pl_now) else None) log.

Lemma paired_times_snoc ip log call r :
  paired_times ip (log ++ [(call, r)])
  = paired_times ip log
    ++ (if decide (ip = address call)
        then (if decide (is_Some (paired_principal r)) then [call.(pl_now)] else []) else []).
Proof.
  unfold paired_times. rewrite omap_app. f_equal. simpl.
  case_decide as E; [subst ip; rewrite String.eqb_refl|];
    [|by destruct (String.eqb_spec (address call) ip); subst].
  simpl. case_bool_decide; by case_decide.
Qed.

(** One more request of the address, where there was room for it. *)
Definition counts_one (now : Z) (i : string) (m m' : Failures) : Prop :=
  (since (now - RATE_LIMIT_WINDOW_MS) (failures_of i m) < RATE_LIMIT_MAX_FAILURES)%nat
  ∧ ∀ ip c, now - RATE_LIMIT_WINDOW_MS <= c →
      since c (failures_of ip m') = since c (failures_of ip m ++ (if decide (ip = i) then [now] else [])).

Lemma limit_counts i now m :
  let '(limited, m') := checkRateLimit i now m in
  match limited with Some _ => same_count now m m' | None => counts_one now i m m' end.
Proof.
  unfold checkRateLimit. fold (failures_of i m).
  pose proof (λ c, since_in_window now c (failures_of i m)) as Hw.
  destruct (Nat.leb_spec RATE_LIMIT_MAX_REQUESTS (length (in_window now (failures_of i m)))) as [|Hl].
  - intros ip c Hc. rewrite failures_of_set. case_decide; [subst; by apply Hw|done].
  - split; [exact Hl|]. intros ip c Hc. rewrite failures_of_set. case_decide; [|by rewrite app_nil_r].
    subst. by rewrite !since_app, Hw.
Qed.

(** A request either passes the limiter, or gets no credentials and leaves the counts. *)
Lemma pair_counts now env reading req st :
  let r := handlePair trustProxy hmac sha256 assistantId now env reading req st in
  counts_one now (clientIp trustProxy req) st.(ls_pairings) r.2.(ls_pairings)
  ∨ paired_principal r.1 = None ∧ same_count now st.(ls_pairings) r.2.(ls_pairings).
Proof.
  unfold handlePair. destruct (negb (String.eqb _ _)); [by right|].
  case_bool_decide; [by right|].
  pose proof (limit_counts (clientIp trustProxy req) now (ls_pairings st)) as Hc.
  destruct (checkRateLimit _ _ _) as [[resetAt|] m]; [by right|left].
  destruct (DeviceTokens.nonempty _); [|done]. by destruct (pair_after_body _ _ _ _ _ _ _ _).
Qed.

Lemma pair_step_inv last log st call :
  last <= call.(pl_now) → window_inv last (λ ip, paired_times ip log) st.(ls_pairings) →
  let a := pair_step (log, st) call in
  window_inv call.(pl_now) (λ ip, paired_times ip a.1) a.2.(ls_pairings).
Proof.
  intros Hle Hinv. unfold pair_step. simpl.
  pose proof (pair_counts (pl_now call) (pl_env call) (pl_reading call) (pl_request call)
    {| ls_pairings := ls_pairings st; ls_boot := pl_before call (ls_boot st) |}) as H.
  destruct (handlePair _ _ _ _ _ _ _ _ _) as [r st']. simpl in *.
  assert (window_inv (pl_now call) (λ ip, paired_times ip log) st.(ls_pairings)) as Hnow
    by by eapply window_later.
  destruct H as [[Hlt Hc]|[Hr Hs]].
  - destruct (decide (is_Some (paired_principal r))) as [Hp|Hp].
    + eapply window_recorded; [exact Hnow|exact Hlt| |exact Hc].
      intros ip. rewrite paired_times_snoc, (decide_True _ _ Hp). done.
    + destruct Hnow as [H1 H2]. split; intros ip c; rewrite paired_times_snoc, (decide_False _ _ Hp);
        (assert ((if decide (ip = address call) then [] else []) = @nil Z) as -> by by case_decide);
        rewrite app_nil_r; [|apply H2].
      intros Hw. rewrite Hc, since_app by done. specialize (H1 ip c Hw). lia.
  - eapply window_ext; [|eapply window_later; [reflexivity|exact Hs|exact Hnow]].
    intros ip. simpl. rewrite paired_times_snoc, Hr. rewrite (decide_False (P := is_Some None)) by by intros [].
    case_decide; by rewrite app_nil_r.
Qed.

(** No address gets credentials more than ten times in any minute, whatever else the
    gateway does between the requests and while it reads their bodies. *)
Theorem pairings_limited calls b :
  StronglySorted Z.le (pl_now <$> calls) →
  ∀ ip c, (within RATE_LIMIT_WINDOW_MS c (paired_times ip (pair_run calls b).1)
           <= RATE_LIMIT_MAX_REQUESTS)%nat.
Proof.
  intros Hs.
  assert (∀ last, Forall (λ t, t <= last) (pl_now <$> calls) →
    window_inv last (λ ip, paired_times ip (pair_run calls b).1) (pair_run calls b).2.(ls_pairings)) as H.
  { induction calls as [|call calls IH] using rev_ind; intros last Hl; [apply window_start|].
    rewrite fmap_app in Hs, Hl. apply Forall_app in Hl as [_ Hn].
    apply Forall_cons in Hn as [Hn _]. simpl in Hn. apply sorted_before in Hs as [Hs Hb].
    specialize (IH Hs _ Hb). unfold pair_run in *. rewrite foldl_app.
    destruct (foldl pair_step _ calls) as [log st]. simpl foldl.
    eapply window_later; [exact Hn|reflexivity|]. apply (pair_step_inv (pl_now call)); done. }
  destruct (times_bounded (pl_now <$> calls)) as [last Hl]. intros ip c. apply (H last Hl).
Qed.
End Contained.

(** ** Devices *)

Section Revoking.
Context (trustProxy : bool) (hmac sha256 : string → string) (assistantId : string).
Context (JSON_parse : string → option TokenClaims).

(** A terminal on the machine. *)
Definition from_terminal (method : string) (req : LocalRequest) : Prop :=
  req.(lq_method) = method ∧ on_this_machine req ∧ header_set req.(lq_origin) = false.

Lemma terminal_only_spec method req :
  terminal_only trustProxy method req = None ↔ from_terminal method req.
Proof.
  unfold terminal_only, from_terminal, rejectBrowserOrigin.
  rewrite <- (loopback_guard_spec trustProxy).
  change (getClientIp trustProxy (lq_peer req)) with (clientIp trustProxy req).
  destruct (String.eqb_spec (lq_method req) method); simpl; [|naive_solver].
  case_bool_decide as H1; [naive_solver|].
  destruct (header_set (lq_origin req)); simpl; naive_solver.
Qed.

(** No guard of the edge lets the token through, wherever it comes from. *)
Definition shut_out (token : string) (ts : TokenState) : Prop :=
  ∀ windowMs proxied g env req st claims s,
    st.(edge_tokens) = ts → isPlatformAuthBypassActive env = false →
    presents hmac JSON_parse env req token claims →
    parseSub claims.(sub) = inr s → s.(sub_principalType) = actor →
    (require windowMs proxied hmac sha256 JSON_parse g env req st).1 = rejected 401.

Lemma locked_out_shut_out token ts : locked_out sha256 token ts → shut_out token ts.
Proof.
  intros Hl windowMs proxied g env req st claims s Hts Hb Hp Hs Ha.
  apply (contained_refused windowMs proxied hmac sha256 JSON_parse env req g token claims st Hb Hp).
  right. unfold is_revoked. rewrite Hts. by apply (Hl claims s).
Qed.

(** The request to revoke a device. *)
Definition names_device (hashedDeviceId : string) (req : LocalRequest) : Prop :=
  ∃ fields, req.(lq_body) = body_text (Some (JObj fields))
            ∧ map_get "hashedDeviceId" fields = Some (JStr hashedDeviceId).

Lemma revoke_named now hashedDeviceId req b :
  from_terminal "POST" req → names_device hashedDeviceId req →
  trim hashedDeviceId = hashedDeviceId → truthy hashedDeviceId = true →
  handleRevokeDevice trustProxy now req b
  = (dev_revoked hashedDeviceId,
     {| boot_db := b.(boot_db);
        boot_tokens := token_step hmac sha256 assistantId b.(boot_tokens)
          (RevokeDevice (resolveLocalGuardianPrincipalId b.(boot_db)) hashedDeviceId now);
        boot_integrity := b.(boot_integrity) |}).
Proof.
  intros Ht (fields & Hb & Hf) Htrim Htruthy. unfold handleRevokeDevice.
  rewrite (proj2 (terminal_only_spec "POST" req) Ht), Hb.
  unfold json_fields, trimmed_field, jsonStringField. rewrite Hb, Hf, Htrim, Htruthy. simpl.
  by rewrite Htrim.
Qed.

(** C11: The list and the revocation agree: a device the list shows has a live credential, and
    is revoked by the value it is shown under; the list no longer has it, and whatever is called afterwards, every
    token recorded for it is shut out of the edge. Nobody but a terminal on the machine
    sees the list or changes anything. *)
Theorem listed_device_revocable now listing req b devices dv :
  handleListDevices trustProxy listing b = dev_listed devices → dv ∈ devices →
  names_device dv.(dev_hashedDeviceId) req →
  trim dv.(dev_hashedDeviceId) = dv.(dev_hashedDeviceId) → truthy dv.(dev_hashedDeviceId) = true →
  let principal := resolveLocalGuardianPrincipalId b.(boot_db) in
  let '(response, b') := handleRevokeDevice trustProxy now req b in
  from_terminal "GET" listing
  ∧ (∃ row, row ∈ b.(boot_tokens).(tables).(actorTokens)
            ∧ at_device principal dv.(dev_hashedDeviceId) row = true ∧ row.(at_status) = at_active)
  ∧ (¬ from_terminal "POST" req → b' = b)
  ∧ (from_terminal "POST" req →
     response = dev_revoked dv.(dev_hashedDeviceId)
     ∧ (∃ devices', handleListDevices trustProxy listing b' = dev_listed devices'
                    ∧ dv.(dev_hashedDeviceId) ∉ dev_hashedDeviceId <$> devices')
     ∧ ∀ calls token row,
         findActorByHash (actorTokenRecordHash sha256 token) b.(boot_tokens).(tables) = Some row →
         at_device principal dv.(dev_hashedDeviceId) row = true →
         shut_out token (foldl (token_step hmac sha256 assistantId) b'.(boot_tokens) calls)).
Proof.
  intros Hlist Hdv Hreq Htrim Htruthy principal. unfold handleListDevices in Hlist |- *.
  destruct (terminal_only trustProxy "GET" listing) eqn:Hg; [done|].
  destruct (handleRevokeDevice trustProxy now req b) as [response b'] eqn:Hr. split_and!.
  - by apply terminal_only_spec.
  - injection Hlist as <-. apply list_elem_of_fmap in Hdv as (row & -> & Hrow).
    apply elem_of_lfilter in Hrow as [Hin [Hp Hs]%andb_prop]. exists row. split_and!; [done|..].
    + unfold at_device, principal. simpl. by rewrite Hp, String.eqb_refl.
    + unfold at_in in Hs. by apply mem_true, list_elem_of_singleton in Hs.
  - intros Hn. unfold handleRevokeDevice in Hr.
    destruct (terminal_only trustProxy "POST" req) eqn:Hp; [congruence|].
    by apply terminal_only_spec in Hp.
  - intros Ht. rewrite (revoke_named now _ req b Ht Hreq Htrim Htruthy) in Hr.
    injection Hr as <- <-. split_and!; [done|..].
    + eexists. split; [done|]. apply revoked_not_listed.
    + intros calls token row Hf Hd. apply locked_out_shut_out. by eapply revoked_device_locked_out.
Qed.
End Revoking.

(** ** The browser's session *)


Section Cookies.
Context (encodeURIComponent : string → string) (decodeURIComponent : string → option string).












End Cookies.

Section Renewal.
Context (URL_parse : string → option UrlParts) (encodeURIComponent : string → string)
        (decodeURIComponent : string → option string).
Context (hmac sha256 : string → string) (assistantId : string).
Context (JSON_parse : string → option TokenClaims) (windowMs : Z) (trustProxy : bool).
Notation route := (refresh_route URL_parse encodeURIComponent decodeURIComponent hmac sha256
                     assistantId JSON_parse windowMs trustProxy).

(** Without a cookie and without a token that this gateway signed, nothing changes and the
    caller's address has one failure more. *)
Lemma refresh_route_refuses now src missing req b failures :
  getRemoteWebRefreshCookie decodeURIComponent req.(rr_cookie) = "" →
  (∀ token claims, bearer req.(rr_authorization) = Some token →
     validateEdgeToken hmac JSON_parse token true now ≠ inr claims) →
  route now src missing req b failures
  = (refresh_status 401, b,
     recordFailure windowMs (getClientIp trustProxy req.(rr_peer)) now failures).
Proof.
  intros Hc Ht. unfold refresh_route. rewrite Hc. cbn [truthy].
  destruct (bearer (rr_authorization req)) as [token|]; [|done].
  destruct (validateEdgeToken _ _ _ _ _) as [|claims] eqn:E; [done|].
  by destruct (Ht token claims eq_refl).
Qed.












End Renewal.

(** ** Concrete instances *)

Definition terminal_request (method : string) (fields : list (string * Json)) : LocalRequest :=
  {| lq_method := method; lq_peer := {| peer_address := Some "127.0.0.1"; peer_forwardedFor := None |};
     lq_velay := None; lq_viaEdgeProxy := false; lq_edgeClientIp := None; lq_host := Some "localhost:7830";
     lq_origin := None; lq_userAgent := None; lq_contentType := Some "application/json";
     lq_interfaceId := Some "cli"; lq_body := body_text (Some (JObj fields)) |}.

Definition pair_request : LocalRequest := terminal_request "POST" [("deviceId", JStr "dev")].

Definition local_of (b : BootState) : LocalState := {| ls_pairings := []; ls_boot := b |}.

#[local] Notation paired_cli n boot :=
  (handlePair false sample_hmac toy_sha "self" 10 (quiet_env n 10) (λ b, b) pair_request (local_of boot)).

Lemma pairing_contained_witness :
  on_this_machine pair_request ∧ may_pair pair_request
  ∧ "vellum-principal-1" = resolveLocalGuardianPrincipalId (local_of owned).(ls_boot).(boot_db).
Proof.
  destruct (pairing_contained false sample_hmac toy_sha "self" 10 (quiet_env "2" 10) (λ b, b)
    pair_request (local_of owned) "vellum-principal-1") as (H1 & H2 & H3 & _).
  - vm_compute. reflexivity.
  - split; [exact H1|]. split; [exact H2|exact H3].
Defined.

(** Eleven pairings in a row: the last one is refused. *)
Definition pair_calls : list PairCall :=
  (λ t : nat, {| pl_now := Z.of_nat t; pl_env := quiet_env (pretty (t + 1)%nat) (Z.of_nat t);
                 pl_before := λ b, b; pl_reading := λ b, b; pl_request := pair_request |}) <$> seq 1 11.

Lemma pairings_limited_witness :
  let log := (pair_run false sample_hmac toy_sha "self" pair_calls owned).1 in
  (within RATE_LIMIT_WINDOW_MS 0 (paired_times false "127.0.0.1" log) <= RATE_LIMIT_MAX_REQUESTS)%nat
  ∧ length (paired_times false "127.0.0.1" log) = 10%nat
  ∧ (snd <$> log) !! 10%nat = Some (pair_rate_limited 61).
Proof.
  intros log. split_and!; [|vm_compute; reflexivity..].
  apply (pairings_limited false sample_hmac toy_sha "self" pair_calls owned).
  vm_compute. repeat constructor; discriminate.
Defined.

Definition list_request : LocalRequest := terminal_request "GET" [].
Definition revoke_request (hashedDeviceId : string) : LocalRequest :=
  terminal_request "POST" [("hashedDeviceId", JStr hashedDeviceId)].

Definition paired_owned : BootState := (paired_cli "2" owned).2.(ls_boot).

Lemma listed_device_revocable_witness :
  (handleRevokeDevice false 20 (revoke_request sample_device) paired_owned).1 = dev_revoked sample_device
  ∧ ∃ devices, handleListDevices false list_request paired_owned = dev_listed devices
               ∧ sample_device ∈ dev_hashedDeviceId <$> devices.
Proof.
  destruct (handleListDevices false list_request paired_owned) as [|[|dv ds]|] eqn:E;
    try (exfalso; vm_compute in E; discriminate E).
  assert (dv.(dev_hashedDeviceId) = sample_device) as Hd
    by (vm_compute in E; injection E as <- _; vm_compute; reflexivity).
  pose proof (listed_device_revocable false sample_hmac toy_sha "self" (λ _, None) 20 list_request
    (revoke_request sample_device) paired_owned (dv :: ds) dv E) as H.
  rewrite Hd in H.
  destruct (handleRevokeDevice false 20 (revoke_request sample_device) paired_owned) as [response b'] eqn:Er.
  destruct H as (_ & _ & _ & H).
  - left.
  - eexists. split; reflexivity.
  - vm_compute. reflexivity.
  - vm_compute. reflexivity.
  - split.
    + apply H. repeat split; try reflexivity. eexists. split; reflexivity.
    + exists (dv :: ds). split; [reflexivity|]. rewrite fmap_cons, Hd. left.
Defined.

(** A device that paired before the guardian was bound belongs to the principal [local].
    Once the desktop has bootstrapped a guardian of its own, the device is not listed, a
    revocation by its hash changes nothing, and its token still passes the edge. *)
Lemma fallback_pairing_unlisted :
  let '(response, st) := paired_cli "1" empty_boot in
  let b := (bootstrapGuardian sample_hmac toy_sha "self" (quiet_env "2" 20) "macos" "desk" None
              st.(ls_boot)).2 in
  let '(answer, b') := handleRevokeDevice false 30 (revoke_request sample_device) b in
  paired_principal response = Some "local"
  ∧ resolveLocalGuardianPrincipalId b.(boot_db) = "vellum-principal-2"
  ∧ match handleListDevices false list_request b with
    | dev_listed devices => dev_hashedDeviceId <$> devices = [hashDeviceId toy_sha "desk"]
    | _ => False
    end
  ∧ answer = dev_revoked sample_device ∧ b'.(boot_tokens).(tables) = b.(boot_tokens).(tables)
  ∧ match response with
    | pair_device _ pr =>
        let claims := guardian_access_claims "self" (quiet_env "1" 10) "local" in
        (require 60000 false sample_hmac toy_sha (reader_of claims) guard_edge (plain_env 40)
           (sample_request "203.0.113.7" (Some ("Bearer " +:+ pr.(pair_accessToken))))
           (edge_of b'.(boot_db) b'.(boot_tokens))).1 = admitted
    | _ => False
    end.
Proof. vm_compute. repeat split; reflexivity. Qed.

(** A browser that paired, and the request of its page. *)
Definition browser_call : TokenCall :=
  PairBrowser (sample_source "1") "p" "web" "/a/v1/guardian/refresh" sample_identity 5.

Definition browser_tokens : TokenState :=
  token_step sample_hmac toy_sha "self" unpaired_state browser_call.

Definition signed_in : BootState :=
  {| boot_db := empty_boot.(boot_db); boot_tokens := browser_tokens; boot_integrity := None |}.

Definition page_request (site : string) : RefreshRequest :=
  {| rr_url := {| up_protocol := "http:"; up_host := "a.example"; up_hostname := "a.example";
                  up_origin := "http://a.example"; up_pathname := "/v1/guardian/refresh" |};
     rr_cookie := Some "theme=dark; vellum_web_refresh=refresh1"; rr_fetchSite := Some site;
     rr_origin := None; rr_referer := None; rr_authorization := None;
     rr_peer := {| peer_address := Some "127.0.0.1"; peer_forwardedFor := None |}; rr_body := None |}.



(** From another site's page: nothing changes. *)
Example cross_site_refused :
  handleGuardianRefresh sample_URL (λ s, s) Some sample_hmac toy_sha "self" 10 (sample_source "2") false
    (page_request "cross-site") signed_in = (refresh_status 403, signed_in).
Proof. reflexivity. Qed.
