(* ===== verification/GuardianInit.v ===== *)
(** The route that makes the desktop guardian, and the one that allows it again
    ([handleGuardianInit] and [handleResetBootstrap] of
    [gateway/src/http/routes/channel-verification-session-proxy.ts]).

    A handler is split at its awaits, the body and the bootstrap: what is left of it waits
    in [is_awaiting] while other requests are served. The two files of the security
    directory are part of the state; whether a write or a removal succeeds is an argument,
    and a restart keeps the files and forgets the rest. *)
From S2P Require Import Prelude JsString JsMap CanonicalJson SenderTrust ContactStore.
From S2P Require Import AuthRateLimit EdgeTokens DeviceTokens GuardianBootstrap EdgeAuth.
From S2P Require Import LoopbackGuard RemotePairing LocalRoutes.

(** ** State *)

(** [guardian-init-consumed.json]; a file that does not parse reads as empty. *)
Inductive ConsumedFile := consumed_absent | consumed_corrupt | consumed_list (indices : list nat).

Definition read_consumed (f : ConsumedFile) : list nat :=
  match f with consumed_list indices => indices | _ => [] end.

(** The request, with [x-bootstrap-secret]. *)
Record InitRequest := { iq_request : LocalRequest; iq_secret : option string }.

(** A handler at its await, with the index of its secret. *)
Inductive InitAwait :=
  | init_body (req : InitRequest) (providedIndex : option nat)
  | init_bootstrap (req : InitRequest) (providedIndex : option nat).

Record InitState := {
  is_inFlight : bool;
  is_pending : bool;
  is_secretsInFlight : list nat;
  is_consumed : ConsumedFile;
  is_lock : bool;
  is_boot : BootState;
  is_awaiting : list InitAwait
}.

Definition on_flags (inFlight pending : bool) (secretsInFlight : list nat) (st : InitState) : InitState :=
  {| is_inFlight := inFlight; is_pending := pending; is_secretsInFlight := secretsInFlight;
     is_consumed := st.(is_consumed); is_lock := st.(is_lock); is_boot := st.(is_boot);
     is_awaiting := st.(is_awaiting) |}.

Definition on_files (consumed : ConsumedFile) (lock : bool) (st : InitState) : InitState :=
  {| is_inFlight := st.(is_inFlight); is_pending := st.(is_pending);
     is_secretsInFlight := st.(is_secretsInFlight); is_consumed := consumed; is_lock := lock;
     is_boot := st.(is_boot); is_awaiting := st.(is_awaiting) |}.

Definition on_init_boot (b : BootState) (st : InitState) : InitState :=
  {| is_inFlight := st.(is_inFlight); is_pending := st.(is_pending);
     is_secretsInFlight := st.(is_secretsInFlight); is_consumed := st.(is_consumed);
     is_lock := st.(is_lock); is_boot := b; is_awaiting := st.(is_awaiting) |}.

Definition on_init_awaiting (ks : list InitAwait) (st : InitState) : InitState :=
  {| is_inFlight := st.(is_inFlight); is_pending := st.(is_pending);
     is_secretsInFlight := st.(is_secretsInFlight); is_consumed := st.(is_consumed);
     is_lock := st.(is_lock); is_boot := st.(is_boot); is_awaiting := ks |}.

Inductive InitResponse :=
  | init_status (status : Z)
  | init_done (guardian : ResolvedGuardian) (pr : TokenPair)
  | init_reset                                              (** [{ ok: true }] *)
  | init_waits (k : InitAwait).

(** Which writes and removals of the files succeed. *)
Record FileOutcomes := { fo_consumed : bool; fo_lock : bool }.

Section Init.
Context (GUARDIAN_BOOTSTRAP_SECRET IS_PLATFORM : option string) (trustProxy : bool).
Context (hmac sha256 : string → string) (assistantId : string).

(** ** Who may ask *)

Definition parseBootstrapSecrets : list string :=
  match DeviceTokens.nonempty GUARDIAN_BOOTSTRAP_SECRET with
  | None => []
  | Some raw => List.filter truthy (trim <$> split_char "," raw)
  end.

Definition isManaged : bool :=
  match IS_PLATFORM with
  | Some v => String.eqb (to_lower (trim v)) "true" || String.eqb (trim v) "1"
  | None => false
  end.

Fixpoint index_in (s : string) (xs : list string) : option nat :=
  match xs with
  | [] => None
  | x :: xs => if String.eqb x s then Some 0 else S <$> index_in s xs
  end.

(** [expectedSecrets.indexOf(provided)] *)
Definition providedIndex (req : InitRequest) : option nat :=
  provided ← req.(iq_secret); index_in provided parseBootstrapSecrets.

Definition init_ip (req : InitRequest) : string := clientIp trustProxy req.(iq_request).

(** Bare metal: a forwarded request, or one from another machine. *)
Definition not_local (req : InitRequest) : bool :=
  header_set req.(iq_request).(lq_peer).(peer_forwardedFor)
  || truthy (init_ip req) && negb (isLoopbackAddress (init_ip req)).

(** ** [handleGuardianInit] *)

(** Marked as under way, and waiting for the body. *)
Definition begin_init (req : InitRequest) (index : option nat) (st : InitState)
    : InitResponse * InitState :=
  (init_waits (init_body req index),
   on_flags true true
     (match index with
      | Some i => if mem i st.(is_secretsInFlight) then st.(is_secretsInFlight)
                  else st.(is_secretsInFlight) ++ [i]
      | None => st.(is_secretsInFlight)
      end) st).

Definition init_before_body (req : InitRequest) (st : InitState) : InitResponse * InitState :=
  let forbidden := (init_status 403, st) in
  if header_set req.(iq_request).(lq_velay) then forbidden
  else if req.(iq_request).(lq_viaEdgeProxy) then forbidden
  else
    match parseBootstrapSecrets with
    | [] =>
        if negb isManaged && not_local req then forbidden
        else if st.(is_lock) || st.(is_inFlight) then forbidden
        else begin_init req None st
    | _ =>
        match providedIndex req with
        | None => forbidden
        | Some i =>
            if mem i st.(is_secretsInFlight) then forbidden
            else if mem i (read_consumed st.(is_consumed)) then forbidden
            else if st.(is_lock) then forbidden
            else begin_init req (Some i) st
        end
    end.

(** The [finally]. *)
Definition end_init (inFlight : bool) (index : option nat) (st : InitState) : InitState :=
  on_flags inFlight false
    (match index with
     | Some i => List.filter (λ j, negb (Nat.eqb j i)) st.(is_secretsInFlight)
     | None => st.(is_secretsInFlight)
     end) st.

Definition SUPPORTED_PLATFORMS : list string := ["macos"; "windows"; "cli"; "web"].

(** Platform, device and name of the body; [None]: 400. *)
Definition init_params (req : InitRequest) : option (string * string * option string) :=
  let fields := json_fields req.(iq_request) in
  platform ← trimmed_field fields "platform";
  deviceId ← trimmed_field fields "deviceId";
  if mem platform SUPPORTED_PLATFORMS
  then Some (platform, deviceId, trimmed_field fields "clientReportedName") else None.

Definition init_after_body (req : InitRequest) (index : option nat) (st : InitState)
    : InitResponse * InitState :=
  match init_params req with
  | None => (init_status 400, end_init false index st)
  | Some _ => (init_waits (init_bootstrap req index), st)
  end.

(** The consumed secret and the lock. *)
Definition record_consumption (written : FileOutcomes) (index : option nat) (st : InitState)
    : InitState :=
  match parseBootstrapSecrets, index with
  | _ :: _, Some i =>
      let consumed := read_consumed st.(is_consumed) ++ [i] in
      let file := if written.(fo_consumed) then consumed_list consumed else st.(is_consumed) in
      let allConsumed := forallb (λ j, mem j consumed) (seq 0 (length parseBootstrapSecrets)) in
      on_files file (st.(is_lock) || allConsumed && written.(fo_lock)) st
  | _, _ => on_files st.(is_consumed) (st.(is_lock) || written.(fo_lock)) st
  end.

Definition init_after_bootstrap (env : BootEnv) (written : FileOutcomes) (req : InitRequest)
    (index : option nat) (st : InitState) : InitResponse * InitState :=
  match init_params req with
  | None => (init_status 400, end_init false index st)
  | Some (platform, deviceId, name) =>
      match bootstrapGuardian hmac sha256 assistantId env platform deviceId name st.(is_boot) with
      | (inl _, b) => (init_status 500, end_init false index (on_init_boot b st))
      | (inr (guardian, pr), b) =>
          let st := record_consumption written index (on_init_boot b st) in
          (init_done guardian pr, end_init st.(is_inFlight) index st)
      end
  end.

(** ** [handleResetBootstrap] *)

Definition handleResetBootstrap (removed : FileOutcomes) (req : InitRequest) (st : InitState)
    : InitResponse * InitState :=
  if header_set req.(iq_request).(lq_velay) then (init_status 403, st)
  else if truthy (init_ip req) && negb (isLoopbackAddress (init_ip req)) then (init_status 403, st)
  else if match parseBootstrapSecrets with [] => false | _ => bool_decide (providedIndex req = None) end
  then (init_status 403, st)
  else if st.(is_pending) then (init_status 409, st)
  else if st.(is_lock) && negb removed.(fo_lock) then (init_status 500, st)
  else
    let consumed_stays := match st.(is_consumed) with
                          | consumed_absent => false
                          | _ => negb removed.(fo_consumed)
                          end in
    if consumed_stays then (init_status 500, on_files st.(is_consumed) false st)
    else (init_reset, on_flags false st.(is_pending) st.(is_secretsInFlight)
                        (on_files consumed_absent false st)).

(** ** The event loop *)

Inductive InitCall :=
  | CallInit (req : InitRequest)
  | CallReset (removed : FileOutcomes) (req : InitRequest)
  | InitResume (i : nat) (env : BootEnv) (written : FileOutcomes)   (** the [i]-th that waits *)
  | InitElsewhere (f : BootState → BootState)
  | InitRestart.

Record InitServed := {
  iv_call : InitCall;
  iv_resumed : option InitAwait;
  iv_response : InitResponse
}.

Definition restarted (st : InitState) : InitState :=
  on_init_awaiting [] (on_flags false false [] st).

Definition init_step (st : InitState) (call : InitCall) : option InitServed * InitState :=
  let run (resumed : option InitAwait) (r : InitResponse * InitState) :=
    (Some {| iv_call := call; iv_resumed := resumed; iv_response := r.1 |},
     match r.1 with init_waits k => on_init_awaiting (r.2.(is_awaiting) ++ [k]) r.2 | _ => r.2 end) in
  match call with
  | CallInit req => run None (init_before_body req st)
  | CallReset removed req => run None (handleResetBootstrap removed req st)
  | InitResume i env written =>
      match st.(is_awaiting) !! i with
      | None => (None, st)
      | Some k =>
          let st := on_init_awaiting (delete i st.(is_awaiting)) st in
          run (Some k) (match k with
                        | init_body req index => init_after_body req index st
                        | init_bootstrap req index => init_after_bootstrap env written req index st
                        end)
      end
  | InitElsewhere f => (None, on_init_boot (f st.(is_boot)) st)
  | InitRestart => (None, restarted st)
  end.

Definition init_run (st : InitState) (calls : list InitCall) : list InitServed * InitState :=
  foldl (λ a call, let '(served, st) := init_step a.2 call in (a.1 ++ option_list served, st))
    ([], st) calls.

Lemma init_run_snoc st calls call :
  init_run st (calls ++ [call])
  = let '(served, st') := init_step (init_run st calls).2 call in
    ((init_run st calls).1 ++ option_list served, st').
Proof. unfold init_run. by rewrite foldl_app. Qed.

(** ** One bootstrap for each right to one *)

(** The request had the right to a bootstrap: not through the tunnel or the edge, and with
    one of the secrets, or, where there are none, from this machine unless the platform
    vouches for its callers. *)
Definition entitled (req : InitRequest) (index : option nat) : Prop :=
  header_set req.(iq_request).(lq_velay) = false
  ∧ req.(iq_request).(lq_viaEdgeProxy) = false
  ∧ index = providedIndex req
  ∧ match index with
    | Some i => ∃ secret, req.(iq_secret) = Some secret ∧ parseBootstrapSecrets !! i = Some secret
    | None => parseBootstrapSecrets = [] ∧ (isManaged = true ∨ not_local req = false)
    end.

Definition await_key (k : InitAwait) : option nat :=
  match k with init_body _ index | init_bootstrap _ index => index end.
Definition await_request (k : InitAwait) : InitRequest :=
  match k with init_body req _ | init_bootstrap req _ => req end.

(** The bootstrap that an entry of the log hands out. *)
Definition handed_out (e : InitServed) : option InitAwait :=
  match e.(iv_response) with init_done _ _ => e.(iv_resumed) | _ => None end.

Definition hands_out (key : option nat) (e : InitServed) : bool :=
  match handed_out e with Some k => bool_decide (await_key k = key) | None => false end.

(** How often a right was used since the last reset. *)
Definition uses (key : option nat) : list InitServed → nat :=
  foldl (λ n e, match e.(iv_response) with
                | init_reset => 0
                | _ => if hands_out key e then S n else n
                end) 0.

Lemma uses_snoc key log e :
  uses key (log ++ [e])
  = match e.(iv_response) with
    | init_reset => 0
    | _ => if hands_out key e then S (uses key log) else uses key log
    end.
Proof. unfold uses. by rewrite foldl_app. Qed.

(** The handlers that hold a right. *)
Definition holds (key : option nat) (k : InitAwait) : bool := bool_decide (await_key k = key).

(** Every file operation works. *)
Definition files_work (call : InitCall) : Prop :=
  match call with
  | CallReset outcomes _ | InitResume _ _ outcomes =>
      outcomes.(fo_consumed) = true ∧ outcomes.(fo_lock) = true
  | _ => True
  end.

Record init_inv (log : list InitServed) (st : InitState) : Prop := {
  ii_entitled : ∀ k, k ∈ st.(is_awaiting) → entitled (await_request k) (await_key k);
  ii_once : ∀ key, uses key log + tally (holds key) st.(is_awaiting) <= 1;
  ii_secret_held : ∀ i k, k ∈ st.(is_awaiting) → await_key k = Some i → i ∈ st.(is_secretsInFlight);
  ii_secret_used : ∀ i, uses (Some i) log ≠ 0 → i ∈ read_consumed st.(is_consumed);
  ii_bare_held : ∀ k, k ∈ st.(is_awaiting) → await_key k = None →
                 st.(is_inFlight) = true ∧ st.(is_pending) = true;
  ii_bare_used : uses None log ≠ 0 → st.(is_lock) = true
}.

Lemma index_in_Some s xs i : index_in s xs = Some i → xs !! i = Some s.
Proof.
  revert i. induction xs as [|x xs IH]; [done|]. intros i. simpl.
  destruct (String.eqb_spec x s) as [->|]; [by intros [= <-]|].
  destruct (index_in s xs); [|done]. intros [= <-]. simpl. by apply IH.
Qed.

Lemma providedIndex_Some req i :
  providedIndex req = Some i → ∃ secret, req.(iq_secret) = Some secret ∧ parseBootstrapSecrets !! i = Some secret.
Proof.
  unfold providedIndex. destruct (iq_secret req) as [s|]; [|done]. simpl. intros H%index_in_Some. eauto.
Qed.

(** *** The steps keep the invariant *)

Lemma uses_quiet key log e :
  e.(iv_response) ≠ init_reset → handed_out e = None → uses key (log ++ [e]) = uses key log.
Proof. intros Hr Hh. rewrite uses_snoc. unfold hands_out. rewrite Hh. by destruct (iv_response e). Qed.

Lemma init_quiet log st e :
  init_inv log st → e.(iv_response) ≠ init_reset → handed_out e = None → init_inv (log ++ [e]) st.
Proof.
  intros [H1 H2 H3 H4 H5 H6] Hr Hh.
  split; try setoid_rewrite (uses_quiet _ _ _ Hr Hh); done.
Qed.

Lemma one_holder log st i k k' :
  init_inv log st → st.(is_awaiting) !! i = Some k → k' ∈ delete i st.(is_awaiting) →
  await_key k' ≠ await_key k.
Proof.
  intros Hinv Hi Hk' E. pose proof (ii_once _ _ Hinv (await_key k)) as H.
  rewrite (tally_delete _ _ _ _ Hi), tally_one in H. unfold holds in H at 1.
  rewrite bool_decide_true in H by done.
  assert (tally (holds (await_key k)) (delete i st.(is_awaiting)) ≠ 0); [|lia].
  intros Hz. apply (proj1 (tally_zero _ _) Hz) in Hk'. unfold holds in Hk'.
  by apply bool_decide_eq_false in Hk'.
Qed.

Lemma mode_of key req : entitled req key → key = None ↔ parseBootstrapSecrets = [].
Proof.
  intros (_ & _ & _ & H). destruct key as [i|]; [|tauto]. destruct H as (s & _ & Hs).
  split; [done|]. intros E. by rewrite E in Hs.
Qed.

Lemma no_other_bare log st i k k' :
  init_inv log st → st.(is_awaiting) !! i = Some k → k' ∈ delete i st.(is_awaiting) →
  await_key k' ≠ None.
Proof.
  intros Hinv Hi Hk' E. pose proof (one_holder _ _ _ _ _ Hinv Hi Hk') as Hne.
  apply list_elem_of_delete_inv in Hk'.
  pose proof (ii_entitled _ _ Hinv _ Hk') as He'. apply mode_of in He' as [He' _].
  apply list_elem_of_lookup_2, (ii_entitled _ _ Hinv), mode_of in Hi as [_ Hm]. rewrite Hm in Hne by by apply He'.
  done.
Qed.

(** A handler that ends: what it held is free again, or was used and is recorded. *)
Lemma init_ends log st i k e st' :
  init_inv log st → st.(is_awaiting) !! i = Some k → e.(iv_response) ≠ init_reset →
  (handed_out e = None
   ∨ handed_out e = Some k ∧ (∀ j, await_key k = Some j → j ∈ read_consumed st'.(is_consumed))
     ∧ (await_key k = None → st'.(is_lock) = true)) →
  st'.(is_awaiting) = delete i st.(is_awaiting) →
  (∀ j, j ∈ st.(is_secretsInFlight) → await_key k ≠ Some j → j ∈ st'.(is_secretsInFlight)) →
  (∀ j, j ∈ read_consumed st.(is_consumed) → j ∈ read_consumed st'.(is_consumed)) →
  (st.(is_lock) = true → st'.(is_lock) = true) →
  init_inv (log ++ [e]) st'.
Proof.
  intros Hinv Hi Hr Hh Ha Hs Hc Hl.
  assert (∀ key, uses key (log ++ [e]) ≠ 0 → uses key log ≠ 0 ∨ handed_out e = Some k ∧ await_key k = key) as Hu.
  { intros key. rewrite uses_snoc. unfold hands_out.
    destruct Hh as [-> | (-> & _)]; [destruct (iv_response e); tauto|].
    case_bool_decide; destruct (iv_response e); tauto. }
  split; rewrite ?Ha.
  - intros k' Hk'. apply (ii_entitled _ _ Hinv). by eapply list_elem_of_delete_inv.
  - intros key. pose proof (ii_once _ _ Hinv key) as H.
    rewrite (tally_delete _ _ _ _ Hi), tally_one in H. unfold holds in H at 1. rewrite uses_snoc. unfold hands_out.
    destruct Hh as [-> | (-> & _)]; case_bool_decide; destruct (iv_response e); try done; lia.
  - intros j k' Hk' Hj. apply Hs; [|intros E; by apply (one_holder _ _ _ _ _ Hinv Hi Hk'); rewrite E].
    eapply (ii_secret_held _ _ Hinv); [by eapply list_elem_of_delete_inv|done].
  - intros j [?|(E & Hk)]%Hu; [by apply Hc, (ii_secret_used _ _ Hinv)|].
    destruct Hh as [Hh|(_ & Hh & _)]; [congruence|by apply Hh].
  - intros k' Hk' E. by destruct (no_other_bare _ _ _ _ _ Hinv Hi Hk').
  - intros [?|(E & Hk)]%Hu; [by apply Hl, (ii_bare_used _ _ Hinv)|].
    destruct Hh as [Hh|(_ & _ & Hh)]; [congruence|by apply Hh].
Qed.

(** A handler that goes on to its next await. *)
Lemma init_moves log st i k k' e :
  init_inv log st → st.(is_awaiting) !! i = Some k →
  await_key k' = await_key k → await_request k' = await_request k →
  e.(iv_response) = init_waits k' →
  init_inv (log ++ [e]) (on_init_awaiting (delete i st.(is_awaiting) ++ [k']) st).
Proof.
  intros Hinv Hi Hk Hq Hr. assert (handed_out e = None) as Hh by (unfold handed_out; by rewrite Hr).
  apply init_quiet; [|by rewrite Hr|done]. destruct Hinv as [H1 H2 H3 H4 H5 H6].
  assert (∀ x, x ∈ delete i st.(is_awaiting) ++ [k'] →
    ∃ y, y ∈ st.(is_awaiting) ∧ await_key x = await_key y ∧ await_request x = await_request y) as Hx.
  { intros x [Hx| ->%list_elem_of_singleton]%elem_of_app.
    - exists x. split; [by eapply list_elem_of_delete_inv|done].
    - exists k. split; [by eapply list_elem_of_lookup_2|done]. }
  split; simpl; try done.
  - intros x (y & Hy & -> & ->)%Hx. by apply H1.
  - intros key. specialize (H2 key). rewrite (tally_delete _ _ _ _ Hi) in H2. rewrite tally_app, !tally_one in *.
    unfold holds in *. rewrite Hk. lia.
  - intros j x (y & Hy & -> & _)%Hx. by eapply H3.
  - intros x (y & Hy & -> & _)%Hx. by eapply H5.
Qed.

(** A handler that starts, with a right that nobody used or holds. *)
Lemma init_starts log st req index e :
  init_inv log st → entitled req index → uses index log = 0 →
  (∀ k, k ∈ st.(is_awaiting) → await_key k ≠ index) →
  e.(iv_response) = init_waits (init_body req index) →
  let st' := (begin_init req index st).2 in
  init_inv (log ++ [e]) (on_init_awaiting (st.(is_awaiting) ++ [init_body req index]) st').
Proof.
  intros Hinv He Hu Hfree Hr st'. assert (handed_out e = None) as Hh by (unfold handed_out; by rewrite Hr).
  apply init_quiet; [|by rewrite Hr|done]. destruct Hinv as [H1 H2 H3 H4 H5 H6].
  assert (∀ j, j ∈ st.(is_secretsInFlight) → j ∈ st'.(is_secretsInFlight)) as Hs.
  { intros j Hj. simpl. destruct index; [|done]. destruct (mem _ _); [done|]. apply elem_of_app. by left. }
  split; simpl; try done.
  - intros k [Hk| ->%list_elem_of_singleton]%elem_of_app; [by apply H1|done].
  - intros key. rewrite tally_app, tally_one. unfold holds at 2. simpl. case_bool_decide as E; [|specialize (H2 key); lia].
    subst key. rewrite Hu. enough (tally (holds index) st.(is_awaiting) = 0) by lia.
    apply tally_zero. intros k Hk. apply bool_decide_eq_false. by apply Hfree.
  - intros j k [Hk| ->%list_elem_of_singleton]%elem_of_app; [intros; by eapply Hs, H3|].
    simpl. intros ->. destruct (mem j _) eqn:Em; [by apply mem_true|]. apply elem_of_app. right. by left.
Qed.

Lemma before_body_spec req st :
  (∃ status, init_before_body req st = (init_status status, st))
  ∨ ∃ index, init_before_body req st = begin_init req index st ∧ entitled req index
      ∧ match index with
        | Some i => i ∉ st.(is_secretsInFlight) ∧ i ∉ read_consumed st.(is_consumed)
        | None => st.(is_lock) = false ∧ st.(is_inFlight) = false
        end.
Proof.
  unfold init_before_body, entitled. destruct (header_set _); [left; by eexists|].
  destruct (lq_viaEdgeProxy _); [left; by eexists|].
  destruct parseBootstrapSecrets as [|s ss] eqn:Es.
  - destruct (negb isManaged && not_local req) eqn:El; [left; by eexists|].
    destruct (is_lock st || is_inFlight st) eqn:Ef; [left; by eexists|right; exists None].
    apply orb_false_elim in Ef as [? ?]. unfold providedIndex. rewrite Es.
    split_and!; try done; [by destruct (iq_secret req)|].
    destruct isManaged; [by left|by right].
  - destruct (providedIndex req) as [i|] eqn:Ei; [|left; by eexists].
    destruct (mem i (is_secretsInFlight st)) eqn:E1; [left; by eexists|].
    destruct (mem i (read_consumed _)) eqn:E2; [left; by eexists|].
    destruct (is_lock st); [left; by eexists|right; exists (Some i)].
    apply mem_false in E1, E2. split_and!; try done. rewrite <- Es. by apply providedIndex_Some.
Qed.

Lemma init_begun log st req :
  init_inv log st →
  let r := init_before_body req st in
  let e := {| iv_call := CallInit req; iv_resumed := None; iv_response := r.1 |} in
  init_inv (log ++ [e])
    (match r.1 with init_waits k => on_init_awaiting (r.2.(is_awaiting) ++ [k]) r.2 | _ => r.2 end).
Proof.
  intros Hinv. cbv zeta.
  destruct (before_body_spec req st) as [[status ->]|(index & -> & He & Hfree)]; [by apply init_quiet|].
  apply (init_starts log st req index); [done|done| | |done].
  - destruct index as [i|]; destruct Hfree as [Hf1 Hf2].
    + destruct (decide (uses (Some i) log = 0)) as [|Hu]; [done|]. by apply (ii_secret_used _ _ Hinv) in Hu.
    + destruct (decide (uses None log = 0)) as [|Hu]; [done|]. apply (ii_bare_used _ _ Hinv) in Hu. congruence.
  - intros k Hk E. destruct index as [i|]; destruct Hfree as [Hf1 Hf2].
    + by apply Hf1, (ii_secret_held _ _ Hinv i k).
    + apply (ii_bare_held _ _ Hinv) in E as [? _]; [congruence|done].
Qed.

Lemma init_resets log st removed req :
  init_inv log st → removed.(fo_consumed) = true ∧ removed.(fo_lock) = true →
  let r := handleResetBootstrap removed req st in
  let e := {| iv_call := CallReset removed req; iv_resumed := None; iv_response := r.1 |} in
  init_inv (log ++ [e])
    (match r.1 with init_waits k => on_init_awaiting (r.2.(is_awaiting) ++ [k]) r.2 | _ => r.2 end).
Proof.
  intros Hinv [Hf1 Hf2]. cbv zeta. unfold handleResetBootstrap.
  destruct (header_set _); [by apply init_quiet|].
  destruct (truthy _ && _); [by apply init_quiet|].
  match goal with |- context [if match ?x with [] => false | _ => _ end then _ else _] =>
    destruct (match x with [] => false | _ => bool_decide (providedIndex req = None) end) end;
    [by apply init_quiet|].
  destruct (is_pending st) eqn:Ep; [by apply init_quiet|].
  rewrite Hf1, Hf2, andb_false_r. simpl.
  assert (match is_consumed st with consumed_absent => false | _ => false end = false) as ->
    by by destruct (is_consumed st).
  simpl. assert (∀ key, uses key (log ++ [{| iv_call := CallReset removed req; iv_resumed := None;
    iv_response := init_reset |}]) = 0) as Hu by (intros key; by rewrite uses_snoc).
  destruct Hinv as [H1 H2 H3 H4 H5 H6]. split; simpl; try setoid_rewrite Hu; try done.
  - intros key. specialize (H2 key). lia.
  - intros k Hk E. destruct (H5 k Hk E). congruence.
Qed.

(** What an ending handler leaves. *)
Lemma end_init_holds inFlight k st j :
  j ∈ st.(is_secretsInFlight) → await_key k ≠ Some j →
  j ∈ (end_init inFlight (await_key k) st).(is_secretsInFlight).
Proof.
  intros Hj Hne. simpl. destruct (await_key k) as [i|]; [|done]. apply elem_of_lfilter. split; [done|].
  apply negb_true_iff, Nat.eqb_neq. congruence.
Qed.

Lemma record_consumption_spec written key st :
  written.(fo_consumed) = true → written.(fo_lock) = true →
  (key = None ↔ parseBootstrapSecrets = []) →
  let st' := record_consumption written key st in
  st'.(is_awaiting) = st.(is_awaiting) ∧ st'.(is_secretsInFlight) = st.(is_secretsInFlight)
  ∧ (∀ j, j ∈ read_consumed st.(is_consumed) → j ∈ read_consumed st'.(is_consumed))
  ∧ (st.(is_lock) = true → st'.(is_lock) = true)
  ∧ (∀ j, key = Some j → j ∈ read_consumed st'.(is_consumed))
  ∧ (key = None → st'.(is_lock) = true).
Proof.
  intros Hw1 Hw2 Hm. unfold record_consumption. rewrite Hw1, Hw2.
  destruct parseBootstrapSecrets as [|s ss], key as [i|].
  - by destruct Hm as [_ Hm]; discriminate Hm.
  - simpl. rewrite orb_true_r. by split_and!.
  - cbn -[forallb]. split_and!; try done.
    + intros j Hj. apply elem_of_app. by left.
    + by intros ->.
    + intros j [= <-]. apply elem_of_app. right. by left.
  - by destruct Hm as [Hm _]; discriminate Hm.
Qed.

Lemma init_bootstrapped log st i req index env written :
  init_inv log st → st.(is_awaiting) !! i = Some (init_bootstrap req index) →
  written.(fo_consumed) = true → written.(fo_lock) = true →
  let r := init_after_bootstrap env written req index (on_init_awaiting (delete i st.(is_awaiting)) st) in
  let e := {| iv_call := InitResume i env written; iv_resumed := Some (init_bootstrap req index);
              iv_response := r.1 |} in
  init_inv (log ++ [e])
    (match r.1 with init_waits k => on_init_awaiting (r.2.(is_awaiting) ++ [k]) r.2 | _ => r.2 end).
Proof.
  intros Hinv Hi Hw1 Hw2. cbv zeta. set (st0 := on_init_awaiting _ st).
  pose proof (mode_of _ _ (ii_entitled _ _ Hinv _ (list_elem_of_lookup_2 _ _ _ Hi))) as Hm. simpl in Hm.
  assert (∀ status b inFlight, init_inv (log ++ [{| iv_call := InitResume i env written;
    iv_resumed := Some (init_bootstrap req index); iv_response := init_status status |}])
    (end_init inFlight index (on_init_boot b st0))) as Hfail.
  { intros status b inFlight. eapply (init_ends log st i (init_bootstrap req index)); try done; [by left|].
    intros j Hj Hne. by apply (end_init_holds inFlight (init_bootstrap req index) (on_init_boot b st0)). }
  unfold init_after_bootstrap.
  destruct (init_params req) as [[[platform deviceId] name]|]; [|exact (Hfail 400%Z st.(is_boot) false)].
  destruct (bootstrapGuardian _ _ _ _ _ _ _ _) as [[err|[guardian pr]] b]; [apply Hfail|].
  cbn [fst snd].
  destruct (record_consumption_spec written index (on_init_boot b st0) Hw1 Hw2 Hm) as (Ha & Hs & Hc & Hl & Hu & Hb).
  eapply (init_ends log st i (init_bootstrap req index)); try done.
  - right. split_and!; [done|apply Hu|apply Hb].
  - intros j Hj Hne. apply (end_init_holds _ (init_bootstrap req index)); [|done]. by rewrite Hs.
Qed.

Lemma init_step_inv log st call :
  init_inv log st → files_work call →
  let '(served, st') := init_step st call in
  init_inv (log ++ option_list served) st'.
Proof.
  intros Hinv Hf. destruct call as [req|removed req|i env written|f|]; simpl.
  - by apply init_begun.
  - by apply init_resets.
  - destruct (is_awaiting st !! i) as [k|] eqn:Hi; [|by rewrite app_nil_r].
    destruct Hf as [Hw1 Hw2]. destruct k as [req index|req index]; [|by apply init_bootstrapped].
    unfold init_after_body. destruct (init_params req); simpl.
    + apply (init_moves log st i (init_body req index) (init_bootstrap req index)); done.
    + eapply (init_ends log st i (init_body req index)); try done; [by left|].
      intros j Hj Hne. by apply (end_init_holds false (init_body req index) st).
  - rewrite app_nil_r. by destruct Hinv.
  - rewrite app_nil_r. destruct Hinv as [H1 H2 H3 H4 H5 H6].
    split; simpl; try done; try (by intros ? ?%elem_of_nil); try (by intros ? ? ?%elem_of_nil).
    intros key. specialize (H2 key). unfold tally. simpl. lia.
Qed.

(** The gateway starts with whatever the files say. *)
Definition init_start (consumed : ConsumedFile) (lock : bool) (b : BootState) : InitState :=
  {| is_inFlight := false; is_pending := false; is_secretsInFlight := []; is_consumed := consumed;
     is_lock := lock; is_boot := b; is_awaiting := [] |}.

Lemma init_run_inv consumed lock b calls :
  Forall files_work calls →
  let '(log, st) := init_run (init_start consumed lock b) calls in init_inv log st.
Proof.
  intros Hf. induction calls as [|call calls IH] using rev_ind.
  - split; simpl; try done; try (by intros ? ?%elem_of_nil); try (by intros ? ? ?%elem_of_nil).
    intros key. unfold tally. simpl. lia.
  - apply Forall_app in Hf as [Hf [Hc _]%Forall_cons]. specialize (IH Hf). rewrite init_run_snoc.
    destruct (init_run _ calls) as [log st]. cbn [fst snd]. pose proof (init_step_inv log st call IH Hc).
    by destruct (init_step st call).
Qed.

(** C12: However init, reset and restarts interleave while handlers wait for bodies and
    bootstraps, and as long as the two files can be written and removed: guardian
    credentials are handed out only to a request that was entitled to them, and every
    secret, or the machine itself where there are no secrets, gets them at most once
    until a reset. *)
Theorem guardian_init_single_use consumed lock b calls :
  Forall files_work calls →
  let log := (init_run (init_start consumed lock b) calls).1 in
  (∀ key, uses key log <= 1)
  ∧ ∀ e k, e ∈ log → handed_out e = Some k → entitled (await_request k) (await_key k).
Proof.
  intros Hf log. split.
  - intros key. pose proof (init_run_inv consumed lock b calls Hf) as H. unfold log.
    destruct (init_run _ calls) as [lg st]. pose proof (ii_once _ _ H key). simpl. lia.
  - subst log. induction calls as [|call calls IH] using rev_ind; [by intros e k ?%elem_of_nil|].
    apply Forall_app in Hf as [Hf _]. specialize (IH Hf). rewrite init_run_snoc.
    pose proof (init_run_inv consumed lock b calls Hf) as Hinv.
    destruct (init_run _ calls) as [log st]. cbn [fst snd] in *.
    destruct (init_step st call) as [served st'] eqn:Es. intros e k [He|He]%elem_of_app Hh; [by eapply IH|].
    destruct served as [e'|]; [|by apply elem_of_nil in He]. apply list_elem_of_singleton in He as ->.
    unfold handed_out in Hh. destruct (iv_response e'); try done.
    destruct call as [req|removed req|i env written|f|]; simpl in Es; try done;
      try (by injection Es as <- _; simpl in Hh).
    destruct (is_awaiting st !! i) as [k'|] eqn:Hi; [|done]. injection Es as <- _. simpl in Hh.
    injection Hh as ->. by apply (ii_entitled _ _ Hinv), (list_elem_of_lookup_2 _ i).
Qed.

(** ** Who is entitled gets in *)

(** Nobody used or holds the right. *)
Definition available (key : option nat) (st : InitState) : Prop :=
  st.(is_lock) = false
  ∧ match key with
    | Some i => i ∉ st.(is_secretsInFlight) ∧ i ∉ read_consumed st.(is_consumed)
    | None => st.(is_inFlight) = false
    end.

Lemma entitled_begins req key st :
  entitled req key → available key st → init_before_body req st = begin_init req key st.
Proof.
  intros (Hv & He & Hk & Hm) [Hl Ha]. unfold init_before_body. rewrite Hv, He, Hl, <- Hk.
  destruct key as [i|].
  - destruct Hm as (secret & _ & Hs), Ha as [H1 H2].
    destruct parseBootstrapSecrets; [done|]. by rewrite !(proj2 (mem_false _ _)).
  - destruct Hm as [-> Hm]. rewrite Ha. destruct isManaged, (not_local req); simpl; try done.
    by destruct Hm.
Qed.

(** C13: The route works: whoever is entitled, while nobody used or holds the right, is given
    credentials of the guardian, and their access token passes every guard of the edge
    whose scope its profile has, from any address, for the thirty days it lives. *)
Theorem guardian_init_signs_in JSON_parse st req key env written platform deviceId name :
  st.(is_awaiting) = [] → entitled req key → available key st →
  init_params req = Some (platform, deviceId, name) →
  let principal := bootstrap_principal env st.(is_boot) in
  let claims := guardian_access_claims assistantId env principal in
  bootstrappable hmac sha256 assistantId env deviceId st.(is_boot) → reads_claims JSON_parse claims →
  no_char ":" assistantId → truthy assistantId = true → no_char ":" principal →
  let '(log, st') := init_run st [CallInit req; InitResume 0 env written; InitResume 0 env written] in
  ∃ r pr, iv_response <$> last log = Some (init_done r pr)
    ∧ ∀ windowMs proxied g eenv ereq est,
        isPlatformAuthBypassActive eenv = false → eenv.(ee_guardianThrows) = false →
        (∀ scope, g = guard_scoped scope → ∃ s, scope = Some s ∧ s ∈ PROFILE_SCOPES actor_client_v1) →
        est.(edge_db) = st'.(is_boot).(boot_db) → est.(edge_tokens) = st'.(is_boot).(boot_tokens) →
        ereq.(er_authorization) = Some ("Bearer " +:+ pr.(pair_accessToken)) →
        (eenv.(ee_now) / 1000 < env.(be_now) / 1000 + ACCESS_TOKEN_TTL_SECONDS)%Z →
        (require windowMs proxied hmac sha256 JSON_parse g eenv ereq est).1 = admitted.
Proof.
  intros Hw He Ha Hparams principal claims Hb Hread Hac Hat Hpc.
  destruct (bootstrap_outcome hmac sha256 assistantId env platform deviceId name st.(is_boot) Hb)
    as (r & pr & b & row & E & Hf & Hp & _ & _ & Hpa & Hfa & Hs & _).
  set (st1 := on_init_awaiting [init_body req key] (begin_init req key st).2).
  set (st2 := on_init_awaiting [init_bootstrap req key] st1).
  assert (init_step st (CallInit req)
    = (Some {| iv_call := CallInit req; iv_resumed := None; iv_response := init_waits (init_body req key) |}, st1))
    as S1 by (simpl; rewrite (entitled_begins req key st He Ha); simpl; by rewrite Hw).
  assert (init_step st1 (InitResume 0 env written)
    = (Some {| iv_call := InitResume 0 env written; iv_resumed := Some (init_body req key);
               iv_response := init_waits (init_bootstrap req key) |}, st2))
    as S2 by (simpl; unfold init_after_body; by rewrite Hparams).
  assert (∃ st3, init_step st2 (InitResume 0 env written)
    = (Some {| iv_call := InitResume 0 env written; iv_resumed := Some (init_bootstrap req key);
               iv_response := init_done r pr |}, st3) ∧ st3.(is_boot) = b) as (st3 & S3 & Hb3).
  { simpl. unfold init_after_bootstrap. rewrite Hparams. simpl. rewrite E. eexists. split; [done|].
    simpl. unfold record_consumption. by destruct parseBootstrapSecrets, key. }
  unfold init_run. cbn [foldl fst snd]. rewrite S1. cbn [fst snd]. rewrite S2. cbn [fst snd]. rewrite S3.
  exists r, pr. split; [done|]. rewrite Hb3.
  intros windowMs proxied g eenv ereq est Hd Hth Hscope Hdb Htk Hauth Hlive.
  eapply (recorded_guardian_admitted windowMs proxied hmac sha256 assistantId JSON_parse env principal);
    try done. by rewrite Hauth, Hpa.
Qed.
End Init.

(** ** Concrete instances *)

Definition init_request (viaEdgeProxy : bool) (secret : option string) : InitRequest :=
  {| iq_request :=
       {| lq_method := "POST"; lq_peer := {| peer_address := Some "127.0.0.1"; peer_forwardedFor := None |};
          lq_velay := None; lq_viaEdgeProxy := viaEdgeProxy; lq_edgeClientIp := None;
          lq_host := Some "localhost:7830"; lq_origin := None; lq_userAgent := None;
          lq_contentType := Some "application/json"; lq_interfaceId := None;
          lq_body := body_text (Some (JObj [("platform", JStr "macos"); ("deviceId", JStr "dev")])) |};
     iq_secret := secret |}.

Definition works : FileOutcomes := {| fo_consumed := true; fo_lock := true |}.

#[local] Notation bare := (init_run None None false sample_hmac toy_sha "self").
#[local] Notation docker := (init_run (Some "s1, s2") None false sample_hmac toy_sha "self").
#[local] Notation started := (init_start consumed_absent false empty_boot).

Definition local_init : InitRequest := init_request false None.

(** Two at once on bare metal, a third after a restart, a fourth after a reset. *)
Definition bare_calls : list InitCall :=
  [CallInit local_init; CallInit local_init; InitResume 0 (quiet_env "1" 5) works;
   InitResume 0 (quiet_env "1" 5) works; InitRestart; CallInit local_init; CallReset works local_init;
   CallInit local_init; InitResume 0 (quiet_env "2" 9) works; InitResume 0 (quiet_env "2" 9) works].

Example bare_responses :
  match iv_response <$> (bare started bare_calls).1 with
  | [init_waits _; init_status 403; init_waits _; init_done _ _; init_status 403; init_reset;
     init_waits _; init_waits _; init_done _ _] => True
  | _ => False
  end.
Proof. vm_compute. exact I. Qed.

Lemma guardian_init_single_use_witness :
  (∀ key, uses key (bare started bare_calls).1 <= 1)
  ∧ ∀ e k, e ∈ (bare started bare_calls).1 → handed_out e = Some k →
           entitled None None false (await_request k) (await_key k).
Proof.
  apply (guardian_init_single_use None None false sample_hmac toy_sha "self" consumed_absent false empty_boot
    bare_calls).
  repeat constructor; reflexivity.
Defined.

(** With a list of secrets, each is good for one bootstrap. *)
Example docker_responses :
  match iv_response <$> (docker started
    [CallInit (init_request false (Some "s2")); CallInit (init_request false (Some "s2"));
     CallInit (init_request false (Some "s3")); InitResume 0 (quiet_env "1" 5) works;
     InitResume 0 (quiet_env "1" 5) works; InitRestart; CallInit (init_request false (Some "s2"));
     CallInit (init_request false (Some "s1"))]).1 with
  | [init_waits _; init_status 403; init_status 403; init_waits _; init_done _ _; init_status 403;
     init_waits _] => True
  | _ => False
  end.
Proof. vm_compute. exact I. Qed.

Lemma guardian_init_signs_in_witness :
  let env := quiet_env "1" 5 in
  let claims := guardian_access_claims "self" env (bootstrap_principal env empty_boot) in
  let '(log, st) := bare started [CallInit local_init; InitResume 0 env works; InitResume 0 env works] in
  ∃ r pr, iv_response <$> last log = Some (init_done r pr)
    ∧ (require 60000 false sample_hmac toy_sha (reader_of claims) guard_guardian (plain_env 9)
         (sample_request "203.0.113.7" (Some ("Bearer " +:+ pr.(pair_accessToken))))
         (edge_of st.(is_boot).(boot_db) st.(is_boot).(boot_tokens))).1 = admitted.
Proof.
  intros env claims.
  pose proof (guardian_init_signs_in None None false sample_hmac toy_sha "self" (reader_of claims) started
    local_init None env works "macos" "dev" None eq_refl) as H.
  cbv zeta in H. change (is_boot started) with empty_boot in H.
  destruct (bare started [CallInit local_init; InitResume 0 env works; InitResume 0 env works]) as [log st].
  destruct H as (r & pr & Hlog & H).
  - repeat split. right. vm_compute. reflexivity.
  - split; reflexivity.
  - vm_compute. reflexivity.
  - exact empty_bootstrappable.
  - apply reader_reads.
  - reflexivity.
  - reflexivity.
  - reflexivity.
  - exists r, pr. split; [exact Hlog|]. apply H; [reflexivity|reflexivity| |reflexivity..].
    intros scope Hs. discriminate Hs.
Defined.

(** The flag that holds resets off is one for all handlers: when two secrets are in use at
    once, the first to end clears it, and a reset goes through while the other is still
    at its bootstrap. *)
Lemma reset_during_bootstrap :
  let '(log, st) := docker started
    [CallInit (init_request false (Some "s1")); CallInit (init_request false (Some "s2"));
     InitResume 0 (quiet_env "1" 5) works; InitResume 0 (quiet_env "1" 5) works;
     InitResume 0 (quiet_env "1" 5) works; CallReset works (init_request false (Some "s1"))] in
  last (iv_response <$> log) = Some init_reset
  ∧ await_key <$> st.(is_awaiting) = [Some 1].
Proof. vm_compute. split; reflexivity. Qed.

(** A request that the web edge forwarded may not start a bootstrap; the reset has no such
    check, and unlocks the bootstrap for it. *)
Lemma edge_request_resets :
  let '(log, st) := bare (init_start consumed_absent true empty_boot)
                      [CallInit (init_request true None); CallReset works (init_request true None)] in
  iv_response <$> log = [init_status 403; init_reset] ∧ st.(is_lock) = false.
Proof. vm_compute. split; reflexivity. Qed.
