(* ===== verification/CredentialRequests.v ===== *)
(** One-time links that collect a credential
    ([gateway/src/db/credential-request-store.ts], [ipc/credential-request-handlers.ts],
    [http/routes/credential-requests.ts]).

    The daemon mints a link over IPC, somebody who has its token looks at it and sends the
    value, and the gateway claims the link and forwards the value to the daemon. A
    submission waits for the daemon in [ls_awaiting] while other requests are served; what
    the daemon answers, and whether it does, is part of the trace. [JSON.parse], the hash
    and the encoding of URI components are arguments. *)
From Stdlib Require Import Sorted.
From S2P Require Import Prelude JsString JsMap CanonicalJson.
From S2P Require Import AuthRateLimit EdgeTokens DeviceTokens EdgeAuth LoopbackGuard.

#[local] Open Scope Z_scope.

(** ** The store *)

Inductive LinkStatus := link_active | link_redeeming | link_redeemed | link_failed | link_revoked.
Inductive CredentialRequestPurpose := standalone | prompt.

#[export] Instance LinkStatus_eq_dec : EqDecision LinkStatus.
Proof. solve_decision. Defined.

Record CredentialRequestRow := {
  cr_id : string;
  cr_tokenHash : string;
  cr_purpose : CredentialRequestPurpose;
  cr_service : string;
  cr_field : string;
  cr_label : option string;
  cr_secretPromptId : option string;
  cr_policyJson : option string;
  cr_maxUses : Z;
  cr_useCount : Z;
  cr_expiresAt : Z;
  cr_status : LinkStatus;
  cr_redeemedAt : option Z;
  cr_createdAt : Z;
  cr_updatedAt : Z
}.

Notation LinkTable := (list CredentialRequestRow) (only parsing).

Definition MAX_ACTIVE_CREDENTIAL_REQUESTS : nat := 200.

(** What an update sets. *)
Definition set_link (status : LinkStatus) (useCount : Z) (redeemedAt : option Z) (now : Z)
    (r : CredentialRequestRow) : CredentialRequestRow :=
  {| cr_id := r.(cr_id); cr_tokenHash := r.(cr_tokenHash); cr_purpose := r.(cr_purpose);
     cr_service := r.(cr_service); cr_field := r.(cr_field); cr_label := r.(cr_label);
     cr_secretPromptId := r.(cr_secretPromptId); cr_policyJson := r.(cr_policyJson);
     cr_maxUses := r.(cr_maxUses); cr_useCount := useCount; cr_expiresAt := r.(cr_expiresAt);
     cr_status := status; cr_redeemedAt := redeemedAt; cr_createdAt := r.(cr_createdAt);
     cr_updatedAt := now |}.

(** [None]: the id is taken, and the insert throws. *)
Definition create_link (row : CredentialRequestRow) (t : LinkTable)
    : option (CredentialRequestRow * LinkTable) :=
  if existsb (λ r, String.eqb r.(cr_id) row.(cr_id)) t then None else Some (row, t ++ [row]).

Definition findByTokenHash (tokenHash : string) (t : LinkTable) : option CredentialRequestRow :=
  find_first (λ r, String.eqb r.(cr_tokenHash) tokenHash) t.

Definition is_live (now : Z) (r : CredentialRequestRow) : bool :=
  bool_decide (r.(cr_status) = link_active) && (now <? r.(cr_expiresAt)).

Definition countActive (now : Z) (t : LinkTable) : nat := length (List.filter (is_live now) t).

Definition claimable (id : string) (now : Z) (r : CredentialRequestRow) : bool :=
  String.eqb r.(cr_id) id && is_live now r.

Definition claimForSubmission (id : string) (now : Z) (t : LinkTable) : bool * LinkTable :=
  (existsb (claimable id now) t,
   (λ r, if claimable id now r
         then set_link link_redeeming r.(cr_useCount) r.(cr_redeemedAt) now r else r) <$> t).

Definition is_claimed (id : string) (r : CredentialRequestRow) : bool :=
  String.eqb r.(cr_id) id && bool_decide (r.(cr_status) = link_redeeming).

Definition completeRedemption (id : string) (now : Z) (t : LinkTable) : LinkTable :=
  (λ r, if is_claimed id r then set_link link_redeemed (r.(cr_useCount) + 1) (Some now) now r else r) <$> t.

Definition markFailed (id : string) (now : Z) (t : LinkTable) : LinkTable :=
  (λ r, if is_claimed id r then set_link link_failed r.(cr_useCount) r.(cr_redeemedAt) now r else r) <$> t.

(** ** Minting *)

Definition DEFAULT_CREDENTIAL_REQUEST_TTL_MS : Z := 30 * 60000.
Definition MAX_CREDENTIAL_REQUEST_TTL_MS : Z := 24 * 60 * 60000.
Definition RATE_LIMIT_MAX_CREATIONS : nat := 20.
Definition RATE_LIMIT_WINDOW_MS : Z := 60000.

Definition creationRateLimited (now : Z) (creationTimestamps : list Z) : bool * list Z :=
  let ts := prune (now - RATE_LIMIT_WINDOW_MS) creationTimestamps in
  if (RATE_LIMIT_MAX_CREATIONS <=? length ts)%nat then (true, ts) else (false, ts ++ [now]).

(** Parameters of the call, as its schema accepts them. *)
Record LinkParams := {
  mp_service : string;
  mp_field : string;
  mp_label : option string;
  mp_purpose : option CredentialRequestPurpose;
  mp_secretPromptId : option string;
  mp_policyJson : option string;
  mp_ttlMs : option Z
}.

Definition mint_schema (p : LinkParams) : bool :=
  truthy p.(mp_service) && truthy p.(mp_field)
  && match p.(mp_ttlMs) with Some ttl => 0 <? ttl | None => true end.

(** The fresh identifier and token of a link. *)
Record LinkSource := { lsrc_id : string; lsrc_token : string }.

(** What is sent to the daemon, for which link. *)
Record Forwarded := {
  fw_service : string;
  fw_field : string;
  fw_value : string;
  fw_label : option string;
  fw_policy : list (string * Json)
}.

Inductive TokenOutcome := token_invalid | token_expired | token_used.

Inductive LinkResponse :=
  | link_minted (row : CredentialRequestRow) (token url : string)
  | link_no_public_base_url | link_rate_limited | link_too_many_active
  | link_throws
  | link_status (status : Z)
  | link_refused (outcome : TokenOutcome)                       (** 404 *)
  | link_shown (service field : string) (label : option string) (expiresAt : Z)
  | link_forwards (id : string) (f : Forwarded)                 (** waits for the daemon *)
  | link_stored.

Record LinkState := {
  ls_rows : LinkTable;
  ls_creations : list Z;
  ls_awaiting : list string        (** the links whose value is with the daemon *)
}.

Section Links.
Context (sha256 : string → string) (JSON_parse : string → option Json)
        (encodeURIComponent : string → string).

Definition hashInviteToken (token : string) : string := sha256 token.

Definition minted_row (now : Z) (src : LinkSource) (p : LinkParams) : CredentialRequestRow :=
  let ttlMs := Z.min (default DEFAULT_CREDENTIAL_REQUEST_TTL_MS p.(mp_ttlMs)) MAX_CREDENTIAL_REQUEST_TTL_MS in
  {| cr_id := src.(lsrc_id); cr_tokenHash := hashInviteToken src.(lsrc_token);
     cr_purpose := default standalone p.(mp_purpose); cr_service := p.(mp_service);
     cr_field := p.(mp_field); cr_label := p.(mp_label); cr_secretPromptId := p.(mp_secretPromptId);
     cr_policyJson := p.(mp_policyJson); cr_maxUses := 1; cr_useCount := 0; cr_expiresAt := now + ttlMs;
     cr_status := link_active; cr_redeemedAt := None; cr_createdAt := now; cr_updatedAt := now |}.

(** [publicBaseUrl] is what the configuration resolves to; [ingressLive] whether the
    tunnel could be started. *)
Definition createCredentialRequest (now : Z) (src : LinkSource) (publicBaseUrl : option string)
    (ingressLive : bool) (p : LinkParams) (st : LinkState) : LinkResponse * LinkState :=
  if negb (mint_schema p) then (link_throws, st)
  else
    match DeviceTokens.nonempty publicBaseUrl with
    | None => (link_no_public_base_url, st)
    | Some base =>
        let '(limited, ts) := creationRateLimited now st.(ls_creations) in
        let st := {| ls_rows := st.(ls_rows); ls_creations := ts; ls_awaiting := st.(ls_awaiting) |} in
        if limited then (link_rate_limited, st)
        else if (MAX_ACTIVE_CREDENTIAL_REQUESTS <=? countActive now st.(ls_rows))%nat
        then (link_too_many_active, st)
        else
          match create_link (minted_row now src p) st.(ls_rows) with
          | None => (link_throws, st)
          | Some (row, rows) =>
              (if ingressLive
               then link_minted row src.(lsrc_token)
                      (base +:+ "/assistant/credentials/enter#token=" +:+ encodeURIComponent src.(lsrc_token))
               else link_throws,
               {| ls_rows := rows; ls_creations := st.(ls_creations); ls_awaiting := st.(ls_awaiting) |})
          end
    end.

(** ** Policies *)

Definition schema_string (v : option Json) : bool :=
  match v with None | Some (JStr _) => true | _ => false end.
Definition schema_strings (v : option Json) : bool :=
  match v with
  | None => true
  | Some (JArr xs) => forallb (λ x, match x with JStr _ => true | _ => false end) xs
  | _ => false
  end.
Definition schema_array (v : option Json) : bool :=
  match v with None | Some (JArr _) => true | _ => false end.

(** [PolicyJsonSchema.parse], as the fields of [credentials_set]; [None]: it throws. *)
Definition policy_fields (v : Json) : option (list (string * Json)) :=
  match v with
  | JObj kvs =>
      let get k := map_get k kvs in
      if schema_string (get "usageDescription") && schema_strings (get "allowedTools")
         && schema_strings (get "allowedDomains") && schema_array (get "injectionTemplates")
      then
        let field out k := match get k with Some v => [(out, v)] | None => [] end in
        Some (field "description" "usageDescription" ++ field "allowedTools" "allowedTools"
              ++ field "allowedDomains" "allowedDomains"
              ++ field "injectionTemplates" "injectionTemplates")
      else None
  | _ => None
  end.

Definition parsePolicy (policyJson : option string) : list (string * Json) :=
  match DeviceTokens.nonempty policyJson with
  | None => []
  | Some text => default [] (v ← JSON_parse text; policy_fields v)
  end.

(** ** The public routes *)

Definition lookupToken (now : Z) (token : string) (t : LinkTable) : TokenOutcome + CredentialRequestRow :=
  match findByTokenHash (hashInviteToken token) t with
  | None => inl token_invalid
  | Some row =>
      match row.(cr_status) with
      | link_revoked => inl token_invalid
      | link_redeemed | link_redeeming | link_failed => inl token_used
      | link_active => if row.(cr_expiresAt) <=? now then inl token_expired else inr row
      end
  end.

(** The status of the refusal, or the body. *)
Definition parseJsonBody (body : BodyRead) : Z + Json :=
  match body with
  | body_too_large => inl 413
  | body_unreadable | body_text None => inl 400
  | body_text (Some v) => inr v
  end.

Definition string_where (ok : nat → bool) (v : option Json) : option string :=
  match v with
  | Some (JStr s) => if ok (String.length s) then Some s else None
  | _ => None
  end.

Definition object_fields (v : Json) : list (string * Json) :=
  match v with JObj kvs => kvs | _ => [] end.

Definition token_of (v : Json) : option string :=
  string_where (λ n, 20 <=? n)%nat (map_get "token" (object_fields v)).

Definition submission (v : Json) : option (string * string) :=
  token ← token_of v;
  value ← string_where (λ n, (1 <=? Z.of_nat n) && (Z.of_nat n <=? 32768)) (map_get "value" (object_fields v));
  Some (token, value).

Definition handleCredentialRequestPeek (now : Z) (body : BodyRead) (st : LinkState) : LinkResponse :=
  match parseJsonBody body with
  | inl status => link_status status
  | inr v =>
      match token_of v with
      | None => link_status 400
      | Some token =>
          match lookupToken now token st.(ls_rows) with
          | inl outcome => link_refused outcome
          | inr row => link_shown row.(cr_service) row.(cr_field) row.(cr_label) row.(cr_expiresAt)
          end
      end
  end.

(** The value leaves for the daemon when the link could be claimed; the clock is read for
    the token and again for the claim. *)
Definition submit_claim (now claimAt : Z) (body : BodyRead) (st : LinkState) : LinkResponse * LinkState :=
  match parseJsonBody body with
  | inl status => (link_status status, st)
  | inr v =>
      match submission v with
      | None => (link_status 400, st)
      | Some (token, value) =>
          match lookupToken now token st.(ls_rows) with
          | inl outcome => (link_refused outcome, st)
          | inr row =>
              let '(claimed, rows) := claimForSubmission row.(cr_id) claimAt st.(ls_rows) in
              if negb claimed then (link_refused token_used, st)
              else
                (link_forwards row.(cr_id)
                   {| fw_service := row.(cr_service); fw_field := row.(cr_field); fw_value := value;
                      fw_label := row.(cr_label); fw_policy := parsePolicy row.(cr_policyJson) |},
                 {| ls_rows := rows; ls_creations := st.(ls_creations);
                    ls_awaiting := st.(ls_awaiting) ++ [row.(cr_id)] |})
          end
      end
  end.

(** The daemon stored the value, or the call failed somewhere. *)
Definition submit_answered (now : Z) (id : string) (stored : bool) (rows : LinkTable)
    : LinkResponse * LinkTable :=
  if stored then (link_stored, completeRedemption id now rows)
  else (link_status 502, markFailed id now rows).

(** ** The event loop *)

Inductive LinkCall :=
  | Mint (src : LinkSource) (publicBaseUrl : option string) (ingressLive : bool) (p : LinkParams)
  | Peek (body : BodyRead)
  | Submit (claimAt : Z) (body : BodyRead)
  | DaemonAnswers (i : nat) (stored : bool)
  | LinkRestart.                                  (** the table stays *)

Record LinkServed := { lv_time : Z; lv_call : LinkCall; lv_response : LinkResponse }.

Definition link_step (st : LinkState) (e : Z * LinkCall) : option LinkServed * LinkState :=
  let '(now, call) := e in
  let served (r : LinkResponse * LinkState) :=
    (Some {| lv_time := now; lv_call := call; lv_response := r.1 |}, r.2) in
  match call with
  | Mint src publicBaseUrl ingressLive p =>
      served (createCredentialRequest now src publicBaseUrl ingressLive p st)
  | Peek body => served (handleCredentialRequestPeek now body st, st)
  | Submit claimAt body => served (submit_claim now claimAt body st)
  | DaemonAnswers i stored =>
      match st.(ls_awaiting) !! i with
      | None => (None, st)
      | Some id =>
          let '(r, rows) := submit_answered now id stored st.(ls_rows) in
          served (r, {| ls_rows := rows; ls_creations := st.(ls_creations);
                        ls_awaiting := delete i st.(ls_awaiting) |})
      end
  | LinkRestart => (None, {| ls_rows := st.(ls_rows); ls_creations := []; ls_awaiting := [] |})
  end.

Definition link_run (st : LinkState) (trace : list (Z * LinkCall)) : list LinkServed * LinkState :=
  foldl (λ a e, let '(served, st) := link_step a.2 e in (a.1 ++ option_list served, st)) ([], st) trace.

Definition no_links : LinkState := {| ls_rows := []; ls_creations := []; ls_awaiting := [] |}.

(** ** What was agreed when a link was minted *)

Definition terms (r : CredentialRequestRow) :=
  (r.(cr_id), r.(cr_tokenHash), r.(cr_service), r.(cr_field), r.(cr_label), r.(cr_policyJson),
   r.(cr_expiresAt)).

(** The call made the link. Without a tunnel the link stays, though nobody learns its token. *)
Definition minted_by (m : LinkServed) (r : CredentialRequestRow) : Prop :=
  ∃ src publicBaseUrl live p,
    m.(lv_call) = Mint src publicBaseUrl live p
    ∧ terms (minted_row m.(lv_time) src p) = terms r
    ∧ if live
      then ∃ url, m.(lv_response) = link_minted (minted_row m.(lv_time) src p) src.(lsrc_token) url
      else m.(lv_response) = link_throws.

Definition forwards (id : string) (e : LinkServed) : bool :=
  match e.(lv_response) with link_forwards i _ => String.eqb i id | _ => false end.

(** The call carried a token and a value. *)
Definition submits (e : LinkServed) (claimAt : Z) (token value : string) : Prop :=
  ∃ body v, e.(lv_call) = Submit claimAt body ∧ parseJsonBody body = inr v
            ∧ submission v = Some (token, value).

(** A value left for the daemon under the terms of a link minted before, on behalf of
    somebody with the link's token, before the link expired. *)
Definition rightly_forwarded (pre : list LinkServed) (e : LinkServed) (id : string) (f : Forwarded) : Prop :=
  ∃ m r claimAt token,
    m ∈ pre ∧ minted_by m r ∧ r.(cr_id) = id
    ∧ submits e claimAt token f.(fw_value) ∧ hashInviteToken token = r.(cr_tokenHash)
    ∧ e.(lv_time) < r.(cr_expiresAt) ∧ claimAt < r.(cr_expiresAt)
    ∧ f = {| fw_service := r.(cr_service); fw_field := r.(cr_field); fw_value := f.(fw_value);
             fw_label := r.(cr_label); fw_policy := parsePolicy r.(cr_policyJson) |}.

(** ** How rows change *)

Definition is_spent (r : CredentialRequestRow) : bool :=
  mem r.(cr_status) [link_redeeming; link_redeemed; link_failed].

(** A row keeps its terms; it never becomes active again, and stays spent. *)
Record link_le (r r' : CredentialRequestRow) : Prop := {
  ll_terms : terms r' = terms r;
  ll_active : r'.(cr_status) = link_active → r' = r;
  ll_spent : is_spent r = true → is_spent r' = true
}.

#[export] Instance link_le_preorder : PreOrder link_le.
Proof.
  split; [by split|]. intros r1 r2 r3 [T1 A1 S1] [T2 A2 S2]. split; [congruence| |auto].
  intros H. pose proof (A2 H). subst. auto.
Qed.

Lemma set_link_le status n at_ now r :
  status ≠ link_active → (is_spent r = true → is_spent (set_link status n at_ now r) = true) →
  link_le r (set_link status n at_ now r).
Proof. intros H Hs. split; done. Qed.

Lemma claim_le id now t : Forall2 link_le t (claimForSubmission id now t).2.
Proof. apply Forall2_map_where; [apply _|]. intros r H. by apply set_link_le. Qed.

Lemma answered_le now id stored t : Forall2 link_le t (submit_answered now id stored t).2.
Proof.
  unfold submit_answered. destruct stored; simpl; apply Forall2_map_where; try apply _;
    intros r _; by apply set_link_le.
Qed.

Lemma link_le_id r r' : link_le r r' → r'.(cr_id) = r.(cr_id).
Proof. intros [H _ _]. by injection H. Qed.

Lemma link_le_ids t t' : Forall2 link_le t t' → cr_id <$> t' = cr_id <$> t.
Proof. induction 1 as [|r r' t t' H _ IH]; [done|]. csimpl. by rewrite IH, (link_le_id _ _ H). Qed.

(** ** A link forwards one value *)

Record link_inv (log : list LinkServed) (t : LinkTable) : Prop := {
  li_ids : NoDup (cr_id <$> t);
  li_minted : ∀ r, r ∈ t → ∃ m, m ∈ log ∧ minted_by m r;
  li_known : ∀ id, id ∉ cr_id <$> t → tally (forwards id) log = 0%nat;
  li_once : ∀ r, r ∈ t → (tally (forwards r.(cr_id)) log <= if is_spent r then 1 else 0)%nat
}.

Lemma minted_by_terms m r r' : terms r' = terms r → minted_by m r → minted_by m r'.
Proof. intros E (src & base & live & p & H1 & H2 & H3). exists src, base, live, p. by rewrite E. Qed.

Lemma forwards_snoc id log e :
  tally (forwards id) (log ++ [e]) = (tally (forwards id) log + if forwards id e then 1 else 0)%nat.
Proof. by rewrite tally_app, tally_one. Qed.

(** What moves rows on and forwards nothing. *)
Lemma inv_advances log t t' served :
  link_inv log t → Forall2 link_le t t' →
  (∀ e id, served = Some e → forwards id e = false) →
  link_inv (log ++ option_list served) t'.
Proof.
  intros [H1 H2 H3 H4] Ht Hq. pose proof (link_le_ids _ _ Ht) as Hids.
  assert (∀ id, tally (forwards id) (log ++ option_list served) = tally (forwards id) log) as Hn.
  { intros id. destruct served as [e|]; simpl; [|by rewrite app_nil_r].
    rewrite forwards_snoc, (Hq e id eq_refl). lia. }
  assert (∀ r', r' ∈ t' → ∃ r, r ∈ t ∧ link_le r r') as Hback.
  { intros r' Hr. apply list_elem_of_lookup in Hr as [i Hi].
    destruct (Forall2_lookup_r _ _ _ _ _ Ht Hi) as (r & Hri & Hle). exists r. split; [|done].
    by eapply list_elem_of_lookup_2. }
  split; [by rewrite Hids| | |].
  - intros r' Hr. destruct (Hback r' Hr) as (r & Hin & Hle). destruct (H2 r Hin) as (m & Hm & Hby).
    exists m. split; [apply elem_of_app; by left|]. eapply minted_by_terms; [|done]. apply Hle.
  - intros id Hid. rewrite Hn. apply H3. by rewrite <- Hids.
  - intros r' Hr. rewrite Hn. destruct (Hback r' Hr) as (r & Hin & Hle). specialize (H4 r Hin).
    rewrite (link_le_id _ _ Hle). pose proof (ll_spent _ _ Hle).
    destruct (is_spent r); [by rewrite H|]. destruct (is_spent r'); lia.
Qed.

Lemma inv_minted log t t' row row' e :
  link_inv log t → create_link row t = Some (row', t') → is_spent row = false →
  minted_by e row → (∀ id, forwards id e = false) → link_inv (log ++ [e]) t'.
Proof.
  intros [H1 H2 H3 H4] Hc Hs Hby Hq. unfold create_link in Hc.
  destruct (existsb _ t) eqn:Hex; [done|]. injection Hc as <- <-.
  assert (row.(cr_id) ∉ cr_id <$> t) as Hnew.
  { rewrite existsb_false in Hex. intros (r & E & Hr)%list_elem_of_fmap.
    specialize (Hex r Hr). apply String.eqb_neq in Hex. congruence. }
  assert (∀ id, tally (forwards id) (log ++ [e]) = tally (forwards id) log) as Hn.
  { intros id. rewrite forwards_snoc, Hq. lia. }
  split.
  - apply NoDup_fmap_snoc; [done|]. intros r Hr E. apply Hnew. rewrite <- E. by apply list_elem_of_fmap_2.
  - intros r [Hr|Hr%list_elem_of_singleton]%elem_of_app.
    + destruct (H2 r Hr) as (m & Hm & ?). exists m. split; [apply elem_of_app; by left|done].
    + subst. exists e. split; [apply elem_of_app; right; by left|done].
  - intros id Hid. rewrite Hn. apply H3. rewrite fmap_app in Hid. set_solver.
  - intros r Hr. rewrite Hn. apply elem_of_app in Hr as [Hr|Hr%list_elem_of_singleton]; [by apply H4|].
    subst. rewrite Hs, (H3 _ Hnew). lia.
Qed.

Lemma claimed_row id now t :
  (claimForSubmission id now t).1 = true → ∃ r, r ∈ t ∧ r.(cr_id) = id ∧ r.(cr_status) = link_active
                                                ∧ now < r.(cr_expiresAt).
Proof.
  simpl. rewrite existsb_true. intros (r & Hr & Hc). exists r. unfold claimable, is_live in Hc.
  bool_to_prop. done.
Qed.

(** The claim spends the link. *)
Lemma inv_claimed log t id now e :
  link_inv log t → (claimForSubmission id now t).1 = true →
  (∀ i, forwards i e = String.eqb id i) →
  link_inv (log ++ [e]) (claimForSubmission id now t).2.
Proof.
  intros [H1 H2 H3 H4] Hc Hf. pose proof (link_le_ids _ _ (claim_le id now t)) as Hids.
  destruct (claimed_row _ _ _ Hc) as (r0 & Hr0 & Hid & Hst & Hexp).
  split; [by rewrite Hids| | |].
  - intros r' (r & -> & Hr)%list_elem_of_fmap. destruct (H2 r Hr) as (m & Hm & Hby).
    exists m. split; [apply elem_of_app; by left|].
    eapply minted_by_terms; [|done]. by destruct (claimable id now r).
  - intros i Hi. rewrite Hids in Hi. rewrite forwards_snoc, Hf, (H3 i Hi).
    destruct (String.eqb_spec id i) as [<-|]; [|done]. destruct Hi. rewrite <- Hid.
    by apply list_elem_of_fmap_2.
  - intros r' (r & -> & Hr)%list_elem_of_fmap. rewrite forwards_snoc, Hf. specialize (H4 r Hr).
    destruct (String.eqb_spec id r.(cr_id)) as [E|Hne].
    + assert (r = r0) as -> by (by apply (NoDup_fmap_inv cr_id t); congruence).
      assert (is_spent r0 = false) as Hs by (unfold is_spent; by rewrite Hst).
      unfold claimable, is_live. rewrite Hs in H4. rewrite Hid, String.eqb_refl, Hst, (proj2 (Z.ltb_lt _ _) Hexp).
      simpl. rewrite Hid, String.eqb_refl in *. simpl. lia.
    + unfold claimable. rewrite (proj2 (String.eqb_neq _ _)) by congruence. simpl.
      rewrite (proj2 (String.eqb_neq _ _)) by congruence. lia.
Qed.

(** What a mint does to the table. *)
Lemma mint_rows now src base live p st :
  let '(r, st') := createCredentialRequest now src base live p st in
  (∀ id f, r ≠ link_forwards id f)
  ∧ (st'.(ls_rows) = st.(ls_rows)
     ∨ create_link (minted_row now src p) st.(ls_rows) = Some (minted_row now src p, st'.(ls_rows))
       ∧ if live then ∃ url, r = link_minted (minted_row now src p) src.(lsrc_token) url
         else r = link_throws).
Proof.
  unfold createCredentialRequest. destruct (negb _); [by split; [|left]|].
  destruct (DeviceTokens.nonempty _) as [base'|]; [|by split; [|left]].
  destruct (creationRateLimited _ _) as [[] ts]; [by split; [|left]|]. cbn [ls_rows].
  destruct (_ <=? _)%nat; [by split; [|left]|]. unfold create_link.
  destruct (existsb _ _); [by split; [|left]|].
  split; [by destruct live|]. right. split; [done|]. destruct live; [by eexists|done].
Qed.

(** What a submission found and did. *)
Lemma submit_cases now claimAt body st :
  let '(r, st') := submit_claim now claimAt body st in
  st' = st ∧ (∀ id f, r ≠ link_forwards id f)
  ∨ ∃ v token value row, parseJsonBody body = inr v ∧ submission v = Some (token, value)
      ∧ lookupToken now token st.(ls_rows) = inr row
      ∧ claimForSubmission row.(cr_id) claimAt st.(ls_rows) = (true, st'.(ls_rows))
      ∧ r = link_forwards row.(cr_id)
              {| fw_service := row.(cr_service); fw_field := row.(cr_field); fw_value := value;
                 fw_label := row.(cr_label); fw_policy := parsePolicy row.(cr_policyJson) |}.
Proof.
  unfold submit_claim. destruct (parseJsonBody body) as [|v]; [by left|].
  destruct (submission v) as [[token value]|] eqn:Es; [|by left].
  destruct (lookupToken _ _ _) as [|row] eqn:El; [by left|].
  destruct (claimForSubmission _ _ _) as [[] rows] eqn:Ec; simpl; [|by left].
  right. exists v, token, value, row. done.
Qed.

Lemma lookupToken_ok now token t row :
  lookupToken now token t = inr row →
  row ∈ t ∧ row.(cr_tokenHash) = hashInviteToken token ∧ row.(cr_status) = link_active
  ∧ now < row.(cr_expiresAt).
Proof.
  unfold lookupToken, findByTokenHash. destruct (find_first _ t) as [r|] eqn:E; [|done].
  apply find_first_Some in E as [Hin Hh]. bool_to_prop. destruct (cr_status r) eqn:Hs; try done.
  case_match; [done|]. intros [= <-]. bool_to_prop. done.
Qed.

Definition forwards_nothing (r : LinkResponse) : Prop := ∀ id f, r ≠ link_forwards id f.

Lemma forwards_none e id : forwards_nothing e.(lv_response) → forwards id e = false.
Proof. unfold forwards. destruct (lv_response e); try done. by intros []%(λ H, H id0 f). Qed.

Lemma link_step_inv log st call :
  link_inv log st.(ls_rows) →
  let '(served, st') := link_step st call in
  link_inv (log ++ option_list served) st'.(ls_rows)
  ∧ ∀ e id f, served = Some e → e.(lv_response) = link_forwards id f → rightly_forwarded log e id f.
Proof.
  intros Hinv. assert (Forall2 link_le st.(ls_rows) st.(ls_rows)) as Hrefl
    by (by apply Forall_Forall2_diag, Forall_forall).
  destruct call as [now [src base live p|body|claimAt body|i stored|]]; simpl.
  - pose proof (mint_rows now src base live p st) as H.
    destruct (createCredentialRequest _ _ _ _ _ _) as [r st']. destruct H as [Hr H]. simpl.
    split; [|intros e id f [= <-] E; by apply Hr in E]. destruct H as [->|[Hc Hl]].
    + apply (inv_advances _ _ _ (Some _) Hinv Hrefl). intros e id [= <-]. by apply forwards_none.
    + eapply inv_minted; [done|exact Hc|done| |intros id; by apply forwards_none].
      exists src, base, live, p. split_and!; [done|done|]. destruct live; done.
  - assert (forwards_nothing (handleCredentialRequestPeek now body st)) as Hr.
    { intros id f. unfold handleCredentialRequestPeek. cases_goal. }
    split; [|intros e id f [= <-] E; by apply Hr in E].
    apply (inv_advances _ _ _ (Some _) Hinv Hrefl). intros e id [= <-]. by apply forwards_none.
  - pose proof (submit_cases now claimAt body st) as H. destruct (submit_claim _ _ _ _) as [r st']. simpl.
    destruct H as [[-> Hr]|(v & token & value & row & Hb & Hs & Hl & Hc & ->)].
    { split; [|intros e id f [= <-] E; by apply Hr in E].
      apply (inv_advances _ _ _ (Some _) Hinv Hrefl). intros e id [= <-]. by apply forwards_none. }
    apply (f_equal fst) in Hc as Hc1. apply (f_equal snd) in Hc as Hc2. cbn [fst snd] in Hc1, Hc2.
    split; [rewrite <- Hc2; by apply inv_claimed|].
    intros e id f [= <-] [= <- <-]. destruct (lookupToken_ok _ _ _ _ Hl) as (Hin & Hh & _ & Hexp).
    destruct (li_minted _ _ Hinv row Hin) as (m & Hm & Hby).
    destruct (claimed_row _ _ _ Hc1) as (r & Hr & Hid & _ & Hexp').
    assert (r = row) as -> by (by apply (NoDup_fmap_inv cr_id st.(ls_rows)); [apply Hinv|..]).
    exists m, row, claimAt, token. split_and!; try done. exists body, v. done.
  - destruct (ls_awaiting st !! i) as [id|]; [|by rewrite app_nil_r].
    pose proof (answered_le now id stored st.(ls_rows)) as Hle.
    assert (forwards_nothing (submit_answered now id stored st.(ls_rows)).1) as Hr by (by destruct stored).
    destruct (submit_answered _ _ _ _) as [r rows]. simpl in *.
    split; [|intros e id' f [= <-] E; by apply Hr in E].
    apply (inv_advances _ _ _ (Some _) Hinv Hle). intros e id' [= <-]. by apply forwards_none.
  - by rewrite app_nil_r.
Qed.

Lemma link_run_snoc st trace e :
  link_run st (trace ++ [e])
  = let '(served, st') := link_step (link_run st trace).2 e in
    ((link_run st trace).1 ++ option_list served, st').
Proof. unfold link_run. by rewrite foldl_app. Qed.

Lemma link_run_inv trace :
  let '(log, st) := link_run no_links trace in link_inv log st.(ls_rows).
Proof.
  induction trace as [|call trace IH] using rev_ind.
  { split; [constructor|by intros r ?%elem_of_nil|done|by intros r ?%elem_of_nil]. }
  rewrite link_run_snoc. destruct (link_run no_links trace) as [log st]. cbn [fst snd].
  pose proof (link_step_inv log st call IH). destruct (link_step st call). apply H.
Qed.

(** C30: Over any calls, however the daemon's answers interleave with them and across
    restarts, a link forwards at most one value to the daemon; the value goes under the
    service, field, label and policy of the call that minted the link, on behalf of
    somebody with the link's token, before the link expired. *)
Theorem link_forwarded_once trace id :
  let log := (link_run no_links trace).1 in
  (tally (forwards id) log <= 1)%nat
  ∧ ∀ pre e post f, log = pre ++ e :: post → e.(lv_response) = link_forwards id f →
                    rightly_forwarded pre e id f.
Proof.
  intros log. split.
  - pose proof (link_run_inv trace) as Hinv. subst log. destruct (link_run no_links trace) as [log st].
    destruct Hinv as [_ _ H3 H4]. simpl. destruct (decide (id ∈ cr_id <$> st.(ls_rows))) as [Hin|Hno].
    + apply list_elem_of_fmap in Hin as (r & -> & Hr). specialize (H4 r Hr). destruct (is_spent r); lia.
    + rewrite (H3 _ Hno). lia.
  - subst log. induction trace as [|call trace IH] using rev_ind; [by intros []|].
    rewrite link_run_snoc. pose proof (link_run_inv trace) as Hinv.
    destruct (link_run no_links trace) as [log st]. cbn [fst snd] in *.
    pose proof (link_step_inv log st call Hinv) as Hs. destruct (link_step st call) as [[e'|] st']; simpl;
      [|rewrite app_nil_r; apply IH].
    intros pre e post f E Hf. destruct post as [|y post _] using rev_ind.
    + apply app_inj_tail in E as [-> ->]. by apply Hs.
    + rewrite app_comm_cons, app_assoc in E. apply app_inj_tail in E as [-> _]. by eapply IH.
Qed.

(** ** How many links there can be *)

(** When links were handed out. *)
Definition minted_at (log : list LinkServed) : list Z :=
  omap (λ e, match e.(lv_response) with link_minted _ _ _ => Some e.(lv_time) | _ => None end) log.

#[local] Arguments minted_at _ : simpl never.

Definition not_restart (e : Z * LinkCall) : Prop := match e.2 with LinkRestart => False | _ => True end.

(** The limiter's times against those of the links, at [now]. *)
Record mint_inv (now : Z) (times creations : list Z) : Prop := {
  mi_counts : ∀ c, now - RATE_LIMIT_WINDOW_MS <= c → (since c times <= since c creations)%nat;
  mi_within : ∀ c, (within RATE_LIMIT_WINDOW_MS c times <= RATE_LIMIT_MAX_CREATIONS)%nat;
  mi_sorted : StronglySorted Z.le creations;
  mi_past : Forall (λ t, t <= now) creations
}.

Lemma mint_inv_later now now' times creations :
  now <= now' → mint_inv now times creations → mint_inv now' times creations.
Proof.
  intros Hn [H1 H2 H3 H4]. split; [intros c Hc; apply H1; lia|done|done|].
  eapply Forall_impl; [exact H4|]. simpl. lia.
Qed.

(** A creation is admitted; it becomes a link, or not. *)
Lemma mint_inv_step now times creations limited ts :
  mint_inv now times creations → creationRateLimited now creations = (limited, ts) →
  mint_inv now times ts ∧ (limited = false → mint_inv now (times ++ [now]) ts).
Proof.
  intros [H1 H2 H3 H4] Hr. unfold creationRateLimited in Hr.
  set (cs := prune (now - RATE_LIMIT_WINDOW_MS) creations) in *.
  assert (mint_inv now times cs) as [P1 P2 P3 P4].
  { split; [|done|by apply prune_sorted_keeps|by apply prune_keeps].
    intros c Hc. unfold cs. rewrite since_prune by done. by apply H1. }
  destruct (Nat.leb_spec RATE_LIMIT_MAX_CREATIONS (length cs)); injection Hr as <- <-; [by split|].
  assert (StronglySorted Z.le (cs ++ [now])) as Hs by by apply sorted_snoc.
  assert (Forall (λ t, t <= now) (cs ++ [now])) as Hp by (apply Forall_app; split; [done|by constructor]).
  split; [|intros _]; split; try done.
  - intros c Hc. rewrite since_app. specialize (P1 c Hc). lia.
  - intros c Hc. rewrite !since_app. specialize (P1 c Hc). lia.
  - apply within_snoc; [done|]. eapply Nat.le_lt_trans; [by apply P1|]. unfold since.
    rewrite <- prune_sorted by done. eapply Nat.le_lt_trans; [|done].
    clear. induction cs as [|t cs IH]; simpl; [done|]. case_match; simpl; lia.
Qed.

Lemma mint_counted now src base live p st times :
  let '(r, st') := createCredentialRequest now src base live p st in
  mint_inv now times st.(ls_creations) →
  mint_inv now (times ++ match r with link_minted _ _ _ => [now] | _ => [] end) st'.(ls_creations).
Proof.
  unfold createCredentialRequest. destruct (negb _); [by rewrite app_nil_r|].
  destruct (DeviceTokens.nonempty _) as [base'|]; [|by rewrite app_nil_r].
  destruct (creationRateLimited _ _) as [limited ts] eqn:El. cbn [ls_rows ls_creations].
  assert (mint_inv now times st.(ls_creations) → mint_inv now (times ++ []) ts) as Hq
    by (intros H; rewrite app_nil_r; by eapply mint_inv_step).
  destruct limited; [done|]. destruct (_ <=? _)%nat; [done|].
  destruct (create_link _ _) as [[row rows]|]; [|done]. destruct live; [|done].
  intros H. by eapply mint_inv_step.
Qed.

Definition mints_nothing (r : LinkResponse) : Prop := ∀ row token url, r ≠ link_minted row token url.

Lemma submit_mints_nothing now claimAt body st :
  let '(r, st') := submit_claim now claimAt body st in
  st'.(ls_creations) = st.(ls_creations) ∧ mints_nothing r.
Proof. unfold submit_claim. repeat case_match; simplify_eq; done. Qed.

Lemma peek_mints_nothing now body st : mints_nothing (handleCredentialRequestPeek now body st).
Proof. unfold handleCredentialRequestPeek. repeat case_match; done. Qed.

Lemma minted_none e : mints_nothing e.(lv_response) → minted_at [e] = [].
Proof. unfold mints_nothing. destruct e as [n c []]; simpl; try done. by intros []%(λ H, H row token url). Qed.

Lemma step_mint_inv st now call times :
  not_restart (now, call) → mint_inv now times st.(ls_creations) →
  let '(served, st') := link_step st (now, call) in
  mint_inv now (times ++ minted_at (option_list served)) st'.(ls_creations).
Proof.
  intros Hr H. destruct call as [src base live p|body|claimAt body|i stored|]; simpl; [..|done].
  - pose proof (mint_counted now src base live p st times) as Hm.
    destruct (createCredentialRequest _ _ _ _ _ _) as [r st']. specialize (Hm H). by destruct r.
  - rewrite minted_none by apply peek_mints_nothing. by rewrite app_nil_r.
  - pose proof (submit_mints_nothing now claimAt body st) as Hs.
    destruct (submit_claim _ _ _ _) as [r st']. destruct Hs as [Hc Hm].
    rewrite minted_none by done. simpl. by rewrite app_nil_r, Hc.
  - destruct (ls_awaiting st !! i); [|by change (mint_inv now (times ++ []) st.(ls_creations)); rewrite app_nil_r].
    destruct stored; simpl; by rewrite minted_none, app_nil_r.
Qed.

Lemma countActive_later now now' t : now <= now' → (countActive now' t <= countActive now t)%nat.
Proof.
  intros Hn. unfold countActive. induction t as [|r t IH]; simpl; [done|].
  destruct (is_live now' r) eqn:E; [|destruct (is_live now r); simpl; lia].
  assert (is_live now r = true) as ->; [|simpl; lia]. unfold is_live in *. bool_to_prop.
  apply andb_true_intro. split; [by apply bool_decide_eq_true|]. apply Z.ltb_lt. lia.
Qed.

Lemma countActive_advances now t t' :
  Forall2 link_le t t' → (countActive now t' <= countActive now t)%nat.
Proof.
  unfold countActive. induction 1 as [|r r' t t' H _ IH]; simpl; [done|].
  destruct (is_live now r') eqn:Hl; [|destruct (is_live now r); simpl; lia].
  assert (r' = r) as ->; [|rewrite Hl; simpl; lia]. apply H. unfold is_live in Hl. by bool_to_prop.
Qed.

(** The table never holds more live links than the cap. *)
Lemma step_active st now call :
  (∀ t, now <= t → (countActive t st.(ls_rows) <= MAX_ACTIVE_CREDENTIAL_REQUESTS)%nat) →
  ∀ t, now <= t →
  (countActive t (link_step st (now, call)).2.(ls_rows) <= MAX_ACTIVE_CREDENTIAL_REQUESTS)%nat.
Proof.
  intros H t Ht. assert (∀ rows, Forall2 link_le st.(ls_rows) rows →
    (countActive t rows <= MAX_ACTIVE_CREDENTIAL_REQUESTS)%nat) as Hle.
  { intros rows Hr. etrans; [by eapply countActive_advances|by apply H]. }
  destruct call as [src base live p|body|claimAt body|i stored|]; simpl; try by apply H.
  - unfold createCredentialRequest. destruct (negb _); [by apply H|].
    destruct (DeviceTokens.nonempty _) as [base'|]; [|by apply H].
    destruct (creationRateLimited _ _) as [[] ts]; [by apply H|]. cbn [ls_rows].
    destruct (Nat.leb_spec MAX_ACTIVE_CREDENTIAL_REQUESTS (countActive now st.(ls_rows))); [by apply H|].
    unfold create_link. destruct (existsb _ _); [by apply H|]. cbn [snd ls_rows].
    pose proof (countActive_later now t st.(ls_rows) Ht) as Hl. unfold countActive in *.
    rewrite List.filter_app, length_app. simpl. destruct (is_live _ _); simpl; lia.
  - pose proof (submit_cases now claimAt body st) as Hs. destruct (submit_claim _ _ _ _) as [r st'].
    destruct Hs as [[-> _]|(v & token & value & row & _ & _ & _ & Hc & _)]; simpl; [by apply H|].
    apply Hle. apply (f_equal snd) in Hc. simpl in Hc. rewrite <- Hc. apply claim_le.
  - destruct (ls_awaiting st !! i) as [id|]; [|by apply H].
    pose proof (answered_le now id stored st.(ls_rows)) as Ha.
    destruct (submit_answered _ _ _ _). by apply Hle.
Qed.

Lemma sorted_snoc_inv ts t :
  StronglySorted Z.le (ts ++ [t]) → StronglySorted Z.le ts ∧ Forall (λ s, s <= t) ts.
Proof.
  induction ts as [|s ts IH]; simpl; [by repeat constructor|].
  intros [Hs Hall]%StronglySorted_inv. destruct (IH Hs). apply Forall_app in Hall as [Hall [Ht _]%Forall_cons].
  split; by constructor.
Qed.

(** What holds at the start, at any later time, and after every call holds of a trace whose
    times do not go back. *)
Lemma in_order (P : Z → list LinkServed → LinkState → Prop) (ok : Z * LinkCall → Prop) trace :
  (∀ now, P now [] no_links) →
  (∀ now now' log st, now <= now' → P now log st → P now' log st) →
  (∀ now log st call, ok (now, call) → P now log st →
     let '(served, st') := link_step st (now, call) in P now (log ++ option_list served) st') →
  StronglySorted Z.le trace.*1 → Forall ok trace →
  ∀ now, Forall (λ t, t <= now) trace.*1 → let '(log, st) := link_run no_links trace in P now log st.
Proof.
  intros H0 Hlater Hstep. induction trace as [|[t call] trace IH] using rev_ind; [intros; apply H0|].
  rewrite fmap_app. intros [Hs Ht]%sorted_snoc_inv [Hok [Hc _]%Forall_cons]%Forall_app now
    [_ [Hn _]%Forall_cons]%Forall_app.
  specialize (IH Hs Hok t Ht). rewrite link_run_snoc. destruct (link_run no_links trace) as [log st].
  specialize (Hstep t log st call Hc IH). cbn [fst snd]. destruct (link_step st (t, call)).
  by eapply Hlater.
Qed.

(** While the clock does not go back, the links handed out between two starts of the
    gateway are at most 20 in any minute, and at most 200 links are open at any time,
    restarts or not. *)
Theorem links_bounded trace now :
  StronglySorted Z.le trace.*1 → Forall (λ t, t <= now) trace.*1 →
  let '(log, st) := link_run no_links trace in
  (Forall not_restart trace →
   ∀ c, (within RATE_LIMIT_WINDOW_MS c (minted_at log) <= RATE_LIMIT_MAX_CREATIONS)%nat)
  ∧ (countActive now st.(ls_rows) <= MAX_ACTIVE_CREDENTIAL_REQUESTS)%nat.
Proof.
  intros Hs Hn.
  pose proof (in_order (λ now log st, mint_inv now (minted_at log) st.(ls_creations)) not_restart trace) as Hm.
  pose proof (in_order (λ now _ st, ∀ t, now <= t →
                (countActive t st.(ls_rows) <= MAX_ACTIVE_CREDENTIAL_REQUESTS)%nat) (λ _, True) trace) as Ha.
  destruct (link_run no_links trace) as [log st]. split.
  - intros Hr. refine (mi_within _ _ _ (Hm _ _ _ Hs Hr now Hn)).
    + split; [done|intros c; unfold within; simpl; lia|constructor|constructor].
    + intros; by eapply mint_inv_later.
    + intros t l s call Hc H. pose proof (step_mint_inv s t call _ Hc H) as H'.
      destruct (link_step s (t, call)). unfold minted_at. by rewrite omap_app.
  - refine (Ha _ _ _ Hs _ now Hn now _); [intros; unfold countActive; simpl; lia| | |by apply Forall_true|done].
    + intros t t' _ s Ht H u Hu. apply H. lia.
    + intros t _ s call _ H. pose proof (step_active s t call H). by destruct (link_step s (t, call)).
Qed.

(** ** A link works *)

Definition token_body (token : string) : BodyRead := body_text (Some (JObj [("token", JStr token)])).

Definition submit_body (token value : string) : BodyRead :=
  body_text (Some (JObj [("token", JStr token); ("value", JStr value)])).

Definition responses (r : list LinkServed * LinkState) : list LinkResponse := lv_response <$> r.1.

Lemma string_where_ok ok s : ok (String.length s) = true → string_where ok (Some (JStr s)) = Some s.
Proof. unfold string_where. by intros ->. Qed.

(** Where a row is told apart by its id and the hash of its token. *)
Definition apart (r : CredentialRequestRow) (t : LinkTable) : Prop :=
  ∀ y, y ∈ t → y.(cr_id) ≠ r.(cr_id) ∧ y.(cr_tokenHash) ≠ r.(cr_tokenHash).

Lemma find_apart r r' t :
  apart r t → r'.(cr_tokenHash) = r.(cr_tokenHash) → findByTokenHash r.(cr_tokenHash) (t ++ [r']) = Some r'.
Proof.
  intros Ha Hh. apply find_first_snoc; [|rewrite Hh; apply String.eqb_refl].
  intros y Hy. apply String.eqb_neq. by apply Ha.
Qed.

Lemma map_apart (f : CredentialRequestRow → bool) g (t : list CredentialRequestRow) :
  (∀ y, y ∈ t → f y = false) → ((λ r, if f r then g r else r) <$> t) = t.
Proof.
  intros H. rewrite <- (list_fmap_id t) at 2. apply list_fmap_ext. intros i y Hy%list_elem_of_lookup_2.
  by rewrite H.
Qed.

Lemma claim_apart r t now :
  apart r t → is_live now r = true →
  claimForSubmission r.(cr_id) now (t ++ [r])
  = (true, t ++ [set_link link_redeeming r.(cr_useCount) r.(cr_redeemedAt) now r]).
Proof.
  intros Ha Hl. assert (claimable r.(cr_id) now r = true) as Hc
    by (unfold claimable; by rewrite String.eqb_refl, Hl).
  unfold claimForSubmission. rewrite existsb_app, fmap_app, map_apart.
  - csimpl. by rewrite Hc, orb_true_r.
  - intros y Hy. unfold claimable. apply andb_false_intro1, String.eqb_neq. by apply Ha.
Qed.

Lemma complete_apart r t now :
  apart r t → r.(cr_status) = link_redeeming →
  completeRedemption r.(cr_id) now (t ++ [r])
  = t ++ [set_link link_redeemed (r.(cr_useCount) + 1) (Some now) now r].
Proof.
  intros Ha Hs. unfold completeRedemption. rewrite fmap_app, map_apart.
  - csimpl. unfold is_claimed. by rewrite String.eqb_refl, Hs.
  - intros y Hy. unfold is_claimed. apply andb_false_intro1, String.eqb_neq. by apply Ha.
Qed.

(** A link minted over a configured address, within the limits, collects its value: whoever
    has its token is shown what it collects, the first value sent before it expires goes to
    the daemon under the terms of the link and is stored, and from then on the token is used
    up. *)
Theorem link_collects t0 t1 t2 t3 t4 t5 src base p token value st :
  let row := minted_row t0 src p in
  mint_schema p = true → truthy base = true → src.(lsrc_token) = token →
  (20 <= String.length token)%nat → 1 <= Z.of_nat (String.length value) <= 32768 →
  (creationRateLimited t0 st.(ls_creations)).1 = false →
  (countActive t0 st.(ls_rows) < MAX_ACTIVE_CREDENTIAL_REQUESTS)%nat →
  apart row st.(ls_rows) → st.(ls_awaiting) = [] →
  t1 < row.(cr_expiresAt) → t2 < row.(cr_expiresAt) → t3 < row.(cr_expiresAt) →
  responses (link_run st
    [(t0, Mint src (Some base) true p); (t1, Peek (token_body token));
     (t2, Submit t3 (submit_body token value)); (t4, DaemonAnswers 0 true);
     (t5, Submit t5 (submit_body token value)); (t5, Peek (token_body token))])
  = [link_minted row token (base +:+ "/assistant/credentials/enter#token=" +:+ encodeURIComponent token);
     link_shown p.(mp_service) p.(mp_field) p.(mp_label) row.(cr_expiresAt);
     link_forwards src.(lsrc_id)
       {| fw_service := p.(mp_service); fw_field := p.(mp_field); fw_value := value;
          fw_label := p.(mp_label); fw_policy := parsePolicy p.(mp_policyJson) |};
     link_stored; link_refused token_used; link_refused token_used].
Proof.
  intros row Hp Hb <- Ht Hv Hr Hn Ha Hw H1 H2 H3.
  assert (Hcreate : ∃ ts, createCredentialRequest t0 src (Some base) true p st
    = (link_minted row src.(lsrc_token)
         (base +:+ "/assistant/credentials/enter#token=" +:+ encodeURIComponent src.(lsrc_token)),
       {| ls_rows := st.(ls_rows) ++ [row]; ls_creations := ts; ls_awaiting := [] |})).
  { unfold createCredentialRequest. rewrite Hp.
    assert (DeviceTokens.nonempty (Some base) = Some base) as -> by (by destruct base). cbn [negb].
    destruct (creationRateLimited _ _) as [l ts]. simpl in Hr. subst l. cbn [ls_rows].
    rewrite (proj2 (Nat.leb_gt _ _) Hn). unfold create_link. fold row.
    destruct (existsb _ st.(ls_rows)) eqn:E; [|exists ts; by rewrite Hw].
    apply existsb_exists in E as (y & Hy%list_elem_of_In & E%String.eqb_eq). by destruct (Ha y Hy). }
  destruct Hcreate as [ts Hcreate].
  assert (Htok : ∀ kvs, map_get "token" kvs = Some (JStr src.(lsrc_token)) →
                        token_of (JObj kvs) = Some src.(lsrc_token)).
  { intros kvs H. unfold token_of, object_fields. rewrite H. apply string_where_ok. by apply Nat.leb_le. }
  assert (Hsub : submission (JObj [("token", JStr src.(lsrc_token)); ("value", JStr value)])
                 = Some (src.(lsrc_token), value)).
  { unfold submission. rewrite Htok by done. change (map_get "value" _) with (Some (JStr value)).
    rewrite string_where_ok; [done|]. destruct Hv. apply andb_true_intro.
    split; by apply Z.leb_le. }
  assert (Hlook : ∀ r, r.(cr_tokenHash) = row.(cr_tokenHash) →
    findByTokenHash (hashInviteToken src.(lsrc_token)) (st.(ls_rows) ++ [r]) = Some r).
  { intros r Hh. by apply (find_apart row). }
  assert (Hshown : ∀ now, now < row.(cr_expiresAt) →
    lookupToken now src.(lsrc_token) (st.(ls_rows) ++ [row]) = inr row).
  { intros now Hnow. unfold lookupToken. rewrite Hlook by done.
    change (cr_status row) with link_active. cbv iota. by rewrite (proj2 (Z.leb_gt _ _) Hnow). }
  set (gone := set_link link_redeemed 1 (Some t4) t4 (set_link link_redeeming 0 None t3 row)).
  assert (Hgone : lookupToken t5 src.(lsrc_token) (st.(ls_rows) ++ [gone]) = inl token_used)
    by (unfold lookupToken; by rewrite Hlook).
  assert (Hdone : completeRedemption row.(cr_id) t4 (st.(ls_rows) ++ [set_link link_redeeming
                    row.(cr_useCount) row.(cr_redeemedAt) t3 row]) = st.(ls_rows) ++ [gone]).
  { by apply (complete_apart (set_link link_redeeming row.(cr_useCount) row.(cr_redeemedAt) t3 row)). }
  assert (Hclaim : submit_claim t2 t3 (submit_body src.(lsrc_token) value)
      {| ls_rows := st.(ls_rows) ++ [row]; ls_creations := ts; ls_awaiting := [] |}
    = (link_forwards src.(lsrc_id)
         {| fw_service := p.(mp_service); fw_field := p.(mp_field); fw_value := value;
            fw_label := p.(mp_label); fw_policy := parsePolicy p.(mp_policyJson) |},
       {| ls_rows := st.(ls_rows) ++ [set_link link_redeeming row.(cr_useCount) row.(cr_redeemedAt) t3 row];
          ls_creations := ts; ls_awaiting := [row.(cr_id)] |})).
  { unfold submit_claim. cbn [parseJsonBody submit_body ls_rows]. rewrite Hsub, Hshown by done.
    rewrite claim_apart; [done|done|]. apply andb_true_intro.
    split; [by apply bool_decide_eq_true|by apply Z.ltb_lt]. }
  unfold responses, link_run. cbn [foldl fst snd link_step]. rewrite Hcreate. cbn [fst snd option_list app].
  rewrite Hclaim. cbn [fst snd ls_awaiting lookup list_lookup submit_answered ls_rows]. rewrite Hdone.
  unfold handleCredentialRequestPeek, submit_claim. cbn [parseJsonBody token_body submit_body ls_rows fst snd].
  rewrite !Htok, Hsub, Hshown, Hgone by done. cbn [fst snd ls_rows]. by rewrite Hgone.
Qed.
End Links.

(** ** Witnesses *)

Definition sample_mint : LinkParams :=
  {| mp_service := "github"; mp_field := "api_key"; mp_label := Some "GitHub"; mp_purpose := None;
     mp_secretPromptId := None; mp_policyJson := None; mp_ttlMs := None |}.

Definition sample_source : LinkSource := {| lsrc_id := "r1"; lsrc_token := "abcdefghijklmnopqrstuvwxyz" |}.

Lemma link_collects_witness :
  responses (link_run (λ s, s) (λ _, None) (λ s, s) no_links
    [(0, Mint sample_source (Some "https://a.example") true sample_mint);
     (1, Peek (token_body "abcdefghijklmnopqrstuvwxyz"));
     (2, Submit 2 (submit_body "abcdefghijklmnopqrstuvwxyz" "s3cret")); (3, DaemonAnswers 0 true);
     (4, Submit 4 (submit_body "abcdefghijklmnopqrstuvwxyz" "s3cret"));
     (4, Peek (token_body "abcdefghijklmnopqrstuvwxyz"))])
  !! 2%nat
  = Some (link_forwards "r1" {| fw_service := "github"; fw_field := "api_key"; fw_value := "s3cret";
                                fw_label := Some "GitHub"; fw_policy := [] |}).
Proof.
  rewrite (link_collects (λ s, s) (λ _, None) (λ s, s) 0 1 2 2 3 4 sample_source "https://a.example"
    sample_mint "abcdefghijklmnopqrstuvwxyz" "s3cret" no_links);
    [reflexivity|reflexivity|reflexivity|reflexivity|vm_compute; lia|simpl; lia|reflexivity
    |vm_compute; lia|intros y Hy; exfalso; exact (not_elem_of_nil y Hy)|reflexivity
    |reflexivity|reflexivity|reflexivity].
Defined.

Lemma links_bounded_witness :
  let trace := [(0, Mint sample_source (Some "https://a.example") true sample_mint);
                (5, Peek (token_body "abcdefghijklmnopqrstuvwxyz"))] in
  let '(log, st) := link_run (λ s, s) (λ _, None) (λ s, s) no_links trace in
  (countActive 5 st.(ls_rows) <= MAX_ACTIVE_CREDENTIAL_REQUESTS)%nat.
Proof.
  pose proof (links_bounded (λ s, s) (λ _, None) (λ s, s)
    [(0, Mint sample_source (Some "https://a.example") true sample_mint);
     (5, Peek (token_body "abcdefghijklmnopqrstuvwxyz"))] 5) as H.
  simpl in H |- *. apply H; repeat constructor; lia.
Defined.
